(* ===== verification/_CoqProject ===== *)
-Q . S2P
Prelude.v
GoLib.v
Paths.v
Database.v
Sagas.v
Staging.v
StagingLaws.v
StagingFs.v
StagingContract.v
PodStore.v
PodEnv.v
PodManager.v
SpawnStore.v
SpawnLifecycle.v
SpawnContract.v
TransferSets.v
Registry.v
Router.v
RouterLaws.v
RouterContract.v
Scheduler.v
Pump.v
PumpLog.v
PumpTurns.v
PumpContract.v
DeviceSet.v
DeviceSetLaws.v
DeviceSetContract.v
ExecStream.v
Intent.v
IntentVerify.v
IntentContract.v
JournalQueue.v
NodeSessions.v
NodeSessionsInv.v
NodeSessionsContract.v
Transitions.v
TransitionLaws.v
TransitionWp.v
TransitionRules.v
TransitionContract.v
Migration.v
MigrationLedger.v
MigrationContract.v
CpEnv.v
Durability.v
SpawnNames.v
ForkCleanup.v
Fork.v
ForkSpawn.v
ForkLaws.v
ForkSettles.v
ForkSource.v
ForkContract.v
DurabilityLaws.v
Inventory.v
InventoryContract.v
RevocationStore.v
SessionAuth.v
RevocationSystem.v
RevocationContract.v
AuthStore.v
AuthFlow.v
AuthLaws.v
AuthFeed.v
AuthRuns.v
AuthSteps.v
AuthTransactions.v
AuthProgress.v
AuthContract.v
RevocationFeed.v
AuthExamples.v
AcpMux.v
AcpMuxLaws.v
AcpMuxTranscript.v
AcpMuxReplay.v
AcpMuxContract.v
DeltaMerge.v
DeltaMergeLaws.v
DeltaMergeContract.v
