(* ===== verification/Prelude.v ===== *)
(** * Spawnery: a verification library for the control plane, the nodes and the authorization service

    Spawnery runs agents ("spawns") in containers on nodes.  A control plane keeps a durable
    ledger of spawns, places them on registered nodes, relays bytes between clients and the
    nodes, and drives suspends and resumes.  A node relays between attached clients and an agent,
    keeps the sessions of a spawn, snapshots its journal, and checks for itself that what the
    control plane asks was signed by the user.  An authorization service issues session tokens
    and publishes their revocation to the nodes.  The users' devices keep a signed log of their
    enrolment.  This library models that core in Gallina, in the shape the Go code has, and
    proves what each part promises the others.

    ** How the code is modelled

    Go structs are records (updated field by field with [r <| f := v |>]), maps are [gmap]s, map
    iteration is an arbitrary enumeration or a filter, integers are [Z] with their wrap-around
    written where it can happen, strings are sequences of bytes.  A method that runs under one
    mutex is one function of the state the mutex guards.  A method that unlocks in between is
    several, and the goroutines are threads or program counters that interleave between them: an
    [Inductive] step relation, or a list of operations, with the theorems quantified over every
    run.  A function that returns an error returns a [result]; a panic is [None].  SQL statements
    are functions of tables (Database.v) that can fail as a list of outcomes says; transactions
    roll back.  Clocks, random values and the answers of everything outside the repository are
    arguments or are chosen by the environment of a run.  Cryptography, protobuf and JSON codecs
    are operations of type classes with their laws as a second class; each witness instantiates
    them with computable functions.

    ** The parts

    Shared: Prelude.v (records, results, integers, automation), GoLib.v (strings, integers and
    times as Go has them), Paths.v (path/filepath), Database.v (SQL statements and transactions),
    Sagas.v (programs that write a store step by step among others, with weakest preconditions).

    The control plane:
    - The spawn ledger (internal/cp/store): SpawnStore.v, the histories and invariants in
      SpawnLifecycle.v, the contract in SpawnContract.v: one live episode per spawn, the optimistic
      lock, leases that fence, deletion that is final.  TransferSets.v: the sets of a migration or
      fork.
    - The node registry (internal/cp/registry): Registry.v: placement picks the best eligible node
      whatever the order of the map.
    - The session router (internal/cp/router): Router.v, RouterLaws.v, RouterContract.v: no double
      close, frames reach the attachment they are for, nobody waits on a dead attachment.
    - The scheduler (internal/cp/scheduler): Scheduler.v: the threads of Provision against the
      node's reports.
    - Suspend and resume (internal/cp/lifecycle.go): Transitions.v (drivers as programs of type
      [prog]), TransitionLaws.v (the driver among everything else, runs), a rely-guarantee weakest
      precondition in TransitionWp.v, its rules in TransitionRules.v, TransitionContract.v: drivers
      settle the row whatever interferes, with statements that do not fail.
    - Migration (internal/cp/lifecycle.go): Migration.v, MigrationLedger.v, MigrationContract.v.
    - Handlers as sagas: CpEnv.v (what they ask), Durability.v and DurabilityLaws.v (no mount is
      left behind), SpawnNames.v (a free display name).
    - Forking (internal/cp/fork*.go): ForkCleanup.v, Fork.v, ForkSpawn.v (the handler, its
      materializers, the cleanup and recovery of failed forks), ForkLaws.v, ForkSettles.v,
      ForkSource.v, ForkContract.v: all or nothing, the source is given back, what is deleted has
      been cleaned.
    - A node's inventory and its re-adoption (internal/cp/server.go, readopt.go, evaluators.go,
      internal/node/readopt.go): Inventory.v, InventoryContract.v.

    A node:
    - Artifact staging (internal/spawnlet/artifacts.go, secrets.go): Staging.v, StagingLaws.v (where
      its paths lead), StagingFs.v (a file system that answers it), StagingContract.v.
    - The pods (internal/spawnlet): PodStore.v (the records and reservations, by pointer, in any
      interleaving), PodEnv.v (what the manager asks, its pure parts), PodManager.v (creation,
      teardown, the suspend gate, re-adoption).
    - The agent relay (internal/node/pump.go): Pump.v, PumpLog.v, PumpTurns.v, PumpContract.v:
      prompts in order, turns one at a time, subscribers that miss nothing.
    - The in-container multiplexer (internal/acpmux): AcpMux.v, AcpMuxLaws.v, AcpMuxTranscript.v,
      AcpMuxReplay.v, AcpMuxContract.v: every prompt is answered once, after its turn's updates.
    - A spawn's sessions (internal/node/sessions.go, attach.go): NodeSessions.v, NodeSessionsInv.v,
      NodeSessionsContract.v: one owner per live relay, no leak.
    - The journal queue (internal/storage/journal/queue.go): JournalQueue.v.
    - Delta merging (internal/deltamerge): DeltaMerge.v, DeltaMergeLaws.v, DeltaMergeContract.v:
      the merged layer does to a base image what the layers did.
    - The exec stream (internal/execstream): ExecStream.v.

    Trust:
    - Signed intents (internal/intent, internal/node/intentverify.go): Intent.v, IntentVerify.v,
      IntentContract.v: what is accepted, exactly; no replay.
    - The device-set log (internal/secrets/seal): DeviceSet.v, DeviceSetLaws.v,
      DeviceSetContract.v: the verifier accepts the chains of the owner root and no other log.
    - A node's revocations and live sessions (internal/node/revocation_store.go, revocation.go,
      sessionauth.go): RevocationStore.v, SessionAuth.v, RevocationSystem.v, RevocationContract.v.
    - The authorization service (internal/authsvc): AuthStore.v (repositories), AuthFlow.v
      (handlers), the invariants in AuthLaws.v, AuthFeed.v, AuthRuns.v (transactions in any
      interleaving), AuthSteps.v, AuthTransactions.v, AuthProgress.v, AuthContract.v.
    - The revocation feed, from the service to a node: RevocationFeed.v composes the two sides;
      AuthExamples.v has concrete runs of both.

    How they meet: the drivers of Transitions.v and Migration.v and the sagas of the fork handler
    and the inventory call the methods of SpawnStore.v and TransferSets.v on the tables of
    Database.v; the sagas of Staging.v and PodManager.v are those of Sagas.v with other questions;
    Intent.v's class of cryptography serves IntentVerify.v and AuthFlow.v; SessionAuth.v asks
    RevocationStore.v's snapshot through the lookup of IntentVerify.v; RevocationFeed.v runs
    AuthStore.v's pages into RevocationStore.v.

    ** What the theorems assume

    Only what is written in their statements.  The usual ones: the node's and the service's
    clocks do not go back; random identifiers are fresh where a step draws them; the driver's
    rely (nobody takes a held claim or moves a transient row); the laws of the cryptographic
    classes where honest users are concerned (what a verifier accepts is characterised without
    them).  Where a function needs fuel it is the length of its input, and the theorems say the
    answer is reached ([poll_catches_up], [demux], path cleaning, [fetch_is_bounded]).

    ** Not modelled

    Most RPC handlers of internal/cp/server.go and ws.go (decoding, authorisation and calls of the
    parts above), among them the creation and re-creation of spawns with the artifacts and mounts
    they validate; the profiles, bundles, skills, secrets and customization catalogues of the
    control plane; the node's message loop, its side of forking, its GitHub credentials; the
    container runtimes, storage backends and journal repositories, whose behaviour is that of
    containerd, docker, git and Kopia; the sidecar; the adapters that translate other agents'
    protocols; the GitHub flows, rate limits, PKI issuance and the HTTP layer of the authorization
    service; command line programs, configuration, logging, metrics; generated protobuf code and
    the TypeScript clients.  JSON and protobuf encodings are parameters, not definitions. *)

From stdpp Require Export base tactics option list gmap strings fin_maps sorting.
From Stdlib Require Export ZArith Lia.

#[export] Set Default Goal Selector "!".
#[export] Set Warnings "-notation-overridden,-clear-no-such-hyp,-implicit-create-rewrite-hint-db".

(** ** Functional record update

    Go code assigns single fields of a struct.  [r <| f := v |>] is the copy of [r] whose field
    [f] is [v]; [r <| f ::= g |>] applies [g] to the field.  An instance of [Eta] lists the
    fields of a record once; the setter of a field is found by abstracting the field in that
    list. *)

Class Eta (R : Type) := eta_expand : R -> R.
Class Setter {R E : Type} (get : R -> E) := set_field : (E -> E) -> R -> R.
Arguments set_field {_ _} _ {_} _ _ /.

Ltac build_setter get :=
  match type of get with
  | ?R -> ?E =>
      let H := constr:(_ : Eta R) in
      let e := eval hnf in (@eta_expand R H) in
      exact (fun (f : E -> E) (r : R) =>
               ltac:(let body := eval cbv beta in (e r) in
                     let p := eval pattern (get r) in body in
                     match p with
                     | ?C _ => let t := eval cbv beta in (C (f (get r))) in exact t
                     end))
  end.

#[export] Hint Extern 0 (Setter ?get) => build_setter get : typeclass_instances.

Declare Scope record_scope.
Delimit Scope record_scope with record.
Notation "r <| f ::= g |>" := (set_field f g r)
  (at level 1, f at next level, left associativity) : record_scope.
Notation "r <| f := v |>" := (set_field f (fun _ => v) r)
  (at level 1, f at next level, left associativity) : record_scope.
Open Scope record_scope.
Open Scope Z_scope.

(** ** Results: a Go function returning [(T, error)] *)

Abbreviation result E A := (sum E A).
Abbreviation Err := (@inl _ _).
Abbreviation Ok := (@inr _ _).

Definition is_ok {E A} (r : result E A) : bool :=
  match r with Ok _ => true | Err _ => false end.

(** ** Machine integers *)

(** Go's [uint64]/[uint32] arithmetic wraps modulo 2^64 / 2^32. *)
Definition u64 (z : Z) : Z := z `mod` 2 ^ 64.
Definition u32 (z : Z) : Z := z `mod` 2 ^ 32.
(** [int32(x)]: reinterpret the low 32 bits as a two's complement number. *)
Definition i32 (z : Z) : Z := let w := u32 z in if w <? 2 ^ 31 then w else w - 2 ^ 32.

Lemma u64_small z : 0 <= z < 2 ^ 64 -> u64 z = z.
Proof. apply Z.mod_small. Qed.
Lemma u32_small z : 0 <= z < 2 ^ 32 -> u32 z = z.
Proof. apply Z.mod_small. Qed.
Lemma u32_range z : 0 <= u32 z < 2 ^ 32.
Proof. apply Z.mod_pos_bound. lia. Qed.
Lemma u64_range z : 0 <= u64 z < 2 ^ 64.
Proof. apply Z.mod_pos_bound. lia. Qed.
Lemma i32_u32 z : i32 (u32 z) = i32 z.
Proof. unfold i32, u32. by rewrite Z.mod_mod by lia. Qed.
Lemma i32_small z : - 2 ^ 31 <= z < 2 ^ 31 -> i32 z = z.
Proof.
  intros Hz. unfold i32, u32. destruct (decide (0 <= z)).
  - rewrite Z.mod_small by lia. destruct (Z.ltb_spec z (2 ^ 31)); lia.
  - replace (z `mod` 2 ^ 32) with (z + 2 ^ 32).
    + destruct (Z.ltb_spec (z + 2 ^ 32) (2 ^ 31)); lia.
    + apply Z.mod_unique_pos with (-1); lia.
Qed.

(** ** Reflection of the boolean tests used by the models *)

Create HintDb refl_bool.
#[export] Hint Rewrite Bool.andb_true_iff Bool.orb_true_iff Bool.negb_true_iff Bool.andb_false_iff
  Bool.orb_false_iff Bool.negb_false_iff
  Z.eqb_eq Z.eqb_neq Z.ltb_lt Z.ltb_ge Z.leb_le Z.leb_gt
  Nat.eqb_eq Nat.eqb_neq Nat.ltb_lt Nat.ltb_ge Nat.leb_le Nat.leb_gt
  String.eqb_eq String.eqb_neq @bool_decide_eq_true @bool_decide_eq_false : refl_bool.

Ltac brefl := autorewrite with refl_bool in *.

(** Case analysis on every [if]/[match] scrutinee of the goal, remembering the equation. *)
Ltac cases := repeat (case_match; simplify_eq/=).

(** ** Nullable columns and pointer fields *)

Definition opt_eqb {A} `{EqDecision A} (o : option A) (a : A) : bool := bool_decide (o = Some a).
(** SQL [col < x], where a NULL column makes the comparison not true. *)
Definition opt_ltb (o : option Z) (z : Z) : bool :=
  match o with Some d => d <? z | None => false end.
Definition is_none {A} (o : option A) : bool :=
  match o with None => true | Some _ => false end.
