(* ===== verification/GoLib.v ===== *)
(** * Byte strings as Go sees them

    A Go string is a sequence of bytes; the models use [string] for it, one [ascii] per byte.
    Here are the pieces of the packages [strings] and [unicode/utf8] the modelled code calls. *)

From Stdlib Require Import Ascii.
From stdpp Require Import pretty.
From S2P Require Import Prelude.
Open Scope Z_scope.

Abbreviation bytes := (list ascii).

Definition byte_of (a : ascii) : Z := Z.of_N (N_of_ascii a).
Definition bytes_of (s : string) : list ascii := String.list_ascii_of_string s.
Definition of_bytes (l : list ascii) : string := String.string_of_list_ascii l.
(** [len(s)] *)
Definition blen (s : string) : Z := Z.of_nat (String.length s).

Lemma length_bytes_of s : length (bytes_of s) = String.length s.
Proof. unfold bytes_of. induction s; simpl; congruence. Qed.
Lemma length_of_bytes l : String.length (of_bytes l) = length l.
Proof. unfold of_bytes. induction l; simpl; congruence. Qed.
Lemma bytes_of_of_bytes l : bytes_of (of_bytes l) = l.
Proof. apply String.list_ascii_of_string_of_list_ascii. Qed.

(** [s[:n]] for [0 <= n <= len(s)]. *)
Definition slice_to (n : nat) (s : string) : string := of_bytes (take n (bytes_of s)).

Lemma blen_slice_to n s : Z.of_nat n <= blen s -> blen (slice_to n s) = Z.of_nat n.
Proof.
  unfold blen, slice_to. intros Hn.
  rewrite length_of_bytes, length_take, length_bytes_of. lia.
Qed.

(** [strconv.Itoa] *)
Definition Itoa (z : Z) : string := pretty z.
#[export] Instance Itoa_inj : Inj (=) (=) Itoa.
Proof. apply _. Qed.

(** [strings.Contains(s, sub)] *)
Definition Contains (s sub : string) : bool := negb (is_none (String.index 0 sub s)).

(** [strings.HasPrefix(s, prefix)] *)
Definition HasPrefix (s prefix : string) : bool := String.prefix prefix s.

(** ** UTF-8 *)

Definition in_range (lo hi : Z) (a : ascii) : bool := (lo <=? byte_of a) && (byte_of a <=? hi).
Definition cont (a : ascii) : bool := in_range 0x80 0xBF a.

(** Width of the well-formed UTF-8 sequence [l] starts with, 0 if there is none
    ([utf8.DecodeRune] answering RuneError with width 1). *)
Definition rune_width (l : list ascii) : nat :=
  match l with
  | [] => 0
  | a :: l =>
    if in_range 0x00 0x7F a then 1 else
    match l with
    | [] => 0
    | b :: l =>
      if in_range 0xC2 0xDF a && cont b then 2 else
      match l with
      | [] => 0
      | c :: l =>
        if cont c &&
           ((in_range 0xE0 0xE0 a && in_range 0xA0 0xBF b)
            || (in_range 0xE1 0xEC a && cont b)
            || (in_range 0xED 0xED a && in_range 0x80 0x9F b)
            || (in_range 0xEE 0xEF a && cont b)) then 3 else
        match l with
        | [] => 0
        | d :: _ =>
          if cont c && cont d &&
             ((in_range 0xF0 0xF0 a && in_range 0x90 0xBF b)
              || (in_range 0xF1 0xF3 a && cont b)
              || (in_range 0xF4 0xF4 a && in_range 0x80 0x8F b)) then 4 else 0
        end
      end
    end
  end%nat.

(** [strings.ToValidUTF8(s, "")]: drop every byte that is not part of a well-formed sequence.
    The fuel is the length: each round consumes at least one byte. *)
Fixpoint valid_bytes (fuel : nat) (l : list ascii) : list ascii :=
  match fuel, l with
  | O, _ | _, [] => []
  | S n, a :: l' =>
      match rune_width l with
      | O => valid_bytes n l'
      | w => take w l ++ valid_bytes n (drop w l)
      end
  end.
Definition to_valid_utf8 (s : string) : string :=
  let l := bytes_of s in of_bytes (valid_bytes (length l) l).

(** A byte sequence made of well-formed UTF-8 sequences. *)
Inductive utf8 : list ascii -> Prop :=
| utf8_nil : utf8 []
| utf8_app l w : rune_width l = w -> (0 < w)%nat -> utf8 (drop w l) -> utf8 l.

Arguments rune_width : simpl never.

Lemma rune_width_le l : (rune_width l <= length l)%nat.
Proof. unfold rune_width. repeat case_match; simpl; lia. Qed.

(** The width only depends on the bytes of the sequence itself. *)
Lemma rune_width_take_app l l' w :
  rune_width l = S w -> rune_width (take (S w) l ++ l') = S w.
Proof.
  unfold rune_width.
  destruct l as [|a [|b [|c [|d l]]]]; intros Hw;
    repeat (case_match; simplify_eq/=; try congruence).
Qed.

Lemma valid_bytes_length n l : (length (valid_bytes n l) <= length l)%nat.
Proof.
  revert l. induction n as [|n IH]; intros [|a l]; cbn [valid_bytes]; [simpl; lia..|].
  destruct (rune_width (a :: l)) as [|w] eqn:Hw.
  - specialize (IH l). simpl. lia.
  - rewrite length_app. specialize (IH (drop (S w) (a :: l))).
    rewrite length_drop in IH. pose proof (rune_width_le (a :: l)) as Hle. rewrite Hw in Hle.
    simpl in *. rewrite length_take. lia.
Qed.

Lemma valid_bytes_utf8 n l : utf8 (valid_bytes n l).
Proof.
  revert l. induction n as [|n IH]; intros [|a l]; cbn [valid_bytes]; [constructor..|].
  destruct (rune_width (a :: l)) as [|w] eqn:Hw; [apply IH|].
  pose proof (rune_width_le (a :: l)) as Hle.
  apply (utf8_app _ (S w)); [by apply rune_width_take_app|lia|].
  rewrite drop_app_length'; [apply IH|]. rewrite length_take. lia.
Qed.

Lemma to_valid_utf8_spec s :
  utf8 (bytes_of (to_valid_utf8 s)) /\ blen (to_valid_utf8 s) <= blen s.
Proof.
  unfold to_valid_utf8, blen. rewrite bytes_of_of_bytes, length_of_bytes. split.
  - apply valid_bytes_utf8.
  - rewrite <- (length_bytes_of s). pose proof (valid_bytes_length (length (bytes_of s)) (bytes_of s)). lia.
Qed.

(** ** Big-endian integers (encoding/binary) *)

(** The [n] low bytes of [v], most significant first. *)
Fixpoint big_endian (n : nat) (v : Z) : bytes :=
  match n with
  | O => []
  | S n => ascii_of_N (Z.to_N (Z.shiftr v (8 * Z.of_nat n) `mod` 256)) :: big_endian n v
  end.
(** The unsigned integer a byte sequence spells. *)
Definition read_be (l : bytes) : Z := foldl (fun acc a => acc * 256 + byte_of a) 0 l.

Lemma length_big_endian n v : length (big_endian n v) = n.
Proof. induction n; simpl; congruence. Qed.

Lemma ascii_of_N_inj a b :
  (a < 256)%N -> (b < 256)%N -> ascii_of_N a = ascii_of_N b -> a = b.
Proof.
  intros Ha Hb Heq. apply (f_equal N_of_ascii) in Heq.
  by rewrite !N_ascii_embedding in Heq by done.
Qed.

(** The rounds of [big_endian] and [read_be] as Euclidean division. *)
Lemma big_endian_step n v :
  v `mod` 256 ^ Z.of_nat (S n) =
  v `mod` 256 ^ Z.of_nat n + 256 ^ Z.of_nat n * (Z.shiftr v (8 * Z.of_nat n) `mod` 256).
Proof.
  rewrite Z.shiftr_div_pow2 by lia.
  rewrite Nat2Z.inj_succ, Z.pow_succ_r by lia.
  rewrite Z.pow_mul_r by lia. change (2 ^ 8) with 256.
  rewrite (Z.mul_comm 256). by rewrite Z.rem_mul_r by lia.
Qed.

Lemma big_endian_inj n v w :
  0 <= v < 256 ^ Z.of_nat n -> 0 <= w < 256 ^ Z.of_nat n ->
  big_endian n v = big_endian n w -> v = w.
Proof.
  assert (forall n v w, 0 <= v -> 0 <= w -> big_endian n v = big_endian n w ->
    v `mod` 256 ^ Z.of_nat n = w `mod` 256 ^ Z.of_nat n) as Hmod.
  2: { intros Hv Hw Heq. apply Hmod in Heq; [|lia..]. by rewrite !Z.mod_small in Heq by lia. }
  clear. intros n v w Hv Hw. induction n as [|n IH]; [by rewrite !Z.mod_1_r|].
  intros Heq. cbn [big_endian] in Heq. injection Heq as Hhd Htl. specialize (IH Htl).
  rewrite !big_endian_step, IH by lia. f_equal. f_equal.
  apply ascii_of_N_inj in Hhd.
  - apply (f_equal Z.of_N) in Hhd. rewrite !Z2N.id in Hhd; [done|apply Z.mod_pos_bound; lia..].
  - pose proof (Z.mod_pos_bound (Z.shiftr v (8 * Z.of_nat n)) 256). lia.
  - pose proof (Z.mod_pos_bound (Z.shiftr w (8 * Z.of_nat n)) 256). lia.
Qed.

Lemma byte_of_ascii v : 0 <= v < 256 -> byte_of (ascii_of_N (Z.to_N v)) = v.
Proof. intros Hv. unfold byte_of. rewrite N_ascii_embedding by lia. lia. Qed.

Lemma read_be_acc l acc :
  foldl (fun acc a => acc * 256 + byte_of a) acc l
  = acc * 256 ^ Z.of_nat (length l) + read_be l.
Proof.
  unfold read_be. revert acc. induction l as [|a l IH]; intros acc; cbn [foldl length].
  { rewrite Z.mul_1_r. lia. }
  rewrite (IH (acc * 256 + _)), (IH (0 * 256 + _)).
  rewrite Nat2Z.inj_succ, Z.pow_succ_r by lia. ring.
Qed.

Lemma read_be_big_endian n v : read_be (big_endian n v) = v `mod` 256 ^ Z.of_nat n.
Proof.
  induction n as [|n IH]; [by rewrite Z.mod_1_r|].
  rewrite big_endian_step, <- IH. cbn [big_endian]. unfold read_be at 1. cbn [foldl].
  rewrite read_be_acc, length_big_endian, byte_of_ascii; [ring|].
  apply Z.mod_pos_bound. lia.
Qed.

(** ** Decimal integers (strconv) *)

Definition digit (a : ascii) : option Z :=
  let v := byte_of a - 48 in if (0 <=? v) && (v <=? 9) then Some v else None.
Fixpoint digits (acc : Z) (l : bytes) : option Z :=
  match l with
  | [] => Some acc
  | a :: l => match digit a with Some d => digits (acc * 10 + d) l | None => None end
  end.
Definition parse_int (s : string) : option Z :=
  match bytes_of s with
  | [] => None
  | a :: l =>
      if Ascii.eqb a "-" then match l with [] => None | _ => Z.opp <$> digits 0 l end
      else if Ascii.eqb a "+" then match l with [] => None | _ => digits 0 l end
      else digits 0 (a :: l)
  end.

(** [strconv.Atoi]: the value and whether the error is nil; a syntax error has the value 0, a
    number out of range the nearest int. *)
Definition Atoi (s : string) : Z * bool :=
  match parse_int s with
  | None => (0, false)
  | Some v => if 2 ^ 63 <=? v then (2 ^ 63 - 1, false)
              else if v <? - 2 ^ 63 then (- 2 ^ 63, false) else (v, true)
  end.

Lemma digit_pretty_N_char x : (x < 10)%N -> digit (pretty_N_char x) = Some (Z.of_N x).
Proof.
  intros Hx. destruct (decide (x = 0 \/ x = 1 \/ x = 2 \/ x = 3 \/ x = 4 \/ x = 5 \/ x = 6 \/
    x = 7 \/ x = 8 \/ x = 9)%N) as [Hc|]; [|lia].
  by repeat destruct Hc as [->|Hc]; [..|subst].
Qed.

Lemma digits_pretty_N_go x s :
  digits 0 (bytes_of (pretty_N_go x s)) = digits (Z.of_N x) (bytes_of s).
Proof.
  revert s. induction (N.lt_wf_0 x) as [x _ IH]. intros s.
  destruct (decide (x = 0)%N) as [->|Hx]; [by rewrite pretty_N_go_0|].
  rewrite pretty_N_go_step by lia. rewrite IH by (apply N.div_lt; lia).
  unfold bytes_of. cbn [String.list_ascii_of_string digits].
  rewrite digit_pretty_N_char by (apply N.mod_lt; lia). f_equal.
  rewrite N2Z.inj_div, N2Z.inj_mod by lia. pose proof (Z.div_mod (Z.of_N x) 10). lia.
Qed.

Lemma pretty_N_go_head x s :
  (0 < x)%N -> exists d l, (d < 10)%N /\ bytes_of (pretty_N_go x s) = pretty_N_char d :: l.
Proof.
  revert s. induction (N.lt_wf_0 x) as [x _ IH]. intros s Hx. rewrite pretty_N_go_step by lia.
  destruct (decide (x / 10 = 0)%N) as [Hd|Hd].
  - rewrite Hd, pretty_N_go_0. unfold bytes_of. cbn. eexists _, _. split; [|done].
    apply N.mod_lt. lia.
  - apply IH; [apply N.div_lt; lia|by apply N.neq_0_lt_0].
Qed.

Lemma Atoi_Itoa n : 0 <= n < 2 ^ 63 -> Atoi (Itoa n) = (n, true).
Proof.
  intros Hn. unfold Atoi. assert (parse_int (Itoa n) = Some n) as ->.
  { destruct n as [|p|p]; [done| |lia]. unfold Itoa, parse_int.
    change (pretty (Z.pos p)) with (pretty_N_go (N.pos p) "").
    destruct (pretty_N_go_head (N.pos p) "" ltac:(lia)) as (d & l & Hd & Heq).
    rewrite Heq. assert (digit (pretty_N_char d) = Some (Z.of_N d)) as Hdig
      by by apply digit_pretty_N_char.
    destruct (Ascii.eqb_spec (pretty_N_char d) "-") as [E|_]; [rewrite E in Hdig; discriminate|].
    destruct (Ascii.eqb_spec (pretty_N_char d) "+") as [E|_]; [rewrite E in Hdig; discriminate|].
    rewrite <- Heq, digits_pretty_N_go. done. }
  destruct (Z.leb_spec (2 ^ 63) n); [lia|]. destruct (Z.ltb_spec n (- 2 ^ 63)); [lia|done].
Qed.

(** ** White space *)

Definition is_space (a : ascii) : bool :=
  bool_decide (a ∈ [" "; "009"; "010"; "011"; "012"; "013"]%char).
Fixpoint trim_left (l : bytes) : bytes :=
  match l with a :: l' => if is_space a then trim_left l' else l | [] => [] end.
(** [strings.TrimSpace] of the ASCII white space; it would also trim the spaces of Unicode. *)
Definition TrimSpace (s : string) : string :=
  of_bytes (reverse (trim_left (reverse (trim_left (bytes_of s))))).

(** * Instants and durations as Go's package time has them

    A [time.Time] is its wall-clock nanoseconds since the Unix epoch, a [time.Duration] a signed
    64-bit count of nanoseconds.  The methods the models use are here, with their saturation and
    wrap-around. *)

(** [int64(x)]: reinterpret the low 64 bits as a two's complement number. *)
Definition i64 (z : Z) : Z := let w := u64 z in if w <? 2 ^ 63 then w else w - 2 ^ 64.

Lemma i64_small z : - 2 ^ 63 <= z < 2 ^ 63 -> i64 z = z.
Proof.
  intros Hz. unfold i64, u64. destruct (decide (0 <= z)).
  - rewrite Z.mod_small by lia. destruct (Z.ltb_spec z (2 ^ 63)); lia.
  - replace (z `mod` 2 ^ 64) with (z + 2 ^ 64).
    + destruct (Z.ltb_spec (z + 2 ^ 64) (2 ^ 63)); lia.
    + apply Z.mod_unique_pos with (-1); lia.
Qed.

Definition Second : Z := 1000000000.
Definition minDuration : Z := - 2 ^ 63.
Definition maxDuration : Z := 2 ^ 63 - 1.

(** Seconds between the zero [time.Time] (1 January of year 1) and the Unix epoch. *)
Definition unixToInternal : Z := 62135596800.

(** [time.Unix(sec, 0)]: the internal seconds are an int64, the addition wraps. *)
Definition Unix (sec : Z) : Z := (i64 (sec + unixToInternal) - unixToInternal) * Second.

Definition Before (t u : Z) : bool := t <? u.
Definition After (t u : Z) : bool := u <? t.
(** [t.Sub(u)] saturates. *)
Definition Sub (t u : Z) : Z := Z.max minDuration (Z.min maxDuration (t - u)).
(** [-d] on a [Duration] wraps: the least one is its own opposite. *)
Definition neg (d : Z) : Z := i64 (- d).

Lemma Unix_small sec : 0 <= sec < 2 ^ 62 -> Unix sec = sec * Second.
Proof. intros Hs. unfold Unix, unixToInternal in *. rewrite i64_small by lia. lia. Qed.

Lemma neg_small d : minDuration < d <= 0 -> neg d = - d.
Proof. unfold minDuration, neg. intros Hd. apply i64_small. lia. Qed.
Lemma neg_min : neg minDuration = minDuration.
Proof. reflexivity. Qed.

(** A file mode in octal. *)
Definition octal (u g o : Z) : Z := 64 * u + 8 * g + o.
