(* ===== verification/Paths.v ===== *)
(** * Slash-separated paths as Go's package path handles them

    [Clean], [Dir], [Base] and [Join] of the package path (and of path/filepath, which is the same
    on Unix), and the trims of the package strings that go with them, as the merge of delta layers
    (DeltaMerge.v) and the staging of artifacts (Staging.v) use them.  A path is cut into its components, the
    strings between slashes; on a canonical path (components that are neither empty nor [.] nor
    [..]) the functions are what one expects, and prefixes of paths are prefixes of component
    lists. *)

From S2P Require Import Prelude GoLib.
From Stdlib Require Import Ascii.

Definition slash : ascii := "/"%char.

(** The strings between slashes; never empty. *)
Fixpoint split (s : string) : list string :=
  match s with
  | EmptyString => [EmptyString]
  | String c s' =>
      if Ascii.eqb c slash then EmptyString :: split s'
      else match split s' with
           | h :: t => String c h :: t
           | [] => [String c EmptyString]
           end
  end.

Fixpoint join (l : list string) : string :=
  match l with
  | [] => ""
  | [x] => x
  | x :: l' => x +:+ "/" +:+ join l'
  end.

(** ** package path *)

(** One component met by [Clean]; the components kept so far are in reverse order. *)
Definition clean_step (rooted : bool) (kept : list string) (c : string) : list string :=
  if String.eqb c "" || String.eqb c "." then kept
  else if String.eqb c ".." then
    match kept with
    | x :: r => if String.eqb x ".." then c :: kept else r
    | [] => if rooted then [] else [c]
    end
  else c :: kept.

Definition Clean (path : string) : string :=
  let rooted := HasPrefix path "/" in
  let body := join (reverse (foldl (clean_step rooted) [] (split path))) in
  if rooted then "/" +:+ body
  else if String.eqb body "" then "." else body.

(** [path.Dir]: what precedes the last slash, with it, cleaned. *)
Definition Dir (path : string) : string :=
  match reverse (split path) with
  | _ :: ((_ :: _) as d) => Clean (join (reverse d) +:+ "/")
  | _ => Clean ""
  end.

(** [strings.TrimRight(s, "/")] *)
Fixpoint TrimSlashes (s : string) : string :=
  match s with
  | EmptyString => EmptyString
  | String c s' =>
      let r := TrimSlashes s' in
      if Ascii.eqb c slash && String.eqb r "" then "" else String c r
  end.

(** [strings.TrimPrefix] *)
Fixpoint drop_string (n : nat) (s : string) : string :=
  match n, s with
  | S n', String _ s' => drop_string n' s'
  | _, _ => s
  end.
Definition TrimPrefix (s prefix : string) : string :=
  if HasPrefix s prefix then drop_string (String.length prefix) s else s.

(** [path.Base] *)
Definition Base (path : string) : string :=
  if String.eqb path "" then "."
  else
    let b := default "" (last (split (TrimSlashes path))) in
    if String.eqb b "" then "/" else b.

(** [path.Join] of two elements *)
Definition Join (dir elem : string) : string :=
  let buf := if String.eqb dir "" then elem else dir +:+ "/" +:+ elem in
  if String.eqb buf "" then "" else Clean buf.

(** ** Canonical paths *)

Definition good (c : string) : bool :=
  negb (String.eqb c "" || String.eqb c "." || String.eqb c "..").
(** A relative path in the form [Clean] leaves it in, that names something. *)
Definition canonical (p : string) : bool := forallb good (split p).
(** [p] lies strictly below [d]. *)
Definition under (d p : string) : bool := HasPrefix p (d +:+ "/").

Lemma split_ne s : split s <> [].
Proof. destruct s as [|c s]; simpl; [done|]. repeat case_match; done. Qed.

Lemma join_cons x l : l <> [] -> join (x :: l) = x +:+ "/" +:+ join l.
Proof. destruct l; done. Qed.

Lemma join_split s : join (split s) = s.
Proof.
  induction s as [|c s IH]; [done|]. simpl.
  destruct (Ascii.eqb_spec c slash) as [->|_].
  - rewrite join_cons by apply split_ne. by rewrite IH.
  - pose proof (split_ne s). destruct (split s) as [|h [|h' t]]; [done|..]; by rewrite <-IH.
Qed.

#[export] Instance split_inj : Inj (=) (=) split.
Proof. intros s t H. by rewrite <-(join_split s), H, join_split. Qed.

Lemma append_assoc s t u : (s +:+ t) +:+ u = s +:+ t +:+ u.
Proof. induction s as [|c s IH]; [done|]. change (String c ((s +:+ t) +:+ u) = String c (s +:+ t +:+ u)). by rewrite IH. Qed.

Lemma append_cons c s t : String c s +:+ t = String c (s +:+ t).
Proof. done. Qed.

Lemma split_app s t : split (s +:+ "/" +:+ t) = split s ++ split t.
Proof.
  induction s as [|c s IH]; [done|]. rewrite append_cons. simpl.
  destruct (Ascii.eqb c slash); rewrite IH; [done|].
  pose proof (split_ne s). by destruct (split s).
Qed.

Lemma join_app l l' : l <> [] -> l' <> [] -> join (l ++ l') = join l +:+ "/" +:+ join l'.
Proof.
  induction l as [|x l IH]; [done|]. intros _ Hl'. rewrite <-app_comm_cons.
  destruct l as [|y l].
  - by rewrite join_cons.
  - rewrite join_cons, IH by done. by rewrite (join_cons x), !append_assoc by done.
Qed.

(** Components hold no slash. *)
Fixpoint slashless (s : string) : bool :=
  match s with EmptyString => true | String c s' => negb (Ascii.eqb c slash) && slashless s' end.

Lemma split_slashless s : slashless s = true -> split s = [s].
Proof.
  induction s as [|c s IH]; [done|]. simpl. intros [Hc Hs]%andb_prop.
  apply negb_true_iff in Hc. rewrite Hc. by rewrite IH.
Qed.
Lemma split_components s : forallb slashless (split s) = true.
Proof.
  induction s as [|c s IH]; [done|]. simpl. destruct (Ascii.eqb c slash) eqn:Hc; [done|].
  destruct (split s) as [|h t]; simpl in *; rewrite Hc; [done|]. done.
Qed.
Lemma split_join l : l <> [] -> forallb slashless l = true -> split (join l) = l.
Proof.
  induction l as [|x l IH]; [done|]. intros _ [Hx Hl]%andb_prop.
  destruct l as [|y l]; [exact (split_slashless x Hx)|].
  rewrite join_cons, split_app, split_slashless, IH by done. done.
Qed.

Lemma HasPrefix_spec s p : HasPrefix s p = true <-> exists r, s = p +:+ r.
Proof.
  unfold HasPrefix. revert s. induction p as [|c p IH]; intros s.
  - split; [by exists s|]. intros _. by destruct s.
  - destruct s as [|c' s]; simpl.
    + split; [done|]. intros (r & Hr). done.
    + destruct (ascii_dec c c') as [->|Hne].
      * rewrite IH. split; intros (r & Hr); exists r.
        { by rewrite append_cons, Hr. }
        { rewrite append_cons in Hr. by simplify_eq. }
      * split; [done|]. intros (r & Hr). rewrite append_cons in Hr. by simplify_eq.
Qed.

Lemma under_split d p : under d p = true <-> exists l, l <> [] /\ split p = split d ++ l.
Proof.
  unfold under. rewrite HasPrefix_spec. split.
  - intros (r & ->). exists (split r). rewrite append_assoc, split_app. auto using split_ne.
  - intros (l & Hl & Hp). exists (join l).
    rewrite append_assoc, <-(join_split d) at 1. rewrite <-join_app by auto using split_ne.
    by rewrite <-Hp, join_split.
Qed.

Lemma under_trans a b c : under a b = true -> under b c = true -> under a c = true.
Proof.
  rewrite !under_split. intros (l & Hl & Hb) (l' & Hl' & Hc). exists (l ++ l').
  rewrite Hc, Hb, app_assoc. split; [|done]. by destruct l.
Qed.
Lemma under_irrefl d : under d d = false.
Proof.
  apply not_true_is_false. rewrite under_split. intros (l & Hl & Hd).
  apply (f_equal length) in Hd. rewrite length_app in Hd. destruct l; simpl in *; [done|lia].
Qed.

(** ** The package on canonical paths *)

Lemma good_ne c : good c = true -> c <> "" /\ c <> "." /\ c <> "..".
Proof. unfold good. repeat destruct (String.eqb_spec c _); naive_solver. Qed.

Lemma clean_good rooted kept l :
  forallb good l = true -> foldl (clean_step rooted) kept l = reverse l ++ kept.
Proof.
  revert kept. induction l as [|c l IH]; intros kept; [done|]. simpl. intros [Hc Hl]%andb_prop.
  rewrite IH by done. rewrite reverse_cons, <-app_assoc. f_equal. simpl.
  unfold clean_step. apply good_ne in Hc as (H1 & H2 & H3).
  apply String.eqb_neq in H1, H2, H3. by rewrite H1, H2, H3.
Qed.

Lemma canonical_ne p : canonical p = true -> p <> "".
Proof. by intros Hp ->. Qed.
Lemma canonical_not_rooted p r : canonical p = true -> HasPrefix (p +:+ r) "/" = false.
Proof.
  intros Hp. apply not_true_is_false. rewrite HasPrefix_spec. intros (r' & Hr).
  destruct p as [|c p]; [done|]. rewrite !append_cons in Hr. by simplify_eq.
Qed.

Lemma append_nil p : p +:+ "" = p.
Proof. induction p as [|c p IH]; [done|]. by rewrite append_cons, IH. Qed.

Lemma Clean_id p : canonical p = true -> Clean p = p.
Proof.
  intros Hp. pose proof (canonical_not_rooted p "" Hp) as Hr. rewrite append_nil in Hr.
  unfold Clean. rewrite Hr, clean_good by done.
  rewrite app_nil_r, reverse_involutive, join_split.
  by destruct (String.eqb_spec p ""); [subst p|].
Qed.
Lemma Clean_dir p : canonical p = true -> Clean (p +:+ "/") = p.
Proof.
  intros Hp. unfold Clean. rewrite canonical_not_rooted by done.
  change (p +:+ "/") with (p +:+ "/" +:+ ""). rewrite split_app, foldl_app, (clean_good _ [] (split p)) by done.
  simpl foldl. unfold clean_step. simpl orb.
  rewrite app_nil_r, reverse_involutive, join_split.
  by destruct (String.eqb_spec p ""); [subst p|].
Qed.

(** A canonical path is a single component or a canonical directory and a component. *)
Lemma canonical_snoc p :
  canonical p = true ->
  exists D b, split p = D ++ [b] /\ good b = true /\ slashless b = true /\
    (D = [] /\ p = b \/ D <> [] /\ canonical (join D) = true /\ split (join D) = D /\ p = join D +:+ "/" +:+ b).
Proof.
  intros Hp. pose proof (split_components p) as Hs. unfold canonical in Hp.
  pose proof (join_split p) as Hj.
  destruct (exists_last (split_ne p)) as (D & b & Hsp).
  rewrite Hsp, forallb_app in Hp, Hs.
  apply andb_prop in Hp as [HpD Hb], Hs as [HsD Hsb]. simpl in Hb, Hsb. rewrite andb_true_r in Hb, Hsb.
  exists D, b. split_and!; [done..|].
  destruct (decide (D = [])) as [->|HD].
  - left. split; [done|]. by rewrite Hsp in Hj.
  - right. unfold canonical. rewrite split_join by done. split_and!; [done..|].
    rewrite <-Hj, Hsp. by rewrite join_app.
Qed.

(** The directory part of a component list, as [Dir] shows it. *)
Definition dir_of (D : list string) : string := match D with [] => "." | _ => join D end.

Lemma Dir_canonical p D b :
  canonical p = true -> split p = D ++ [b] -> Dir p = dir_of D.
Proof.
  intros Hp Hsp. destruct (canonical_snoc p Hp) as (D' & b' & Hsp' & _ & _ & Hcase).
  rewrite Hsp in Hsp'. apply app_inj_tail in Hsp' as [<- <-].
  unfold Dir. rewrite Hsp, reverse_snoc.
  destruct Hcase as [(-> & _)|(HD & Hc & _ & _)]; [done|].
  destruct (reverse D) as [|x r] eqn:Hr.
  { apply (f_equal reverse) in Hr. by rewrite reverse_involutive in Hr. }
  change (Clean (join (reverse (x :: r)) +:+ "/") = dir_of D).
  rewrite <-Hr, reverse_involutive, Clean_dir by done. by destruct D.
Qed.

Lemma TrimSlashes_id s : (forall d, s <> d +:+ "/") -> TrimSlashes s = s.
Proof.
  induction s as [|c s IH]; [done|]. intros Hs. simpl.
  rewrite IH by (intros d ->; apply (Hs (String c d)); done).
  destruct (Ascii.eqb_spec c slash) as [->|_]; [|done].
  destruct (String.eqb_spec s "") as [->|_]; [|done]. by destruct (Hs "").
Qed.
Lemma canonical_no_trailing p d : canonical p = true -> p <> d +:+ "/".
Proof.
  intros Hp ->. unfold canonical in Hp. change (d +:+ "/") with (d +:+ "/" +:+ "") in Hp.
  rewrite split_app, forallb_app in Hp. by apply andb_prop in Hp as [_ ?].
Qed.
Lemma TrimSlashes_canonical p : canonical p = true -> TrimSlashes p = p.
Proof. intros Hp. apply TrimSlashes_id. intros d. by apply canonical_no_trailing. Qed.

Lemma Base_canonical p D b : canonical p = true -> split p = D ++ [b] -> Base p = b.
Proof.
  intros Hp Hsp. unfold Base.
  destruct (String.eqb_spec p "") as [->|_]; [done|].
  rewrite TrimSlashes_canonical, Hsp, last_snoc by done. simpl.
  destruct (canonical_snoc p Hp) as (D' & b' & Hsp' & Hb & _).
  rewrite Hsp in Hsp'. apply app_inj_tail in Hsp' as [_ <-].
  apply good_ne in Hb as [Hb _]. by apply String.eqb_neq in Hb as ->.
Qed.

(** [Join] of a directory part and a good component is the path of both. *)
Lemma Join_dir_of D b :
  (D = [] \/ D <> [] /\ forallb good D = true /\ forallb slashless D = true) ->
  good b = true -> slashless b = true ->
  split (Join (dir_of D) b) = D ++ [b] /\ canonical (Join (dir_of D) b) = true.
Proof.
  intros HD Hb Hsb.
  enough (exists p, Join (dir_of D) b = p /\ split p = D ++ [b]) as (p & -> & Hp).
  { split; [done|]. unfold canonical. rewrite Hp, forallb_app. simpl. rewrite Hb.
    by destruct HD as [->|(_ & -> & _)]. }
  destruct HD as [->|(HD & Hgd & Hs)].
  - exists b. unfold Join. simpl. change ("./" +:+ b) with ("." +:+ "/" +:+ b).
    split; [|by apply split_slashless].
    assert (split b = [b]) as Hsplit by (by apply split_slashless).
    unfold Clean. rewrite split_app, Hsplit. apply good_ne in Hb as Hb'.
    change (HasPrefix ("." +:+ "/" +:+ b) "/") with false. simpl.
    unfold clean_step. destruct Hb' as (H1 & H2 & H3). apply String.eqb_neq in H1, H2, H3.
    rewrite H1, H2, H3. simpl. by rewrite H1.
  - exists (join (D ++ [b])). rewrite split_join.
    + split; [|done]. unfold Join. destruct D as [|x D]; [done|]. cbn [dir_of].
      assert (canonical (join (x :: D)) = true) as Hc by (unfold canonical; by rewrite split_join).
      assert (canonical (join ((x :: D) ++ [b])) = true) as Hcp.
      { unfold canonical. rewrite split_join, forallb_app; [|by destruct D|rewrite forallb_app].
        - simpl in *. by rewrite Hgd, Hb.
        - simpl in *. by rewrite Hs, Hsb. }
      destruct (String.eqb_spec (join (x :: D)) "") as [He|_]; [by rewrite He in Hc|].
      replace (join (x :: D) +:+ "/" +:+ b) with (join ((x :: D) ++ [b])) by (by rewrite join_app).
      destruct (String.eqb_spec (join ((x :: D) ++ [b])) "") as [He|_]; [by rewrite He in Hcp|].
      by apply Clean_id.
    + by destruct D.
    + rewrite forallb_app. simpl. by rewrite Hs, Hsb.
Qed.

(** ** Paths under a directory of the host

    An absolute path in clean form is a list of components; joining it with anything that does not
    climb stays below it. *)

Definition neat (l : list string) : Prop := forallb good l = true /\ forallb slashless l = true.
Definition host_path (l : list string) : string := "/" +:+ join l.

Lemma neat_app l k : neat (l ++ k) <-> neat l /\ neat k.
Proof. unfold neat. rewrite !forallb_app, !andb_true_iff. tauto. Qed.
Lemma neat_cons c l : neat (c :: l) <-> (good c = true /\ slashless c = true) /\ neat l.
Proof. unfold neat. simpl. rewrite !andb_true_iff. tauto. Qed.
Lemma neat_split l : l <> [] -> neat l -> split (join l) = l.
Proof. intros Hl [_ Hs]. by apply split_join. Qed.

Lemma foldl_clean_rooted kept l :
  forallb good kept = true -> forallb good (foldl (clean_step true) kept l) = true.
Proof.
  revert kept. induction l as [|c l IH]; intros kept Hk; [done|]. simpl. apply IH. unfold clean_step.
  destruct (String.eqb c "" || String.eqb c ".") eqn:Hc; [done|]. destruct (String.eqb c "..") eqn:Hd.
  - destruct kept as [|x kept]; [done|]. simpl in Hk. apply andb_prop in Hk as [Hx Hk].
    destruct (String.eqb x "..") eqn:Hxd; [|done]. unfold good in Hx. by rewrite Hxd, orb_true_r in Hx.
  - simpl. unfold good at 1. by rewrite Hc, Hd, Hk.
Qed.
(** A relative path cleans to some steps up and then a way down. *)
Lemma foldl_clean_relative kept n gs l :
  kept = reverse gs ++ replicate n ".." -> forallb good gs = true ->
  exists n' gs', foldl (clean_step false) kept l = reverse gs' ++ replicate n' ".." /\ forallb good gs' = true.
Proof.
  revert kept n gs. induction l as [|c l IH]; intros kept n gs -> Hg; [by exists n, gs|]. simpl.
  destruct (String.eqb c "" || String.eqb c ".") eqn:Hc; [unfold clean_step at 2; rewrite Hc; by eapply IH|].
  destruct (String.eqb_spec c "..") as [->|Hd].
  - destruct gs as [|g gs _] using rev_ind.
    + destruct n as [|n]; simpl.
      * by apply (IH _ 1%nat []).
      * by apply (IH _ (S (S n)) []).
    + rewrite reverse_snoc. unfold clean_step at 2. simpl. rewrite forallb_app in Hg.
      apply andb_prop in Hg as [Hg Hx]. simpl in Hx. rewrite andb_true_r in Hx.
      apply good_ne in Hx as (_ & _ & Hx). apply String.eqb_neq in Hx as ->. by eapply (IH _ n gs).
  - unfold clean_step at 2. rewrite Hc. apply String.eqb_neq in Hd as Hd'. rewrite Hd'.
    apply (IH _ n (gs ++ [c])); [by rewrite reverse_snoc|]. rewrite forallb_app, Hg. simpl. unfold good.
    by rewrite Hc, Hd'.
Qed.
Lemma clean_slashless rooted kept l :
  forallb slashless kept = true -> forallb slashless l = true ->
  forallb slashless (foldl (clean_step rooted) kept l) = true.
Proof.
  revert kept. induction l as [|c l IH]; intros kept Hk Hl; [done|]. simpl in *. apply andb_prop in Hl as [Hc Hl].
  apply IH; [|done]. unfold clean_step. repeat case_match; simpl in *; rewrite ?Hc; try done.
  all: by apply andb_prop in Hk as [_ ?].
Qed.
Lemma forallb_reverse {A} (f : A -> bool) l : forallb f (reverse l) = forallb f l.
Proof.
  induction l as [|x l IH]; [done|]. rewrite reverse_cons, forallb_app, IH. simpl. by rewrite andb_true_r, andb_comm.
Qed.
Lemma reverse_replicate {A} n (x : A) : reverse (replicate n x) = replicate n x.
Proof. induction n as [|n IH]; [done|]. simpl. by rewrite reverse_cons, IH, <- replicate_S_end. Qed.

(** [Clean] of a path that starts at the root. *)
Lemma Clean_rooted s : HasPrefix s "/" = true -> exists gs, Clean s = host_path gs /\ neat gs.
Proof.
  intros Hr. unfold Clean. rewrite Hr. eexists. split; [reflexivity|]. split.
  - rewrite forallb_reverse. by apply foldl_clean_rooted.
  - rewrite forallb_reverse. apply clean_slashless; [done|apply split_components].
Qed.
(** [Clean] of any other path. *)
Lemma Clean_relative s :
  HasPrefix s "/" = false ->
  exists n gs, neat gs /\
    Clean s = match replicate n ".." ++ gs with [] => "." | l => join l end.
Proof.
  intros Hr. unfold Clean. rewrite Hr.
  destruct (foldl_clean_relative [] 0 [] (split s)) as (n & gs & Heq & Hg); [done..|].
  assert (forallb slashless (reverse gs ++ replicate n "..") = true) as Hs.
  { rewrite <- Heq. apply clean_slashless; [done|apply split_components]. }
  rewrite forallb_app, forallb_reverse in Hs. apply andb_prop in Hs as [Hs _].
  exists n, gs. split; [by split|]. rewrite Heq, reverse_app, reverse_involutive, reverse_replicate.
  destruct (replicate n ".." ++ gs) as [|x l] eqn:Hl; [done|].
  destruct (String.eqb_spec (join (x :: l)) "") as [He|_]; [|done]. exfalso.
  assert (x <> "") as Hx.
  { destruct n; simpl in Hl; [|by injection Hl as <-]. subst gs. simpl in Hg. apply andb_prop in Hg as [Hg _].
    by apply good_ne in Hg as (? & _). }
  destruct l as [|y l]; [done|]. rewrite join_cons in He by done. by destruct x.
Qed.

Lemma join_not_rooted l : neat l -> HasPrefix (join l) "/" = false.
Proof.
  intros Hl. destruct (decide (l = [])) as [->|Hne]; [done|]. rewrite <- (append_nil (join l)).
  apply canonical_not_rooted. unfold canonical. rewrite neat_split by done. apply Hl.
Qed.
Lemma host_path_rooted l r : HasPrefix (host_path l +:+ r) "/" = true.
Proof. apply HasPrefix_spec. exists (join l +:+ r). unfold host_path. by rewrite append_assoc. Qed.
Lemma split_host_path l : neat l -> split (host_path l) = "" :: match l with [] => [""] | _ => l end.
Proof.
  intros Hl. unfold host_path. change ("/" +:+ join l) with ("" +:+ "/" +:+ join l). rewrite split_app.
  destruct l as [|x l]; [done|]. by rewrite neat_split.
Qed.
Lemma clean_host_path kept l :
  neat l -> foldl (clean_step true) kept (split (host_path l)) = reverse l ++ kept.
Proof.
  intros Hl. rewrite split_host_path by done. destruct l as [|x l]; [done|].
  change (foldl (clean_step true) kept (x :: l) = reverse (x :: l) ++ kept). apply clean_good, Hl.
Qed.

(** The way down a path names, whether or not it starts at the root. *)
Definition way (rel : string) (gs : list string) : Prop :=
  neat gs /\ (rel = host_path gs \/ gs <> [] /\ rel = join gs).

Lemma Join_way rs rel gs : neat rs -> way rel gs -> Join (host_path rs) rel = host_path (rs ++ gs).
Proof.
  intros Hrs [Hgs Hrel]. unfold Join.
  destruct (String.eqb_spec (host_path rs) "") as [He|_]; [done|].
  destruct (String.eqb_spec (host_path rs +:+ "/" +:+ rel) "") as [He|_]; [done|].
  unfold Clean. rewrite host_path_rooted, split_app, foldl_app, clean_host_path, app_nil_r by done.
  assert (foldl (clean_step true) (reverse rs) (split rel) = reverse gs ++ reverse rs) as ->.
  { destruct Hrel as [->|[Hne ->]]; [by apply clean_host_path|].
    rewrite neat_split by done. apply clean_good, Hgs. }
  unfold host_path. by rewrite reverse_app, !reverse_involutive.
Qed.
Lemma Dir_host_path l b : neat (l ++ [b]) -> Dir (host_path (l ++ [b])) = host_path l.
Proof.
  intros Hl. pose proof (proj1 (neat_app _ _) Hl) as [Hn _]. unfold Dir. rewrite split_host_path by done.
  destruct (l ++ [b]) as [|x k] eqn:Hk; [by destruct l|]. rewrite <- Hk.
  change ("" :: l ++ [b]) with (("" :: l) ++ [b]). rewrite reverse_snoc.
  destruct (reverse ("" :: l)) as [|y r] eqn:Hr.
  { apply (f_equal reverse) in Hr. by rewrite reverse_involutive in Hr. }
  change (Clean (join (reverse (y :: r)) +:+ "/") = host_path l). rewrite <- Hr, reverse_involutive.
  destruct l as [|z l]; [done|]. change (join ("" :: z :: l)) with (host_path (z :: l)).
  unfold Clean. rewrite host_path_rooted.
  change (host_path (z :: l) +:+ "/") with (host_path (z :: l) +:+ "/" +:+ "").
  rewrite split_app, foldl_app, clean_host_path by done. rewrite app_nil_r.
  change (foldl (clean_step true) (reverse (z :: l)) (split "")) with (reverse (z :: l)).
  by rewrite reverse_involutive.
Qed.
Lemma host_path_inj l k : neat l -> neat k -> host_path l = host_path k -> l = k.
Proof.
  intros Hl Hk Heq. apply (f_equal split) in Heq. rewrite !split_host_path in Heq by done.
  injection Heq as Heq. destruct l as [|x l], k as [|y k]; try done.
  - injection Heq as <- <-. by destruct (proj1 (neat_cons _ _) Hk) as [[? _] _].
  - injection Heq as -> ->. by destruct (proj1 (neat_cons _ _) Hl) as [[? _] _].
Qed.
