(* ===== verification/Database.v ===== *)
(** * The relational store under the control plane

    The control plane keeps its spawn ledger in SQL tables reached through the [bun] library
    (src/internal/cp/store).  This file holds what the repositories use of it: tables as finite
    maps from primary key to row, [UPDATE ... WHERE] as a row-wise update that reports the
    number of rows it touched, statements that can fail, and transactions that roll back.

    A statement can fail for a reason outside the model (a lost connection, a cancelled context,
    a foreign key).  Such failures are an oracle: [faults] is the list of outcomes of the next
    statements, [Some e] for a statement that fails with the driver error [e] and leaves the
    tables as they were.  An exhausted list means no further failure. *)

From S2P Require Import Prelude.
(** ** Statement monad *)

Section Monad.
Context {DB E : Type} (drv : string -> E).

Record Session := mkSession { tables : DB; faults : list (option string) }.

Definition SQL (A : Type) : Type := Session -> result E A * Session.

#[global] Instance sql_ret : MRet SQL := fun A a s => (Ok a, s).
#[global] Instance sql_bind : MBind SQL := fun A B k m s =>
  match m s with
  | (Ok a, s') => k a s'
  | (Err e, s') => (Err e, s')
  end.

Definition throw {A} (e : E) : SQL A := fun s => (Err e, s).
(** Run [m] and hand its outcome to the caller ([if err := m(); err != nil]). *)
Definition try {A} (m : SQL A) : SQL (result E A) := fun s =>
  let '(r, s') := m s in (Ok r, s').

(** One statement: it fails as the oracle says, otherwise [q] answers from the tables. *)
Definition stmt {A} (q : DB -> result E A * DB) : SQL A := fun s =>
  match faults s with
  | Some e :: fs => (Err (drv e), mkSession (tables s) fs)
  | fs => let '(r, d) := q (tables s) in (r, mkSession d (tail fs))
  end.

(** [bun.DB.RunInTx]: an error of the body or of the commit restores the tables. *)
Definition run_in_tx {A} (m : SQL A) : SQL A := fun s =>
  match m s with
  | (Ok a, s') =>
      match faults s' with
      | Some e :: fs => (Err (drv e), mkSession (tables s) fs)
      | fs => (Ok a, mkSession (tables s') (tail fs))
      end
  | (Err e, s') => (Err e, mkSession (tables s) (faults s'))
  end.

(** [m] run to the end with no failing statement. *)
Definition run {A} (m : SQL A) (d : DB) : result E A * DB :=
  let '(r, s) := m (mkSession d []) in (r, tables s).

(** ** Hoare-style reasoning *)

(** Every outcome of [m], failures of statements included, relates the tables before and after
    by [R]. *)
Definition always {A} (R : DB -> DB -> Prop) (m : SQL A) : Prop :=
  forall s, R (tables s) (tables (snd (m s))).

Lemma always_ret {A} R (a : A) : Reflexive R -> always R (mret a).
Proof. intros HR s. apply HR. Qed.
Lemma always_throw {A} R e : Reflexive R -> always R (throw (A := A) e).
Proof. intros HR s. apply HR. Qed.
Lemma always_bind {A B} R (m : SQL A) (k : A -> SQL B) :
  Transitive R -> always R m -> (forall a, always R (k a)) -> always R (mbind k m).
Proof.
  intros HT Hm Hk s. unfold mbind, sql_bind. specialize (Hm s).
  destruct (m s) as [[e|a] s'] eqn:Hms; simpl in *; [done|].
  etransitivity; [exact Hm|]. apply Hk.
Qed.
Lemma always_try {A} R (m : SQL A) : always R m -> always R (try m).
Proof. intros Hm s. specialize (Hm s). unfold try. by destruct (m s) as [r s']. Qed.
Lemma always_stmt {A} R (q : DB -> result E A * DB) :
  Reflexive R -> (forall d, R d (snd (q d))) -> always R (stmt q).
Proof.
  intros HR Hq s. unfold stmt. specialize (Hq (tables s)).
  destruct (faults s) as [|[e|] fs]; simpl; [|apply HR|];
    destruct (q (tables s)) as [r d]; done.
Qed.
Lemma always_tx {A} R (m : SQL A) : Reflexive R -> always R m -> always R (run_in_tx m).
Proof.
  intros HR Hm s. specialize (Hm s). unfold run_in_tx.
  destruct (m s) as [[e|a] s']; simpl in *; [apply HR|].
  destruct (faults s') as [|[e|] fs]; simpl; [done|apply HR|done].
Qed.

(** Hoare triples over all outcomes: [m], started where [P] holds, ends with a result and
    tables in [Q], or with an error and tables in [X]. *)
Definition hoare {A} (P : DB -> Prop) (m : SQL A) (Q : A -> DB -> Prop) (X : DB -> Prop) : Prop :=
  forall s, P (tables s) ->
    match m s with (Ok a, s') => Q a (tables s') | (Err _, s') => X (tables s') end.

Lemma hoare_ret {A} (P : DB -> Prop) (a : A) (Q : A -> DB -> Prop) X :
  (forall d, P d -> Q a d) -> hoare P (mret a) Q X.
Proof. intros HPQ s Hs. by apply HPQ. Qed.
Lemma hoare_throw {A} P e (Q : A -> DB -> Prop) (X : DB -> Prop) :
  (forall d, P d -> X d) -> hoare P (throw e) Q X.
Proof. intros HPX s Hs. by apply HPX. Qed.
Lemma hoare_bind {A B} P (m : SQL A) (k : A -> SQL B) R Q X :
  hoare P m R X -> (forall a, hoare (R a) (k a) Q X) -> hoare P (mbind k m) Q X.
Proof.
  intros Hm Hk s Hs. unfold mbind, sql_bind. specialize (Hm s Hs).
  destruct (m s) as [[e|a] s']; [done|]. by apply Hk.
Qed.
Lemma hoare_stmt {A} (P : DB -> Prop) (q : DB -> result E A * DB) Q (X : DB -> Prop) :
  (forall d, P d -> X d) ->
  (forall d, P d -> match q d with (Ok a, d') => Q a d' | (Err _, d') => X d' end) ->
  hoare P (stmt q) Q X.
Proof.
  intros HX Hq s Hs. unfold stmt. specialize (Hq _ Hs).
  destruct (faults s) as [|[e|] fs]; simpl; [|by apply HX|];
    destruct (q (tables s)) as [[e'|a] d]; done.
Qed.
Lemma hoare_weaken {A} (P P' : DB -> Prop) (m : SQL A) (Q Q' : A -> DB -> Prop) X :
  hoare P' m Q' X -> (forall d, P d -> P' d) -> (forall a d, Q' a d -> Q a d) -> hoare P m Q X.
Proof.
  intros Hm HP HQ s Hs. specialize (Hm s (HP _ Hs)). destruct (m s) as [[e|a] s']; auto.
Qed.
Lemma hoare_tx {A} (P : DB -> Prop) (m : SQL A) Q (X : DB -> Prop) :
  (forall d, P d -> X d) -> hoare P m Q X -> hoare P (run_in_tx m) Q X.
Proof.
  intros HX Hm s Hs. specialize (Hm s Hs). unfold run_in_tx.
  destruct (m s) as [[e|a] s']; simpl in *; [by apply HX|].
  destruct (faults s') as [|[e|] fs]; simpl; [done|by apply HX|done].
Qed.
(** Preserving an invariant is an [always] of the implication. *)
Lemma always_hoare {A} (I : DB -> Prop) (m : SQL A) :
  always (fun d d' => I d -> I d') m <-> hoare I m (fun _ => I) I.
Proof.
  unfold always, hoare. split; intros Hm s; specialize (Hm s);
    destruct (m s) as [[e|a] s']; auto.
Qed.

(** A transaction that reports an error has changed nothing. *)
Lemma tx_error_unchanged {A} (m : SQL A) s e s' :
  run_in_tx m s = (Err e, s') -> tables s' = tables s.
Proof.
  unfold run_in_tx. destruct (m s) as [[e'|a] s1]; [by intros [= <- <-]|].
  destruct (faults s1) as [|[e'|] fs]; intros [=]; by simplify_eq.
Qed.

(** ** Fault-free runs compute *)

Lemma run_ret {A} (a : A) d : run (mret a) d = (Ok a, d).
Proof. done. Qed.
Lemma run_throw {A} e d : run (throw (A := A) e) d = (Err e, d).
Proof. done. Qed.
Lemma run_stmt {A} (q : DB -> result E A * DB) d : run (stmt q) d = q d.
Proof. unfold run, stmt. simpl. by destruct (q d). Qed.

(** Statements never add failures: from an empty oracle it stays empty. *)
Definition faultless {A} (m : SQL A) : Prop :=
  forall d, faults (snd (m (mkSession d []))) = [].
Lemma faultless_ret {A} (a : A) : faultless (mret a).
Proof. done. Qed.
Lemma faultless_throw {A} e : faultless (throw (A := A) e).
Proof. done. Qed.
Lemma faultless_stmt {A} (q : DB -> result E A * DB) : faultless (stmt q).
Proof. intros d. unfold stmt. simpl. by destruct (q d). Qed.
Lemma faultless_bind {A B} (m : SQL A) (k : A -> SQL B) :
  faultless m -> (forall a, faultless (k a)) -> faultless (mbind k m).
Proof.
  intros Hm Hk d. unfold mbind, sql_bind. specialize (Hm d).
  destruct (m (mkSession d [])) as [[e|a] [d' fs]] eqn:Hms; simpl in *; [done|].
  subst fs. apply Hk.
Qed.
Lemma faultless_tx {A} (m : SQL A) : faultless m -> faultless (run_in_tx m).
Proof.
  intros Hm d. unfold run_in_tx. specialize (Hm d).
  destruct (m (mkSession d [])) as [[e|a] [d' fs]]; simpl in *; by subst.
Qed.
Lemma run_bind {A B} (m : SQL A) (k : A -> SQL B) d :
  faultless m ->
  run (mbind k m) d =
    match run m d with (Ok a, d') => run (k a) d' | (Err e, d') => (Err e, d') end.
Proof.
  intros Hm. unfold run, mbind, sql_bind. specialize (Hm d).
  destruct (m (mkSession d [])) as [[e|a] [d' fs]]; simpl in *; by subst.
Qed.
Lemma run_tx {A} (m : SQL A) d :
  faultless m ->
  run (run_in_tx m) d = match run m d with (Ok a, d') => (Ok a, d') | (Err e, _) => (Err e, d) end.
Proof.
  intros Hm. unfold run, run_in_tx. specialize (Hm d).
  destruct (m (mkSession d [])) as [[e|a] [d' fs]]; simpl in *; by subst.
Qed.
(** ** Outcomes

    [outcome m d r d']: some pattern of failures makes [m], on the tables [d], answer [r] and
    leave [d'].  Inverting it follows the code's own case analysis. *)
Definition outcome {A} (m : SQL A) (d : DB) (r : result E A) (d' : DB) : Prop :=
  exists fs fs', m (mkSession d fs) = (r, mkSession d' fs').

Lemma outcome_ret {A} (a : A) d r d' : outcome (mret a) d r d' -> r = Ok a /\ d' = d.
Proof. intros (fs & fs' & [= <- <- <-]). done. Qed.
Lemma outcome_throw {A} e d (r : result E A) d' : outcome (throw e) d r d' -> r = Err e /\ d' = d.
Proof. intros (fs & fs' & [= <- <- <-]). done. Qed.
Lemma outcome_bind {A B} (m : SQL A) (k : A -> SQL B) d r d' :
  outcome (mbind k m) d r d' ->
  (exists e, r = Err e /\ outcome m d (Err e) d') \/
  (exists a d1, outcome m d (Ok a) d1 /\ outcome (k a) d1 r d').
Proof.
  intros (fs & fs' & Heq). unfold mbind, sql_bind in Heq.
  destruct (m (mkSession d fs)) as [[e|a] [d1 fs1]] eqn:Hm.
  - injection Heq as <- <- <-. left. exists e. split; [done|]. by exists fs, fs1.
  - right. exists a, d1. split; [by exists fs, fs1|by exists fs1, fs'].
Qed.
Lemma outcome_stmt {A} (q : DB -> result E A * DB) d r d' :
  outcome (stmt q) d r d' -> (exists msg, r = Err (drv msg) /\ d' = d) \/ q d = (r, d').
Proof.
  intros (fs & fs' & Heq). unfold stmt in Heq. cbn in Heq.
  destruct fs as [|[e|] fs]; [| |]; try (destruct (q d) as [r1 d1]; injection Heq as <- <- _; by right).
  injection Heq as <- <- _. left. by exists e.
Qed.
Lemma outcome_try {A} (m : SQL A) d r d' :
  outcome (try m) d r d' -> exists r', r = Ok r' /\ outcome m d r' d'.
Proof.
  intros (fs & fs' & Heq). unfold try in Heq.
  destruct (m (mkSession d fs)) as [r1 s1] eqn:Hm. injection Heq as <- ->.
  exists r1. split; [done|]. by exists fs, fs'.
Qed.
(** A transaction commits its body's outcome, or leaves the tables as they were. *)
Lemma outcome_tx {A} (m : SQL A) d r d' :
  outcome (run_in_tx m) d r d' ->
  (exists a, r = Ok a /\ outcome m d (Ok a) d') \/ (exists e, r = Err e /\ d' = d).
Proof.
  intros (fs & fs' & Heq). unfold run_in_tx in Heq.
  destruct (m (mkSession d fs)) as [[e|a] [d1 fs1]] eqn:Hm; cbn in Heq.
  - injection Heq as <- <- _. right. by exists e.
  - destruct fs1 as [|[e|] fs1]; injection Heq as <- <- _; [left|right|left].
    + exists a. split; [done|]. by exists fs, [].
    + by exists (drv e).
    + exists a. split; [done|]. by exists fs, (None :: fs1).
Qed.
(** An error is the body's, or the commit's. *)
Lemma outcome_tx_err {A} (m : SQL A) d e d' :
  outcome (run_in_tx m) d (Err e) d' -> (exists d1, outcome m d (Err e) d1) \/ exists msg, e = drv msg.
Proof.
  intros (fs & fs' & Heq). unfold run_in_tx in Heq.
  destruct (m (mkSession d fs)) as [[e'|a] [d1 fs1]] eqn:Hm; cbn in Heq.
  - injection Heq as <- _ _. left. exists d1. by exists fs, fs1.
  - destruct fs1 as [|[msg|] fs1]; injection Heq as Heq _; try done. right. by exists msg.
Qed.
(** A run without failures is an outcome. *)
Lemma outcome_run {A} (m : SQL A) d r d' : faultless m -> run m d = (r, d') -> outcome m d r d'.
Proof.
  intros Hm Hr. specialize (Hm d). unfold run in Hr.
  destruct (m (mkSession d [])) as [r1 [d1 fs1]] eqn:Heq. injection Hr as <- <-. by exists [], fs1.
Qed.

End Monad.

Arguments Session : clear implicits.
Arguments SQL : clear implicits.

Create HintDb sql.
#[export] Hint Resolve faultless_ret faultless_throw faultless_stmt faultless_bind faultless_tx : sql.

(** ** Tables *)

Section Tables.
Context {K V : Type} `{EqDecision K, Countable K}.

(** [UPDATE t SET f WHERE p] *)
Definition update_where (p : K -> V -> bool) (f : V -> V) (t : gmap K V) : gmap K V :=
  map_imap (fun k v => Some (if p k v then f v else v)) t.
(** [SELECT * FROM t WHERE p]; the rows come in no particular order. *)
Definition select_where (p : K -> V -> bool) (t : gmap K V) : list (K * V) :=
  filter (fun kv => p kv.1 kv.2 = true) (map_to_list t).
(** The number of rows a [WHERE] clause selects. *)
Definition count_where (p : K -> V -> bool) (t : gmap K V) : Z :=
  Z.of_nat (length (select_where p t)).

Lemma lookup_update_where p f t k :
  update_where p f t !! k = (fun v => if p k v then f v else v) <$> t !! k.
Proof. unfold update_where. rewrite map_lookup_imap. by destruct (t !! k). Qed.

Lemma elem_of_select_where p t k v :
  (k, v) ∈ select_where p t <-> t !! k = Some v /\ p k v = true.
Proof.
  unfold select_where. rewrite list_elem_of_filter, elem_of_map_to_list. naive_solver.
Qed.

Lemma select_where_nil p t :
  select_where p t = [] <-> forall k v, t !! k = Some v -> p k v = false.
Proof.
  split.
  - intros Hnil k v Hkv. destruct (p k v) eqn:Hp; [|done].
    assert (Hin : (k, v) ∈ select_where p t) by (by apply elem_of_select_where).
    rewrite Hnil in Hin. by apply elem_of_nil in Hin.
  - intros Hall. destruct (select_where p t) as [|[k v] l] eqn:Hs; [done|].
    assert (Hin : (k, v) ∈ select_where p t) by (rewrite Hs; left).
    apply elem_of_select_where in Hin as [Hkv Hp]. rewrite (Hall _ _ Hkv) in Hp. done.
Qed.

(** When the [WHERE] clause pins the primary key, at most one row is touched. *)
Lemma select_where_key p t k v :
  (forall k' v', p k' v' = true -> k' = k) ->
  t !! k = Some v -> p k v = true -> select_where p t = [(k, v)].
Proof.
  intros Hkey Hkv Hp.
  assert (Hnd : NoDup (select_where p t))
    by (apply NoDup_filter, NoDup_map_to_list).
  assert (Hin : (k, v) ∈ select_where p t) by (by apply elem_of_select_where).
  assert (Hone : forall kv, kv ∈ select_where p t -> kv = (k, v)).
  { intros [k' v'] [Hkv' Hp']%elem_of_select_where.
    assert (k' = k) as -> by (by eapply Hkey). by simplify_eq. }
  destruct (select_where p t) as [|x [|y l]]; [by apply elem_of_nil in Hin| |].
  - by rewrite (Hone x) by left.
  - apply NoDup_cons in Hnd as [Hx _]. destruct Hx.
    rewrite (Hone x) by left. rewrite (Hone y) by (right; left). left.
Qed.

Lemma update_where_none p f t :
  (forall k v, t !! k = Some v -> p k v = false) -> update_where p f t = t.
Proof.
  intros Hall. apply map_eq. intros k. rewrite lookup_update_where.
  destruct (t !! k) as [v|] eqn:Hk; [|done]. simpl. by rewrite (Hall _ _ Hk).
Qed.
End Tables.
