(* ===== verification/Sagas.v ===== *)
(** * Programs that write a store step by step among others

    A handler of the control plane is a sequence of transactions on the store and of exchanges
    with everything else.  A [saga] is such a program: a tree of the transactions it runs and of
    the questions it asks of its environment (a clock, a node, a timer), each with the way it goes
    on.  Between two steps the others may do to the store what the rely allows, and any statement
    may fail.

    [wp] is the weakest precondition of a saga under a rely [R], with a guarantee [G] that every
    transaction of the saga keeps and that may speak of what happened before; [runs_wp] carries it
    along every run, to the end or to the point where the process dies. *)

From S2P Require Import Prelude Database.
Open Scope Z_scope.

Section Sagas.
(** The tables, the errors of the store and which of them are the driver's; the questions and
    the type of the answer of each. *)
Context {D E : Type} (is_fault : E -> bool) {Q : Type} {ans : Q -> Type}.

Inductive saga (A : Type) : Type :=
| Ret (a : A)
| Tx {B : Type} (m : SQL D E B) (k : result E B -> saga A)
| Env (q : Q) (k : ans q -> saga A).
#[global] Arguments Ret {A} a.
#[global] Arguments Tx {A B} m k.
#[global] Arguments Env {A} q k.

#[global] Instance saga_ret : MRet saga := @Ret.
#[global] Instance saga_bind : MBind saga := fun A B f =>
  fix bind (p : saga A) : saga B :=
    match p with
    | Ret a => f a
    | Tx m k => Tx m (fun r => bind (k r))
    | Env q k => Env q (fun a => bind (k a))
    end.

Definition store {A} (m : SQL D E A) : saga (result E A) := Tx m mret.
Definition ask (q : Q) : saga (ans q) := Env q mret.

(** ** Runs *)

(** What happened: the answers, and the saga's own transactions, with the tables they found and
    left and whether the driver failed them. *)
Inductive event :=
| Answered (q : Q) (a : ans q)
| Did (d d' : D) (fault : bool).
Definition trace := list event.

(** Every event of a trace, with what happened before it. *)
Definition each (phi : trace -> event -> Prop) (l : trace) : Prop :=
  forall l1 e l2, l = l1 ++ e :: l2 -> phi l1 e.
Lemma each_nil phi : each phi [].
Proof. intros l1 e l2 Heq. by destruct l1. Qed.
Lemma each_snoc phi l e : each phi l -> phi l e -> each phi (l ++ [e]).
Proof.
  intros Hl He l1 e' l2 Heq. destruct l2 as [|x l2 _] using rev_ind.
  - by apply app_inj_tail in Heq as [-> ->].
  - rewrite app_comm_cons, (assoc_L (++)) in Heq. apply app_inj_tail in Heq as [-> ->]. by eapply Hl.
Qed.
Lemma each_app phi l k : each phi l -> Forall (fun e => forall l, phi l e) k -> each phi (l ++ k).
Proof.
  intros Hl. induction k as [|e k IH] using rev_ind; [by rewrite app_nil_r|].
  rewrite Forall_app, Forall_singleton. intros [Hk He]. rewrite (assoc_L (++)). apply each_snoc; auto.
Qed.

Definition faulty {A} (r : result E A) : bool :=
  match r with Err e => is_fault e | Ok _ => false end.
Definition faulted (l : trace) : Prop := exists d d', Did d d' true ∈ l.

Section Relations.
Context (R : D -> D -> Prop).

Definition config A : Type := saga A * D * trace.
Inductive step {A} : config A -> config A -> Prop :=
| step_tx {B} (m : SQL D E B) k d l r d' :
    outcome m d r d' -> step (Tx m k, d, l) (k r, d', l ++ [Did d d' (faulty r)])
| step_env q k d l a : step (Env q k, d, l) (k a, d, l ++ [Answered q a])
| step_others p d l d' : R d d' -> step (p, d, l) (p, d', l).
Definition runs {A} : config A -> config A -> Prop := rtc step.

(** ** Weakest preconditions *)

Context (G : trace -> D -> D -> Prop).
Fixpoint wp {A} (p : saga A) (P : A -> D -> trace -> Prop) (d : D) (l : trace) : Prop :=
  match p with
  | Ret a => P a d l
  | Tx m k => forall d1 r d2, R d d1 -> outcome m d1 r d2 ->
      G l d1 d2 /\ wp (k r) P d2 (l ++ [Did d1 d2 (faulty r)])
  | Env q k => forall a, wp (k a) P d (l ++ [Answered q a])
  end.

Lemma wp_mono {A} (p : saga A) (P P' : A -> D -> trace -> Prop) d l :
  (forall a d l, P a d l -> P' a d l) -> wp p P d l -> wp p P' d l.
Proof.
  intros HP. revert d l. induction p as [a|B m k IH|q k IH]; simpl; [auto| |].
  - intros d l Hw d1 r d2 Hr Ho. destruct (Hw _ _ _ Hr Ho). auto.
  - intros d l Hw a. auto.
Qed.
Lemma wp_both {A} (p : saga A) (P P' : A -> D -> trace -> Prop) d l :
  wp p P d l -> wp p P' d l -> wp p (fun a d l => P a d l /\ P' a d l) d l.
Proof.
  revert d l. induction p as [a|B m k IH|q k IH]; simpl; [done| |].
  - intros d l Hw Hw' d1 r d2 Hr Ho. destruct (Hw _ _ _ Hr Ho), (Hw' _ _ _ Hr Ho). auto.
  - intros d l Hw Hw' a. auto.
Qed.
Lemma wp_bind {A B} (p : saga A) (f : A -> saga B) P d l :
  wp p (fun a => wp (f a) P) d l -> wp (p ≫= f) P d l.
Proof.
  revert d l. induction p as [a|C m k IH|q k IH]; simpl; [done| |].
  - intros d l Hw d1 r d2 Hr Ho. destruct (Hw _ _ _ Hr Ho). split; [done|]. by apply IH.
  - intros d l Hw a. by apply IH.
Qed.
Lemma wp_seq {A B} (p : saga A) (f : A -> saga B) P' P d l :
  wp p P' d l -> (forall a d l, P' a d l -> wp (f a) P d l) -> wp (p ≫= f) P d l.
Proof. intros Hp Hf. apply wp_bind. by eapply wp_mono. Qed.
Lemma wp_ret {A} (a : A) (P : A -> D -> trace -> Prop) d l : P a d l -> wp (mret a) P d l.
Proof. done. Qed.
Lemma wp_store {A} (m : SQL D E A) (P : result E A -> D -> trace -> Prop) d l :
  (forall d1 r d2, R d d1 -> outcome m d1 r d2 ->
     G l d1 d2 /\ P r d2 (l ++ [Did d1 d2 (faulty r)])) ->
  wp (store m) P d l.
Proof. done. Qed.
Lemma wp_ask q (P : ans q -> D -> trace -> Prop) d l :
  (forall a, P a d (l ++ [Answered q a])) -> wp (ask q) P d l.
Proof. done. Qed.

(** A saga whose transactions look like the others' to [R] moves the tables by [R] alone. *)
Fixpoint calm {A} (p : saga A) : Prop :=
  match p with
  | Ret _ => True
  | Tx m k => (forall d r d', outcome m d r d' -> R d d') /\ forall r, calm (k r)
  | Env q k => forall a, calm (k a)
  end.
Lemma calm_bind {A B} (p : saga A) (f : A -> saga B) : calm p -> (forall a, calm (f a)) -> calm (p ≫= f).
Proof.
  intros Hp Hf. induction p as [a|C m k IH|q k IH]; simpl in *; [done| |eauto].
  destruct Hp as [Hm Hk]. split; [done|]. intros r. by apply IH.
Qed.
Lemma calm_ret {A} (a : A) : calm (mret a).
Proof. done. Qed.
Lemma calm_ask q : calm (ask q).
Proof. done. Qed.
Lemma calm_store {A} (m : SQL D E A) : always R m -> calm (store m).
Proof.
  intros Hm. split; [|done]. intros d r d' (fs & fs' & Ho). specialize (Hm (mkSession d fs)).
  by rewrite Ho in Hm.
Qed.
Lemma wp_calm `{!PreOrder R} {A} (p : saga A) d l :
  (forall l d d', R d d' -> G l d d') -> calm p ->
  wp p (fun _ d' l' => R d d' /\ l `prefix_of` l') d l.
Proof.
  intros HG. revert d l. induction p as [a|B m k IH|q k IH]; simpl; intros d l Hp.
  - by split.
  - destruct Hp as [Hm Hk]. intros d1 r d2 Hr Ho. specialize (Hm _ _ _ Ho). split; [auto|].
    eapply wp_mono; [|by apply IH]. intros a d3 l3 [Hd Hl]. split.
    + etransitivity; [exact Hr|]. by etransitivity.
    + etransitivity; [|exact Hl]. by eexists.
  - intros a. eapply wp_mono; [|by apply IH]. intros b d3 l3 [Hd Hl]. split; [done|].
    etransitivity; [|exact Hl]. by eexists.
Qed.

(** What a saga returns, whatever happens. *)
Fixpoint returns {A} (phi : A -> Prop) (p : saga A) : Prop :=
  match p with
  | Ret a => phi a
  | Tx _ k => forall r, returns phi (k r)
  | Env q k => forall a, returns phi (k a)
  end.
Lemma returns_bind {A B} (phi : A -> Prop) (psi : B -> Prop) (p : saga A) (f : A -> saga B) :
  returns phi p -> (forall a, phi a -> returns psi (f a)) -> returns psi (p ≫= f).
Proof.
  intros Hp Hf. induction p as [a|C m k IH|q k IH]; [by apply Hf| |]; intros r; apply IH, Hp.
Qed.
Lemma returns_any {A} (p : saga A) : returns (fun _ => True) p.
Proof. induction p; simpl; auto. Qed.
Lemma wp_returns {A} (p : saga A) (phi : A -> Prop) P d l :
  returns phi p -> wp p P d l -> wp p (fun a d l => phi a /\ P a d l) d l.
Proof.
  revert d l. induction p as [a|C m k IH|q k IH]; simpl; intros d l Hp Hw; [done| |auto].
  intros d1 r d2 Hr Ho. destruct (Hw _ _ _ Hr Ho). auto.
Qed.

(** The questions a saga may ask, and what they leave in the trace. *)
Fixpoint asks {A} (phi : Q -> Prop) (p : saga A) : Prop :=
  match p with
  | Ret _ => True
  | Tx _ k => forall r, asks phi (k r)
  | Env q k => phi q /\ forall a, asks phi (k a)
  end.
Definition event_asks (phi : Q -> Prop) (e : event) : Prop :=
  match e with Answered q _ => phi q | Did _ _ _ => True end.
Lemma asks_bind {A B} phi (p : saga A) (f : A -> saga B) :
  asks phi p -> (forall a, asks phi (f a)) -> asks phi (p ≫= f).
Proof.
  intros Hp Hf. induction p as [a|C m k IH|q k IH]; simpl in *; [done|auto|].
  destruct Hp. split; [done|auto].
Qed.
Lemma asks_returns {A B} phi (psi : A -> Prop) (p : saga A) (f : A -> saga B) :
  asks phi p -> returns psi p -> (forall a, psi a -> asks phi (f a)) -> asks phi (p ≫= f).
Proof.
  intros Hp Hr Hf. induction p as [a|C m k IH|q k IH]; simpl in *; [by apply Hf|auto|].
  destruct Hp. split; [done|auto].
Qed.
Lemma asks_ask (phi : Q -> Prop) q : phi q -> asks phi (ask q).
Proof. done. Qed.
Lemma asks_store {A} phi (m : SQL D E A) : asks phi (store m).
Proof. done. Qed.
Lemma wp_asks {A} phi (p : saga A) P d l :
  asks phi p -> wp p P d l ->
  wp p (fun a d' l' => P a d' l' /\ exists k, l' = l ++ k /\ Forall (event_asks phi) k) d l.
Proof.
  revert d l. induction p as [a|C m k IH|q k IH]; simpl; intros d l Hp Hw.
  - split; [done|]. exists []. by rewrite app_nil_r.
  - intros d1 r d2 Hr Ho. destruct (Hw _ _ _ Hr Ho) as [HG Hk]. split; [done|].
    eapply wp_mono; [|by apply IH]. intros a d3 l3 [HP (k' & -> & Hall)]. split; [done|].
    eexists. split; [by rewrite <- (assoc_L (++))|]. by constructor.
  - intros a. destruct Hp as [Hq Hp]. eapply wp_mono; [|by apply IH].
    intros b d3 l3 [HP (k' & -> & Hall)]. split; [done|].
    eexists. split; [by rewrite <- (assoc_L (++))|]. by constructor.
Qed.

(** The trace only grows. *)
Lemma wp_grows {A} (p : saga A) P d l : wp p P d l -> wp p (fun a d' l' => P a d' l' /\ exists k, l' = l ++ k) d l.
Proof.
  intros Hw. eapply wp_mono; [|apply (wp_asks (fun _ => True)); [|exact Hw]].
  - intros a d' l' [HP (k & -> & _)]. eauto.
  - clear Hw. induction p; simpl; auto.
Qed.

(** What a calm saga has done is a past of the tables. *)
Lemma runs_calm `{!PreOrder R} {A} (p : saga A) d0 c d d' f :
  calm p -> runs (p, d0, []) c -> Did d d' f ∈ c.2 -> R d' c.1.2.
Proof.
  intros Hp Hr.
  enough (forall c0 c1 : config A, runs c0 c1 -> calm c0.1.1 ->
    (forall d d' f, Did d d' f ∈ c0.2 -> R d' c0.1.2) -> forall d d' f, Did d d' f ∈ c1.2 -> R d' c1.1.2) as Hgen.
  { apply (Hgen _ _ Hr); [done|]. intros ??? Hin. by apply elem_of_nil in Hin. }
  clear d d' f Hr. intros c0 c1 Hr. induction Hr as [|c0 c1 c2 Hs _ IH]; [done|]. intros Hc Hl.
  apply IH; destruct Hs as [B m k d1 l r d2 Ho|q k d1 l a|q d1 l d2 Hr]; cbn in *; try by try apply Hc.
  - intros d d' f [Hin|Hin]%elem_of_app.
    + etransitivity; [by eapply Hl|]. by eapply Hc.
    + apply list_elem_of_singleton in Hin. by injection Hin as _ -> _.
  - intros d d' f [Hin|Hin]%elem_of_app; [by eapply Hl|]. by apply list_elem_of_singleton in Hin.
  - intros d d' f Hin. etransitivity; [by eapply Hl|done].
Qed.

(** The precondition holds of every configuration of a run. *)
Definition holds {A} (P : A -> D -> trace -> Prop) (c : config A) : Prop :=
  exists d, R d c.1.2 /\ wp c.1.1 P d c.2.
Lemma step_holds `{!PreOrder R} {A} (P : A -> D -> trace -> Prop) c c' :
  holds P c -> step c c' -> holds P c'.
Proof.
  intros (d & Hd & Hw) Hs. destruct Hs as [B m k d0 l r d1 Ho|q k d0 l a|p d0 l d1 Hr]; cbn in *.
  - destruct (Hw _ _ _ Hd Ho) as [_ Hk]. by exists d1.
  - exists d. split; [done|apply Hw].
  - exists d. split; [by etransitivity|done].
Qed.
Lemma runs_holds `{!PreOrder R} {A} (P : A -> D -> trace -> Prop) c c' :
  holds P c -> runs c c' -> holds P c'.
Proof. intros Hc Hr. induction Hr as [|c c1 c' Hs _ IH]; [done|]. by eapply IH, step_holds. Qed.

Lemma runs_wp `{!PreOrder R} {A} (p : saga A) P d0 a d l :
  wp p P d0 [] -> runs (p, d0, []) (Ret a, d, l) -> exists d1, R d1 d /\ P a d1 l.
Proof.
  intros Hp Hr. apply (runs_holds P) in Hr as (d1 & Hd & Hw); [by exists d1|].
  by exists d0.
Qed.

(** What the others and every transaction of a saga preserve holds throughout. *)
Lemma runs_invariant `{!PreOrder R} {A} (p : saga A) P (I : D -> Prop) d0 c :
  (forall d d', R d d' -> I d -> I d') -> (forall l d d', G l d d' -> I d -> I d') ->
  wp p P d0 [] -> I d0 -> runs (p, d0, []) c -> I c.1.2.
Proof.
  intros HR HG Hp HI Hr.
  enough (forall c0 c1, runs c0 c1 -> holds P c0 -> I c0.1.2 -> I c1.1.2) as Hgen.
  { apply (Hgen _ _ Hr); [by exists d0|done]. }
  clear Hr. intros c0 c1 Hr. induction Hr as [|c0 c1 c2 Hs _ IH]; [done|]. intros Hh Hi.
  apply IH; [by eapply step_holds|]. destruct Hh as (d & Hd & Hw).
  destruct Hs as [B m k d1 l r d2 Ho|q k d1 l a|q d1 l d2 Hr]; cbn in *; [|done|by eapply HR].
  destruct (Hw _ _ _ Hd Ho) as [Hg _]. by eapply HG.
Qed.

(** The transactions of a trace kept the guarantee, each on what happened before it. *)
Definition kept_by (G : trace -> D -> D -> Prop) (l : trace) : Prop :=
  each (fun l1 e => forall d d' f, e = Did d d' f -> G l1 d d') l.
Lemma runs_kept `{!PreOrder R} {A} (p : saga A) P d0 c :
  wp p P d0 [] -> runs (p, d0, []) c -> kept_by G c.2.
Proof.
  intros Hp Hr.
  enough (forall c0 c1, runs c0 c1 -> holds P c0 -> kept_by G c0.2 -> kept_by G c1.2) as Hgen.
  { apply (Hgen _ _ Hr); [by exists d0|apply each_nil]. }
  clear Hr. intros c0 c1 Hr. induction Hr as [|c0 c1 c2 Hs _ IH]; [done|]. intros Hh Hk.
  apply IH; [by eapply step_holds|]. destruct Hh as (d & Hd & Hw).
  destruct Hs as [B m k d1 l r d2 Ho|q k d1 l a|q d1 l d2 Hr]; cbn in *; [| |done].
  - apply each_snoc; [done|]. intros d3 d3' f [= <- <- _]. by apply (Hw _ _ _ Hd Ho).
  - apply each_snoc; [done|]. by intros.
Qed.

(** Every transaction of a run keeps the guarantee. *)
Lemma runs_guarantee `{!PreOrder R} {A B} (p : saga A) P d0 (m : SQL D E B) k d l r d' :
  wp p P d0 [] -> runs (p, d0, []) (Tx m k, d, l) -> outcome m d r d' -> G l d d'.
Proof.
  intros Hp Hr Ho. apply (runs_holds P) in Hr as (d1 & Hd & Hw); [|by exists d0].
  cbn in Hw. by destruct (Hw _ _ _ Hd Ho).
Qed.
End Relations.

(** With others who do less there are fewer runs. *)
Lemma runs_mono (R R' : D -> D -> Prop) {A} (c c' : config A) :
  (forall d d', R d d' -> R' d d') -> runs R c c' -> runs R' c c'.
Proof.
  intros HR Hr. eapply rtc_subrel; [|exact Hr]. intros c0 c1 Hs. destruct Hs; constructor; auto.
Qed.

(** ** Playing a saga

    On its own, with the environment's answers and the statements that fail chosen by what
    happened so far. *)
Section Play.
Context (oracle : forall q, trace -> ans q) (fails : trace -> list (option string)).
Fixpoint play {A} (p : saga A) (d : D) (l : trace) : A * D * trace :=
  match p with
  | Ret a => (a, d, l)
  | Tx m k =>
      let '(r, s) := m (mkSession d (fails l)) in
      play (k r) (tables s) (l ++ [Did d (tables s) (faulty r)])
  | Env q k => let a := oracle q l in play (k a) d (l ++ [Answered q a])
  end.
Lemma play_runs R {A} (p : saga A) d l :
  let '(a, d', l') := play p d l in runs R (p, d, l) (Ret a, d', l').
Proof.
  revert d l. induction p as [a|B m k IH|q k IH]; intros d l; cbn.
  - apply rtc_refl.
  - destruct (m (mkSession d (fails l))) as [r [d1 fs]] eqn:Hm. specialize (IH r d1 (l ++ [Did d d1 (faulty r)])). cbn [tables].
    destruct (play (k r) d1 (l ++ [Did d d1 (faulty r)])) as [[a d2] l2]. eapply rtc_l; [|exact IH].
    constructor. by exists (fails l), fs.
  - specialize (IH (oracle q l) d (l ++ [Answered q (oracle q l)])).
    destruct (play (k (oracle q l)) d (l ++ [Answered q (oracle q l)])) as [[a d2] l2]. eapply rtc_l; [|exact IH].
    constructor.
Qed.
Lemma play_grows {A} (p : saga A) d l : exists k, (play p d l).2 = l ++ k.
Proof.
  revert d l. induction p as [a|B m k IH|q k IH]; intros d l; cbn.
  - exists []. by rewrite app_nil_r.
  - destruct (m (mkSession d (fails l))) as [r s].
    destruct (IH r (tables s) (l ++ [Did d (tables s) (faulty r)])) as [k' ->].
    eexists. by rewrite <- (assoc_L (++)).
  - destruct (IH (oracle q l) d (l ++ [Answered q (oracle q l)])) as [k' ->]. eexists. by rewrite <- (assoc_L (++)).
Qed.
(** Every run can go on to its end. *)
Lemma runs_finish R {A} (p : saga A) c d l :
  runs R c (p, d, l) -> exists a d' k, runs R c (Ret a, d', l ++ k).
Proof.
  intros Hr. pose proof (play_runs R p d l) as Hp. destruct (play_grows p d l) as [k Hk].
  destruct (play p d l) as [[a d'] l']. cbn in Hk. subst l'. exists a, d', k. etransitivity; [exact Hr|exact Hp].
Qed.
End Play.
End Sagas.

(** [if err := m; err != nil { return err }] *)
Declare Scope saga_scope.
Delimit Scope saga_scope with saga.
Notation "x ←! m ; k" :=
  (mbind (fun r => match r with Err e => mret (Err e) | Ok x => k end) m)
  (at level 20, m at level 100, k at level 200, only parsing) : saga_scope.
Notation "m ;! k" :=
  (mbind (fun r => match r with Err e => mret (Err e) | Ok _ => k end) m)
  (at level 100, k at level 200, right associativity, only parsing) : saga_scope.
Open Scope saga_scope.
