(* ===== verification/Staging.v ===== *)
(** * Artifacts on the node (src/internal/spawnlet/artifacts.go, secrets.go)

    Before a spawn starts, its artifacts are laid out in a staging directory that the agent's
    container sees: inline files and packaged trees first, then the objects fetched by reference,
    four at a time, through a cache of verified objects.  What the code asks of the operating
    system, of the object store and of the control plane are the questions of a saga, so that a
    statement about what is asked holds whatever is answered. *)

From S2P Require Import Prelude GoLib Paths Database Sagas.
From Stdlib Require Import Ascii.
Open Scope Z_scope.

(** ** Data *)

Inductive ArtifactContentType := ArtifactBytes | ArtifactTar.
Record Artifact := mkArtifact {
  ID : string; Inline : string; ContentType : ArtifactContentType; DestPath : string; FileMode : Z;
  Sensitive : bool; EnvVarName : string;
  ObjectKey : string; Sha256 : string; PresignedURL : string; MaxPlainTarBytes : Z }.
#[export] Instance eta_Artifact : Eta Artifact := fun a =>
  mkArtifact (ID a) (Inline a) (ContentType a) (DestPath a) (FileMode a) (Sensitive a) (EnvVarName a)
    (ObjectKey a) (Sha256 a) (PresignedURL a) (MaxPlainTarBytes a).

(** [FetchError] without the wrapped cause. *)
Record FetchError := mkFetch { Terminal : bool; Expired : bool; msg : string }.
Definition terminalFetch (m : string) : FetchError := mkFetch true false m.
Definition retryFetch (m : string) : FetchError := mkFetch false false m.
Definition expiredFetch (m : string) : FetchError := mkFetch false true m.

Inductive os_error := ErrNotExist | ErrPermission | Other_os_error (what : string).
Inductive staging_error :=
| Os_error (e : os_error)
| Bad_path (what : string)
| Bad_tar (what : string)
| Fetch_failed (e : FetchError).

(** What reading a tar blob delivers: an entry with the bytes read before its end or before the
    blob turns out to be broken; a header that cannot be read. *)
Inductive Typeflag := TypeReg | TypeDir | TypeOther.
Inductive tar_item :=
| Tar_entry (name : string) (typ : Typeflag) (mode : Z) (data : string) (complete : bool)
| Tar_broken.

(** A name of a directory is a single component; size and time are those of [Info], if it answers. *)
Record dir_entry := mkEntry {
  de_name : string; de_neat : good de_name && slashless de_name = true; de_dir : bool; de_info : option (Z * Z) }.

(** A response delivers bytes, then its end or an error. *)
Definition stream : Type := string * bool.
Inductive http_answer := Bad_request | Unreachable | Response (status : Z) (body : stream).
(** The pause before another attempt: the deadline is too near, the context ends, or it is waited out. *)
Inductive waited := No_budget | Context_done | Waited.

(** ** Questions *)

Inductive question :=
| Remove_all (p : string)
| Mkdir_all (p : string) (mode : Z)
| Chown (p : string) (uid : Z)
| Chmod (p : string) (mode : Z)
| Write_file (p data : string) (mode : Z)
| Open_trunc (p : string) (mode : Z)
| Write_to (p data : string)
| Close (p : string)
| Read_file (p : string)
| Read_dir (p : string)
| Create_temp (dir : string)
| Remove (p : string)
| Rename (p q : string)
| Http_get (url : string)
| Represign (key : string)
| Backoff (attempt : nat)
| Progress (detail : string).
Definition answer (q : question) : Type :=
  match q with
  | Read_file _ => result os_error string
  | Read_dir _ => result os_error (list dir_entry)
  | Create_temp _ => result os_error Z
  | Http_get _ => http_answer
  | Represign _ => option (option string)
  | Backoff _ => waited
  | Progress _ => unit
  | _ => result os_error unit
  end.

Abbreviation saga := (Sagas.saga (D := unit) (E := Empty_set) (ans := answer)).
Abbreviation event := (Sagas.event (D := unit) (ans := answer)).
Abbreviation trace := (list event).
Abbreviation stager A := (saga (result staging_error A)).
Abbreviation ask := (Sagas.ask (D := unit) (E := Empty_set) (ans := answer)).
Definition ok {A} (a : A) : stager A := mret (Ok a).
Definition fail {A} (e : staging_error) : stager A := mret (Err e).
(** [if err := op; err != nil { return err }] *)
Definition os {A} (p : saga (result os_error A)) : stager A :=
  r ← p; match r with Ok a => ok a | Err e => fail (Os_error e) end.

(** ** Paths *)

(** [safeRel] of secrets.go *)
Definition safeRel (target : string) : option string :=
  let t := TrimSpace target in
  if String.eqb t "" then None
  else
    let clean := Clean (TrimPrefix t "/") in
    if String.eqb clean "." || String.eqb clean "" then None
    else if String.eqb clean ".." || HasPrefix clean "../" then None
    else Some clean.
Definition reportSubdir : string := "report".
Definition destPathFor (stageDir : string) (art : Artifact) : result staging_error string :=
  match safeRel (DestPath art) with
  | None => Err (Bad_path "dest_path")
  | Some rel =>
      if String.eqb rel reportSubdir || HasPrefix rel (reportSubdir +:+ "/") then Err (Bad_path "reserved")
      else Ok (Join stageDir rel)
  end.

(** ** Reading with a limit *)

(** [io.ReadAll] of a [LimitedReader] *)
Definition read_limited (n : Z) (s : stream) : option string :=
  if n <=? 0 then Some ""
  else if n <=? blen s.1 then Some (slice_to (Z.to_nat n) s.1)
  else if s.2 then None else Some s.1.

(** [strings.ToLower], of the letters of ASCII. *)
Definition lower (a : ascii) : ascii :=
  if in_range 65 90 a then ascii_of_N (N_of_ascii a + 32) else a.
Definition ToLower (s : string) : string := of_bytes (lower <$> bytes_of s).

(** ** Fetching *)

Definition maxPlainTarBytes : Z := 50 * 2 ^ 20.
Definition maxS3ErrorBodyBytes : Z := 64 * 2 ^ 10.
Definition retryAttempts : nat := 3.
Definition stagingFetchConcurrency : nat := 4.

Definition accessDeniedFetch (status : Z) (code : string) : FetchError :=
  let label := if String.eqb code "" then "HTTP " +:+ Itoa status
               else "HTTP " +:+ Itoa status +:+ ", " +:+ code in
  terminalFetch ("skill object fetch denied (" +:+ label +:+
    "): likely clock skew, endpoint/Host mismatch, or a stale Garage key -- retrying will not help").
Definition expiryWorded (s : string) : bool := Contains (ToLower s) "too old" || Contains (ToLower s) "expired".
Definition classify_status (status : Z) (code : string) : FetchError :=
  if status =? 404 then terminalFetch "skill object missing (404)"
  else if status =? 403 then accessDeniedFetch status code
  else if 500 <=? status then retryFetch ("Garage unavailable (HTTP " +:+ Itoa status +:+ ")")
  else if 400 <=? status then
    if negb (String.eqb code "") then terminalFetch ("skill object fetch: HTTP " +:+ Itoa status +:+ " (" +:+ code +:+ ")")
    else terminalFetch ("skill object fetch: HTTP " +:+ Itoa status)
  else retryFetch ("skill object fetch: HTTP " +:+ Itoa status).
Definition classifyS3Error (status : Z) (code message : string) : FetchError :=
  if String.eqb code "InvalidRequest" || String.eqb code "ExpiredToken" then
    if expiryWorded message || String.eqb code "ExpiredToken" then expiredFetch "presigned URL expired"
    else classify_status status code
  else if String.eqb code "AccessDenied" then
    if expiryWorded message then expiredFetch "presigned URL expired" else accessDeniedFetch status code
  else if String.eqb code "SignatureDoesNotMatch" || String.eqb code "InvalidAccessKeyId"
  then accessDeniedFetch status code
  else if String.eqb code "NoSuchKey" then terminalFetch "skill object missing (404)"
  else classify_status status code.

Section Stager.
(** The code and the message of an S3 error body; the bytes a zstd stream decodes to, unless its
    header is bad; SHA-256 in hex; the entries of a tar blob. *)
Context (s3ErrorXML : string -> string * string) (zstd : string -> option stream).
Context (sha256hex : string -> string) (tar_items : string -> list tar_item).
(** [ArtifactStager]; whether the control plane can presign again. *)
Context (Root CacheDir : string) (maxTarBytes cacheMaxBytes AgentUID : Z) (can_represign : bool).
(** [SecretInjector] *)
Context (SecretsRoot : string).

Definition tarCap : Z := if 0 <? maxTarBytes then maxTarBytes else maxPlainTarBytes.
Definition capFor (art : Artifact) : Z := if 0 <? MaxPlainTarBytes art then MaxPlainTarBytes art else tarCap.
Definition DirFor (spawnID : string) : string := Join Root spawnID.

Definition fetched A := saga (result FetchError A).
Definition http_result (capBytes : Z) (r : http_answer) : result FetchError string :=
  match r with
  | Bad_request => Err (terminalFetch "skill object: bad presigned URL")
  | Unreachable => Err (retryFetch "Garage unreachable")
  | Response status body =>
      if negb (status =? 200) then
        let '(code, message) := s3ErrorXML (default body.1 (read_limited maxS3ErrorBodyBytes body)) in
        Err (classifyS3Error status code message)
      else
        match read_limited (i64 (capBytes + 1)) body with
        | None => Err (retryFetch "skill object: read response body")
        | Some b => if capBytes <? blen b then Err (terminalFetch "skill object compressed body too large")
                    else Ok b
        end
  end.
Definition defaultFetcher (url : string) (capBytes : Z) : fetched string :=
  r ← ask (Http_get url); mret (http_result capBytes r).

(** The decoding and the checks of [fetchObjectTar]. *)
Definition verified (art : Artifact) (raw : string) : result FetchError string :=
  match zstd raw with
  | None => Err (terminalFetch "skill object: invalid zstd stream")
  | Some dec =>
      match read_limited (i64 (capFor art + 1)) dec with
      | None => Err (retryFetch "skill object: read error")
      | Some plain =>
          if capFor art <? blen plain then Err (terminalFetch "skill object too large")
          else if negb (String.eqb (Sha256 art) "") && negb (String.eqb (sha256hex plain) (Sha256 art))
          then Err (terminalFetch "sha256 mismatch")
          else Ok plain
      end
  end.
Definition fetchObjectTar (art : Artifact) : fetched string :=
  r ← defaultFetcher (PresignedURL art) (capFor art);
  mret (match r with Err e => Err e | Ok raw => verified art raw end).

(** One turn of the loop of [fetchWithRetry]: [retry] goes on after a failure that may pass,
    [again] after the one new URL that is asked for. *)
Definition fetch_turn (art : Artifact) (retry : fetched string) (again : option (Artifact -> fetched string))
    : fetched string :=
  r ← fetchObjectTar art;
  match r with
  | Ok plain => mret (Ok plain)
  | Err fe =>
      if Expired fe then
        match again with
        | None => mret (Err (terminalFetch "presigned URL expired again after re-presign"))
        | Some again =>
            let unavailable := Err (terminalFetch "presigned URL expired: re-presign unavailable") in
            if negb can_represign then mret unavailable
            else
              urls ← ask (Represign (ObjectKey art));
              match urls with
              | Some (Some newURL) =>
                  if String.eqb newURL "" then mret unavailable else again (art <| PresignedURL := newURL |>)
              | _ => mret unavailable
              end
        end
      else if Terminal fe then mret (Err fe)
      else retry
  end.
Definition exhausted : result FetchError string := Err (retryFetch "Garage unreachable after 3 attempts").
(** The pause after an attempt, and the next one. *)
Definition back_off (attempt : nat) (next : fetched string) : fetched string :=
  w ← ask (Backoff attempt);
  match w with
  | No_budget => mret exhausted
  | Context_done => mret (Err (retryFetch ("Garage unreachable after " +:+ Itoa (Z.of_nat attempt) +:+ " attempt(s)")))
  | Waited => next
  end.
(** The loop with [more] attempts to go after this one, once a new URL has been asked for and before. *)
Fixpoint fetch_represigned (more attempt : nat) (art : Artifact) : fetched string :=
  fetch_turn art
    (match more with O => mret exhausted | S more => back_off attempt (fetch_represigned more (S attempt) art) end)
    None.
Fixpoint fetch_loop (more attempt : nat) (art : Artifact) : fetched string :=
  fetch_turn art
    (match more with O => mret exhausted | S more => back_off attempt (fetch_loop more (S attempt) art) end)
    (Some (fun art => fetch_represigned more attempt art)).
Definition fetchWithRetry (art : Artifact) : fetched string := fetch_loop (retryAttempts - 1) 1 art.

(** ** The cache *)

Definition cachePath (sha : string) : string := Join CacheDir (sha +:+ ".tar").
Definition uncached (art : Artifact) : bool := String.eqb CacheDir "" || String.eqb (Sha256 art) "".
Definition cacheLoad (art : Artifact) : saga (option string) :=
  if uncached art then mret None
  else
    r ← ask (Read_file (cachePath (Sha256 art)));
    match r with
    | Err _ => mret None
    | Ok data =>
        if negb (String.eqb (sha256hex data) (Sha256 art)) then
          _ ← ask (Remove (cachePath (Sha256 art))); mret None
        else mret (Some data)
    end.

(** The files of the cache with their size and time, and their sum. *)
Record cacheFile := mkFile { cf_path : string; cf_size : Z; cf_modTime : Z }.
Definition cache_files (entries : list dir_entry) : list cacheFile :=
  omap (fun e => if de_dir e then None
                 else '(size, t) ← de_info e; Some (mkFile (Join CacheDir (de_name e)) size t)) entries.
(** [sort.Slice] by time *)
Fixpoint insert_file (f : cacheFile) (l : list cacheFile) : list cacheFile :=
  match l with
  | [] => [f]
  | g :: l' => if cf_modTime f <? cf_modTime g then f :: l else g :: insert_file f l'
  end.
Definition by_time (l : list cacheFile) : list cacheFile := foldl (fun l f => insert_file f l) [] l.
Fixpoint evict (files : list cacheFile) (total : Z) : saga unit :=
  match files with
  | [] => mret tt
  | f :: files =>
      if total <=? cacheMaxBytes then mret tt
      else
        r ← ask (Remove (cf_path f));
        evict files (match r with Ok _ => i64 (total - cf_size f) | Err _ => total end)
  end.
Definition pruneCache (incoming : Z) : saga unit :=
  r ← ask (Read_dir CacheDir);
  match r with
  | Err _ => mret tt
  | Ok entries =>
      let files := cache_files entries in
      let total := foldl (fun t f => i64 (t + cf_size f)) 0 files in
      let total := i64 (total + incoming) in
      if total <=? cacheMaxBytes then mret tt else evict (by_time files) total
  end.
(** [os.CreateTemp(a.CacheDir, "tmp-*")] with its random number *)
Definition temp_path (n : Z) : string :=
  (if String.eqb (TrimSlashes CacheDir) CacheDir then CacheDir +:+ "/" else CacheDir) +:+ "tmp-" +:+ Itoa n.
Definition cacheStore (art : Artifact) (plain : string) : saga unit :=
  if uncached art then mret tt
  else
    r ← ask (Mkdir_all CacheDir (octal 7 5 5));
    match r with
    | Err _ => mret tt
    | Ok _ =>
        pruneCache (blen plain);;
        t ← ask (Create_temp CacheDir);
        match t with
        | Err _ => mret tt
        | Ok n =>
            let tmp := temp_path n in
            w ← ask (Write_to tmp plain);
            match w with
            | Err _ => _ ← ask (Close tmp); _ ← ask (Remove tmp); mret tt
            | Ok _ =>
                c ← ask (Close tmp);
                match c with
                | Err _ => _ ← ask (Remove tmp); mret tt
                | Ok _ =>
                    m ← ask (Rename tmp (cachePath (Sha256 art)));
                    match m with Err _ => _ ← ask (Remove tmp); mret tt | Ok _ => mret tt end
                end
            end
        end
    end.

(** ** Files and trees *)

Definition perm (mode : Z) : Z := Z.land mode (octal 7 7 7).
Definition unpack_file (target : string) (mode : Z) (data : string) (complete : bool) : stager unit :=
  os (ask (Mkdir_all (Dir target) (octal 7 5 5)));!
  os (ask (Open_trunc target (perm mode)));!
  w ← ask (Write_to target data);
  match w with
  | Err e => _ ← ask (Close target); fail (Os_error e)
  | Ok _ =>
      if negb complete then _ ← ask (Close target); fail (Bad_tar "copy")
      else
        os (ask (Close target));!
        os (ask (Chmod target (perm mode)))
  end.
Fixpoint unpack_items (root : string) (items : list tar_item) : stager unit :=
  match items with
  | [] => ok tt
  | Tar_broken :: _ => fail (Bad_tar "next")
  | Tar_entry name typ mode data complete :: items =>
      match safeRel name with
      | None => fail (Bad_path "tar entry")
      | Some rel =>
          let target := Join root rel in
          (match typ with
           | TypeDir => os (ask (Mkdir_all target (perm mode)))
           | TypeReg => unpack_file target mode data complete
           | TypeOther => fail (Bad_tar "unsupported type")
           end);!
          unpack_items root items
      end
  end.
Definition unpackTar (root blob : string) : stager unit :=
  os (ask (Mkdir_all root (octal 7 5 5)));!
  unpack_items root (tar_items blob).

(** [SecretInjector.Write] *)
Definition secret_Write (spawnID target plaintext : string) : stager string :=
  match safeRel target with
  | None => fail (Bad_path "target_path")
  | Some rel =>
      let full := Join (Join SecretsRoot spawnID) rel in
      os (ask (Mkdir_all (Dir full) (octal 7 0 0)));!
      os (ask (Open_trunc full (octal 6 0 0)));!
      w ← ask (Write_to full plaintext);
      match w with
      | Err e => _ ← ask (Close full); fail (Os_error e)
      | Ok _ =>
          os (ask (Close full));!
          os (ask (Chmod full (octal 6 0 0)));!
          ok full
      end
  end.

(** ** One artifact *)

Definition stage_bytes (dest : string) (art : Artifact) : stager unit :=
  let mode := if FileMode art =? 0 then (octal 6 4 4) else FileMode art in
  os (ask (Mkdir_all (Dir dest) (octal 7 5 5)));!
  os (ask (Write_file dest (Inline art) mode));!
  os (ask (Chmod dest mode)).
Definition stage (stageDir : string) (art : Artifact) : stager unit :=
  match destPathFor stageDir art with
  | Err e => fail e
  | Ok dest => match ContentType art with
               | ArtifactTar => unpackTar dest (Inline art)
               | ArtifactBytes => stage_bytes dest art
               end
  end.
Definition stageByRef (stageDir : string) (art : Artifact) : stager unit :=
  match destPathFor stageDir art with
  | Err e => fail e
  | Ok dest =>
      c ← cacheLoad art;
      match c with
      | Some plain => unpackTar dest plain
      | None =>
          r ← fetchWithRetry art;
          match r with
          | Err fe => fail (Fetch_failed fe)
          | Ok plain => cacheStore art plain;; unpackTar dest plain
          end
      end
  end.

(** ** All artifacts of a spawn *)

Definition prepareReportDir (stageDir : string) : stager unit :=
  let reportDir := Join stageDir reportSubdir in
  os (ask (Mkdir_all reportDir (octal 7 5 5)));!
  degraded ←! (if AgentUID <? 0 then ok true
               else
                 r ← ask (Chown reportDir AgentUID);
                 match r with
                 | Ok _ => ok false
                 | Err ErrPermission => ok true
                 | Err e => fail (Os_error e)
                 end);
  os (ask (Chmod reportDir (if degraded : bool then (octal 7 7 7) else (octal 7 5 5)))).

(** The artifacts in order: what is inline is laid out, what is by reference is left for later. *)
Fixpoint stage_inline (spawnID dir : string) (artifacts byRef : list Artifact) : stager (list Artifact) :=
  match artifacts with
  | [] => ok byRef
  | art :: artifacts =>
      if Sensitive art then
        if String.eqb (Inline art) "" then stage_inline spawnID dir artifacts byRef
        else
          secret_Write spawnID (if String.eqb (EnvVarName art) "" then DestPath art else EnvVarName art) (Inline art);!
          stage_inline spawnID dir artifacts byRef
      else if negb (String.eqb (PresignedURL art) "") then stage_inline spawnID dir artifacts (byRef ++ [art])
      else
        stage dir art;!
        stage_inline spawnID dir artifacts byRef
  end.
Definition materialize_inline (spawnID : string) (artifacts : list Artifact) : stager (list Artifact) :=
  let dir := DirFor spawnID in
  r ← ask (Remove_all dir);
  match r with
  | Err (ErrPermission as e) | Err (Other_os_error _ as e) => fail (Os_error e)
  | _ =>
      os (ask (Mkdir_all dir (octal 7 5 5)));!
      prepareReportDir dir;!
      stage_inline spawnID dir artifacts []
  end.

(** [materializeByRef]: the artifacts not yet dispatched, the workers, the outcomes in the order
    of the channel, how many of them the collector has read, the first error. *)
Record pool := mkPool {
  waiting : list Artifact; running : list (Artifact * stager unit);
  settled : list (Artifact * result staging_error unit); collected : nat; firstErr : option staging_error }.
#[export] Instance eta_pool : Eta pool := fun p =>
  mkPool (waiting p) (running p) (settled p) (collected p) (firstErr p).
Definition start_pool (byRef : list Artifact) : pool := mkPool byRef [] [] 0 None.
Definition total (p : pool) : nat := length (waiting p) + length (running p) + length (settled p).

Definition dispatch (stageDir : string) (p : pool) : option pool :=
  match waiting p with
  | art :: w =>
      if decide (length (running p) < stagingFetchConcurrency)%nat
      then Some (p <| waiting := w |> <| running ::= fun l => l ++ [(art, stageByRef stageDir art)] |>)
      else None
  | [] => None
  end.
Definition settle (i : nat) (p : pool) : option pool :=
  match running p !! i with
  | Some (art, Ret r) =>
      Some (p <| running ::= delete i |> <| settled ::= fun l => l ++ [(art, r)] |>
              <| firstErr := match firstErr p, r with None, Err e => Some e | fe, _ => fe end |>)
  | _ => None
  end.
(** What the collector reports of the outcome it reads. *)
Definition reports (p : pool) : list question :=
  match settled p !! collected p with
  | Some (art, r) =>
      (match r with
       | Ok _ => [Progress ("staged " +:+ ID art +:+ " (" +:+ Itoa (Z.of_nat (S (collected p))) +:+ "/" +:+ Itoa (Z.of_nat (total p)) +:+ ")")]
       | Err _ => []
       end) ++
      (if Nat.eqb (S (collected p)) (total p) then [Progress ("staged all " +:+ Itoa (Z.of_nat (total p)) +:+ " artifacts")] else [])
  | None => []
  end.

(** The whole call: the serial part, the pool, its return. *)
Inductive call :=
| Serial (p : stager (list Artifact))
| Fetching (p : pool)
| Returned (r : result staging_error unit).
Inductive call_step (spawnID : string) : call * trace -> call * trace -> Prop :=
| step_serial q k l a : call_step spawnID (Serial (Env q k), l) (Serial (k a), l ++ [Answered q a])
| step_inline_failed e l : call_step spawnID (Serial (Ret (Err e)), l) (Returned (Err e), l)
| step_inline_only l : call_step spawnID (Serial (Ret (Ok [])), l) (Returned (Ok tt), l)
| step_pool art byRef l :
    call_step spawnID (Serial (Ret (Ok (art :: byRef))), l) (Fetching (start_pool (art :: byRef)), l)
| step_dispatch p p' l :
    dispatch (DirFor spawnID) p = Some p' -> call_step spawnID (Fetching p, l) (Fetching p', l)
| step_work p i art q k l a :
    running p !! i = Some (art, Env q k) ->
    call_step spawnID (Fetching p, l) (Fetching (p <| running ::= <[i := (art, k a)]> |>), l ++ [Answered q a])
| step_settle p i p' l : settle i p = Some p' -> call_step spawnID (Fetching p, l) (Fetching p', l)
| step_collect p l :
    (collected p < length (settled p))%nat ->
    call_step spawnID (Fetching p, l)
      (Fetching (p <| collected ::= S |>), l ++ omap (fun q => match q with Progress d => Some (Answered (Progress d) tt) | _ => None end) (reports p))
| step_heartbeat p l :
    (collected p < total p)%nat ->
    call_step spawnID (Fetching p, l) (Fetching p, l ++ [Answered (Progress "fetching skill objects (in progress)") tt])
| step_return p l :
    collected p = total p -> running p = [] ->
    call_step spawnID (Fetching p, l) (Returned (match firstErr p with Some e => Err e | None => Ok tt end), l).
Definition Materialize (spawnID : string) (artifacts : list Artifact) : call * trace -> Prop :=
  rtc (call_step spawnID) (Serial (materialize_inline spawnID artifacts), []).
End Stager.
