(* ===== verification/StagingLaws.v ===== *)
(** * Laws of staging: where it reaches, what it unpacks, how often it asks *)

From Stdlib Require Import Ascii.
From stdpp Require Import pretty.
From S2P Require Import Prelude GoLib Paths Database Sagas Staging.
Open Scope Z_scope.

(** ** Places *)

Definition inside (d : list string) (p : string) : Prop := exists gs, neat gs /\ p = host_path (d ++ gs).
Definition child (d : list string) (p : string) : Prop :=
  exists c, good c = true /\ slashless c = true /\ p = host_path (d ++ [c]).
(** The directory or one it lies in. *)
Definition above (d : list string) (p : string) : Prop := exists k gs, d = k ++ gs /\ p = host_path k.

Lemma safeRel_way target rel : safeRel target = Some rel -> exists gs, way rel gs.
Proof.
  unfold safeRel. case_match; [done|]. set (t := TrimPrefix _ _). intros Hs.
  destruct (String.eqb (Clean t) "." || String.eqb (Clean t) "") eqn:Hdot; [done|].
  destruct (String.eqb (Clean t) ".." || HasPrefix (Clean t) "../") eqn:Hup; [done|]. injection Hs as <-.
  destruct (HasPrefix t "/") eqn:Hr.
  - destruct (Clean_rooted t Hr) as (gs & -> & Hn). exists gs. split; [done|by left].
  - destruct (Clean_relative t Hr) as (n & gs & Hn & Hc). exists gs. split; [done|]. right.
    destruct n as [|n]; cbn [replicate app] in Hc.
    + destruct gs as [|g gs]; [rewrite Hc in Hdot; by vm_compute in Hdot|]. by split.
    + exfalso. rewrite Hc in Hup. destruct (replicate n ".." ++ gs) as [|x l]; [done|].
      rewrite join_cons in Hup by done. apply orb_false_iff in Hup as [_ Hup].
      apply not_true_iff_false in Hup. apply Hup, HasPrefix_spec. by exists (join (x :: l)).
Qed.
Lemma safeRel_inside d target rel :
  neat d -> safeRel target = Some rel -> inside d (Join (host_path d) rel).
Proof. intros Hd (gs & Hw)%safeRel_way. exists gs. split; [apply Hw|by apply Join_way]. Qed.

(** The directory of a path below [d] is below [d], or [d] lies in it. *)
Lemma Dir_inside d p : neat d -> inside d p -> inside d (Dir p) \/ above d (Dir p).
Proof.
  intros Hd (gs & Hg & ->). destruct gs as [|x gs _] using rev_ind.
  - rewrite app_nil_r. right. destruct d as [|x d _] using rev_ind; [by exists [], []|].
    exists d, [x]. by rewrite Dir_host_path.
  - left. rewrite (assoc_L (++)), Dir_host_path; [|rewrite <- (assoc_L (++)); by apply neat_app].
    exists gs. split; [by apply neat_app in Hg as [? _]|done].
Qed.
Lemma inside_self d : inside d (host_path d).
Proof. exists []. by rewrite app_nil_r. Qed.
Lemma inside_app d e p : neat e -> inside (d ++ e) p -> inside d p.
Proof. intros He (gs & Hg & ->). exists (e ++ gs). split; [by apply neat_app|by rewrite (assoc_L (++))]. Qed.
Lemma child_inside d p : child d p -> inside d p.
Proof. intros (c & Hg & Hs & ->). exists [c]. split; [|done]. unfold neat. simpl. by rewrite Hg, Hs. Qed.
Lemma Join_child d c :
  neat d -> good c = true -> slashless c = true -> Join (host_path d) c = host_path (d ++ [c]).
Proof.
  intros Hd Hg Hs. apply Join_way; [done|]. split; [unfold neat; simpl; by rewrite Hg, Hs|]. right. by split.
Qed.

(** Numbers and suffixes in names. *)
Lemma slashless_app s t : slashless (s +:+ t) = slashless s && slashless t.
Proof. induction s as [|c s IH]; [done|]. rewrite append_cons. simpl. by rewrite IH, andb_assoc. Qed.
Lemma slashless_pretty_N x s : slashless s = true -> slashless (pretty_N_go x s) = true.
Proof.
  revert s. induction (N.lt_wf_0 x) as [x _ IH]. intros s Hs.
  destruct (decide (x = 0)%N) as [->|Hx]; [by rewrite pretty_N_go_0|].
  rewrite pretty_N_go_step by lia. apply IH; [apply N.div_lt; lia|]. simpl. rewrite Hs.
  assert (x `mod` 10 < 10)%N as Hd by (apply N.mod_lt; lia). revert Hd. generalize (x `mod` 10)%N as d. intros d Hd.
  destruct d as [|p]; [done|]. do 4 (try (destruct p as [p|p|]; try done)); lia.
Qed.
Lemma slashless_Itoa z : slashless (Itoa z) = true.
Proof.
  destruct z as [|p|p]; [done|by apply (slashless_pretty_N (Npos p))|].
  change (slashless ("-" +:+ pretty_N_go (Npos p) "") = true). rewrite slashless_app. by apply slashless_pretty_N.
Qed.

(** ** What is asked *)

Section Reach.
Context (s3ErrorXML : string -> string * string) (zstd : string -> option stream).
Context (sha256hex : string -> string) (tar_items : string -> list tar_item).
Context (maxTarBytes cacheMaxBytes AgentUID : Z) (can_represign : bool).
(** The directories are absolute and clean, the cache may be off, and a spawn is a name. *)
Context (root secrets cache : list string) (cached : bool) (spawnID : string).
Context (Hroot : neat root) (Hsecrets : neat secrets) (Hcache : neat cache) (Hcne : cache <> []).
Context (Hid : good spawnID = true) (Hids : slashless spawnID = true).
Context (artifacts : list Artifact).
Abbreviation Root := (host_path root).
Abbreviation SecretsRoot := (host_path secrets).
Abbreviation CacheDir := (if cached then host_path cache else "").

Definition staging_dir : list string := root ++ [spawnID].
Definition secrets_dir : list string := secrets ++ [spawnID].
Lemma neat_staging : neat staging_dir.
Proof. apply neat_app. split; [done|]. unfold neat. simpl. by rewrite Hid, Hids. Qed.
Lemma neat_secrets : neat secrets_dir.
Proof. apply neat_app. split; [done|]. unfold neat. simpl. by rewrite Hid, Hids. Qed.
Lemma DirFor_staging : DirFor Root spawnID = host_path staging_dir.
Proof. by apply Join_child. Qed.

(** Files of the spawn: in its staging directory or its secrets directory. *)
Definition own (p : string) : Prop := inside staging_dir p \/ inside secrets_dir p.
(** The bytes an artifact stands for: its own, or any whose digest is the artifact's; the code checks
    no digest that is empty. *)
Definition carries (art : Artifact) (blob : string) : Prop :=
  if String.eqb (PresignedURL art) "" then blob = Inline art
  else Sha256 art = "" \/ sha256hex blob = Sha256 art.
Definition file_of (blob data : string) : Prop :=
  exists name mode complete, Tar_entry name TypeReg mode data complete ∈ tar_items blob.
(** What the cache holds, when there is one. *)
Definition cache_dir (p : string) : Prop := cached = true /\ p = host_path cache.
Definition cache_file (p : string) : Prop := cached = true /\ child cache p.
Definition confined (q : question) : Prop :=
  match q with
  | Remove_all p => p = host_path staging_dir
  | Mkdir_all p _ => own p \/ above staging_dir p \/ above secrets_dir p \/ cache_dir p
  | Chown p _ | Chmod p _ | Open_trunc p _ => own p
  | Close p => own p \/ cache_file p
  | Write_file p data _ =>
      inside staging_dir p /\
      exists art, art ∈ artifacts /\ Sensitive art = false /\ PresignedURL art = "" /\ data = Inline art
  | Write_to p data =>
      (inside secrets_dir p /\ exists art, art ∈ artifacts /\ Sensitive art = true /\ data = Inline art) \/
      (inside staging_dir p /\
       exists art blob, art ∈ artifacts /\ Sensitive art = false /\ carries art blob /\ file_of blob data) \/
      (cache_file p /\ exists art, art ∈ artifacts /\ Sensitive art = false /\ sha256hex data = Sha256 art)
  | Read_file p | Remove p => cache_file p
  | Read_dir p | Create_temp p => cache_dir p
  | Rename p q => cache_file p /\ cache_file q
  | _ => True
  end.
Abbreviation within p := (asks confined p).

Lemma within_os {A} (p : saga (result os_error A)) : within p -> within (os p).
Proof. intros Hp. unfold os. apply asks_bind; [done|]. by intros []. Qed.
Lemma within_ask q : confined q -> within (ask q).
Proof. done. Qed.
Lemma within_seq {A B} (p : stager A) (f : A -> stager B) :
  within p -> (forall a, within (f a)) -> within (p ≫= fun r => match r with Err e => mret (Err e) | Ok a => f a end).
Proof. intros Hp Hf. apply asks_bind; [done|]. intros [e|a]; [done|apply Hf]. Qed.

(** Below a directory of the spawn's. *)
Definition home (d : list string) : Prop := d = staging_dir \/ d = secrets_dir.
Lemma home_own d p : home d -> inside d p -> own p.
Proof. intros [-> | ->] Hp; [by left|by right]. Qed.
Lemma home_neat d : home d -> neat d.
Proof. intros [-> | ->]; [apply neat_staging|apply neat_secrets]. Qed.
Lemma home_mkdir d p : home d -> inside d p -> confined (Mkdir_all (Dir p) (octal 7 5 5)).
Proof.
  intros Hd Hp. destruct (Dir_inside d p (home_neat d Hd) Hp) as [Hi|Ha]; [left; by eapply home_own|right].
  destruct Hd as [-> | ->]; auto.
Qed.

Lemma unpack_file_within target mode data complete :
  inside staging_dir target -> confined (Write_to target data) -> within (unpack_file target mode data complete).
Proof.
  intros Ht Hw. assert (own target) as Ho by by left. unfold unpack_file.
  apply within_seq; [apply within_os, within_ask; eapply (home_mkdir staging_dir); [by left|done]|]. intros _.
  apply within_seq; [by apply within_os, within_ask|]. intros _.
  apply asks_bind; [by apply within_ask|]. intros [e|_].
  - apply asks_bind; [apply within_ask; by left|]. done.
  - destruct complete; cbn [negb].
    + apply within_seq; [apply within_os, within_ask; by left|]. intros _. by apply within_os, within_ask.
    + apply asks_bind; [apply within_ask; by left|]. done.
Qed.
Lemma unpack_items_within e items :
  neat e ->
  (forall name mode data complete p, Tar_entry name TypeReg mode data complete ∈ items -> inside staging_dir p ->
    confined (Write_to p data)) ->
  within (unpack_items (host_path (staging_dir ++ e)) items).
Proof.
  intros He. induction items as [|[name typ mode data complete|] items IH]; intros Hw; [done| |done].
  cbn [unpack_items]. destruct (safeRel name) as [rel|] eqn:Hrel; [|done].
  assert (inside staging_dir (Join (host_path (staging_dir ++ e)) rel)) as Hi.
  { apply (inside_app staging_dir e); [done|]. eapply safeRel_inside; [|exact Hrel]. apply neat_app.
    split; [apply neat_staging|done]. }
  apply within_seq.
  - destruct typ; [|by apply within_os, within_ask; left; left|done].
    apply unpack_file_within; [done|]. eapply Hw; [by left|done].
  - intros _. apply IH. intros name' mode' data' complete' p Hin. eapply Hw. by right.
Qed.
Lemma unpackTar_within p blob art :
  inside staging_dir p -> art ∈ artifacts -> Sensitive art = false -> carries art blob ->
  within (unpackTar tar_items p blob).
Proof.
  intros (gs & Hg & ->) Hin Hs Hb. unfold unpackTar.
  apply within_seq; [apply within_os, within_ask; left; left; by exists gs|]. intros _.
  apply unpack_items_within; [done|]. intros name mode data complete p Hd Hp. right. left. split; [done|].
  exists art, blob. split_and!; [done..|]. by exists name, mode, complete.
Qed.

Lemma destPathFor_inside art dest : destPathFor (host_path staging_dir) art = Ok dest -> inside staging_dir dest.
Proof.
  unfold destPathFor. destruct (safeRel (DestPath art)) as [rel|] eqn:Hr; [|done]. case_match; [done|].
  intros [= <-]. eapply safeRel_inside; [apply neat_staging|exact Hr].
Qed.
Lemma stage_within art :
  art ∈ artifacts -> Sensitive art = false -> PresignedURL art = "" ->
  within (stage tar_items (host_path staging_dir) art).
Proof.
  intros Hin Hs Hp. unfold stage. destruct (destPathFor _ art) as [e|dest] eqn:Hd; [done|]. apply destPathFor_inside in Hd.
  destruct (ContentType art).
  - unfold stage_bytes.
    apply within_seq; [apply within_os, within_ask; eapply (home_mkdir staging_dir); [by left|done]|]. intros _.
    apply within_seq; [apply within_os, within_ask; split; [done|by exists art]|].
    intros _. by apply within_os, within_ask; left.
  - eapply unpackTar_within; [done..|]. unfold carries. by rewrite Hp.
Qed.
Lemma secret_Write_within target art :
  art ∈ artifacts -> Sensitive art = true -> within (secret_Write SecretsRoot spawnID target (Inline art)).
Proof.
  intros Hin Hsens. unfold secret_Write. destruct (safeRel target) as [rel|] eqn:Hr; [|done].
  assert (Join SecretsRoot spawnID = host_path secrets_dir) as -> by by apply Join_child.
  assert (inside secrets_dir (Join (host_path secrets_dir) rel)) as Hi by
    (eapply safeRel_inside; [apply neat_secrets|exact Hr]).
  assert (home secrets_dir) as Hh by by right.
  set (full := Join _ rel) in *. assert (own full) as Ho by by right.
  assert (confined (Write_to full (Inline art))) as Hw by (left; split; [done|by exists art]).
  apply within_seq; [apply within_os, within_ask; by eapply (home_mkdir secrets_dir)|]. intros _.
  apply within_seq; [by apply within_os, within_ask|]. intros _.
  apply asks_bind; [by apply within_ask|]. intros [e|_].
  - apply asks_bind; [apply within_ask; by left|]. done.
  - apply within_seq; [apply within_os, within_ask; by left|]. intros _.
    apply within_seq; [by apply within_os, within_ask|]. done.
Qed.

(** *** The cache *)

Definition named (art : Artifact) : Prop := slashless (Sha256 art) = true.
Lemma good_tar s : good (s +:+ ".tar") = true.
Proof.
  unfold good. apply negb_true_iff, orb_false_iff. rewrite orb_false_iff.
  split_and!; apply String.eqb_neq; intros He; destruct s as [|a [|b [|c s]]]; rewrite ?append_cons in He; try congruence; by vm_compute in He.
Qed.
Lemma cachePath_child sha :
  cached = true -> slashless sha = true -> cache_file (cachePath (host_path cache) sha).
Proof.
  intros Hc Hs. split; [done|]. exists (sha +:+ ".tar"). pose proof (good_tar sha) as Hg.
  assert (slashless (sha +:+ ".tar") = true) as Hsl by (by rewrite slashless_app, Hs).
  split_and!; [done..|]. by apply Join_child.
Qed.
Lemma temp_path_child n : cached = true -> cache_file (temp_path (host_path cache) n).
Proof.
  intros Hc. split; [done|]. exists ("tmp-" +:+ Itoa n).
  assert (slashless ("tmp-" +:+ Itoa n) = true) as Hs by apply (slashless_Itoa n). split_and!; [done..|].
  unfold temp_path. rewrite TrimSlashes_id, String.eqb_refl.
  - unfold host_path. rewrite join_app by done. by rewrite !append_assoc.
  - intros d Hd. apply (f_equal split) in Hd. change (d +:+ "/") with (d +:+ "/" +:+ "") in Hd.
    rewrite split_app, split_host_path in Hd by done. destruct cache as [|x l _] using rev_ind; [done|].
    apply neat_app in Hcache as [_ Hx]. apply neat_cons in Hx as [[Hx _] _].
    destruct (l ++ [x]) as [|y k] eqn:Hl; [by destruct l|]. rewrite <- Hl in Hd.
    change ("" :: l ++ [x]) with (("" :: l) ++ [x]) in Hd. apply app_inj_tail in Hd as [_ ->]. done.
Qed.

Lemma within_tell q : confined q -> within (_ ← ask q; mret tt).
Proof. intros Hq. apply asks_bind; [by apply within_ask|done]. Qed.
Lemma cacheLoad_within art : named art -> within (cacheLoad sha256hex CacheDir art).
Proof.
  intros Hn. unfold cacheLoad, uncached. destruct cached eqn:Hc; [|done]. case_match; [done|].
  apply asks_bind; [by apply within_ask, cachePath_child|]. intros [e|data]; [done|]. case_match; [|done].
  apply asks_bind; [by apply within_ask, cachePath_child|done].
Qed.
Definition in_cache (f : cacheFile) : Prop := cache_file (cf_path f).
Lemma cache_files_child entries : cached = true -> Forall in_cache (cache_files (host_path cache) entries).
Proof.
  intros Hc. apply Forall_forall. intros f (e & _ & Hf)%list_elem_of_omap. case_match; [done|].
  destruct (de_info e) as [[size t]|]; [|done]. injection Hf as <-. split; [done|]. cbn.
  pose proof (de_neat e) as Hn. apply andb_prop in Hn as [Hg Hs]. exists (de_name e). split_and!; [done..|].
  by apply Join_child.
Qed.
Lemma insert_file_child f l : in_cache f -> Forall in_cache l -> Forall in_cache (insert_file f l).
Proof.
  intros Hf. induction l as [|g l IH]; intros Hl; simpl; [by apply Forall_singleton|].
  case_match; [by constructor|]. apply Forall_cons in Hl as [Hg Hl]. constructor; auto.
Qed.
Lemma by_time_child l : Forall in_cache l -> Forall in_cache (by_time l).
Proof.
  unfold by_time. enough (forall acc, Forall in_cache acc -> Forall in_cache l ->
    Forall in_cache (foldl (fun l f => insert_file f l) acc l)) by auto.
  induction l as [|f l IH]; intros acc Ha Hl; [done|]. simpl. apply Forall_cons in Hl as [Hf Hl].
  apply IH; [|done]. by apply insert_file_child.
Qed.
Lemma evict_within files tot : Forall in_cache files -> within (evict cacheMaxBytes files tot).
Proof.
  revert tot. induction files as [|f files IH]; intros tot Hl; cbn [evict]; [done|].
  apply Forall_cons in Hl as [Hf Hl]. case_match; [done|]. apply asks_bind; [by apply within_ask|]. intros r. by apply IH.
Qed.
Lemma cacheStore_within art plain :
  named art -> art ∈ artifacts -> Sensitive art = false -> Sha256 art = "" \/ sha256hex plain = Sha256 art ->
  within (cacheStore CacheDir cacheMaxBytes art plain).
Proof.
  intros Hn Hin Hsens Hsha. unfold cacheStore, uncached. destruct cached eqn:Hc; [|done].
  destruct (String.eqb_spec (host_path cache) "") as [|_]; [done|].
  destruct (String.eqb_spec (Sha256 art) "") as [|Hne]; [done|]. destruct Hsha as [|Hsha]; [done|]. cbn [orb].
  assert (cache_dir (host_path cache)) as Hcd by by split.
  assert (forall m, confined (Mkdir_all (host_path cache) m)) as Hmk by (intros m; by right; right; right).
  apply asks_bind; [by apply within_ask|]. intros [e|_]; [done|]. apply asks_bind.
  - unfold pruneCache. apply asks_bind; [by apply within_ask|]. intros [e|entries]; [done|].
    case_match; [done|]. by apply evict_within, by_time_child, cache_files_child.
  - intros _. apply asks_bind; [by apply within_ask|]. intros [e|n]; [done|].
    pose proof (temp_path_child n Hc) as Ht. pose proof (cachePath_child _ Hc Hn) as Hp.
    apply asks_bind; [apply within_ask; right; right; split; [done|by exists art]|]. intros [e|_].
    + apply asks_bind; [apply within_ask; by right|]. intros _. by apply within_tell.
    + apply asks_bind; [apply within_ask; by right|]. intros [e|_]; [by apply within_tell|].
      apply asks_bind; [by apply within_ask|]. intros [e|_]; [by apply within_tell|done].
Qed.

(** Nothing of the fetch touches a file. *)
Abbreviation fetch_within p := (within p).
Lemma fetch_turn_within art retry again :
  fetch_within retry -> (forall f art, again = Some f -> fetch_within (f art)) ->
  fetch_within (fetch_turn s3ErrorXML zstd sha256hex maxTarBytes can_represign art retry again).
Proof.
  intros Hr Ha. unfold fetch_turn. apply asks_bind.
  - unfold fetchObjectTar, defaultFetcher. apply asks_bind; [|done]. by apply asks_bind.
  - intros [fe|plain]; [|done]. destruct (Expired fe); [|by destruct (Terminal fe)].
    destruct again as [f|]; [|done]. case_match; [done|]. apply asks_bind; [done|].
    intros [[u|]|]; [|done..]. case_match; [done|]. by apply Ha.
Qed.
Lemma fetchWithRetry_within art :
  fetch_within (fetchWithRetry s3ErrorXML zstd sha256hex maxTarBytes can_represign art).
Proof.
  unfold fetchWithRetry. generalize 1%nat, (retryAttempts - 1)%nat. intros attempt more.
  assert (forall more attempt art, fetch_within (fetch_represigned s3ErrorXML zstd sha256hex maxTarBytes can_represign more attempt art)) as Hafter.
  { intros k. induction k as [|k IH]; intros n a; cbn [fetch_represigned];
      (apply fetch_turn_within; [|done]); [done|]. apply asks_bind; [done|]. by intros []. }
  revert attempt art. induction more as [|more IH]; intros attempt art; cbn [fetch_loop]; apply fetch_turn_within.
  - done.
  - intros f a [= <-]. exact (Hafter 0%nat attempt a).
  - apply asks_bind; [done|]. by intros [].
  - intros f a [= <-]. exact (Hafter (S more) attempt a).
Qed.
Abbreviation stage_by_ref :=
  (stageByRef s3ErrorXML zstd sha256hex tar_items CacheDir maxTarBytes cacheMaxBytes can_represign (host_path staging_dir)).
(** What comes out of the cache or of the store has the digest. *)
Definition digested (art : Artifact) (plain : string) : Prop := Sha256 art = "" \/ sha256hex plain = Sha256 art.
Lemma cacheLoad_digested art :
  returns (fun r => forall plain, r = Some plain -> digested art plain) (cacheLoad sha256hex CacheDir art).
Proof.
  unfold cacheLoad. case_match; [done|]. intros [e|data]; [done|].
  cbn. destruct (negb _) eqn:Hn; [by intros ? ?|]. apply negb_false_iff, String.eqb_eq in Hn.
  intros plain [= <-]. by right.
Qed.
Abbreviation delivers art p := (returns (fun r => forall plain, r = Ok plain -> digested art plain) p).
Lemma fetch_turn_digested art retry again :
  delivers art retry -> (forall f url, again = Some f -> delivers art (f (art <| PresignedURL := url |>))) ->
  delivers art (fetch_turn s3ErrorXML zstd sha256hex maxTarBytes can_represign art retry again).
Proof.
  intros Hr Ha. unfold fetch_turn.
  apply (returns_bind (fun r => forall plain, r = Ok plain -> digested art plain)).
  - unfold fetchObjectTar, defaultFetcher. apply (returns_bind (fun _ => True)); [apply returns_any|].
    intros [e|raw] _; [done|]. intros plain Hv. unfold verified in Hv. repeat case_match; simplify_eq.
    brefl. destruct (String.eqb_spec (Sha256 art) ""); [by left|].
    destruct (String.eqb_spec (sha256hex plain) (Sha256 art)); [by right|]. naive_solver.
  - intros [fe|plain] Hp; [|done]. destruct (Expired fe); [|by destruct (Terminal fe)].
    destruct again as [f|]; [|done]. case_match; [done|]. apply (returns_bind (fun _ => True)); [done|].
    intros [[u|]|] _; [|done..]. case_match; [done|]. by apply Ha.
Qed.
Lemma back_off_digested art attempt next : delivers art next -> delivers art (back_off attempt next).
Proof. intros Hn. apply (returns_bind (fun _ => True)); [done|]. by intros [] _. Qed.
Lemma fetchWithRetry_digested art :
  delivers art (fetchWithRetry s3ErrorXML zstd sha256hex maxTarBytes can_represign art).
Proof.
  unfold fetchWithRetry. generalize 1%nat, (retryAttempts - 1)%nat. intros attempt more.
  assert (forall more attempt art, delivers art
    (fetch_represigned s3ErrorXML zstd sha256hex maxTarBytes can_represign more attempt art)) as Hafter.
  { intros k. induction k as [|k IH]; intros n a; cbn [fetch_represigned];
      (apply fetch_turn_digested; [|done]); [done|]. by apply back_off_digested. }
  revert attempt. induction more as [|more IH]; intros attempt; cbn [fetch_loop]; apply fetch_turn_digested.
  - done.
  - intros f url [= <-]. exact (Hafter 0%nat attempt _).
  - by apply back_off_digested.
  - intros f url [= <-]. exact (Hafter (S more) attempt _).
Qed.
Definition by_ref (art : Artifact) : Prop :=
  named art /\ art ∈ artifacts /\ Sensitive art = false /\ PresignedURL art <> "".
Lemma stageByRef_within art : by_ref art -> within (stage_by_ref art).
Proof.
  intros (Hn & Hin & Hs & Hp). unfold stageByRef. destruct (destPathFor _ art) as [e|dest] eqn:Hd; [done|].
  apply destPathFor_inside in Hd.
  assert (forall blob, digested art blob -> within (unpackTar tar_items dest blob)) as Hu.
  { intros blob Hb. eapply unpackTar_within; [done..|]. unfold carries. apply String.eqb_neq in Hp. by rewrite Hp. }
  eapply asks_returns; [by apply cacheLoad_within|apply cacheLoad_digested|]. intros [plain|] Hc; [by apply Hu, Hc|].
  eapply asks_returns; [apply fetchWithRetry_within|apply fetchWithRetry_digested|]. intros [fe|plain] Hf; [done|].
  specialize (Hf _ eq_refl). apply asks_bind; [by apply cacheStore_within|]. intros _. by apply Hu.
Qed.

(** *** The whole call *)

Lemma prepareReportDir_within : within (prepareReportDir AgentUID (host_path staging_dir)).
Proof.
  assert (own (Join (host_path staging_dir) reportSubdir)) as Ho.
  { left. rewrite (Join_child staging_dir reportSubdir) by (done || apply neat_staging).
    exists [reportSubdir]. by split. }
  unfold prepareReportDir. apply within_seq; [by apply within_os, within_ask; left|]. intros _.
  apply within_seq; [|intros deg; by apply within_os, within_ask].
  case_match; [done|]. apply asks_bind; [by apply within_ask|]. intros [[]|]; done.
Qed.
Lemma stage_inline_within arts byRef :
  (forall art, art ∈ arts -> art ∈ artifacts) ->
  within (stage_inline tar_items SecretsRoot spawnID (host_path staging_dir) arts byRef).
Proof.
  revert byRef. induction arts as [|art arts IH]; intros byRef Hsub; cbn [stage_inline]; [done|].
  assert (art ∈ artifacts) as Hin by (apply Hsub; by left).
  assert (forall byRef, within (stage_inline tar_items SecretsRoot spawnID (host_path staging_dir) arts byRef)) as Hrest
    by (intros b; apply IH; intros a Ha; apply Hsub; by right).
  destruct (Sensitive art) eqn:Hs; [case_match; [done|]|].
  - apply within_seq; [by apply secret_Write_within|done].
  - destruct (String.eqb_spec (PresignedURL art) "") as [Hp|_]; cbn [negb]; [|done].
    apply within_seq; [by apply stage_within|done].
Qed.
Lemma materialize_inline_within :
  within (materialize_inline tar_items Root AgentUID SecretsRoot spawnID artifacts).
Proof.
  unfold materialize_inline. rewrite DirFor_staging. apply asks_bind; [by apply within_ask|].
  assert (within (os (ask (Mkdir_all (host_path staging_dir) (octal 7 5 5)));!
    prepareReportDir AgentUID (host_path staging_dir);!
    stage_inline tar_items SecretsRoot spawnID (host_path staging_dir) artifacts [])) as Hrest.
  { apply within_seq; [apply within_os, within_ask; left; left; apply inside_self|]. intros _.
    apply within_seq; [apply prepareReportDir_within|]. intros _. by apply stage_inline_within. }
  by intros [[]|].
Qed.
(** What is left for the pool is among the artifacts. *)
Abbreviation all_by_ref r := (forall l, r = Ok l -> Forall by_ref l).
Lemma stage_inline_returns d arts byRef :
  (forall art, art ∈ arts -> named art /\ art ∈ artifacts) -> Forall by_ref byRef ->
  returns (fun r => all_by_ref r) (stage_inline tar_items SecretsRoot spawnID d arts byRef).
Proof.
  revert byRef. induction arts as [|art arts IH]; intros byRef Ha Hb; cbn [stage_inline].
  - by intros l [= <-].
  - assert (forall byRef, Forall by_ref byRef ->
      returns (fun r => all_by_ref r) (stage_inline tar_items SecretsRoot spawnID d arts byRef)) as Hrest
      by (intros b; apply IH; intros a Hin; apply Ha; by right).
    assert (forall A (p : stager A), returns (fun r => all_by_ref r)
      (p ≫= fun r => match r with Err e => mret (Err e)
                     | Ok _ => stage_inline tar_items SecretsRoot spawnID d arts byRef end)) as Hseq.
    { intros A p. apply (returns_bind (fun _ => True)); [apply returns_any|]. intros [e|a] _; [done|by apply Hrest]. }
    destruct (Sensitive art) eqn:Hs; [case_match; [by apply Hrest|apply Hseq]|].
    destruct (String.eqb_spec (PresignedURL art) "") as [|Hp]; cbn [negb]; [apply Hseq|].
    apply Hrest, Forall_app. split; [done|]. apply Forall_singleton.
    destruct (Ha art ltac:(by left)). by split_and!.
Qed.
Lemma materialize_inline_returns :
  Forall named artifacts ->
  returns (fun r => all_by_ref r) (materialize_inline tar_items Root AgentUID SecretsRoot spawnID artifacts).
Proof.
  intros Ha. unfold materialize_inline. apply (returns_bind (fun _ => True)); [apply returns_any|].
  assert (returns (fun r => all_by_ref r)
    (os (ask (Mkdir_all (DirFor Root spawnID) (octal 7 5 5)));!
     prepareReportDir AgentUID (DirFor Root spawnID);!
     stage_inline tar_items SecretsRoot spawnID (DirFor Root spawnID) artifacts [])) as Hrest.
  { apply (returns_bind (fun _ => True)); [apply returns_any|]. intros [e|_] _; [done|].
    apply (returns_bind (fun _ => True)); [apply returns_any|]. intros [e|_] _; [done|].
    apply stage_inline_returns; [|done]. intros art Hin. split; [|done]. by eapply Forall_forall in Ha. }
  by intros [[]|] _.
Qed.

(** Every state of the call asks only that, and has asked only that. *)
Abbreviation Materialize_ :=
  (call_step s3ErrorXML zstd sha256hex tar_items Root CacheDir maxTarBytes cacheMaxBytes can_represign spawnID).
Definition call_within (c : call) : Prop :=
  match c with
  | Serial p => within p /\ returns (fun r => all_by_ref r) p
  | Fetching p => Forall by_ref (waiting p) /\ Forall (fun w => within w.2) (running p)
  | Returned _ => True
  end.
Lemma call_step_within c l c' l' :
  Materialize_ (c, l) (c', l') -> call_within c -> Forall (event_asks confined) l ->
  call_within c' /\ Forall (event_asks confined) l'.
Proof.
  intros Hs Hc Hl. assert (forall q a, confined q -> Forall (event_asks confined) (l ++ [Answered q a])) as Hsnoc.
  { intros q a Hq. apply Forall_app. split; [done|]. by apply Forall_singleton. }
  inversion Hs; subst; cbn [call_within] in *.
  - destruct Hc as [[Hq Hk] Hr]. split; [split; [apply Hk|apply Hr]|by apply Hsnoc].
  - by split.
  - by split.
  - destruct Hc as [_ Hr]. split; [split; [by apply Hr|done]|done].
  - destruct Hc as [Hw Hrun]. split; [|done]. unfold dispatch in *. destruct (waiting p) as [|art w] eqn:E; [done|].
    case_decide; [|done]. simplify_eq. cbn. apply Forall_cons in Hw as [Ha Hw]. split; [done|].
    apply Forall_app. split; [done|]. apply Forall_singleton. cbn. rewrite DirFor_staging. by apply stageByRef_within.
  - destruct Hc as [Hw Hrun]. pose proof (Forall_lookup_1 _ _ _ _ Hrun H0) as Hq. cbn in Hq. destruct Hq as [Hq Hk].
    split; [|by apply Hsnoc]. split; [done|]. cbn. apply Forall_insert; [done|]. apply Hk.
  - destruct Hc as [Hw Hrun]. split; [|done]. unfold settle in *. repeat case_match; simplify_eq;
      (split; [done|]; by apply Forall_delete).
  - split; [done|]. apply Forall_app. split; [done|]. apply Forall_forall. intros e (q & _ & He)%list_elem_of_omap.
    destruct q; simplify_eq. done.
  - split; [done|]. by apply Hsnoc.
  - by split.
Qed.
Lemma call_stays_within c l :
  Forall named artifacts ->
  Materialize s3ErrorXML zstd sha256hex tar_items Root CacheDir maxTarBytes cacheMaxBytes AgentUID can_represign
    SecretsRoot spawnID artifacts (c, l) ->
  Forall (event_asks confined) l.
Proof.
  intros Ha Hr. unfold Materialize in Hr.
  enough (forall s s', rtc Materialize_ s s' -> call_within s.1 -> Forall (event_asks confined) s.2 ->
    Forall (event_asks confined) s'.2) as Hgen.
  { apply (Hgen _ _ Hr); [|done]. split; [apply materialize_inline_within|by apply materialize_inline_returns]. }
  clear Hr. intros s s' Hr. induction Hr as [|[c0 l0] [c1 l1] s2 Hs _ IH]; intros Hc Hl; [done|].
  destruct (call_step_within _ _ _ _ Hs Hc Hl). by apply IH.
Qed.
End Reach.
