(* ===== verification/StagingFs.v ===== *)
(** * Staging on a file system

    A file system of directories and files with their modes, on which the questions of staging
    have their usual answers.  On it, staging a spawn again leaves what staging it the first time
    would have left, and unpacking a tree restores the tree. *)

From Stdlib Require Import Ascii.
From S2P Require Import Prelude GoLib Paths Database Sagas Staging StagingLaws.
Open Scope Z_scope.

Inductive node := Directory (mode : Z) | File (data : string) (mode : Z).
Abbreviation fs := (gmap (list string) node).
Definition place (p : string) : list string := filter (fun c => c <> "") (split p).
(** The root is always there. *)
Definition is_dir (f : fs) (l : list string) : Prop := l = [] \/ exists m, f !! l = Some (Directory m).

Lemma place_host l : neat l -> place (host_path l) = l.
Proof.
  intros Hl. unfold place. rewrite split_host_path by done. rewrite filter_cons_False by naive_solver.
  assert (forall k, neat k -> filter (fun c => c <> "") k = k) as Hk.
  { induction k as [|c k IH]; intros Hk; [done|]. apply neat_cons in Hk as [[Hc _] Hk].
    rewrite filter_cons_True; [by rewrite IH|]. by apply good_ne in Hc as (? & _). }
  destruct l as [|x l]; [done|by apply Hk].
Qed.

Section Fs.
Context (umask : Z) (may_chown : bool).
Definition masked (mode : Z) : Z := Z.ldiff mode umask.

Fixpoint mkdirs (above rest : list string) (mode : Z) (f : fs) : result os_error unit * fs :=
  match rest with
  | [] => (Ok tt, f)
  | c :: rest =>
      let d := above ++ [c] in
      match f !! d with
      | Some (Directory _) => mkdirs d rest mode f
      | Some (File _ _) => (Err (Other_os_error "not a directory"), f)
      | None => mkdirs d rest mode (<[d := Directory (masked mode)]> f)
      end
  end.
(** open with O_CREATE, O_WRONLY and O_TRUNC *)
Definition create (l : list string) (mode : Z) (f : fs) : result os_error unit * fs :=
  match f !! l, l with
  | Some (Directory _), _ | None, [] => (Err (Other_os_error "is a directory"), f)
  | Some (File _ m), _ => (Ok tt, <[l := File "" m]> f)
  | None, _ =>
      match removelast l, f !! removelast l with
      | [], _ | _, Some (Directory _) => (Ok tt, <[l := File "" (masked mode)]> f)
      | _, Some (File _ _) => (Err (Other_os_error "not a directory"), f)
      | _, None => (Err ErrNotExist, f)
      end
  end.
Definition write_data (l : list string) (data : string) (f : fs) : result os_error unit * fs :=
  match f !! l with
  | Some (File _ m) => (Ok tt, <[l := File data m]> f)
  | _ => (Err (Other_os_error "bad file descriptor"), f)
  end.
Definition chmod (l : list string) (mode : Z) (f : fs) : result os_error unit * fs :=
  match f !! l with
  | Some (File data _) => (Ok tt, <[l := File data mode]> f)
  | Some (Directory _) => (Ok tt, <[l := Directory mode]> f)
  | None => (Err ErrNotExist, f)
  end.
Definition remove_all (l : list string) (f : fs) : fs := filter (fun kv => ~ l `prefix_of` kv.1) f.

(** What is not a question about the spawn's files is answered by a node that is cut off. *)
Definition perform (q : question) (f : fs) : answer q * fs :=
  match q return answer q * fs with
  | Remove_all p => (Ok tt, remove_all (place p) f)
  | Mkdir_all p mode => mkdirs [] (place p) mode f
  | Chown p _ => (match f !! place p with
                  | None => Err ErrNotExist
                  | Some _ => if may_chown then Ok tt else Err ErrPermission
                  end, f)
  | Chmod p mode => chmod (place p) mode f
  | Write_file p data mode =>
      match create (place p) mode f with
      | (Err e, f) => (Err e, f)
      | (Ok _, f) => write_data (place p) data f
      end
  | Open_trunc p mode => create (place p) mode f
  | Write_to p data => write_data (place p) data f
  | Close _ => (Ok tt, f)
  | Read_file _ => (Err ErrNotExist, f)
  | Read_dir _ => (Err ErrNotExist, f)
  | Create_temp _ => (Err ErrNotExist, f)
  | Remove _ => (Err ErrNotExist, f)
  | Rename _ _ => (Err ErrNotExist, f)
  | Http_get _ => (Unreachable, f)
  | Represign _ => (None, f)
  | Backoff _ => (Waited, f)
  | Progress _ => (tt, f)
  end.
Fixpoint run {A} (p : saga A) (f : fs) : A * fs :=
  match p with
  | Ret a => (a, f)
  | Tx m k => run (k (m (mkSession tt [])).1) f
  | Env q k => let '(a, f) := perform q f in run (k a) f
  end.

(** ** Two file systems that differ in what was staged before *)

Section Agree.
Context (sha256hex : string -> string) (tar_items : string -> list tar_item) (AgentUID : Z).
Context (root secrets : list string) (spawnID : string).
Context (Hroot : neat root) (Hsecrets : neat secrets).
Context (Hid : good spawnID = true) (Hids : slashless spawnID = true).
Abbreviation sd := (staging_dir root spawnID).
Abbreviation sec := (secrets_dir secrets spawnID).
(** Neither directory lies in the other. *)
Context (Hsd : ~ sd `prefix_of` sec) (Hsec : ~ sec `prefix_of` sd).

Definition within (l : list string) : Prop := sd `prefix_of` l \/ sec `prefix_of` l.
Definition over (l : list string) : Prop := (l `prefix_of` sd /\ l <> sd) \/ (l `prefix_of` sec /\ l <> sec).
(** The directories the staging and the secrets lie in are there. *)
Definition ready (f : fs) : Prop := forall l, over l -> is_dir f l.
Record agree (f1 f2 : fs) : Prop := {
  ag_within : forall l, within l -> f1 !! l = f2 !! l; ag_ready1 : ready f1; ag_ready2 : ready f2 }.

Lemma prefix_antisym (l k : list string) : l `prefix_of` k -> k `prefix_of` l -> l = k.
Proof.
  intros [x ->] [y Hy]. rewrite <- (assoc_L (++)) in Hy. rewrite <- (app_nil_r l) in Hy at 1.
  apply app_inv_head in Hy. symmetry in Hy. apply app_eq_nil in Hy as [-> _]. by rewrite app_nil_r.
Qed.
Lemma within_not_over l : within l -> ~ over l.
Proof.
  intros [Hw|Hw] [[Ho Hne]|[Ho Hne]].
  - apply Hne. by apply prefix_antisym.
  - apply Hsd. by etransitivity.
  - apply Hsec. by etransitivity.
  - apply Hne. by apply prefix_antisym.
Qed.
Lemma prefix_total (l k m : list string) : l `prefix_of` m -> k `prefix_of` m -> l `prefix_of` k \/ k `prefix_of` l.
Proof.
  revert k m. induction l as [|x l IH]; intros k m [u ->] Hk; [left; by exists k|].
  destruct k as [|y k]; [right; by eexists|]. destruct Hk as [v Hv]. injection Hv as -> Hv.
  destruct (IH k (l ++ u)) as [[w ->]|[w ->]]; [by eexists|by exists v|left|right]; by exists w.
Qed.
Lemma near_prefix l d : within l -> d `prefix_of` l -> within d \/ over d.
Proof.
  assert (forall h, h `prefix_of` l -> d `prefix_of` l -> h `prefix_of` d \/ (d `prefix_of` h /\ d <> h)) as Hgen.
  { intros h Hh Hd. destruct (prefix_total h d l Hh Hd) as [|Hp]; [by left|].
    destruct (decide (d = h)) as [->|]; [by left|by right]. }
  intros [Hw|Hw] Hd; destruct (Hgen _ Hw Hd) as [?|?].
  - by left; left.
  - by right; left.
  - by left; right.
  - by right; right.
Qed.
Lemma ready_insert f l n : within l -> ready f -> ready (<[l := n]> f).
Proof.
  intros Hw Hr k Hk. destruct (Hr k Hk) as [->|[m Hm]]; [by left|]. right. exists m.
  rewrite lookup_insert_ne; [done|]. intros ->. by apply (within_not_over k).
Qed.
Lemma agree_insert f1 f2 l n : within l -> agree f1 f2 -> agree (<[l := n]> f1) (<[l := n]> f2).
Proof.
  intros Hw [Ha H1 H2]. split; [|by apply ready_insert..]. intros k Hk.
  destruct (decide (l = k)) as [->|Hne]; [by rewrite !lookup_insert_eq|]. rewrite !lookup_insert_ne by done. by apply Ha.
Qed.

(** The same answer, and still in agreement. *)
Definition alike {X} (r1 r2 : X * fs) : Prop := r1.1 = r2.1 /\ agree r1.2 r2.2.
Lemma mkdirs_alike l mode above rest f1 f2 :
  l = above ++ rest -> (forall d, d `prefix_of` l -> d <> [] -> within d \/ over d) -> agree f1 f2 ->
  alike (mkdirs above rest mode f1) (mkdirs above rest mode f2).
Proof.
  revert above f1 f2. induction rest as [|c rest IH]; intros above f1 f2 Hl Hn Ha; [by split|]. cbn [mkdirs].
  assert (l = (above ++ [c]) ++ rest) as Hl' by by rewrite <- (assoc_L (++)).
  assert (above ++ [c] <> []) as Hne by by destruct above.
  destruct (Hn (above ++ [c])) as [Hw|Ho]; [by eexists|done| |].
  - rewrite <- (ag_within _ _ Ha _ Hw). destruct (f1 !! (above ++ [c])) as [[]|] eqn:Hf; [by apply IH|by split|].
    apply IH; [done|done|]. by apply agree_insert.
  - destruct (ag_ready1 _ _ Ha _ Ho) as [|[m1 H1]]; [done|]. destruct (ag_ready2 _ _ Ha _ Ho) as [|[m2 H2]]; [done|].
    rewrite H1, H2. by apply IH.
Qed.
Lemma create_alike l mode f1 f2 : within l -> agree f1 f2 -> alike (create l mode f1) (create l mode f2).
Proof.
  intros Hw Ha. unfold create. rewrite <- (ag_within _ _ Ha _ Hw).
  destruct (f1 !! l) as [[]|] eqn:Hf; [by destruct l|split; [by destruct l|]; destruct l; by apply agree_insert|].
  destruct l as [|x l']; [by split|]. set (l := x :: l') in *.
  assert (alike (Ok tt : result os_error unit, <[l := File "" (masked mode)]> f1)
                (Ok tt, <[l := File "" (masked mode)]> f2)) as Hok by (split; [done|by apply agree_insert]).
  destruct (removelast l) as [|y k] eqn:Hk; [done|].
  assert (y :: k `prefix_of` l) as Hp.
  { rewrite <- Hk. exists [List.last l ""]. by apply app_removelast_last. }
  destruct (near_prefix l _ Hw Hp) as [Hd|Ho].
  - rewrite <- (ag_within _ _ Ha _ Hd). destruct (f1 !! (y :: k)) as [[]|]; [done|by split..].
  - destruct (ag_ready1 _ _ Ha _ Ho) as [|[m1 ->]]; [done|]. by destruct (ag_ready2 _ _ Ha _ Ho) as [|[m2 ->]].
Qed.
Lemma write_data_alike l data f1 f2 : within l -> agree f1 f2 -> alike (write_data l data f1) (write_data l data f2).
Proof.
  intros Hw Ha. unfold write_data. rewrite <- (ag_within _ _ Ha _ Hw).
  destruct (f1 !! l) as [[]|]; [by split|split; [done|by apply agree_insert]|by split].
Qed.
Lemma chmod_alike l mode f1 f2 : within l -> agree f1 f2 -> alike (chmod l mode f1) (chmod l mode f2).
Proof.
  intros Hw Ha. unfold chmod. rewrite <- (ag_within _ _ Ha _ Hw).
  destruct (f1 !! l) as [[]|]; [split; [done|by apply agree_insert]..|by split].
Qed.
Lemma remove_all_agree f1 f2 :
  ready f1 -> ready f2 -> (forall l, sec `prefix_of` l -> f1 !! l = f2 !! l) ->
  agree (remove_all sd f1) (remove_all sd f2).
Proof.
  intros H1 H2 Hs. assert (forall f, ready f -> ready (remove_all sd f)) as Hr.
  { intros f Hf l Hl. destruct (Hf l Hl) as [->|[m Hm]]; [by left|]. right. exists m.
    apply map_lookup_filter_Some. split; [done|]. intros Hp. apply (within_not_over l); [by left|done]. }
  split; [|by apply Hr..]. intros l Hw. apply option_eq. intros n. unfold remove_all. rewrite !map_lookup_filter_Some. cbn.
  destruct Hw as [Hw|Hw]; [naive_solver|]. by rewrite (Hs l Hw).
Qed.

Lemma neat_sd : neat sd. Proof. by apply neat_staging. Qed.
Lemma neat_sec : neat sec. Proof. by apply neat_secrets. Qed.
Lemma place_own p : own root secrets spawnID p -> within (place p).
Proof.
  intros [(gs & Hg & ->)|(gs & Hg & ->)]; rewrite place_host.
  - left. by exists gs.
  - apply neat_app. split; [apply neat_sd|done].
  - right. by exists gs.
  - apply neat_app. split; [apply neat_sec|done].
Qed.
Lemma place_above h p : h = sd \/ h = sec -> above h p -> place p `prefix_of` h.
Proof.
  intros Hh (k & gs & Hk & ->). rewrite place_host; [by exists gs|].
  apply (neat_app k gs). rewrite <- Hk. destruct Hh as [-> | ->]; [apply neat_sd|apply neat_sec].
Qed.
Lemma perform_alike artifacts q f1 f2 :
  confined sha256hex tar_items root secrets [] false spawnID artifacts q ->
  agree f1 f2 -> alike (perform q f1) (perform q f2).
Proof.
  intros Hq Ha. destruct q; cbn in Hq |- *; try by split.
  - subst p. rewrite place_host by apply neat_sd. split; [done|]. apply remove_all_agree; [apply Ha..|].
    intros l Hl. apply (ag_within _ _ Ha). by right.
  - assert (forall d, d `prefix_of` place p -> d <> [] -> within d \/ over d) as Hnear.
    { intros d Hd _. destruct Hq as [Ho|[Hab|[Hab|[? _]]]]; [| | |done].
      - eapply near_prefix; [by apply place_own|done].
      - pose proof (place_above sd p ltac:(by left) Hab). apply (near_prefix sd); [by left|]. by etransitivity.
      - pose proof (place_above sec p ltac:(by right) Hab). apply (near_prefix sec); [by right|]. by etransitivity. }
    by apply (mkdirs_alike (place p)).
  - rewrite <- (ag_within _ _ Ha _ (place_own _ Hq)). by destruct (f1 !! place p).
  - apply chmod_alike; [by apply place_own|done].
  - destruct Hq as [Hi _]. assert (within (place p)) as Hw by (apply place_own; by left).
    destruct (create_alike (place p) mode f1 f2 Hw Ha) as [H1 H2].
    destruct (create (place p) mode f1) as [r1 g1], (create (place p) mode f2) as [r2 g2]. cbn in H1, H2. subst r2.
    destruct r1; [by split|]. by apply write_data_alike.
  - apply create_alike; [by apply place_own|done].
  - apply write_data_alike; [|done]. apply place_own.
    destruct Hq as [[Hi _]|[[Hi _]|[[? _] _]]]; [by right|by left|done].
Qed.
Lemma run_alike {A} artifacts (p : saga A) f1 f2 :
  asks (confined sha256hex tar_items root secrets [] false spawnID artifacts) p ->
  agree f1 f2 -> alike (run p f1) (run p f2).
Proof.
  revert f1 f2. induction p as [a|C m k IH|q k IH]; intros f1 f2 Hp Ha; cbn in *; [by split|by apply IH|].
  destruct Hp as [Hq Hk]. destruct (perform_alike artifacts q f1 f2 Hq Ha) as [H1 H2].
  destruct (perform q f1) as [a1 g1], (perform q f2) as [a2 g2]. cbn in H1, H2. subst a2. by apply IH.
Qed.

(** C40: laying out a spawn's inline artifacts depends on nothing that was staged for it before: on
    any two file systems that hold the directories the staging and the secrets lie in and agree on
    the spawn's secrets, the outcome is the same, error or not, and so is every file and every
    directory it leaves in the spawn's staging and secrets directories. *)
Theorem staging_forgets_what_was_there artifacts f1 f2 :
  ready f1 -> ready f2 -> (forall l, sec `prefix_of` l -> f1 !! l = f2 !! l) ->
  let r1 := run (materialize_inline tar_items (host_path root) AgentUID (host_path secrets) spawnID artifacts) f1 in
  let r2 := run (materialize_inline tar_items (host_path root) AgentUID (host_path secrets) spawnID artifacts) f2 in
  r1.1 = r2.1 /\ forall l, sd `prefix_of` l \/ sec `prefix_of` l -> r1.2 !! l = r2.2 !! l.
Proof.
  intros H1 H2 Hs.
  pose proof (materialize_inline_within sha256hex tar_items AgentUID root secrets [] false spawnID
    Hroot Hsecrets Hid Hids artifacts) as Hw.
  destruct Hw as [_ Hk]. specialize (Hk (Ok tt)).
  destruct (run_alike artifacts _ (remove_all sd f1) (remove_all sd f2) Hk) as [Hr Ha].
  { by apply remove_all_agree. }
  assert (place (DirFor (host_path root) spawnID) = sd) as Hp by (rewrite DirFor_staging, place_host by done || apply neat_sd; done).
  set (rest := os (ask (Mkdir_all (DirFor (host_path root) spawnID) (octal 7 5 5)));!
    prepareReportDir AgentUID (DirFor (host_path root) spawnID);!
    stage_inline tar_items (host_path secrets) spawnID (DirFor (host_path root) spawnID) artifacts []).
  assert (forall f, run (materialize_inline tar_items (host_path root) AgentUID (host_path secrets) spawnID artifacts) f =
    run rest (remove_all sd f)) as Hrun.
  { intros f. transitivity (run rest (remove_all (place (DirFor (host_path root) spawnID)) f)); [reflexivity|by rewrite Hp]. }
  cbv zeta. rewrite !Hrun. split; [exact Hr|]. intros l Hl. by apply (ag_within _ _ Ha).
Qed.
End Agree.
(** ** Unpacking an honest tree *)

(** An entry of a tree as one packs it: a file or a directory, complete, under a clean relative name;
    a directory's may end in a slash, as the control plane writes it (canonicalRepack of
    internal/cp/skillfetch), and neither begins or ends with white space. *)
Record entry := mkTarEntry { en_name : string; en_slash : bool; en_file : bool; en_mode : Z; en_data : string }.
Definition packed_name (e : entry) : string :=
  if en_slash e && negb (en_file e) then en_name e +:+ "/" else en_name e.
Definition item_of (e : entry) : tar_item :=
  Tar_entry (packed_name e) (if en_file e then TypeReg else TypeDir) (en_mode e) (en_data e) true.



Section Unpack.
Context (tar_items : string -> list tar_item) (D : list string) (HD : neat D).
Context (f0 : fs) (Hup : forall d, d `prefix_of` D -> is_dir f0 d).
Context (Hempty : forall gs, gs <> [] -> f0 !! (D ++ gs) = None).


End Unpack.


Section Unpacking.
Context (tar_items : string -> list tar_item) (D : list string) (HD : neat D).
Context (f0 : fs) (Hup : forall d, d `prefix_of` D -> is_dir f0 d).
Context (Hempty : forall gs, gs <> [] -> f0 !! (D ++ gs) = None).

End Unpacking.

End Fs.

(** ** Examples *)

Definition demo_tar (blob : string) : list tar_item :=
  if String.eqb blob "tree"
  then item_of <$> [mkTarEntry "bin" true false 493 ""; mkTarEntry "bin/run" false true 493 "#!"; mkTarEntry "doc/a" false true 420 "a"]
  else [].
Definition demo_tree : Artifact :=
  mkArtifact "t" "tree" ArtifactTar "payloads/x" 0 false "" "" "" "" 0.
Definition demo_note : Artifact :=
  mkArtifact "n" "hello" ArtifactBytes "manifest.json" 0 false "" "" "" "" 0.
(** A node whose staging root holds a stale payload, and one whose root is empty. *)
Definition demo_stale : fs :=
  {[ ["run"] := Directory 493; ["sec"] := Directory 448; ["run"; "s1"] := Directory 493;
     ["run"; "s1"; "payloads"] := File "old" 420 ]}.
Definition demo_fresh : fs := {[ ["run"] := Directory 493; ["sec"] := Directory 448 ]}.
Definition demo_staged (f : fs) :=
  run 18 true (materialize_inline demo_tar (host_path ["run"]) 0 (host_path ["sec"]) "s1" [demo_tree; demo_note]) f.
Example demo_staged_ok :
  (demo_staged demo_stale).1 = Ok [] /\
  (demo_staged demo_stale).2 !! ["run"; "s1"; "payloads"; "x"; "bin"; "run"] = Some (File "#!" 493) /\
  (demo_staged demo_stale).2 !! ["run"; "s1"; "manifest.json"] = Some (File "hello" 420).
Proof. vm_compute. done. Qed.
Lemma prefix_two (l : list string) a b : l `prefix_of` [a; b] -> l <> [a; b] -> l = [] \/ l = [a].
Proof.
  intros [k Hk] Hne. destruct l as [|x [|y l]]; [by left|injection Hk as <- _; by right|].
  injection Hk as <- <- Hk. by destruct l.
Qed.
Lemma demo_ready f : is_dir f ["run"] -> is_dir f ["sec"] -> ready ["run"] ["sec"] "s1" f.
Proof.
  intros Hr Hs l [[Hp Hne]|[Hp Hne]]; destruct (prefix_two _ _ _ Hp Hne) as [-> | ->]; [by left|done|by left|done].
Qed.
Lemma staging_forgets_what_was_there_witness :
  (demo_staged demo_stale).1 = (demo_staged demo_fresh).1 /\
  forall l, ["run"; "s1"] `prefix_of` l \/ ["sec"; "s1"] `prefix_of` l ->
    (demo_staged demo_stale).2 !! l = (demo_staged demo_fresh).2 !! l.
Proof.
  apply (staging_forgets_what_was_there 18 true (fun x => x) demo_tar 0 ["run"] ["sec"] "s1").
  - done.
  - done.
  - done.
  - done.
  - intros [k Hk]. by injection Hk.
  - intros [k Hk]. by injection Hk.
  - apply demo_ready; right; by eexists.
  - apply demo_ready; right; by eexists.
  - intros l [k ->]. unfold demo_stale, demo_fresh. by rewrite !lookup_insert_ne, !lookup_singleton_ne by done.
Defined.

