(* ===== verification/StagingContract.v ===== *)
(** * Staging: confined, accounted for, bounded *)

From Stdlib Require Import Ascii.
From S2P Require Import Prelude GoLib Paths Database Sagas Staging StagingLaws StagingFs.
Open Scope Z_scope.

(** The paths a question names. *)
Definition paths (q : question) : list string :=
  match q with
  | Remove_all p | Mkdir_all p _ | Chown p _ | Chmod p _ | Write_file p _ _ | Open_trunc p _ | Write_to p _
  | Close p | Read_file p | Read_dir p | Create_temp p | Remove p => [p]
  | Rename p q => [p; q]
  | _ => []
  end.
Definition writes (q : question) (p data : string) : Prop := q = Write_to p data \/ exists mode, q = Write_file p data mode.

Section Contract.
Context (s3ErrorXML : string -> string * string) (zstd : string -> option stream).
Context (sha256hex : string -> string) (tar_items : string -> list tar_item).
Context (maxTarBytes cacheMaxBytes AgentUID : Z) (can_represign : bool).

(** A call on a node whose directories are absolute and clean, for a spawn that is a name. *)
Record placed (root secrets cache : list string) (spawnID : string) : Prop := {
  pl_root : neat root; pl_secrets : neat secrets; pl_cache : neat cache; pl_cache_ne : cache <> [];
  pl_good : good spawnID = true; pl_slashless : slashless spawnID = true }.
Abbreviation Materialize root secrets cache cached :=
  (Staging.Materialize s3ErrorXML zstd sha256hex tar_items (host_path root)
    (if cached then host_path cache else "") maxTarBytes cacheMaxBytes AgentUID can_represign (host_path secrets)).

(** C37: whatever the control plane orders and the trees it sends contain (names that climb, start
    at the root or carry white space), whatever the operating system and the store answer and
    however the fetches interleave, every path staging names lies in the spawn's staging
    directory, in its secrets directory or in the cache; other directories are at most made sure
    to exist on the way there.  The three directories are taken as absolute, the spawn id as a plain
    file name, and the digests of the artifacts must contain no slash. *)
Theorem staging_stays_in_its_directories root secrets cache (cached : bool) spawnID artifacts c (l : trace) q (a : answer q) p :
  placed root secrets cache spawnID -> Forall named artifacts ->
  Materialize root secrets cache cached spawnID artifacts (c, l) -> Answered q a ∈ l -> p ∈ paths q ->
  inside (root ++ [spawnID]) p \/ inside (secrets ++ [spawnID]) p \/ (cached = true /\ inside cache p) \/
  (exists mode, q = Mkdir_all p mode /\ (above (root ++ [spawnID]) p \/ above (secrets ++ [spawnID]) p)).
Proof.
  intros [Hr Hs Hc Hne Hg Hsl] Hn Hm Hin Hp.
  eapply call_stays_within in Hm; [|done..]. eapply Forall_forall in Hm; [|exact Hin]. cbn in Hm.
  assert (forall x, cache_file cache cached x -> cached = true /\ inside cache x) as Hf
    by (intros x [? ?]; split; [done|by apply child_inside]).
  assert (forall x, cache_dir cache cached x -> cached = true /\ inside cache x) as Hd
    by (intros x [? ->]; split; [done|apply inside_self]).
  unfold own, staging_dir, secrets_dir in *.
  destruct q; cbn in Hp, Hm; repeat (apply elem_of_cons in Hp as [->|Hp]); try (by apply elem_of_nil in Hp);
    repeat match goal with
           | H : _ \/ _ |- _ => destruct H
           | H : own _ _ _ _ |- _ => destruct H
           | H : cache_dir _ _ _ |- _ => apply Hd in H
           | H : cache_file _ _ _ |- _ => apply Hf in H
           | H : _ /\ _ |- _ => destruct H
           end; subst;
    first [ by left | by right; left | by right; right; left | by left; apply inside_self
          | by right; right; right; eexists; split; [done|auto] ].
Qed.

(** C36: every byte staging writes is accounted for by an artifact of the call: what lands in the
    secrets directory is the value of a sensitive one; what lands in the staging directory, which
    the agent reads, is the value of one that is not, or a file of a tree that is its value or has
    its digest; and what lands in the cache has the digest of one.  Neither the store nor what the
    cache held before can change that, with one exception: the tree of an artifact fetched by
    reference whose digest is empty is not checked, so it is whatever the store sent. *)
Theorem staged_bytes_are_the_artifacts root secrets cache (cached : bool) spawnID artifacts c (l : trace) q (a : answer q) p data :
  placed root secrets cache spawnID -> Forall named artifacts ->
  Materialize root secrets cache cached spawnID artifacts (c, l) -> Answered q a ∈ l -> writes q p data ->
  (inside (secrets ++ [spawnID]) p /\ exists art, art ∈ artifacts /\ Sensitive art = true /\ data = Inline art) \/
  (inside (root ++ [spawnID]) p /\ exists art, art ∈ artifacts /\ Sensitive art = false /\
    (PresignedURL art = "" /\ data = Inline art \/
     exists blob, carries sha256hex art blob /\ file_of tar_items blob data)) \/
  (cached = true /\ inside cache p /\ exists art, art ∈ artifacts /\ Sensitive art = false /\ sha256hex data = Sha256 art).
Proof.
  intros [Hr Hs Hc Hne Hg Hsl] Hn Hm Hin Hw.
  eapply call_stays_within in Hm; [|done..]. eapply Forall_forall in Hm; [|exact Hin]. cbn in Hm.
  destruct Hw as [->|[mode ->]]; cbn in Hm; unfold staging_dir, secrets_dir in Hm.
  - destruct Hm as [Hm|[(Hi & art & blob & Hin' & Hsn & Hcar & Hfile)|([Hct Hch] & Hart)]]; [by left| |].
    + right. left. split; [done|]. exists art. split_and!; [done..|]. right. by exists blob.
    + right. right. split_and!; [done|by apply child_inside|done].
  - destruct Hm as (Hi & art & Hin' & Hsn & Hp & ->). right. left. split; [done|]. exists art. by split_and!; [..|left].
Qed.

(** ** How often the store is asked *)

Definition is_get (q : question) : bool := match q with Http_get _ => true | _ => false end.
Definition is_represign (q : question) : bool := match q with Represign _ => true | _ => false end.
Definition asked (phi : question -> bool) (l : trace) : nat :=
  length (omap (fun e => match e with Answered q _ => if phi q then Some tt else None | Did _ _ _ => None end) l).
Fixpoint at_most {A} (phi : question -> bool) (n : nat) (p : saga A) : Prop :=
  match p with
  | Ret _ => True
  | Tx _ k => forall r, at_most phi n (k r)
  | Env q k => if phi q then match n with O => False | S n => forall a, at_most phi n (k a) end
               else forall a, at_most phi n (k a)
  end.
Lemma at_most_mono {A} phi m n (p : saga A) : (m <= n)%nat -> at_most phi m p -> at_most phi n p.
Proof.
  revert m n. induction p as [a|C q k IH|q k IH]; intros m n Hle Hp; cbn in *; [done|eauto|].
  destruct (phi q); [|eauto]. destruct m as [|m]; [done|]. destruct n as [|n]; [lia|]. intros a. eapply IH; [|done]. lia.
Qed.
Lemma at_most_bind {A B} phi m n (p : saga A) (f : A -> saga B) :
  at_most phi m p -> (forall a, at_most phi n (f a)) -> at_most phi (m + n) (p ≫= f).
Proof.
  intros Hp Hf. revert m Hp. induction p as [a|C q k IH|q k IH]; intros m Hp; cbn in *; [|auto|].
  - eapply at_most_mono; [|apply Hf]. lia.
  - destruct (phi q); [|auto]. destruct m as [|m]; [done|]. intros a. by apply IH.
Qed.
Lemma asked_snoc phi l q a : asked phi (l ++ [Answered q a]) = (asked phi l + if phi q then 1 else 0)%nat.
Proof. unfold asked. rewrite omap_app, length_app. cbn. by destruct (phi q). Qed.
Lemma at_most_runs {A} phi n (p : saga A) c :
  at_most phi n p -> runs (fun _ : Empty_set => false) (fun _ _ => True) (p, tt, []) c -> (asked phi c.2 <= n)%nat.
Proof.
  intros Hp Hr.
  enough (forall c0 c1 : config A, runs (fun _ : Empty_set => false) (fun _ _ => True) c0 c1 -> forall m,
    at_most phi m c0.1.1 -> (asked phi c0.2 + m <= n)%nat -> (asked phi c1.2 <= n)%nat) as Hgen.
  { by eapply (Hgen _ _ Hr). }
  clear Hr. intros c0 c1 Hr. induction Hr as [c0|c0 c1 c2 Hs _ IH]; intros m Hm Hle; [lia|].
  destruct Hs as [B q k d l r d' Ho|q k d l a|p' d l d' _]; cbn -[asked] in *.
  - destruct Ho as (fs & fs' & Ho). apply (IH m); [auto|]. unfold asked. cbn. rewrite omap_app, app_nil_r. done.
  - destruct (phi q) eqn:Hq; [destruct m as [|m]; [done|]|].
    + apply (IH m); [auto|]. cbn -[asked]. rewrite asked_snoc, Hq. lia.
    + apply (IH m); [auto|]. cbn -[asked]. rewrite asked_snoc, Hq. lia.
  - by apply (IH m).
Qed.

Abbreviation fetching := (fetchWithRetry s3ErrorXML zstd sha256hex maxTarBytes can_represign).
Abbreviation turn := (fetch_turn s3ErrorXML zstd sha256hex maxTarBytes can_represign).
Lemma turn_gets n art retry again :
  at_most is_get n retry -> (forall f art, again = Some f -> at_most is_get n (f art)) ->
  at_most is_get (S n) (turn art retry again).
Proof.
  intros Hr Ha. unfold fetch_turn. apply (at_most_bind is_get 1 n); [done|]. intros [fe|plain]; [|done].
  destruct (Expired fe); [|by destruct (Terminal fe)]. destruct again as [f|]; [|done]. case_match; [done|].
  apply (at_most_bind is_get 0 n); [done|]. intros [[u|]|]; [|done..]. case_match; [done|]. by apply Ha.
Qed.
Lemma turn_represigns n art retry again :
  at_most is_represign n retry ->
  (forall f art, again = Some f -> exists m, n = S m /\ at_most is_represign m (f art)) ->
  at_most is_represign n (turn art retry again).
Proof.
  intros Hr Ha. unfold fetch_turn. apply (at_most_bind is_represign 0 n); [done|]. intros [fe|plain]; [|done].
  destruct (Expired fe); [|by destruct (Terminal fe)]. destruct again as [f|]; [|done]. case_match; [done|].
  destruct (Ha f art eq_refl) as (m & -> & _). apply (at_most_bind is_represign 1 m); [done|].
  intros [[u|]|]; [|done..]. case_match; [done|].
  destruct (Ha f (art <| PresignedURL := u |>) eq_refl) as (m' & [= <-] & Hm). done.
Qed.
Lemma back_off_at_most phi n attempt next :
  phi (Backoff attempt) = false -> at_most phi n next -> at_most phi n (back_off attempt next).
Proof. intros Hq Hn. unfold back_off. cbn. rewrite Hq. by intros []. Qed.
Abbreviation represigned := (fetch_represigned s3ErrorXML zstd sha256hex maxTarBytes can_represign).
Lemma represigned_at_most more attempt art :
  at_most is_get (S more) (represigned more attempt art) /\ at_most is_represign 0 (represigned more attempt art).
Proof.
  revert attempt art. induction more as [|more IH]; intros attempt art; cbn [fetch_represigned].
  - split; [by apply turn_gets|by apply turn_represigns].
  - destruct (IH (S attempt) art). split; [apply turn_gets; [|done]|apply turn_represigns; [|done]]; by apply back_off_at_most.
Qed.
Lemma loop_at_most more attempt art :
  let p := fetch_loop s3ErrorXML zstd sha256hex maxTarBytes can_represign more attempt art in
  at_most is_get (S (S more)) p /\ at_most is_represign 1 p.
Proof.
  revert attempt art. induction more as [|more IH]; intros attempt art; cbn [fetch_loop]; cbv zeta.
  - split; [apply turn_gets; [done|]|apply turn_represigns; [done|]]; intros f a [= <-].
    + apply (represigned_at_most 0 attempt).
    + exists 0%nat. split; [done|]. apply (represigned_at_most 0 attempt).
  - destruct (IH (S attempt) art). split; [apply turn_gets|apply turn_represigns]; try by apply back_off_at_most.
    + intros f a [= <-]. apply (represigned_at_most (S more) attempt).
    + intros f a [= <-]. exists 0%nat. split; [done|]. apply (represigned_at_most (S more) attempt).
Qed.

(** What an answer of the store comes to; nothing follows one that settles the fetch. *)
Definition received (art : Artifact) (r : http_answer) : result FetchError string :=
  match http_result s3ErrorXML (capFor maxTarBytes art) r with
  | Err e => Err e | Ok raw => verified zstd sha256hex maxTarBytes art raw
  end.
Definition settles (art : Artifact) (r : http_answer) : bool :=
  match received art r with Ok _ => true | Err fe => Terminal fe && negb (Expired fe) end.
Fixpoint settled_at (art : Artifact) (p : saga (result FetchError string)) : Prop :=
  match p with
  | Ret _ => True
  | Tx _ k => forall r, settled_at art (k r)
  | Env q k =>
      match q return (answer q -> saga (result FetchError string)) -> Prop with
      | Http_get _ => fun k => forall r, (settles art r = true -> k r = Ret (received art r)) /\ settled_at art (k r)
      | _ => fun k => forall a, settled_at art (k a)
      end k
  end.
Definition same_object (art art' : Artifact) : Prop := exists url, art' = art <| PresignedURL := url |>.
Lemma turn_settles art art' retry again :
  same_object art art' -> settled_at art retry ->
  (forall f url, again = Some f -> settled_at art (f (art' <| PresignedURL := url |>))) ->
  settled_at art (turn art' retry again).
Proof.
  intros Hs Hr Ha. assert (forall r, received art' r = received art r) as He by (intros r; by destruct Hs as [url ->]).
  clear Hs. unfold fetch_turn, fetchObjectTar, defaultFetcher. cbn. intros r. fold (received art' r). rewrite He.
  unfold settles. destruct (received art r) as [fe|plain]; [|done].
  destruct (Expired fe); [split; [by destruct (Terminal fe)|]|].
  - destruct again as [f|]; [|done]. case_match; [done|]. cbn. intros [[u|]|]; [|done..]. case_match; [done|].
    by apply Ha.
  - split; by destruct (Terminal fe).
Qed.
Lemma back_off_settled art attempt next : settled_at art next -> settled_at art (back_off attempt next).
Proof. intros Hn. unfold back_off. cbn. by intros []. Qed.
Lemma represigned_settled more attempt art art' : same_object art art' -> settled_at art (represigned more attempt art').
Proof.
  revert attempt. induction more as [|more IH]; intros attempt Hs; cbn [fetch_represigned];
    (apply turn_settles; [done| |done]); [done|]. by apply back_off_settled, IH.
Qed.
Lemma same_object_url art art' url : same_object art art' -> same_object art (art' <| PresignedURL := url |>).
Proof. intros [u ->]. by exists url. Qed.
Lemma loop_settled more attempt art :
  settled_at art (fetch_loop s3ErrorXML zstd sha256hex maxTarBytes can_represign more attempt art).
Proof.
  assert (same_object art art) as Hs by (exists (PresignedURL art); by destruct art).
  revert attempt. induction more as [|more IH]; intros attempt; cbn [fetch_loop]; (apply turn_settles; [done| |]).
  - done.
  - intros f url [= <-]. apply (represigned_settled 0 attempt). by apply same_object_url.
  - by apply back_off_settled.
  - intros f url [= <-]. apply (represigned_settled (S more) attempt). by apply same_object_url.
Qed.
(** An answer that settles the fetch, and what it settles it to. *)
Definition settling (art : Artifact) (e : event) : option (result FetchError string) :=
  match e with
  | Answered q a =>
      match q return answer q -> option (result FetchError string) with
      | Http_get _ => fun r => if settles art r then Some (received art r) else None
      | _ => fun _ => None
      end a
  | Did _ _ _ => None
  end.
Lemma settled_runs art p c :
  settled_at art p -> runs (fun _ : Empty_set => false) (fun _ _ => True) (p, tt, []) c ->
  forall l1 e l2 r, c.2 = l1 ++ e :: l2 -> settling art e = Some r -> l2 = [] /\ c.1.1 = Ret r.
Proof.
  intros Hp Hr.
  set (good := fun c : config (result FetchError string) => settled_at art c.1.1 /\
    forall l1 e l2 r, c.2 = l1 ++ e :: l2 -> settling art e = Some r -> l2 = [] /\ c.1.1 = Ret r).
  enough (forall c0 c1, runs (fun _ : Empty_set => false) (fun _ _ => True) c0 c1 -> good c0 -> good c1) as Hgen.
  { apply (Hgen _ _ Hr). split; [done|]. intros [|? ?]; done. }
  clear Hr. intros c0 c1 Hr. induction Hr as [|c0 c1 c2 Hs _ IH]; [done|]. intros [Hc Hl]. apply IH.
  destruct Hs as [B q k d l r d' Ho|q k d l a|p' d l d' _]; cbn in Hc, Hl; [| |by split].
  - split; [apply Hc|]. intros l1 e l2 r' Heq He. cbn in Heq.
    destruct l2 as [|x l2 _] using rev_ind; [apply app_inj_tail in Heq as [_ <-]; done|].
    rewrite app_comm_cons, (assoc_L (++)) in Heq. apply app_inj_tail in Heq as [-> _].
    by destruct (Hl _ _ _ _ eq_refl He).
  - assert (settled_at art (k a) /\ forall r, settling art (Answered q a) = Some r -> k a = Ret r) as [Hk Ha].
    { destruct q; cbn in Hc |- *; try (split; [apply Hc|done]).
      destruct (Hc a) as [H1 H2]. split; [done|]. intros r Hr. destruct (settles art a); [|done].
      injection Hr as <-. by apply H1. }
    split; [done|]. intros l1 e l2 r Heq He. cbn in Heq.
    destruct l2 as [|x l2 _] using rev_ind; [apply app_inj_tail in Heq as [_ <-]; split; [done|by apply Ha]|].
    rewrite app_comm_cons, (assoc_L (++)) in Heq. apply app_inj_tail in Heq as [-> _].
    by destruct (Hl _ _ _ _ eq_refl He).
Qed.

(** C38: fetching one object asks the store at most four times (three attempts, and one more with
    the one new URL it may ask the control plane for), whatever is answered; the first answer that
    is the verified object or a failure that will not pass is the last, and decides the result. *)
Theorem fetch_is_bounded art p l :
  runs (fun _ : Empty_set => false) (fun _ _ => True) (fetching art, tt, []) (p, tt, l) ->
  (asked is_get l <= 4)%nat /\ (asked is_represign l <= 1)%nat /\
  forall l1 e l2 r, l = l1 ++ e :: l2 -> settling art e = Some r -> l2 = [] /\ p = Ret r.
Proof.
  intros Hr. destruct (loop_at_most 2 1 art) as [Hg Hp]. split_and!.
  - by apply (at_most_runs is_get 4 _ _ Hg Hr).
  - by apply (at_most_runs is_represign 1 _ _ Hp Hr).
  - by apply (settled_runs art _ _ (loop_settled 2 1 art) Hr).
Qed.
End Contract.

(** ** Examples *)

(** A node on which everything succeeds; the store answers with an error first. *)
Definition demo_answers (q : question) (l : trace) : answer q :=
  match q return answer q with
  | Read_file _ => Err ErrNotExist
  | Read_dir _ => Ok []
  | Create_temp _ => Ok 7
  | Http_get _ => if Nat.eqb (asked is_get l) 0 then Response 503 ("", false) else Response 200 ("tree", false)
  | Represign _ => None
  | Backoff _ => Waited
  | Progress _ => tt
  | _ => Ok tt
  end.
(** The first questions of the serial part, answered. *)
Fixpoint advance (n : nat) (p : stager (list Artifact)) (l : trace) : stager (list Artifact) * trace :=
  match n, p with
  | S n, Env q k => let a := demo_answers q l in advance n (k a) (l ++ [Answered q a])
  | _, _ => (p, l)
  end.
Lemma advance_steps s3 zstd sha tar root cache maxTar cacheMax rep spawnID n p l :
  rtc (call_step s3 zstd sha tar root cache maxTar cacheMax rep spawnID) (Serial p, l)
    (Serial (advance n p l).1, (advance n p l).2).
Proof.
  revert p l. induction n as [|n IH]; intros p l; [apply rtc_refl|]. destruct p as [r|C m k|q k]; [apply rtc_refl..|].
  cbn. eapply rtc_l; [apply step_serial|apply IH].
Qed.
Definition demo_token : Artifact := mkArtifact "k" "s3cret" ArtifactBytes "" 0 true "TOKEN" "" "" "" 0.
Definition demo_call := advance 40
  (materialize_inline demo_tar (host_path ["run"]) 0 (host_path ["sec"]) "s1" [demo_tree; demo_token]) [].
Lemma demo_placed : placed ["run"] ["sec"] ["var"; "cache"] "s1".
Proof. by split. Qed.
Lemma demo_run :
  Materialize (fun _ => ("", "")) (fun s => Some (s, false)) (fun x => x) demo_tar (host_path ["run"])
    (host_path ["var"; "cache"]) 0 0 0 true (host_path ["sec"]) "s1" [demo_tree; demo_token]
    (Serial demo_call.1, demo_call.2).
Proof. apply advance_steps. Qed.
Definition demo_event : nat := 9.
Example demo_written : demo_call.2 !! demo_event = Some (Answered (Write_to "/run/s1/payloads/x/bin/run" "#!") (Ok tt)).
Proof. vm_compute. reflexivity. Qed.

Lemma staging_stays_in_its_directories_witness :
  inside ["run"; "s1"] "/run/s1/payloads/x/bin/run" \/ inside ["sec"; "s1"] "/run/s1/payloads/x/bin/run" \/
  (true = true /\ inside ["var"; "cache"] "/run/s1/payloads/x/bin/run") \/
  (exists mode, Write_to "/run/s1/payloads/x/bin/run" "#!" = Mkdir_all "/run/s1/payloads/x/bin/run" mode /\
     (above ["run"; "s1"] "/run/s1/payloads/x/bin/run" \/ above ["sec"; "s1"] "/run/s1/payloads/x/bin/run")).
Proof.
  apply (staging_stays_in_its_directories (fun _ => ("", "")) (fun s => Some (s, false)) (fun x => x) demo_tar 0 0 0 true
    ["run"] ["sec"] ["var"; "cache"] true "s1" [demo_tree; demo_token] (Serial demo_call.1) demo_call.2
    (Write_to "/run/s1/payloads/x/bin/run" "#!") (Ok tt)).
  - apply demo_placed.
  - by repeat constructor.
  - apply demo_run.
  - apply (list_elem_of_lookup_2 _ demo_event), demo_written.
  - by left.
Defined.
Lemma staged_bytes_are_the_artifacts_witness :
  (inside ["sec"; "s1"] "/run/s1/payloads/x/bin/run" /\
     exists art, art ∈ [demo_tree; demo_token] /\ Sensitive art = true /\ "#!" = Inline art) \/
  (inside ["run"; "s1"] "/run/s1/payloads/x/bin/run" /\
     exists art, art ∈ [demo_tree; demo_token] /\ Sensitive art = false /\
       (PresignedURL art = "" /\ "#!" = Inline art \/
        exists blob, carries (fun x => x) art blob /\ file_of demo_tar blob "#!")) \/
  (true = true /\ inside ["var"; "cache"] "/run/s1/payloads/x/bin/run" /\
     exists art, art ∈ [demo_tree; demo_token] /\ Sensitive art = false /\ "#!" = Sha256 art).
Proof.
  apply (staged_bytes_are_the_artifacts (fun _ => ("", "")) (fun s => Some (s, false)) (fun x => x) demo_tar 0 0 0 true
    ["run"] ["sec"] ["var"; "cache"] true "s1" [demo_tree; demo_token] (Serial demo_call.1) demo_call.2
    (Write_to "/run/s1/payloads/x/bin/run" "#!") (Ok tt)).
  - apply demo_placed.
  - by repeat constructor.
  - apply demo_run.
  - apply (list_elem_of_lookup_2 _ demo_event), demo_written.
  - by left.
Defined.

(** The store fails once, then delivers. *)
Definition demo_object : Artifact := mkArtifact "o" "" ArtifactTar "payloads/o" 0 false "" "skills/tree" "tree" "https://u" 0.
Definition demo_fetch := play (fun _ : Empty_set => false) demo_answers (fun _ => [])
  (fetchWithRetry (fun _ => ("", "")) (fun s => Some (s, false)) (fun x => x) 0 true demo_object) tt [].
Example demo_fetched : demo_fetch.1.1 = Ok "tree" /\ asked is_get demo_fetch.2 = 2%nat.
Proof. vm_compute. done. Qed.
Lemma fetch_is_bounded_witness :
  (asked is_get demo_fetch.2 <= 4)%nat /\ (asked is_represign demo_fetch.2 <= 1)%nat /\
  forall l1 e l2 r, demo_fetch.2 = l1 ++ e :: l2 ->
    settling (fun _ => ("", "")) (fun s => Some (s, false)) (fun x => x) 0 demo_object e = Some r ->
    l2 = [] /\ Ret (D := unit) (E := Empty_set) (ans := answer) demo_fetch.1.1 = Ret r.
Proof.
  apply (fetch_is_bounded (fun _ => ("", "")) (fun s => Some (s, false)) (fun x => x) 0 true demo_object).
  pose proof (play_runs (fun _ : Empty_set => false) demo_answers (fun _ => []) (fun _ _ => True)
    (fetchWithRetry (fun _ => ("", "")) (fun s => Some (s, false)) (fun x => x) 0 true demo_object) tt []) as Hr.
  fold demo_fetch in Hr. by destruct demo_fetch as [[r []] l].
Defined.

(** ** Where the checks do not reach *)

(** A destination that begins with white space and two slashes, or names the staging directory
    itself, passes the check of the control plane (no leading slash) and the node's check of the
    reserved directory, and lands in the directory the agent reports in. *)
Example reserved_directory_is_reached :
  destPathFor "/run/s1" (demo_note <| DestPath := "report/apply.json" |>) = Err (Bad_path "reserved") /\
  destPathFor "/run/s1" (demo_note <| DestPath := " //report/apply.json" |>) = Ok "/run/s1/report/apply.json" /\
  destPathFor "/run/s1" (demo_note <| DestPath := " //" |>) = Ok "/run/s1".
Proof. vm_compute. done. Qed.
(** A digest that climbs makes the cache look at, and then delete, a file outside it. *)
Example climbing_digest_leaves_the_cache : cachePath "/var/cache" "../../etc/backup" = "/etc/backup.tar".
Proof. vm_compute. reflexivity. Qed.
(** White space around the names of a tree is dropped, so that two of its files become one; the
    entry for the tree's own directory, which tar writes first, is refused. *)
Example names_are_trimmed : safeRel " a" = safeRel "a" /\ safeRel "./" = None.
Proof. vm_compute. done. Qed.
