(* ===== verification/PodStore.v ===== *)
(** * The pods a node runs (src/internal/spawnlet/store.go, mount_binding.go, manager.go)

    The records a node's manager keeps in memory: what it must remember of a pod to tear it down,
    the map of the live ones, and the reservations that an authorised start holds while its pod is
    being built.  A record is shared by pointer, and so is a reservation: the pointer is its
    identity.  The theorem of this file is that no record is lost and none is handed out twice. *)

From S2P Require Import Prelude GoLib Database Sagas.
Open Scope Z_scope.

(** ** Data *)

Record MountBinding := mkBinding {
  mb_Name : string; mb_BackendURI : string; mb_CredentialSecretID : string; mb_CreateIfMissing : bool;
  mb_RepositoryID : string }.
(** A storage backend is what the resolver makes of a binding, or the node's own scratch. *)
Inductive Backend := ScratchBackend | Resolved (b : MountBinding).
Record MountFinalizer := mkFinalizer {
  mf_HostDir : string; mf_Backend : option Backend; mf_SyncFrom : string; mf_CleanupDir : string }.
Inductive DurabilityClass := Ephemeral | NodeLocal | OwnerSealed.
(** [journal.Mount] *)
Record JournalMount := mkJournalMount { jm_Name : string; jm_HostDir : string; jm_Class : DurabilityClass }.
Record RootfsArtifact := mkRootfs {
  ra_ArtifactID : string; ra_Generation : Z; ra_Sequence : Z; ra_BaseImageDigest : string; ra_Format : string;
  ra_ContentDigest : string; ra_UncompressedSize : Z; ra_ProducerNodeID : string; ra_ProducerRuntime : string }.
Definition watcher : Type := nat.

Record Spawn := mkSpawn {
  ID : string; OwnerID : string; Generation : Z; SidecarID : string; AgentID : string;
  MountDirs : list string; MountBindings : list MountBinding; MountFinalizers : list MountFinalizer;
  JournalMounts : list JournalMount; MountTargets : list string; journalWatchers : list watcher;
  FloorIP : string; PodIP : string; NetnsPath : string; SandboxID : string; Status : string; Mode : string;
  ControlToken : string; ControlURL : string; BaseImageDigest : string; LaunchImageRef : string;
  DeltaImageRef : string; DeltaDepth : Z; RootfsArtifacts : list RootfsArtifact }.
#[export] Instance eta_Spawn : Eta Spawn := fun s =>
  mkSpawn (ID s) (OwnerID s) (Generation s) (SidecarID s) (AgentID s) (MountDirs s) (MountBindings s)
    (MountFinalizers s) (JournalMounts s) (MountTargets s) (journalWatchers s) (FloorIP s) (PodIP s)
    (NetnsPath s) (SandboxID s) (Status s) (Mode s) (ControlToken s) (ControlURL s) (BaseImageDigest s)
    (LaunchImageRef s) (DeltaImageRef s) (DeltaDepth s) (RootfsArtifacts s).

Record OwnerReservation := mkReservation { r_id : string; r_owner : string; r_generation : Z }.

(** The memory of the process: the records and the reservations by pointer, [Store.m],
    [Store.reservations]. *)
Record node := mkNode {
  heap : gmap nat Spawn; issued : gmap nat OwnerReservation;
  m : gmap string nat; reservations : gmap string nat; next : nat }.
#[export] Instance eta_node : Eta node := fun n => mkNode (heap n) (issued n) (m n) (reservations n) (next n).
Definition NewStore : node := mkNode ∅ ∅ ∅ ∅ 0.

(** ** Operations, each under the store's lock *)

Definition ReserveOwner (id owner : string) (generation : Z) (n : node) : option nat * node :=
  if String.eqb id "" || String.eqb owner "" || negb (is_none (m n !! id)) then (None, n)
  else if negb (is_none (reservations n !! id)) then (None, n)
  else (Some (next n),
        n <| issued ::= <[next n := mkReservation id owner generation]> |> <| reservations ::= <[id := next n]> |>
          <| next ::= S |>).
(** [s.reservations[reservation.id] == reservation] *)
Definition OwnsReservation (r : option nat) (n : node) : bool :=
  match r with
  | None => false
  | Some r => match issued n !! r with
              | None => false
              | Some o => bool_decide (reservations n !! r_id o = Some r)
              end
  end.
(** The fields of a reservation, which never change. *)
Definition reservation_of (r : option nat) (n : node) : option OwnerReservation :=
  match r with Some r => issued n !! r | None => None end.
Definition ReleaseOwner (r : option nat) (n : node) : node :=
  match r with
  | Some p => match issued n !! p with
              | Some o => if OwnsReservation r n then n <| reservations ::= delete (r_id o) |> else n
              | None => n
              end
  | None => n
  end.
(** [&Spawn{...}] *)
Definition new_spawn (sp : Spawn) (n : node) : nat * node :=
  (next n, n <| heap ::= <[next n := sp]> |> <| next ::= S |>).
Definition CommitOwner (r : option nat) (p : nat) (n : node) : bool * node :=
  match reservation_of r n, heap n !! p with
  | Some o, Some sp =>
      if negb (String.eqb (r_id o) (ID sp)) || negb (String.eqb (r_owner o) (OwnerID sp))
         || negb (r_generation o =? Generation sp) || negb (is_none (m n !! ID sp))
         || negb (bool_decide (reservations n !! ID sp = r))
      then (false, n)
      else (true, n <| reservations ::= delete (ID sp) |> <| m ::= <[ID sp := p]> |>)
  | _, _ => (false, n)
  end.
Definition Put (p : nat) (n : node) : node :=
  match heap n !! p with Some sp => n <| m ::= <[ID sp := p]> |> | None => n end.
(** A pointer with the record it points to. *)
Definition lookup (id : string) (n : node) : option (nat * Spawn) :=
  p ← m n !! id; sp ← heap n !! p; Some (p, sp).
Definition Get (id : string) (n : node) : option (nat * Spawn) := lookup id n.
Definition OwnerGeneration (id : string) (n : node) : option (string * Z) :=
  '(_, sp) ← lookup id n; Some (OwnerID sp, Generation sp).
Definition Delete (id : string) (n : node) : node := n <| m ::= delete id |>.
Definition Claim (id : string) (n : node) : option (nat * Spawn) * node :=
  match lookup id n with
  | Some r => (Some r, Delete id n)
  | None => (None, n)
  end.
Definition List_ (n : node) : list (nat * Spawn) := omap (fun kv => lookup kv.1 n) (map_to_list (m n)).

(** [takeWatchers] and [setWatchers] of manager.go, under [watchersMu]. *)
Definition takeWatchers (p : nat) (n : node) : list watcher * node :=
  (default [] (journalWatchers <$> heap n !! p), n <| heap ::= alter (fun sp => sp <| journalWatchers := [] |>) p |>).
Definition setWatchers (p : nat) (ws : list watcher) (n : node) : node :=
  n <| heap ::= alter (fun sp => sp <| journalWatchers := ws |>) p |>.

(** ** Any interleaving of the operations *)

(** What the manager's calls do to the store: a spawn is put there when its record is complete,
    by a start that holds a reservation ([CommitOwner]) or by one that needs none ([Put]). *)
Inductive op :=
| Reserve (id owner : string) (generation : Z)
| Release (r : option nat)
| Commit (r : option nat) (sp : Spawn)
| PutNew (sp : Spawn)
| ClaimOne (id : string)
| TakeWatchers (p : nat)
| SetWatchers (p : nat) (ws : list watcher).
(** The new state, the pointers that entered the map and those that were handed out. *)
Definition apply_op (o : op) (n : node) : node * list nat * list nat :=
  match o with
  | Reserve id owner g => ((ReserveOwner id owner g n).2, [], [])
  | Release r => (ReleaseOwner r n, [], [])
  | Commit r sp =>
      let '(p, n) := new_spawn sp n in
      match CommitOwner r p n with (true, n) => (n, [p], []) | (false, n) => (n, [], []) end
  | PutNew sp => let '(p, n) := new_spawn sp n in (Put p n, [p], [])
  | ClaimOne id => match Claim id n with
                   | (Some (p, _), n) => (n, [], [p])
                   | (None, n) => (n, [], [])
                   end
  | TakeWatchers p => ((takeWatchers p n).2, [], [])
  | SetWatchers p ws => (setWatchers p ws n, [], [])
  end.
Record history := mkHistory { state : node; entered : list nat; claimed : list nat }.
#[export] Instance eta_history : Eta history := fun h => mkHistory (state h) (entered h) (claimed h).
Definition after (h : history) (o : op) : history :=
  let '(n, e, c) := apply_op o (state h) in mkHistory n (entered h ++ e) (claimed h ++ c).
Definition run (ops : list op) : history := foldl after (mkHistory NewStore [] []) ops.

(** An unreserved start of a spawn that is already there replaces it. *)
Definition replaces (o : op) (n : node) : bool :=
  match o with PutNew sp => negb (is_none (m n !! ID sp)) | _ => false end.
Fixpoint never_replaces (ops : list op) (h : history) : bool :=
  match ops with
  | [] => true
  | o :: ops => negb (replaces o (state h)) && never_replaces ops (after h o)
  end.
Definition live (n : node) : list nat := (map_to_list (m n)).*2.

(** ** Invariant *)

Record store_inv (h : history) : Prop := {
  si_next : forall p, is_Some (heap (state h) !! p) -> (p < next (state h))%nat;
  si_id : forall id p, m (state h) !! id = Some p -> exists sp, heap (state h) !! p = Some sp /\ ID sp = id;
  si_account : entered h ≡ₚ live (state h) ++ claimed h;
  si_once : NoDup (entered h);
  si_old : forall p, p ∈ entered h -> (p < next (state h))%nat }.

Lemma live_insert id p n :
  m n !! id = None -> live (n <| m ::= <[id := p]> |>) ≡ₚ p :: live n.
Proof. intros Hn. unfold live. cbn. by rewrite map_to_list_insert. Qed.
Lemma live_delete id p n : m n !! id = Some p -> live n ≡ₚ p :: live (Delete id n).
Proof. intros Hn. unfold live. cbn. by rewrite <- (map_to_list_delete (m n) id p Hn). Qed.

Lemma lookup_some id n p sp : lookup id n = Some (p, sp) <-> m n !! id = Some p /\ heap n !! p = Some sp.
Proof.
  unfold lookup. split.
  - intros Hl. destruct (m n !! id) as [q|] eqn:Hq; [|done]. cbn in Hl. destruct (heap n !! q) eqn:Hh; [|done].
    cbn in Hl. by simplify_eq.
  - intros [-> Hh]. cbn. by rewrite Hh.
Qed.

(** A record that has just been allocated enters the map. *)
Lemma enter_inv h sp n' :
  store_inv h -> m (state h) !! ID sp = None ->
  heap n' = <[next (state h) := sp]> (heap (state h)) -> next n' = S (next (state h)) ->
  m n' = <[ID sp := next (state h)]> (m (state h)) ->
  store_inv (mkHistory n' (entered h ++ [next (state h)]) (claimed h ++ [])).
Proof.
  intros [Hn Hi Ha Ho Hp] Hnone Hh Hx Hm. split; cbn.
  - rewrite Hh, Hx. intros p Hs. destruct (decide (p = next (state h))); [lia|].
    rewrite lookup_insert_ne in Hs by done. specialize (Hn _ Hs). lia.
  - rewrite Hm, Hh. intros id p Hl. destruct (decide (id = ID sp)) as [->|Hne].
    + rewrite lookup_insert_eq in Hl. simplify_eq. exists sp. by rewrite lookup_insert_eq.
    + rewrite lookup_insert_ne in Hl by done. destruct (Hi _ _ Hl) as (sp' & Hs & <-). exists sp'.
      rewrite lookup_insert_ne; [done|]. intros <-. specialize (Hn _ (mk_is_Some _ _ Hs)). lia.
  - rewrite app_nil_r, Ha. unfold live. rewrite Hm, map_to_list_insert by done. cbn.
    by rewrite <- Permutation_middle, app_nil_r.
  - apply NoDup_app. split_and!; [done| |apply NoDup_singleton]. intros p Hin ->%list_elem_of_singleton.
    specialize (Hp _ Hin). lia.
  - rewrite Hx. intros p [Hin| ->%list_elem_of_singleton]%elem_of_app; [specialize (Hp _ Hin)|]; lia.
Qed.
(** What changes neither the map nor the identity of a record keeps the accounts. *)
Lemma quiet_inv h n' :
  store_inv h -> m n' = m (state h) -> (next (state h) <= next n')%nat ->
  (forall p, is_Some (heap n' !! p) -> is_Some (heap (state h) !! p) \/ p = next (state h) /\ (p < next n')%nat) ->
  (forall p sp, heap (state h) !! p = Some sp -> exists sp', heap n' !! p = Some sp' /\ ID sp' = ID sp) ->
  store_inv (mkHistory n' (entered h ++ []) (claimed h ++ [])).
Proof.
  intros [Hn Hi Ha Ho Hp] Hm Hx Hnew Hold. rewrite !app_nil_r. split; cbn; try done.
  - intros p Hs. destruct (Hnew _ Hs) as [Hs'|[-> ?]]; [specialize (Hn _ Hs'); lia|done].
  - rewrite Hm. intros id p Hl. destruct (Hi _ _ Hl) as (sp & Hs & <-). by apply Hold in Hs.
  - by rewrite Ha; unfold live; rewrite Hm.
  - intros p Hin. specialize (Hp _ Hin). lia.
Qed.
Lemma alter_watchers_inv h p ws :
  store_inv h -> store_inv (mkHistory (setWatchers p ws (state h)) (entered h ++ []) (claimed h ++ [])).
Proof.
  intros Hh. apply quiet_inv; try done; cbn.
  - intros q. rewrite lookup_alter_is_Some. by left.
  - intros q sp Hs. destruct (decide (q = p)) as [->|].
    + rewrite lookup_alter_eq, Hs. by eexists.
    + rewrite lookup_alter_ne by done. by eexists.
Qed.

Lemma after_inv h o : store_inv h -> replaces o (state h) = false -> store_inv (after h o).
Proof.
  intros Hh Hr. unfold after. destruct o as [id owner g|r|r sp|sp|id|p|p ws]; cbn [apply_op].
  - apply quiet_inv; unfold ReserveOwner; [done|..]; repeat case_match; cbn; eauto.
  - apply quiet_inv; unfold ReleaseOwner; [done|..]; repeat case_match; cbn; eauto.
  - cbn [new_spawn]. set (n := (state h) <| heap ::= <[next (state h) := sp]> |> <| next ::= S |>).
    assert (heap n !! next (state h) = Some sp) as Hs by (cbn; by rewrite lookup_insert_eq).
    assert (forall q, is_Some (heap n !! q) -> is_Some (heap (state h) !! q) \/ q = next (state h) /\ (q < next n)%nat)
      as Hnew.
    { intros q Hq. destruct (decide (q = next (state h))) as [->|]; [right; split; [done|cbn; lia]|].
      cbn in Hq. rewrite lookup_insert_ne in Hq by done. by left. }
    assert (forall q sp', heap (state h) !! q = Some sp' -> exists sp'', heap n !! q = Some sp'' /\ ID sp'' = ID sp')
      as Hold.
    { intros q sp' Hq. exists sp'. split; [|done]. cbn. rewrite lookup_insert_ne; [done|]. intros <-.
      specialize (si_next _ Hh _ (mk_is_Some _ _ Hq)). lia. }
    assert ((next (state h) <= next n)%nat) as Hle by (cbn; lia).
    unfold CommitOwner. rewrite Hs. destruct (reservation_of r n) as [o|] eqn:Ho; [|by apply quiet_inv].
    match goal with |- context [if ?b then (false, _) else _] => destruct b eqn:Hb end; [by apply quiet_inv|].
    apply enter_inv with (sp := sp); try done. brefl. destruct Hb as [[_ Hb] _]. unfold is_none in Hb. cbn in Hb.
    by destruct (m (state h) !! ID sp).
  - cbn [new_spawn]. unfold Put. cbn. rewrite lookup_insert_eq. apply enter_inv with (sp := sp); try done.
    cbn in Hr. unfold is_none in Hr. by destruct (m (state h) !! ID sp).
  - unfold Claim. destruct (lookup id (state h)) as [[p sp]|] eqn:Hl.
    + apply lookup_some in Hl as [Hm Hs]. destruct Hh as [Hn Hi Ha Ho Hp]. split; cbn.
      * done.
      * intros id' q Hq. apply lookup_delete_Some in Hq as [_ Hq]. by apply Hi.
      * rewrite app_nil_r, Ha, (live_delete id p) by done. cbn. by rewrite (assoc_L (++)), <- Permutation_cons_append.
      * by rewrite app_nil_r.
      * intros q. rewrite app_nil_r. apply Hp.
    + apply quiet_inv; eauto.
  - by apply (alter_watchers_inv _ p []).
  - by apply alter_watchers_inv.
Qed.

Lemma foldl_inv ops h : store_inv h -> never_replaces ops h = true -> store_inv (foldl after h ops).
Proof.
  revert h. induction ops as [|o ops IH]; intros h Hh Hn; [done|]. cbn in Hn |- *. brefl. destruct Hn as [Hr Hn].
  apply IH; [|done]. by apply after_inv.
Qed.
Lemma run_accounts ops : never_replaces ops (mkHistory NewStore [] []) = true -> store_inv (run ops).
Proof.
  apply foldl_inv. split; cbn; [|done|done|apply NoDup_nil_2|].
  - intros p [? Hs]. by rewrite lookup_empty in Hs.
  - intros p Hin. by apply elem_of_nil in Hin.
Qed.

(** C0: whatever calls of the manager interleave on a node, no pod is forgotten and none is torn
    down twice: every record that entered the store is, exactly once, either still there or with
    the one caller that claimed it — as long as no start without a reservation puts its record
    over a live one, which a start with a reservation never does. *)
Theorem every_pod_is_live_or_claimed_once ops :
  never_replaces ops (mkHistory NewStore [] []) = true ->
  NoDup (live (state (run ops)) ++ claimed (run ops)) /\
  entered (run ops) ≡ₚ live (state (run ops)) ++ claimed (run ops).
Proof.
  intros Hn%run_accounts. split; [|apply Hn]. rewrite <- (si_account _ Hn). apply Hn.
Qed.

(** ** Reservations *)

(** Of the callers that hold a reservation of one spawn, the store knows the last one only, and a
    release that comes late releases nothing else. *)
Lemma reservation_exclusive r r' n :
  OwnsReservation (Some r) n = true -> OwnsReservation (Some r') n = true ->
  r_id <$> issued n !! r = r_id <$> issued n !! r' -> r = r'.
Proof.
  unfold OwnsReservation. intros Hr Hr' Hid. repeat case_match; try done. brefl. simplify_eq/=. congruence.
Qed.
Lemma late_release_is_harmless r r' n :
  r <> r' -> OwnsReservation (Some r) n = true -> OwnsReservation (Some r) (ReleaseOwner (Some r') n) = true.
Proof.
  intros Hne Hr. unfold ReleaseOwner. destruct (issued n !! r') as [o'|] eqn:Ho'; [|done].
  destruct (OwnsReservation (Some r') n) eqn:Hr'; [|done].
  unfold OwnsReservation in *. cbn. rewrite Ho' in Hr'. destruct (issued n !! r) as [o|]; [|done]. brefl.
  rewrite lookup_delete_ne; [done|]. congruence.
Qed.

(** ** Examples *)

Definition demo_pod (id owner : string) (g : Z) : Spawn :=
  mkSpawn id owner g "side" "agent" [] [] [] [] [] [] "" "" "" "" "ready" "" "" "" "" "" "" 0 [].
(** A start loses its reservation to nobody, commits, and two callers race to stop it. *)
Definition demo_ops : list op :=
  [Reserve "s1" "ann" 3; Reserve "s1" "bob" 4; Commit (Some 0%nat) (demo_pod "s1" "ann" 3); ClaimOne "s1";
   ClaimOne "s1"; Release (Some 0%nat); PutNew (demo_pod "s2" "" 0)].
Example demo_history :
  (entered (run demo_ops), claimed (run demo_ops), live (state (run demo_ops))) = ([1; 2]%nat, [1]%nat, [2]%nat).
Proof. vm_compute. reflexivity. Qed.
Lemma every_pod_is_live_or_claimed_once_witness :
  NoDup (live (state (run demo_ops)) ++ claimed (run demo_ops)) /\
  entered (run demo_ops) ≡ₚ live (state (run demo_ops)) ++ claimed (run demo_ops).
Proof. apply (every_pod_is_live_or_claimed_once demo_ops). vm_compute. reflexivity. Defined.
(** Without a reservation the second start of a spawn drops the record of the first. *)
Example put_forgets_a_pod :
  let h := run [PutNew (demo_pod "s2" "" 0); PutNew (demo_pod "s2" "" 0)] in
  (entered h, live (state h) ++ claimed h) = ([0; 1]%nat, [1]%nat).
Proof. vm_compute. reflexivity. Qed.
