(* ===== verification/PodEnv.v ===== *)
(** * What the pod manager asks of its environment, and its pure parts
    (src/internal/spawnlet/manager.go, mount_binding.go, scrubguard.go, manager_fork.go, firewall)

    The container runtime, the storage backends, the journal, the firewall, the file system and
    the credential server answer questions; any of them may fail.  The tables of the sagas are the
    memory of PodStore.v. *)

From S2P Require Import Prelude GoLib Paths Database Sagas PodStore.
Open Scope Z_scope.

(** ** Configuration and requests *)

(** The settings the manager reads; [CPULimit * 1e9] is kept as the number it is converted to. *)
Record ManagerConfig := {
  AgentImage : string; SidecarImage : string; OpenRouterKey : string; DataRoot : string; SecretsRoot : string;
  ArtifactsRoot : string; GitEnvRoot : string; SidecarPort : Z; SidecarCABundleFile : string; NodeID : string;
  NodeClass : string; EgressEnforce : bool; EgressAllowCIDRs : list string; EgressFloorForceOff : bool;
  MemLimitMB : Z; NanoCPUs : Z; PidsLimit : Z; ContainerRuntime : string; DeltaCapture : bool;
  UsernsMode : string; UsernsRemapBase : Z; DeltaSquashDepth : Z; DeltaScrubPaths : list string;
  (** the parts that are installed: [journal], [journalKeys], [rootMaterializer], [ghControl] *)
  has_journal : bool; has_journalKeys : bool; has_rootMaterializer : bool; has_ghControl : bool }.

(** An artifact to stage is opaque here: Staging.v is about it. *)
Record AgentSelection := {
  Image : string; RunnableID : string; sel_Mode : string; Mounts : list MountBinding;
  sel_BaseImageDigest : string; RootfsSourceGeneration : Z; sel_RootfsArtifacts : list RootfsArtifact;
  RootfsArtifactsLocalOnly : bool; Artifacts : list string; BeforeStartAgent : bool }.

(** [manifest.Mount] and the part of the manifest that is read. *)
Record ManifestMount := mkManifestMount { mm_Name : string; mm_Path : string; mm_Seed : string; mm_Durability : string }.
Record Manifest := mkManifest { man_ID : string; man_Mounts : list ManifestMount }.

(** ** What the container runtime is asked for (src/internal/runtime/pod.go) *)

Record Mount := mkMount {
  HostPath : string; ContainerPath : string; ReadOnly : bool; SELinuxRelabelShared : bool }.
Record Resources := mkResources { MemoryBytes : Z; NanoCPU : Z; Pids : Z }.
Record PodSpec := {
  ps_ID : string; ps_SidecarImage : string; ps_SidecarEnv : list string; ps_SidecarMounts : list Mount;
  ps_Resources : Resources; ps_Runtime : string; ps_Labels : gmap string string }.
Record AgentSpec := {
  as_Image : string; as_Cmd : list string; as_Env : list string; as_Mounts : list Mount;
  as_Resources : Resources; as_Runtime : string; as_DropAllCaps : bool; as_Labels : gmap string string }.
Record PodHandle := mkHandle {
  h_PodIP : string; h_NetnsPath : string; h_SidecarID : string; h_AgentID : string; h_SandboxID : string;
  h_SpawnID : string; h_BaseImageRef : string }.
#[export] Instance eta_PodHandle : Eta PodHandle := fun h =>
  mkHandle (h_PodIP h) (h_NetnsPath h) (h_SidecarID h) (h_AgentID h) (h_SandboxID h) (h_SpawnID h) (h_BaseImageRef h).
Record ManagedPod := {
  mp_SpawnID : string; mp_Generation : Z; mp_NodeID : string; mp_SidecarID : string; mp_AgentID : string;
  mp_SandboxID : string; mp_PodIP : string }.

(** A descriptor of the journal's artifact: a rootfs artifact with its type. *)
Record ArtifactDescriptor := mkDescriptor { ad_Type : string; ad_Rootfs : RootfsArtifact }.
Record journalRecord := mkJournalRecord { jr_Generation : Z; jr_Manifests : gmap string string }.

Record SuspendResult := mkSuspendResult { MountMarkers : gmap string string; sr_RootfsArtifacts : list RootfsArtifact }.

(** An error is what its message says, around what caused it. *)
Inductive error := Failure (what : string) | Because (what : string) (cause : error).

(** ** Questions *)

Inductive question :=
| Progress (phase detail stepKey : string)
| Suspend_progress (phase detail : string) (markers : gmap string string)
(** the file system, the manifest *)
| Abs (path : string)
| Parse_manifest (path : string)
| Secrets_mkdir (spawnID dir : string) (mode : Z)
| Sync_mount (src dst : string)
| Normalize_ownership (dir : string) (uid : Z)
| Materialize_root (image src dst : string) (dirMode fileMode : Z)
(** storage backends *)
| Resolve_binding (b : MountBinding)
| Set_restore_pending (b : Backend) (pending : bool)
| Prepare (b : Backend) (spawnID mount seedDir : string) (agentUID : Z)
| Finalize (b : Backend) (dir : string)
(** the spawn's own directories, the credentials, the control server *)
| Materialize_artifacts (spawnID : string) (artifacts : list string)
| GitEnv_prepare (spawnID : string) (agentUID : Z)
| Secrets_write (spawnID target plaintext : string)
| Secrets_remove (spawnID : string) | Artifacts_remove (spawnID : string) | GitEnv_remove (spawnID : string)
| GithubCreds_remove (spawnID : string)
| Control_stop (spawnID : string)
| Spawn_CA_cert (spawnID : string)
| Render_git_proxy (dir addr caPEM : string)
| Push_credentials (spawnID controlURL controlToken : string)
| Ready_probe (podIP : string) (port : Z)
| Before_start_agent (spawnID : string) (generation : Z) (controlURL controlToken : string)
| New_control_token
(** the container runtime *)
| List_managed
| Container_env (id : string)
| Start_pod (spec : PodSpec)
| Start_agent (h : PodHandle) (spec : AgentSpec)
| Stop_pod (h : PodHandle)
| Pause (h : PodHandle) | Unpause (h : PodHandle)
| Resolve_image_digest (ref : string)
| Ensure_image (baseRef deltaRef : string)
| Capture_delta (h : PodHandle)
| Release_delta (spawnID : string)
| Export_delta (spawnID : string)
| Import_delta (spawnID baseRef payload : string)
| Scrub (agentID : string) (paths : list string)
(** the egress floor *)
| Fw_apply (rules : list (list string)) | Fw_remove (rules : list (list string))
(** the journal, its keys, its watchers, the records on disk *)
| Mark_owner_sealed (spawnID : string)
| Wait_delivered (spawnID : string)
| Restore_generation (spawnID : string) (gen : Z) (mount manifestID dir : string)
| Final_snapshot (spawnID : string) (gen : Z) (mt : JournalMount)
| Journal_close (spawnID : string)
| Get_artifact (spawnID : string) (gen : Z) (artifactID : string)
| Put_artifact (spawnID : string) (gen : Z) (desc : ArtifactDescriptor) (payload : string)
| New_watcher (dir : string) | Start_watcher (w : watcher) | Stop_watcher (w : watcher)
| Journal_load (spawnID : string) | Journal_save (spawnID : string) (r : journalRecord) | Journal_delete (spawnID : string)
| Delta_load (spawnID : string) | Delta_save (spawnID : string) (depth : Z) | Delta_delete (spawnID : string).

Definition answer (q : question) : Type :=
  match q with
  | Progress _ _ _ | Suspend_progress _ _ _ | Set_restore_pending _ _ | Mark_owner_sealed _ | Control_stop _
  | Start_watcher _ | Stop_watcher _ => unit
  | New_control_token => string
  | Abs _ | Prepare _ _ _ _ _ | GitEnv_prepare _ _ | Secrets_write _ _ _ | Spawn_CA_cert _
  | Resolve_image_digest _ | Ensure_image _ _ | Capture_delta _ | Export_delta _ | Import_delta _ _ _ => result error string
  | Parse_manifest _ => result error Manifest
  | List_managed => result error (list ManagedPod)
  | Container_env _ => result error (list string)
  | Start_pod _ => result error PodHandle
  (** the id the handle is left with, and whether it failed *)
  | Start_agent _ _ => string * option error
  | Final_snapshot _ _ _ => result error (gmap string string)
  | Get_artifact _ _ _ => result error (ArtifactDescriptor * string)
  | Put_artifact _ _ _ _ => result error ArtifactDescriptor
  | New_watcher _ => result error watcher
  | Journal_load _ => result error (option journalRecord)
  | Delta_load _ => result error (option Z)
  | _ => result error unit
  end.

Abbreviation saga := (Sagas.saga (D := node) (E := Empty_set) (ans := answer)).
Abbreviation event := (Sagas.event (D := node) (ans := answer)).
Abbreviation trace := (list event).
Abbreviation ask := (Sagas.ask (D := node) (E := Empty_set) (ans := answer)).
Abbreviation handler A := (saga (result error A)).
Definition ok {A} (a : A) : handler A := mret (Ok a).
Definition fail {A} (e : error) : handler A := mret (Err e).
Definition no_fault (e : Empty_set) : bool := false.
(** A step on the memory of the process, under its lock. *)
Definition atomic {B} (f : node -> B * node) : saga B :=
  Tx (fun s => let '(b, n) := f (tables s) in (Ok b, mkSession n (faults s)))
     (fun r : result Empty_set B => match r with Ok b => Ret b | Err e => match e with end end).
Definition act (f : node -> node) : saga unit := atomic (fun n => (tt, f n)).
Definition read {B} (f : node -> B) : saga B := atomic (fun n => (f n, n)).
(** [if err != nil { return fmt.Errorf(what, err) }] *)
Definition wrap {A} (what : string) (p : handler A) : handler A :=
  r ← p; mret (match r with Err e => Err (Because what e) | Ok a => Ok a end).
Definition or_cleanup {A} (p : handler A) (cleanup : saga unit) : handler A :=
  r ← p; match r with Err e => cleanup;; fail e | Ok a => ok a end.
(** [_ = f()] or an error that is only logged *)
Definition ignore {A} (p : saga A) : saga unit := _ ← p; mret tt.
Definition require (b : bool) (e : error) : handler unit := if b then ok tt else fail e.
Definition each_of {A} (f : A -> saga unit) : list A -> saga unit :=
  fix go l := match l with [] => mret tt | a :: l => f a;; go l end.

(** ** Pure parts *)

(** [mountBindingsByName] *)
Fixpoint bindings_by_name (names : list string) (bindings : list MountBinding) (out : gmap string MountBinding)
    : result error (gmap string MountBinding) :=
  match bindings with
  | [] => Ok out
  | b :: bindings =>
      if String.eqb (mb_Name b) "" then Err (Failure "mount binding name must not be empty")
      else if negb (bool_decide (mb_Name b ∈ names)) then Err (Failure "mount binding does not match any manifest mount")
      else if negb (is_none (out !! mb_Name b)) then Err (Failure "duplicate mount binding")
      else bindings_by_name names bindings (<[mb_Name b := b]> out)
  end.
Definition mountBindingsByName (mounts : list ManifestMount) (bindings : list MountBinding) :=
  bindings_by_name (mm_Name <$> mounts) bindings ∅.
(** [bindings[mt.Name]], with its name filled in when there is none *)
Definition binding_of (bindings : gmap string MountBinding) (name : string) : MountBinding :=
  match bindings !! name with
  | Some b => if String.eqb (mb_Name b) "" then mkBinding name (mb_BackendURI b) (mb_CredentialSecretID b) (mb_CreateIfMissing b) (mb_RepositoryID b) else b
  | None => mkBinding name "" "" false ""
  end.

Definition ParseDurability (s : string) : option DurabilityClass :=
  if String.eqb s "" || String.eqb s "ephemeral" then Some Ephemeral
  else if String.eqb s "node-local" then Some NodeLocal
  else if String.eqb s "owner-sealed" then Some OwnerSealed
  else None.
Definition Journaled (c : DurabilityClass) : bool := match c with Ephemeral => false | _ => true end.
Definition is_sealed (c : DurabilityClass) : bool := match c with OwnerSealed => true | _ => false end.
Definition IsGitHubBackendURI (uri : string) : bool := HasPrefix uri "github:".

(** The ids of the registry of agentcaps.go. *)
Definition runnables : list string :=
  ["goose-acp"; "goose-tui"; "opencode-served"; "opencode-tui"; "claude-tui"; "codex-tui"; "pi-tui"; "pi-acp"; "hermes-acp"].
Definition sessionTitle (name appTitle : string) : string :=
  let name := TrimSpace name in
  let appTitle := TrimSpace appTitle in
  if negb (String.eqb name "") && negb (String.eqb appTitle "") then name +:+ " (" +:+ appTitle +:+ ")"
  else if negb (String.eqb name "") then name else appTitle.
Definition DeltaTag (spawnID : string) : string := "spawnery/delta:" +:+ spawnID.
Definition JoinHostPort (host : string) (port : Z) : string :=
  (if Contains host ":" then "[" +:+ host +:+ "]" else host) +:+ ":" +:+ Itoa port.

(** [firewall.Rules] *)
Definition Rules (ip : string) (allowCIDRs : list string) : list (list string) :=
  let rule args := "-s" :: ip :: args in
  [rule ["-p"; "udp"; "--dport"; "53"; "-j"; "ACCEPT"]; rule ["-p"; "tcp"; "--dport"; "53"; "-j"; "ACCEPT"]] ++
  ((fun c => rule ["-d"; c; "-j"; "ACCEPT"]) <$> allowCIDRs) ++
  ((fun c => rule ["-d"; c; "-j"; "DROP"]) <$> ["169.254.0.0/16"; "10.0.0.0/8"; "172.16.0.0/12"; "192.168.0.0/16"]).

(** The chain of rootfs artifacts in order (manager_fork.go). *)
Fixpoint insert_rootfs (a : RootfsArtifact) (l : list RootfsArtifact) : list RootfsArtifact :=
  match l with
  | [] => [a]
  | b :: l' => if ra_Sequence b <? ra_Sequence a then b :: insert_rootfs a l' else a :: l
  end.
Definition by_sequence (l : list RootfsArtifact) : list RootfsArtifact := foldr insert_rootfs [] l.
Fixpoint check_chain (want : Z) (prev : option Z) (l : list RootfsArtifact) : result error unit :=
  match l with
  | [] => Ok tt
  | a :: l =>
      if ra_Sequence a <=? 0 then Err (Failure "rootfs artifact chain has missing sequence")
      else if opt_eqb prev (ra_Sequence a) then Err (Failure "rootfs artifact chain has duplicate sequence")
      else if negb (ra_Sequence a =? want) then Err (Failure "rootfs artifact chain has sequence gap")
      else check_chain (want + 1) (Some (ra_Sequence a)) l
  end.
Definition sortedRootfsArtifactChain (artifacts : list RootfsArtifact) : result error (list RootfsArtifact) :=
  let out := by_sequence artifacts in
  match check_chain 1 None out with Err e => Err e | Ok _ => Ok out end.
Definition maxRootfsArtifactSequence (artifacts : list RootfsArtifact) : Z :=
  foldl (fun acc a => if acc <? ra_Sequence a then ra_Sequence a else acc) 0 artifacts.
Definition sortedPortableRootfsArtifacts (deltaDepth : Z) (artifacts : list RootfsArtifact)
    : result error (list RootfsArtifact) :=
  match sortedRootfsArtifactChain artifacts with
  | Err e => Err (Because "rootfs artifact migration" e)
  | Ok sorted =>
      if (deltaDepth <=? 0) || (deltaDepth <=? Z.of_nat (length sorted)) then Ok sorted
      else Err (Failure "unexported local rootfs delta history")
  end.
Definition first_of (s t : string) : string := if String.eqb s "" then t else s.
Definition forkRootfsCopyDescriptor (desc : ArtifactDescriptor) (art : RootfsArtifact)
    (baseImageDigest nodeID producerRuntime : string) : ArtifactDescriptor :=
  let d := ad_Rootfs desc in
  mkDescriptor (first_of (ad_Type desc) "rootfs_delta")
    (mkRootfs (first_of (ra_ArtifactID d) (ra_ArtifactID art)) (ra_Generation d)
      (if ra_Sequence d =? 0 then ra_Sequence art else ra_Sequence d)
      (first_of (first_of (ra_BaseImageDigest d) (ra_BaseImageDigest art)) baseImageDigest)
      (first_of (first_of (ra_Format d) (ra_Format art)) "oci_layout")
      (first_of (ra_ContentDigest d) (ra_ContentDigest art))
      (if ra_UncompressedSize d =? 0 then ra_UncompressedSize art else ra_UncompressedSize d)
      (first_of (first_of (ra_ProducerNodeID d) (ra_ProducerNodeID art)) nodeID)
      (first_of (first_of (ra_ProducerRuntime d) (ra_ProducerRuntime art)) producerRuntime)).
Fixpoint validateRootfsArtifactPins (sourceGeneration : Z) (baseRef : string) (artifacts : list RootfsArtifact)
    : result error unit :=
  if sourceGeneration =? 0 then Err (Failure "missing source generation")
  else match artifacts with
  | [] => Ok tt
  | art :: artifacts =>
      if String.eqb (ra_ArtifactID art) "" then Err (Failure "empty artifact id (restore must be pinned)")
      else if negb (ra_Generation art =? 0) && negb (ra_Generation art =? sourceGeneration)
      then Err (Failure "generation does not match source generation")
      else if negb (String.eqb (ra_BaseImageDigest art) "") && negb (String.eqb (ra_BaseImageDigest art) baseRef)
      then Err (Failure "base digest does not match pinned base digest")
      else validateRootfsArtifactPins sourceGeneration baseRef artifacts
  end.

(** The scrub's guard (scrubguard.go). *)
Definition pathUnder (child parent : string) : bool :=
  if String.eqb parent "/" then negb (String.eqb child "/") else HasPrefix child (parent +:+ "/").
Definition pathsOverlap (a b : string) : bool :=
  let a := Clean a in
  let b := Clean b in
  String.eqb a b || pathUnder a b || pathUnder b a.
Definition IsAbs (p : string) : bool := HasPrefix p "/".
Definition scrub_ok (mountTargets : list string) (p : string) : bool :=
  IsAbs p && negb (match mountTargets with [] => true | _ => false end) &&
  negb (existsb (fun tgt => IsAbs tgt && pathsOverlap p tgt) mountTargets).
Definition filterScrubPaths (paths mountTargets : list string) : list string * list string :=
  (filter (fun p => scrub_ok mountTargets p = true) paths, filter (fun p => scrub_ok mountTargets p = false) paths).
Definition mountTargetsOf (mounts : list Mount) : list string :=
  omap (fun mt => if String.eqb (ContainerPath mt) "" then None else Some (ContainerPath mt)) mounts.

Definition SecretsMountPath : string := "/run/spawnery/secrets".
Definition ArtifactsMountPath : string := "/run/spawnery/artifacts".
Definition GitEnvMountPath : string := "/run/spawnery/git-env".
Definition proxyAddr (sidecarPort : Z) : string := "127.0.0.1:" +:+ Itoa (sidecarPort + 3).
Definition agentGitProxyEnv (proxyAddress : string) : list string :=
  let url := "http://" +:+ proxyAddress in
  let bundle := GitEnvMountPath +:+ "/ca-bundle.crt" in
  ((fun v => v +:+ "=" +:+ url) <$> ["HTTPS_PROXY"; "https_proxy"; "HTTP_PROXY"; "http_proxy"; "ALL_PROXY"; "all_proxy"]) ++
  ["NO_PROXY=127.0.0.1,localhost"; "no_proxy=127.0.0.1,localhost"; "GH_TOKEN=x-spawnery-proxy-dummy";
   "GITHUB_TOKEN=x-spawnery-proxy-dummy"] ++
  ((fun v => v +:+ "=" +:+ bundle) <$> ["GIT_SSL_CAINFO"; "SSL_CERT_FILE"; "NODE_EXTRA_CA_CERTS"; "REQUESTS_CA_BUNDLE"; "CURL_CA_BUNDLE"]).
