(* ===== verification/PodManager.v ===== *)
(** * The node's pod manager (src/internal/spawnlet/manager.go, adopt.go)

    A pod is built in a fixed order — mounts, secrets and artifacts, the sidecar, the network and
    its egress floor, the image, the untrusted agent, the journal's watchers — torn down by one
    routine, suspended through a gate that saves its mounts first, and rebuilt in memory when the
    node comes back to a pod that is still running. *)

From S2P Require Import Prelude GoLib Paths Database Sagas PodStore PodEnv.
Open Scope Z_scope.

Section Manager.
Context (cfg : ManagerConfig).

Definition egressEnforced : bool :=
  if EgressFloorForceOff cfg then false else String.eqb (NodeClass cfg) "cloud" || EgressEnforce cfg.
Definition agentRootUID : Z :=
  if String.eqb (UsernsMode cfg) "remap" then UsernsRemapBase cfg
  else if String.eqb (UsernsMode cfg) "native" then 0 else -1.
Definition useRootMaterializer : bool := String.eqb (UsernsMode cfg) "remap" && has_rootMaterializer cfg.
Definition CapDropAll : bool := negb (String.eqb (UsernsMode cfg) "remap" || String.eqb (UsernsMode cfg) "native").
Definition rootfsProducerRuntime : string := first_of (ContainerRuntime cfg) "docker".
Definition floor_rules (ip : string) : list (list string) := Rules ip (EgressAllowCIDRs cfg).
Definition resources : Resources := mkResources (Z.shiftl (MemLimitMB cfg) 20) (NanoCPUs cfg) (PidsLimit cfg).
Definition secretsDir (id : string) : string := Join (SecretsRoot cfg) id.
Definition artifactsDir (id : string) : string := Join (ArtifactsRoot cfg) id.
Definition gitEnvDirFor (id : string) : string := Join (GitEnvRoot cfg) id.

(** ** Mounts *)

(** [finalizeMountDirs]: whether every mount was put away. *)
Definition finalize_one (f : MountFinalizer) : saga bool :=
  synced ← (if String.eqb (mf_SyncFrom f) "" then mret (Ok tt) else ask (Sync_mount (mf_SyncFrom f) (mf_HostDir f)));
  match synced with
  | Err _ => mret false
  | Ok _ =>
      r ← ask (Finalize (default ScratchBackend (mf_Backend f)) (mf_HostDir f));
      match r with
      | Err _ => mret false
      | Ok _ => (if String.eqb (mf_CleanupDir f) "" then mret tt else ignore (ask (Finalize ScratchBackend (mf_CleanupDir f))));;
                mret true
      end
  end.
Definition finalize_dir (dir : string) : saga bool :=
  r ← ask (Finalize ScratchBackend dir); mret (is_ok r).
Fixpoint all_of {A} (f : A -> saga bool) (l : list A) : saga bool :=
  match l with
  | [] => mret true
  | a :: l => b ← f a; b' ← all_of f l; mret (b && b')
  end.
Definition finalizeMountDirs (mountDirs : list string) (finalizers : list MountFinalizer) : handler unit :=
  b ← match finalizers with
      | [] => all_of finalize_dir mountDirs
      | _ => all_of finalize_one finalizers
      end;
  mret (if b : bool then Ok tt else Err (Failure "finalize mounts")).

(** What the mounts of a pod amount to, as they are prepared one by one. *)
Record mount_table := mkTable {
  mountDirs : list string; mountFinalizers : list MountFinalizer; journalMounts : list JournalMount; mounts : list Mount }.
Definition finalizeAll (t : mount_table) : saga unit := ignore (finalizeMountDirs (mountDirs t) (mountFinalizers t)).

(** A journaled mount comes back from the manifest pinned at the last suspend; a failure leaves the
    seeded directory. *)
Definition restore_mount (id : string) (jrec : option journalRecord) (jm : JournalMount) (restoreDir : string) : saga unit :=
  match jrec with
  | None => mret tt
  | Some rec =>
      match jr_Manifests rec !! jm_Name jm with
      | None => mret tt
      | Some pin =>
          ask (Progress "restoring_snapshot" ("restoring " +:+ jm_Name jm) "restore-snapshot");;
          restore ← (if is_sealed (jm_Class jm) && has_journalKeys cfg
                     then r ← ask (Wait_delivered id); mret (is_ok r) else mret true);
          if restore : bool then
            r ← ask (Restore_generation id (jr_Generation rec) (jm_Name jm) pin restoreDir);
            match r with
            | Err _ => mret tt
            | Ok _ => ignore (ask (Normalize_ownership restoreDir (if useRootMaterializer then -1 else agentRootUID)))
            end
          else mret tt
      end
  end.
Definition journal_mount (id : string) (jrec : option journalRecord) (jm : JournalMount) (restoreDir : string)
    : saga (list JournalMount) :=
  if has_journal cfg && Journaled (jm_Class jm) then
    (if is_sealed (jm_Class jm) && has_journalKeys cfg then ask (Mark_owner_sealed id) else mret tt);;
    restore_mount id jrec jm restoreDir;;
    mret [jm]
  else mret [].

(** Where a mount is bound from, and where its backend prepared it. *)
Definition materialized_dir (id name : string) : string := Join (Join (DataRoot cfg) id) name.
Definition prepare_dirs (id appPath : string) (backend : Backend) (mt : ManifestMount) : handler (string * string) :=
  let seedDir := if String.eqb (mm_Seed mt) "" then "" else Join appPath (mm_Seed mt) in
  if useRootMaterializer then
    preparedDir ←! wrap "prepare mount" (ask (Prepare backend id (mm_Name mt +:+ ".stage") seedDir (-1)));
    let hostDir := materialized_dir id (mm_Name mt) in
    if String.eqb (Clean preparedDir) (Clean hostDir) then
      _ ← ask (Finalize backend preparedDir);
      fail (Failure "prepare mount: root-materialized prepared dir must differ from bind target")
    else ok (preparedDir, hostDir)
  else
    hostDir ←! wrap "prepare mount" (ask (Prepare backend id (mm_Name mt) seedDir agentRootUID));
    ok (hostDir, hostDir).
Definition add_mount (t : mount_table) (backend : Backend) (preparedDir hostDir : string) (jms : list JournalMount)
    (mt : ManifestMount) : mount_table :=
  mkTable (mountDirs t ++ [hostDir])
    (mountFinalizers t ++
       [if useRootMaterializer then mkFinalizer preparedDir (Some backend) hostDir hostDir
        else mkFinalizer hostDir (Some backend) "" ""])
    (journalMounts t ++ jms)
    (mounts t ++ [mkMount hostDir ("/app/" +:+ mm_Path mt) false useRootMaterializer]).
(** One turn of the loop over the manifest's mounts, without [finalizeAll]. *)
Definition prepare_mount (id appPath : string) (jrec : option journalRecord) (bindings : gmap string MountBinding)
    (t : mount_table) (mt : ManifestMount) : handler mount_table :=
  let binding := binding_of bindings (mm_Name mt) in
  match ParseDurability (mm_Durability mt) with
  | None => fail (Failure "mount durability")
  | Some class =>
      if IsGitHubBackendURI (mb_BackendURI binding) && negb (Journaled class)
      then fail (Failure "mount github backend requires a journaled durability class")
      else
        wrap "mount backend" (ask (Resolve_binding binding));!
        let backend := Resolved binding in
        let hasPin := match jrec with Some rec => negb (is_none (jr_Manifests rec !! mm_Name mt)) | None => false end in
        ask (Set_restore_pending backend (Journaled class && hasPin));;
        dirs ←! prepare_dirs id appPath backend mt;
        let '(restoreDir, hostDir) := dirs : string * string in
        jms ← journal_mount id jrec (mkJournalMount (mm_Name mt) hostDir class) restoreDir;
        (if useRootMaterializer then
           or_cleanup (wrap "materialize mount" (ask (Materialize_root (AgentImage cfg) restoreDir hostDir (octal 7 7 7) (octal 6 6 6))))
             (ignore (ask (Finalize backend restoreDir));; ignore (ask (Finalize ScratchBackend hostDir)))
         else ok tt);!
        ok (add_mount t backend restoreDir hostDir jms mt)
  end.
Fixpoint prepare_mounts (id appPath : string) (jrec : option journalRecord) (bindings : gmap string MountBinding)
    (t : mount_table) (l : list ManifestMount) : handler mount_table :=
  match l with
  | [] => ok t
  | mt :: l =>
      t ←! or_cleanup (prepare_mount id appPath jrec bindings t mt) (finalizeAll t);
      prepare_mounts id appPath jrec bindings t l
  end.
(** [/app], read-only; root-owned under user-namespace remapping *)
Definition app_table (id appPath : string) : mount_table :=
  let appMountPath := if useRootMaterializer then materialized_dir id "app" else appPath in
  mkTable (if useRootMaterializer then [appMountPath] else [])
    (if useRootMaterializer then [mkFinalizer appMountPath (Some ScratchBackend) "" ""] else [])
    [] [mkMount appMountPath "/app" true useRootMaterializer].
Definition prepare_app (id appPath : string) : handler mount_table :=
  let dir := materialized_dir id "app" in
  (if useRootMaterializer then
     or_cleanup (wrap "materialize /app" (ask (Materialize_root (AgentImage cfg) appPath dir (octal 7 7 7) (octal 6 4 4))))
       (ignore (ask (Finalize ScratchBackend dir)))
   else ok tt);!
  ok (app_table id appPath).
Definition load_record (id : string) : saga (option journalRecord) :=
  if has_journal cfg then
    r ← ask (Journal_load id);
    mret (match r with Ok rec => rec | Err _ => None end)
  else mret None.

(** ** Building a pod *)

Definition cleanupSpawnDirs (id : string) : saga unit :=
  ignore (ask (Secrets_remove id));;
  ignore (ask (Artifacts_remove id));;
  ignore (ask (GitEnv_remove id));;
  ignore (ask (GithubCreds_remove id));;
  (if has_ghControl cfg then ask (Control_stop id) else mret tt).
Definition remove_floor (floorIP : string) : saga unit :=
  if String.eqb floorIP "" then mret tt else ignore (ask (Fw_remove (floor_rules floorIP))).
Definition cleanupPreStoreFailure (id : string) (t : mount_table) (h : option PodHandle) (floorIP : string) : saga unit :=
  (match h with Some h => ignore (ask (Stop_pod h)) | None => mret tt end);;
  remove_floor floorIP;;
  finalizeAll t;;
  cleanupSpawnDirs id.

(** The directories that are bound into the agent beside its mounts: the table with them. *)
Definition bind (t : mount_table) (mt : Mount) : mount_table :=
  mkTable (mountDirs t) (mountFinalizers t) (journalMounts t) (mounts t ++ [mt]).
Definition prepare_spawn_dirs (id : string) (t : mount_table) (sel : AgentSelection) : handler (mount_table * string) :=
  or_cleanup (wrap "prepare secrets dir" (ask (Secrets_mkdir id (secretsDir id) (octal 7 0 0)))) (finalizeAll t);!
  let cleanup := finalizeAll t;; cleanupSpawnDirs id in
  or_cleanup (wrap "prepare artifacts" (ask (Materialize_artifacts id (Artifacts sel)))) cleanup;!
  gitEnvDir ←! or_cleanup (wrap "prepare git-env" (ask (GitEnv_prepare id agentRootUID))) cleanup;
  ok (bind (bind (bind t (mkMount (secretsDir id) SecretsMountPath false false))
             (mkMount (artifactsDir id) ArtifactsMountPath false true))
        (mkMount gitEnvDir GitEnvMountPath false false), gitEnvDir).

Definition labels (id : string) (generation : Z) : gmap string string :=
  let l := {[ "spawnery.managed" := "true"; "spawnery.spawn-id" := id; "spawnery.generation" := Itoa generation ]} in
  if String.eqb (NodeID cfg) "" then l else <["spawnery.node-id" := NodeID cfg]> l.
Definition sidecar_addr : string := "127.0.0.1:" +:+ Itoa (SidecarPort cfg).
Definition pod_spec (id : string) (generation : Z) (controlToken : string) : PodSpec :=
  let bundle := negb (String.eqb (SidecarCABundleFile cfg) "") in
  let bundleDir := "/run/spawnery/sidecar-ca-bundle" in
  {| ps_ID := id; ps_SidecarImage := SidecarImage cfg;
     ps_SidecarEnv :=
       ["OPENROUTER_API_KEY=" +:+ OpenRouterKey cfg; "SIDECAR_ADDR=" +:+ sidecar_addr;
        "SIDECAR_CONTROL_TOKEN=" +:+ controlToken; "SIDECAR_CONTROL_ADDR=0.0.0.0:" +:+ Itoa (SidecarPort cfg + 1)] ++
       (if has_ghControl cfg then ["SIDECAR_GITHUB_PROXY_ADDR=" +:+ proxyAddr (SidecarPort cfg)] else []) ++
       (if bundle then ["SSL_CERT_FILE=" +:+ bundleDir +:+ "/" +:+ Base (SidecarCABundleFile cfg)] else []);
     ps_SidecarMounts := if bundle then [mkMount (Dir (SidecarCABundleFile cfg)) bundleDir true false] else [];
     ps_Resources := resources; ps_Runtime := ContainerRuntime cfg; ps_Labels := labels id generation |}.
Definition control_url (podIP : string) : string :=
  if String.eqb podIP "" then "" else "http://" +:+ JoinHostPort podIP (SidecarPort cfg + 1) +:+ "/control/model".

(** The agent's proxy, before it starts: its certificates and its environment. *)
Definition render_proxy (id gitEnvDir : string) : handler (list string) :=
  if has_ghControl cfg then
    caPEM ←! wrap "spawn CA cert" (ask (Spawn_CA_cert id));
    wrap "render git proxy" (ask (Render_git_proxy gitEnvDir (proxyAddr (SidecarPort cfg)) caPEM));!
    ok (agentGitProxyEnv (proxyAddr (SidecarPort cfg)))
  else ok [].
(** The egress floor, fail-closed: the address it is scoped to. *)
Definition apply_floor (h : PodHandle) : handler string :=
  if egressEnforced then
    require (negb (String.eqb (h_PodIP h) "")) (Failure "egress floor (fail-closed): no pod IP to scope the floor");!
    wrap "egress floor (fail-closed)" (ask (Fw_apply (floor_rules (h_PodIP h))));!
    ok (h_PodIP h)
  else ok "".

Definition base_ref (agentImage : string) (sel : AgentSelection) : string := first_of (sel_BaseImageDigest sel) agentImage.
Definition base_digest (agentImage : string) (sel : AgentSelection) : saga string :=
  if String.eqb (sel_BaseImageDigest sel) "" then
    r ← ask (Resolve_image_digest (base_ref agentImage sel));
    mret (match r with Ok dg => dg | Err _ => "" end)
  else mret (sel_BaseImageDigest sel).
(** One artifact of the chain is fetched, checked and imported on top of what came before it. *)
Fixpoint import_chain (id : string) (sourceGeneration : Z) (baseRef importBaseRef : string) (l : list RootfsArtifact)
    : handler unit :=
  match l with
  | [] => ok tt
  | art :: l =>
      ask (Progress "restore_rootfs" ("restoring rootfs artifact " +:+ ra_ArtifactID art) "restore-snapshot");;
      got ←! wrap "get artifact" (ask (Get_artifact id sourceGeneration (ra_ArtifactID art)));
      let '(desc, payload) := got : ArtifactDescriptor * string in
      let d := ad_Rootfs desc in
      require ((ra_Generation d =? 0) || (ra_Generation d =? sourceGeneration)) (Failure "journal returned artifact generation");!
      require (String.eqb (ra_BaseImageDigest d) "" || String.eqb (ra_BaseImageDigest d) baseRef)
        (Failure "journal returned artifact base digest");!
      wrap "import artifact" (ask (Import_delta id importBaseRef payload));!
      import_chain id sourceGeneration baseRef (DeltaTag id) l
  end.
Definition restoreRootfsArtifacts (id : string) (sourceGeneration : Z) (baseRef : string) (artifacts : list RootfsArtifact)
    : handler unit :=
  require (has_journal cfg) (Failure "rootfs artifact restore: no journaler configured");!
  artifacts ←! mret (sortedRootfsArtifactChain artifacts);
  mret (validateRootfsArtifactPins sourceGeneration baseRef artifacts);!
  import_chain id sourceGeneration baseRef baseRef artifacts.
(** The image the agent is launched from, with the chain it is made of. *)
Definition launch_image (id agentImage : string) (sel : AgentSelection) : handler (string * list RootfsArtifact) :=
  let baseRef := base_ref agentImage sel in
  let deltaRef := DeltaTag id in
  picked ←! match sel_RootfsArtifacts sel with
            | [] => ok ("", [])
            | _ =>
                artifacts ←! mret (sortedRootfsArtifactChain (sel_RootfsArtifacts sel));
                mret (validateRootfsArtifactPins (RootfsSourceGeneration sel) baseRef artifacts);!
                if RootfsArtifactsLocalOnly sel then
                  existing ←! wrap "ensure launch image" (ask (Ensure_image baseRef deltaRef));
                  require (String.eqb existing deltaRef) (Failure "missing local delta image");!
                  ok (existing, artifacts)
                else
                  ask (Progress "restoring_rootfs" "restoring rootfs" "restore-snapshot");;
                  restoreRootfsArtifacts id (RootfsSourceGeneration sel) baseRef artifacts;!
                  ok (deltaRef, artifacts)
            end;
  let '(launchImage, artifacts) := picked : string * list RootfsArtifact in
  ask (Progress "pulling_image" "ensuring base image is available" "pull-image");;
  if String.eqb launchImage "" then
    image ←! wrap "ensure launch image" (ask (Ensure_image baseRef deltaRef));
    ok (image, artifacts)
  else ok (launchImage, artifacts).

(** The gates before the untrusted agent: staged secrets, a reachable sidecar, delivered credentials. *)
Definition before_agent (id : string) (generation : Z) (h : PodHandle) (controlToken : string) (sel : AgentSelection)
    : handler unit :=
  let controlURL := control_url (h_PodIP h) in
  ask (Progress "starting_agent" "starting agent" "start-agent");;
  (if BeforeStartAgent sel then ask (Before_start_agent id generation controlURL controlToken) else ok tt);!
  (if has_ghControl cfg && negb (String.eqb (h_PodIP h) "")
   then wrap "sidecar readiness gate" (ask (Ready_probe (h_PodIP h) (SidecarPort cfg + 1))) else ok tt);!
  (if has_ghControl cfg && negb (String.eqb controlURL "")
   then wrap "github credential push (fail-closed)" (ask (Push_credentials id controlURL controlToken)) else ok tt).

Definition agent_spec (id : string) (generation : Z) (image : string) (cmd : list string) (model title : string)
    (gitProxyEnv : list string) (t : mount_table) : AgentSpec :=
  {| as_Image := image; as_Cmd := cmd;
     as_Env :=
       ["OPENAI_BASE_URL=http://" +:+ sidecar_addr +:+ "/v1"; "SPAWN_MODEL=" +:+ model;
        "SPAWN_SESSION_TITLE=" +:+ title; "GH_CONFIG_DIR=" +:+ SecretsMountPath +:+ "/github/gh";
        "GIT_CONFIG_GLOBAL=" +:+ GitEnvMountPath +:+ "/gitconfig"; "GIT_CONFIG_NOSYSTEM=1"; "GIT_TERMINAL_PROMPT=0";
        "GIT_ASKPASS=/bin/false"; "SECRET_WAIT_TIMEOUT=30s"] ++ gitProxyEnv;
     as_Mounts := mounts t; as_Resources := resources; as_Runtime := ContainerRuntime cfg;
     as_DropAllCaps := CapDropAll; as_Labels := labels id generation |}.
(** [StartAgent] leaves the agent's id on the handle, failed or not. *)
Definition start_agent (h : PodHandle) (spec : AgentSpec) : saga (PodHandle * option error) :=
  r ← ask (Start_agent h spec);
  mret (h <| h_AgentID := r.1 |>, r.2).

Fixpoint startJournalWatchers (id : string) (gen : Z) (jms : list JournalMount) : saga (list watcher) :=
  match jms with
  | [] => mret []
  | jm :: jms =>
      r ← (if has_journal cfg then ask (New_watcher (jm_HostDir jm)) else mret (Err (Failure "")));
      match r with
      | Err _ => startJournalWatchers id gen jms
      | Ok w => ask (Start_watcher w);; ws ← startJournalWatchers id gen jms; mret (w :: ws)
      end
  end.
Definition load_depth (id : string) : saga Z :=
  if DeltaCapture cfg then
    r ← ask (Delta_load id);
    mret (match r with Ok (Some depth) => depth | _ => 0 end)
  else mret 0.
Definition stop_watchers (ws : list watcher) : saga unit := each_of (fun w => ask (Stop_watcher w)) ws.

(** The pod from the sidecar to the running agent, with its cleanup on every failure. *)
Record started := mkStarted {
  st_Handle : PodHandle; st_FloorIP : string; st_ControlToken : string; st_BaseDigest : string;
  st_Image : string; st_Artifacts : list RootfsArtifact }.
Definition start_pod (id agentImage : string) (agentCmd : list string) (model title gitEnvDir : string) (generation : Z)
    (t : mount_table) (sel : AgentSelection) : handler started :=
  let cleanup := cleanupPreStoreFailure id t in
  controlToken ← ask New_control_token;
  h ←! or_cleanup (ask (Start_pod (pod_spec id generation controlToken))) (cleanup None "");
  (if has_ghControl cfg || egressEnforced
   then ask (Progress "setup_network" "configuring network" "setup-network") else mret tt);;
  gitProxyEnv ←! or_cleanup (render_proxy id gitEnvDir) (cleanup (Some h) "");
  floorIP ←! or_cleanup (apply_floor h) (cleanup (Some h) "");
  baseDigest ← base_digest agentImage sel;
  launch ←! or_cleanup (launch_image id agentImage sel) (cleanup (Some h) floorIP);
  or_cleanup (before_agent id generation h controlToken sel) (cleanup (Some h) floorIP);!
  r ← start_agent h (agent_spec id generation launch.1 agentCmd model title gitProxyEnv t);
  let '(h, err) := r : PodHandle * option error in
  match err with
  | Some e => cleanup (Some h) floorIP;; fail e
  | None => ok (mkStarted h floorIP controlToken baseDigest launch.1 launch.2)
  end.

Definition spawn_record (id ownerID : string) (generation : Z) (t : mount_table) (sel : AgentSelection) (s : started)
    (watchers : list watcher) (deltaDepth : Z) : Spawn :=
  let h := st_Handle s in
  {| ID := id; OwnerID := ownerID; Generation := generation; SidecarID := h_SidecarID h; AgentID := h_AgentID h;
     MountDirs := mountDirs t; MountBindings := Mounts sel; MountFinalizers := mountFinalizers t;
     JournalMounts := journalMounts t; MountTargets := mountTargetsOf (mounts t); journalWatchers := watchers;
     FloorIP := st_FloorIP s; PodIP := h_PodIP h; NetnsPath := h_NetnsPath h; SandboxID := h_SandboxID h;
     Status := "ready"; Mode := sel_Mode sel; ControlToken := st_ControlToken s; ControlURL := control_url (h_PodIP h);
     BaseImageDigest := st_BaseDigest s; LaunchImageRef := st_Image s; DeltaImageRef := ""; DeltaDepth := deltaDepth;
     RootfsArtifacts := st_Artifacts s |}.
(** The watchers start, and the record enters the store. *)
Definition commit_pod (id ownerID : string) (generation : Z) (reservation : option nat) (t : mount_table)
    (sel : AgentSelection) (s : started) : handler (nat * Spawn) :=
  watchers ← startJournalWatchers id generation (journalMounts t);
  depth ← load_depth id;
  let restored := maxRootfsArtifactSequence (st_Artifacts s) in
  let sp := spawn_record id ownerID generation t sel s watchers (if depth <? restored then restored else depth) in
  p ← atomic (new_spawn sp);
  if String.eqb ownerID "" then act (Put p);; ok (p, sp)
  else
    committed ← atomic (CommitOwner reservation p);
    if committed : bool then ok (p, sp)
    else
      stop_watchers watchers;;
      cleanupPreStoreFailure id t (Some (st_Handle s)) (st_FloorIP s);;
      fail (Failure "spawn ownership reservation was lost").

Definition createWithReservation (id appPath model name appID : string) (generation : Z) (ownerID : string)
    (reservation : option nat) (sel : AgentSelection) : handler (nat * Spawn) :=
  let agentImage := first_of (Image sel) (AgentImage cfg) in
  require (String.eqb (RunnableID sel) "" || bool_decide (RunnableID sel ∈ runnables)) (Failure "unknown runnable");!
  let agentCmd := if String.eqb (RunnableID sel) "" then [] else [RunnableID sel] in
  ask (Progress "preparing_mounts" "preparing mounts" "prepare-mounts");;
  abs ← ask (Abs appPath);
  let appPath := match abs with Ok p => p | Err _ => appPath end in
  mf ←! wrap "manifest" (ask (Parse_manifest appPath));
  bindings ←! mret (mountBindingsByName (man_Mounts mf) (Mounts sel));
  let title := sessionTitle name (first_of appID (man_ID mf)) in
  t0 ←! prepare_app id appPath;
  jrec ← load_record id;
  t ←! prepare_mounts id appPath jrec bindings t0 (man_Mounts mf);
  ask (Progress "creating_pod" "creating pod" "create-pod");;
  dirs ←! prepare_spawn_dirs id t sel;
  let '(t, gitEnvDir) := dirs : mount_table * string in
  s ←! start_pod id agentImage agentCmd model title gitEnvDir generation t sel;
  commit_pod id ownerID generation reservation t sel s.
Definition CreateWithSelection (id appPath model name appID : string) (generation : Z) (sel : AgentSelection) :=
  createWithReservation id appPath model name appID generation "" None sel.
Definition ReserveAuthorizedSpawn (id ownerID : string) (generation : Z) : handler nat :=
  require (negb (String.eqb ownerID "")) (Failure "authorized spawn owner is empty");!
  r ← atomic (ReserveOwner id ownerID generation);
  match r with Some p => ok p | None => fail (Failure "spawn is already reserved or live") end.
Definition CreateReservedWithSelection (reservation : option nat) (appPath model name appID : string) (sel : AgentSelection)
    : handler (nat * Spawn) :=
  owned ← read (OwnsReservation reservation);
  o ← read (reservation_of reservation);
  match o with
  | Some o =>
      if owned : bool
      then createWithReservation (r_id o) appPath model name appID (r_generation o) (r_owner o) reservation sel
      else fail (Failure "authorized spawn reservation is not current")
  | None => fail (Failure "authorized spawn reservation is not current")
  end.
(** A start holds its reservation until it returns. *)
Definition CreateAuthorizedWithSelection (id appPath model name appID : string) (generation : Z) (ownerID : string)
    (sel : AgentSelection) : handler (nat * Spawn) :=
  reservation ←! ReserveAuthorizedSpawn id ownerID generation;
  r ← CreateReservedWithSelection (Some reservation) appPath model name appID sel;
  act (ReleaseOwner (Some reservation));;
  mret r.

(** ** Saving a pod's work *)

(** [scrubForCapture] with [runDeltaScrub]: best-effort, and never a path that overlaps a mount. *)
Definition scrubForCapture (sp : Spawn) : saga unit :=
  if negb (DeltaCapture cfg) || String.eqb (AgentID sp) "" then mret tt
  else
    match (filterScrubPaths (DeltaScrubPaths cfg) (MountTargets sp)).1 with
    | [] => mret tt
    | paths => ignore (ask (Scrub (AgentID sp) paths))
    end.

(** The final snapshot of every journaled mount, and the record that pins them on this node. *)
Fixpoint snapshot_mounts (sp : Spawn) (jms : list JournalMount) (allIDs : gmap string string) : handler (gmap string string) :=
  match jms with
  | [] => ok allIDs
  | jm :: jms =>
      ask (Suspend_progress "snapshot" ("journaling mount " +:+ jm_Name jm) ∅);;
      ids ←! ask (Final_snapshot (ID sp) (Generation sp) jm);
      (if bool_decide (ids = ∅) then mret tt
       else ask (Suspend_progress "snapshot_done" ("journaled mount " +:+ jm_Name jm) ids));;
      snapshot_mounts sp jms (ids ∪ allIDs)
  end.
Definition snapshotJournal (sp : Spawn) : handler (gmap string string) :=
  allIDs ←! snapshot_mounts sp (JournalMounts sp) ∅;
  ignore (ask (Journal_save (ID sp) (mkJournalRecord (Generation sp) allIDs)));;
  ok allIDs.
Definition has_journal_mounts (sp : Spawn) : bool :=
  has_journal cfg && match JournalMounts sp with [] => false | _ => true end.

(** The inherited artifacts of a migration, copied under the spawn's own generation. *)
Fixpoint copy_artifacts (sp : Spawn) (l out : list RootfsArtifact) : handler (list RootfsArtifact) :=
  match l with
  | [] => ok out
  | art :: l =>
      require (negb (String.eqb (ra_ArtifactID art) "")) (Failure "inherited artifact has empty artifact id");!
      if (ra_Generation art =? 0) || (ra_Generation art =? Generation sp) then
        copy_artifacts sp l (out ++ [mkRootfs (ra_ArtifactID art) (Generation sp) (ra_Sequence art) (ra_BaseImageDigest art)
          (ra_Format art) (ra_ContentDigest art) (ra_UncompressedSize art) (ra_ProducerNodeID art) (ra_ProducerRuntime art)])
      else
        got ←! wrap "get inherited artifact" (ask (Get_artifact (ID sp) (ra_Generation art) (ra_ArtifactID art)));
        let '(desc, payload) := got : ArtifactDescriptor * string in
        stored ←! wrap "put inherited artifact"
          (ask (Put_artifact (ID sp) (Generation sp)
                  (forkRootfsCopyDescriptor desc art (BaseImageDigest sp) (NodeID cfg) rootfsProducerRuntime) payload));
        copy_artifacts sp l (out ++ [ad_Rootfs stored])
  end.
Definition rootfsArtifactsForMigrationGeneration (sp : Spawn) : handler (list RootfsArtifact) :=
  artifacts ←! mret (sortedPortableRootfsArtifacts (DeltaDepth sp - 1) (RootfsArtifacts sp));
  copy_artifacts sp artifacts [].
(** The chain that is kept when the last step fails, with that failure. *)
Definition export_chain (sp : Spawn) : saga (list RootfsArtifact * option error) :=
  if negb (has_journal cfg) then mret ([], Some (Failure "rootfs artifact capture: no journaler configured"))
  else
    r ← rootfsArtifactsForMigrationGeneration sp;
    match r with
    | Err e => mret ([], Some e)
    | Ok inherited =>
        ask (Suspend_progress "export" "exporting rootfs delta artifact" ∅);;
        payload ← ask (Export_delta (ID sp));
        match payload with
        | Err e => mret (inherited, Some (Because "export delta" e))
        | Ok payload =>
            let desc := mkDescriptor "rootfs_delta"
              (mkRootfs "" 0 (DeltaDepth sp) (BaseImageDigest sp) "oci_layout" "" 0 (NodeID cfg) rootfsProducerRuntime) in
            stored ← ask (Put_artifact (ID sp) (Generation sp) desc payload);
            match stored with
            | Err e => mret (inherited, Some (Because "put artifact" e))
            | Ok stored => mret (inherited ++ [ad_Rootfs stored], None)
            end
        end
    end.
(** The rootfs delta is committed before the container goes; only a migration minds a failure. *)
Definition capture_rootfs (sp : Spawn) (captureRootfsArtifact : bool) : saga (list RootfsArtifact * option error) :=
  if negb (DeltaCapture cfg) || String.eqb (AgentID sp) "" then mret ([], None)
  else
    ask (Suspend_progress "capture" "committing rootfs delta" ∅);;
    r ← ask (Capture_delta (mkHandle "" "" (SidecarID sp) (AgentID sp) "" (ID sp) (LaunchImageRef sp)));
    match r with
    | Err e => mret ([], if captureRootfsArtifact then Some (Because "capture delta" e) else None)
    | Ok ref =>
        let sp := sp <| DeltaImageRef := ref |> <| DeltaDepth ::= fun d => d + 1 |> in
        ignore (ask (Delta_save (ID sp) (DeltaDepth sp)));;
        if captureRootfsArtifact then export_chain sp else mret ([], None)
    end.

(** ** Tearing a pod down *)

Definition pod_handle (sp : Spawn) : PodHandle := mkHandle "" "" (SidecarID sp) (AgentID sp) (SandboxID sp) "" "".
Definition take_watchers (p : nat) : saga unit := ws ← atomic (takeWatchers p); stop_watchers ws.
Definition snapshot_at_stop (sp : Spawn) (snapshot : bool) : saga (gmap string string) :=
  if has_journal_mounts sp then
    markers ← (if snapshot then r ← snapshotJournal sp; mret (match r with Ok ms => ms | Err _ => ∅ end) else mret ∅);
    _ ← ask (Journal_close (ID sp));
    mret markers
  else mret ∅.
Definition release_state (id : string) : saga unit :=
  ignore (ask (Release_delta id));;
  ignore (ask (Delta_delete id));;
  (if has_journal cfg then ignore (ask (Journal_delete id)) else mret tt).
(** The pod of a record that its caller has claimed. *)
Definition teardown (p : nat) (sp : Spawn) (capture gc captureRootfsArtifact snapshot : bool)
    : saga (SuspendResult * option error) :=
  take_watchers p;;
  captured ← (if capture then capture_rootfs sp captureRootfsArtifact else mret ([], None));
  ask (Suspend_progress "stop" "stopping pod" ∅);;
  ignore (ask (Stop_pod (pod_handle sp)));;
  remove_floor (FloorIP sp);;
  markers ← snapshot_at_stop sp snapshot;
  ask (Suspend_progress "finalize" "finalizing mount dirs" ∅);;
  fin ← finalizeMountDirs (MountDirs sp) (MountFinalizers sp);
  cleanupSpawnDirs (ID sp);;
  (if gc then release_state (ID sp) else mret tt);;
  mret (mkSuspendResult markers captured.1,
        match fin with Err e => Some (match captured.2 with Some c => Because "finalize mounts" c | None => e end)
        | Ok _ => captured.2 end).

(** ** Calls of the node *)

Definition claimed {A} (id : string) (k : nat -> Spawn -> handler A) : handler A :=
  c ← atomic (Claim id);
  match c with
  | None => fail (Failure "unknown spawn")
  | Some (p, sp) => k p sp
  end.
Definition finished (r : SuspendResult * option error) : result error SuspendResult :=
  match r.2 with Some e => Err e | None => Ok r.1 end.
Definition Stop (id : string) : handler unit :=
  claimed id (fun p sp => _ ← teardown p sp false false false true; ok tt).
Definition Delete (id : string) : handler unit :=
  claimed id (fun p sp => _ ← teardown p sp false true false true; ok tt).
Definition SuspendForMigration (id : string) (captureRootfsArtifact : bool) : handler SuspendResult :=
  claimed id (fun p sp =>
    scrubForCapture sp;;
    r ← teardown p sp true false captureRootfsArtifact true; mret (finished r)).
Definition Suspend (id : string) : handler (gmap string string) :=
  claimed id (fun p sp =>
    scrubForCapture sp;;
    r ← teardown p sp true false false true;
    mret (match r.2 with Some e => Err e | None => Ok (MountMarkers r.1) end)).
Definition FinishSuspend (id : string) (captureRootfsArtifact : bool) : handler SuspendResult :=
  claimed id (fun p sp => r ← teardown p sp true false captureRootfsArtifact false; mret (finished r)).

Definition agent_handle (sp : Spawn) : PodHandle :=
  mkHandle (PodIP sp) (NetnsPath sp) (SidecarID sp) (AgentID sp) (SandboxID sp) "" "".
(** The gate of a suspend: the agent is frozen and its mounts are saved, or it goes on as before. *)
Definition SnapshotForSuspend (id : string) : handler SuspendResult :=
  g ← read (Get id);
  match g with
  | None => fail (Failure "unknown spawn")
  | Some (p, sp) =>
      take_watchers p;;
      ask (Suspend_progress "gate" "scrubbing delta paths" ∅);;
      scrubForCapture sp;;
      ask (Suspend_progress "gate" "pausing agent" ∅);;
      ignore (ask (Pause (agent_handle sp)));;
      if has_journal_mounts sp then
        r ← snapshotJournal sp;
        match r with
        | Err e =>
            ignore (ask (Unpause (agent_handle sp)));;
            ws ← startJournalWatchers (ID sp) (Generation sp) (JournalMounts sp);
            act (setWatchers p ws);;
            fail (Because "suspend gate: journal final snapshot" e)
        | Ok markers => ok (mkSuspendResult markers [])
        end
      else ok (mkSuspendResult ∅ [])
  end.

Definition StopAll : saga nat :=
  sps ← read List_;
  each_of (fun e => ignore (Stop (ID e.2))) sps;;
  mret (length sps).
Definition DetachAll : saga nat :=
  sps ← read List_;
  each_of (fun e => take_watchers e.1) sps;;
  mret (length sps).
Definition DetachSpawn (id : string) : saga (list watcher) :=
  c ← atomic (Claim id);
  match c with
  | None => mret []
  | Some (p, _) => atomic (takeWatchers p)
  end.
Definition InjectSecret (spawnID target plaintext : string) : handler string :=
  g ← read (Get spawnID);
  if is_none g then fail (Failure "unknown spawn") else ask (Secrets_write spawnID target plaintext).
Definition CleanupSpawnTransient (spawnID : string) : saga unit := cleanupSpawnDirs spawnID.
Definition HasJournalPins (id : string) : saga bool :=
  rec ← load_record id;
  mret (match rec with Some r => negb (bool_decide (jr_Manifests r = ∅)) | None => false end).

(** ** Re-adoption after a restart (adopt.go) *)

(** Where a backend would prepare a mount, without preparing it ([Backend.HostDir]). *)
Context (HostDir : Backend -> string -> string -> string).

Definition UntrackedPods : handler (list ManagedPod) :=
  managed ←! ask List_managed;
  alive ← read (fun n id => negb (is_none (Get id n)));
  ok (filter (fun mp => (negb (String.eqb (mp_NodeID mp) "") && negb (String.eqb (mp_NodeID mp) (NodeID cfg))) = false
                        /\ alive (mp_SpawnID mp) = false) managed).
Definition ReapPod (mp : ManagedPod) : handler unit :=
  (if DeltaCapture cfg && negb (String.eqb (mp_AgentID mp) "")
   then ignore (ask (Capture_delta (mkHandle "" "" "" (mp_AgentID mp) "" (mp_SpawnID mp) "")))
   else mret tt);;
  r ← ask (Stop_pod (mkHandle "" "" (mp_SidecarID mp) (mp_AgentID mp) (mp_SandboxID mp) "" ""));
  (if egressEnforced && negb (String.eqb (mp_PodIP mp) "") then ignore (ask (Fw_remove (floor_rules (mp_PodIP mp)))) else mret tt);;
  (if has_ghControl cfg then ask (Control_stop (mp_SpawnID mp)) else mret tt);;
  mret r.

Record AdoptSpec := {
  AppRef : string; ad_OwnerID : string; ad_Image : string; ad_Mode : string; ad_Generation : Z;
  ad_Mounts : list MountBinding; ad_BaseImageDigest : string }.
(** One mount of [adoptMountTable]. *)
Definition adopt_mount (id : string) (bindings : gmap string MountBinding) (t : mount_table) (mt : ManifestMount)
    : handler mount_table :=
  let binding := binding_of bindings (mm_Name mt) in
  match ParseDurability (mm_Durability mt) with
  | None => fail (Failure "mount durability")
  | Some class =>
      wrap "mount backend" (ask (Resolve_binding binding));!
      let backend := Resolved binding in
      let '(preparedDir, hostDir) :=
        if useRootMaterializer then (HostDir backend id (mm_Name mt +:+ ".stage"), materialized_dir id (mm_Name mt))
        else (HostDir backend id (mm_Name mt), HostDir backend id (mm_Name mt)) in
      ok (mkTable (mountDirs t ++ [hostDir])
            (mountFinalizers t ++
               [if useRootMaterializer then mkFinalizer preparedDir (Some backend) hostDir hostDir
                else mkFinalizer hostDir (Some backend) "" ""])
            (journalMounts t ++
               (if has_journal cfg && Journaled class then [mkJournalMount (mm_Name mt) hostDir class] else []))
            (mounts t ++ [mkMount hostDir ("/app/" +:+ mm_Path mt) false false]))
  end.
Fixpoint adopt_mounts (id : string) (bindings : gmap string MountBinding) (t : mount_table) (l : list ManifestMount)
    : handler mount_table :=
  match l with
  | [] => ok t
  | mt :: l => t ←! adopt_mount id bindings t mt; adopt_mounts id bindings t l
  end.
Definition adopt_app (id appPath : string) : mount_table :=
  let appMountPath := if useRootMaterializer then materialized_dir id "app" else appPath in
  mkTable (if useRootMaterializer then [appMountPath] else [])
    (if useRootMaterializer then [mkFinalizer appMountPath (Some ScratchBackend) "" ""] else [])
    [] [mkMount appMountPath "/app" true false].
Definition adoptMountTable (id : string) (spec : AdoptSpec) : handler mount_table :=
  abs ← ask (Abs (AppRef spec));
  let appPath := match abs with Ok p => p | Err _ => AppRef spec end in
  mf ←! wrap "manifest" (ask (Parse_manifest appPath));
  bindings ←! mret (mountBindingsByName (man_Mounts mf) (ad_Mounts spec));
  t ←! adopt_mounts id bindings (adopt_app id appPath) (man_Mounts mf);
  ok (bind (bind (bind t (mkMount (secretsDir id) SecretsMountPath false false))
             (mkMount (artifactsDir id) ArtifactsMountPath false false))
        (mkMount (gitEnvDirFor id) GitEnvMountPath false false)).

(** The first entry of a name that has one. *)
Fixpoint envMap (env : list string) : gmap string string :=
  match env with
  | [] => ∅
  | e :: env =>
      match String.index 0 "=" e with
      | Some i => <[String.substring 0 i e := String.substring (S i) (String.length e - S i) e]> (envMap env)
      | None => envMap env
      end
  end.
(** The floor of the pod that was left behind is replaced, then what the sidecar knows is read back. *)
Definition adopt_floor (mp : ManagedPod) : handler string :=
  if egressEnforced then
    ignore (ask (Fw_remove (floor_rules (mp_PodIP mp))));;
    wrap "egress floor (fail-closed)" (ask (Fw_apply (floor_rules (mp_PodIP mp))));!
    ok (mp_PodIP mp)
  else ok "".
Definition adopt_control (mp : ManagedPod) : handler string :=
  env ←! wrap "read sidecar env" (ask (Container_env (mp_SidecarID mp)));
  let controlToken := default "" (envMap env !! "SIDECAR_CONTROL_TOKEN") in
  require (negb (String.eqb controlToken "")) (Failure "sidecar env has no control token");!
  (if has_ghControl cfg then
     gitEnvDir ←! wrap "prepare git-env" (ask (GitEnv_prepare (mp_SpawnID mp) agentRootUID));
     caPEM ←! wrap "spawn CA cert" (ask (Spawn_CA_cert (mp_SpawnID mp)));
     wrap "render git proxy" (ask (Render_git_proxy gitEnvDir (proxyAddr (SidecarPort cfg)) caPEM))
   else ok tt);!
  ok controlToken.
Definition adopted_record (mp : ManagedPod) (spec : AdoptSpec) (t : mount_table) (floorIP controlToken : string)
    (deltaDepth : Z) : Spawn :=
  {| ID := mp_SpawnID mp; OwnerID := ad_OwnerID spec; Generation := mp_Generation mp; SidecarID := mp_SidecarID mp;
     AgentID := mp_AgentID mp; MountDirs := mountDirs t; MountBindings := ad_Mounts spec;
     MountFinalizers := mountFinalizers t; JournalMounts := journalMounts t; MountTargets := mountTargetsOf (mounts t);
     journalWatchers := []; FloorIP := floorIP; PodIP := mp_PodIP mp; NetnsPath := ""; SandboxID := mp_SandboxID mp;
     Status := "ready"; Mode := ad_Mode spec; ControlToken := controlToken; ControlURL := control_url (mp_PodIP mp);
     BaseImageDigest := ad_BaseImageDigest spec;
     LaunchImageRef := first_of (ad_BaseImageDigest spec) (first_of (ad_Image spec) (AgentImage cfg));
     DeltaImageRef := ""; DeltaDepth := deltaDepth; RootfsArtifacts := [] |}.
Definition Adopt (mp : ManagedPod) (spec : AdoptSpec) : handler (nat * Spawn) :=
  let id := mp_SpawnID mp in
  require ((ad_Generation spec =? 0) || (ad_Generation spec =? mp_Generation mp)) (Failure "stale decision");!
  require (negb (String.eqb (mp_AgentID mp) "")) (Failure "pod has no agent container");!
  require (negb (String.eqb (mp_PodIP mp) "")) (Failure "pod has no IP");!
  t ←! wrap "adopt" (adoptMountTable id spec);
  (if has_journalKeys cfg && existsb (fun jm => is_sealed (jm_Class jm)) (journalMounts t)
   then ask (Mark_owner_sealed id) else mret tt);;
  floorIP ←! adopt_floor mp;
  controlToken ←! or_cleanup (adopt_control mp) (remove_floor floorIP);
  depth ← load_depth id;
  let sp := adopted_record mp spec t floorIP controlToken depth in
  ws ← startJournalWatchers id (mp_Generation mp) (journalMounts t);
  p ← atomic (new_spawn (sp <| journalWatchers := ws |>));
  act (Put p);;
  ok (p, sp <| journalWatchers := ws |>).
End Manager.
