(* ===== verification/SpawnStore.v ===== *)
(** * The spawn ledger: src/internal/cp/store/spawns.go

    [spawnRepo] keeps one row per spawn (its durable lifecycle status, its optimistic
    concurrency counter [StatusSeq] and its claim columns), one row per running episode
    ([Container], keyed by spawn and generation) and one row per mount.  Each Go method is a
    definition below, statement by statement; the tables are those of [Database]. *)

From S2P Require Import Prelude GoLib Database.
(** ** Data: src/internal/cp/store/types.go *)

Inductive Status :=
| Starting | Active | Suspending | Suspended | Resuming | Forking | Unreachable | Errored | Deleted.

Inductive Phase := PhaseStarting | PhaseActive | PhaseSuspending | PhaseStopped | PhaseLost.

Inductive GitHubCredentialStatus := GitHubCredUnset | GitHubCredOK | GitHubCredStale
| GitHubCredRelinkRequired.

#[export] Instance Status_eq_dec : EqDecision Status.
Proof. solve_decision. Defined.
#[export] Instance Phase_eq_dec : EqDecision Phase.
Proof. solve_decision. Defined.

Definition transientStatuses : list Status := [Suspending; Resuming; Forking].

(** A row of [spawns], without its primary key [ID] (the key of the table). *)
Record Spawn := mkSpawn {
  OwnerID : string;
  Name : string;
  AppID : string;
  AppVersion : string;
  AppRef : string;
  Pinned : bool;
  Model : string;
  Image : string;
  RunnableID : string;
  Mode : string;
  SpawnStatus : Status;
  Recovered : bool;
  ModelApplied : bool;
  ModelApplyDetail : string;
  BaseImageDigest : string;
  GitHubCredStatus : GitHubCredentialStatus;
  ProfileID : string;
  ProfileVersion : Z;
  CreatedAt : Z;
  LastUsedAt : Z;
  SuspendedAt : option Z;
  DeletedAt : option Z;
  StatusSeq : Z;
  ClaimHolder : option string;
  ClaimLeaseID : option string;
  ClaimDeadline : option Z;
  ForkCaptureDeadline : option Z;
  ParentSpawnID : option string;
  ForkedAt : option Z;
  ErrorStep : string;
  ErrorDetail : string
}.
#[export] Instance eta_Spawn : Eta Spawn := fun r =>
  mkSpawn (OwnerID r) (Name r) (AppID r) (AppVersion r) (AppRef r) (Pinned r) (Model r) (Image r)
    (RunnableID r) (Mode r) (SpawnStatus r) (Recovered r) (ModelApplied r) (ModelApplyDetail r)
    (BaseImageDigest r) (GitHubCredStatus r) (ProfileID r) (ProfileVersion r) (CreatedAt r)
    (LastUsedAt r) (SuspendedAt r) (DeletedAt r) (StatusSeq r) (ClaimHolder r) (ClaimLeaseID r)
    (ClaimDeadline r) (ForkCaptureDeadline r) (ParentSpawnID r) (ForkedAt r) (ErrorStep r)
    (ErrorDetail r).

(** A row of [spawn_containers]; the primary key is (spawn id, generation). *)
Record Container := mkContainer {
  NodeID : string;
  ContainerPhase : Phase;
  StartedAt : Z;
  EndedAt : option Z
}.
#[export] Instance eta_Container : Eta Container := fun r =>
  mkContainer (NodeID r) (ContainerPhase r) (StartedAt r) (EndedAt r).

(** A row of [spawn_mounts]; the primary key is (spawn id, name). *)
Record Mount := mkMount {
  BackendURI : string;
  CredentialSecretID : string;
  CreateIfMissing : bool;
  RepositoryID : string;
  PersistMarker : option string
}.
#[export] Instance eta_Mount : Eta Mount := fun r =>
  mkMount (BackendURI r) (CredentialSecretID r) (CreateIfMissing r) (RepositoryID r)
    (PersistMarker r).

(** A row of [spawn_artifacts]; the primary key is (spawn id, artifact id). *)
Record Artifact := mkArtifact {
  Inline : option bytes;
  ContentType : Z;
  TargetContainer : Z;
  DestPath : string;
  FileMode : Z;
  Sensitive : bool;
  EnvVarName : string;
  ObjectKey : string;
  ObjectSHA256 : string
}.

(** A row of [migration_transfer_sets], whose JSON columns hold the pins (TransferSets.v has its
    repository). *)
Inductive TransferSetStatus :=
| TransferSetPending | TransferSetCapturing | TransferSetKeyDeliveryPending
| TransferSetRestoring | TransferSetActive | TransferSetFailed.
Inductive TransferSetKind := TransferSetMigration | TransferSetFork.
Inductive TransferKeyStatus := TransferKeyPending | TransferKeySourceReady | TransferKeyTargetReady.
#[export] Instance TransferSetStatus_eq_dec : EqDecision TransferSetStatus.
Proof. solve_decision. Defined.
#[export] Instance TransferSetKind_eq_dec : EqDecision TransferSetKind.
Proof. solve_decision. Defined.

Record RootfsArtifactPin := mkPin {
  ArtifactID : string;
  ArtifactType : string;
  pin_Generation : Z;
  Sequence : Z;
  pin_BaseImageDigest : string;
  Format : string;
  ContentDigest : string;
  UncompressedSize : Z
}.

Record TransferSet := mkTransferSet {
  Kind : TransferSetKind;
  ts_SpawnID : string;
  SourceSpawnID : string;
  ForkSpawnID : string;
  SourceGeneration : Z;
  TargetGeneration : Z;
  SourceNodeID : string;
  TargetNodeID : string;
  ts_BaseImageDigest : string;
  MountManifestPins : gmap string string;
  RootfsArtifactPins : list RootfsArtifactPin;
  KeyStatus : TransferKeyStatus;
  ts_Status : TransferSetStatus;
  ts_CreatedAt : Z;
  UpdatedAt : Z
}.
#[export] Instance eta_TransferSet : Eta TransferSet := fun r =>
  mkTransferSet (Kind r) (ts_SpawnID r) (SourceSpawnID r) (ForkSpawnID r) (SourceGeneration r)
    (TargetGeneration r) (SourceNodeID r) (TargetNodeID r) (ts_BaseImageDigest r)
    (MountManifestPins r) (RootfsArtifactPins r) (KeyStatus r) (ts_Status r) (ts_CreatedAt r)
    (UpdatedAt r).

(** The tables the repositories read and write.  [app_versions] and [app_version_mounts] are
    only read here, by their keys. *)
Record Tables := mkTables {
  spawns : gmap string Spawn;
  spawn_containers : gmap (string * Z) Container;
  spawn_mounts : gmap (string * string) Mount;
  spawn_artifacts : gmap (string * string) Artifact;
  transfer_sets : gmap string TransferSet;
  app_versions : gset (string * string);
  app_version_mounts : gset (string * string * string)
}.
#[export] Instance eta_Tables : Eta Tables := fun r =>
  mkTables (spawns r) (spawn_containers r) (spawn_mounts r) (spawn_artifacts r) (transfer_sets r)
    (app_versions r) (app_version_mounts r).

(** The errors a method can return. *)
Inductive StoreErr :=
| ErrNotFound
| ErrConflict
| ErrClaimLost
| ErrNoAppVersion (app version : string)
| ErrMountNotDeclared (mount app version : string)
| ErrConstraint (what : string)
| ErrInvalid (what : string)
| ErrDriver (msg : string).

Abbreviation DB := (SQL Tables StoreErr).
Abbreviation stmt := (Database.stmt ErrDriver).
Abbreviation run_in_tx := (Database.run_in_tx ErrDriver).

(** ** Statements *)

Definition exec_spawns (p : Tables -> string -> Spawn -> bool) (f : Spawn -> Spawn) : DB Z :=
  stmt (fun d => (Ok (count_where (p d) (spawns d)), d <| spawns ::= update_where (p d) f |>)).
Definition exec_containers (p : string * Z -> Container -> bool) (f : Container -> Container)
    : DB Z :=
  stmt (fun d => (Ok (count_where p (spawn_containers d)),
                  d <| spawn_containers ::= update_where p f |>)).
Definition exec_mounts (p : string * string -> Mount -> bool) (f : Mount -> Mount) : DB Z :=
  stmt (fun d => (Ok (count_where p (spawn_mounts d)), d <| spawn_mounts ::= update_where p f |>)).
Definition query {A} (q : Tables -> A) : DB A := stmt (fun d => (Ok (q d), d)).

(** [ended_at IS NULL] *)
Definition is_live (c : Container) : bool := is_none (EndedAt c).
(** [spawn_id = ? AND ended_at IS NULL], and the same with [generation = ?]. *)
Definition live_of (id : string) (k : string * Z) (c : Container) : bool :=
  String.eqb k.1 id && is_live c.
Definition live_at (id : string) (gen : Z) (k : string * Z) (c : Container) : bool :=
  String.eqb k.1 id && (k.2 =? gen) && is_live c.

(** Inserts: a duplicate primary key, or a second live episode (the partial unique index
    uniq_live_container), is a constraint error. *)
Definition insert_spawn (id : string) (s : Spawn) : DB unit :=
  stmt (fun d => match spawns d !! id with
                 | Some _ => (Err (ErrConstraint "spawns pk"), d)
                 | None => (Ok tt, d <| spawns ::= <[id := s]> |>)
                 end).
Definition insert_container (k : string * Z) (c : Container) : DB unit :=
  stmt (fun d => match spawn_containers d !! k with
                 | Some _ => (Err (ErrConstraint "spawn_containers pk"), d)
                 | None =>
                     if is_live c && (0 <? count_where (live_of k.1) (spawn_containers d))
                     then (Err (ErrConstraint "uniq_live_container"), d)
                     else (Ok tt, d <| spawn_containers ::= <[k := c]> |>)
                 end).
Definition insert_mount (k : string * string) (m : Mount) : DB unit :=
  stmt (fun d => match spawn_mounts d !! k with
                 | Some _ => (Err (ErrConstraint "spawn_mounts pk"), d)
                 | None => (Ok tt, d <| spawn_mounts ::= <[k := m]> |>)
                 end).

(** [if n, _ := res.RowsAffected(); n != 1 { return err }] *)
Definition expect_one (e : StoreErr) (n : Z) : DB unit :=
  if n =? 1 then mret tt else throw e.

(** ** Reading *)

Definition not_deleted (s : Spawn) : bool := bool_decide (SpawnStatus s <> Deleted).
Definition status_in (from : list Status) (s : Spawn) : bool :=
  bool_decide (SpawnStatus s ∈ from).

Definition CountByStatus : DB (list (Status * Z)) :=
  query (fun d =>
    filter (fun sc : Status * Z => 0 < sc.2)
      ((fun st => (st, count_where (fun _ s => bool_decide (SpawnStatus s = st) && not_deleted s)
                         (spawns d)))
       <$> [Starting; Active; Suspending; Suspended; Resuming; Forking; Unreachable; Errored;
            Deleted])).

Definition Get (id : string) : DB Spawn :=
  rows ← query (fun d => select_where (fun k s => String.eqb k id && not_deleted s) (spawns d));
  match rows with
  | [] => throw ErrNotFound
  | (_, s) :: _ => mret s
  end.

Definition LiveContainer (id : string) : DB (option ((string * Z) * Container)) :=
  rows ← query (fun d => select_where (live_of id) (spawn_containers d));
  mret (head rows).

(** [ORDER BY generation DESC] *)
Definition by_gen_desc (a b : (string * Z) * Container) : Prop := b.1.2 <= a.1.2.
#[export] Instance by_gen_desc_dec a b : Decision (by_gen_desc a b).
Proof. unfold by_gen_desc. solve_decision. Defined.
Definition LatestContainer (id : string) : DB (option ((string * Z) * Container)) :=
  rows ← query (fun d => select_where (fun k _ => String.eqb k.1 id) (spawn_containers d));
  mret (head (merge_sort by_gen_desc rows)).

Definition by_name (a b : (string * string) * Mount) : Prop := String.leb a.1.2 b.1.2 = true.
#[export] Instance by_name_dec a b : Decision (by_name a b).
Proof. unfold by_name. solve_decision. Defined.
Definition GetMounts (id : string) : DB (list ((string * string) * Mount)) :=
  rows ← query (fun d => select_where (fun k _ => String.eqb k.1 id) (spawn_mounts d));
  mret (merge_sort by_name rows).

(** [ORDER BY last_used_at DESC] *)
Definition by_used_desc (a b : string * Spawn) : Prop := LastUsedAt b.2 <= LastUsedAt a.2.
#[export] Instance by_used_desc_dec a b : Decision (by_used_desc a b).
Proof. unfold by_used_desc. solve_decision. Defined.
Definition ListByOwner (ownerID : string) : DB (list (string * Spawn)) :=
  rows ← query (fun d =>
    select_where (fun _ s => String.eqb (OwnerID s) ownerID && not_deleted s) (spawns d));
  mret (merge_sort by_used_desc rows).

Definition ListUnappliedModel : DB (list (string * Spawn)) :=
  query (fun d => select_where (fun _ s => negb (ModelApplied s) && not_deleted s) (spawns d)).

Definition by_id (a b : string * Spawn) : Prop := String.leb a.1 b.1 = true.
#[export] Instance by_id_dec a b : Decision (by_id a b).
Proof. unfold by_id. solve_decision. Defined.

(** [(claim_holder IS NULL OR claim_deadline < ?)] *)
Definition claim_free (nowTS : Z) (s : Spawn) : bool :=
  is_none (ClaimHolder s) || opt_ltb (ClaimDeadline s) nowTS.
(** ... [OR (fork_capture_deadline IS NOT NULL AND fork_capture_deadline < ?)] *)
Definition fork_recoverable (nowTS : Z) (s : Spawn) : bool :=
  claim_free nowTS s || opt_ltb (ForkCaptureDeadline s) nowTS.

Definition ListStranded (nowTS : Z) : DB (list (string * Spawn)) :=
  rows ← query (fun d =>
    select_where (fun _ s => status_in transientStatuses s && claim_free nowTS s) (spawns d));
  mret (merge_sort by_id rows).

Definition ListRecoverableForking (nowTS : Z) : DB (list (string * Spawn)) :=
  rows ← query (fun d =>
    select_where (fun _ s => status_in [Forking] s && fork_recoverable nowTS s) (spawns d));
  mret (merge_sort by_id rows).

Definition ListLiveByProfileIDs (profileIDs : list string) : DB (list (string * Spawn)) :=
  match profileIDs with
  | [] => mret []
  | _ =>
    rows ← query (fun d =>
      select_where (fun _ s => bool_decide (ProfileID s ∈ profileIDs) && not_deleted s) (spawns d));
    mret (merge_sort by_id rows)
  end.

Definition LiveContainersByNode (nodeID : string) : DB (list ((string * Z) * Container)) :=
  query (fun d =>
    select_where (fun _ c => String.eqb (NodeID c) nodeID && is_live c) (spawn_containers d)).

(** [SELECT MAX(generation) ... WHERE spawn_id = ?], 0 when there is no row. *)
Definition max_gen (id : string) (d : Tables) : Z :=
  match select_where (fun k _ => String.eqb k.1 id) (spawn_containers d) with
  | [] => 0
  | (k, _) :: rows => foldr (fun kc m => Z.max kc.1.2 m) k.2 rows
  end.
Definition maxGen (id : string) : DB Z := query (max_gen id).

Definition lastUsedTS (id : string) : DB Z :=
  rows ← query (fun d => select_where (fun k _ => String.eqb k id) (spawns d));
  match rows with
  | [] => throw (ErrDriver "sql: no rows in result set")
  | (_, s) :: _ => mret (LastUsedAt s)
  end.

(** ** Single-row updates *)

Definition id_is (id k : string) : bool := String.eqb k id.

Definition Rename (id name : string) : DB unit :=
  exec_spawns (fun _ k s => id_is id k && not_deleted s) (fun s => s <| Name := name |>)
    ≫= expect_one ErrNotFound.

Definition SetBaseImageDigest (id digest : string) : DB unit :=
  exec_spawns (fun _ k s => id_is id k && not_deleted s) (fun s => s <| BaseImageDigest := digest |>)
    ≫= expect_one ErrNotFound.

Definition SetGitHubCredentialStatus (id : string) (st : GitHubCredentialStatus) : DB unit :=
  exec_spawns (fun _ k s => id_is id k && not_deleted s) (fun s => s <| GitHubCredStatus := st |>)
    ≫= expect_one ErrNotFound.

Definition SetModel (id model : string) : DB unit :=
  exec_spawns (fun _ k s => id_is id k && not_deleted s)
    (fun s => s <| Model := model |> <| ModelApplied := false |> <| ModelApplyDetail := "" |>)
    ≫= expect_one ErrNotFound.

Definition MarkModelApplied (id : string) : DB unit :=
  _ ← exec_spawns (fun _ k _ => id_is id k)
        (fun s => s <| ModelApplied := true |> <| ModelApplyDetail := "" |>);
  mret tt.

Definition MarkModelApplyFailed (id detail : string) : DB unit :=
  _ ← exec_spawns (fun _ k _ => id_is id k) (fun s => s <| ModelApplyDetail := detail |>);
  mret tt.

Definition MarkRecovered (id : string) : DB unit :=
  _ ← exec_spawns (fun _ k _ => id_is id k) (fun s => s <| Recovered := true |>);
  mret tt.

(** [status_seq = status_seq + 1], part of every status or activity write. *)
Definition bump (s : Spawn) : Spawn := s <| StatusSeq ::= Z.succ |>.

Definition Touch (id : string) (ts : Z) : DB unit :=
  _ ← exec_spawns (fun _ k _ => id_is id k) (fun s => bump (s <| LastUsedAt := ts |>));
  mret tt.

Definition SetMountMarker (id mount marker : string) : DB unit :=
  _ ← exec_mounts (fun k _ => String.eqb k.1 id && String.eqb k.2 mount)
        (fun m => m <| PersistMarker := Some marker |>);
  mret tt.

(** ** Status transitions *)

(** A status-guarded UPDATE; no row in one of the [from] statuses is a conflict. *)
Definition guardStatus (id : string) (from : list Status) (set : Spawn -> Spawn) : DB unit :=
  exec_spawns (fun _ k s => id_is id k && status_in from s) (fun s => set (bump s))
    ≫= expect_one ErrConflict.

Definition endLiveContainer (id : string) (p : Phase) (ts : Z) : DB unit :=
  _ ← exec_containers (live_of id)
        (fun c => c <| EndedAt := Some ts |> <| ContainerPhase := p |>);
  mret tt.

Definition setContainerPhase (id : string) (gen : Z) (p : Phase) : DB unit :=
  exec_containers (live_at id gen) (fun c => c <| ContainerPhase := p |>)
    ≫= expect_one ErrConflict.

Definition guardContainerGen (id : string) (gen : Z) : DB unit :=
  query (fun d => count_where (live_at id gen) (spawn_containers d)) ≫= expect_one ErrConflict.

Definition set_status (to : Status) (s : Spawn) : Spawn := s <| SpawnStatus := to |>.
(** [status = suspended, suspended_at = last_used_at]: the right-hand side reads the old row. *)
Definition set_suspended (s : Spawn) : Spawn :=
  s <| SpawnStatus := Suspended |> <| SuspendedAt := Some (LastUsedAt s) |>.

Definition ClaimStarting (id : string) (from : list Status) : DB Z :=
  guardStatus id from (set_status Starting);;
  ts ← lastUsedTS id;
  endLiveContainer id PhaseLost ts;;
  hi ← maxGen id;
  let newGen := hi + 1 in
  insert_container (id, newGen) (mkContainer "" PhaseStarting ts None);;
  mret newGen.

Definition SetActive (id nodeID : string) (gen : Z) : DB unit :=
  guardStatus id [Starting; Resuming] (set_status Active);;
  exec_containers (live_at id gen)
      (fun c => c <| ContainerPhase := PhaseActive |> <| NodeID := nodeID |>)
    ≫= expect_one ErrConflict.

Definition SetSuspending (id : string) (gen : Z) : DB unit :=
  guardContainerGen id gen;;
  guardStatus id [Active] (set_status Suspending);;
  setContainerPhase id gen PhaseSuspending.

Definition SetForking (id : string) (gen captureDeadlineTS : Z) : DB unit :=
  guardContainerGen id gen;;
  guardStatus id [Active]
    (fun s => set_status Forking s <| ForkCaptureDeadline := Some captureDeadlineTS |>).

Definition SetSuspended (id : string) (gen : Z) : DB unit :=
  guardContainerGen id gen;;
  guardStatus id [Suspending] set_suspended;;
  ts ← lastUsedTS id;
  endLiveContainer id PhaseStopped ts.

Definition RevertSuspended (id : string) (gen : Z) : DB unit :=
  guardContainerGen id gen;;
  guardStatus id [Starting; Resuming] set_suspended;;
  ts ← lastUsedTS id;
  endLiveContainer id PhaseStopped ts.

Definition maxErrorDetailBytes : Z := 8192.

Definition truncateDetail (errorDetail : string) : string :=
  if maxErrorDetailBytes <? blen errorDetail
  then to_valid_utf8 (slice_to (Z.to_nat maxErrorDetailBytes) errorDetail)
  else errorDetail.

Definition SetError (id errorStep errorDetail : string) : DB unit :=
  let errorDetail := truncateDetail errorDetail in
  guardStatus id [Starting; Active; Suspending; Resuming; Unreachable]
    (fun s => set_status Errored s <| ErrorStep := errorStep |> <| ErrorDetail := errorDetail |>);;
  ts ← lastUsedTS id;
  endLiveContainer id PhaseLost ts.

Definition MarkUnreachable (ids : list string) : DB Z :=
  match ids with
  | [] => mret 0
  | _ => exec_spawns (fun _ k s => bool_decide (k ∈ ids) && status_in [Starting; Active] s)
           (fun s => bump (set_status Unreachable s))
  end.

(** src/internal/cp/store/reconcile.go *)
Definition MarkBootUnreachable : DB Z :=
  exec_spawns (fun _ _ s => status_in [Starting; Active; Suspending] s)
    (fun s => bump (set_status Unreachable s)).

Definition MarkReachable (id : string) (gen : Z) : DB unit :=
  guardContainerGen id gen;;
  guardStatus id [Unreachable] (set_status Active).

Definition MarkDeleted (id : string) (ts : Z) : DB unit :=
  guardStatus id [Starting; Active; Suspended; Unreachable; Errored]
    (fun s => set_status Deleted s <| DeletedAt := Some ts |>);;
  endLiveContainer id PhaseLost ts.

Definition EndContainer (id : string) (gen : Z) (p : Phase) : DB unit :=
  ts ← lastUsedTS id;
  _ ← exec_containers (live_at id gen)
        (fun c => c <| EndedAt := Some ts |> <| ContainerPhase := p |>);
  mret tt.

Definition ReconcileSuspendedAfterError (id : string) : DB unit :=
  guardStatus id [Errored] set_suspended.

Definition Adopt (id nodeID : string) (gen : Z) : DB unit :=
  exec_containers (live_at id gen) (fun c => c <| NodeID := nodeID |>)
    ≫= expect_one ErrConflict.

(** ** Claims: lease-, sequence- and generation-fenced writes *)

(** [(SELECT generation FROM spawn_containers WHERE spawn_id = id AND ended_at IS NULL)]; an empty
    result is NULL, which equals nothing. *)
Definition live_generation (d : Tables) (id : string) : option Z :=
  (fun kc : (string * Z) * Container => kc.1.2)
    <$> head (select_where (live_of id) (spawn_containers d)).

Definition set_claim (holder leaseID : string) (deadlineTS : Z) (s : Spawn) : Spawn :=
  s <| ClaimHolder := Some holder |> <| ClaimLeaseID := Some leaseID |>
    <| ClaimDeadline := Some deadlineTS |>.
Definition clear_claim (s : Spawn) : Spawn :=
  s <| ClaimHolder := None |> <| ClaimLeaseID := None |> <| ClaimDeadline := None |>.

(** [WHERE id = ? AND status_seq = ? AND claim_lease_id = ?] *)
Definition claimed (id leaseID : string) (expectedSeq : Z) (k : string) (s : Spawn) : bool :=
  id_is id k && (StatusSeq s =? expectedSeq) && opt_eqb (ClaimLeaseID s) leaseID.

Definition Acquire (id holder leaseID : string) (nowTS deadlineTS expectedSeq : Z) : DB Z :=
  exec_spawns (fun _ k s => id_is id k && (StatusSeq s =? expectedSeq) && claim_free nowTS s)
      (fun s => bump (set_claim holder leaseID deadlineTS s))
    ≫= expect_one ErrConflict;;
  mret (expectedSeq + 1).

Definition AcquireForkingRecovery (id holder leaseID : string) (nowTS deadlineTS expectedSeq : Z)
    : DB Z :=
  exec_spawns (fun _ k s => id_is id k && status_in [Forking] s && (StatusSeq s =? expectedSeq)
                              && fork_recoverable nowTS s)
      (fun s => bump (set_claim holder leaseID deadlineTS s))
    ≫= expect_one ErrConflict;;
  mret (expectedSeq + 1).

(** The only claim write that leaves [status_seq] alone. *)
Definition Heartbeat (id leaseID : string) (newDeadlineTS : Z) : DB unit :=
  exec_spawns (fun _ k s => id_is id k && opt_eqb (ClaimLeaseID s) leaseID)
      (fun s => s <| ClaimDeadline := Some newDeadlineTS |>)
    ≫= expect_one ErrClaimLost.

Definition Release (id leaseID : string) : DB unit :=
  exec_spawns (fun _ k s => id_is id k && opt_eqb (ClaimLeaseID s) leaseID)
      (fun s => bump (clear_claim s))
    ≫= expect_one ErrClaimLost.

Definition TransitionClaimed (id leaseID : string) (expectedSeq expectedGen : Z) (to : Status)
    : DB Z :=
  exec_spawns (fun d k s => claimed id leaseID expectedSeq k s
                              && opt_eqb (live_generation d k) expectedGen)
      (fun s => bump (set_status to s))
    ≫= expect_one ErrConflict;;
  mret (expectedSeq + 1).

Definition TransitionForkingRecovered (id leaseID : string) (expectedSeq expectedGen : Z) : DB Z :=
  exec_spawns (fun d k s => claimed id leaseID expectedSeq k s && status_in [Forking] s
                              && opt_eqb (live_generation d k) expectedGen)
      (fun s => bump (clear_claim (set_status Active s <| ForkCaptureDeadline := None |>)))
    ≫= expect_one ErrConflict;;
  mret (expectedSeq + 1).

(** [spawnRepo.withTx]: inside a transaction ([top = false]) the body runs in it. *)
Definition withTx (top : bool) {A} (m : DB A) : DB A := if top then run_in_tx m else m.

Definition MarkForkingLost (top : bool) (id : string) (expectedSeq : Z) : DB Z :=
  withTx top
    (exec_spawns (fun _ k s => id_is id k && status_in [Forking] s && (StatusSeq s =? expectedSeq))
         (fun s => bump (clear_claim (set_status Errored s <| ForkCaptureDeadline := None |>)))
       ≫= expect_one ErrConflict;;
     ts ← lastUsedTS id;
     endLiveContainer id PhaseLost ts;;
     mret (expectedSeq + 1)).

Definition markDeletedClaimed (id leaseID : string) (expectedSeq expectedGen ts : Z) : DB Z :=
  exec_spawns (fun d k s => claimed id leaseID expectedSeq k s
                 && (if expectedGen =? 0 then is_none (live_generation d k)
                     else opt_eqb (live_generation d k) expectedGen))
      (fun s => bump (clear_claim (set_status Deleted s <| DeletedAt := Some ts |>
                                     <| ForkCaptureDeadline := None |>)))
    ≫= expect_one ErrConflict;;
  endLiveContainer id PhaseLost ts;;
  mret (expectedSeq + 1).

Definition MarkDeletedClaimed (top : bool) (id leaseID : string)
    (expectedSeq expectedGen ts : Z) : DB Z :=
  withTx top (markDeletedClaimed id leaseID expectedSeq expectedGen ts).

(** ** Creation *)

Fixpoint insert_mounts (id : string) (mounts : list (string * Mount)) : DB unit :=
  match mounts with
  | [] => mret tt
  | (name, m) :: mounts => insert_mount (id, name) m;; insert_mounts id mounts
  end.

(** The first mount that the pinned app version does not declare. *)
Fixpoint check_declared (d : Tables) (app version : string) (mounts : list (string * Mount))
    : DB unit :=
  match mounts with
  | [] => mret tt
  | (name, _) :: mounts =>
      if bool_decide ((app, version, name) ∈ app_version_mounts d)
      then check_declared d app version mounts
      else throw (ErrMountNotDeclared name app version)
  end.

Definition Create (id : string) (s : Spawn) (mounts : list (string * Mount)) : DB unit :=
  known ← query (fun d => bool_decide ((AppID s, AppVersion s) ∈ app_versions d));
  if negb known then throw (ErrNoAppVersion (AppID s) (AppVersion s)) else
  decls ← query (fun d => d);
  check_declared decls (AppID s) (AppVersion s) mounts;;
  let s := s <| SpawnStatus := Starting |> <| ModelApplied := true |> in
  insert_spawn id s;;
  insert_container (id, 1) (mkContainer "" PhaseStarting (CreatedAt s) None);;
  insert_mounts id mounts.

(** ** Artifacts: src/internal/cp/store/spawn_artifacts.go *)

Definition insert_artifact (k : string * string) (a : Artifact) : DB unit :=
  stmt (fun d => match spawn_artifacts d !! k with
                 | Some _ => (Err (ErrConstraint "spawn_artifacts pk"), d)
                 | None => (Ok tt, d <| spawn_artifacts ::= <[k := a]> |>)
                 end).
Definition by_artifact (a b : (string * string) * Artifact) : Prop := String.leb a.1.2 b.1.2 = true.
#[export] Instance by_artifact_dec a b : Decision (by_artifact a b).
Proof. unfold by_artifact. solve_decision. Defined.
Definition GetArtifacts (id : string) : DB (list ((string * string) * Artifact)) :=
  rows ← query (fun d => select_where (fun k _ => String.eqb k.1 id) (spawn_artifacts d));
  mret (merge_sort by_artifact rows).
(** The rows of another spawn, inserted as rows of [id]. *)
Fixpoint AddArtifacts (id : string) (artifacts : list ((string * string) * Artifact)) : DB unit :=
  match artifacts with
  | [] => mret tt
  | ((_, name), a) :: artifacts => insert_artifact (id, name) a;; AddArtifacts id artifacts
  end.

(** ** What the statements do in a fault-free run *)

(** A [WHERE] clause with [id = ?] can only hold of that key. *)
Ltac pin_key := intros; unfold claimed, id_is in *; brefl; tauto.

(** Touching the only row that can satisfy a [WHERE] clause pinned to a key. *)
Lemma update_where_key {K V} `{Countable K} (p : K -> V -> bool) (f : V -> V) t k v :
  (forall k' v', p k' v' = true -> k' = k) ->
  t !! k = Some v -> p k v = true -> update_where p f t = <[k := f v]> t.
Proof.
  intros Hkey Hkv Hp. apply map_eq. intros k'. rewrite lookup_update_where.
  destruct (decide (k = k')) as [<-|Hne].
  - by rewrite Hkv, lookup_insert_eq; simpl; rewrite Hp.
  - rewrite lookup_insert_ne by done. destruct (t !! k') as [v'|]; [|done]. simpl.
    destruct (p k' v') eqn:Hp'; [|done]. by apply Hkey in Hp'.
Qed.

Lemma exec_where_key {K V} `{Countable K} (p : K -> V -> bool) (f : V -> V) t k :
  (forall k' v', p k' v' = true -> k' = k) ->
  (count_where p t, update_where p f t) =
  match t !! k with
  | Some v => if p k v then (1, <[k := f v]> t) else (0, t)
  | None => (0, t)
  end.
Proof.
  intros Hkey.
  assert (Hnone : (forall k' v', t !! k' = Some v' -> p k' v' = false) ->
                  (count_where p t, update_where p f t) = (0, t)).
  { intros Hall. rewrite update_where_none by done. unfold count_where.
    apply select_where_nil in Hall. by rewrite Hall. }
  destruct (t !! k) as [v|] eqn:Hkv.
  - destruct (p k v) eqn:Hp.
    + unfold count_where. erewrite (select_where_key p t k v) by done.
      by erewrite update_where_key.
    + apply Hnone. intros k' v' Hk'. destruct (p k' v') eqn:Hp'; [|done].
      assert (k' = k) as -> by (by eapply Hkey). simplify_eq. congruence.
  - apply Hnone. intros k' v' Hk'. destruct (p k' v') eqn:Hp'; [|done].
    assert (k' = k) as -> by (by eapply Hkey). congruence.
Qed.

(** An UPDATE of [spawns] pinned to one id, with its row-count check. *)
Lemma run_exec_id (c : Tables -> string -> Spawn -> bool) f e id d :
  (forall k s, c d k s = true -> k = id) ->
  run (exec_spawns c f ≫= expect_one e) d =
  match spawns d !! id with
  | Some s => if c d id s then (Ok tt, d <| spawns ::= <[id := f s]> |>) else (Err e, d)
  | None => (Err e, d)
  end.
Proof.
  intros Hkey. rewrite run_bind by (eauto with sql).
  unfold exec_spawns. rewrite run_stmt.
  pose proof (exec_where_key (c d) f (spawns d) id Hkey) as Heq.
  unfold expect_one. destruct d as [sps cs ms arts ts av avm]; simpl in *.
  destruct (sps !! id) as [s|]; [destruct (c _ id s)|]; injection Heq as -> ->; done.
Qed.

Lemma run_guardStatus id from set d :
  run (guardStatus id from set) d =
  match spawns d !! id with
  | Some s => if status_in from s then (Ok tt, d <| spawns ::= <[id := set (bump s)]> |>)
              else (Err ErrConflict, d)
  | None => (Err ErrConflict, d)
  end.
Proof.
  unfold guardStatus. rewrite (run_exec_id _ _ _ id).
  - unfold id_is. by rewrite String.eqb_refl.
  - pin_key.
Qed.

Lemma live_at_key id gen k c : live_at id gen k c = true -> k = (id, gen).
Proof. unfold live_at. brefl. destruct k; simpl. intros [[-> ->] _]. done. Qed.

Lemma live_at_refl id gen c : live_at id gen (id, gen) c = is_live c.
Proof. unfold live_at. simpl. by rewrite String.eqb_refl, Z.eqb_refl. Qed.

Lemma run_exec_live id gen f d :
  run (exec_containers (live_at id gen) f ≫= expect_one ErrConflict) d =
  match spawn_containers d !! (id, gen) with
  | Some c => if is_live c then (Ok tt, d <| spawn_containers ::= <[(id, gen) := f c]> |>)
              else (Err ErrConflict, d)
  | None => (Err ErrConflict, d)
  end.
Proof.
  rewrite run_bind by (eauto with sql). unfold exec_containers. rewrite run_stmt.
  pose proof (exec_where_key (live_at id gen) f (spawn_containers d) (id, gen)
                (live_at_key id gen)) as Heq.
  unfold expect_one. destruct d as [sps cs ms arts ts av avm]; simpl in *.
  destruct (cs !! (id, gen)) as [c|]; [rewrite live_at_refl in Heq; destruct (is_live c)|];
    injection Heq as -> ->; done.
Qed.

Lemma run_guardContainerGen id gen d :
  run (guardContainerGen id gen) d =
  match spawn_containers d !! (id, gen) with
  | Some c => if is_live c then (Ok tt, d) else (Err ErrConflict, d)
  | None => (Err ErrConflict, d)
  end.
Proof.
  unfold guardContainerGen. rewrite run_bind by (eauto with sql).
  unfold query. rewrite run_stmt. unfold expect_one.
  pose proof (exec_where_key (live_at id gen) (fun c => c) (spawn_containers d) (id, gen)
                (live_at_key id gen)) as Heq.
  destruct (spawn_containers d !! (id, gen)) as [c|];
    [rewrite live_at_refl in Heq; destruct (is_live c)|]; injection Heq as -> _; done.
Qed.

Lemma run_lastUsedTS id d :
  run (lastUsedTS id) d =
  match spawns d !! id with
  | Some s => (Ok (LastUsedAt s), d)
  | None => (Err (ErrDriver "sql: no rows in result set"), d)
  end.
Proof.
  unfold lastUsedTS. rewrite run_bind by (eauto with sql). unfold query. rewrite run_stmt.
  destruct (spawns d !! id) as [s|] eqn:Hs.
  - erewrite (select_where_key _ _ id s); [done| |done|by rewrite String.eqb_refl].
    intros k s'. by brefl.
  - assert (select_where (fun k (_ : Spawn) => String.eqb k id) (spawns d) = []) as ->; [|done].
    apply select_where_nil. intros k s' Hk. brefl. by intros ->; simplify_eq.
Qed.

Lemma run_endLiveContainer id p ts d :
  run (endLiveContainer id p ts) d =
  (Ok tt, d <| spawn_containers ::=
             update_where (live_of id) (fun c => c <| EndedAt := Some ts |> <| ContainerPhase := p |>)
           |>).
Proof. done. Qed.

Create HintDb runs.
#[export] Hint Rewrite run_guardStatus run_exec_live run_guardContainerGen run_lastUsedTS
  run_endLiveContainer @run_ret @run_throw : runs.
