(* ===== verification/SpawnLifecycle.v ===== *)
(** * The spawn lifecycle: what the ledger guarantees

    [SpawnOp] lists every mutating method of [spawnRepo]; [run_op] runs one.  A history is a
    sequence of operations issued by any number of control-plane goroutines: each method is a
    sequence of statements, and because every conflicting write is a single guarded statement the
    histories interleave at method granularity inside transactions and at statement granularity
    outside (a method whose later statement fails leaves its earlier statements behind).  *)

From S2P Require Import Prelude GoLib Database SpawnStore.
Inductive SpawnOp :=
| OpCreate (id : string) (s : Spawn) (mounts : list (string * Mount))
| OpRename (id name : string)
| OpSetBaseImageDigest (id digest : string)
| OpSetGitHubCredentialStatus (id : string) (st : GitHubCredentialStatus)
| OpSetModel (id model : string)
| OpMarkModelApplied (id : string)
| OpMarkModelApplyFailed (id detail : string)
| OpMarkRecovered (id : string)
| OpTouch (id : string) (ts : Z)
| OpSetMountMarker (id mount marker : string)
| OpClaimStarting (id : string) (from : list Status)
| OpSetActive (id nodeID : string) (gen : Z)
| OpSetSuspending (id : string) (gen : Z)
| OpSetForking (id : string) (gen deadline : Z)
| OpSetSuspended (id : string) (gen : Z)
| OpRevertSuspended (id : string) (gen : Z)
| OpSetError (id step detail : string)
| OpMarkUnreachable (ids : list string)
| OpMarkBootUnreachable
| OpMarkReachable (id : string) (gen : Z)
| OpMarkDeleted (id : string) (ts : Z)
| OpEndContainer (id : string) (gen : Z) (p : Phase)
| OpReconcileSuspendedAfterError (id : string)
| OpAdopt (id nodeID : string) (gen : Z)
| OpAcquire (id holder lease : string) (now deadline seq : Z)
| OpAcquireForkingRecovery (id holder lease : string) (now deadline seq : Z)
| OpHeartbeat (id lease : string) (deadline : Z)
| OpRelease (id lease : string)
| OpTransitionClaimed (id lease : string) (seq gen : Z) (to : Status)
| OpTransitionForkingRecovered (id lease : string) (seq gen : Z)
| OpMarkForkingLost (id : string) (seq : Z)
| OpMarkDeletedClaimed (id lease : string) (seq gen ts : Z).

(** Drop the value a method returns. *)
Definition ignore {A} (m : DB A) : DB unit := _ ← m; mret tt.

(** [top]: called on the top-level store (each statement commits on its own) or inside the
    caller's transaction. *)
Definition run_op (top : bool) (op : SpawnOp) : DB unit :=
  match op with
  | OpCreate id s mounts => Create id s mounts
  | OpRename id name => Rename id name
  | OpSetBaseImageDigest id digest => SetBaseImageDigest id digest
  | OpSetGitHubCredentialStatus id st => SetGitHubCredentialStatus id st
  | OpSetModel id model => SetModel id model
  | OpMarkModelApplied id => MarkModelApplied id
  | OpMarkModelApplyFailed id detail => MarkModelApplyFailed id detail
  | OpMarkRecovered id => MarkRecovered id
  | OpTouch id ts => Touch id ts
  | OpSetMountMarker id mount marker => SetMountMarker id mount marker
  | OpClaimStarting id from => ignore (ClaimStarting id from)
  | OpSetActive id nodeID gen => SetActive id nodeID gen
  | OpSetSuspending id gen => SetSuspending id gen
  | OpSetForking id gen deadline => SetForking id gen deadline
  | OpSetSuspended id gen => SetSuspended id gen
  | OpRevertSuspended id gen => RevertSuspended id gen
  | OpSetError id step detail => SetError id step detail
  | OpMarkUnreachable ids => ignore (MarkUnreachable ids)
  | OpMarkBootUnreachable => ignore MarkBootUnreachable
  | OpMarkReachable id gen => MarkReachable id gen
  | OpMarkDeleted id ts => MarkDeleted id ts
  | OpEndContainer id gen p => EndContainer id gen p
  | OpReconcileSuspendedAfterError id => ReconcileSuspendedAfterError id
  | OpAdopt id nodeID gen => Adopt id nodeID gen
  | OpAcquire id holder lease now deadline seq => ignore (Acquire id holder lease now deadline seq)
  | OpAcquireForkingRecovery id holder lease now deadline seq =>
      ignore (AcquireForkingRecovery id holder lease now deadline seq)
  | OpHeartbeat id lease deadline => Heartbeat id lease deadline
  | OpRelease id lease => Release id lease
  | OpTransitionClaimed id lease seq gen to => ignore (TransitionClaimed id lease seq gen to)
  | OpTransitionForkingRecovered id lease seq gen =>
      ignore (TransitionForkingRecovered id lease seq gen)
  | OpMarkForkingLost id seq => ignore (MarkForkingLost top id seq)
  | OpMarkDeletedClaimed id lease seq gen ts => ignore (MarkDeletedClaimed top id lease seq gen ts)
  end.

(** One operation of a history, with whatever statement failures the driver injects; [in_tx]
    tells whether the caller wrapped it in [Store.WithTx]. *)
Inductive op_step (d : Tables) (op : SpawnOp) : Tables -> Prop :=
| op_step_intro (in_tx : bool) (fs : list (option string)) :
    op_step d op
      (tables (snd ((if in_tx then run_in_tx (run_op false op) else run_op true op)
                      (mkSession d fs)))).

Inductive history (d : Tables) : Tables -> Prop :=
| history_refl : history d d
| history_step d' op d'' : history d d' -> op_step d' op d'' -> history d d''.

Lemma op_step_always (R : Tables -> Tables -> Prop) d op d' :
  Reflexive R -> (forall top op, always R (run_op top op)) -> op_step d op d' -> R d d'.
Proof.
  intros HR Hop [in_tx fs]. destruct in_tx.
  - exact (always_tx ErrDriver R _ HR (Hop false op) (mkSession d fs)).
  - exact (Hop true op (mkSession d fs)).
Qed.

Lemma history_always (R : Tables -> Tables -> Prop) d d' :
  Reflexive R -> Transitive R -> (forall top op, always R (run_op top op)) ->
  history d d' -> R d d'.
Proof.
  intros HR HT Hop. induction 1 as [|d' op d'' _ IH Hs]; [done|].
  etransitivity; [exact IH|]. by eapply op_step_always.
Qed.

(** ** Row-wise relations *)

(** Every spawn row survives and is related to its successor by [P]. *)
Definition rowwise (P : Spawn -> Spawn -> Prop) (d d' : Tables) : Prop :=
  forall id s, spawns d !! id = Some s -> exists s', spawns d' !! id = Some s' /\ P s s'.

#[export] Instance rowwise_refl P : Reflexive P -> Reflexive (rowwise P).
Proof. intros HP d id s Hs. eauto. Qed.
#[export] Instance rowwise_trans P : Transitive P -> Transitive (rowwise P).
Proof.
  intros HP d d' d'' H1 H2 id s Hs.
  destruct (H1 _ _ Hs) as (s' & Hs' & HP1). destruct (H2 _ _ Hs') as (s'' & Hs'' & HP2). eauto.
Qed.

Lemma always_exec_spawns P p f :
  Reflexive P -> (forall d k s, p d k s = true -> P s (f s)) ->
  always (rowwise P) (exec_spawns p f).
Proof.
  intros HR HP. apply always_stmt; [apply _|]. intros d id s Hs. simpl.
  rewrite lookup_update_where, Hs. simpl. destruct (p d id s) eqn:Hp; eauto.
Qed.

Section Quiet.
Context (P : Spawn -> Spawn -> Prop) `{!Reflexive P}.
Let same_spawns {A} (q : Tables -> result StoreErr A * Tables) :
  (forall d, spawns (snd (q d)) = spawns d) -> always (rowwise P) (stmt q).
Proof. intros Hq. apply always_stmt; [apply _|]. intros d id s Hs. rewrite Hq. eauto. Qed.

Lemma quiet_query {A} (q : Tables -> A) : always (rowwise P) (query q).
Proof. by apply same_spawns. Qed.
Lemma quiet_exec_containers p f : always (rowwise P) (exec_containers p f).
Proof. by apply same_spawns. Qed.
Lemma quiet_exec_mounts p f : always (rowwise P) (exec_mounts p f).
Proof. by apply same_spawns. Qed.
Lemma quiet_insert_container k c : always (rowwise P) (insert_container k c).
Proof. apply same_spawns. intros d. by repeat case_match. Qed.
Lemma quiet_insert_mount k m : always (rowwise P) (insert_mount k m).
Proof. apply same_spawns. intros d. by repeat case_match. Qed.
Lemma quiet_insert_spawn id s : always (rowwise P) (insert_spawn id s).
Proof.
  apply always_stmt; [apply _|]. intros d k r Hr. simpl.
  destruct (spawns d !! id) eqn:Hid; simpl; [eauto|].
  assert (k <> id) by congruence. rewrite lookup_insert_ne by done. eauto.
Qed.
Lemma quiet_expect_one e n : always (rowwise P) (expect_one e n).
Proof. unfold expect_one. case_match; [by apply always_ret, _|by apply always_throw, _]. Qed.
Lemma quiet_insert_mounts id ms : Transitive P -> always (rowwise P) (insert_mounts id ms).
Proof.
  intros HT. induction ms as [|[n m] ms IH]; simpl; [by apply always_ret, _|].
  apply always_bind; [apply _|apply quiet_insert_mount|done].
Qed.
Lemma quiet_check_declared d a v ms : always (rowwise P) (check_declared d a v ms).
Proof.
  induction ms as [|[n m] ms IH]; simpl; [by apply always_ret, _|].
  case_match; [done|by apply always_throw, _].
Qed.
End Quiet.

Create HintDb always.
#[export] Hint Resolve quiet_query quiet_exec_containers quiet_exec_mounts quiet_insert_container
  quiet_insert_mount quiet_insert_spawn quiet_expect_one quiet_insert_mounts quiet_check_declared
  : always.

(** Walks through the statements of a method. *)
Ltac always_walk :=
  repeat first
    [ solve [eauto with always typeclass_instances]
    | apply always_bind; [typeclasses eauto| |intros ?]
    | apply always_ret; typeclasses eauto
    | apply always_throw; typeclasses eauto
    | apply always_tx; [typeclasses eauto|]
    | apply always_exec_spawns; [typeclasses eauto|intros ????]
    | case_match ].

Ltac unfold_ops :=
  cbn [run_op]; unfold ignore, Create, Rename, SetBaseImageDigest, SetGitHubCredentialStatus,
    SetModel, MarkModelApplied, MarkModelApplyFailed, MarkRecovered, Touch, SetMountMarker,
    ClaimStarting, SetActive, SetSuspending, SetForking, SetSuspended, RevertSuspended, SetError,
    MarkUnreachable, MarkBootUnreachable, MarkReachable, MarkDeleted, EndContainer,
    ReconcileSuspendedAfterError, Adopt, Acquire, AcquireForkingRecovery, Heartbeat, Release,
    TransitionClaimed, TransitionForkingRecovered, MarkForkingLost, MarkDeletedClaimed,
    markDeletedClaimed, withTx, guardStatus, guardContainerGen, setContainerPhase,
    endLiveContainer, lastUsedTS, maxGen.

(** ** Optimistic concurrency

    A row whose [status_seq] has not moved has the status and the lease it had. *)

Definition seq_guards (s s' : Spawn) : Prop :=
  StatusSeq s <= StatusSeq s' /\
  (StatusSeq s' = StatusSeq s ->
     SpawnStatus s' = SpawnStatus s /\ ClaimLeaseID s' = ClaimLeaseID s /\
     ClaimHolder s' = ClaimHolder s).

#[export] Instance seq_guards_refl : Reflexive seq_guards.
Proof. intros s. unfold seq_guards. auto with lia. Qed.
#[export] Instance seq_guards_trans : Transitive seq_guards.
Proof.
  intros s1 s2 s3 [Hle1 H1] [Hle2 H2]. split; [lia|]. intros Heq.
  destruct H1 as (? & ? & ?); [lia|]. destruct H2 as (? & ? & ?); [lia|]. intuition congruence.
Qed.

Lemma seq_guards_bumped s s' : StatusSeq s' = Z.succ (StatusSeq s) -> seq_guards s s'.
Proof. intros Hs. split; lia. Qed.
Lemma seq_guards_same s s' :
  StatusSeq s' = StatusSeq s -> SpawnStatus s' = SpawnStatus s ->
  ClaimLeaseID s' = ClaimLeaseID s -> ClaimHolder s' = ClaimHolder s -> seq_guards s s'.
Proof. intros Hs. split; [lia|done]. Qed.

Lemma run_op_seq_guards top op : always (rowwise seq_guards) (run_op top op).
Proof.
  destruct op; unfold_ops; always_walk;
    first [ by apply seq_guards_same | by apply seq_guards_bumped ].
Qed.

(** ** Well-formed ledgers *)

Definition live_in (d : Tables) (id : string) (g : Z) : Prop :=
  exists c, spawn_containers d !! (id, g) = Some c /\ is_live c = true.

Record ledger_wf (d : Tables) : Prop := {
  wf_newest : forall id g g' c', live_in d id g -> spawn_containers d !! (id, g') = Some c' -> g' <= g;
  wf_pos : forall id g c, spawn_containers d !! (id, g) = Some c -> 1 <= g;
  wf_spawn : forall id g c, spawn_containers d !! (id, g) = Some c -> is_Some (spawns d !! id)
}.

(** The newest episode is the only one that can be live. *)
Lemma wf_unique d id g g' : ledger_wf d -> live_in d id g -> live_in d id g' -> g = g'.
Proof.
  intros Hwf Hg Hg'. pose proof Hg as (c & Hc & _). pose proof Hg' as (c' & Hc' & _).
  pose proof (wf_newest _ Hwf _ _ _ _ Hg Hc'). pose proof (wf_newest _ Hwf _ _ _ _ Hg' Hc). lia.
Qed.

Definition keeps (I : Tables -> Prop) (d d' : Tables) : Prop := I d -> I d'.
#[export] Instance keeps_refl I : Reflexive (keeps I).
Proof. intros d. by unfold keeps. Qed.
#[export] Instance keeps_trans I : Transitive (keeps I).
Proof. intros d d' d''. unfold keeps. auto. Qed.

(** Growing [spawns], and container writes that never revive an ended episode, keep the ledger
    well formed. *)
Lemma wf_mono d d' :
  (forall id, is_Some (spawns d !! id) -> is_Some (spawns d' !! id)) ->
  (forall k c', spawn_containers d' !! k = Some c' ->
     exists c, spawn_containers d !! k = Some c /\ (is_live c' = true -> is_live c = true)) ->
  keeps ledger_wf d d'.
Proof.
  intros Hsp Hct [Hnew Hpos Hfk]. split.
  - intros id g g' c' (c & Hc & Hl) Hc'.
    destruct (Hct _ _ Hc) as (c0 & Hc0 & Hl0). destruct (Hct _ _ Hc') as (c1 & Hc1 & _).
    eapply Hnew; [|exact Hc1]. exists c0. auto.
  - intros id g c Hc. destruct (Hct _ _ Hc) as (c0 & Hc0 & _). eauto.
  - intros id g c Hc. destruct (Hct _ _ Hc) as (c0 & Hc0 & _). eauto.
Qed.

Lemma wf_same d d' :
  spawn_containers d' = spawn_containers d ->
  (forall id, is_Some (spawns d !! id) -> is_Some (spawns d' !! id)) -> keeps ledger_wf d d'.
Proof. intros Heq Hsp. apply wf_mono; [done|]. rewrite Heq. eauto. Qed.

Lemma wf_exec_spawns p f : always (keeps ledger_wf) (exec_spawns p f).
Proof.
  apply always_stmt; [apply _|]. intros d. apply wf_same; [done|]. intros id. simpl.
  rewrite lookup_update_where. by intros [s ->].
Qed.
Lemma wf_exec_containers p f :
  (forall c, is_live (f c) = true -> is_live c = true) ->
  always (keeps ledger_wf) (exec_containers p f).
Proof.
  intros Hf. apply always_stmt; [apply _|]. intros d. apply wf_mono; [done|]. simpl.
  intros k c'. rewrite lookup_update_where. destruct (spawn_containers d !! k) as [c|]; [|done].
  intros [= <-]. exists c. split; [done|]. destruct (p k c); auto.
Qed.
Lemma wf_exec_mounts p f : always (keeps ledger_wf) (exec_mounts p f).
Proof. apply always_stmt; [apply _|]. intros d. by apply wf_same. Qed.
Lemma wf_query {A} (q : Tables -> A) : always (keeps ledger_wf) (query q).
Proof. by apply always_stmt; [apply _|]. Qed.
Lemma wf_insert_mount k m : always (keeps ledger_wf) (insert_mount k m).
Proof.
  apply always_stmt; [apply _|]. intros d. case_match; [done|]. by apply wf_same.
Qed.
Lemma wf_insert_spawn id s : always (keeps ledger_wf) (insert_spawn id s).
Proof.
  apply always_stmt; [apply _|]. intros d. case_match; [done|]. apply wf_same; [done|].
  intros k Hk. simpl. rewrite lookup_insert_is_Some'. auto.
Qed.
Lemma wf_expect_one e n : always (keeps ledger_wf) (expect_one e n).
Proof. unfold expect_one. case_match; [by apply always_ret, _|by apply always_throw, _]. Qed.
Lemma wf_insert_mounts id ms : always (keeps ledger_wf) (insert_mounts id ms).
Proof.
  induction ms as [|[n m] ms IH]; simpl; [by apply always_ret, _|].
  apply always_bind; [apply _|apply wf_insert_mount|done].
Qed.
Lemma wf_check_declared d a v ms : always (keeps ledger_wf) (check_declared d a v ms).
Proof.
  induction ms as [|[n m] ms IH]; simpl; [by apply always_ret, _|].
  case_match; [done|by apply always_throw, _].
Qed.
#[export] Hint Resolve wf_exec_spawns wf_exec_mounts wf_query wf_insert_mount wf_insert_spawn
  wf_expect_one wf_insert_mounts wf_check_declared : always.
#[export] Hint Extern 5 (always _ (exec_containers _ _)) =>
  apply wf_exec_containers; intros; simpl in *; (done || congruence) : always.

Lemma hoare_keeps {A} (m : DB A) :
  always (keeps ledger_wf) m -> hoare ledger_wf m (fun _ => ledger_wf) ledger_wf.
Proof. apply always_hoare. Qed.

(** Inserting a fresh newest episode for an existing spawn. *)
Lemma wf_add_episode d id g c :
  ledger_wf d -> is_Some (spawns d !! id) -> 1 <= g ->
  (forall g', ~ live_in d id g') ->
  (forall g' c', spawn_containers d !! (id, g') = Some c' -> g' <= g) ->
  ledger_wf (d <| spawn_containers ::= <[(id, g) := c]> |>).
Proof.
  intros [Hnew Hpos Hfk] Hsp Hg Hdead Hmax. split; simpl.
  - intros id' h h' c' (c0 & Hc0 & Hl0) Hc'. simpl in *.
    apply lookup_insert_Some in Hc0 as [[[= <- <-] <-]|[_ Hc0]];
      apply lookup_insert_Some in Hc' as [[[= ->] <-]|[_ Hc']]; [lia|by eapply Hmax| |].
    + destruct (Hdead h). by exists c0.
    + eapply Hnew; [|exact Hc']. by exists c0.
  - intros id' h c' [[[= <- <-] <-]|[_ Hc']]%lookup_insert_Some; eauto.
  - intros id' h c' [[[= <- <-] <-]|[_ Hc']]%lookup_insert_Some; eauto.
Qed.

(** [maxGen] bounds every generation of the spawn. *)
Definition gens_upto (d : Tables) (id : string) (hi : Z) : Prop :=
  forall g c, spawn_containers d !! (id, g) = Some c -> g <= hi.

Lemma foldr_max_ge (f : (string * Z) * Container -> Z) z rows x :
  x = z \/ x ∈ f <$> rows -> x <= foldr (fun kc m => Z.max (f kc) m) z rows.
Proof.
  induction rows as [|kc rows IH]; simpl.
  - intros [->|H]; [lia|by apply elem_of_nil in H].
  - rewrite elem_of_cons. intros [->|[->|H]]; [|lia|].
    + specialize (IH (or_introl eq_refl)). lia.
    + specialize (IH (or_intror H)). lia.
Qed.

Lemma max_gen_upto id d : gens_upto d id (max_gen id d).
Proof.
  unfold max_gen. intros g c Hc. destruct (select_where _ _) as [|[k c'] rows] eqn:Hrows.
  - eapply select_where_nil in Hrows; [|exact Hc].
    simpl in Hrows. by rewrite String.eqb_refl in Hrows.
  - apply (foldr_max_ge (fun kc => kc.1.2)).
    assert (Hin : ((id, g), c) ∈ (k, c') :: rows).
    { rewrite <- Hrows. apply elem_of_select_where. simpl. by rewrite String.eqb_refl. }
    apply elem_of_cons in Hin as [[= <- <-]|Hin]; [by left|right].
    apply list_elem_of_fmap. by exists ((id, g), c).
Qed.

Lemma max_gen_nonneg id d : ledger_wf d -> 0 <= max_gen id d.
Proof.
  intros Hwf. unfold max_gen. destruct (select_where _ _) as [|[[id' g] c] rows] eqn:Hrows; [lia|].
  assert (Hk : ((id', g), c) ∈ ((id', g), c) :: rows) by left. rewrite <- Hrows in Hk.
  apply elem_of_select_where in Hk as [Hk _]. pose proof (wf_pos _ Hwf _ _ _ Hk).
  pose proof (foldr_max_ge (fun kc => kc.1.2) g rows g (or_introl eq_refl)). simpl in *. lia.
Qed.

(** ... and is 0 or one of them. *)
Lemma max_gen_attained id d :
  max_gen id d = 0 \/ exists c, spawn_containers d !! (id, max_gen id d) = Some c.
Proof.
  unfold max_gen. destruct (select_where _ _) as [|[k c] rows] eqn:Hrows; [by left|right].
  assert (Hin : exists kc, kc ∈ (k, c) :: rows /\
                 kc.1.2 = foldr (fun kc m => Z.max kc.1.2 m) k.2 rows).
  { clear Hrows. induction rows as [|kc rows (kc' & Hin & Heq)]; simpl.
    - exists (k, c). split; [left|done].
    - destruct (Z.max_spec kc.1.2 (foldr (fun kc m => Z.max kc.1.2 m) k.2 rows)) as [[_ ->]|[_ ->]].
      + exists kc'. split; [|done]. apply elem_of_cons in Hin as [->|Hin]; [left|by do 2 right].
      + exists kc. split; [right; left|done]. }
  destruct Hin as ([[id' g] c'] & Hin & Heq). rewrite <- Hrows in Hin.
  apply elem_of_select_where in Hin as [Hk Hid]. simpl in *. brefl. subst id'.
  rewrite <- Heq. eauto.
Qed.

Lemma wf_ended d id (f : Container -> Container) :
  (forall c, is_live (f c) = false) ->
  let d' := d <| spawn_containers ::= update_where (live_of id) f |> in
  (forall g, ~ live_in d' id g) /\
  (forall g c', spawn_containers d' !! (id, g) = Some c' ->
     exists c, spawn_containers d !! (id, g) = Some c).
Proof.
  intros Hf d'. split.
  - intros g (c' & Hc' & Hl). simpl in Hc'. rewrite lookup_update_where in Hc'.
    destruct (spawn_containers d !! (id, g)) as [c|]; [|done]. injection Hc' as <-.
    unfold live_of in Hl. simpl in Hl. rewrite String.eqb_refl in Hl. simpl in Hl.
    destruct (is_live c) eqn:Hlc; [by rewrite Hf in Hl|congruence].
  - intros g c' Hc'. simpl in Hc'. rewrite lookup_update_where in Hc'.
    destruct (spawn_containers d !! (id, g)); [eauto|done].
Qed.

Lemma hoare_insert_container id g c :
  hoare (fun d => ledger_wf d /\ is_Some (spawns d !! id) /\ 1 <= g /\
           (forall g', ~ live_in d id g') /\ gens_upto d id g)
    (insert_container (id, g) c) (fun _ => ledger_wf) ledger_wf.
Proof.
  apply hoare_stmt; [tauto|]. intros d (Hwf & Hsp & Hg & Hdead & Hmax).
  destruct (spawn_containers d !! (id, g)); [done|].
  destruct (is_live c && _); [done|]. by apply wf_add_episode.
Qed.

Lemma hoare_ClaimStarting id from :
  hoare ledger_wf (ClaimStarting id from) (fun _ => ledger_wf) ledger_wf.
Proof.
  unfold ClaimStarting. eapply hoare_bind.
  { apply hoare_keeps. unfold guardStatus. always_walk. }
  intros ?. eapply (hoare_bind _ _ _ (fun _ d => ledger_wf d /\ is_Some (spawns d !! id))).
  { unfold lastUsedTS. eapply (hoare_bind _ _ _ (fun rows d => ledger_wf d /\
      rows = select_where (fun k _ => String.eqb k id) (spawns d))).
    - apply hoare_stmt; [done|]. simpl. auto.
    - intros [|[k s] rows]; [apply hoare_throw; tauto|]. apply hoare_ret. intros d [Hwf Hrows].
      split; [done|]. assert (Hin : (k, s) ∈ (k, s) :: rows) by left. rewrite Hrows in Hin.
      apply elem_of_select_where in Hin as [Hk Hid]. brefl. subst k. eauto. }
  intros ts. eapply (hoare_bind _ _ _ (fun _ d => (ledger_wf d /\ is_Some (spawns d !! id)) /\
                                         forall g, ~ live_in d id g)).
  { unfold endLiveContainer. eapply (hoare_bind _ _ _ (fun _ d => (ledger_wf d /\
      is_Some (spawns d !! id)) /\ forall g, ~ live_in d id g)); [|by intros; apply hoare_ret].
    apply hoare_stmt; [tauto|]. intros d [Hwf Hsp]. split; [split; [|done]|].
    - revert Hwf. apply wf_mono; [done|]. simpl. intros k c'. rewrite lookup_update_where.
      destruct (spawn_containers d !! k) as [c|]; [|done]. intros [= <-]. exists c.
      split; [done|]. destruct (live_of id k c); [done|auto].
    - by apply wf_ended. }
  intros ?. eapply (hoare_bind _ _ _ (fun hi d => ((ledger_wf d /\ is_Some (spawns d !! id)) /\
      (forall g, ~ live_in d id g)) /\ hi = max_gen id d)).
  { apply hoare_stmt; [tauto|]. simpl. auto. }
  intros hi. eapply (hoare_bind _ _ _ (fun _ => ledger_wf)); [|by intros; apply hoare_ret].
  eapply hoare_weaken; [apply hoare_insert_container| |done].
  intros d [[[Hwf Hsp] Hdead] ->]. split_and!; [done..| |done|].
  - pose proof (max_gen_nonneg id d Hwf). lia.
  - intros g c Hc. pose proof (max_gen_upto id d _ _ Hc). lia.
Qed.

Lemma hoare_Create id s ms :
  hoare ledger_wf (Create id s ms) (fun _ => ledger_wf) ledger_wf.
Proof.
  unfold Create. eapply hoare_bind; [apply hoare_keeps; always_walk|]. intros [|]; simpl;
    [|by apply hoare_throw].
  eapply hoare_bind; [apply hoare_keeps; always_walk|]. intros decls.
  eapply hoare_bind; [apply hoare_keeps; always_walk|]. intros ?.
  eapply (hoare_bind _ _ _ (fun _ d => ledger_wf d /\ is_Some (spawns d !! id) /\
                              forall g, spawn_containers d !! (id, g) = None)).
  { apply hoare_stmt; [done|]. intros d Hwf. destruct (spawns d !! id) eqn:Hid; [done|]. simpl.
    split_and!.
    - revert Hwf. apply wf_same; [done|]. intros k Hk. simpl. rewrite lookup_insert_is_Some'. auto.
    - rewrite lookup_insert_eq. eauto.
    - intros g. destruct (spawn_containers d !! (id, g)) eqn:Hc; [|done].
      apply (wf_spawn _ Hwf) in Hc as [? ?]. congruence. }
  intros ?. eapply (hoare_bind _ _ _ (fun _ => ledger_wf)).
  { eapply hoare_weaken; [apply hoare_insert_container| |done].
    intros d (Hwf & Hsp & Hnone). split_and!; [done..|lia| |].
    - intros g (c & Hc & _). by rewrite Hnone in Hc.
    - intros g c Hc. by rewrite Hnone in Hc. }
  intros ?. apply hoare_keeps. always_walk.
Qed.

Lemma run_op_wf top op : always (keeps ledger_wf) (run_op top op).
Proof.
  destruct op;
    try (apply always_hoare; unfold run_op, ignore; first
      [ apply hoare_Create
      | eapply hoare_bind; [apply hoare_ClaimStarting|by intros; apply hoare_ret] ]).
  all: unfold_ops; always_walk.
Qed.

(** ** Dormant spawns

    A suspended, errored or deleted spawn has no running episode.  The methods that make a spawn
    dormant are two statements (status first, episode second), so this is a property of histories
    in which no statement fails between them. *)

Definition dormant (st : Status) : bool := bool_decide (st ∈ [Suspended; Errored; Deleted]).

Definition dormant_idle (d : Tables) : Prop :=
  forall id s g, spawns d !! id = Some s -> dormant (SpawnStatus s) = true -> ~ live_in d id g.

Definition ledger_ok (d : Tables) : Prop := ledger_wf d /\ dormant_idle d.

(** The calls of the control plane (internal/cp/lifecycle.go, fork.go): an episode is claimed from
    Suspended (resume) or from Unreachable/Errored (recreate), and a claimed transition goes to
    Suspending, Active or Resuming. *)
Definition cp_call (op : SpawnOp) : Prop :=
  match op with
  | OpClaimStarting _ from => from = [Suspended] \/ from = [Unreachable; Errored]
  | OpTransitionClaimed _ _ _ _ to => to ∈ [Suspending; Active; Resuming]
  | _ => True
  end.

Lemma idle_mono d d' :
  (forall id s' g, spawns d' !! id = Some s' -> dormant (SpawnStatus s') = true ->
     live_in d' id g ->
     exists s, spawns d !! id = Some s /\ dormant (SpawnStatus s) = true /\ live_in d id g) ->
  keeps dormant_idle d d'.
Proof. intros Hst Hd id s' g Hs' Hdor Hl. destruct (Hst _ _ _ Hs' Hdor Hl) as (s & ? & ? & ?). by eapply Hd. Qed.

Lemma idle_exec_spawns p f :
  (forall d k s, p d k s = true -> dormant (SpawnStatus (f s)) = true ->
     dormant (SpawnStatus s) = true) ->
  always (keeps dormant_idle) (exec_spawns p f).
Proof.
  intros Hf. apply always_stmt; [apply _|]. intros d. apply idle_mono. simpl.
  intros id s' g. rewrite lookup_update_where. destruct (spawns d !! id) as [s|]; [|done].
  intros [= <-] Hdor Hl. exists s. split; [done|]. split; [|done].
  destruct (p d id s) eqn:Hp; eauto.
Qed.
Lemma idle_exec_containers p f :
  (forall c, is_live (f c) = true -> is_live c = true) ->
  always (keeps dormant_idle) (exec_containers p f).
Proof.
  intros Hf. apply always_stmt; [apply _|]. intros d. apply idle_mono.
  intros id s' g Hs' Hdor (c' & Hc' & Hl). exists s'. split_and!; [done..|]. simpl in Hc'.
  rewrite lookup_update_where in Hc'. destruct (spawn_containers d !! (id, g)) as [c|] eqn:Hc; [|done].
  injection Hc' as <-. exists c. split; [done|]. destruct (p (id, g) c); auto.
Qed.
Section IdleQuiet.
Let same {A} (q : Tables -> result StoreErr A * Tables) :
  (forall d, spawns (snd (q d)) = spawns d /\
             spawn_containers (snd (q d)) = spawn_containers d) ->
  always (keeps dormant_idle) (stmt q).
Proof.
  intros Hq. apply always_stmt; [apply _|]. intros d. destruct (Hq d) as [Hs Hc].
  apply idle_mono. unfold live_in. rewrite Hs, Hc. eauto.
Qed.
Lemma idle_query {A} (q : Tables -> A) : always (keeps dormant_idle) (query q).
Proof. by apply same. Qed.
Lemma idle_exec_mounts p f : always (keeps dormant_idle) (exec_mounts p f).
Proof. by apply same. Qed.
Lemma idle_insert_mount k m : always (keeps dormant_idle) (insert_mount k m).
Proof. apply same. intros d. by case_match. Qed.
Lemma idle_expect_one e n : always (keeps dormant_idle) (expect_one e n).
Proof. unfold expect_one. case_match; [by apply always_ret, _|by apply always_throw, _]. Qed.
Lemma idle_insert_mounts id ms : always (keeps dormant_idle) (insert_mounts id ms).
Proof.
  induction ms as [|[n m] ms IH]; simpl; [by apply always_ret, _|].
  apply always_bind; [apply _|apply idle_insert_mount|done].
Qed.
Lemma idle_check_declared d a v ms : always (keeps dormant_idle) (check_declared d a v ms).
Proof.
  induction ms as [|[n m] ms IH]; simpl; [by apply always_ret, _|].
  case_match; [done|by apply always_throw, _].
Qed.
End IdleQuiet.
#[export] Hint Resolve idle_query idle_exec_mounts idle_insert_mount idle_expect_one
  idle_insert_mounts idle_check_declared : always.
#[export] Hint Extern 5 (always (keeps dormant_idle) (exec_containers _ _)) =>
  apply idle_exec_containers; intros; simpl in *; (done || congruence) : always.

(** *** The methods that retire the episode *)

Lemma faultless_expect_one e n : faultless (expect_one e n).
Proof. unfold expect_one. case_match; eauto 20 with sql. Qed.
#[export] Hint Resolve faultless_expect_one : sql.
#[export] Hint Extern 3 (faultless (guardStatus _ _ _)) => unfold guardStatus : sql.
#[export] Hint Extern 3 (faultless (guardContainerGen _ _)) => unfold guardContainerGen : sql.
#[export] Hint Extern 3 (faultless (lastUsedTS _)) => unfold lastUsedTS : sql.
#[export] Hint Extern 3 (faultless (endLiveContainer _ _ _)) => unfold endLiveContainer : sql.
#[export] Hint Extern 3 (faultless (query _)) => apply faultless_stmt : sql.
#[export] Hint Extern 3 (faultless (exec_spawns _ _)) => apply faultless_stmt : sql.
#[export] Hint Extern 3 (faultless (exec_containers _ _)) => apply faultless_stmt : sql.
#[export] Hint Extern 4 (faultless (match _ with _ => _ end)) => case_match : sql.

(** Ending the live episode of [id] along with an update of its row keeps every dormant spawn
    idle. *)
Lemma idle_retire d id s' f :
  (forall c, is_live (f c) = false) ->
  dormant_idle d ->
  dormant_idle (d <| spawns ::= <[id := s']> |> <| spawn_containers ::= update_where (live_of id) f |>).
Proof.
  intros Hf Hd k s g Hs Hdor Hl. simpl in Hs.
  apply lookup_insert_Some in Hs as [[<- <-]|[Hne Hs]].
  - destruct (wf_ended (d <| spawns ::= <[id := s']> |>) id f Hf) as [Hdead _].
    by apply (Hdead g).
  - apply (Hd k s g Hs Hdor). destruct Hl as (c' & Hc' & Hl). simpl in Hc'.
    rewrite lookup_update_where in Hc'.
    destruct (spawn_containers d !! (k, g)) as [c|] eqn:Hc; [|done]. injection Hc' as <-.
    exists c. split; [done|]. unfold live_of in Hl. simpl in Hl.
    destruct (String.eqb_spec k id); [congruence|done].
Qed.

Ltac run_steps :=
  repeat (first [ progress autorewrite with runs | rewrite run_bind by (eauto 20 with sql) ]; simpl;
          rewrite ?lookup_insert_eq).

Ltac retire := run_steps; repeat (case_match; simplify_map_eq; run_steps); try done;
               try by apply idle_retire.

Lemma idle_SetSuspended id gen d : dormant_idle d -> dormant_idle (run (SetSuspended id gen) d).2.
Proof. intros Hd. unfold SetSuspended. retire. Qed.
Lemma idle_RevertSuspended id gen d :
  dormant_idle d -> dormant_idle (run (RevertSuspended id gen) d).2.
Proof. intros Hd. unfold RevertSuspended. retire. Qed.
Lemma idle_SetError id st de d : dormant_idle d -> dormant_idle (run (SetError id st de) d).2.
Proof. intros Hd. unfold SetError. retire. Qed.
Lemma idle_MarkDeleted id ts d : dormant_idle d -> dormant_idle (run (MarkDeleted id ts) d).2.
Proof. intros Hd. unfold MarkDeleted. retire. Qed.

(** In a fault-free run a transaction only decides whether the body's effect is kept. *)
Lemma run_withTx {A} top (m : DB A) (I : Tables -> Prop) d :
  faultless m -> I d -> I (run m d).2 -> I (run (withTx top m) d).2.
Proof.
  intros Hm Hd Hr. destruct top; simpl; [|done]. rewrite run_tx by done.
  by destruct (run m d) as [[e|a] d'].
Qed.

Lemma faultless_withTx {A} top (m : DB A) : faultless m -> faultless (withTx top m).
Proof. destruct top; simpl; auto with sql. Qed.
#[export] Hint Resolve faultless_withTx : sql.
#[export] Hint Extern 3 (faultless (expect_one _ _)) => apply faultless_expect_one : sql.
#[export] Hint Extern 3 (faultless (markDeletedClaimed _ _ _ _ _)) => unfold markDeletedClaimed : sql.

Lemma idle_MarkForkingLost top id seq d :
  dormant_idle d -> dormant_idle (run (MarkForkingLost top id seq) d).2.
Proof.
  intros Hd. unfold MarkForkingLost. apply run_withTx; [eauto 20 with sql|done|].
  rewrite run_bind by (eauto 20 with sql). rewrite (run_exec_id _ _ _ id) by pin_key.
  retire.
Qed.
Lemma idle_MarkDeletedClaimed top id lease seq gen ts d :
  dormant_idle d -> dormant_idle (run (MarkDeletedClaimed top id lease seq gen ts) d).2.
Proof.
  intros Hd. unfold MarkDeletedClaimed. apply run_withTx; [eauto 20 with sql|done|].
  unfold markDeletedClaimed.
  rewrite run_bind by (eauto 20 with sql). rewrite (run_exec_id _ _ _ id) by pin_key.
  retire.
Qed.

(** *** The methods that open an episode *)

Lemma idle_open d id s g c :
  dormant_idle d -> spawns d !! id = Some s -> dormant (SpawnStatus s) = false ->
  dormant_idle (d <| spawn_containers ::= <[(id, g) := c]> |>).
Proof.
  intros Hd Hs Hdor k s' h Hs' Hdor' (c' & Hc' & Hl). simpl in *.
  apply lookup_insert_Some in Hc' as [[[= <- <-] <-]|[_ Hc']]; [congruence|].
  apply (Hd k s' h Hs' Hdor'). by exists c'.
Qed.

Lemma idle_run_insert_container id g c d s :
  dormant_idle d -> spawns d !! id = Some s -> dormant (SpawnStatus s) = false ->
  dormant_idle (run (insert_container (id, g) c) d).2.
Proof.
  intros Hd Hs Hdor. unfold insert_container. rewrite run_stmt.
  destruct (spawn_containers d !! (id, g)); [done|].
  destruct (is_live c && _); [done|]. by eapply idle_open.
Qed.

Lemma idle_row d id s' :
  dormant_idle d -> dormant (SpawnStatus s') = false -> dormant_idle (d <| spawns ::= <[id := s']> |>).
Proof.
  intros Hd Hdor k s g Hs Hdor' Hl. simpl in Hs.
  apply lookup_insert_Some in Hs as [[<- <-]|[_ Hs]]; [congruence|by eapply Hd].
Qed.

Lemma idle_ClaimStarting id from d :
  dormant_idle d -> dormant_idle (run (ClaimStarting id from) d).2.
Proof.
  intros Hd. unfold ClaimStarting.
  rewrite run_bind by (eauto 20 with sql). autorewrite with runs.
  destruct (spawns d !! id) as [s|] eqn:Hs; [|done]. destruct (status_in from s); [|done].
  rewrite run_bind by (eauto 20 with sql). autorewrite with runs. simpl. rewrite lookup_insert_eq.
  rewrite run_bind by (eauto 20 with sql). autorewrite with runs.
  rewrite run_bind by (eauto 20 with sql). unfold maxGen, query. rewrite run_stmt.
  rewrite run_bind by (unfold insert_container; eauto 20 with sql).
  match goal with |- context [run (insert_container (id, ?g) ?c) ?d'] =>
    assert (Hi : dormant_idle (run (insert_container (id, g) c) d').2) end.
  { eapply idle_run_insert_container; [|by simpl; rewrite lookup_insert_eq|done].
    by apply idle_retire. }
  by destruct (run (insert_container _ _) _) as [[e|[]] d'].
Qed.

Lemma always_run {A} R (m : DB A) d : always R m -> R d (run m d).2.
Proof. intros Hm. specialize (Hm (mkSession d [])). unfold run. by destruct (m _) as [r s]. Qed.

Lemma faultless_check_declared d a v ms : faultless (check_declared d a v ms).
Proof. induction ms as [|[n m] ms IH]; simpl; [|case_match]; eauto 20 with sql. Qed.
#[export] Hint Resolve faultless_check_declared : sql.

Lemma idle_Create id s ms d : dormant_idle d -> dormant_idle (run (Create id s ms) d).2.
Proof.
  intros Hd. unfold Create, query.
  rewrite run_bind by (eauto 20 with sql). rewrite run_stmt. case_match; [done|].
  rewrite run_bind by (eauto 20 with sql). rewrite run_stmt.
  rewrite run_bind by (eauto 20 with sql).
  assert (run (check_declared d (AppID s) (AppVersion s) ms) d =
          ((run (check_declared d (AppID s) (AppVersion s) ms) d).1, d)) as ->.
  { generalize (AppID s) (AppVersion s). clear. intros a v.
    induction ms as [|[n m] ms IH]; simpl; [done|]. by case_match. }
  destruct (run (check_declared _ _ _ _) d).1 as [|[]]; [done|].
  unfold insert_spawn. rewrite run_bind by (eauto 20 with sql). rewrite run_stmt.
  destruct (spawns d !! id) eqn:Hid; [done|].
  rewrite run_bind by (unfold insert_container; eauto 20 with sql).
  match goal with |- context [run (insert_container (id, ?g) ?c) ?d'] =>
    assert (Hi : dormant_idle (run (insert_container (id, g) c) d').2) end.
  { eapply idle_run_insert_container; [|by simpl; rewrite lookup_insert_eq|done].
    by apply idle_row. }
  destruct (run (insert_container _ _) _) as [[e|[]] d']; [done|]. simpl in *.
  revert Hi. apply (always_run (keeps dormant_idle)). eauto with always.
Qed.

Lemma run_op_idle top op d :
  cp_call op -> dormant_idle d -> dormant_idle (run (run_op top op) d).2.
Proof.
  intros Hcall Hd.
  assert (Hign : forall A (m : DB A), faultless m -> dormant_idle (run m d).2 ->
                   dormant_idle (run (ignore m) d).2).
  { intros A m Hm Hr. unfold ignore. rewrite run_bind by done. by destruct (run m d) as [[|] ?]. }
  destruct op; cbn [run_op];
    try (by auto using idle_SetSuspended, idle_RevertSuspended, idle_SetError, idle_MarkDeleted,
           idle_Create);
    try (apply Hign; [unfold ClaimStarting, MarkForkingLost, MarkDeletedClaimed, insert_container;
                      eauto 20 with sql|];
         by auto using idle_ClaimStarting, idle_MarkForkingLost, idle_MarkDeletedClaimed);
    revert Hd; apply (always_run (keeps dormant_idle));
    unfold_ops; always_walk; try apply idle_exec_spawns; always_walk; intros.
  all: simpl in *; try done.
  - unfold status_in, dormant in *. brefl. set_solver.
  - unfold dormant in *. brefl. set_solver.
Qed.

(** A step in which no statement fails. *)
Inductive clean_step (d : Tables) (op : SpawnOp) : Tables -> Prop :=
| clean_step_intro (top : bool) : clean_step d op (run (run_op top op) d).2.

Inductive clean_history (d : Tables) : Tables -> Prop :=
| clean_refl : clean_history d d
| clean_cons d' op d'' :
    clean_history d d' -> cp_call op -> clean_step d' op d'' -> clean_history d d''.

Lemma clean_step_ok d op d' : cp_call op -> clean_step d op d' -> ledger_ok d -> ledger_ok d'.
Proof.
  intros Hcall [top] [Hwf Hd]. split; [|by apply run_op_idle].
  by apply (always_run (keeps ledger_wf) _ _ (run_op_wf top op)).
Qed.

Definition empty_ledger (versions : gset (string * string))
    (decls : gset (string * string * string)) : Tables := mkTables ∅ ∅ ∅ ∅ ∅ versions decls.

Lemma empty_ledger_ok v m : ledger_ok (empty_ledger v m).
Proof.
  split; [split|]; unfold live_in, dormant_idle; intros *; simpl; rewrite ?lookup_empty;
    [by intros (c & Hc & _)|done..].
Qed.

(** ** Claimed writes *)

Lemma head_select_live d id kc :
  head (select_where (live_of id) (spawn_containers d)) = Some kc -> live_in d id kc.1.2.
Proof.
  intros Hh. destruct kc as [[id' g] c]. apply head_Some_elem_of in Hh.
  apply elem_of_select_where in Hh as [Hc Hl]. unfold live_of in Hl. simpl in *. brefl.
  destruct Hl as [-> Hl]. by exists c.
Qed.

Lemma live_generation_live d id g : live_generation d id = Some g -> live_in d id g.
Proof.
  unfold live_generation. destruct (head _) as [kc|] eqn:Hh; [|done]. intros [= <-].
  by apply head_select_live.
Qed.

Lemma status_in_ne from s st :
  SpawnStatus s = st -> status_in from s = true -> bool_decide (st ∈ from) = false -> False.
Proof. unfold status_in. intros ->. congruence. Qed.

Lemma history_wf d d' : ledger_wf d -> history d d' -> ledger_wf d'.
Proof.
  intros Hwf Hh. revert Hwf. apply (history_always (keeps ledger_wf) d d'); [apply _..| |done].
  exact run_op_wf.
Qed.

Lemma clean_history_ok d d' : clean_history d d' -> ledger_ok d -> ledger_ok d'.
Proof. induction 1 as [|d' op d'' _ IH Hcall Hst]; [done|]. intros Hd. eauto using clean_step_ok. Qed.

Lemma history_seq_guards d d' : history d d' -> rowwise seq_guards d d'.
Proof. apply (history_always (rowwise seq_guards)); [apply _..|exact run_op_seq_guards]. Qed.

Lemma run_sessions {A} (m : DB A) d : (run m d).2 = tables (m (mkSession d [])).2.
Proof. unfold run. by destruct (m _). Qed.

(** What a claimed CAS that succeeded knows about the row it found. *)
Lemma run_TransitionClaimed id lease seq gen to d :
  run (TransitionClaimed id lease seq gen to) d =
  match spawns d !! id with
  | Some s => if claimed id lease seq id s && opt_eqb (live_generation d id) gen
              then (Ok (seq + 1), d <| spawns ::= <[id := bump (set_status to s)]> |>)
              else (Err ErrConflict, d)
  | None => (Err ErrConflict, d)
  end.
Proof.
  unfold TransitionClaimed. rewrite run_bind by (eauto 20 with sql).
  rewrite (run_exec_id _ _ _ id) by pin_key.
  destruct (spawns d !! id); [|done]. by destruct (_ && _).
Qed.

Lemma run_Acquire id holder lease now deadline seq d :
  run (Acquire id holder lease now deadline seq) d =
  match spawns d !! id with
  | Some s => if (StatusSeq s =? seq) && claim_free now s
              then (Ok (seq + 1), d <| spawns ::= <[id := bump (set_claim holder lease deadline s)]> |>)
              else (Err ErrConflict, d)
  | None => (Err ErrConflict, d)
  end.
Proof.
  unfold Acquire. rewrite run_bind by (eauto 20 with sql).
  rewrite (run_exec_id _ _ _ id) by pin_key.
  destruct (spawns d !! id); [|done]. unfold id_is. rewrite String.eqb_refl. simpl. by destruct (_ && _).
Qed.
