(* ===== verification/SpawnContract.v ===== *)
(** * The contract of the spawn ledger

    The theorems the control plane relies on, over the operations of [SpawnStore] and the
    histories of [SpawnLifecycle], with a concrete ledger on which each of them applies. *)

From S2P Require Import Prelude GoLib Database SpawnStore SpawnLifecycle.
(** ** Claiming a new episode *)

Definition end_episode (p : Phase) (ts : Z) (c : Container) : Container :=
  c <| EndedAt := Some ts |> <| ContainerPhase := p |>.

Lemma max_gen_ext id d d' :
  (forall g, is_Some (spawn_containers d' !! (id, g)) -> is_Some (spawn_containers d !! (id, g))) ->
  max_gen id d' <= Z.max 0 (max_gen id d).
Proof.
  intros Hsub. destruct (max_gen_attained id d') as [->|[c Hc]]; [lia|].
  destruct (Hsub (max_gen id d')) as [c' Hc']; [by rewrite Hc|].
  pose proof (max_gen_upto id d _ _ Hc'). lia.
Qed.

Lemma run_insert_episode id g c d :
  spawn_containers d !! (id, g) = None -> (forall h, ~ live_in d id h) ->
  run (insert_container (id, g) c) d = (Ok tt, d <| spawn_containers ::= <[(id, g) := c]> |>).
Proof.
  intros Hnone Hdead. unfold insert_container. rewrite run_stmt, Hnone. simpl.
  assert (count_where (live_of id) (spawn_containers d) = 0) as ->.
  { unfold count_where. rewrite (proj2 (select_where_nil _ _)); [done|].
    intros [k h] c' Hc'. unfold live_of. simpl. destruct (String.eqb_spec k id) as [->|]; [|done].
    simpl. destruct (is_live c') eqn:Hl; [|done]. destruct (Hdead h). by exists c'. }
  by rewrite andb_false_r.
Qed.

(** The whole of [ClaimStarting] on a well-formed ledger. *)
Lemma run_ClaimStarting id from d s :
  ledger_wf d -> spawns d !! id = Some s ->
  run (ClaimStarting id from) d =
  if status_in from s then
    (Ok (max_gen id d + 1),
     d <| spawns ::= <[id := set_status Starting (bump s)]> |>
       <| spawn_containers ::= fun t =>
            <[(id, max_gen id d + 1) := mkContainer "" PhaseStarting (LastUsedAt s) None]>
              (update_where (live_of id) (end_episode PhaseLost (LastUsedAt s)) t) |>)
  else (Err ErrConflict, d).
Proof.
  intros Hwf Hs. unfold ClaimStarting.
  rewrite run_bind by (unfold guardStatus; eauto 20 with sql).
  rewrite run_guardStatus, Hs. destruct (status_in from s); [|done].
  rewrite run_bind by (unfold lastUsedTS; eauto 20 with sql).
  rewrite run_lastUsedTS. simpl. rewrite lookup_insert_eq.
  rewrite run_bind by (eauto 20 with sql). rewrite run_endLiveContainer.
  rewrite run_bind by (eauto 20 with sql). unfold maxGen, query. rewrite run_stmt.
  set (d2 := set_field spawn_containers _ _).
  assert (Hdead : forall h, ~ live_in d2 id h).
  { exact (proj1 (wf_ended (d <| spawns ::= <[id := set_status Starting (bump s)]> |>) id
                    (end_episode PhaseLost (LastUsedAt s)) (fun _ => eq_refl))). }
  assert (Hsame : forall k, is_Some (spawn_containers d2 !! k) <-> is_Some (spawn_containers d !! k)).
  { intros k. simpl. rewrite lookup_update_where. apply fmap_is_Some. }
  assert (Hmax : max_gen id d2 = max_gen id d).
  { pose proof (max_gen_nonneg id d Hwf).
    assert (0 <= max_gen id d2).
    { destruct (max_gen_attained id d2) as [->|[c Hc]]; [lia|].
      destruct (proj1 (Hsame (id, max_gen id d2))) as [c0 Hc0]; [by rewrite Hc|].
      pose proof (wf_pos _ Hwf _ _ _ Hc0). lia. }
    pose proof (max_gen_ext id d d2 (fun g => proj1 (Hsame (id, g)))).
    pose proof (max_gen_ext id d2 d (fun g => proj2 (Hsame (id, g)))). lia. }
  rewrite Hmax. rewrite run_bind by (unfold insert_container; eauto 20 with sql).
  rewrite run_insert_episode; [done| |done].
  destruct (spawn_containers d2 !! (id, max_gen id d + 1)) as [c|] eqn:Hc; [|done]. exfalso.
  destruct (proj1 (Hsame (id, max_gen id d + 1))) as [c0 Hc0]; [by rewrite Hc|].
  pose proof (max_gen_upto id d _ _ Hc0). lia.
Qed.

(** ** Creation *)

Lemma hoare_check_declared (P : Tables -> Prop) dc a v ms :
  hoare P (check_declared dc a v ms)
    (fun _ d => P d /\ forall n m, (n, m) ∈ ms -> (a, v, n) ∈ app_version_mounts dc) (fun _ => True).
Proof.
  intros s Hs. induction ms as [|[n m] ms IH]; simpl; [by split; [|intros ?? ?%elem_of_nil]|].
  destruct (bool_decide _) eqn:Hd; [|done]. brefl.
  destruct (check_declared _ _ _ _ _) as [[e|u] s']; [done|]. destruct IH as [? IH].
  split; [done|]. intros n' m' [[= -> ->]|Hin]%elem_of_cons; eauto.
Qed.

(** What a created spawn looks like. *)
Definition created (id : string) (s : Spawn) (ms : list (string * Mount)) (d d' : Tables) : Prop :=
  spawns d !! id = None /\
  spawns d' = <[id := s <| SpawnStatus := Starting |> <| ModelApplied := true |>]> (spawns d) /\
  spawn_containers d' =
    <[(id, 1) := mkContainer "" PhaseStarting (CreatedAt s) None]> (spawn_containers d) /\
  (forall n m, (n, m) ∈ ms -> spawn_mounts d' !! (id, n) = Some m /\
     (AppID s, AppVersion s, n) ∈ app_version_mounts d) /\
  (AppID s, AppVersion s) ∈ app_versions d.

Lemma hoare_insert_mounts id ms d1 done :
  hoare (fun d => spawns d = spawns d1 /\ spawn_containers d = spawn_containers d1 /\
                  forall n m, (n, m) ∈ done -> spawn_mounts d !! (id, n) = Some m)
    (insert_mounts id ms)
    (fun _ d => spawns d = spawns d1 /\ spawn_containers d = spawn_containers d1 /\
                forall n m, (n, m) ∈ done ++ ms -> spawn_mounts d !! (id, n) = Some m)
    (fun _ => True).
Proof.
  revert done. induction ms as [|[n m] ms IH]; intros prev; simpl.
  { apply hoare_ret. by rewrite app_nil_r. }
  eapply (hoare_bind _ _ _ (fun _ d => spawns d = spawns d1 /\
      spawn_containers d = spawn_containers d1 /\
      forall n' m', (n', m') ∈ prev ++ [(n, m)] -> spawn_mounts d !! (id, n') = Some m')).
  - apply hoare_stmt; [done|]. intros d (Hs & Hc & Hm).
    destruct (spawn_mounts d !! (id, n)) eqn:Hn; simpl; [done|]. split_and!; [done..|].
    intros n' m' [Hin|[= -> ->]%list_elem_of_singleton]%elem_of_app; [|by rewrite lookup_insert_eq].
    specialize (Hm _ _ Hin). rewrite lookup_insert_ne; [done|congruence].
  - intros ?. eapply hoare_weaken; [apply (IH (prev ++ [(n, m)]))|done|].
    intros ? d. by rewrite <- app_assoc.
Qed.

Lemma hoare_Create_created id s ms d0 :
  hoare (fun d => d = d0) (Create id s ms) (fun _ => created id s ms d0) (fun _ => True).
Proof.
  unfold Create.
  eapply (hoare_bind _ _ _ (fun known d => d = d0 /\
    known = bool_decide ((AppID s, AppVersion s) ∈ app_versions d0))).
  { apply hoare_stmt; [done|]. by intros d ->. }
  intros known. destruct known; simpl; [|by apply hoare_throw].
  eapply (hoare_bind _ _ _ (fun decls d => (d = d0 /\ (AppID s, AppVersion s) ∈ app_versions d0) /\
    decls = d0)).
  { apply hoare_stmt; [done|]. intros d [-> Hk]. symmetry in Hk. by brefl. }
  intros decls. eapply hoare_bind; [apply hoare_check_declared|]. intros ?. simpl.
  eapply (hoare_bind _ _ _ (fun _ d => spawns d0 !! id = None /\
     d = d0 <| spawns ::= <[id := s <| SpawnStatus := Starting |> <| ModelApplied := true |>]> |> /\
     (AppID s, AppVersion s) ∈ app_versions d0 /\
     forall n m, (n, m) ∈ ms -> (AppID s, AppVersion s, n) ∈ app_version_mounts d0)).
  { apply hoare_stmt; [done|]. intros d (((-> & Hk) & ->) & Hm).
    destruct (spawns d0 !! id) eqn:Hid; [done|]. by split_and!. }
  intros ?. simpl.
  set (d1 := d0 <| spawns ::= <[id := s <| SpawnStatus := Starting |> <| ModelApplied := true |>]> |>
                <| spawn_containers ::=
                     <[(id, 1) := mkContainer "" PhaseStarting (CreatedAt s) None]> |>).
  eapply (hoare_bind _ _ _ (fun _ d => (spawns d0 !! id = None /\
     (AppID s, AppVersion s) ∈ app_versions d0 /\
     forall n m, (n, m) ∈ ms -> (AppID s, AppVersion s, n) ∈ app_version_mounts d0) /\ d = d1)).
  { apply hoare_stmt; [done|]. intros d (Hid & -> & Hk & Hm). simpl.
    destruct (spawn_containers d0 !! (id, 1)); [done|].
    destruct (0 <? _); [done|]. by split_and!. }
  intros ?. intros sess [(Hid & Hk & Hm) Hd1].
  pose proof (hoare_insert_mounts id ms d1 [] sess) as Him.
  destruct (insert_mounts id ms sess) as [[e|u] s']; [done|].
  destruct Him as (Hs & Hc & Hms).
  { split_and!; [by rewrite Hd1..|]. intros ?? Hin. by apply elem_of_nil in Hin. }
  split_and!; [done..| |done]. intros n m Hin. split; eauto.
Qed.

(** ** The theorems *)

(** C1: whatever the operations, their interleaving and the statement failures, a spawn has at
    most one running episode and it is the one with the highest generation. *)
Theorem one_live_episode versions decls d id g :
  history (empty_ledger versions decls) d -> live_in d id g ->
  (forall g', live_in d id g' -> g' = g) /\
  (forall g' c', spawn_containers d !! (id, g') = Some c' -> 1 <= g' <= g).
Proof.
  intros Hh Hg. pose proof (history_wf _ _ (proj1 (empty_ledger_ok _ _)) Hh) as Hwf. split.
  - intros g' Hg'. by eapply wf_unique.
  - intros g' c' Hc'. split; [by eapply wf_pos|by eapply wf_newest].
Qed.

(** In every fault-free history of control-plane calls a suspended, errored or deleted spawn
    has no running episode (so a pod reported for it is an orphan). *)
Theorem dormant_spawn_is_idle versions decls d id s g :
  clean_history (empty_ledger versions decls) d -> spawns d !! id = Some s ->
  SpawnStatus s ∈ [Suspended; Errored; Deleted] -> ~ live_in d id g.
Proof.
  intros Hh Hs Hst. destruct (clean_history_ok _ _ Hh (empty_ledger_ok _ _)) as [_ Hd].
  apply (Hd _ _ _ Hs). unfold dormant. by brefl.
Qed.

(** ** Deletion *)

(** A history of control-plane calls, with whatever statement failures the driver injects. *)
Inductive cp_history (d : Tables) : Tables -> Prop :=
| cp_refl : cp_history d d
| cp_step d' op d'' : cp_history d d' -> cp_call op -> op_step d' op d'' -> cp_history d d''.

(** One call, on the top-level store or in a transaction of its own. *)
Definition issue (in_tx : bool) (op : SpawnOp) : DB unit :=
  if in_tx then run_in_tx (run_op false op) else run_op true op.

Section Gone.
Context (id : string).
(** The row is deleted and its episode has ended. *)
Definition gone (d : Tables) : Prop :=
  (exists s, spawns d !! id = Some s /\ SpawnStatus s = Deleted) /\ forall g, ~ live_in d id g.
Abbreviation keeps_gone := (keeps gone).

Lemma gone_exec_spawns p f :
  (forall d s, gone d -> SpawnStatus s = Deleted -> p d id s = true -> SpawnStatus (f s) = Deleted) ->
  always keeps_gone (exec_spawns p f).
Proof.
  intros Hf. apply always_stmt; [apply _|]. intros d [(s & Hs & Hdel) Hl]. split; [|done].
  exists (if p d id s then f s else s). cbn. rewrite lookup_update_where, Hs. split; [done|].
  destruct (p d id s) eqn:Hp; [|done]. apply (Hf d); [|done|done]. split; [by exists s|done].
Qed.
Lemma gone_containers d d' :
  spawns d' = spawns d ->
  (forall g c', spawn_containers d' !! (id, g) = Some c' -> is_live c' = true -> live_in d id g) ->
  keeps_gone d d'.
Proof. intros Hsp Hct [Hs Hl]. split; [by rewrite Hsp|]. intros g (c & Hc & Hlive). eapply (Hl g), Hct; done. Qed.
Lemma gone_exec_containers p f :
  (forall c, is_live (f c) = true -> is_live c = true) -> always keeps_gone (exec_containers p f).
Proof.
  intros Hf. apply always_stmt; [apply _|]. intros d. apply gone_containers; [done|]. intros g c'. cbn.
  rewrite lookup_update_where. destruct (spawn_containers d !! (id, g)) as [c|] eqn:Hc; [|done].
  intros [= <-] Hlive. exists c. split; [done|]. destruct (p (id, g) c); auto.
Qed.
Lemma gone_query {A} (q : Tables -> A) : always keeps_gone (query q).
Proof. apply always_stmt; [apply _|]. by intros d Hd. Qed.
Lemma gone_exec_mounts p f : always keeps_gone (exec_mounts p f).
Proof. apply always_stmt; [apply _|]. by intros d Hd. Qed.
Lemma gone_insert_mount k m : always keeps_gone (insert_mount k m).
Proof. apply always_stmt; [apply _|]. intros d Hd. by case_match. Qed.
Lemma gone_insert_mounts k ms : always keeps_gone (insert_mounts k ms).
Proof.
  induction ms as [|[n m] ms IH]; simpl; [by apply always_ret, _|].
  apply always_bind; [apply _|apply gone_insert_mount|done].
Qed.
Lemma gone_expect_one e n : always keeps_gone (expect_one e n).
Proof. unfold expect_one. case_match; [by apply always_ret, _|by apply always_throw, _]. Qed.
Lemma gone_check_declared d a v ms : always keeps_gone (check_declared d a v ms).
Proof.
  induction ms as [|[n m] ms IH]; simpl; [by apply always_ret, _|].
  case_match; [done|by apply always_throw, _].
Qed.
Lemma gone_insert_spawn k s : always keeps_gone (insert_spawn k s).
Proof.
  apply always_stmt; [apply _|]. intros d [(s0 & Hs & Hdel) Hl]. destruct (spawns d !! k) eqn:Hk; [by split; [exists s0|]|].
  split; [|done]. exists s0. cbn. by rewrite lookup_insert_ne by congruence.
Qed.
Lemma gone_insert_container k g c : k <> id -> always keeps_gone (insert_container (k, g) c).
Proof.
  intros Hk. apply always_stmt; [apply _|]. intros d. destruct (spawn_containers d !! _); [done|].
  case_match; [done|]. apply gone_containers; [done|]. intros h c'. cbn. rewrite lookup_insert_ne by congruence. intros Hc Hlive. by exists c'.
Qed.
#[local] Hint Resolve gone_query gone_exec_mounts gone_insert_mount gone_insert_mounts gone_expect_one gone_check_declared
  gone_insert_spawn gone_insert_container : always.
#[local] Hint Extern 5 (always _ (exec_containers _ _)) =>
  apply gone_exec_containers; intros; simpl in *; (done || congruence) : always.

#[local] Hint Extern 4 (always (keeps gone) (exec_spawns _ _)) =>
  apply gone_exec_spawns; intros; simpl in *; unfold status_in in *; brefl; (tauto || set_solver) : always.

(** A method that begins with a guard on the row goes no further. *)
Lemma gone_guardStatus from set :
  bool_decide (Deleted ∈ from) = false ->
  hoare gone (guardStatus id from set) (fun _ _ => False) gone.
Proof.
  intros Hfrom. unfold guardStatus. eapply (hoare_bind _ _ _ (fun n d => gone d /\ n = 0)).
  - apply hoare_stmt; [done|]. intros d Hd. pose proof Hd as [(s & Hs & Hdel) Hl].
    set (p := fun k r => id_is id k && status_in from r).
    pose proof (exec_where_key p (fun r => set (bump r)) (spawns d) id) as Heq.
    assert (p id s = false) as Hp by (unfold p, status_in; by rewrite Hdel, Hfrom, andb_false_r).
    rewrite Hs, Hp in Heq.
    specialize (Heq ltac:(unfold p; pin_key)). injection Heq as Hn Hupd. split; [|done]. split; [|done]. exists s. cbn. by rewrite Hupd.
  - intros n d [? ->]. done.
Qed.

Lemma gone_guarded {A} k from set (m : DB A) :
  bool_decide (Deleted ∈ from) = false -> (k <> id -> always keeps_gone m) ->
  hoare gone (guardStatus k from set;; m) (fun _ => gone) gone.
Proof.
  intros Hfrom Hm. destruct (decide (k = id)) as [->|Hk].
  - eapply hoare_bind; [by apply gone_guardStatus|]. intros ? ? [].
  - apply (always_hoare gone). unfold guardStatus. specialize (Hm Hk). always_walk.
    apply gone_exec_spawns. intros d r _ _ Hp. unfold id_is in Hp. brefl.
    destruct Hp as [Hp _]. congruence.
Qed.

Lemma gone_Create k s ms : always keeps_gone (Create k s ms).
Proof.
  apply (always_hoare gone). unfold Create.
  eapply (hoare_bind _ _ _ (fun _ => gone)); [apply (always_hoare gone); always_walk|].
  intros [|]; simpl; [|by apply hoare_throw].
  eapply (hoare_bind _ _ _ (fun _ => gone)); [apply (always_hoare gone); always_walk|]. intros decls.
  eapply (hoare_bind _ _ _ (fun _ => gone)); [apply (always_hoare gone); always_walk|]. intros ?.
  eapply (hoare_bind _ _ _ (fun _ d => gone d /\ k <> id)).
  { apply hoare_stmt; [done|]. intros d [(r & Hr & Hdel) Hl].
    destruct (spawns d !! k) eqn:Hk; [by split; [exists r|]|]. assert (k <> id) as Hne by congruence.
    split; [|done]. split; [|done]. exists r. cbn. by rewrite lookup_insert_ne. }
  intros ? s0 [Hg Hk]. revert s0 Hg. change (hoare gone (insert_container (k, 1)
    (mkContainer "" PhaseStarting (CreatedAt s) None);; insert_mounts k ms) (fun _ => gone) gone).
  apply (always_hoare gone). always_walk.
Qed.

Lemma gone_ClaimStarting k from : bool_decide (Deleted ∈ from) = false -> always keeps_gone (ClaimStarting k from).
Proof.
  intros Hfrom. apply (always_hoare gone), gone_guarded; [done|]. intros Hk. unfold lastUsedTS, endLiveContainer, maxGen.
  always_walk.
Qed.

(** No operation, whichever of its statements fail, touches a deleted spawn without an episode. *)
Lemma run_op_gone top op : cp_call op -> always keeps_gone (run_op top op).
Proof.
  intros Hcall. destruct op; cbn in Hcall;
    lazymatch goal with
    | |- context [OpCreate] => apply gone_Create
    | |- context [OpClaimStarting] =>
        apply always_bind; [apply _|apply gone_ClaimStarting; by destruct Hcall as [-> | ->]|intros ?; by apply always_ret, _]
    | _ => unfold_ops; always_walk
    end.
  all: try (apply gone_exec_spawns; intros d r _ Hdel Hp; exfalso; brefl; destruct_and?;
    match goal with Hs : status_in ?f r = true |- _ => exact (status_in_ne f r Deleted Hdel Hs eq_refl) end).
  apply gone_exec_spawns. intros d r [_ Hl] _ Hp. exfalso. unfold claimed, id_is, opt_eqb in Hp. brefl.
  destruct Hp as [[[-> _] _] Hg]. exact (Hl _ (live_generation_live _ _ _ Hg)).
Qed.

Lemma cp_history_gone d d' : cp_history d d' -> keeps_gone d d'.
Proof.
  induction 1 as [|d' op d'' _ IH Hcall [in_tx fs]]; [done|]. intros Hd. specialize (IH Hd). destruct in_tx.
  - exact (always_tx ErrDriver _ _ _ (run_op_gone false op Hcall) (mkSession d' fs) IH).
  - exact (run_op_gone true op Hcall (mkSession d' fs) IH).
Qed.

(** The two statements of a deletion, when both succeed. *)
Lemma hoare_delete_row p f e ts :
  (forall d k s, p d k s = true -> k = id) -> (forall s, SpawnStatus (f s) = Deleted) ->
  hoare (fun _ => True) (exec_spawns p f ≫= expect_one e;; endLiveContainer id PhaseLost ts)
    (fun _ => gone) (fun _ => True).
Proof.
  intros Hp Hf.
  eapply (hoare_bind _ _ _ (fun _ d => exists s, spawns d !! id = Some s /\ SpawnStatus s = Deleted)).
  - eapply (hoare_bind _ _ _ (fun n d => n = 1 -> exists s, spawns d !! id = Some s /\ SpawnStatus s = Deleted)).
    + apply hoare_stmt; [done|]. intros d _ Hn. cbn in *.
      pose proof (exec_where_key (p d) f (spawns d) id (Hp d)) as Heq.
      destruct (spawns d !! id) as [s|] eqn:Hs; [|injection Heq; lia].
      destruct (p d id s); [|injection Heq; lia]. injection Heq as _ ->.
      exists (f s). by rewrite lookup_insert_eq.
    + intros n. unfold expect_one. destruct (Z.eqb_spec n 1) as [->|]; [apply hoare_ret|apply hoare_throw]; auto.
  - intros ?. unfold endLiveContainer. eapply (hoare_bind _ _ _ (fun _ => gone)); [|by intros; apply hoare_ret].
    apply hoare_stmt; [done|]. intros d Hs. split; [done|]. apply (wf_ended d id (end_episode PhaseLost ts)).
    done.
Qed.
Lemma hoare_run_in_tx {A} (m : DB A) Q :
  hoare (fun _ => True) m Q (fun _ => True) -> hoare (fun _ => True) (run_in_tx m) Q (fun _ => True).
Proof.
  intros Hm s _. specialize (Hm s I). unfold run_in_tx, Database.run_in_tx.
  destruct (m s) as [[e|a] s']; [done|]. by destruct (faults s') as [|[e|] fs].
Qed.
Lemma hoare_delete top op :
  (exists ts, op = OpMarkDeleted id ts) \/ (exists lease seq gen ts, op = OpMarkDeletedClaimed id lease seq gen ts) ->
  hoare (fun _ => True) (run_op top op) (fun _ => gone) (fun _ => True).
Proof.
  intros [(ts & ->)|(lease & seq & gen & ts & ->)]; cbn [run_op].
  - apply hoare_delete_row; [pin_key|done].
  - unfold ignore. eapply (hoare_bind _ _ _ (fun _ => gone)); [|by intros; apply hoare_ret].
    enough (hoare (fun _ => True) (markDeletedClaimed id lease seq gen ts) (fun _ => gone) (fun _ => True))
      by (unfold MarkDeletedClaimed, withTx; destruct top; [by apply hoare_run_in_tx|done]).
    intros s _. unfold markDeletedClaimed.
    pose proof (hoare_delete_row (fun d k s => claimed id lease seq k s
                 && (if gen =? 0 then is_none (live_generation d k) else opt_eqb (live_generation d k) gen))
      (fun s => bump (clear_claim (set_status Deleted s <| DeletedAt := Some ts |>
                                     <| ForkCaptureDeadline := None |>))) ErrConflict ts
      ltac:(pin_key) ltac:(done) s I) as Hd. revert Hd. unfold mbind, sql_bind.
    destruct (exec_spawns _ _ s) as [[?|n] s1]; [done|]. unfold expect_one. destruct (n =? 1); [|done]. cbn.
    destruct (endLiveContainer _ _ _ s1) as [[?|?] s2]; done.
Qed.
End Gone.

(** C3: a deletion that reported success is final.  Once MarkDeleted or MarkDeletedClaimed, on
    the top-level store or inside a transaction, has returned without an error, no later sequence
    of calls of the control plane (which claims episodes from Suspended, Unreachable or Errored
    only), whichever of their statements fail, brings the spawn back: the row
    stays Deleted, no episode of the spawn runs again (neither a new one, nor by a claimed
    transition of a driver that still holds its lease), and [Get] keeps answering ErrNotFound. *)
Theorem deleted_is_final id op in_tx fs d sess d' :
  (exists ts, op = OpMarkDeleted id ts) \/
  (exists lease seq gen ts, op = OpMarkDeletedClaimed id lease seq gen ts) ->
  issue in_tx op (mkSession d fs) = (Ok tt, sess) ->
  cp_history (tables sess) d' ->
  (exists s', spawns d' !! id = Some s' /\ SpawnStatus s' = Deleted) /\
  (forall gen, ~ live_in d' id gen) /\
  run (Get id) d' = (Err ErrNotFound, d').
Proof.
  intros Hop Hrun Hh.
  assert (gone id (tables sess)) as Hg.
  { assert (hoare (fun _ => True) (issue in_tx op)
              (fun _ => gone id) (fun _ => True)) as Hd
      by (destruct in_tx; [apply hoare_run_in_tx|]; by apply hoare_delete).
    specialize (Hd (mkSession d fs) I). by rewrite Hrun in Hd. }
  pose proof (cp_history_gone id _ _ Hh Hg) as [(s' & Hs' & Hdel') Hl]. split; [eauto|]. split; [done|].
  unfold Get, query. rewrite run_bind by (eauto 20 with sql). rewrite run_stmt.
  rewrite (proj2 (select_where_nil _ _)); [done|]. intros k r Hk. unfold not_deleted. brefl.
  destruct (decide (k = id)) as [->|]; [right|by left]. simplify_eq. tauto.
Qed.

(** C2: the optimistic lock works.  A driver reads a row; any history follows; if its claimed
    transition on the sequence number it read then succeeds, the row had the same status and the
    same lease at every moment in between, and the driver held that lease throughout. *)
Theorem cas_no_interference d1 d2 d3 d4 id s1 lease gen to n :
  spawns d1 !! id = Some s1 -> history d1 d2 -> history d2 d3 ->
  run (TransitionClaimed id lease (StatusSeq s1) gen to) d3 = (Ok n, d4) ->
  n = StatusSeq s1 + 1 /\ live_in d3 id gen /\ ClaimLeaseID s1 = Some lease /\
  (exists s2, spawns d2 !! id = Some s2 /\ SpawnStatus s2 = SpawnStatus s1 /\
              ClaimLeaseID s2 = Some lease /\ StatusSeq s2 = StatusSeq s1) /\
  (exists s4, spawns d4 !! id = Some s4 /\ SpawnStatus s4 = to /\ StatusSeq s4 = n).
Proof.
  intros Hs1 H12 H23 Hrun.
  destruct (history_seq_guards _ _ H12 _ _ Hs1) as (s2 & Hs2 & Hle12 & Heq12).
  destruct (history_seq_guards _ _ H23 _ _ Hs2) as (s3 & Hs3 & Hle23 & Heq23).
  rewrite run_TransitionClaimed, Hs3 in Hrun. case_match eqn:Hc; [|done].
  injection Hrun as <- <-. unfold claimed, opt_eqb in Hc. brefl.
  destruct Hc as [[[_ Hseq] Hlease] Hgen]. apply live_generation_live in Hgen.
  destruct Heq12 as (? & ? & ?); [lia|]. destruct Heq23 as (? & ? & ?); [lia|].
  split_and!; [done..|congruence| |].
  - exists s2. split_and!; try done; [congruence|lia].
  - simpl. rewrite lookup_insert_eq. eexists. split_and!; [done..|]. simpl. lia.
Qed.

(** A driver whose lease is not the row's current lease is fenced out: heartbeat, release,
    claimed transition, fork recovery and claimed deletion all fail and change nothing. *)
Theorem stale_lease_fenced d id s lease seq gen to ts deadline top :
  spawns d !! id = Some s -> ClaimLeaseID s <> Some lease ->
  run (Heartbeat id lease deadline) d = (Err ErrClaimLost, d) /\
  run (Release id lease) d = (Err ErrClaimLost, d) /\
  run (TransitionClaimed id lease seq gen to) d = (Err ErrConflict, d) /\
  run (TransitionForkingRecovered id lease seq gen) d = (Err ErrConflict, d) /\
  run (MarkDeletedClaimed top id lease seq gen ts) d = (Err ErrConflict, d).
Proof.
  intros Hs Hne.
  assert (Hl : opt_eqb (ClaimLeaseID s) lease = false) by (unfold opt_eqb; by brefl).
  assert (Hc : claimed id lease seq id s = false) by (unfold claimed; by rewrite Hl, andb_false_r).
  split_and!.
  - unfold Heartbeat. rewrite (run_exec_id _ _ _ id), Hs, Hl, andb_false_r by pin_key. done.
  - unfold Release. rewrite (run_exec_id _ _ _ id), Hs, Hl, andb_false_r by pin_key. done.
  - by rewrite run_TransitionClaimed, Hs, Hc.
  - unfold TransitionForkingRecovered. rewrite run_bind by (eauto 20 with sql).
    by rewrite (run_exec_id _ _ _ id), Hs, Hc by pin_key.
  - assert (Hm : run (markDeletedClaimed id lease seq gen ts) d = (Err ErrConflict, d)).
    { unfold markDeletedClaimed. rewrite run_bind by (eauto 20 with sql).
      by rewrite (run_exec_id _ _ _ id), Hs, Hc by pin_key. }
    unfold MarkDeletedClaimed. destruct top; simpl; [|done].
    rewrite run_tx by (eauto 20 with sql). by rewrite Hm.
Qed.

(** A claim is exclusive.  Once [Acquire] succeeded, another one fails while the deadline has
    not passed, and also (whatever the clock) when it comes from a driver that read the same
    sequence number; it leaves the ledger as it is. *)
Theorem acquire_exclusive d d' id h l now deadline seq n h2 l2 now2 deadline2 seq2 :
  run (Acquire id h l now deadline seq) d = (Ok n, d') ->
  now2 <= deadline \/ seq2 = seq ->
  n = seq + 1 /\ run (Acquire id h2 l2 now2 deadline2 seq2) d' = (Err ErrConflict, d') /\
  exists s', spawns d' !! id = Some s' /\ ClaimHolder s' = Some h /\ ClaimLeaseID s' = Some l /\
             ClaimDeadline s' = Some deadline /\ StatusSeq s' = n.
Proof.
  rewrite run_Acquire. destruct (spawns d !! id) as [s|] eqn:Hs; [|done].
  case_match eqn:Hc; [|done]. intros [= <- <-] Hor. brefl. destruct Hc as [Hseq _].
  split; [done|]. split.
  - rewrite run_Acquire. simpl. rewrite lookup_insert_eq. unfold claim_free. simpl.
    destruct (Z.eqb_spec (Z.succ (StatusSeq s)) seq2); [|done].
    destruct (Z.ltb_spec deadline now2); [lia|done].
  - simpl. rewrite lookup_insert_eq. eexists. split; [done|]. simpl. split_and!; [done..|lia].
Qed.

(** Claiming a new episode on a well-formed ledger: either the spawn was in one of the allowed
    statuses, and the new generation is above every older one, is the only running episode and
    the row is Starting; or nothing is written and the caller is told ErrConflict. *)
Theorem claim_starting_fresh_generation id from d s :
  ledger_wf d -> spawns d !! id = Some s ->
  match run (ClaimStarting id from) d with
  | (Ok gen, d') =>
      status_in from s = true /\
      (forall g c, spawn_containers d !! (id, g) = Some c -> g < gen) /\
      (forall g, live_in d' id g <-> g = gen) /\
      spawns d' = <[id := set_status Starting (bump s)]> (spawns d) /\
      (forall k g, k <> id -> spawn_containers d' !! (k, g) = spawn_containers d !! (k, g))
  | (Err e, d') => status_in from s = false /\ e = ErrConflict /\ d' = d
  end.
Proof.
  intros Hwf Hs. rewrite (run_ClaimStarting _ _ _ s) by done.
  destruct (status_in from s) eqn:Hst; [|done]. split_and!; [done| | |done|].
  - intros g c Hc. pose proof (max_gen_upto id d _ _ Hc). lia.
  - intros g. split.
    + intros (c & Hc & Hl). simpl in Hc.
      apply lookup_insert_Some in Hc as [[[= ->] _]|[_ Hc]]; [done|]. exfalso.
      apply (proj1 (wf_ended d id (end_episode PhaseLost (LastUsedAt s)) (fun _ => eq_refl)) g).
      by exists c.
    + intros ->. eexists. simpl. by rewrite lookup_insert_eq.
  - intros k g Hk. simpl. rewrite lookup_insert_ne by congruence. rewrite lookup_update_where.
    unfold live_of. simpl. destruct (String.eqb_spec k id); [done|]. simpl.
    by destruct (spawn_containers d !! (k, g)).
Qed.

(** Creation is atomic.  Whichever of its statements (or the commit) the driver fails, the
    transaction that creates a spawn has either written the row, its first episode and all its
    declared mounts, or nothing at all. *)
Theorem create_all_or_nothing id s ms d fs :
  match run_in_tx (Create id s ms) (mkSession d fs) with
  | (Ok _, sess) => created id s ms d (tables sess)
  | (Err _, sess) => tables sess = d
  end.
Proof.
  destruct (run_in_tx (Create id s ms) (mkSession d fs)) as [[e|u] sess] eqn:Hrun.
  - by apply tx_error_unchanged in Hrun.
  - unfold Database.run_in_tx in Hrun.
    pose proof (hoare_Create_created id s ms d (mkSession d fs) eq_refl) as Hc.
    destruct (Create id s ms (mkSession d fs)) as [[e'|u'] s1]; [done|].
    destruct (faults s1) as [|[e'|] fs']; simplify_eq/=; done.
Qed.

(** The error detail kept for the UI is bounded and stays well-formed text: at most 8192
    bytes are stored, an oversized detail is cut to valid UTF-8, a detail within the bound is
    stored as it is, and the failed spawn has no running episode left. *)
Theorem set_error_detail_bounded id step detail d d' :
  run (SetError id step detail) d = (Ok tt, d') ->
  exists s', spawns d' !! id = Some s' /\ SpawnStatus s' = Errored /\ ErrorStep s' = step /\
    blen (ErrorDetail s') <= 8192 /\
    (8192 < blen detail -> utf8 (bytes_of (ErrorDetail s'))) /\
    (blen detail <= 8192 -> ErrorDetail s' = detail) /\
    forall g, ~ live_in d' id g.
Proof.
  unfold SetError. rewrite run_bind by (unfold guardStatus; eauto 20 with sql).
  rewrite run_guardStatus. destruct (spawns d !! id) as [s|] eqn:Hs; [|done].
  destruct (status_in _ s); [|done].
  rewrite run_bind by (unfold lastUsedTS; eauto 20 with sql).
  rewrite run_lastUsedTS. simpl. rewrite lookup_insert_eq. rewrite run_endLiveContainer.
  intros [= <-]. simpl. rewrite lookup_insert_eq. eexists. split; [done|]. simpl.
  split_and!; [done..| | | |].
  - unfold truncateDetail, maxErrorDetailBytes. destruct (Z.ltb_spec 8192 (blen detail)); [|lia].
    destruct (to_valid_utf8_spec (slice_to (Z.to_nat 8192) detail)) as [_ Hle].
    pose proof (blen_slice_to (Z.to_nat 8192) detail). lia.
  - intros Hbig. unfold truncateDetail, maxErrorDetailBytes.
    destruct (Z.ltb_spec 8192 (blen detail)); [|lia]. apply to_valid_utf8_spec.
  - intros Hsmall. unfold truncateDetail, maxErrorDetailBytes.
    by destruct (Z.ltb_spec 8192 (blen detail)); [lia|].
  - exact (proj1 (wf_ended d id (end_episode PhaseLost (LastUsedAt s)) (fun _ => eq_refl))).
Qed.

(** ** A concrete ledger *)

Definition after (d : Tables) (ops : list SpawnOp) : Tables :=
  foldl (fun d op => (run (run_op true op) d).2) d ops.

Lemma after_clean d ops : Forall cp_call ops -> clean_history d (after d ops).
Proof.
  unfold after. induction ops as [|op ops IH] using rev_ind; intros Hall; [constructor|].
  apply Forall_app in Hall as [Hall Hop]. rewrite foldl_app. simpl.
  eapply clean_cons; [by apply IH|by inversion Hop|]. by constructor.
Qed.

Lemma after_history d ops : history d (after d ops).
Proof.
  unfold after. induction ops as [|op ops IH] using rev_ind; [constructor|].
  rewrite foldl_app. simpl. eapply history_step; [exact IH|]. rewrite run_sessions.
  exact (op_step_intro _ op false []).
Qed.

Lemma after_wf versions decls ops : ledger_wf (after (empty_ledger versions decls) ops).
Proof. eapply history_wf; [apply empty_ledger_ok|apply after_history]. Qed.

Definition demo_row : Spawn :=
  mkSpawn "alice" "demo" "app" "v1" "ref" false "model" "image" "claude" "acp" Starting false false
    "" "" GitHubCredUnset "" 0 100 100 None None 0 None None None None None None "" "".
Definition demo_empty : Tables := empty_ledger {[("app", "v1")]} {[("app", "v1", "work")]}.
Definition demo_ops : list SpawnOp :=
  [OpCreate "sp" demo_row []; OpSetActive "sp" "node" 1; OpSetSuspending "sp" 1;
   OpSetSuspended "sp" 1].

Lemma one_live_episode_witness :
  live_in (after demo_empty (take 2 demo_ops)) "sp" 1 /\
  forall g', live_in (after demo_empty (take 2 demo_ops)) "sp" g' -> g' = 1.
Proof.
  assert (Hl : live_in (after demo_empty (take 2 demo_ops)) "sp" 1)
    by (eexists; split; vm_compute; reflexivity).
  split; [exact Hl|]. exact (proj1 (one_live_episode _ _ _ _ _ (after_history _ _) Hl)).
Defined.

Lemma dormant_spawn_is_idle_witness : ~ live_in (after demo_empty demo_ops) "sp" 1.
Proof.
  eapply (dormant_spawn_is_idle {[("app", "v1")]} {[("app", "v1", "work")]}).
  - apply after_clean. repeat constructor.
  - vm_compute. reflexivity.
  - simpl. left.
Defined.

Definition demo_deleted : Tables := after demo_empty (demo_ops ++ [OpMarkDeleted "sp" 200]).
(** The spawn is deleted, then a straggler tries to activate it while its second statement fails,
    and another one to claim a new episode. *)
Definition demo_after_deletion : Tables :=
  (run (run_op true (OpClaimStarting "sp" [Suspended]))
     (tables (run_op true (OpSetActive "sp" "node" 1) (mkSession demo_deleted [None; Some "lost"])).2)).2.
Lemma deleted_is_final_witness :
  (forall gen, ~ live_in demo_after_deletion "sp" gen) /\
  run (Get "sp") demo_after_deletion = (Err ErrNotFound, demo_after_deletion).
Proof.
  destruct (deleted_is_final "sp" (OpMarkDeleted "sp" 200) false [] (after demo_empty demo_ops)
              (mkSession demo_deleted []) demo_after_deletion) as (_ & Hl & Hg).
  - left. exists 200. reflexivity.
  - vm_compute. reflexivity.
  - eapply cp_step with (op := OpClaimStarting "sp" [Suspended]).
    + eapply cp_step with (op := OpSetActive "sp" "node" 1); [constructor|exact I|].
      exact (op_step_intro _ _ false [None; Some "lost"]).
    + left. reflexivity.
    + unfold demo_after_deletion. rewrite run_sessions. exact (op_step_intro _ _ false []).
  - split; [exact Hl|exact Hg].
Defined.

(** A MarkDeleted whose second statement fails reports the error with the row already Deleted and
    the episode still running; a driver that holds the lease can then move the row on. *)
Definition demo_half_deleted : Tables :=
  tables (run_op true (OpMarkDeleted "sp" 200)
    (mkSession (after demo_empty (take 2 demo_ops ++ [OpAcquire "sp" "cp-1" "lease-1" 150 250 1]))
       [None; Some "lost"])).2.
Lemma half_deleted_spawn_comes_back :
  SpawnStatus <$> spawns demo_half_deleted !! "sp" = Some Deleted /\
  SpawnStatus <$> spawns (run (TransitionClaimed "sp" "lease-1" 3 1 Suspending) demo_half_deleted).2 !! "sp"
    = Some Suspending.
Proof. vm_compute. split; reflexivity. Qed.

Definition demo_claimed : Tables :=
  after demo_empty (take 2 demo_ops ++ [OpAcquire "sp" "cp-1" "lease-1" 150 250 1]).
Definition row_of (d : Tables) (id : string) : Spawn := default demo_row (spawns d !! id).

Lemma cas_no_interference_witness :
  StatusSeq (row_of demo_claimed "sp") + 1 = 3 /\ live_in demo_claimed "sp" 1.
Proof.
  destruct (cas_no_interference demo_claimed demo_claimed demo_claimed
              (run (TransitionClaimed "sp" "lease-1" 2 1 Suspending) demo_claimed).2
              "sp" (row_of demo_claimed "sp") "lease-1" 1 Suspending 3) as (H1 & H2 & _).
  - vm_compute. reflexivity.
  - constructor.
  - constructor.
  - vm_compute. reflexivity.
  - split; [symmetry; exact H1|exact H2].
Defined.

Lemma stale_lease_fenced_witness :
  run (Heartbeat "sp" "lease-0" 300) demo_claimed = (Err ErrClaimLost, demo_claimed).
Proof.
  assert (Hrow : spawns demo_claimed !! "sp" = Some (row_of demo_claimed "sp"))
    by (vm_compute; reflexivity).
  assert (Hlease : ClaimLeaseID (row_of demo_claimed "sp") <> Some "lease-0")
    by (vm_compute; discriminate).
  exact (proj1 (stale_lease_fenced demo_claimed "sp" _ "lease-0" 0 0 Active 0 300 true Hrow Hlease)).
Defined.

Lemma acquire_exclusive_witness :
  run (Acquire "sp" "cp-2" "lease-2" 200 400 2) demo_claimed = (Err ErrConflict, demo_claimed).
Proof.
  assert (Hrun : run (Acquire "sp" "cp-1" "lease-1" 150 250 1) (after demo_empty (take 2 demo_ops))
                 = (Ok 2, demo_claimed)) by (vm_compute; reflexivity).
  assert (Hor : 200 <= 250 \/ 2 = 1) by (left; lia).
  exact (proj1 (proj2 (acquire_exclusive _ _ _ _ _ _ _ _ _ "cp-2" "lease-2" 200 400 2 Hrun Hor))).
Defined.

Lemma claim_starting_fresh_generation_witness :
  match run (ClaimStarting "sp" [Suspended]) (after demo_empty demo_ops) with
  | (Ok gen, d') => gen = 2 /\ forall g, live_in d' "sp" g <-> g = gen
  | (Err _, _) => False
  end.
Proof.
  assert (Hrow : spawns (after demo_empty demo_ops) !! "sp"
                 = Some (row_of (after demo_empty demo_ops) "sp")) by (vm_compute; reflexivity).
  assert (Hok : (run (ClaimStarting "sp" [Suspended]) (after demo_empty demo_ops)).1 = Ok 2)
    by (vm_compute; reflexivity).
  pose proof (claim_starting_fresh_generation "sp" [Suspended] _ _ (after_wf _ _ _) Hrow) as H.
  destruct (run _ _) as [r d']. simpl in Hok. rewrite Hok in *. split; [reflexivity|apply H].
Defined.

Lemma set_error_detail_bounded_witness :
  exists s', spawns (run (SetError "sp" "start" "boom") (after demo_empty (take 1 demo_ops))).2
               !! "sp" = Some s' /\ ErrorDetail s' = "boom".
Proof.
  destruct (set_error_detail_bounded "sp" "start" "boom" (after demo_empty (take 1 demo_ops)) 
              (run (SetError "sp" "start" "boom") (after demo_empty (take 1 demo_ops))).2)
    as (s' & Hs' & _ & _ & _ & _ & Hkeep & _).
  - vm_compute. reflexivity.
  - exists s'. split; [exact Hs'|]. apply Hkeep. vm_compute. discriminate.
Defined.
