(* ===== verification/TransferSets.v ===== *)
(** * Transfer sets: src/internal/cp/store/transfer_sets.go

    The durable record of a migration or a fork: which episode it captures, where it goes, the
    pins of what was captured, and how far it came.  The JSON columns are the values they
    encode. *)

From S2P Require Import Prelude GoLib Database SpawnStore SpawnLifecycle.
Open Scope Z_scope.

Module TransferSets.

Definition exec_sets (p : string -> TransferSet -> bool) (f : TransferSet -> TransferSet) : DB Z :=
  stmt (fun d => (Ok (count_where p (transfer_sets d)), d <| transfer_sets ::= update_where p f |>)).
Definition insert_set (id : string) (ts : TransferSet) : DB unit :=
  stmt (fun d => match transfer_sets d !! id with
                 | Some _ => (Err (ErrConstraint "migration_transfer_sets pk"), d)
                 | None => (Ok tt, d <| transfer_sets ::= <[id := ts]> |>)
                 end).

(** [Create]; an absent kind, key status or status is the empty string, which takes the default. *)
Definition Create (id : string) (kind : option TransferSetKind) (key : option TransferKeyStatus)
    (status : option TransferSetStatus) (ts : TransferSet) : DB unit :=
  if String.eqb id "" || String.eqb (ts_SpawnID ts) ""
  then throw (ErrInvalid "transfer set id and spawn id are required")
  else
    let ts := ts <| KeyStatus := default TransferKeyPending key |>
                 <| ts_Status := default TransferSetPending status |> in
    match default TransferSetMigration kind with
    | TransferSetMigration =>
        let source := if String.eqb (SourceSpawnID ts) "" then ts_SpawnID ts else SourceSpawnID ts in
        insert_set id (ts <| Kind := TransferSetMigration |> <| SourceSpawnID := source |>)
    | TransferSetFork =>
        if String.eqb (SourceSpawnID ts) "" || String.eqb (ForkSpawnID ts) ""
        then throw (ErrInvalid "fork transfer set requires source and fork spawn ids")
        else if negb (String.eqb (ts_SpawnID ts) (ForkSpawnID ts))
        then throw (ErrInvalid "fork transfer set spawn id must match fork spawn id")
        else insert_set id (ts <| Kind := TransferSetFork |>)
    end.

Definition Get (id : string) : DB TransferSet :=
  rows ← query (fun d => select_where (fun k _ => String.eqb k id) (transfer_sets d));
  match rows with
  | [] => throw ErrNotFound
  | (_, ts) :: _ => mret ts
  end.

(** [ORDER BY created_at ASC, id ASC], and its converse. *)
Definition older (a b : string * TransferSet) : Prop :=
  ts_CreatedAt a.2 < ts_CreatedAt b.2 \/
  (ts_CreatedAt a.2 = ts_CreatedAt b.2 /\ String.leb a.1 b.1 = true).
#[export] Instance older_dec a b : Decision (older a b).
Proof. unfold older. solve_decision. Defined.
#[export] Instance newer_dec a b : Decision (flip older a b).
Proof. unfold flip. apply _. Defined.

Definition unfinished : list TransferSetStatus :=
  [TransferSetPending; TransferSetCapturing; TransferSetKeyDeliveryPending; TransferSetRestoring].
Definition is_fork (ts : TransferSet) : bool := bool_decide (Kind ts = TransferSetFork).

Definition GetPendingForkByForkSpawnID (forkSpawnID : string) : DB TransferSet :=
  rows ← query (fun d => select_where (fun _ ts =>
    is_fork ts && String.eqb (ForkSpawnID ts) forkSpawnID && bool_decide (ts_Status ts ∈ unfinished))
    (transfer_sets d));
  match merge_sort (flip older) rows with
  | [] => throw ErrNotFound
  | (_, ts) :: _ => mret ts
  end.

(** The join with the fork's row: neither deleted nor active. *)
Definition fork_unsettled (d : Tables) (ts : TransferSet) : bool :=
  match spawns d !! ForkSpawnID ts with
  | Some s => not_deleted s && negb (bool_decide (SpawnStatus s = Active))
  | None => false
  end.
Definition listForks (where_ : TransferSet -> bool) : DB (list (string * TransferSet)) :=
  rows ← query (fun d =>
    select_where (fun _ ts => is_fork ts && fork_unsettled d ts && where_ ts) (transfer_sets d));
  mret (merge_sort older rows).
Definition ListFailedForks : DB (list (string * TransferSet)) :=
  listForks (fun ts => bool_decide (ts_Status ts = TransferSetFailed)).
Definition reclaimable (staleRestoringBefore : Z) (ts : TransferSet) : bool :=
  bool_decide (ts_Status ts = TransferSetFailed) ||
  (bool_decide (ts_Status ts = TransferSetRestoring) && (UpdatedAt ts <? staleRestoringBefore)).
Definition ListReclaimableForks (staleRestoringBefore : Z) : DB (list (string * TransferSet)) :=
  listForks (reclaimable staleRestoringBefore).

Definition SetPins (id : string) (sourceGeneration : Z) (mountPins : gmap string string)
    (rootfsPins : list RootfsArtifactPin) (updatedAt : Z) : DB unit :=
  exec_sets (fun k ts => String.eqb k id && (SourceGeneration ts =? sourceGeneration))
    (fun ts => ts <| MountManifestPins := mountPins |> <| RootfsArtifactPins := rootfsPins |>
                  <| UpdatedAt := updatedAt |>)
    ≫= expect_one ErrConflict.

Definition updateOne (id : string) (set : TransferSet -> TransferSet) : DB unit :=
  exec_sets (fun k _ => String.eqb k id) set ≫= expect_one ErrNotFound.
Definition SetTargetNode (id targetNodeID : string) (updatedAt : Z) : DB unit :=
  updateOne id (fun ts => ts <| TargetNodeID := targetNodeID |> <| UpdatedAt := updatedAt |>).
Definition SetStatus (id : string) (status : TransferSetStatus) (updatedAt : Z) : DB unit :=
  updateOne id (fun ts => ts <| ts_Status := status |> <| UpdatedAt := updatedAt |>).
Definition SetTransferKeyStatus (id : string) (status : TransferKeyStatus) (updatedAt : Z) : DB unit :=
  updateOne id (fun ts => ts <| KeyStatus := status |> <| UpdatedAt := updatedAt |>).

(** ** What they do in a fault-free run *)

Lemma run_exec_set p f e id d :
  (forall k ts, p k ts = true -> k = id) ->
  run (exec_sets p f ≫= expect_one e) d =
  match transfer_sets d !! id with
  | Some ts => if p id ts then (Ok tt, d <| transfer_sets ::= <[id := f ts]> |>) else (Err e, d)
  | None => (Err e, d)
  end.
Proof.
  intros Hkey. rewrite run_bind by (unfold exec_sets; eauto with sql).
  unfold exec_sets. rewrite run_stmt.
  pose proof (exec_where_key p f (transfer_sets d) id Hkey) as Heq.
  unfold expect_one. destruct d as [sps cs ms arts ts av avm]; simpl in *.
  destruct (ts !! id) as [s|]; [destruct (p id s)|]; injection Heq as -> ->; done.
Qed.

Lemma run_updateOne id set d :
  run (updateOne id set) d =
  match transfer_sets d !! id with
  | Some ts => (Ok tt, d <| transfer_sets ::= <[id := set ts]> |>)
  | None => (Err ErrNotFound, d)
  end.
Proof.
  unfold updateOne. rewrite (run_exec_set _ _ _ id); [|pin_key]. by rewrite String.eqb_refl.
Qed.

Lemma run_SetPins id g mounts rootfs ts d :
  run (SetPins id g mounts rootfs ts) d =
  match transfer_sets d !! id with
  | Some x =>
      if SourceGeneration x =? g
      then (Ok tt, d <| transfer_sets ::= <[id := x <| MountManifestPins := mounts |>
                          <| RootfsArtifactPins := rootfs |> <| UpdatedAt := ts |>]> |>)
      else (Err ErrConflict, d)
  | None => (Err ErrConflict, d)
  end.
Proof.
  unfold SetPins. rewrite (run_exec_set _ _ _ id); [|pin_key]. by rewrite String.eqb_refl.
Qed.

Lemma run_get_set id d :
  run (Get id) d =
  match transfer_sets d !! id with Some ts => (Ok ts, d) | None => (Err ErrNotFound, d) end.
Proof.
  unfold Get. rewrite run_bind by (unfold query; eauto with sql). unfold query. rewrite run_stmt.
  destruct (transfer_sets d !! id) as [ts|] eqn:Hts.
  - erewrite (select_where_key _ _ id ts); [done|pin_key|done|by rewrite String.eqb_refl].
  - replace (select_where _ _) with (@nil (string * TransferSet)); [done|]. symmetry.
    apply select_where_nil. intros k ts Hk. apply Bool.not_true_iff_false. brefl. congruence.
Qed.

Lemma faultless_updateOne id set : faultless (updateOne id set).
Proof. unfold updateOne, exec_sets, expect_one. eauto 20 with sql. Qed.
Lemma faultless_SetPins id g mounts rootfs ts : faultless (SetPins id g mounts rootfs ts).
Proof. unfold SetPins, exec_sets, expect_one. eauto 20 with sql. Qed.
Lemma faultless_get_set id : faultless (Get id).
Proof. unfold Get, query. apply faultless_bind; [eauto with sql|]. intros [|[]]; eauto with sql. Qed.
Lemma faultless_Create id kind key status ts : faultless (Create id kind key status ts).
Proof. unfold Create, insert_set. repeat case_match; eauto with sql. Qed.

(** Writing transfer sets leaves the ledger alone. *)
Lemma wf_sets d f : ledger_wf d -> ledger_wf (d <| transfer_sets ::= f |>).
Proof. by apply wf_same. Qed.

(** The reclaimable forks, as the sweep sees them. *)
Lemma run_ListReclaimableForks before d :
  exists l, run (ListReclaimableForks before) d = (Ok l, d) /\
    forall id ts, (id, ts) ∈ l <->
      transfer_sets d !! id = Some ts /\ is_fork ts = true /\ fork_unsettled d ts = true /\
      reclaimable before ts = true.
Proof.
  unfold ListReclaimableForks, listForks. rewrite run_bind by (unfold query; eauto with sql).
  unfold query. rewrite run_stmt. eexists. split; [reflexivity|]. intros id ts.
  rewrite (merge_sort_Permutation older), elem_of_select_where, !andb_true_iff. tauto.
Qed.

End TransferSets.

#[export] Hint Resolve TransferSets.faultless_updateOne TransferSets.faultless_SetPins
  TransferSets.faultless_get_set TransferSets.faultless_Create : sql.
