(* ===== verification/Registry.v ===== *)
(** * The node registry: src/internal/cp/registry/registry.go

    Every method body runs under [r.mu], so each is one atomic function of the registry.  Time is
    an argument (the injected clock); a node's [Sender] is the identity of its stream. *)

From S2P Require Import Prelude.
Record Node := mkNode {
  nID : string;
  Sender : Z;
  Max : Z;
  Free : Z;
  Images : list string;
  Class : string;
  nOwner : string;
  DiskFreeBytes : Z;
  DiskTotalBytes : Z;
  token : Z;
  lastBeat : Z
}.
#[export] Instance eta_Node : Eta Node := fun r =>
  mkNode (nID r) (Sender r) (Max r) (Free r) (Images r) (Class r) (nOwner r) (DiskFreeBytes r)
    (DiskTotalBytes r) (token r) (lastBeat r).

Definition defaultLiveWindow : Z := 15 * 1000000000.

Record Registry := mkRegistry {
  nodes : gmap string Node;
  nextTok : Z;
  liveWindow : Z
}.
#[export] Instance eta_Registry : Eta Registry := fun r =>
  mkRegistry (nodes r) (nextTok r) (liveWindow r).

(** [New] and [NewWithClock] differ in the clock only. *)
Definition NewWithClock : Registry := mkRegistry ∅ 0 defaultLiveWindow.

(** [r.now().Sub(n.lastBeat) < r.liveWindow] *)
Definition alive (r : Registry) (now : Z) (n : Node) : bool := now - lastBeat n <? liveWindow r.

Definition Add (now : Z) (n : Node) (r : Registry) : Registry :=
  let tok := u64 (nextTok r + 1) in
  r <| nextTok := tok |>
    <| nodes ::= <[nID n := n <| token := tok |> <| lastBeat := now |>]> |>.

Definition Register (now : Z) (n : Node) (r : Registry) : (Z * bool) * Registry :=
  let reject := match nodes r !! nID n with Some cur => alive r now cur | None => false end in
  if reject then ((0, false), r)
  else ((u64 (nextTok r + 1), true), Add now n r).

Definition Remove (id : string) (r : Registry) : Registry := r <| nodes ::= delete id |>.

Definition IsCurrent (id : string) (tok : Z) (r : Registry) : bool :=
  match nodes r !! id with Some n => token n =? tok | None => false end.

Definition RemoveIfCurrent (id : string) (tok : Z) (r : Registry) : bool * Registry :=
  if IsCurrent id tok r then (true, Remove id r) else (false, r).

Definition Get (id : string) (r : Registry) : option Node := nodes r !! id.

Definition Heartbeat (now : Z) (id : string) (tok active free : Z) (r : Registry) : Registry :=
  if IsCurrent id tok r
  then r <| nodes ::= alter (fun n => n <| Free := free |> <| lastBeat := now |>) id |>
  else r.

(** ** Placement *)

Record Placement := mkPlacement {
  pOwner : string;
  pImage : string;
  TargetNodeID : string;
  RequireClass : string;
  MinDiskFreeBytes : Z
}.

Definition eligibleForOwner (n : Node) (owner : string) : bool :=
  if String.eqb (Class n) "self-hosted" then String.eqb (nOwner n) owner else true.

(** The [continue] guards of [PickFor], in order: true when the loop skips the node. *)
Definition skip (p : Placement) (n : Node) : bool :=
  (Free n =? 0)
  || negb (eligibleForOwner n (pOwner p))
  || (negb (String.eqb (pImage p) "") && negb (bool_decide (pImage p ∈ Images n)))
  || (negb (String.eqb (TargetNodeID p) "") && negb (String.eqb (nID n) (TargetNodeID p)))
  || (negb (String.eqb (RequireClass p) "") && negb (String.eqb (Class n) (RequireClass p)))
  || ((0 <? MinDiskFreeBytes p) && (DiskFreeBytes n <? MinDiskFreeBytes p)).

(** One iteration of the loop over the map. *)
Definition consider (p : Placement) (best : option Node) (n : Node) : option Node :=
  if skip p n then best
  else match best with
       | None => Some n
       | Some b => if Free b <? Free n then Some n else best
       end.

(** Go's map iteration visits the entries in an arbitrary order: [order] is any enumeration of
    the registered nodes. *)
Definition registered (r : Registry) : list Node := (map_to_list (nodes r)).*2.
Definition PickFor (p : Placement) (order : list Node) : option Node :=
  foldl (consider p) None order.
Definition Pick (order : list Node) : option Node := PickFor (mkPlacement "" "" "" "" 0) order.

Definition TargetEligible (nodeID owner : string) (r : Registry) : bool * bool :=
  match nodes r !! nodeID with
  | None => (false, false)
  | Some n => (true, eligibleForOwner n owner)
  end.

Record TargetInfo := mkTargetInfo { tID : string; tClass : string; tOwner : string; Online : bool }.

Definition EligibleTargets (now : Z) (owner : string) (r : Registry) (order : list Node)
    : list TargetInfo :=
  (fun n => mkTargetInfo (nID n) (Class n) (nOwner n) (alive r now n))
    <$> filter (fun n => eligibleForOwner n owner = true) order.

(** ** Metrics *)

Record NodeClassStat := mkStat { statNodes : Z; statFreeSlots : Z }.

Definition class_of (n : Node) : string := if String.eqb (Class n) "" then "default" else Class n.

Definition MetricsSnapshot (order : list Node) : gmap string NodeClassStat :=
  foldl (fun out n =>
    let s := default (mkStat 0 0) (out !! class_of n) in
    <[class_of n := mkStat (statNodes s + 1) (u64 (statFreeSlots s + Free n))]> out) ∅ order.

(** ** Placement is right whatever the iteration order *)

Definition fits (p : Placement) (n : Node) : Prop := skip p n = false.

(** [best] is a most-free fitting node of [l]. *)
Definition best_of (p : Placement) (l : list Node) (best : option Node) : Prop :=
  match best with
  | None => forall n, n ∈ l -> ~ fits p n
  | Some b => b ∈ l /\ fits p b /\ forall n, n ∈ l -> fits p n -> Free n <= Free b
  end.

Lemma consider_best p l best n :
  best_of p l best -> best_of p (l ++ [n]) (consider p best n).
Proof.
  unfold best_of, consider, fits. intros Hb. destruct (skip p n) eqn:Hn.
  - destruct best as [b|].
    + destruct Hb as (? & ? & Hmax). split_and!; [set_solver|done|].
      intros m [?| ->%list_elem_of_singleton]%elem_of_app; [auto|congruence].
    + intros m [?| ->%list_elem_of_singleton]%elem_of_app; [auto|congruence].
  - destruct best as [b|].
    + destruct Hb as (? & ? & Hmax). destruct (Z.ltb_spec (Free b) (Free n)).
      * split_and!; [set_solver|done|].
        intros m [Hm| ->%list_elem_of_singleton]%elem_of_app Hf; [|lia].
        specialize (Hmax m Hm Hf). lia.
      * split_and!; [set_solver|done|].
        intros m [Hm| ->%list_elem_of_singleton]%elem_of_app Hf; [auto|lia].
    + split_and!; [set_solver|done|].
      intros m [Hm| ->%list_elem_of_singleton]%elem_of_app Hf; [by destruct (Hb m Hm)|lia].
Qed.

Lemma PickFor_best p order : best_of p order (PickFor p order).
Proof.
  induction order as [|n l IH] using rev_ind; [intros n Hn; by apply elem_of_nil in Hn|].
  unfold PickFor in *. rewrite foldl_app. by apply consider_best.
Qed.

Lemma elem_of_registered r n :
  n ∈ registered r <-> exists id, nodes r !! id = Some n.
Proof.
  unfold registered. rewrite list_elem_of_fmap. split.
  - intros ([id n'] & -> & Hin). apply elem_of_map_to_list in Hin. eauto.
  - intros [id Hid]. exists (id, n). split; [done|]. by apply elem_of_map_to_list.
Qed.

(** ** Connection identity

    One step of the registry by any number of concurrent node connections. *)

Inductive RegOp :=
| RegAdd (now : Z) (n : Node)
| RegRegister (now : Z) (n : Node)
| RegRemove (id : string)
| RegRemoveIfCurrent (id : string) (tok : Z)
| RegHeartbeat (now : Z) (id : string) (tok active free : Z).

Definition reg_apply (op : RegOp) (r : Registry) : Registry :=
  match op with
  | RegAdd now n => Add now n r
  | RegRegister now n => (Register now n r).2
  | RegRemove id => Remove id r
  | RegRemoveIfCurrent id tok => (RemoveIfCurrent id tok r).2
  | RegHeartbeat now id tok active free => Heartbeat now id tok active free r
  end.
Definition reg_run (ops : list RegOp) (r : Registry) : Registry := foldl (fun r op => reg_apply op r) r ops.

(** Tokens in use are at most [nextTok], and an entry is stored under its own id. *)
Record reg_wf (r : Registry) : Prop := {
  wf_tok : forall id n, nodes r !! id = Some n -> 1 <= token n <= nextTok r;
  wf_key : forall id n, nodes r !! id = Some n -> nID n = id;
  wf_inj : forall id id' n n', nodes r !! id = Some n -> nodes r !! id' = Some n' ->
             token n = token n' -> id = id';
  wf_next : 0 <= nextTok r
}.

(** What survives of an entry: the connection that owns token [tok] is the stream [snd]. *)
Definition owned_by (tok : Z) (id : string) (snd : Z) (r : Registry) : Prop :=
  forall id' n, nodes r !! id' = Some n -> token n = tok -> id' = id /\ Sender n = snd.

Lemma lookup_Add now n r id m :
  nodes (Add now n r) !! id = Some m ->
  (id = nID n /\ m = n <| token := u64 (nextTok r + 1) |> <| lastBeat := now |>) \/
  (id <> nID n /\ nodes r !! id = Some m).
Proof.
  unfold Add. simpl. intros [[<- <-]|[? ?]]%lookup_insert_Some; [left|right]; auto.
Qed.

Lemma Add_wf now n r : nextTok r + 1 < 2 ^ 64 -> reg_wf r -> reg_wf (Add now n r).
Proof.
  intros Hlt [Htok Hkey Hinj Hnext].
  assert (Hu : u64 (nextTok r + 1) = nextTok r + 1) by (apply u64_small; lia).
  split.
  - intros id m [[_ ->]|[_ Hm]]%lookup_Add; simpl; rewrite Hu; [lia|].
    specialize (Htok _ _ Hm). lia.
  - intros id m [[-> ->]|[_ Hm]]%lookup_Add; eauto.
  - intros id id' m m' [[-> ->]|[_ Hm]]%lookup_Add [[-> ->]|[_ Hm']]%lookup_Add; simpl;
      rewrite ?Hu; intros Heq; [done| | |by eapply Hinj].
    + specialize (Htok _ _ Hm'). lia.
    + specialize (Htok _ _ Hm). lia.
  - simpl. rewrite Hu. lia.
Qed.

Lemma lookup_Heartbeat now id tok a f r id' m :
  nodes (Heartbeat now id tok a f r) !! id' = Some m ->
  exists m0, nodes r !! id' = Some m0 /\ token m = token m0 /\ nID m = nID m0 /\ Sender m = Sender m0.
Proof.
  unfold Heartbeat. case_match; [|by exists m]. simpl. rewrite lookup_alter_Some.
  intros [(<- & m0 & Hm0 & ->)|[? Hm]]; eauto.
Qed.

Lemma lookup_Remove id r id' m :
  nodes (Remove id r) !! id' = Some m -> nodes r !! id' = Some m.
Proof. simpl. by intros [? ?]%lookup_delete_Some. Qed.

(** Every step either adds a fresh connection or keeps a subset of the old entries. *)
Lemma reg_apply_cases op r :
  (exists now n, reg_apply op r = Add now n r) \/
  (nextTok (reg_apply op r) = nextTok r /\
   forall id m, nodes (reg_apply op r) !! id = Some m ->
     exists m0, nodes r !! id = Some m0 /\ token m = token m0 /\ nID m = nID m0 /\
                Sender m = Sender m0).
Proof.
  destruct op as [now n|now n|id|id tok|now id tok a f]; cbn [reg_apply].
  - eauto.
  - unfold Register. destruct (match nodes r !! nID n with Some _ => _ | None => _ end);
      [right; simpl; eauto 10|left; by exists now, n].
  - right. split; [done|]. intros id' m Hm%lookup_Remove. eauto.
  - right. unfold RemoveIfCurrent.
    destruct (IsCurrent _ _ _); (split; [done|]); cbn [snd]; [|eauto 10].
    intros id' m Hm%lookup_Remove. eauto.
  - right. split; [|apply lookup_Heartbeat]. unfold Heartbeat. by case_match.
Qed.

Lemma reg_apply_wf op r : nextTok r + 1 < 2 ^ 64 -> reg_wf r -> reg_wf (reg_apply op r).
Proof.
  intros Hlt Hwf. destruct (reg_apply_cases op r) as [(now & n & ->)|[Hn Hsub]];
    [by apply Add_wf|]. destruct Hwf as [Htok Hkey Hinj Hnext]. split; [..|by rewrite Hn].
  - intros id m (m0 & Hm0 & -> & _)%Hsub. rewrite Hn. eauto.
  - intros id m (m0 & Hm0 & _ & -> & _)%Hsub. eauto.
  - intros id id' m m' (m0 & Hm0 & -> & _)%Hsub (m1 & Hm1 & -> & _)%Hsub. eauto.
Qed.

Lemma reg_apply_owned tok id snd op r :
  nextTok r + 1 < 2 ^ 64 -> 0 <= tok <= nextTok r -> owned_by tok id snd r ->
  owned_by tok id snd (reg_apply op r).
Proof.
  intros Hlt Htok Hown. destruct (reg_apply_cases op r) as [(now & n & ->)|[Hn Hsub]].
  - intros id' m [[-> ->]|[_ Hm]]%lookup_Add; [|by apply Hown]. simpl.
    rewrite u64_small by lia. lia.
  - intros id' m (m0 & Hm0 & -> & _ & ->)%Hsub. by apply Hown.
Qed.

Lemma reg_apply_next op r :
  0 <= nextTok r -> nextTok r + 1 < 2 ^ 64 ->
  nextTok r <= nextTok (reg_apply op r) <= nextTok r + 1.
Proof.
  intros H0 Hlt. destruct (reg_apply_cases op r) as [(now & n & ->)|[-> _]]; [|lia].
  simpl. rewrite u64_small by lia. lia.
Qed.

(** The facts above along a whole run, as long as the 64-bit token counter has not wrapped. *)
Lemma reg_run_keeps tok id snd ops r :
  nextTok r + Z.of_nat (length ops) < 2 ^ 64 -> 0 <= tok <= nextTok r ->
  reg_wf r -> owned_by tok id snd r ->
  reg_wf (reg_run ops r) /\ owned_by tok id snd (reg_run ops r) /\
  nextTok r <= nextTok (reg_run ops r) <= nextTok r + Z.of_nat (length ops).
Proof.
  revert r. induction ops as [|op ops IH]; intros r Hlen Htok Hwf Hown; simpl in *.
  { unfold reg_run. simpl. split_and!; try done; lia. }
  pose proof (wf_next _ Hwf). pose proof (reg_apply_next op r) as Hnext.
  destruct (IH (reg_apply op r)) as (? & ? & ?);
    [lia|lia|apply reg_apply_wf; [lia|done]|apply reg_apply_owned; [lia|done..]|].
  unfold reg_run in *. simpl. split_and!; try done; lia.
Qed.

Lemma owned_fresh r tok id snd : reg_wf r -> nextTok r < tok -> owned_by tok id snd r.
Proof. intros Hwf Hlt id' n Hn <-. pose proof (wf_tok _ Hwf _ _ Hn). lia. Qed.

Lemma Register_owned now n r tok r' :
  reg_wf r -> nextTok r + 1 < 2 ^ 64 -> Register now n r = ((tok, true), r') ->
  tok = nextTok r + 1 /\ nextTok r' = tok /\ reg_wf r' /\ owned_by tok (nID n) (Sender n) r' /\
  IsCurrent (nID n) tok r' = true.
Proof.
  intros Hwf Hlt. pose proof (wf_next _ Hwf). unfold Register. case_match; [done|].
  intros [= <- <-]. assert (Hu : u64 (nextTok r + 1) = nextTok r + 1) by (apply u64_small; lia).
  split_and!; [done..|by apply Add_wf| |].
  - intros id m [[-> ->]|[_ Hm]]%lookup_Add; [done|]. intros Heq.
    pose proof (wf_tok _ Hwf _ _ Hm). lia.
  - unfold IsCurrent, Add. simpl. rewrite lookup_insert_eq. simpl. by rewrite Z.eqb_refl.
Qed.

Lemma empty_reg_wf : reg_wf NewWithClock.
Proof. split; simpl; intros *; rewrite ?lookup_empty; done. Qed.

(** ** Metrics *)

Definition class_nodes (c : string) (l : list Node) : list Node :=
  filter (fun n => class_of n = c) l.
Definition total_free (l : list Node) : Z := foldr (fun n acc => Free n + acc) 0 l.

Lemma total_free_app l l' : total_free (l ++ l') = total_free l + total_free l'.
Proof. unfold total_free. induction l as [|n l IH]; simpl; lia. Qed.

Lemma MetricsSnapshot_lookup order c :
  MetricsSnapshot order !! c =
  match class_nodes c order with
  | [] => None
  | l => Some (mkStat (Z.of_nat (length l)) (u64 (total_free l)))
  end.
Proof.
  induction order as [|n l IH] using rev_ind; [done|].
  unfold MetricsSnapshot, class_nodes in *. rewrite foldl_app, filter_app. cbn [foldl].
  rewrite filter_cons. destruct (decide (class_of n = c)) as [<-|Hne].
  - rewrite lookup_insert_eq, IH. cbn [filter list_filter].
    destruct (filter _ l) as [|m l']; simpl.
    + unfold total_free. simpl. by rewrite Z.add_0_l, Z.add_0_r.
    + f_equal. f_equal; [rewrite length_app; simpl; lia|].
      change (u64 (u64 (total_free (m :: l')) + Free n) = u64 (total_free ((m :: l') ++ [n]))).
      rewrite total_free_app. unfold total_free at 3. simpl.
      rewrite Z.add_0_r. unfold u64. by rewrite Z.add_mod_idemp_l by lia.
  - rewrite lookup_insert_ne by done. rewrite IH. cbn [filter list_filter].
    by rewrite app_nil_r.
Qed.

(** ** The theorems *)

(** What a placement asks of a node. *)
Definition acceptable (p : Placement) (n : Node) : Prop :=
  Free n <> 0 /\
  (Class n = "self-hosted" -> nOwner n = pOwner p) /\
  (pImage p <> "" -> pImage p ∈ Images n) /\
  (TargetNodeID p <> "" -> nID n = TargetNodeID p) /\
  (RequireClass p <> "" -> Class n = RequireClass p) /\
  (0 < MinDiskFreeBytes p -> MinDiskFreeBytes p <= DiskFreeBytes n).

Lemma guard_passed x y : negb x && negb y = false <-> (x = false -> y = true).
Proof. destruct x, y; simpl; intuition congruence. Qed.

Lemma fits_acceptable p n : fits p n <-> acceptable p n.
Proof.
  unfold fits, skip, acceptable, eligibleForOwner.
  rewrite !orb_false_iff, !guard_passed. brefl.
  destruct (String.eqb_spec (Class n) "self-hosted"); brefl; rewrite ?Z.lt_nge; intuition lia.
Qed.

(** C5: placement is right however the map is walked: the chosen node is registered, meets every
    demand of the placement (capacity, tenancy, image, forced target, class, disk) and has at
    least as much free capacity as every other node that does; no node is returned only when
    none is acceptable. *)
Theorem pick_for_best p r order :
  order ≡ₚ registered r ->
  match PickFor p order with
  | Some b =>
      (exists id, nodes r !! id = Some b) /\ acceptable p b /\
      forall id n, nodes r !! id = Some n -> acceptable p n -> Free n <= Free b
  | None => forall id n, nodes r !! id = Some n -> ~ acceptable p n
  end.
Proof.
  intros Hperm. pose proof (PickFor_best p order) as Hbest. unfold best_of in Hbest.
  assert (Hin : forall n, n ∈ order <-> exists id, nodes r !! id = Some n).
  { intros n. by rewrite Hperm, elem_of_registered. }
  destruct (PickFor p order) as [b|].
  - destruct Hbest as (Hb & Hf & Hmax). split_and!; [by apply Hin|by apply fits_acceptable|].
    intros id n Hn Ha. apply Hmax; [apply Hin; eauto|by apply fits_acceptable].
  - intros id n Hn Ha. apply (Hbest n); [apply Hin; eauto|by apply fits_acceptable].
Qed.

(** Two streams never share a node id.  A connection that registered and was later displaced
    stays inert: its teardown and its heartbeats change nothing, whatever happened since, and it
    is never taken for the current owner of any id (for the first 2^64 registrations). *)
Theorem displaced_connection_inert r0 now1 nA tA r1 ops now2 nB tB r2 ops' r3 act free now3 :
  reg_wf r0 -> Register now1 nA r0 = ((tA, true), r1) ->
  Register now2 nB (reg_run ops r1) = ((tB, true), r2) -> nID nB = nID nA ->
  r3 = reg_run ops' r2 ->
  nextTok r0 + Z.of_nat (length ops + length ops') + 2 < 2 ^ 64 ->
  RemoveIfCurrent (nID nA) tA r3 = (false, r3) /\
  Heartbeat now3 (nID nA) tA act free r3 = r3 /\
  (forall id, IsCurrent id tA r3 = false) /\
  (forall n, nodes r3 !! nID nA = Some n -> token n = tB -> Sender n = Sender nB).
Proof.
  intros Hwf HA HB Hid -> Hlen. pose proof (wf_next _ Hwf).
  destruct (Register_owned _ _ _ _ _ Hwf ltac:(lia) HA) as (HtA & Hn1 & Hwf1 & HoA & _).
  destruct (reg_run_keeps tA _ _ ops r1 ltac:(lia) ltac:(lia) Hwf1 HoA) as (Hwf2 & HoA2 & Hn2).
  destruct (Register_owned _ _ _ _ _ Hwf2 ltac:(lia) HB) as (HtB & Hn3 & Hwf3 & HoB & _).
  assert (Hgone : forall id n, nodes r2 !! id = Some n -> token n <> tA).
  { unfold Register in HB. destruct (match nodes (reg_run ops r1) !! nID nB with
                                     | Some _ => _ | None => _ end); [done|].
    injection HB as _ <-. intros id n [[-> ->]|[Hne Hn]]%lookup_Add Heq.
    - simpl in Heq. rewrite u64_small in Heq by lia. lia.
    - destruct (HoA2 _ _ Hn Heq) as [-> _]. congruence. }
  assert (Hnone : forall snd, owned_by tA (nID nA) snd r2) by (intros snd id n Hn Ht; by destruct (Hgone _ _ Hn)).
  destruct (reg_run_keeps tA _ (Sender nA) ops' r2 ltac:(lia) ltac:(lia) Hwf3 (Hnone _))
    as (Hwf4 & Ho1 & _).
  destruct (reg_run_keeps tA _ (Sender nA + 1) ops' r2 ltac:(lia) ltac:(lia) Hwf3 (Hnone _))
    as (_ & Ho2 & _).
  assert (Hcur : forall id, IsCurrent id tA (reg_run ops' r2) = false).
  { intros id. unfold IsCurrent. destruct (nodes _ !! id) as [n|] eqn:Hn; [|done].
    destruct (Z.eqb_spec (token n) tA) as [Heq|]; [|done].
    destruct (Ho1 _ _ Hn Heq) as [_ H1]. destruct (Ho2 _ _ Hn Heq) as [_ H2]. lia. }
  destruct (reg_run_keeps tB _ _ ops' r2 ltac:(lia) ltac:(lia) Hwf3 HoB) as (_ & HoB' & _).
  unfold RemoveIfCurrent, Heartbeat. rewrite !Hcur. split_and!; try done.
  intros n Hn Ht. by apply (HoB' _ _ Hn Ht).
Qed.

(** A live node cannot be pushed out: a registration under an id whose entry has beaten within
    the live window is refused and changes nothing, and any other registration becomes current. *)
Theorem register_rejects_live now n r :
  (exists cur, nodes r !! nID n = Some cur /\ now - lastBeat cur < liveWindow r) /\
    Register now n r = ((0, false), r) \/
  (forall cur, nodes r !! nID n = Some cur -> liveWindow r <= now - lastBeat cur) /\
    exists tok r', Register now n r = ((tok, true), r') /\ IsCurrent (nID n) tok r' = true /\
      (forall id, id <> nID n -> nodes r' !! id = nodes r !! id).
Proof.
  unfold Register, alive. destruct (nodes r !! nID n) as [cur|] eqn:Hcur.
  - destruct (Z.ltb_spec (now - lastBeat cur) (liveWindow r)).
    + left. eauto.
    + right. split; [by intros ? [= <-]|]. eexists _, _. split; [done|].
      unfold IsCurrent, Add. simpl. rewrite lookup_insert_eq. simpl. rewrite Z.eqb_refl.
      split; [done|]. intros id Hid. by rewrite lookup_insert_ne.
  - right. split; [done|]. eexists _, _. split; [done|].
    unfold IsCurrent, Add. simpl. rewrite lookup_insert_eq. simpl. rewrite Z.eqb_refl.
    split; [done|]. intros id Hid. by rewrite lookup_insert_ne.
Qed.

(** The metrics snapshot counts every registered node once, in the class it reports, and sums
    the free slots of the class, in whatever order the map is walked. *)
Theorem metrics_snapshot_totals r order c :
  order ≡ₚ registered r ->
  MetricsSnapshot order !! c =
  match class_nodes c (registered r) with
  | [] => None
  | l => Some (mkStat (Z.of_nat (length l)) (u64 (total_free l)))
  end.
Proof.
  intros Hperm. rewrite MetricsSnapshot_lookup.
  assert (Hcl : class_nodes c order ≡ₚ class_nodes c (registered r))
    by (unfold class_nodes; by rewrite Hperm).
  assert (Htot : forall l l', l ≡ₚ l' -> total_free l = total_free l')
    by (induction 1; unfold total_free in *; simpl; lia).
  destruct (class_nodes c order) as [|a l]; [by apply Permutation_nil in Hcl as ->|].
  destruct (class_nodes c (registered r)) as [|b l'] eqn:Hr.
  - symmetry in Hcl. by apply Permutation_nil_cons in Hcl.
  - pose proof (Permutation_length Hcl) as Hlen. pose proof (Htot _ _ Hcl) as Ht. congruence.
Qed.

(** ** Witnesses *)

Definition demo_node (id : string) (snd free : Z) (class owner : string) : Node :=
  mkNode id snd 4 free ["img"] class owner 0 0 0 0.
Definition demo_reg : Registry :=
  reg_run [RegRegister 0 (demo_node "a" 1 2 "cloud" ""); RegRegister 1 (demo_node "b" 2 3 "self-hosted" "bob");
           RegRegister 2 (demo_node "c" 3 1 "cloud" "")] NewWithClock.

Lemma pick_for_best_witness :
  nID <$> PickFor (mkPlacement "alice" "img" "" "" 0) (registered demo_reg) = Some "a" /\
  exists b, PickFor (mkPlacement "alice" "img" "" "" 0) (registered demo_reg) = Some b /\
    forall id n, nodes demo_reg !! id = Some n ->
      acceptable (mkPlacement "alice" "img" "" "" 0) n -> Free n <= Free b.
Proof.
  split; [vm_compute; reflexivity|].
  pose proof (pick_for_best (mkPlacement "alice" "img" "" "" 0) demo_reg (registered demo_reg)
                (Permutation_refl _)) as H.
  destruct (PickFor _ _) as [b|] eqn:Hb; [exists b; split; [reflexivity|apply H]|].
  exfalso. vm_compute in Hb. discriminate.
Defined.

Lemma displaced_connection_inert_witness :
  IsCurrent "a" 1 (reg_run [RegHeartbeat 20000000001 "a" 2 0 1]
    (Register 20000000000 (demo_node "a" 9 2 "cloud" "")
      (reg_run [] (Register 0 (demo_node "a" 1 2 "cloud" "") NewWithClock).2)).2) = false.
Proof.
  assert (HA : Register 0 (demo_node "a" 1 2 "cloud" "") NewWithClock =
    ((1, true), (Register 0 (demo_node "a" 1 2 "cloud" "") NewWithClock).2))
    by (vm_compute; reflexivity).
  assert (HB : Register 20000000000 (demo_node "a" 9 2 "cloud" "")
      (reg_run [] (Register 0 (demo_node "a" 1 2 "cloud" "") NewWithClock).2) =
    ((2, true), (Register 20000000000 (demo_node "a" 9 2 "cloud" "")
      (reg_run [] (Register 0 (demo_node "a" 1 2 "cloud" "") NewWithClock).2)).2))
    by (vm_compute; reflexivity).
  apply (displaced_connection_inert _ _ _ _ _ _ _ _ _ _ [RegHeartbeat 20000000001 "a" 2 0 1] _ 0 0 0
           empty_reg_wf HA HB); [reflexivity|reflexivity|vm_compute; reflexivity].
Defined.

Lemma metrics_snapshot_totals_witness :
  MetricsSnapshot (registered demo_reg) !! "cloud" = Some (mkStat 2 3).
Proof.
  rewrite (metrics_snapshot_totals demo_reg (registered demo_reg) "cloud" (Permutation_refl _)).
  vm_compute. reflexivity.
Defined.
