(* ===== verification/Router.v ===== *)
(** * The session mux: src/internal/cp/router/router.go

    The router relays bytes between the clients attached to a spawn and the node that hosts it.
    Every method mutates the maps under [r.mu] and sends after unlocking, so each is one atomic
    step here that returns the messages it sends.  Channels are identities: [nextChan] is the next
    fresh one, [closed] those already closed; closing a closed channel is Go's panic, the result
    [None].  The relayed payloads (auth envelopes, exec requests, sealed secrets) are opaque. *)

From S2P Require Import Prelude.
(** ** Data *)

(** [clientKey]; [ck] maps the empty session to "0". *)
Definition clientKey : Type := string * string.
Definition ck (sessionID clientID : string) : clientKey :=
  (if String.eqb sessionID "" then "0" else sessionID, clientID).

Record SessionInfo := mkSessionInfo { siID : string; siState : Z; siRest : string }.
#[export] Instance eta_SessionInfo : Eta SessionInfo := fun r =>
  mkSessionInfo (siID r) (siState r) (siRest r).

Record route := mkRoute {
  rNodeID : string;
  rNode : Z;
  clients : gmap clientKey Z;
  clientDone : gmap clientKey Z;
  clientGenerations : gmap clientKey Z;
  clientLeases : gmap clientKey string;
  nextAttachmentSequence : Z;
  sessions : list SessionInfo;
  rDone : Z
}.
#[export] Instance eta_route : Eta route := fun r =>
  mkRoute (rNodeID r) (rNode r) (clients r) (clientDone r) (clientGenerations r) (clientLeases r)
    (nextAttachmentSequence r) (sessions r) (rDone r).

Record pendingRoster := mkPending { pNodeID : string; pSessions : list SessionInfo }.

Record Router := mkRouter {
  routes : gmap string route;
  pending : gmap string pendingRoster;
  nextChan : Z;
  closed : gset Z
}.
#[export] Instance eta_Router : Eta Router := fun r =>
  mkRouter (routes r) (pending r) (nextChan r) (closed r).

Definition New : Router := mkRouter ∅ ∅ 0 ∅.

(** Messages to a node; [A], [X], [S] are the opaque envelope, exec request and sealed secret. *)
Inductive CPMessage (A X S : Type) :=
| Open (SpawnId SessionId ClientId : string) (Cursor Generation : Z) (Auth : A)
    (AttachmentId : string) (AttachmentSequence : Z) (AssertedOwner : string) (Exec : option X)
| Close (SpawnId SessionId ClientId : string) (Generation : Z) (AttachmentId : string)
| SessionReauth (SpawnId SessionId ClientId : string) (Generation : Z) (AssertedOwner : string)
    (Auth : A) (AttachmentId : string)
| Frame (SpawnId SessionId ClientId Data : string)
| MsgCreateSession (SpawnId : string) (Transport : Z) (Runnable : string)
| MsgCloseSession (SpawnId SessionId : string)
| Stop (SpawnId : string)
| MsgSuspend (SpawnId : string) (Generation : Z) (CaptureRootfsArtifact : bool)
| SecretDelivery (SpawnId : string) (Generation : Z) (Secrets : list S).
Arguments Open {_ _ _}. Arguments Close {_ _ _}. Arguments SessionReauth {_ _ _}.
Arguments Frame {_ _ _}. Arguments MsgCreateSession {_ _ _}. Arguments MsgCloseSession {_ _ _}.
Arguments Stop {_ _ _}. Arguments MsgSuspend {_ _ _}. Arguments SecretDelivery {_ _ _}.

Inductive RouterErr := UnknownSpawn (id : string) | UnknownAttachment (id session client : string)
| NoLease | ExecNeedsSession.

(** ** Channels *)

(** [close(c)] *)
Definition close_chan (c : Z) (r : Router) : option Router :=
  if bool_decide (c ∈ closed r) then None else Some (r <| closed ::= union {[c]} |>).
Fixpoint close_chans (cs : list Z) (r : Router) : option Router :=
  match cs with
  | [] => Some r
  | c :: cs => close_chan c r ≫= close_chans cs
  end.
(** [make(chan struct{})] *)
Definition make_chan (r : Router) : Z * Router := (nextChan r, r <| nextChan ::= Z.succ |>).

Definition set_route (id : string) (rt : route) (r : Router) : Router :=
  r <| routes ::= <[id := rt]> |>.

Section Ops.
Context {A X S : Type}.
Abbreviation Msg := (CPMessage A X S).

(** ** Routes *)

Definition Bind (spawnID nodeID : string) (node : Z) (r : Router) : Router :=
  let '(done, r) := make_chan r in
  let ss := match pending r !! spawnID with Some p => pSessions p | None => [] end in
  set_route spawnID (mkRoute nodeID node ∅ ∅ ∅ ∅ 0 ss done)
    (r <| pending ::= delete spawnID |>).

Definition Bound (spawnID : string) (r : Router) : bool :=
  negb (is_none (routes r !! spawnID)).

Definition Attached (spawnID : string) (r : Router) : bool :=
  match routes r !! spawnID with
  | Some rt => bool_decide (clients rt <> ∅)
  | None => false
  end.

(** ** Attachments *)

(** The sequence skips 0 when the 64-bit counter wraps. *)
Definition next_sequence (n : Z) : Z :=
  let n := u64 (n + 1) in if n =? 0 then u64 (n + 1) else n.

Definition enter_client (key : clientKey) (c gen done : Z) (lease : string) (rt : route) : route :=
  rt <| clients ::= <[key := c]> |> <| clientDone ::= <[key := done]> |>
     <| clientGenerations ::= <[key := gen]> |> <| clientLeases ::= <[key := lease]> |>
     <| nextAttachmentSequence ::= next_sequence |>.
Definition forget_client (key : clientKey) (rt : route) : route :=
  rt <| clients ::= delete key |> <| clientDone ::= delete key |>
     <| clientGenerations ::= delete key |> <| clientLeases ::= delete key |>.

(** What an attachment returns to its handler, and the Open it sends to the node. *)
Record Attachment := mkAttachment { atDone : Z; atLease : string; atNode : Z; atOpen : Msg }.

(** [lease]: the random lease, [None] when [rand.Read] fails.  The outer [option] is the panic of
    a double close, the inner result the Go error. *)
Definition attachClient (spawnID sessionID clientID assertedOwner : string) (env : A)
    (req : option X) (c cursor : Z) (generations : list Z) (lease : option string) (r : Router)
    : option (result RouterErr Attachment * Router) :=
  let generation := match generations with [g] => g | _ => 0 end in
  match lease with
  | None => Some (Err NoLease, r)
  | Some lease =>
    match routes r !! spawnID with
    | None => Some (Err (UnknownSpawn spawnID), r)
    | Some rt =>
      let key := ck sessionID clientID in
      r ← match clientDone rt !! key with Some old => close_chan old r | None => Some r end;
      let '(done, r) := make_chan r in
      let rt := enter_client key c generation done lease rt in
      Some (Ok (mkAttachment done lease (rNode rt)
                  (Open spawnID sessionID clientID cursor generation env lease
                     (nextAttachmentSequence rt) assertedOwner req)),
            set_route spawnID rt r)
    end
  end.

Definition AttachClient (spawnID sessionID clientID assertedOwner : string) (env : A)
    (c cursor : Z) (generations : list Z) (lease : option string) (r : Router) :=
  attachClient spawnID sessionID clientID assertedOwner env None c cursor generations lease r.

Definition AttachExecClient (spawnID sessionID clientID assertedOwner : string) (env : A)
    (req : option X) (c cursor : Z) (generations : list Z) (lease : option string) (r : Router)
    : option (result RouterErr Attachment * Router) :=
  if String.eqb sessionID "" || is_none req then Some (Err ExecNeedsSession, r)
  else attachClient spawnID sessionID clientID assertedOwner env req c cursor generations lease r.

(** [lease.id != "" && rt.clientLeases[key] == lease] *)
Definition holds_lease (key : clientKey) (lease : string) (rt : route) : bool :=
  negb (String.eqb lease "") && opt_eqb (clientLeases rt !! key) lease.

Definition DetachClient (spawnID sessionID clientID lease : string) (r : Router)
    : list (Z * Msg) * Router :=
  match routes r !! spawnID with
  | Some rt =>
    let key := ck sessionID clientID in
    if holds_lease key lease rt then
      (match clients rt !! key with
       | Some _ => [(rNode rt, Close spawnID sessionID clientID
                                 (default 0 (clientGenerations rt !! key)) lease)]
       | None => []
       end,
       set_route spawnID (forget_client key rt) r)
    else ([], r)
  | None => ([], r)
  end.

Definition ReauthenticateClient (spawnID sessionID clientID lease : string) (generation : Z)
    (assertedOwner : string) (env : A) (r : Router) : result RouterErr (Z * Msg) :=
  let unknown := Err (UnknownAttachment spawnID sessionID clientID) in
  match routes r !! spawnID with
  | Some rt =>
    let key := ck sessionID clientID in
    if negb (is_none (clients rt !! key)) && holds_lease key lease rt
    then Ok (rNode rt, SessionReauth spawnID sessionID clientID generation assertedOwner env lease)
    else unknown
  | None => unknown
  end.

Definition SessionAuthClosed (spawnID sessionID clientID nodeID : string) (generation : Z)
    (attachmentID : string) (r : Router) : option Router :=
  match routes r !! spawnID with
  | Some rt =>
    let key := ck sessionID clientID in
    if negb (String.eqb (rNodeID rt) nodeID)
       || negb (default 0 (clientGenerations rt !! key) =? generation)
       || negb (String.eqb (default "" (clientLeases rt !! key)) attachmentID)
    then Some r
    else
      r ← match clientDone rt !! key with Some done => close_chan done r | None => Some r end;
      Some (set_route spawnID (forget_client key rt) r)
  | None => Some r
  end.

(** ** Relaying *)

Definition to_node (spawnID : string) (msg : Msg) (r : Router) : result RouterErr (Z * Msg) :=
  match routes r !! spawnID with
  | Some rt => Ok (rNode rt, msg)
  | None => Err (UnknownSpawn spawnID)
  end.

Definition FromClient (spawnID sessionID clientID data : string) (r : Router)
    : result RouterErr (Z * Msg) :=
  to_node spawnID (Frame spawnID sessionID clientID data) r.

(** The client stream the frame is written to, if any. *)
Definition FromNode (spawnID sessionID clientID data : string) (r : Router)
    : option (Z * string) :=
  match routes r !! spawnID with
  | Some rt => (fun c => (c, data)) <$> clients rt !! ck sessionID clientID
  | None => None
  end.

Definition CreateSession (spawnID : string) (transport : Z) (runnable : string) (r : Router) :=
  to_node spawnID (MsgCreateSession spawnID transport runnable) r.
Definition CloseSession (spawnID sessionID : string) (r : Router) :=
  to_node spawnID (MsgCloseSession spawnID sessionID) r.
Definition DeliverSecrets (spawnID : string) (generation : Z) (secrets : list S) (r : Router) :=
  to_node spawnID (SecretDelivery spawnID generation secrets) r.

(** The calls that drop the message silently when the spawn has no route. *)
Definition StopOnNode (spawnID : string) (r : Router) : option (Z * Msg) :=
  match to_node spawnID (Stop spawnID) r with Ok nm => Some nm | Err _ => None end.
Definition SuspendOnNode (spawnID : string) (generation : Z) (capture : bool) (r : Router)
    : option (Z * Msg) :=
  match to_node spawnID (MsgSuspend spawnID generation capture) r with
  | Ok nm => Some nm
  | Err _ => None
  end.
End Ops.

(** ** Rosters *)

Definition UpdateRoster (spawnID nodeID : string) (ss : list SessionInfo) (r : Router) : Router :=
  match routes r !! spawnID with
  | Some rt => set_route spawnID (rt <| sessions := ss |>) r
  | None => r <| pending ::= <[spawnID := mkPending nodeID ss]> |>
  end.

(** The first session with the id gets the state. *)
Fixpoint set_state (sessionID : string) (state : Z) (ss : list SessionInfo) : list SessionInfo :=
  match ss with
  | [] => []
  | s :: ss => if String.eqb (siID s) sessionID then s <| siState := state |> :: ss
               else s :: set_state sessionID state ss
  end.

(** The roster entries are shared pointers; the live or, failing that, the pending one changes. *)
Definition ApplySessionStatus (spawnID sessionID : string) (state : Z) (r : Router) : Router :=
  match routes r !! spawnID with
  | Some rt => set_route spawnID (rt <| sessions ::= set_state sessionID state |>) r
  | None =>
    match pending r !! spawnID with
    | Some p => r <| pending ::= <[spawnID := mkPending (pNodeID p)
                                                (set_state sessionID state (pSessions p))]> |>
    | None => r
    end
  end.

Definition ListSessions (spawnID : string) (r : Router) : list SessionInfo :=
  match routes r !! spawnID with Some rt => sessions rt | None => [] end.

(** ** Dropping routes *)

Definition route_chans (rt : route) : list Z := (map_to_list (clientDone rt)).*2 ++ [rDone rt].

Definition Drop (spawnID : string) (r : Router) : option Router :=
  r ← match routes r !! spawnID with
      | Some rt => r ← close_chans (route_chans rt) r; Some (r <| routes ::= delete spawnID |>)
      | None => Some r
      end;
  Some (r <| pending ::= delete spawnID |>).

(** The loop over [r.m] for the routes of one node, [ids] in iteration order. *)
Fixpoint drop_routes (nodeID : string) (ids : list string) (r : Router)
    : option (list string * Router) :=
  match ids with
  | [] => Some ([], r)
  | id :: ids =>
    match routes r !! id with
    | Some rt =>
      if String.eqb (rNodeID rt) nodeID then
        r ← close_chans (route_chans rt) r;
        '(dropped, r) ← drop_routes nodeID ids
                          (r <| routes ::= delete id |> <| pending ::= delete id |>);
        Some (id :: dropped, r)
      else drop_routes nodeID ids r
    | None => drop_routes nodeID ids r
    end
  end.

Definition purge_pending (nodeID : string) (r : Router) : Router :=
  r <| pending ::= filter (fun ip : string * pendingRoster => pNodeID ip.2 <> nodeID) |>.

Definition DropNode (nodeID : string) (order : list string) (r : Router)
    : option (list string * Router) :=
  '(dropped, r) ← drop_routes nodeID order r;
  Some (dropped, purge_pending nodeID r).
