(* ===== verification/RouterLaws.v ===== *)
(** * The session mux: invariant and theorems

    [RouterOp] lists the mutating methods of the router; handlers of any number of connections
    interleave them freely.  A slot is a place in the router that holds a channel: a client's
    done channel, or a route's own. *)

From S2P Require Import Prelude Router.
Inductive RouterOp :=
| RBind (spawnID nodeID : string) (node : Z)
| RAttach (spawnID sessionID clientID : string) (sender cursor : Z) (generations : list Z)
    (lease : option string)
| RDetach (spawnID sessionID clientID lease : string)
| RAuthClosed (spawnID sessionID clientID nodeID : string) (generation : Z) (attachmentID : string)
| RRoster (spawnID nodeID : string) (ss : list SessionInfo)
| RStatus (spawnID sessionID : string) (state : Z)
| RDrop (spawnID : string)
| RDropNode (nodeID : string) (order : list string).

(** The state after the call; [None] is a panic.  What an attachment carries to the node does not
    matter here. *)
Definition apply_op (op : RouterOp) (r : Router) : option Router :=
  match op with
  | RBind sp node ns => Some (Bind sp node ns r)
  | RAttach sp s c cs cursor gens lease =>
      snd <$> attachClient (S := unit) sp s c "" tt (None : option unit) cs cursor gens lease r
  | RDetach sp s c lease => Some (DetachClient (A := unit) (X := unit) (S := unit) sp s c lease r).2
  | RAuthClosed sp s c node gen att => SessionAuthClosed sp s c node gen att r
  | RRoster sp node ss => Some (UpdateRoster sp node ss r)
  | RStatus sp s st => Some (ApplySessionStatus sp s st r)
  | RDrop sp => Drop sp r
  | RDropNode node order => snd <$> DropNode node order r
  end.

Fixpoint run_ops (ops : list RouterOp) (r : Router) : option Router :=
  match ops with
  | [] => Some r
  | op :: ops => apply_op op r ≫= run_ops ops
  end.

(** ** Slots *)

Definition slot : Type := string * option clientKey.
Definition route_slot (rt : route) (k : option clientKey) : option Z :=
  match k with None => Some (rDone rt) | Some key => clientDone rt !! key end.
Definition held (r : Router) (s : slot) : option Z :=
  match routes r !! s.1 with Some rt => route_slot rt s.2 | None => None end.

Definition same_dom (rt : route) : Prop :=
  dom (clientDone rt) = dom (clients rt) /\ dom (clientGenerations rt) = dom (clients rt) /\
  dom (clientLeases rt) = dom (clients rt).

Record router_wf (r : Router) : Prop := {
  wf_open : forall s c, held r s = Some c -> (c ∉ closed r) /\ c < nextChan r;
  wf_held_inj : forall s s' c, held r s = Some c -> held r s' = Some c -> s = s';
  wf_closed : forall c, c ∈ closed r -> c < nextChan r;
  wf_doms : forall sp rt, routes r !! sp = Some rt -> same_dom rt
}.

(** The call gave the slot up without closing its channel: the client detached itself with its own
    lease, or the whole route was overwritten by a second [Bind]. *)
Definition gives_up (op : RouterOp) (r : Router) (s : slot) : Prop :=
  match op with
  | RDetach sp sess cl lease =>
      s = (sp, Some (ck sess cl)) /\
      exists rt, routes r !! sp = Some rt /\ holds_lease (ck sess cl) lease rt = true
  | RBind sp _ _ => s.1 = sp
  | _ => False
  end.

(** How one step moves channels: [fresh] is the slot that received a new channel, if any. *)
Record moves (op : RouterOp) (r r' : Router) : Prop := {
  mv_next : nextChan r <= nextChan r';
  mv_old : forall c, c ∈ closed r -> c ∈ closed r';
  mv_closed : forall c, c ∈ closed r' -> c ∈ closed r \/ exists s, held r s = Some c;
  mv_held : forall s c, held r' s = Some c ->
     (held r s = Some c /\ c ∉ closed r') \/
     (c = nextChan r /\ nextChan r' = nextChan r + 1 /\
      forall s', held r' s' = Some c -> s' = s);
  mv_kept : forall s c, held r s = Some c ->
     held r' s = Some c \/ c ∈ closed r' \/ gives_up op r s;
  mv_doms : forall sp rt, routes r' !! sp = Some rt -> same_dom rt
}.

Lemma moves_wf op r r' : router_wf r -> moves op r r' -> router_wf r'.
Proof.
  intros [Ho Hi Hc _] [Hn Hold Hcl Hh _ Hd]. split; [| | |done].
  - intros s c Hs. destruct (Hh _ _ Hs) as [[Hs0 Hnc]|(-> & Hn' & _)].
    + split; [done|]. destruct (Ho _ _ Hs0). lia.
    + split; [|lia]. intros [Hin|[s0 Hs0]]%Hcl; [specialize (Hc _ Hin); lia|].
      destruct (Ho _ _ Hs0). lia.
  - intros s s' c Hs Hs'. destruct (Hh _ _ Hs) as [[Hs0 Hnc]|(-> & _ & Hu)].
    + destruct (Hh _ _ Hs') as [[Hs0' _]|(-> & _ & Hu)]; [by eapply Hi|by apply Hu].
    + symmetry. by apply Hu.
  - intros c [Hin|[s Hs]]%Hcl; [specialize (Hc _ Hin)|destruct (Ho _ _ Hs)]; lia.
Qed.

Lemma held_set_route sp rt r s :
  held (set_route sp rt r) s = if decide (s.1 = sp) then route_slot rt s.2 else held r s.
Proof.
  unfold held, set_route. simpl. case_decide as Hs.
  - by rewrite Hs, lookup_insert_eq.
  - by rewrite lookup_insert_ne.
Qed.

(** A step that rewrites one route without touching its channels. *)
Lemma moves_same_chans op sp rt rt' r :
  router_wf r -> routes r !! sp = Some rt -> clientDone rt' = clientDone rt ->
  rDone rt' = rDone rt -> same_dom rt' -> moves op r (set_route sp rt' r).
Proof.
  intros Hwf Hrt Hcd Hdn Hdom.
  assert (Hsame : forall s, held (set_route sp rt' r) s = held r s).
  { intros [sp' k]. rewrite held_set_route. case_decide as Hs; [|done]. simpl in Hs. subst sp'.
    unfold held. simpl. rewrite Hrt. unfold route_slot. by rewrite Hcd, Hdn. }
  split; simpl; [lia|auto|auto| | |].
  - intros s c. rewrite Hsame. intros Hs. left. split; [done|]. by apply (wf_open _ Hwf) in Hs as [].
  - intros s c. rewrite Hsame. auto.
  - intros sp' rt0 [[<- <-]|[_ H]]%lookup_insert_Some; [done|by eapply wf_doms].
Qed.

Lemma moves_refl op r : router_wf r -> moves op r r.
Proof.
  intros Hwf. split; [lia|auto|auto| |auto|apply (wf_doms _ Hwf)].
  intros s c Hs. left. split; [done|]. by apply (wf_open _ Hwf) in Hs as [].
Qed.

(** Only [pending] changed. *)
Lemma moves_pending op r f : router_wf r -> moves op r (r <| pending ::= f |>).
Proof.
  intros Hwf. pose proof (moves_refl op r Hwf) as [H1 H2 H3 H4 H5 H6]. by split.
Qed.

(** ** Closing *)

Definition with_closed (cs : list Z) (r : Router) : Router :=
  r <| closed ::= union (list_to_set cs) |>.

Lemma close_chans_ok cs r :
  NoDup cs -> (forall c, c ∈ cs -> c ∉ closed r) -> close_chans cs r = Some (with_closed cs r).
Proof.
  revert r. induction cs as [|c cs IH]; intros r Hnd Hop; simpl.
  - unfold with_closed. destruct r. simpl. by rewrite union_empty_l_L.
  - apply NoDup_cons in Hnd as [Hc Hnd]. unfold close_chan.
    rewrite bool_decide_false by (apply Hop; left). simpl. rewrite IH; [|done|].
    + unfold with_closed. destruct r. simpl. by rewrite union_assoc_L, (union_comm_L (list_to_set cs)).
    + intros c' Hc'. simpl. assert (c' <> c) by congruence. specialize (Hop c').
      rewrite elem_of_cons in Hop. set_solver.
Qed.

Lemma elem_of_route_chans rt c :
  c ∈ route_chans rt <-> exists k, route_slot rt k = Some c.
Proof.
  unfold route_chans. rewrite elem_of_app, list_elem_of_fmap, list_elem_of_singleton. split.
  - intros [([key c'] & -> & Hin)| ->].
    + exists (Some key). simpl. by apply elem_of_map_to_list.
    + by exists None.
  - intros [[key|] Hk]; simpl in Hk; [left|right; congruence].
    exists (key, c). split; [done|]. by apply elem_of_map_to_list.
Qed.

Lemma NoDup_route_chans rt :
  (forall k k' c, route_slot rt k = Some c -> route_slot rt k' = Some c -> k = k') ->
  NoDup (route_chans rt).
Proof.
  intros Hinj. unfold route_chans. apply NoDup_app. split_and!.
  - apply NoDup_fmap_2_strong; [|apply NoDup_map_to_list].
    intros [k c] [k' c'] Hk%elem_of_map_to_list Hk'%elem_of_map_to_list Heq. simpl in Heq. subst c'.
    assert (Some k = Some k') as [= ->] by (by eapply Hinj). done.
  - intros c ([k c'] & -> & Hk%elem_of_map_to_list)%list_elem_of_fmap
      Hc%list_elem_of_singleton. simpl in Hc. subst c'.
    assert (Some k = None); [|done]. by eapply Hinj.
  - apply NoDup_singleton.
Qed.

Lemma wf_route_chans r sp rt :
  router_wf r -> routes r !! sp = Some rt ->
  close_chans (route_chans rt) r = Some (with_closed (route_chans rt) r).
Proof.
  intros Hwf Hrt.
  assert (Hh : forall k, held r (sp, k) = route_slot rt k)
    by (intros k; unfold held; simpl; by rewrite Hrt).
  apply close_chans_ok.
  - apply NoDup_route_chans. intros k k' c Hk Hk'.
    assert ((sp, k) = (sp, k')) as [= ->]; [|done].
    eapply (wf_held_inj _ Hwf); by rewrite Hh.
  - intros c [k Hk]%elem_of_route_chans. rewrite <- Hh in Hk. by apply (wf_open _ Hwf) in Hk as [].
Qed.

(** Dropping a route closes every channel it holds. *)
Lemma moves_drop_route op sp rt r f :
  router_wf r -> routes r !! sp = Some rt ->
  moves op r ((with_closed (route_chans rt) r) <| routes ::= delete sp |> <| pending ::= f |>).
Proof.
  intros Hwf Hrt.
  assert (Hh : forall k, held r (sp, k) = route_slot rt k)
    by (intros k; unfold held; simpl; by rewrite Hrt).
  set (r' := set_field pending _ _).
  assert (Hh' : forall s, held r' s = if decide (s.1 = sp) then None else held r s).
  { intros s. unfold held, r'. simpl. case_decide as Hs; [by rewrite Hs, lookup_delete_eq|].
    by rewrite lookup_delete_ne. }
  split.
  - done.
  - simpl. set_solver.
  - simpl. intros c [Hc|Hc]%elem_of_union; [right|by left].
    apply elem_of_list_to_set, elem_of_route_chans in Hc as [k Hk]. exists (sp, k). by rewrite Hh.
  - intros [sp' k] c. rewrite Hh'. simpl. case_decide as Hs; [done|]. intros Hk. left.
    split; [done|]. simpl. intros [Hc|Hc]%elem_of_union.
    + apply elem_of_list_to_set, elem_of_route_chans in Hc as [k' Hk']. rewrite <- Hh in Hk'.
      destruct Hs. by pose proof (wf_held_inj _ Hwf _ _ _ Hk Hk') as [= ->].
    + by apply (wf_open _ Hwf) in Hk as [].
  - intros [sp' k] c Hk. rewrite Hh'. simpl. case_decide as Hs; [|by left]. subst sp'.
    right. left. simpl. apply elem_of_union_l, elem_of_list_to_set, elem_of_route_chans.
    exists k. by rewrite <- Hh.
  - simpl. intros sp' rt' [_ Hrt']%lookup_delete_Some. by eapply wf_doms.
Qed.

(** A step that rewrites the client entries of one route, closing the channels [cs] it removes. *)
Lemma moves_clients op sp rt rt' r cs n :
  router_wf r -> routes r !! sp = Some rt -> rDone rt' = rDone rt -> same_dom rt' ->
  nextChan r <= n ->
  (forall c, c ∈ cs -> exists key, clientDone rt !! key = Some c /\ clientDone rt' !! key <> Some c) ->
  (forall key c, clientDone rt' !! key = Some c ->
     clientDone rt !! key = Some c \/
     (c = nextChan r /\ n = nextChan r + 1 /\
      forall key', clientDone rt' !! key' = Some c -> key' = key)) ->
  (forall key c, clientDone rt !! key = Some c ->
     clientDone rt' !! key = Some c \/ c ∈ cs \/ gives_up op r (sp, Some key)) ->
  moves op r (set_route sp rt' ((with_closed cs r) <| nextChan := n |>)).
Proof.
  intros Hwf Hrt Hdn Hdom Hn Hcs Hnew Hold.
  assert (Hh : forall k, held r (sp, k) = route_slot rt k)
    by (intros k; unfold held; simpl; by rewrite Hrt).
  set (r' := set_route _ _ _).
  assert (Hh' : forall s, held r' s = if decide (s.1 = sp) then route_slot rt' s.2 else held r s)
    by (intros s; unfold r'; rewrite held_set_route; done).
  assert (Hfar : forall sp' k c, held r (sp', k) = Some c ->
            (forall key, (sp', k) = (sp, Some key) -> clientDone rt' !! key = Some c) ->
            c ∉ closed r').
  { intros sp' k c Hk Hne [Hc|Hc]%elem_of_union.
    - apply elem_of_list_to_set in Hc. destruct (Hcs _ Hc) as (key & Hkey & Hgone).
      assert (Hs : held r (sp, Some key) = Some c) by (by rewrite Hh).
      pose proof (wf_held_inj _ Hwf _ _ _ Hk Hs) as Heq. by apply Hgone, Hne.
    - by apply (wf_open _ Hwf) in Hk as []. }
  split; try done.
  - simpl. set_solver.
  - simpl. intros c [Hc|Hc]%elem_of_union; [right|by left].
    apply elem_of_list_to_set, Hcs in Hc as (key & Hkey & _). exists (sp, Some key). by rewrite Hh.
  - intros [sp' k] c Hk. pose proof Hk as Hk0. rewrite Hh' in Hk. simpl in Hk.
    case_decide as Hs; [subst sp'|].
    + destruct k as [key|]; simpl in Hk.
      * destruct (Hnew _ _ Hk) as [Hk1|(-> & -> & Hu)].
        -- left. split; [by rewrite Hh|]. apply (Hfar sp (Some key)); [by rewrite Hh|].
           by intros key' [= <-].
        -- right. split_and!; [done..|]. intros [sp2 k2]. rewrite Hh'. simpl. case_decide as Hs.
           ++ destruct k2 as [key2|]; simpl; intros Hk2; [by rewrite Hs, (Hu _ Hk2)|].
              assert (Hd : held r (sp, None) = Some (nextChan r)) by (rewrite Hh; simpl; congruence).
              apply (wf_open _ Hwf) in Hd as [_ Hd]. lia.
           ++ intros Hk2. apply (wf_open _ Hwf) in Hk2 as [_ Hk2]. lia.
      * assert (Hd : held r (sp, None) = Some c) by (rewrite Hh; simpl; congruence).
        left. split; [done|]. by apply (Hfar sp None).
    + left. split; [done|]. apply (Hfar sp' k); [done|]. by intros ? [=].
  - intros [sp' k] c Hk. rewrite Hh'. simpl. case_decide as Hs; [subst sp'|by left].
    rewrite Hh in Hk. destruct k as [key|]; simpl in *; [|left; congruence].
    destruct (Hold _ _ Hk) as [?|[Hc|?]]; [by left| |by right; right].
    right. left. by apply elem_of_union_l, elem_of_list_to_set.
  - simpl. intros sp' rt0 [[<- <-]|[_ H]]%lookup_insert_Some; [done|by eapply wf_doms].
Qed.

Lemma same_dom_enter key c gen done lease rt :
  same_dom rt -> same_dom (enter_client key c gen done lease rt).
Proof. intros (? & ? & ?). unfold same_dom. simpl. rewrite !dom_insert_L. by split_and!; f_equal. Qed.
Lemma same_dom_forget key rt : same_dom rt -> same_dom (forget_client key rt).
Proof. intros (? & ? & ?). unfold same_dom. simpl. rewrite !dom_delete_L. by split_and!; f_equal. Qed.

Lemma close_chan_ok c r : c ∉ closed r -> close_chan c r = Some (with_closed [c] r).
Proof.
  intros Hc. unfold close_chan. rewrite bool_decide_false by done. unfold with_closed. simpl.
  by rewrite union_empty_r_L.
Qed.

(** Closing the done channel of a client, if it has one. *)
Lemma close_client r sp rt key :
  router_wf r -> routes r !! sp = Some rt ->
  match clientDone rt !! key with Some old => close_chan old r | None => Some r end =
  Some (with_closed (option_list (clientDone rt !! key)) r).
Proof.
  intros Hwf Hrt. destruct (clientDone rt !! key) as [old|] eqn:Hold; simpl.
  - apply close_chan_ok. assert (Hh : held r (sp, Some key) = Some old)
      by (unfold held; simpl; by rewrite Hrt).
    by apply (wf_open _ Hwf) in Hh as [].
  - unfold with_closed. destruct r. simpl. by rewrite union_empty_l_L.
Qed.

Lemma elem_of_option_list (o : option Z) c : c ∈ option_list o <-> o = Some c.
Proof. destruct o; simpl; [rewrite list_elem_of_singleton|rewrite elem_of_nil]; naive_solver. Qed.

Lemma moves_forget op sp rt key r cs :
  router_wf r -> routes r !! sp = Some rt ->
  cs = option_list (clientDone rt !! key) \/ cs = [] /\ gives_up op r (sp, Some key) ->
  moves op r (set_route sp (forget_client key rt) (with_closed cs r)).
Proof.
  intros Hwf Hrt Hcs.
  assert (Hn : set_route sp (forget_client key rt) (with_closed cs r) =
               set_route sp (forget_client key rt) ((with_closed cs r) <| nextChan := nextChan r |>))
    by (by destruct r).
  rewrite Hn. apply (moves_clients op sp rt); try done.
  - apply same_dom_forget. by eapply wf_doms.
  - intros c Hc. exists key. simpl. rewrite lookup_delete_eq. split; [|done].
    destruct Hcs as [->|[-> _]]; [|by apply elem_of_nil in Hc].
    by apply elem_of_option_list in Hc.
  - simpl. intros key' c [_ H]%lookup_delete_Some. by left.
  - simpl. intros key' c Hk. destruct (decide (key' = key)) as [->|Hne].
    + right. destruct Hcs as [->|[-> Hg]]; [left|by right]. by apply elem_of_option_list.
    + left. by rewrite lookup_delete_ne.
Qed.

Lemma moves_enter op sp rt key c gen lease r :
  router_wf r -> routes r !! sp = Some rt ->
  moves op r (set_route sp (enter_client key c gen (nextChan r) lease rt)
                ((with_closed (option_list (clientDone rt !! key)) r) <| nextChan ::= Z.succ |>)).
Proof.
  intros Hwf Hrt.
  assert (Hlt : forall k d, clientDone rt !! k = Some d -> d < nextChan r).
  { intros k d Hk. assert (Hh : held r (sp, Some k) = Some d)
      by (unfold held; simpl; by rewrite Hrt). by apply (wf_open _ Hwf) in Hh as []. }
  apply (moves_clients op sp rt (enter_client key c gen (nextChan r) lease rt)
           r (option_list (clientDone rt !! key)) (Z.succ (nextChan r))); try done.
  - apply same_dom_enter. by eapply wf_doms.
  - lia.
  - intros d Hd%elem_of_option_list. exists key. split; [done|]. simpl. rewrite lookup_insert_eq.
    intros [= <-]. specialize (Hlt _ _ Hd). lia.
  - simpl. intros k d [[<- <-]|[Hne Hk]]%lookup_insert_Some; [right|by left].
    split_and!; [done|lia|]. intros k' [[? _]|[_ Hk']]%lookup_insert_Some; [done|].
    specialize (Hlt _ _ Hk'). lia.
  - simpl. intros k d Hk. destruct (decide (k = key)) as [->|Hne].
    + right. left. by apply elem_of_option_list.
    + left. by rewrite lookup_insert_ne.
Qed.

Lemma moves_Bind sp node ns r : router_wf r -> moves (RBind sp node ns) r (Bind sp node ns r).
Proof.
  intros Hwf. unfold Bind, make_chan.
  set (rt' := mkRoute _ _ _ _ _ _ _ _ _). set (r' := set_route _ _ _).
  assert (Hh' : forall s, held r' s = if decide (s.1 = sp) then route_slot rt' s.2 else held r s)
    by (intros s; unfold r'; rewrite held_set_route; done).
  split.
  - simpl. lia.
  - done.
  - simpl. auto.
  - intros [sp' k] c Hk. rewrite Hh' in Hk. simpl in Hk. case_decide as Hs; [subst sp'|].
    + destruct k as [key|]; simpl in Hk; [by rewrite lookup_empty in Hk|]. injection Hk as <-.
      right. split_and!; [done|simpl; lia|]. intros [sp2 k2]. rewrite Hh'. simpl. case_decide.
      * subst. destruct k2 as [key|]; simpl; [by rewrite lookup_empty|done].
      * intros [_ Hlt]%(wf_open _ Hwf). lia.
    + left. split; [done|]. by apply (wf_open _ Hwf) in Hk as [].
  - intros [sp' k] c Hk. rewrite Hh'. simpl. case_decide; [by right; right|by left].
  - simpl. intros sp' rt0 [[<- <-]|[_ H]]%lookup_insert_Some; [|by eapply wf_doms].
    unfold same_dom. simpl. by rewrite !dom_empty_L.
Qed.

(** ** Dropping *)

(** Channels are only closed, none created. *)
Definition drops (r r' : Router) : Prop := moves (RDrop "") r r' /\ nextChan r' = nextChan r.

Lemma drops_moves op r r' : drops r r' -> moves op r r'.
Proof.
  intros [[H1 H2 H3 H4 H5 H6] _]. split; try done.
  intros s c Hs. destruct (H5 s c Hs) as [?|[?|[]]]; auto.
Qed.

Lemma drops_trans r1 r2 r3 : drops r1 r2 -> drops r2 r3 -> drops r1 r3.
Proof.
  intros [[_ O1 C1 H1 K1 _] N1] [[_ O2 C2 H2 K2 D2] N2].
  assert (Hsub : forall s c, held r2 s = Some c -> held r1 s = Some c).
  { intros s c Hs. destruct (H1 _ _ Hs) as [[? _]|(_ & ? & _)]; [done|lia]. }
  split; [split|congruence]; try done; [lia|auto| | |].
  - intros c [Hc|[s Hs]]%C2; [auto|]. right. exists s. auto.
  - intros s c Hs. destruct (H2 _ _ Hs) as [[? ?]|(_ & ? & _)]; [|lia]. left. auto.
  - intros s c Hs. destruct (K1 _ _ Hs) as [Hs2|[Hc|[]]]; [|auto]. by apply K2.
Qed.

Lemma drops_refl r : router_wf r -> drops r r.
Proof. intros Hwf. split; [by apply moves_refl|done]. Qed.

Definition hosts (r : Router) (node id : string) : bool :=
  match routes r !! id with Some rt => String.eqb (rNodeID rt) node | None => false end.

Lemma hosts_dropped r node id k rt f :
  routes r !! id = Some rt -> k <> id ->
  hosts ((with_closed (route_chans rt) r) <| routes ::= delete id |> <| pending ::= f |>) node k =
  hosts r node k.
Proof. intros Hrt Hk. unfold hosts. simpl. by rewrite lookup_delete_ne. Qed.

(** What one call of the loop leaves of a table indexed by spawn. *)
Definition survivors {V} (node : string) (ids : list string) (r : Router) (t t' : gmap string V)
    : Prop :=
  forall id, t' !! id = if bool_decide (id ∈ ids) && hosts r node id then None else t !! id.

Lemma drop_routes_spec node ids r :
  router_wf r -> NoDup ids ->
  exists r', drop_routes node ids r = Some (List.filter (hosts r node) ids, r') /\
    drops r r' /\ router_wf r' /\
    survivors node ids r (routes r) (routes r') /\ survivors node ids r (pending r) (pending r').
Proof.
  revert r. induction ids as [|id ids IH]; intros r Hwf Hnd.
  { exists r. simpl. by split_and!; [|apply drops_refl|..]. }
  apply NoDup_cons in Hnd as [Hid Hnd]. cbn [drop_routes List.filter].
  destruct (hosts r node id) eqn:Hh.
  - unfold hosts in Hh. destruct (routes r !! id) as [rt|] eqn:Hrt; [|done]. rewrite Hh.
    erewrite wf_route_chans by done. unfold mbind, option_bind.
  pose (r1 := (with_closed (route_chans rt) r) <| routes ::= delete id |> <| pending ::= delete id |>).
  fold r1.
    assert (Hd1 : drops r r1) by (split; [by apply moves_drop_route|done]).
    assert (Hwf1 : router_wf r1) by (by eapply moves_wf, Hd1).
    assert (Hne : forall k, k ∈ ids -> k <> id) by (intros k Hk ->; done).
    destruct (IH r1 Hwf1 Hnd) as (r' & Hr' & Hd & Hwf' & Hrt' & Hpd').
    assert (Hf : List.filter (hosts r1 node) ids = List.filter (hosts r node) ids).
    { apply List.filter_ext_in. intros k Hk%list_elem_of_In. apply hosts_dropped; auto. }
    assert (Hsv : forall V (t t' : gmap string V), survivors node ids r1 (delete id t) t' ->
              survivors node (id :: ids) r t t').
    { intros V t t' Ht k. rewrite Ht. destruct (decide (k = id)) as [->|Hk].
      - rewrite (bool_decide_true (id ∈ id :: ids)) by left. unfold hosts at 2. rewrite Hrt, Hh.
        simpl. rewrite lookup_delete_eq. by destruct (_ && _).
      - rewrite lookup_delete_ne by done. unfold r1. rewrite hosts_dropped by done.
        assert (bool_decide (k ∈ id :: ids) = bool_decide (k ∈ ids)) as ->; [|done].
        apply bool_decide_ext. rewrite elem_of_cons. tauto. }
    rewrite Hr'. simpl. rewrite Hf. exists r'.
    split_and!; [done|by eapply drops_trans|done|by apply Hsv|by apply Hsv].
  - destruct (IH r Hwf Hnd) as (r' & Hr' & Hd & Hwf' & Hrt' & Hpd').
    assert (Hskip : match routes r !! id with
                    | Some rt => String.eqb (rNodeID rt) node = false
                    | None => True
                    end) by (unfold hosts in Hh; by destruct (routes r !! id)).
    assert (Hsv : forall V (t t' : gmap string V), survivors node ids r t t' ->
              survivors node (id :: ids) r t t').
    { intros V t t' Ht k. rewrite Ht. destruct (decide (k = id)) as [->|Hk].
      - by rewrite Hh, !andb_false_r.
      - assert (bool_decide (k ∈ id :: ids) = bool_decide (k ∈ ids)) as ->; [|done].
        apply bool_decide_ext. rewrite elem_of_cons. tauto. }
    destruct (routes r !! id) as [rt|]; [rewrite Hskip|]; exists r'; auto 10.
Qed.

(** The loop visits an id twice at most when the enumeration repeats it. *)
Lemma drop_routes_drops node ids r :
  router_wf r -> exists dropped r', drop_routes node ids r = Some (dropped, r') /\ drops r r'.
Proof.
  revert r. induction ids as [|id ids IH]; intros r Hwf; cbn [drop_routes].
  { exists [], r. split; [done|by apply drops_refl]. }
  destruct (routes r !! id) as [rt|] eqn:Hrt; [|by apply IH].
  destruct (String.eqb (rNodeID rt) node); [|by apply IH].
  erewrite wf_route_chans by done. unfold mbind, option_bind.
  pose (r1 := (with_closed (route_chans rt) r) <| routes ::= delete id |> <| pending ::= delete id |>).
  fold r1.
  assert (Hd1 : drops r r1) by (split; [by apply moves_drop_route|done]).
  destruct (IH r1) as (dropped & r' & -> & Hd); [by eapply moves_wf, Hd1|]. simpl.
  eexists _, r'. split; [done|]. by eapply drops_trans.
Qed.

(** ** Every operation *)

Lemma apply_op_moves op r :
  router_wf r -> exists r', apply_op op r = Some r' /\ moves op r r'.
Proof.
  intros Hwf. destruct op as [sp node ns|sp s c cs cur gens lease|sp s c lease|sp s c node gen att
                             |sp node ss|sp s st|sp|node order]; cbn [apply_op].
  - eexists. split; [done|]. by apply moves_Bind.
  - unfold attachClient. destruct lease as [lease|]; [|exists r; split; [done|by apply moves_refl]].
    destruct (routes r !! sp) as [rt|] eqn:Hrt; [|exists r; split; [done|by apply moves_refl]].
    rewrite (close_client r sp) by done. simpl. eexists. split; [done|].
    by apply moves_enter.
  - unfold DetachClient. destruct (routes r !! sp) as [rt|] eqn:Hrt;
      [|exists r; split; [done|by apply moves_refl]].
    destruct (holds_lease _ _ _) eqn:Hl; [|exists r; split; [done|by apply moves_refl]].
    eexists. split; [done|]. cbn [snd].
    pose proof (moves_forget (RDetach sp s c lease) sp rt (ck s c) r [] Hwf Hrt) as Hm.
    assert (Hr : with_closed [] r = r) by (unfold with_closed; destruct r; simpl; by rewrite union_empty_l_L).
    rewrite Hr in Hm. apply Hm. right. split; [done|]. simpl. eauto.
  - unfold SessionAuthClosed. destruct (routes r !! sp) as [rt|] eqn:Hrt;
      [|exists r; split; [done|by apply moves_refl]].
    destruct (_ || _ || _); [exists r; split; [done|by apply moves_refl]|].
    rewrite (close_client r sp) by done. simpl. eexists. split; [done|].
    apply moves_forget; auto.
  - eexists. split; [done|]. unfold UpdateRoster.
    destruct (routes r !! sp) as [rt|] eqn:Hrt; [|by apply moves_pending].
    eapply moves_same_chans; try done. by apply (wf_doms _ Hwf _ _ Hrt).
  - eexists. split; [done|]. unfold ApplySessionStatus.
    destruct (routes r !! sp) as [rt|] eqn:Hrt.
    + eapply moves_same_chans; try done. by apply (wf_doms _ Hwf _ _ Hrt).
    + destruct (pending r !! sp); [by apply moves_pending|by apply moves_refl].
  - unfold Drop. destruct (routes r !! sp) as [rt|] eqn:Hrt; simpl.
    + erewrite wf_route_chans by done. simpl. eexists. split; [done|]. by apply moves_drop_route.
    + eexists. split; [done|]. by apply moves_pending.
  - unfold DropNode. destruct (drop_routes_drops node order r Hwf) as (dr & r' & -> & Hd). simpl.
    eexists. split; [done|].
    assert (Hwf' : router_wf r') by (by eapply moves_wf, Hd).
    apply drops_moves. eapply drops_trans; [done|]. split; [by apply moves_pending|done].
Qed.

Lemma New_wf : router_wf New.
Proof. split; unfold held; simpl; intros *; rewrite ?lookup_empty; set_solver. Qed.

Lemma run_ops_wf ops r : router_wf r -> exists r', run_ops ops r = Some r' /\ router_wf r'.
Proof.
  revert r. induction ops as [|op ops IH]; intros r Hwf; simpl; [by exists r|].
  destruct (apply_op_moves op r Hwf) as (r' & -> & Hm). simpl. by eapply IH, moves_wf.
Qed.

(** ** Who receives a frame *)

(** The sender and the lease registered for a client. *)
Definition entry (r : Router) (sp : string) (key : clientKey) : option (Z * string) :=
  rt ← routes r !! sp; c ← clients rt !! key; l ← clientLeases rt !! key; Some (c, l).

(** The call may end or replace the attachment of [key] on [sp]. *)
Definition touches (op : RouterOp) (sp : string) (key : clientKey) : bool :=
  match op with
  | RBind sp' _ _ | RDrop sp' => bool_decide (sp' = sp)
  | RAttach sp' s c _ _ _ _ | RDetach sp' s c _ | RAuthClosed sp' s c _ _ _ =>
      bool_decide (sp' = sp) && bool_decide (ck s c = key)
  | RDropNode _ _ => true
  | RRoster _ _ _ | RStatus _ _ _ => false
  end.

(** The call certainly ends the attachment there was. *)
Definition ends (op : RouterOp) (sp : string) (key : clientKey) : Prop :=
  match op with
  | RBind sp' _ _ | RDrop sp' => sp' = sp
  | RAttach sp' s c _ _ _ (Some _) => sp' = sp /\ ck s c = key
  | _ => False
  end.

Lemma entry_set_route sp' rt r sp key :
  entry (set_route sp' rt r) sp key =
  if decide (sp' = sp) then c ← clients rt !! key; l ← clientLeases rt !! key; Some (c, l)
  else entry r sp key.
Proof.
  unfold entry, set_route. simpl. case_decide as Hs.
  - by rewrite Hs, lookup_insert_eq.
  - by rewrite lookup_insert_ne.
Qed.

Lemma entry_same_maps sp' rt rt' r sp key :
  routes r !! sp' = Some rt -> clients rt' = clients rt -> clientLeases rt' = clientLeases rt ->
  entry (set_route sp' rt' r) sp key = entry r sp key.
Proof.
  intros Hrt Hc Hl. rewrite entry_set_route. case_decide as Hs; [|done].
  unfold entry. by rewrite <- Hs, Hrt, Hc, Hl.
Qed.

Lemma entry_forget sp' rt key' r sp key :
  routes r !! sp' = Some rt ->
  entry (set_route sp' (forget_client key' rt) r) sp key =
  if decide (sp' = sp /\ key' = key) then None else entry r sp key.
Proof.
  intros Hrt. rewrite entry_set_route. unfold entry. simpl.
  destruct (decide (sp' = sp)) as [->|Hs].
  - destruct (decide (key' = key)) as [->|Hk].
    + by rewrite !lookup_delete_eq, decide_True.
    + rewrite !lookup_delete_ne, (decide_False (P := _ /\ _)), Hrt by tauto. done.
  - by rewrite (decide_False (P := _ /\ _)) by tauto.
Qed.

Lemma entry_with_closed cs r sp key : entry (with_closed cs r) sp key = entry r sp key.
Proof. done. Qed.

Lemma entry_drop_routes node ids r dropped r' sp key :
  router_wf r -> drop_routes node ids r = Some (dropped, r') ->
  entry r' sp key = entry r sp key \/ entry r' sp key = None.
Proof.
  revert r dropped r'. induction ids as [|id ids IH]; intros r dr r' Hwf; cbn [drop_routes].
  { intros [= _ <-]. by left. }
  destruct (routes r !! id) as [rt|] eqn:Hrt; [|by eapply IH].
  destruct (String.eqb (rNodeID rt) node); [|by eapply IH].
  erewrite wf_route_chans by done. unfold mbind, option_bind.
  pose (r1 := (with_closed (route_chans rt) r) <| routes ::= delete id |> <| pending ::= delete id |>).
  fold r1.
  assert (Hwf1 : router_wf r1) by (eapply (moves_wf (RDrop "")); [done|by apply moves_drop_route]).
  destruct (drop_routes node ids r1) as [[dr1 r2]|] eqn:Hd; [|done]. intros [= _ <-].
  destruct (IH _ _ _ Hwf1 Hd) as [->| ->]; [|by right].
  unfold entry, r1. simpl. destruct (decide (id = sp)) as [->|].
  - right. by rewrite lookup_delete_eq.
  - left. by rewrite lookup_delete_ne.
Qed.

(** What a step does to the entry of one client. *)
Lemma entry_step op r r' sp key :
  router_wf r -> apply_op op r = Some r' ->
  (touches op sp key = false -> entry r' sp key = entry r sp key) /\
  forall e, entry r' sp key = Some e ->
    (entry r sp key = Some e /\ ~ ends op sp key) \/
    exists s c cur gens l, op = RAttach sp s c e.1 cur gens (Some l) /\ ck s c = key /\ e.2 = l.
Proof.
  intros Hwf.
  assert (Hnone : entry r' sp key = None ->
    forall e, entry r' sp key = Some e -> (entry r sp key = Some e /\ ~ ends op sp key) \/
    exists s c cur gens l, op = RAttach sp s c e.1 cur gens (Some l) /\ ck s c = key /\ e.2 = l)
    by (intros Hn e; congruence).
  destruct op as [sp' node ns|sp' s c cs cur gens lease|sp' s c lease|sp' s c node gen att
                 |sp' node ss|sp' s st|sp'|node order]; cbn [apply_op touches ends].
  - intros [= <-]. unfold Bind, make_chan. rewrite entry_set_route. brefl. case_decide as Hs.
    + split; [done|]. simpl. by rewrite lookup_empty.
    + split; [done|]. intros e He. left. by split.
  - unfold attachClient. destruct lease as [lease|];
      [|intros [= <-]; split; [done|]; intros e He; left; by split; [|intros []]].
    destruct (routes r !! sp') as [rt|] eqn:Hrt.
    2: { intros [= <-]. split; [done|]. intros e He. left. split; [done|]. intros [-> _].
         unfold entry in He. by rewrite Hrt in He. }
    rewrite (close_client r sp') by done. unfold mbind, option_bind, make_chan. intros [= <-].
    rewrite entry_set_route. brefl. case_decide as Hs.
    + subst sp'. simpl. destruct (decide (ck s c = key)) as [<-|Hk].
      * rewrite !lookup_insert_eq. split; [by intros [?|?]|]. intros e [= <-]. right. naive_solver.
      * rewrite !lookup_insert_ne by done. unfold entry. rewrite Hrt. split; [done|].
        intros e He. left. split; [done|]. tauto.
    + split; [done|]. intros e He. left. split; [done|]. tauto.
  - unfold DetachClient. destruct (routes r !! sp') as [rt|] eqn:Hrt;
      [|intros [= <-]; split; [done|]; intros e He; left; by split; [|intros []]].
    destruct (holds_lease _ _ _) eqn:Hl;
      [|intros [= <-]; split; [done|]; intros e He; left; by split; [|intros []]].
    cbn [snd]. intros [= <-]. rewrite entry_forget by done. brefl. case_decide as Hs.
    + split; [tauto|done].
    + split; [done|]. intros e He. left. by split; [|intros []].
  - unfold SessionAuthClosed. destruct (routes r !! sp') as [rt|] eqn:Hrt;
      [|intros [= <-]; split; [done|]; intros e He; left; by split; [|intros []]].
    destruct (_ || _ || _);
      [intros [= <-]; split; [done|]; intros e He; left; by split; [|intros []]|].
    rewrite (close_client r sp') by done. unfold mbind, option_bind. intros [= <-].
    rewrite entry_forget by done. brefl. case_decide as Hs.
    + split; [tauto|done].
    + split; [done|]. intros e He. left. by split; [|intros []].
  - intros [= <-]. unfold UpdateRoster. destruct (routes r !! sp') as [rt|] eqn:Hrt.
    + erewrite entry_same_maps by done. split; [done|]. intros e He. left. by split; [|intros []].
    + split; [done|]. intros e He. left. by split; [|intros []].
  - intros [= <-]. unfold ApplySessionStatus. destruct (routes r !! sp') as [rt|] eqn:Hrt.
    + erewrite entry_same_maps by done. split; [done|]. intros e He. left. by split; [|intros []].
    + destruct (pending r !! sp'); (split; [done|]); intros e He; left; by split; [|intros []].
  - unfold Drop. destruct (routes r !! sp') as [rt|] eqn:Hrt; simpl.
    + erewrite wf_route_chans by done. simpl. intros [= <-]. brefl. unfold entry. simpl.
      destruct (decide (sp' = sp)) as [->|Hs]; [rewrite lookup_delete_eq; done|].
      rewrite lookup_delete_ne by done. split; [done|]. intros e He. left. by split.
    + intros [= <-]. split; [done|]. intros e He. left. split; [done|]. intros ->.
      unfold entry in He. simpl in He. by rewrite Hrt in He.
  - split; [done|]. unfold DropNode in *.
    destruct (drop_routes node order r) as [[dr r1]|] eqn:Hd; [|done].
    simpl in *. match goal with H : Some _ = Some _ |- _ => injection H as <- end.
    intros e He. left. split; [|tauto].
    destruct (entry_drop_routes _ _ _ _ _ sp key Hwf Hd) as [Heq|Hn]; unfold entry in *;
      simpl in *; congruence.
Qed.

Lemma run_ops_app ops1 ops2 r : run_ops (ops1 ++ ops2) r = run_ops ops1 r ≫= run_ops ops2.
Proof.
  revert r. induction ops1 as [|op ops IH]; intros r; simpl; [done|].
  destruct (apply_op op r); [apply IH|done].
Qed.

Lemma run_ops_snoc ops op r r' :
  run_ops (ops ++ [op]) r = Some r' ->
  exists r1, run_ops ops r = Some r1 /\ apply_op op r1 = Some r'.
Proof.
  rewrite run_ops_app. destruct (run_ops ops r) as [r1|]; [|done]. simpl. intros H. exists r1.
  split; [done|]. destruct (apply_op op r1); [|done]. simpl in H. congruence.
Qed.
