(* ===== verification/RouterContract.v ===== *)
(** * The contract of the session mux

    Theorems over every interleaving of the router's methods, by handlers of any number of node
    and client connections, with a concrete run on which each applies. *)

From S2P Require Import Prelude Router RouterLaws.
(** Along a run, a property of one slot is kept, or lost at a definite step. *)
Lemma run_ops_kept (P L : Router -> Prop) (B : RouterOp -> Router -> Prop) :
  (forall op r r', router_wf r -> apply_op op r = Some r' -> P r -> P r' \/ L r' \/ B op r) ->
  (forall op r r', router_wf r -> apply_op op r = Some r' -> L r -> L r') ->
  forall ops r r', router_wf r -> run_ops ops r = Some r' -> P r ->
    P r' \/ L r' \/
    exists pre op post rmid, ops = pre ++ op :: post /\ run_ops pre r = Some rmid /\ P rmid /\ B op rmid.
Proof.
  intros HP HL ops. induction ops as [|op ops IH] using rev_ind; intros r r' Hwf Hrun Hr.
  { left. simpl in Hrun. congruence. }
  apply run_ops_snoc in Hrun as (r1 & Hr1 & Hop).
  destruct (run_ops_wf ops r Hwf) as (r1' & Hr1' & Hwf1).
  rewrite Hr1 in Hr1'. injection Hr1' as <-.
  destruct (IH _ _ Hwf Hr1 Hr) as [H|[H|(pre & op' & post & rmid & -> & Hpre & Hp & Hb)]].
  - destruct (HP _ _ _ Hwf1 Hop H) as [?|[?|Hb]]; [by left|by right; left|].
    right. right. by exists ops, op, [], r1.
  - right. left. by eapply HL.
  - right. right. exists pre, op', (post ++ [op]), rmid. by rewrite <- app_assoc.
Qed.

Lemma apply_op_moves' op r r' : router_wf r -> apply_op op r = Some r' -> moves op r r'.
Proof.
  intros Hwf Hop. destruct (apply_op_moves op r Hwf) as (r1 & H1 & Hm).
  rewrite Hop in H1. by injection H1 as <-.
Qed.

(** No interleaving of the router's methods panics by closing a channel twice; in every
    reachable state the four client maps of each route have the same keys, every registered done
    channel is still open, and no two clients or routes share one. *)
Theorem router_never_panics ops : exists r, run_ops ops New = Some r /\ router_wf r.
Proof. apply run_ops_wf, New_wf. Qed.

(** C4: a client handler is never left waiting on a dead attachment.  From any reachable state,
    the done channel of an attachment stays registered until it is closed, unless the client
    itself detached with its current lease or the spawn was bound a second time over a live
    route. *)
Theorem client_never_left_waiting ops0 r0 ops r sp key c :
  run_ops ops0 New = Some r0 -> held r0 (sp, Some key) = Some c -> run_ops ops r0 = Some r ->
  held r (sp, Some key) = Some c \/ c ∈ closed r \/
  exists pre op post rmid, ops = pre ++ op :: post /\ run_ops pre r0 = Some rmid /\
    held rmid (sp, Some key) = Some c /\ gives_up op rmid (sp, Some key).
Proof.
  intros H0 Hh Hrun. destruct (run_ops_wf ops0 New New_wf) as (r0' & H0' & Hwf).
  rewrite H0 in H0'. injection H0' as <-.
  apply (run_ops_kept (fun r => held r (sp, Some key) = Some c) (fun r => c ∈ closed r)
           (fun op r => gives_up op r (sp, Some key))) with (r := r0); try done.
  - intros op r1 r2 Hwf1 Hop. by apply apply_op_moves' in Hop as [_ _ _ _ Hk _]; [apply Hk|].
  - intros op r1 r2 Hwf1 Hop. by apply apply_op_moves' in Hop as [_ Hold _ _ _ _]; [apply Hold|].
Qed.

(** Frames reach the right client.  If a frame for (spawn, session, client) is written to a
    stream, that stream was attached under exactly that address (the empty session being session
    0) and, since then, the spawn was neither rebound nor dropped and nobody else attached there;
    and as long as no call touches that address, the frame is written to that stream. *)
Theorem relay_addressing ops r sp s cl data :
  run_ops ops New = Some r ->
  (forall c d, FromNode sp s cl data r = Some (c, d) ->
     d = data /\
     exists pre s' cl' cur gens lease post,
       ops = pre ++ RAttach sp s' cl' c cur gens (Some lease) :: post /\ ck s' cl' = ck s cl /\
       Forall (fun op => ~ ends op sp (ck s cl)) post) /\
  (forall c ops' r', FromNode sp s cl data r = Some (c, data) -> run_ops ops' r = Some r' ->
     Forall (fun op => touches op sp (ck s cl) = false) ops' ->
     FromNode sp s cl data r' = Some (c, data)).
Proof.
  assert (Hfn : forall r, router_wf r -> forall c d, FromNode sp s cl data r = Some (c, d) <->
            d = data /\ exists l, entry r sp (ck s cl) = Some (c, l)).
  { intros r0 Hwf c d. unfold FromNode, entry. destruct (routes r0 !! sp) as [rt|] eqn:Hrt; simpl;
      [|naive_solver].
    destruct (clients rt !! ck s cl) as [c'|] eqn:Hc; simpl; [|naive_solver].
    destruct (wf_doms _ Hwf _ _ Hrt) as (_ & _ & Hdom).
    assert (is_Some (clientLeases rt !! ck s cl)) as [l ->]
      by (apply elem_of_dom; rewrite Hdom; apply elem_of_dom; by rewrite Hc).
    simpl. naive_solver. }
  intros Hrun. destruct (run_ops_wf ops New New_wf) as (r0 & H0 & Hwf).
  rewrite Hrun in H0. injection H0 as <-. split.
  - intros c d [-> [l He]]%Hfn; [|done]. split; [done|]. clear Hfn. revert r Hrun Hwf He.
    induction ops as [|op ops IH] using rev_ind; intros r Hrun Hwf He.
    { injection Hrun as <-. unfold entry in He. simpl in He. by rewrite lookup_empty in He. }
    apply run_ops_snoc in Hrun as (r1 & Hr1 & Hop).
    destruct (run_ops_wf ops New New_wf) as (r1' & Hr1' & Hwf1).
    rewrite Hr1 in Hr1'. injection Hr1' as <-.
    destruct (entry_step op r1 r sp (ck s cl) Hwf1 Hop) as [_ Hst].
    destruct (Hst _ He) as [[He1 Hne]|(s' & c' & cur & gens & l' & -> & Hk & _)].
    + destruct (IH _ Hr1 Hwf1 He1) as (pre & s' & cl' & cur & gens & l' & post & -> & Hk & Hall).
      exists pre, s', cl', cur, gens, l', (post ++ [op]). split_and!; [by rewrite <- app_assoc|done|].
      apply Forall_app. split; [done|]. by constructor.
    + exists ops, s', c', cur, gens, l', []. by split_and!.
  - intros c ops' r' [_ [l He]]%Hfn Hrun' Hall; [|done].
    assert (He' : router_wf r' /\ entry r' sp (ck s cl) = Some (c, l)).
    { clear Hrun Hfn. revert r Hwf Hrun' He. induction Hall as [|op ops' Hop Hall IH]; intros r Hwf.
      - intros [= <-]. done.
      - simpl. intros Hrun' He. destruct (apply_op op r) as [r1|] eqn:Hr1; [|done].
        assert (Hwf1 : router_wf r1) by (eapply moves_wf; [done|by eapply apply_op_moves']).
        apply (IH r1 Hwf1 Hrun'). destruct (entry_step op r r1 sp (ck s cl) Hwf Hr1) as [Hsame _].
        by rewrite Hsame. }
    destruct He' as [Hwf' He']. apply Hfn; [done|]. eauto.
Qed.

(** A lease is presented to the router only through the calls of the handler it was given to. *)
Definition uses_lease (lease : string) (op : RouterOp) : Prop :=
  match op with RAttach _ _ _ _ _ _ (Some l) => l = lease | _ => False end.

(** A superseded handler is powerless.  Once another handler has attached at the same address,
    the first one's lease never works again, whatever happens next (leases being fresh): its
    detach changes nothing and sends nothing, and its re-authentication is refused. *)
Theorem superseded_lease_inert {A X S : Type} ops r0 sp s cl snd cur gens l1 l2 r1 ops' r
    (gen : Z) owner (env : A) :
  run_ops ops New = Some r0 -> l1 <> l2 -> is_Some (routes r0 !! sp) ->
  apply_op (RAttach sp s cl snd cur gens (Some l2)) r0 = Some r1 ->
  run_ops ops' r1 = Some r -> Forall (fun op => ~ uses_lease l1 op) ops' ->
  DetachClient (A := A) (X := X) (S := S) sp s cl l1 r = ([], r) /\
  ReauthenticateClient (X := X) (S := S) sp s cl l1 gen owner env r =
    Err (UnknownAttachment sp s cl).
Proof.
  intros Hrun Hne Hbound Hat Hrun' Hall.
  destruct (run_ops_wf ops New New_wf) as (r0' & H0 & Hwf0).
  rewrite Hrun in H0. injection H0 as <-.
  assert (Hwf1 : router_wf r1) by (eapply moves_wf; [done|by eapply apply_op_moves']).
  assert (H1 : forall c, entry r1 sp (ck s cl) <> Some (c, l1)).
  { intros c He. destruct (entry_step _ _ _ sp (ck s cl) Hwf0 Hat) as [_ Hst].
    destruct (Hst _ He) as [[_ Hn]|(? & ? & ? & ? & ? & Heq & _ & Hl)].
    - by apply Hn.
    - simplify_eq/=. }
  assert (Hinv : router_wf r /\ forall c, entry r sp (ck s cl) <> Some (c, l1)).
  { clear Hat Hrun Hbound. revert r1 Hwf1 H1 Hrun'.
    induction Hall as [|op ops' Hop Hall IH]; intros r1 Hwf1 H1 Hrun'.
    - by injection Hrun' as <-.
    - simpl in Hrun'. destruct (apply_op op r1) as [r2|] eqn:Hr2; [|done].
      apply (IH r2); [eapply moves_wf; [done|by eapply apply_op_moves']| |done].
      intros c He. destruct (entry_step op r1 r2 sp (ck s cl) Hwf1 Hr2) as [_ Hst].
      destruct (Hst _ He) as [[He1 _]|(? & ? & ? & ? & ? & -> & _ & Hl)]; [by eapply H1|].
      simpl in Hl. by apply Hop. }
  destruct Hinv as [Hwf Hno].
  assert (Hh : forall rt, routes r !! sp = Some rt -> holds_lease (ck s cl) l1 rt = false).
  { intros rt Hrt. unfold holds_lease, opt_eqb. destruct (bool_decide _) eqn:Hl; [|by rewrite andb_false_r].
    brefl. exfalso. destruct (wf_doms _ Hwf _ _ Hrt) as (_ & _ & Hdom).
    assert (is_Some (clients rt !! ck s cl)) as [c Hc]
      by (apply elem_of_dom; rewrite <- Hdom; apply elem_of_dom; by rewrite Hl).
    apply (Hno c). unfold entry. rewrite Hrt. simpl. rewrite Hc. simpl. by rewrite Hl. }
  unfold DetachClient, ReauthenticateClient. destruct (routes r !! sp) as [rt|]; [|done].
  rewrite Hh by done. by rewrite andb_false_r.
Qed.

(** Evicting a node leaves nothing of it: exactly the routes it hosted and the rosters it had
    pending are gone, every client of those routes is unblocked, and the routes and rosters of
    other nodes are as they were. *)
Theorem drop_node_purges ops r node order :
  run_ops ops New = Some r -> order ≡ₚ elements (dom (routes r)) ->
  exists dropped r', DropNode node order r = Some (dropped, r') /\
    (forall id, id ∈ dropped <-> exists rt, routes r !! id = Some rt /\ rNodeID rt = node) /\
    (forall id, routes r' !! id = if bool_decide (id ∈ dropped) then None else routes r !! id) /\
    (forall id p, pending r' !! id = Some p <->
       pending r !! id = Some p /\ (id ∉ dropped) /\ pNodeID p <> node) /\
    (forall id k c, id ∈ dropped -> held r (id, k) = Some c -> c ∈ closed r').
Proof.
  intros Hrun Hord. destruct (run_ops_wf ops New New_wf) as (r0 & H0 & Hwf).
  rewrite Hrun in H0. injection H0 as <-.
  destruct (drop_routes_spec node order r Hwf) as (r' & Hd & Hdr & Hwf' & Hrt & Hpd).
  { rewrite Hord. apply NoDup_elements. }
  set (dropped := List.filter (hosts r node) order) in *.
  assert (Hin : forall id, id ∈ dropped <-> hosts r node id = true).
  { intros id. unfold dropped. rewrite list_elem_of_In, List.filter_In, <- list_elem_of_In, Hord.
    rewrite elem_of_elements, elem_of_dom. unfold hosts.
    destruct (routes r !! id); [naive_solver|]. split; [|done]. by intros [[? ?] ?]. }
  assert (Hdec : forall id, bool_decide (id ∈ order) && hosts r node id = bool_decide (id ∈ dropped)).
  { intros id. destruct (bool_decide (id ∈ dropped)) eqn:Hb; brefl.
    - pose proof Hb as Hb'. apply Hin in Hb'. split; [|done].
      unfold dropped in Hb. rewrite list_elem_of_In, List.filter_In, <- list_elem_of_In in Hb. tauto.
    - right. apply not_true_is_false. by rewrite <- Hin. }
  exists dropped, (purge_pending node r'). unfold DropNode. rewrite Hd. split_and!; [done|..].
  - intros id. rewrite Hin. unfold hosts. destruct (routes r !! id) as [rt|]; brefl; naive_solver.
  - intros id. simpl. rewrite Hrt, Hdec. done.
  - intros id p. simpl. rewrite map_lookup_filter_Some, Hpd, Hdec. simpl.
    destruct (bool_decide _) eqn:Hb; brefl; naive_solver.
  - intros id k c Hid Hh. simpl. destruct Hdr as [[_ _ _ _ Hk _] _].
    destruct (Hk _ _ Hh) as [Hh'|[Hc|[]]]; [|done]. exfalso. unfold held in Hh'. simpl in Hh'.
    rewrite Hrt, Hdec, bool_decide_true in Hh' by done. done.
Qed.

(** A roster is never lost to the race between the node that reports it and the scheduler
    that binds the spawn: in either order, with any status updates in between, the mirrored
    sessions are the same, and none is pending afterwards. *)
Theorem roster_either_order sp node ns ss states r :
  routes r !! sp = None ->
  let status r := foldl (fun r ss => ApplySessionStatus sp ss.1 ss.2 r) r states in
  let late := Bind sp node ns (status (UpdateRoster sp node ss r)) in
  let early := status (UpdateRoster sp node ss (Bind sp node ns r)) in
  ListSessions sp late = ListSessions sp early /\
  ListSessions sp early = foldl (fun l ss => set_state ss.1 ss.2 l) ss states /\
  pending late !! sp = None /\ pending early !! sp = None.
Proof.
  intros Hnone status late early.
  assert (Hlate : forall sts r0 l, routes r0 !! sp = None -> pending r0 !! sp = Some (mkPending node l) ->
    let r1 := foldl (fun r ss => ApplySessionStatus sp ss.1 ss.2 r) r0 sts in
    routes r1 !! sp = None /\
    pending r1 !! sp = Some (mkPending node (foldl (fun l ss => set_state ss.1 ss.2 l) l sts))).
  { induction sts as [|[s st] sts IH]; intros r0 l Hr Hp; [done|]. simpl.
    apply IH; unfold ApplySessionStatus; rewrite Hr, Hp; [done|]. simpl. by rewrite lookup_insert_eq. }
  assert (Hearly : forall sts r0 rt, routes r0 !! sp = Some rt -> pending r0 !! sp = None ->
    let r1 := foldl (fun r ss => ApplySessionStatus sp ss.1 ss.2 r) r0 sts in
    pending r1 !! sp = None /\
    ListSessions sp r1 = foldl (fun l ss => set_state ss.1 ss.2 l) (sessions rt) sts).
  { induction sts as [|[s st] sts IH]; intros r0 rt Hr Hp; simpl.
    - split; [done|]. unfold ListSessions. by rewrite Hr.
    - refine (IH (ApplySessionStatus sp s st r0) (rt <| sessions := set_state s st (sessions rt) |>)
                _ _); unfold ApplySessionStatus; rewrite Hr; simpl; [by rewrite lookup_insert_eq|done]. }
  destruct (Hlate states (UpdateRoster sp node ss r) ss) as [Hr1 Hp1].
  { unfold UpdateRoster. by rewrite Hnone. }
  { unfold UpdateRoster. rewrite Hnone. simpl. by rewrite lookup_insert_eq. }
  edestruct (Hearly states (UpdateRoster sp node ss (Bind sp node ns r))) as [Hp2 Hl2].
  { unfold UpdateRoster, Bind. simpl. rewrite lookup_insert_eq. simpl. by rewrite lookup_insert_eq. }
  { unfold UpdateRoster, Bind. simpl. rewrite lookup_insert_eq. simpl. by rewrite lookup_delete_eq. }
  assert (Hl1 : ListSessions sp late = foldl (fun l ss => set_state ss.1 ss.2 l) ss states /\
                pending late !! sp = None).
  { unfold late, status, ListSessions, Bind. simpl. rewrite Hp1, lookup_insert_eq, lookup_delete_eq.
    done. }
  destruct Hl1 as [Hl1 Hp3]. unfold early, status. rewrite Hl1, Hl2. by split_and!.
Qed.

(** ** A concrete run *)

Definition demo_calls : list RouterOp :=
  [RRoster "sp" "n1" [mkSessionInfo "0" 1 ""]; RBind "sp" "n1" 11; RBind "sp2" "n2" 22;
   RAttach "sp" "" "web" 101 0 [1] (Some "lease-a"); RAttach "sp" "s1" "web" 102 0 [2] (Some "lease-b")].
Definition demo_router : Router := default New (run_ops demo_calls New).

Lemma demo_router_run : run_ops demo_calls New = Some demo_router.
Proof. vm_compute. reflexivity. Qed.

Lemma client_never_left_waiting_witness :
  2 ∈ closed (default New (run_ops [RDropNode "n1" ["sp"; "sp2"]] demo_router)).
Proof.
  assert (Hh : held demo_router ("sp", Some ("0", "web")) = Some 2) by (vm_compute; reflexivity).
  assert (Hr : run_ops [RDropNode "n1" ["sp"; "sp2"]] demo_router =
    Some (default New (run_ops [RDropNode "n1" ["sp"; "sp2"]] demo_router)))
    by (vm_compute; reflexivity).
  destruct (client_never_left_waiting _ _ _ _ _ _ _ demo_router_run Hh Hr)
    as [H|[H|(pre & op & post & rmid & Heq & _ & _ & Hg)]].
  - exfalso. vm_compute in H. discriminate.
  - exact H.
  - exfalso. destruct pre as [|? [|? ?]]; injection Heq as <-; [exact Hg|discriminate..].
Defined.

Lemma relay_addressing_witness :
  FromNode "sp" "0" "web" "hi" demo_router = Some (101, "hi") /\
  exists pre s' cl' cur gens lease post,
    demo_calls = pre ++ RAttach "sp" s' cl' 101 cur gens (Some lease) :: post.
Proof.
  assert (Hf : FromNode "sp" "0" "web" "hi" demo_router = Some (101, "hi"))
    by (vm_compute; reflexivity).
  split; [exact Hf|].
  destruct (proj1 (relay_addressing _ _ "sp" "0" "web" "hi" demo_router_run) _ _ Hf)
    as [_ (pre & s' & cl' & cur & gens & lease & post & Heq & _)].
  exists pre, s', cl', cur, gens, lease, post. exact Heq.
Defined.

Lemma superseded_lease_inert_witness :
  let r := default New (run_ops [RAttach "sp" "0" "web" 103 0 [1] (Some "lease-c")] demo_router) in
  DetachClient (A := unit) (X := unit) (S := unit) "sp" "0" "web" "lease-a" r = ([], r).
Proof.
  intros r.
  assert (Hat : apply_op (RAttach "sp" "0" "web" 103 0 [1] (Some "lease-c")) demo_router = Some r)
    by (vm_compute; reflexivity).
  assert (Hb : is_Some (routes demo_router !! "sp")) by (vm_compute; eexists; reflexivity).
  exact (proj1 (superseded_lease_inert (A := unit) (X := unit) (S := unit) _ _ _ _ _ _ _ _ "lease-a"
    "lease-c" r [] r 0 "" tt demo_router_run ltac:(discriminate) Hb Hat eq_refl (proj2 (Forall_nil _) I))).
Defined.

Lemma drop_node_purges_witness :
  exists dropped r', DropNode "n1" (elements (dom (routes demo_router))) demo_router = Some (dropped, r') /\
    routes r' !! "sp" = None.
Proof.
  destruct (drop_node_purges demo_calls demo_router "n1" (elements (dom (routes demo_router)))
              demo_router_run (Permutation_refl _)) as (dropped & r' & Hd & Hin & Hrt & _).
  exists dropped, r'. split; [exact Hd|]. rewrite Hrt, bool_decide_true; [reflexivity|].
  apply Hin. eexists. split; [vm_compute; reflexivity|reflexivity].
Defined.

Lemma roster_either_order_witness :
  ListSessions "sp" (Bind "sp" "n1" 11
     (ApplySessionStatus "sp" "0" 7 (UpdateRoster "sp" "n1" [mkSessionInfo "0" 1 ""] New))) =
  [mkSessionInfo "0" 7 ""].
Proof.
  pose proof (roster_either_order "sp" "n1" 11 [mkSessionInfo "0" 1 ""] [("0", 7)] New eq_refl)
    as [H1 [H2 _]].
  simpl foldl in H1, H2. rewrite H1, H2. reflexivity.
Defined.
