(* ===== verification/Scheduler.v ===== *)
(** * The scheduler: src/internal/cp/scheduler/scheduler.go

    [Provision] runs in one goroutine per spawn start and meets the node's receive loop
    ([OnStatus], [Progress]) through a heap of [pendingStart] cells.  A goroutine is a thread of
    the system below; every critical section, every ready case of its [select] and its deferred
    cleanup is one step, and the threads interleave freely.  Time is a clock that only advances. *)

From S2P Require Import Prelude Registry Router.
Inductive SpawnPhase := PHASE_STARTING | PHASE_ACTIVE | PHASE_ERROR | PHASE_OTHER.
#[export] Instance SpawnPhase_eq_dec : EqDecision SpawnPhase.
Proof. solve_decision. Defined.

Record spawnResult := mkResult { phase : SpawnPhase; detail : string }.

Definition DefaultStartStallWindow : Z := 30 * 1000000000.
Definition defaultStartBackstop : Z := 10 * 60 * 1000000000.

(** [res] and [progress] are channels with a buffer of one. *)
Record pendingStart := mkPendingStart {
  res : option spawnResult;
  gen : Z;
  progress : bool
}.
#[export] Instance eta_pendingStart : Eta pendingStart := fun r =>
  mkPendingStart (res r) (gen r) (progress r).

Record InFlightStart := mkInFlight { ifNodeID : string; ifGen : Z }.

Inductive SchedErr :=
| ResourceExhausted
| Unavailable
| FailedPrecondition (detail : string)
| Stalled
| OverBudget
| Cancelled.

(** The message [Provision] builds; mounts, artifacts, secrets and the envelope are opaque. *)
Record RootfsRestore := mkRootfs { SourceGeneration : Z; RootfsArtifacts : list string; LocalOnly : bool }.
Record StartSpawn := mkStartSpawn {
  SpawnId : string; AppRef : string; stModel : string; stName : string; AppId : string;
  stImage : string; RunnableId : string; stMode : string; stGeneration : Z; stAuth : option string;
  AssertedOwner : string; stBaseImageDigest : string; IntentOp : string;
  stMounts : list string; RootfsSourceGeneration : Z; stRootfsArtifacts : list string;
  RootfsArtifactsLocalOnly : bool; stArtifacts : list string; stSecrets : list string
}.
#[export] Instance eta_StartSpawn : Eta StartSpawn := fun r =>
  mkStartSpawn (SpawnId r) (AppRef r) (stModel r) (stName r) (AppId r) (stImage r) (RunnableId r)
    (stMode r) (stGeneration r) (stAuth r) (AssertedOwner r) (stBaseImageDigest r) (IntentOp r)
    (stMounts r) (RootfsSourceGeneration r) (stRootfsArtifacts r) (RootfsArtifactsLocalOnly r)
    (stArtifacts r) (stSecrets r).

(** The arguments of one [Provision] call. *)
Record ProvisionArgs := mkArgs {
  aID : string; aAppRef : string; aModel : string; aName : string; aAppID : string;
  aRunnable : string; aMode : string; aGen : Z; aPlacement : Placement; aEnv : option string;
  aMounts : list string; aBaseImageDigest : string; aRootfs : option RootfsRestore;
  aArtifacts : list string; aSecrets : list string; aOperations : list string
}.

Definition build_start (a : ProvisionArgs) : StartSpawn :=
  let start := mkStartSpawn (aID a) (aAppRef a) (aModel a) (aName a) (aAppID a)
                 (pImage (aPlacement a)) (aRunnable a) (aMode a) (aGen a) (aEnv a)
                 (pOwner (aPlacement a)) (aBaseImageDigest a) "" [] 0 [] false [] [] in
  let start := match aOperations a with [op] => start <| IntentOp := op |> | _ => start end in
  let start := match aMounts a with [] => start | ms => start <| stMounts := ms |> end in
  let start := match aRootfs a with
               | Some rf =>
                 match RootfsArtifacts rf with
                 | [] => start
                 | l => start <| RootfsSourceGeneration := SourceGeneration rf |>
                          <| stRootfsArtifacts := l |> <| RootfsArtifactsLocalOnly := LocalOnly rf |>
                 end
               | None => start
               end in
  let start := match aArtifacts a with [] => start | l => start <| stArtifacts := l |> end in
  match aSecrets a with [] => start | l => start <| stSecrets := l |> end.

(** Where a [Provision] goroutine is.  [Returning] has its result and still has to run the
    deferred cleanup; a call that found no node never registered and returns at once. *)
Inductive ProvisionPC :=
| Sending (p : Z) (n : Node)
| Waiting (p : Z) (n : Node) (stall backstop_at : Z)
| Returning (p : Z) (r : result SchedErr string)
| Returned (r : result SchedErr string).

Record Thread := mkThread { args : ProvisionArgs; pc : ProvisionPC }.

Record Scheduler := mkScheduler {
  stallWindow : Z;
  backstop : Z;
  sPending : gmap string Z;
  inflight : gmap string InFlightStart;
  cells : gmap Z pendingStart;
  threads : gmap Z Thread;
  reg : Registry;
  rt : Router.Router;
  sent : list (Z * StartSpawn);
  clock : Z
}.
#[export] Instance eta_Scheduler : Eta Scheduler := fun r =>
  mkScheduler (stallWindow r) (backstop r) (sPending r) (inflight r) (cells r) (threads r) (reg r)
    (rt r) (sent r) (clock r).

Definition New (g : Registry) (r : Router.Router) (window now : Z) : Scheduler :=
  mkScheduler window defaultStartBackstop ∅ ∅ ∅ ∅ g r [] now.

(** ** The node's receive loop *)

(** A send on a channel with a free slot, dropped otherwise. *)
Definition OnStatus (spawnID : string) (ph : SpawnPhase) (dt : string) (s : Scheduler) : Scheduler :=
  match sPending s !! spawnID with
  | Some p =>
    if bool_decide (ph = PHASE_ACTIVE) || bool_decide (ph = PHASE_ERROR)
    then s <| cells ::= alter (fun c => match res c with
                                        | None => c <| res := Some (mkResult ph dt) |>
                                        | Some _ => c
                                        end) p |>
    else s
  | None => s
  end.

Definition Progress (spawnID : string) (g : Z) (s : Scheduler) : bool * Scheduler :=
  match sPending s !! spawnID with
  | Some p =>
    match cells s !! p with
    | Some c => if gen c =? g
                then (true, s <| cells ::= <[p := c <| progress := true |>]> |>)
                else (false, s)
    | None => (false, s)
    end
  | None => (false, s)
  end.

Definition InFlight (spawnID : string) (s : Scheduler) : option InFlightStart :=
  inflight s !! spawnID.

Definition PickNodeID (p : Placement) (order : list Node) : result SchedErr string :=
  match PickFor p order with
  | None => Err ResourceExhausted
  | Some n => Ok (nID n)
  end.

(** ** The steps of a Provision goroutine *)

Definition set_thread (tid : Z) (t : Thread) (s : Scheduler) : Scheduler :=
  s <| threads ::= <[tid := t]> |>.
Definition goto (tid : Z) (a : ProvisionArgs) (c : ProvisionPC) (s : Scheduler) : Scheduler :=
  set_thread tid (mkThread a c) s.

(** Entry: pick a node and register the start under [s.mu]; [p] is the fresh cell. *)
Definition provision_enter (tid p : Z) (a : ProvisionArgs) (order : list Node) (s : Scheduler)
    : Scheduler :=
  match PickFor (aPlacement a) order with
  | None => goto tid a (Returned (Err ResourceExhausted)) s
  | Some n =>
    goto tid a (Sending p n)
      (s <| cells ::= <[p := mkPendingStart None (aGen a) false]> |>
         <| sPending ::= <[aID a := p]> |>
         <| inflight ::= <[aID a := mkInFlight (nID n) (aGen a)]> |>)
  end.

(** The [StartSpawn] goes out, or the stream is broken. *)
Definition provision_send (tid p : Z) (n : Node) (a : ProvisionArgs) (ok : bool) (s : Scheduler)
    : Scheduler :=
  if ok
  then goto tid a (Waiting p n (clock s + stallWindow s) (clock s + backstop s))
         (s <| sent ::= fun l => l ++ [(Sender n, build_start a)] |>)
  else goto tid a (Returning p (Err Unavailable)) s.

Definition nack (dt : string) : string := if String.eqb dt "" then "spawn failed to start" else dt.

(** [case res := <-p.res] *)
Definition provision_result (tid p : Z) (n : Node) (a : ProvisionArgs) (r : spawnResult)
    (s : Scheduler) : Scheduler :=
  let s := s <| cells ::= alter (fun c => c <| res := None |>) p |> in
  if bool_decide (phase r = PHASE_ACTIVE)
  then goto tid a (Returning p (Ok (nID n))) (s <| rt ::= Bind (aID a) (nID n) (Sender n) |>)
  else goto tid a (Returning p (Err (FailedPrecondition (nack (detail r))))) s.

(** [case <-p.progress]: the stall timer starts again. *)
Definition provision_progress (tid p : Z) (n : Node) (a : ProvisionArgs) (bs : Z) (s : Scheduler)
    : Scheduler :=
  goto tid a (Waiting p n (clock s + stallWindow s) bs)
    (s <| cells ::= alter (fun c => c <| progress := false |>) p |>).

(** The deferred cleanup. *)
Definition provision_cleanup (tid : Z) (a : ProvisionArgs) (r : result SchedErr string)
    (s : Scheduler) : Scheduler :=
  goto tid a (Returned r) (s <| sPending ::= delete (aID a) |> <| inflight ::= delete (aID a) |>).

Inductive label :=
| LEnter (tid : Z) (a : ProvisionArgs) (picked : option string)
| LSend (tid : Z) (ok : bool)
| LResult (tid : Z) | LProgressed (tid : Z) | LStall (tid : Z) | LBackstop (tid : Z)
| LCancel (tid : Z) | LCleanup (tid : Z)
| LOnStatus (from spawnID : string) (ph : SpawnPhase) (dt : string)
| LProgress (spawnID : string) (g : Z)
| LTick (d : Z)
| LOther.

(** The goroutine has entered and not yet run its cleanup. *)
Definition cell_of (c : ProvisionPC) : option Z :=
  match c with Sending p _ | Waiting p _ _ _ | Returning p _ => Some p | Returned _ => None end.
Definition busy (s : Scheduler) (id : string) : Prop :=
  exists tid t, threads s !! tid = Some t /\ is_Some (cell_of (pc t)) /\ aID (args t) = id.

(** Any number of calls may be under way, for the same spawn too: resume and migrate hold only the
    claim in the database, so nothing keeps two calls apart.  [LEnter]: the call entered, and picked
    a node or found none.  [LOnStatus from]: node [from] sent the
    status; the receive loop (server.go) passes it on whichever node's it is.  [LOther]: the
    registry and the router change under their own locks. *)
Inductive step (s : Scheduler) : label -> Scheduler -> Prop :=
| step_enter tid p a order :
    threads s !! tid = None -> cells s !! p = None -> order ≡ₚ registered (reg s) ->
    step s (LEnter tid a (nID <$> PickFor (aPlacement a) order)) (provision_enter tid p a order s)
| step_send tid a p n ok :
    threads s !! tid = Some (mkThread a (Sending p n)) ->
    step s (LSend tid ok) (provision_send tid p n a ok s)
| step_result tid a p n st bs c r :
    threads s !! tid = Some (mkThread a (Waiting p n st bs)) -> cells s !! p = Some c ->
    res c = Some r -> step s (LResult tid) (provision_result tid p n a r s)
| step_progress tid a p n st bs c :
    threads s !! tid = Some (mkThread a (Waiting p n st bs)) -> cells s !! p = Some c ->
    progress c = true -> step s (LProgressed tid) (provision_progress tid p n a bs s)
| step_stall tid a p n st bs :
    threads s !! tid = Some (mkThread a (Waiting p n st bs)) -> st <= clock s ->
    step s (LStall tid) (goto tid a (Returning p (Err Stalled)) s)
| step_backstop tid a p n st bs :
    threads s !! tid = Some (mkThread a (Waiting p n st bs)) -> bs <= clock s ->
    step s (LBackstop tid) (goto tid a (Returning p (Err OverBudget)) s)
| step_cancel tid a p n st bs :
    threads s !! tid = Some (mkThread a (Waiting p n st bs)) ->
    step s (LCancel tid) (goto tid a (Returning p (Err Cancelled)) s)
| step_cleanup tid a p r :
    threads s !! tid = Some (mkThread a (Returning p r)) ->
    step s (LCleanup tid) (provision_cleanup tid a r s)
| step_onstatus from id ph dt : step s (LOnStatus from id ph dt) (OnStatus id ph dt s)
| step_progressed id g : step s (LProgress id g) (Progress id g s).2
| step_tick d : 0 < d -> step s (LTick d) (s <| clock ::= Z.add d |>)
| step_other g r : step s LOther (s <| reg := g |> <| rt := r |>).

Inductive steps (s : Scheduler) : list label -> Scheduler -> Prop :=
| steps_nil : steps s [] s
| steps_snoc ls s1 l s2 : steps s ls s1 -> step s1 l s2 -> steps s (ls ++ [l]) s2.

(** * The scheduler: invariant and theorems *)

(** ** The trace *)

(** A call that found a node becomes the spawn's registered start. *)
Definition registers (id : string) (l : label) : Prop :=
  match l with LEnter _ a (Some _) => aID a = id | _ => False end.

(** The call picked [nid], and no later call for the spawn has registered. *)
Definition latest (tid : Z) (a : ProvisionArgs) (nid : string) (ls : list label) : Prop :=
  exists pre mid, ls = pre ++ LEnter tid a (Some nid) :: mid /\ Forall (fun l => ~ registers (aID a) l) mid.

(** While it was, a node reported the spawn ACTIVE. *)
Definition reported (tid : Z) (a : ProvisionArgs) (nid : string) (ls : list label) : Prop :=
  exists pre post from dt,
    ls = pre ++ LOnStatus from (aID a) PHASE_ACTIVE dt :: post /\ latest tid a nid pre.

Lemma latest_now tid a nid ls : latest tid a nid (ls ++ [LEnter tid a (Some nid)]).
Proof. by exists ls, []. Qed.
Lemma latest_snoc tid a nid ls l :
  latest tid a nid ls -> ~ registers (aID a) l -> latest tid a nid (ls ++ [l]).
Proof.
  intros (pre & mid & -> & Hmid) Hl. exists pre, (mid ++ [l]). split; [by rewrite <- app_assoc|].
  apply Forall_app. split; [done|by constructor].
Qed.
Lemma reported_snoc tid a nid ls l : reported tid a nid ls -> reported tid a nid (ls ++ [l]).
Proof.
  intros (pre & post & from & dt & -> & Hl). exists pre, (post ++ [l]), from, dt.
  split; [by rewrite <- app_assoc|done].
Qed.
Lemma reported_now tid a nid ls from dt :
  latest tid a nid ls -> reported tid a nid (ls ++ [LOnStatus from (aID a) PHASE_ACTIVE dt]).
Proof. intros Hl. by exists ls, [], from, dt. Qed.

(** ** Invariant *)

(** The start was sent to a node that was acceptable when it was picked. *)
Definition placed (s : Scheduler) (a : ProvisionArgs) (n : Node) : Prop :=
  (Sender n, build_start a) ∈ sent s /\ acceptable (aPlacement a) n.

Definition owns (s : Scheduler) (a : ProvisionArgs) (p : Z) : Prop :=
  exists c, cells s !! p = Some c /\ gen c = aGen a.

(** An ACTIVE result in the thread's cell was reported for this very start. *)
Definition honest (ls : list label) (s : Scheduler) (tid : Z) (a : ProvisionArgs) (p : Z) (nid : string) : Prop :=
  forall c r, cells s !! p = Some c -> res c = Some r -> phase r = PHASE_ACTIVE -> reported tid a nid ls.

(** The node a call is starting on. *)
Definition node_of (c : ProvisionPC) : option (Z * Node) :=
  match c with Sending p n | Waiting p n _ _ => Some (p, n) | _ => None end.

Definition outcome_ok (ls : list label) (s : Scheduler) (tid : Z) (a : ProvisionArgs)
    (r : result SchedErr string) : Prop :=
  match r with
  | Ok nid => reported tid a nid ls /\ exists n, nID n = nid /\ placed s a n
  | Err _ => True
  end.

Definition thread_ok (ls : list label) (s : Scheduler) (tid : Z) (t : Thread) : Prop :=
  let a := args t in
  match pc t with
  | Sending p n => owns s a p /\ honest ls s tid a p (nID n) /\ acceptable (aPlacement a) n
  | Waiting p n st bs => owns s a p /\ honest ls s tid a p (nID n) /\ placed s a n /\
      st <= clock s + stallWindow s /\ bs <= clock s + backstop s
  | Returning p r => owns s a p /\ outcome_ok ls s tid a r
  | Returned r => outcome_ok ls s tid a r
  end.

Record sched_inv (ls : list label) (s : Scheduler) : Prop := {
  inv_threads : forall tid t, threads s !! tid = Some t -> thread_ok ls s tid t;
  inv_pending : forall id p, sPending s !! id = Some p ->
    exists tid t, threads s !! tid = Some t /\ cell_of (pc t) = Some p /\ aID (args t) = id;
  inv_inflight : forall id f, inflight s !! id = Some f -> is_Some (sPending s !! id);
  inv_node : forall id p tid t n, sPending s !! id = Some p -> threads s !! tid = Some t ->
    node_of (pc t) = Some (p, n) ->
    inflight s !! id = Some (mkInFlight (nID n) (aGen (args t))) /\ latest tid (args t) (nID n) ls;
  inv_cells : forall tid tid' t t' p, threads s !! tid = Some t -> threads s !! tid' = Some t' ->
    cell_of (pc t) = Some p -> cell_of (pc t') = Some p -> tid = tid'
}.

Lemma New_inv g r w now : sched_inv [] (New g r w now).
Proof. split; simpl; intros *; rewrite lookup_empty; done. Qed.

(** A thread that owns a cell owns the pending entry of its spawn. *)
Lemma thread_owns ls s tid t p :
  sched_inv ls s -> threads s !! tid = Some t -> cell_of (pc t) = Some p -> owns s (args t) p.
Proof.
  intros Hinv Ht Hp. pose proof (inv_threads _ _ Hinv _ _ Ht) as H. unfold thread_ok in H.
  destruct (pc t); simpl in *; simplify_eq; tauto.
Qed.

(** ** Frame: what one step may change under the other threads *)

Record quiet (ls : list label) (l : label) (s s' : Scheduler) (mine : option Z) : Prop := {
  q_cells : forall p c, cells s !! p = Some c -> mine <> Some p ->
    exists c', cells s' !! p = Some c' /\ gen c' = gen c /\
      forall r, res c' = Some r -> res c = Some r \/
        exists from id dt, l = LOnStatus from id (phase r) dt /\ sPending s !! id = Some p;
  q_sent : forall x, x ∈ sent s -> x ∈ sent s';
  q_clock : clock s <= clock s';
  q_window : stallWindow s' = stallWindow s /\ backstop s' = backstop s
}.

Lemma outcome_ok_mono ls l s s' tid a r :
  (forall x, x ∈ sent s -> x ∈ sent s') ->
  outcome_ok ls s tid a r -> outcome_ok (ls ++ [l]) s' tid a r.
Proof.
  intros Hs. destruct r as [e|nid]; [done|]. intros [Hr (n & Hn & Hsent & Hacc)].
  split; [by apply reported_snoc|]. exists n. split; [done|]. split; auto.
Qed.

(** The pending entry of a cell names the spawn of the thread that owns it. *)
Lemma pending_owner ls s tid t p id :
  sched_inv ls s -> threads s !! tid = Some t -> cell_of (pc t) = Some p ->
  sPending s !! id = Some p -> id = aID (args t).
Proof.
  intros Hinv Ht Hp Hid. destruct (inv_pending _ _ Hinv _ _ Hid) as (tid' & t' & Ht' & Hp' & <-).
  assert (tid' = tid) as -> by (by eapply (inv_cells _ _ Hinv)). by simplify_eq.
Qed.

Lemma thread_quiet ls l s s' mine tid t :
  sched_inv ls s -> threads s !! tid = Some t ->
  quiet ls l s s' mine -> (forall p, cell_of (pc t) = Some p -> mine <> Some p) ->
  thread_ok (ls ++ [l]) s' tid t.
Proof.
  intros Hinv Ht [Hc Hs Hcl [Hw Hb]] Hne.
  pose proof (inv_threads _ _ Hinv _ _ Ht) as H. unfold thread_ok in H |- *.
  assert (Hown : forall p, cell_of (pc t) = Some p -> owns s (args t) p -> owns s' (args t) p).
  { intros p Hcp (c & Hcc & Hg). destruct (Hc _ _ Hcc (Hne _ Hcp)) as (c' & Hc' & Hg' & _).
    exists c'. by rewrite Hg'. }
  assert (Hhon : forall p n, cell_of (pc t) = Some p -> node_of (pc t) = Some (p, n) -> owns s (args t) p ->
            honest ls s tid (args t) p (nID n) -> honest (ls ++ [l]) s' tid (args t) p (nID n)).
  { intros p n Hcp Hn (c & Hcc & Hg) Hh c' r Hc' Hr Hph.
    destruct (Hc _ _ Hcc (Hne _ Hcp)) as (c'' & Hc'' & _ & Hres). rewrite Hc' in Hc''. injection Hc'' as <-.
    destruct (Hres _ Hr) as [Hr0|(from & id & dt & -> & Hid)].
    - apply reported_snoc. by eapply Hh.
    - destruct (inv_node _ _ Hinv _ _ _ _ _ Hid Ht Hn) as [_ Hl].
      rewrite (pending_owner _ _ _ _ _ _ Hinv Ht Hcp Hid), Hph. by apply reported_now. }
  assert (Hpl : forall n, placed s (args t) n -> placed s' (args t) n)
    by (intros n [? ?]; split; auto).
  destruct (pc t) as [p n|p n st bs|p r|r]; cbn [cell_of node_of] in *.
  - destruct H as (Ho & Hh & Ha). split_and!; eauto.
  - destruct H as (Ho & Hh & Ha & ? & ?). split_and!; eauto; lia.
  - destruct H as (Ho & Hr). split; [auto|by eapply outcome_ok_mono].
  - by eapply outcome_ok_mono.
Qed.

(** A step of one thread: the others see a quiet change. *)
Lemma inv_goto ls l s s' tid t t' :
  sched_inv ls s -> threads s !! tid = Some t -> (forall id, ~ registers id l) ->
  quiet ls l s s' (cell_of (pc t)) -> threads s' = <[tid := t']> (threads s) ->
  args t' = args t -> (is_Some (cell_of (pc t')) -> cell_of (pc t') = cell_of (pc t)) ->
  (forall pn, node_of (pc t') = Some pn -> node_of (pc t) = Some pn) ->
  thread_ok (ls ++ [l]) s' tid t' ->
  (forall id p, sPending s' !! id = Some p -> sPending s !! id = Some p /\ inflight s' !! id = inflight s !! id /\
     (cell_of (pc t) = Some p -> cell_of (pc t') = Some p)) ->
  (forall id f, inflight s' !! id = Some f -> is_Some (sPending s' !! id)) ->
  sched_inv (ls ++ [l]) s'.
Proof.
  intros Hinv Ht Hl Hq Hth Hid Hcell Hnode Hok Hpend Hinf.
  assert (Hsub : forall p, cell_of (pc t') = Some p -> cell_of (pc t) = Some p).
  { intros p Hp. rewrite <- Hcell; eauto. }
  split.
  - intros tid1 t1. rewrite Hth. intros [[<- <-]|[Hne Ht1]]%lookup_insert_Some; [done|].
    eapply thread_quiet; [done..|]. intros p Hp Hp'. apply Hne. by eapply (inv_cells _ _ Hinv).
  - intros id p (Hp & _ & Hkeep)%Hpend. destruct (inv_pending _ _ Hinv _ _ Hp) as (tid1 & t1 & Ht1 & Hp1 & Hid1).
    rewrite Hth. destruct (decide (tid1 = tid)) as [->|Hne].
    + exists tid, t'. rewrite lookup_insert_eq. simplify_eq. split_and!; [done|auto|congruence].
    + exists tid1, t1. by rewrite lookup_insert_ne.
  - done.
  - intros id p tid1 t1 n (Hp & -> & _)%Hpend. rewrite Hth.
    intros [[<- <-]|[Hne Ht1]]%lookup_insert_Some Hn; [rewrite Hid; apply Hnode in Hn|];
      (edestruct (inv_node _ _ Hinv) as [? ?]; [done..|]); (split; [done|]); by apply latest_snoc.
  - intros tid1 tid2 t1 t2 p. rewrite Hth.
    intros [[<- <-]|[Hne1 Ht1]]%lookup_insert_Some [[<- <-]|[Hne2 Ht2]]%lookup_insert_Some Hp1 Hp2;
      [done|..]; eapply (inv_cells _ _ Hinv); eauto.
Qed.

(** A step of no thread. *)
Lemma inv_quiet ls l s s' :
  sched_inv ls s -> quiet ls l s s' None -> threads s' = threads s -> sPending s' = sPending s ->
  inflight s' = inflight s -> (forall id, ~ registers id l) -> sched_inv (ls ++ [l]) s'.
Proof.
  intros Hinv Hq Hth Hp Hi Hl. split; rewrite ?Hth, ?Hp, ?Hi; try apply Hinv.
  - intros tid t Ht. by eapply thread_quiet.
  - intros id p tid t n Hid Ht Hn. destruct (inv_node _ _ Hinv _ _ _ _ _ Hid Ht Hn).
    split; [done|]. by apply latest_snoc.
Qed.

Lemma quiet_refl ls l s mine : quiet ls l s s mine.
Proof. split; auto; [|lia]. intros p c Hc _. exists c. split_and!; [done..|]. auto. Qed.

Lemma quiet_goto ls l s mine tid a c : quiet ls l s (goto tid a c s) mine.
Proof. split; simpl; auto; [|lia]. intros p d Hd _. exists d. split_and!; [done..|]. auto. Qed.

(** Writing the thread's own cell, or appending to the sent messages, is quiet too. *)
Lemma quiet_own_cell ls l s p f tid a c g :
  quiet ls l s (goto tid a c (s <| cells ::= alter f p |> <| rt ::= g |>)) (Some p).
Proof.
  split; simpl; auto; [|lia]. intros q d Hd Hne. exists d. rewrite lookup_alter_ne by congruence.
  split_and!; [done..|]. auto.
Qed.

Lemma inflight_kept ls s s' :
  sched_inv ls s -> sPending s' = sPending s -> inflight s' = inflight s ->
  forall id f, inflight s' !! id = Some f -> is_Some (sPending s' !! id).
Proof. intros Hinv -> ->. apply (inv_inflight _ _ Hinv). Qed.

Lemma thread_returning_ok ls l s s' tid a p r :
  owns s a p ->
  (forall c, cells s !! p = Some c -> exists c', cells s' !! p = Some c' /\ gen c' = gen c) ->
  outcome_ok (ls ++ [l]) s' tid a r ->
  thread_ok (ls ++ [l]) s' tid (mkThread a (Returning p r)).
Proof.
  intros (c & Hc & Hg) Hcell Hr. unfold thread_ok. simpl. split; [|done]. destruct (Hcell _ Hc) as (c' & Hc' & Hg').
  exists c'. by rewrite Hg'.
Qed.

Lemma inv_return ls l s tid a p n st bs e :
  sched_inv ls s -> (forall id, ~ registers id l) -> threads s !! tid = Some (mkThread a (Waiting p n st bs)) ->
  sched_inv (ls ++ [l]) (goto tid a (Returning p (Err e)) s).
Proof.
  intros Hinv Hl Ht. destruct (inv_threads _ _ Hinv _ _ Ht) as (Ho & _).
  eapply (inv_goto _ _ _ _ tid _ _ Hinv Ht); [done|apply quiet_goto|done|done|done|done| |auto|].
  - apply (thread_returning_ok ls l s); [done| |done]. intros c Hc. by exists c.
  - by eapply inflight_kept.
Qed.

Lemma inv_enter ls s tid p a order :
  sched_inv ls s -> threads s !! tid = None -> cells s !! p = None ->
  order ≡ₚ registered (reg s) ->
  sched_inv (ls ++ [LEnter tid a (nID <$> PickFor (aPlacement a) order)]) (provision_enter tid p a order s).
Proof.
  intros Hinv Htid Hp Hord. unfold provision_enter.
  pose proof (PickFor_best (aPlacement a) order) as Hbest. unfold best_of in Hbest.
  destruct (PickFor (aPlacement a) order) as [n|].
  - set (s' := goto _ _ _ _).
    assert (Hnew : forall tid' t', threads s !! tid' = Some t' -> cell_of (pc t') <> Some p).
    { intros tid' t' Ht' Hc'. destruct (thread_owns _ _ _ _ _ Hinv Ht' Hc') as (c & Hc & _).
      congruence. }
    assert (Hq : quiet ls (LEnter tid a (nID <$> Some n)) s s' (Some p)).
    { split; simpl; auto; [|lia]. intros p' c Hc Hne. exists c. rewrite lookup_insert_ne by congruence.
      split_and!; [done..|]. auto. }
    split.
    + intros tid1 t1. simpl. intros [[<- <-]|[Hne Ht1]]%lookup_insert_Some.
      * unfold thread_ok. simpl. unfold owns, honest. simpl. rewrite !lookup_insert_eq.
        split_and!; [by eexists| |by apply fits_acceptable, Hbest].
        intros c r [= <-]. done.
      * eapply thread_quiet; [done..|]. intros q Hc1 [= ->]. by eapply Hnew.
    + simpl. intros id q [[<- <-]|[Hne Hq']]%lookup_insert_Some.
      * exists tid, (mkThread a (Sending p n)). by rewrite lookup_insert_eq.
      * destruct (inv_pending _ _ Hinv _ _ Hq') as (tid1 & t1 & Ht1 & Hc1 & Hid1).
        exists tid1, t1. rewrite lookup_insert_ne; [done|]. congruence.
    + simpl. intros id f [[<- <-]|[Hne Hf]]%lookup_insert_Some.
      * by rewrite lookup_insert_eq.
      * rewrite lookup_insert_ne by done. by eapply inv_inflight.
    + simpl. intros id q tid1 t1 n1 [[<- <-]|[Hid Hq']]%lookup_insert_Some
        [[<- <-]|[Hne Ht1]]%lookup_insert_Some Hn1.
      * injection Hn1 as <-. rewrite lookup_insert_eq. split; [done|]. apply latest_now.
      * exfalso. apply (Hnew _ _ Ht1). destruct (pc t1); simpl in *; congruence.
      * exfalso. destruct (inv_pending _ _ Hinv _ _ Hq') as (tid1 & t1 & Ht1 & Hc1 & _).
        apply (Hnew _ _ Ht1). injection Hn1 as <- _. done.
      * rewrite lookup_insert_ne by done. edestruct (inv_node _ _ Hinv) as [? ?]; [done..|].
        split; [done|]. apply latest_snoc; [done|]. simpl. intros He. apply Hid. rewrite He.
        destruct (inv_pending _ _ Hinv _ _ Hq') as (tid2 & t2 & Ht2 & Hc2 & <-).
        assert (cell_of (pc t1) = Some q) as Hc1 by (destruct (pc t1); simpl in *; congruence).
        assert (tid1 = tid2) as -> by (by eapply (inv_cells _ _ Hinv)). congruence.
    + simpl. intros tid1 tid2 t1 t2 q.
      intros [[<- <-]|[Hne1 Ht1]]%lookup_insert_Some [[<- <-]|[Hne2 Ht2]]%lookup_insert_Some Hp1 Hp2;
        simpl in *; simplify_eq; [done| | |by eapply (inv_cells _ _ Hinv)]; exfalso; by eapply Hnew.
  - split; simpl.
    + intros tid1 t1 [[<- <-]|[Hne Ht1]]%lookup_insert_Some; [by split|].
      apply (thread_quiet ls _ s _ None); [done..|apply quiet_goto|done].
    + intros id q Hq. destruct (inv_pending _ _ Hinv _ _ Hq) as (tid1 & t1 & Ht1 & Hc1 & Hid1).
      exists tid1, t1. rewrite lookup_insert_ne; [done|]. congruence.
    + apply Hinv.
    + intros id q tid1 t1 n1 Hq [[<- <-]|[Hne Ht1]]%lookup_insert_Some Hn1; [done|].
      edestruct (inv_node _ _ Hinv) as [? ?]; [done..|]. split; [done|]. apply latest_snoc; [done|by intros []].
    + intros tid1 tid2 t1 t2 q.
      intros [[<- <-]|[Hne1 Ht1]]%lookup_insert_Some [[<- <-]|[Hne2 Ht2]]%lookup_insert_Some Hp1 Hp2;
        simpl in *; simplify_eq; by eapply (inv_cells _ _ Hinv).
Qed.

Lemma inv_send ls s tid p n a ok :
  sched_inv ls s -> threads s !! tid = Some (mkThread a (Sending p n)) ->
  sched_inv (ls ++ [LSend tid ok]) (provision_send tid p n a ok s).
Proof.
  intros Hinv Ht. destruct (inv_threads _ _ Hinv _ _ Ht) as (Ho & Hh & Ha).
  unfold provision_send. destruct ok.
  - eapply (inv_goto _ _ _ _ tid _ _ Hinv Ht); [by intros ? []| |done|done|done|done| |auto|by eapply inflight_kept].
    + split; simpl; auto; [|set_solver|lia]. intros q d Hd _. exists d. split_and!; [done..|]. auto.
    + unfold thread_ok. simpl. split_and!; [done| | |lia|lia].
      * intros c r Hc Hr Hph. apply reported_snoc. by eapply Hh.
      * split; [simpl; set_solver|done].
  - eapply (inv_goto _ _ _ _ tid _ _ Hinv Ht); [by intros ? []|apply quiet_goto|done|done|done|done| |auto|by eapply inflight_kept].
    apply (thread_returning_ok ls _ s); [done| |done]. intros c Hc. by exists c.
Qed.

Lemma inv_result ls s tid p n st bs a c r :
  sched_inv ls s -> threads s !! tid = Some (mkThread a (Waiting p n st bs)) ->
  cells s !! p = Some c -> res c = Some r ->
  sched_inv (ls ++ [LResult tid]) (provision_result tid p n a r s).
Proof.
  intros Hinv Ht Hc Hr. destruct (inv_threads _ _ Hinv _ _ Ht) as (Ho & Hh & Hpl & _).
  unfold provision_result. destruct (bool_decide (phase r = PHASE_ACTIVE)) eqn:Hph; brefl.
  - eapply (inv_goto _ _ _ _ tid _ _ Hinv Ht);
      [by intros ? []|apply quiet_own_cell|done|done|done|done| |auto|by eapply inflight_kept].
    apply (thread_returning_ok ls _ s); [done| |].
    + simpl. intros d Hd. rewrite lookup_alter_eq, Hd. simpl. by eexists.
    + split; [apply reported_snoc; by eapply Hh|]. exists n. split; [done|]. exact Hpl.
  - eapply (inv_goto _ _ _ _ tid _ _ Hinv Ht);
      [by intros ? []|apply (quiet_own_cell _ _ _ _ _ _ _ _ (fun x => x))|done|done|done|done| |auto|by eapply inflight_kept].
    apply (thread_returning_ok ls _ s); [done| |done].
    simpl. intros d Hd. rewrite lookup_alter_eq, Hd. simpl. by eexists.
Qed.

Lemma inv_progress ls s tid p n st bs a :
  sched_inv ls s -> threads s !! tid = Some (mkThread a (Waiting p n st bs)) ->
  sched_inv (ls ++ [LProgressed tid]) (provision_progress tid p n a bs s).
Proof.
  intros Hinv Ht. destruct (inv_threads _ _ Hinv _ _ Ht) as (Ho & Hh & Hpl & Hst & Hbs).
  unfold provision_progress.
  eapply (inv_goto _ _ _ _ tid _ _ Hinv Ht);
    [by intros ? []|apply (quiet_own_cell _ _ _ _ _ _ _ _ (fun x => x))|done|done|done|done| |auto|by eapply inflight_kept].
  unfold thread_ok. simpl. split_and!; [| |exact Hpl|lia|done].
  - destruct Ho as (c & Hc & Hg). unfold owns. simpl. rewrite lookup_alter_eq, Hc. by eexists.
  - intros c' r. simpl. rewrite lookup_alter_Some. intros [(_ & c & Hc & ->)|[? _]]; [|done].
    simpl. intros Hr Hph. apply reported_snoc. by eapply Hh.
Qed.

Lemma inv_cleanup ls s tid p a r :
  sched_inv ls s -> threads s !! tid = Some (mkThread a (Returning p r)) ->
  sched_inv (ls ++ [LCleanup tid]) (provision_cleanup tid a r s).
Proof.
  intros Hinv Ht. destruct (inv_threads _ _ Hinv _ _ Ht) as [Ho Hr].
  unfold provision_cleanup.
  eapply (inv_goto _ _ _ _ tid _ _ Hinv Ht); [by intros ? []| |done|done|by intros [? [=]]|done| | |].
  - split; simpl; auto; [|lia]. intros q d Hd _. exists d. split_and!; [done..|]. auto.
  - unfold thread_ok. simpl. by eapply outcome_ok_mono.
  - simpl. intros id q [Hne Hq]%lookup_delete_Some. rewrite lookup_delete_ne by done.
    split_and!; [done..|]. intros [= ->]. destruct Hne. symmetry.
    exact (pending_owner _ _ _ _ _ _ Hinv Ht eq_refl Hq).
  - simpl. intros id f [Hne Hf]%lookup_delete_Some. rewrite lookup_delete_ne by done.
    by eapply inv_inflight.
Qed.

Lemma inv_OnStatus ls s from id ph dt :
  sched_inv ls s -> sched_inv (ls ++ [LOnStatus from id ph dt]) (OnStatus id ph dt s).
Proof.
  intros Hinv. unfold OnStatus. destruct (sPending s !! id) as [p|] eqn:Hp.
  2: { apply (inv_quiet _ _ s); [done|apply quiet_refl|done..|by intros ? []]. }
  destruct (_ || _); [|apply (inv_quiet _ _ s); [done|apply quiet_refl|done..|by intros ? []]].
  apply (inv_quiet _ _ s); [done| |done..|by intros ? []]. split; simpl; auto; [|lia].
  intros q c Hc _. destruct (decide (q = p)) as [->|Hne].
  - rewrite lookup_alter_eq, Hc. simpl. destruct (res c) as [r0|] eqn:Hr0.
    + exists c. rewrite Hr0. auto.
    + eexists. split; [done|]. split; [done|]. simpl. intros r [= <-]. right. simpl. eauto.
  - rewrite lookup_alter_ne by done. exists c. auto.
Qed.

Lemma inv_Progress ls s id g :
  sched_inv ls s -> sched_inv (ls ++ [LProgress id g]) (Progress id g s).2.
Proof.
  intros Hinv. unfold Progress.
  assert (Hsame : sched_inv (ls ++ [LProgress id g]) s)
    by (apply (inv_quiet _ _ s); [done|apply quiet_refl|done..|by intros ? []]).
  destruct (sPending s !! id) as [p|]; [|done]. destruct (cells s !! p) as [c|] eqn:Hc; [|done].
  destruct (gen c =? g); [|done]. apply (inv_quiet _ _ s); [done| |done..|by intros ? []]. split; simpl; auto; [|lia].
  intros q d Hd _. destruct (decide (q = p)) as [->|Hne].
  - rewrite lookup_insert_eq. eexists. split; [done|]. simplify_eq. split; [done|]. auto.
  - rewrite lookup_insert_ne by done. exists d. auto.
Qed.

Lemma inv_step ls s l s' : sched_inv ls s -> step s l s' -> sched_inv (ls ++ [l]) s'.
Proof.
  intros Hinv Hst. destruct Hst; eauto using inv_enter, inv_send, inv_result, inv_progress,
    inv_cleanup, inv_OnStatus, inv_Progress.
  1-3: eapply inv_return; [done|by intros ? []|done].
  - apply (inv_quiet _ _ s); [done| |done..|by intros ? []]. split; simpl; auto; [|lia].
    intros q c0 Hd _. exists c0. auto.
  - apply (inv_quiet _ _ s); [done| |done..|by intros ? []]. split; simpl; auto; [|lia].
    intros q c0 Hd _. exists c0. auto.
Qed.

Lemma steps_inv s0 ls s : sched_inv [] s0 -> steps s0 ls s -> sched_inv ls s.
Proof. intros H0. induction 1; [done|]. by eapply inv_step. Qed.

(** ** The theorems *)

Section Runs.
Context (g : Registry) (r0 : Router.Router) (window now : Z) (ls : list label) (s : Scheduler).
Hypothesis Hrun : steps (New g r0 window now) ls s.
Let Hinv : sched_inv ls s := steps_inv _ _ _ (New_inv _ _ _ _) Hrun.

(** C8: a start succeeds only when it should.  If [Provision] answers with node [nid], it had
    picked [nid], acceptable for the placement at that moment, and sent it this very start; and a
    node reported the spawn ACTIVE after the call had registered and before any later call for the
    same spawn did.  Calls overlap freely, for the same spawn too, and other starts, reports, timers
    and changes of the registry are interleaved at will.  Which node reported is not part of the
    claim: the receive loop hands every node's report to the scheduler. *)
Theorem provision_succeeds_only_when_active tid a nid :
  (exists p, threads s !! tid = Some (mkThread a (Returning p (Ok nid)))) \/
  threads s !! tid = Some (mkThread a (Returned (Ok nid))) ->
  (exists n, nID n = nid /\ acceptable (aPlacement a) n /\ (Sender n, build_start a) ∈ sent s) /\
  reported tid a nid ls.
Proof.
  intros [[p Ht]|Ht]; pose proof (inv_threads _ _ Hinv _ _ Ht) as H; unfold thread_ok in H; simpl in H;
    [destruct H as [_ H]|]; destruct H as [Hr (n & Hn & Hs & Ha)]; eauto.
Qed.

(** A node's answer is never lost.  While [Provision] waits and is the spawn's registered call, an ACTIVE or ERROR report for the
    spawn leaves a result the call can take at once (the first of several), and a progress event
    of the start's own generation re-arms its stall timer while one of another generation does
    nothing. *)
Theorem report_reaches_waiter tid a p n st bs ph dt gn :
  threads s !! tid = Some (mkThread a (Waiting p n st bs)) -> sPending s !! aID a = Some p ->
  ((ph = PHASE_ACTIVE \/ ph = PHASE_ERROR) ->
     exists s', step (OnStatus (aID a) ph dt s) (LResult tid) s' /\
       ((forall c, cells s !! p = Some c -> res c = None) ->
        threads s' !! tid = Some (mkThread a (Returning p
          (if bool_decide (ph = PHASE_ACTIVE) then Ok (nID n) else Err (FailedPrecondition (nack dt))))))) /\
  (gn = aGen a -> exists s', step (Progress (aID a) gn s).2 (LProgressed tid) s' /\
     threads s' !! tid = Some (mkThread a (Waiting p n (clock s + stallWindow s) bs))) /\
  (gn <> aGen a -> Progress (aID a) gn s = (false, s)).
Proof.
  intros Ht Hp. destruct (inv_threads _ _ Hinv _ _ Ht) as (Ho & _).
  destruct Ho as (c & Hc & Hg). simpl in *. split_and!.
  - intros Hph. unfold OnStatus. rewrite Hp.
    assert (bool_decide (ph = PHASE_ACTIVE) || bool_decide (ph = PHASE_ERROR) = true) as ->
      by (brefl; tauto).
    destruct (res c) as [r|] eqn:Hr.
    + eexists. split; [eapply (step_result _ tid a p n st bs c r); [done| |done]|].
      * simpl. by rewrite lookup_alter_eq, Hc; simpl; rewrite Hr.
      * intros Hn. by rewrite (Hn _ Hc) in Hr.
    + eexists. split; [eapply (step_result _ tid a p n st bs (c <| res := Some (mkResult ph dt) |>));
                       [done| |done]|].
      * simpl. by rewrite lookup_alter_eq, Hc; simpl; rewrite Hr.
      * intros _. unfold provision_result. simpl.
        destruct (bool_decide (ph = PHASE_ACTIVE)); simpl; by rewrite lookup_insert_eq.
  - intros ->. unfold Progress. rewrite Hp, Hc, Hg, Z.eqb_refl. simpl.
    eexists. split; [eapply (step_progress _ tid a p n st bs (c <| progress := true |>)); [done| |done]|].
    + simpl. by rewrite lookup_insert_eq.
    + simpl. by rewrite lookup_insert_eq.
  - intros Hne. unfold Progress. rewrite Hp, Hc, Hg. destruct (Z.eqb_spec (aGen a) gn); [congruence|done].
Qed.

(** Nothing is left behind: when no start is under way for a spawn, it has no pending entry
    and no in-flight placement; while one is registered, the in-flight placement names its node and
    generation. *)
Theorem provision_leaves_nothing id :
  (~ busy s id -> sPending s !! id = None /\ InFlight id s = None) /\
  (forall tid a p n st bs, threads s !! tid = Some (mkThread a (Waiting p n st bs)) -> sPending s !! id = Some p ->
     InFlight id s = Some (mkInFlight (nID n) (aGen a))).
Proof.
  split.
  - intros Hb. assert (Hp : sPending s !! id = None).
    { destruct (sPending s !! id) as [p|] eqn:Hp; [|done]. destruct Hb.
      destruct (inv_pending _ _ Hinv _ _ Hp) as (tid & t & Ht & Hc & Hid). exists tid, t.
      by rewrite Hc. }
    split; [done|]. unfold InFlight. destruct (inflight s !! id) as [f|] eqn:Hf; [|done].
    apply (inv_inflight _ _ Hinv) in Hf as [p Hp']. congruence.
  - intros tid a p n st bs Ht Hp. by destruct (inv_node _ _ Hinv _ _ _ _ n Hp Ht eq_refl).
Qed.

(** [Provision] always comes back.  A waiting start has an absolute deadline at most the
    backstop away, and once the clock has passed it the call can return on its own, whatever the
    node does. *)
Theorem provision_terminates tid a p n st bs d :
  threads s !! tid = Some (mkThread a (Waiting p n st bs)) ->
  bs <= clock s + backstop s /\ st <= clock s + stallWindow s /\
  (0 < d -> backstop s <= d -> exists s1 s2, step s (LTick d) s1 /\ step s1 (LBackstop tid) s2 /\
     threads s2 !! tid = Some (mkThread a (Returning p (Err OverBudget)))).
Proof.
  intros Ht. destruct (inv_threads _ _ Hinv _ _ Ht) as (_ & _ & _ & Hst & Hbs).
  split_and!; [done..|]. intros Hd Hle. eexists _, _. split; [by apply step_tick|].
  split; [apply (step_backstop _ tid a p n st bs); [done|simpl; lia]|].
  simpl. by rewrite lookup_insert_eq.
Qed.
End Runs.

(** ** A concrete start *)

Definition demo_args : ProvisionArgs :=
  mkArgs "sp" "ref" "model" "name" "app" "claude" "acp" 1 (mkPlacement "alice" "img" "" "" 0) None
    [] "" None [] [] ["create"].
Definition demo_node : Node := mkNode "n1" 7 4 4 ["img"] "cloud" "" 0 0 1 0.
Definition demo_new : Scheduler :=
  New (Add 0 demo_node NewWithClock) Router.New DefaultStartStallWindow 0.
Definition demo_waiting : Scheduler :=
  provision_send 1 1 (demo_node <| token := 1 |>) demo_args true
    (provision_enter 1 1 demo_args (registered (reg demo_new)) demo_new).
Definition demo_active : Scheduler := OnStatus "sp" PHASE_ACTIVE "" demo_waiting.
Definition demo_done : Scheduler :=
  provision_result 1 1 (demo_node <| token := 1 |>) demo_args (mkResult PHASE_ACTIVE "") demo_active.

Lemma demo_waiting_run : steps demo_new [LEnter 1 demo_args (Some "n1"); LSend 1 true] demo_waiting.
Proof.
  apply (steps_snoc _ [LEnter 1 demo_args (Some "n1")] (provision_enter 1 1 demo_args (registered (reg demo_new)) demo_new)).
  - apply (steps_snoc _ [] demo_new); [constructor|].
    apply (step_enter _ 1 1 demo_args (registered (reg demo_new))); reflexivity.
  - apply step_send. vm_compute. reflexivity.
Qed.

(** Whichever node reports, "n1" it started on or another. *)
Lemma demo_done_run from :
  steps demo_new [LEnter 1 demo_args (Some "n1"); LSend 1 true; LOnStatus from "sp" PHASE_ACTIVE ""; LResult 1] demo_done.
Proof.
  apply (steps_snoc _ [LEnter 1 demo_args (Some "n1"); LSend 1 true; LOnStatus from "sp" PHASE_ACTIVE ""] demo_active).
  - apply (steps_snoc _ [LEnter 1 demo_args (Some "n1"); LSend 1 true] demo_waiting); [apply demo_waiting_run|].
    constructor.
  - eapply step_result; vm_compute; reflexivity.
Qed.

Definition demo_wait_pc : ProvisionPC :=
  Waiting 1 (demo_node <| token := 1 |>) DefaultStartStallWindow defaultStartBackstop.
Lemma demo_waiting_thread : threads demo_waiting !! 1 = Some (mkThread demo_args demo_wait_pc).
Proof. vm_compute. reflexivity. Qed.

Lemma provision_succeeds_only_when_active_witness :
  reported 1 demo_args "n1"
    [LEnter 1 demo_args (Some "n1"); LSend 1 true; LOnStatus "n1" "sp" PHASE_ACTIVE ""; LResult 1].
Proof.
  refine (proj2 (provision_succeeds_only_when_active _ _ _ _ _ _ (demo_done_run "n1") 1 demo_args "n1" _)).
  left. exists 1. vm_compute. reflexivity.
Defined.

Lemma report_reaches_waiter_witness :
  Progress "sp" 2 demo_waiting = (false, demo_waiting).
Proof.
  apply (proj2 (proj2 (report_reaches_waiter _ _ _ _ _ _ demo_waiting_run 1 demo_args 1 _ _ _
           PHASE_ACTIVE "" 2 demo_waiting_thread eq_refl))). discriminate.
Defined.

Lemma provision_leaves_nothing_witness :
  InFlight "sp" demo_waiting = Some (mkInFlight "n1" 1).
Proof.
  exact (proj2 (provision_leaves_nothing _ _ _ _ _ _ demo_waiting_run "sp") 1 demo_args 1 _ _ _
           demo_waiting_thread eq_refl).
Defined.

Lemma provision_terminates_witness :
  exists s1 s2, step demo_waiting (LTick defaultStartBackstop) s1 /\ step s1 (LBackstop 1) s2.
Proof.
  destruct (provision_terminates _ _ _ _ _ _ demo_waiting_run 1 demo_args 1 _ _ _ defaultStartBackstop
              demo_waiting_thread) as (_ & _ & H).
  destruct H as (s1 & s2 & H1 & H2 & _); [reflexivity|vm_compute; discriminate|].
  exists s1, s2. split; [exact H1|exact H2].
Defined.
