(* ===== verification/Pump.v ===== *)
(** * Conversation frames: src/internal/node/frame.go

    The structs of the pump<->client wire.  Raw JSON payloads and the floating-point cost are kept
    as the text they were read from; the JSON encoding of a frame itself is not modelled. *)

From S2P Require Import Prelude GoLib.
Record ContentBlock := mkContentBlock { cbType : string; cbText : string }.
Record Diff := mkDiff { Path : string; OldText : string; NewText : string }.
Record ToolPayload := mkToolPayload {
  Content : list ContentBlock; tpDiff : option Diff; RawInput : string; RawOutput : string }.
Record PlanEntry := mkPlanEntry { peContent : string; Priority : string; peStatus : string }.
Record Usage := mkUsage {
  Input : Z; Output : Z; Cached : Z; Thought : Z; Total : Z; Cost : option string }.
Record ErrorInfo := mkErrorInfo { Code : Z; Message : string }.
Record Command := mkCommand { cmdName : string; cmdDescription : string; InputHint : string }.
Record PermOption := mkPermOption { OptionID : string; poName : string; poKind : string }.
Record Mode := mkMode { modeID : string; modeName : string }.
Record ModePayload := mkModePayload { Current : string; Available : list Mode }.

Record Frame := mkFrame {
  Seq : Z;
  Kind : string;
  Text : string;
  ToolID : string;
  Title : string;
  fStatus : string;
  State : string;
  Queued : Z;
  ReqID : string;
  FromSeq : Z;
  Tool : option ToolPayload;
  Plan : list PlanEntry;
  fUsage : option Usage;
  Reason : string;
  fError : option ErrorInfo;
  Cmds : list Command;
  fMode : option ModePayload;
  Options : list PermOption;
  fOptionID : string;
  ModeID : string
}.
#[export] Instance eta_Frame : Eta Frame := fun r =>
  mkFrame (Seq r) (Kind r) (Text r) (ToolID r) (Title r) (fStatus r) (State r) (Queued r) (ReqID r)
    (FromSeq r) (Tool r) (Plan r) (fUsage r) (Reason r) (fError r) (Cmds r) (fMode r) (Options r)
    (fOptionID r) (ModeID r).

(** [Frame{Kind: k}] *)
Definition frame (k : string) : Frame :=
  mkFrame 0 k "" "" "" "" "" 0 "" 0 None [] None "" None [] None [] "" "".

(** * The per-spawn relay: src/internal/node/pump.go

    [Pump] is the state behind [p.mu].  A Go method here is a sequence of critical sections with
    unlocked work between them; each definition below is one critical section and returns the new
    state with the unlocked work still to do, as a list of [action]s that [PumpSystem] interleaves.
    Clients, pump timers and the lines written to the agent are named by numbers and kept in order;
    a client's Go pointer is its key in [heap]. *)

Definition defaultMaxLog : Z := 2000.
Definition maxQueued : Z := 50.

(** src/internal/node/fork.go *)
Record forkIngressBarrier := mkBarrier { sourceGeneration : Z; transferSetID : string }.
Definition matches (b other : forkIngressBarrier) : bool :=
  (sourceGeneration b =? sourceGeneration other)
  && String.eqb (transferSetID b) (transferSetID other).

Record pendingPerm := mkPendingPerm {
  agentID : Z; ppOptions : list PermOption; ppTitle : string; ppTimer : Z }.

(** A client subscriber; [notify] is a channel with a buffer of one. *)
Record client := mkClient { cursor : Z; notify : bool; cdone : bool }.
#[export] Instance eta_client : Eta client := fun r => mkClient (cursor r) (notify r) (cdone r).

(** What is written to the agent's stdin. *)
Inductive AgentLine :=
| LCall (id : Z) (method : string)
| LPrompt (id : Z) (sessionID text : string)
| LCancel (sessionID : string)
| LSetMode (id : Z) (sessionID modeID : string)
| LPermission (agentID : Z) (optionID : string).

Record Pump := mkPump {
  log : list Frame;
  base : Z;
  seq : Z;
  maxLog : Z;
  clients : gmap string Z;
  heap : gmap Z client;
  stopped : bool;
  sessionID : string;
  toAgent : list AgentLine;
  waiters : gmap Z (option string);
  nextID : Z;
  busy : bool;
  queue : list string;
  inflightPromptID : Z;
  forkBarrier : option forkIngressBarrier;
  pending : gmap string pendingPerm;
  timers : gmap Z string;
  lastActivity : Z
}.
#[export] Instance eta_Pump : Eta Pump := fun r =>
  mkPump (log r) (base r) (seq r) (maxLog r) (clients r) (heap r) (stopped r) (sessionID r)
    (toAgent r) (waiters r) (nextID r) (busy r) (queue r) (inflightPromptID r) (forkBarrier r)
    (pending r) (timers r) (lastActivity r).

Definition newPump (now : Z) : Pump :=
  mkPump [] 0 0 defaultMaxLog ∅ ∅ false "" [] ∅ 0 false [] 0 None ∅ ∅ now.

(** The work a method still has to do after unlocking. *)
Inductive action :=
| DoAppend (fs : list Frame)
| DoSendPrompt (sid text : string)
| DoSendLine (line : AgentLine)
| DoTurnEnd (reason : string) (errInfo : option ErrorInfo) (usage : option Usage)
| DoTell (c : Z) (f : Frame)
| DoLoop (c : Z).

Definition plen {A} (l : list A) : Z := Z.of_nat (length l).

(** ** The frame log *)

(** [fs[i].Seq = p.seq + 1 + i] *)
Fixpoint stamp (n : Z) (fs : list Frame) : list Frame :=
  match fs with
  | [] => []
  | f :: fs => f <| Seq := n + 1 |> :: stamp (n + 1) fs
  end.

Definition wake (c : Z) (p : Pump) : Pump := p <| heap ::= alter (fun cl => cl <| notify := true |>) c |>.
(** Every registered client is woken. *)
Definition wake_all (p : Pump) : Pump :=
  p <| heap ::= map_imap (fun c cl =>
         Some (if bool_decide (c ∈ (map_to_list (clients p)).*2) then cl <| notify := true |> else cl)) |>.

Definition appendFrames (now : Z) (fs : list Frame) (p : Pump) : Pump :=
  match fs with
  | [] => p
  | _ =>
    let l := log p ++ stamp (seq p) fs in
    let over := plen l - maxLog p in
    let p := p <| lastActivity := now |> <| seq ::= Z.add (plen fs) |> in
    wake_all (if 0 <? over
              then p <| base ::= Z.add over |> <| log := drop (Z.to_nat over) l |>
              else p <| log := l |>)
  end.

(** ** Clients *)

Definition close_client (c : Z) (p : Pump) : Pump :=
  p <| heap ::= alter (fun cl => cl <| cdone := true |>) c |>.

Definition perm_frame (reqID : string) (pp : pendingPerm) : Frame :=
  (frame "perm_request") <| ReqID := reqID |> <| Title := ppTitle pp |> <| Options := ppOptions pp |>.

(** [c] is the fresh client. *)
Definition attachClient (clientID : string) (cur c : Z) (p : Pump) : Pump * list action :=
  let p := match clients p !! clientID with Some old => close_client old p | None => p end in
  let p := p <| heap ::= <[c := mkClient cur false false]> |> <| clients ::= <[clientID := c]> |> in
  (p, ((fun kp => DoTell c (perm_frame kp.1 kp.2)) <$> map_to_list (pending p))
        ++ [DoLoop c]).

Definition detachClient (clientID : string) (p : Pump) : Pump :=
  match clients p !! clientID with
  | Some c => (close_client c p) <| clients ::= delete clientID |>
  | None => p
  end.

(** The critical section of [clientLoop]: what to send, and the client's new cursor. *)
Definition catch_up (c : Z) (p : Pump) : list Frame * Pump :=
  match heap p !! c with
  | None => ([], p)
  | Some cl =>
    let outside := (cursor cl <? base p) || (seq p <? cursor cl) in
    let cur := if outside then base p else cursor cl in
    let reset := if outside then [(frame "reset") <| FromSeq := base p |>] else [] in
    let batch := if cur <? seq p then drop (Z.to_nat (cur - base p)) (log p) else [] in
    let cur := if cur <? seq p then seq p else cur in
    (reset ++ batch, p <| heap ::= <[c := cl <| cursor := cur |>]> |>)
  end.

(** ** Prompts and turns *)

Definition busy_frame (queued : Z) : Frame := (frame "turn") <| State := "busy" |> <| Queued := queued |>.

(** Also [set_mode], [cancel] and the permission answers take the session id or a fresh id under
    the lock and send a line after it. *)
Definition sendPrompt (sid text : string) (p : Pump) : Pump * list action :=
  let id := nextID p + 1 in
  (p <| nextID := id |> <| inflightPromptID := id |>, [DoSendLine (LPrompt id sid text)]).
Definition sendCancel (p : Pump) : Pump * list action :=
  (p, [DoSendLine (LCancel (sessionID p))]).
Definition sendSetMode (mode : string) (p : Pump) : Pump * list action :=
  let id := nextID p + 1 in
  (p <| nextID := id |>, [DoSendLine (LSetMode id (sessionID p) mode)]).

(** [call] registers its waiter before sending. *)
Definition call (method : string) (p : Pump) : Pump * list action :=
  let id := nextID p + 1 in
  (p <| nextID := id |> <| waiters ::= <[id := None]> |>, [DoSendLine (LCall id method)]).
Definition forget_waiter (id : Z) (p : Pump) : Pump := p <| waiters ::= delete id |>.

(** [start], after the two handshake calls: the session id, and the modes if any. *)
Definition start_session (sid : string) (modes : option Frame) (p : Pump) : Pump * list action :=
  (p <| sessionID := sid |>, match modes with Some f => [DoAppend [f]] | None => [] end).

(** Take the head of the queue as the next turn. *)
Definition drain (p : Pump) : option (Pump * list action) :=
  match queue p with
  | [] => None
  | text :: q =>
    Some (p <| queue := q |> <| busy := true |>,
          [DoAppend [busy_frame (plen q)]; DoSendPrompt (sessionID p) text])
  end.

Definition turnReason (stop : string) : string :=
  if String.eqb stop "" || String.eqb stop "end_turn" then "" else stop.

(** [handleTurnEnd], given the fields [parseStopResult] found. *)
Definition handleTurnEnd (reason : string) (errInfo : option ErrorInfo) (usage : option Usage)
    (p : Pump) : Pump * list action :=
  let p := p <| busy := false |> <| inflightPromptID := 0 |> in
  match (if is_none (forkBarrier p) then drain p else None) with
  | Some pa => pa
  | None =>
    (p, [DoAppend [(frame "turn") <| State := "idle" |> <| Reason := turnReason reason |>
                     <| fError := errInfo |> <| fUsage := usage |>]])
  end.

Definition parseUsage (u : option Usage) : option Usage :=
  match u with
  | None => None
  | Some u =>
    if (Input u =? 0) && (Output u =? 0) && (Cached u =? 0) && (Thought u =? 0) && (Total u =? 0)
       && is_none (Cost u)
    then None else Some u
  end.

(** A prompt from a client. *)
Definition prompt_frames (text : string) (queued : Z) : list action :=
  [DoAppend [(frame "user") <| Text := text |>; busy_frame queued]].
Definition enqueue (text : string) (p : Pump) : Pump * list action :=
  let q := queue p ++ [text] in (p <| queue := q |>, prompt_frames text (plen q)).
Definition clientPrompt (text : string) (p : Pump) : Pump * list action :=
  match forkBarrier p with
  | Some _ =>
    if plen (queue p) <? maxQueued then enqueue text p
    else (p, [DoAppend [(frame "turn") <| State := "idle" |> <| Queued := maxQueued |>
                <| fError := Some (mkErrorInfo 0 "prompt queue full during fork barrier") |>]])
  | None =>
    if negb (busy p)
    then (p <| busy := true |>, prompt_frames text 0 ++ [DoSendPrompt (sessionID p) text])
    else if plen (queue p) <? maxQueued then enqueue text p
    else (p, [])
  end.

(** ** Permissions *)

Definition rejectOptionID (opts : list PermOption) : string :=
  match List.find (fun o => Contains (poKind o) "reject" || Contains (poKind o) "deny") opts with
  | Some o => OptionID o
  | None => match opts with o :: _ => OptionID o | [] => "" end
  end.

Definition resolvePermission (reqID optionID : string) (p : Pump) : Pump * list action :=
  match pending p !! reqID with
  | None => (p, [])
  | Some pp =>
    let option := if String.eqb optionID "" then rejectOptionID (ppOptions pp) else optionID in
    (p <| pending ::= delete reqID |> <| timers ::= delete (ppTimer pp) |>,
     [DoSendLine (LPermission (agentID pp) option)])
  end.

(** [t] is the fresh timer. *)
Definition onPermissionRequest (agent : option Z) (opts : list PermOption) (title : string) (t : Z)
    (p : Pump) : Pump * list action :=
  match agent with
  | None => (p, [])
  | Some id =>
    if stopped p then (p, []) else
    let reqID := Itoa id in
    let pp := mkPendingPerm id opts (if String.eqb title "" then "permission requested" else title) t in
    (p <| timers ::= <[t := reqID]> |> <| pending ::= <[reqID := pp]> |>,
     (fun c => DoTell c (perm_frame reqID pp)) <$> (map_to_list (clients p)).*2)
  end.

(** The auto-deny timer fires once. *)
Definition timerFires (t : Z) (p : Pump) : Pump * list action :=
  match timers p !! t with
  | Some reqID => resolvePermission reqID "" (p <| timers ::= delete t |>)
  | None => (p, [])
  end.

(** ** Frames from a client *)

Definition fromClient (now : Z) (f : option Frame) (p : Pump) : Pump * list action :=
  match f with
  | None => (p, [])
  | Some f =>
    let p := p <| lastActivity := now |> in
    if String.eqb (Kind f) "prompt" then clientPrompt (Text f) p
    else if String.eqb (Kind f) "perm_response" then resolvePermission (ReqID f) (fOptionID f) p
    else if String.eqb (Kind f) "set_mode" then sendSetMode (ModeID f) p
    else if String.eqb (Kind f) "cancel" then sendCancel p
    else (p, [])
  end.

(** ** Messages from the agent *)

(** What [readLoop] gets out of one line; [update] is the frame of a session/update, if any. *)
Inductive AgentMsg :=
| MResult (id : option Z) (payload : string) (reason : string) (errInfo : option ErrorInfo)
    (usage : option Usage)
| MUpdate (update : option Frame)
| MPermission (id : option Z) (opts : list PermOption) (title : string)
| MOther.

Definition onAgent (m : AgentMsg) (t : Z) (p : Pump) : Pump * list action :=
  match m with
  | MResult (Some id) payload reason errInfo usage =>
    match waiters p !! id with
    | Some None => (p <| waiters ::= <[id := Some payload]> |>, [])
    | Some (Some _) => (p, [])
    | None =>
      if negb (inflightPromptID p =? 0) && (id =? inflightPromptID p)
      then (p, [DoTurnEnd reason errInfo usage]) else (p, [])
    end
  | MResult None _ _ _ _ => (p, [])
  | MUpdate (Some f) => (p, [DoAppend [f]])
  | MUpdate None => (p, [])
  | MPermission id opts title => onPermissionRequest id opts title t p
  | MOther => (p, [])
  end.

(** ** The fork barrier *)

Definition tryAcquireForkBarrier (b : forkIngressBarrier) (p : Pump) : bool * Pump :=
  let quiet := negb (busy p) && (inflightPromptID p =? 0) in
  match forkBarrier p with
  | Some held => (matches held b && quiet, p)
  | None => (quiet, p <| forkBarrier := Some b |>)
  end.

Definition setForkBarrier (b : forkIngressBarrier) (p : Pump) : Pump := p <| forkBarrier := Some b |>.

Definition releaseForkBarrier (match_ : forkIngressBarrier -> bool) (p : Pump) : Pump * list action :=
  match forkBarrier p with
  | Some b =>
    if match_ b then
      let p := p <| forkBarrier := None |> in
      if negb (busy p) && (inflightPromptID p =? 0)
      then default (p, []) (drain p) else (p, [])
    else (p, [])
  | None => (p, [])
  end.

(** ** Teardown *)

Definition stop (p : Pump) : Pump :=
  if stopped p then p
  else
    p <| stopped := true |>
      <| heap ::= map_imap (fun c cl =>
           Some (if bool_decide (c ∈ (map_to_list (clients p)).*2) then cl <| cdone := true |> else cl)) |>
      <| clients := ∅ |>
      <| timers ::= (fun ts => foldr delete ts ((fun kp => ppTimer kp.2) <$> map_to_list (pending p))) |>
      <| pending := ∅ |>.

Definition attached (p : Pump) : bool := bool_decide (clients p <> ∅).
Definition lastActive (p : Pump) : Z := lastActivity p.

(** * The relay in motion

    The goroutines that work on one [Pump]: the read loop of the agent's stdout, one receive
    handler per client frame, one [clientLoop] per attached client, the permission timers and the
    fork and lifecycle callers.  A thread is the list of actions its goroutine has still to do; any
    thread may take the next step.  [hist], [accepted], [started], [got], [told] and
    [asked] only record what happened: the frames ever logged, the prompts accepted, the prompts
    sent, what each client's loop and each permission broadcast wrote to its stream, and the cursor
    each client attached with. *)

(** Where a client loop is. *)
Inductive loopPC :=
| LoopWait
| LoopCheck
| LoopSend (fs : list Frame)
| LoopExit.

Record System := mkSystem {
  pump : Pump;
  threads : gmap Z (list action);
  loops : gmap Z loopPC;
  hist : list Frame;
  accepted : list string;
  started : list string;
  got : gmap Z (list Frame);
  told : gmap Z (list Frame);
  asked : gmap Z Z
}.
#[export] Instance eta_System : Eta System := fun r =>
  mkSystem (pump r) (threads r) (loops r) (hist r) (accepted r) (started r) (got r) (told r) (asked r).

Definition new_system (now : Z) : System :=
  mkSystem (newPump now) {[0 := []]} ∅ [] [] [] ∅ ∅ ∅.

(** The read loop is thread 0. *)
Definition readLoop : Z := 0.

(** Run a critical section and leave its follow-up to thread [tid], before what it still had. *)
Definition then_do (tid : Z) (rest : list action) (pa : Pump * list action) (s : System) : System :=
  s <| pump := pa.1 |> <| threads ::= <[tid := pa.2 ++ rest]> |>.

(** The prompt is accepted: it becomes the current turn or joins the queue. *)
Definition accepts (f : option Frame) (p : Pump) : option string :=
  match f with
  | Some f =>
    if String.eqb (Kind f) "prompt"
       && ((is_none (forkBarrier p) && negb (busy p)) || (plen (queue p) <? maxQueued))
    then Some (Text f) else None
  | None => None
  end.

(** One action of a thread.  [DoLoop] is [wake(c)] and [go clientLoop(c)], once per client. *)
Definition perform (now tid : Z) (a : action) (rest : list action) (s : System) : System :=
  match a with
  | DoAppend fs =>
      then_do tid rest (appendFrames now fs (pump s), []) s
        <| hist ::= (fun h => h ++ stamp (seq (pump s)) fs) |>
  | DoSendPrompt sid text =>
      then_do tid rest (sendPrompt sid text (pump s)) s <| started ::= (fun l => l ++ [text]) |>
  | DoSendLine line =>
      then_do tid rest ((pump s) <| toAgent ::= (fun l => l ++ [line]) |>, []) s
  | DoTurnEnd reason errInfo usage => then_do tid rest (handleTurnEnd reason errInfo usage (pump s)) s
  | DoTell c f =>
      then_do tid rest (pump s, []) s
        <| told ::= <[c := default [] (told s !! c) ++ [f]]> |>
  | DoLoop c =>
      then_do tid rest (wake c (pump s), []) s
        <| loops ::= partial_alter (fun l => Some (default LoopWait l)) c |>
  end.

(** A line is dropped only once the pump has stopped ([sendLine] sees [writerDone]). *)
Definition drop_line (tid : Z) (rest : list action) (s : System) : System :=
  s <| threads ::= <[tid := rest]> |>.

Definition set_loop (c : Z) (pc : loopPC) (s : System) : System := s <| loops ::= <[c := pc]> |>.

(** A client's handshake, the wait of its loop and its two levels of sends. *)
Inductive loop_step (c : Z) (s : System) : System -> Prop :=
| loop_done cl :
    loops s !! c = Some LoopWait -> heap (pump s) !! c = Some cl -> cdone cl = true ->
    loop_step c s (set_loop c LoopExit s)
| loop_wake cl :
    loops s !! c = Some LoopWait -> heap (pump s) !! c = Some cl -> notify cl = true ->
    loop_step c s (set_loop c LoopCheck
      (s <| pump := (pump s) <| heap ::= <[c := cl <| notify := false |>]> |> |>))
| loop_check fs p :
    loops s !! c = Some LoopCheck -> catch_up c (pump s) = (fs, p) ->
    loop_step c s (set_loop c (match fs with [] => LoopWait | _ => LoopSend fs end) (s <| pump := p |>))
| loop_send f fs :
    loops s !! c = Some (LoopSend (f :: fs)) ->
    loop_step c s (set_loop c (LoopSend fs) (s <| got ::= <[c := default [] (got s !! c) ++ [f]]> |>))
| loop_fail f fs :
    loops s !! c = Some (LoopSend (f :: fs)) -> loop_step c s (set_loop c LoopExit s)
| loop_again : loops s !! c = Some (LoopSend []) -> loop_step c s (set_loop c LoopCheck s).

(** A fresh thread that runs one method. *)
Definition spawn (tid : Z) (pa : Pump * list action) (s : System) : System := then_do tid [] pa s.

Inductive step (s : System) : System -> Prop :=
| step_perform now tid a rest :
    threads s !! tid = Some (a :: rest) -> step s (perform now tid a rest s)
| step_drop tid line rest :
    threads s !! tid = Some (DoSendLine line :: rest) -> stopped (pump s) = true ->
    step s (drop_line tid rest s)
| step_loop c s' : loop_step c s s' -> step s s'
| step_agent m t :
    threads s !! readLoop = Some [] -> timers (pump s) !! t = None ->
    (forall id x r e u, m = MResult (Some id) x r e u -> forall y, waiters (pump s) !! id <> Some (Some y)) ->
    step s (spawn readLoop (onAgent m t (pump s)) s)
| step_client now tid f :
    threads s !! tid = None ->
    step s (spawn tid (fromClient now f (pump s)) s
              <| accepted ::= (fun l => l ++ option_list (accepts f (pump s))) |>)
| step_attach tid clientID cur c :
    threads s !! tid = None -> heap (pump s) !! c = None ->
    step s (spawn tid (attachClient clientID cur c (pump s)) s <| asked ::= <[c := cur]> |>)
| step_detach clientID : step s (s <| pump ::= detachClient clientID |>)
| step_timer tid t :
    threads s !! tid = None -> step s (spawn tid (timerFires t (pump s)) s)
| step_call tid method :
    threads s !! tid = None -> step s (spawn tid (call method (pump s)) s)
| step_called id : step s (s <| pump ::= forget_waiter id |>)
| step_started tid sid modes :
    threads s !! tid = None -> step s (spawn tid (start_session sid modes (pump s)) s)
| step_acquire b : step s (s <| pump := (tryAcquireForkBarrier b (pump s)).2 |>)
| step_barrier b : step s (s <| pump ::= setForkBarrier b |>)
| step_release tid match_ :
    threads s !! tid = None -> step s (spawn tid (releaseForkBarrier match_ (pump s)) s)
| step_stop : step s (s <| pump ::= stop |>).

Inductive reachable (now : Z) : System -> Prop :=
| reach_new : reachable now (new_system now)
| reach_step s s' : reachable now s -> step s s' -> reachable now s'.
