(* ===== verification/PumpLog.v ===== *)
(** * The frame log and its subscribers

    The log is a window on the history of frames; a client loop writes the frames its client has
    not seen, in order, or a reset to the start of the window. *)

From S2P Require Import Prelude GoLib Pump.
(** ** Lists *)

Lemma plen_nonneg {A} (l : list A) : 0 <= plen l.
Proof. unfold plen. lia. Qed.
Lemma plen_app {A} (l l' : list A) : plen (l ++ l') = plen l + plen l'.
Proof. unfold plen. rewrite length_app. lia. Qed.
Lemma plen_stamp n fs : plen (stamp n fs) = plen fs.
Proof. unfold plen. revert n. induction fs as [|f fs IH]; intros n; simpl; [done|]. specialize (IH (n + 1)). lia. Qed.
Lemma plen_drop {A} (l : list A) n : plen (drop n l) = Z.max 0 (plen l - Z.of_nat n).
Proof. unfold plen. rewrite length_drop. lia. Qed.

(** Frames are numbered by their position in the history, from 1. *)
Definition numbered (h : list Frame) : Prop :=
  forall i f, h !! i = Some f -> Seq f = Z.of_nat i + 1.

Lemma lookup_stamp n fs i f :
  stamp n fs !! i = Some f ->
  Seq f = n + Z.of_nat i + 1 /\ exists f0, fs !! i = Some f0 /\ f = f0 <| Seq := Seq f |>.
Proof.
  revert n i. induction fs as [|f0 fs IH]; intros n i; simpl; [done|].
  destruct i as [|i]; simpl.
  - intros [= <-]. split; [simpl; lia|]. by exists f0.
  - intros Hi. destruct (IH _ _ Hi) as [-> He]. split; [lia|done].
Qed.

Lemma numbered_append h n fs :
  numbered h -> n = plen h -> numbered (h ++ stamp n fs).
Proof.
  intros Hh -> i f. rewrite lookup_app_Some. intros [Hi|[Hlen Hi]]; [by apply Hh|].
  apply lookup_stamp in Hi as [-> _]. unfold plen. lia.
Qed.

(** ** The log *)

Record log_inv (p : Pump) (h : list Frame) : Prop := {
  li_seq : seq p = plen h;
  li_base : 0 <= base p;
  li_log : log p = drop (Z.to_nat (base p)) h;
  li_len : base p + plen (log p) = seq p;
  li_max : plen (log p) <= maxLog p;
  li_maxlog : maxLog p = defaultMaxLog;
  li_num : numbered h
}.

Lemma log_inv_ext p p' h :
  log p' = log p -> base p' = base p -> seq p' = seq p -> maxLog p' = maxLog p ->
  log_inv p h -> log_inv p' h.
Proof. intros Hl Hb Hs Hm [? ? ? ? ? ? ?]. by split; rewrite ?Hl, ?Hb, ?Hs, ?Hm. Qed.

Lemma log_inv_new now : log_inv (newPump now) [].
Proof. by split. Qed.

(** Everything but the log, the clock and the wake-ups is left alone by an append. *)
Lemma appendFrames_log now fs p h :
  log_inv p h -> log_inv (appendFrames now fs p) (h ++ stamp (seq p) fs).
Proof.
  intros Hinv. pose proof Hinv as [Hs Hb Hl Hlen Hmax Hm Hn]. unfold appendFrames.
  destruct fs as [|f fs]; [simpl; by rewrite app_nil_r|].
  set (new := f :: fs) in *. set (l := log p ++ stamp (seq p) new).
  assert (Hpl : plen l = plen (log p) + plen new) by (unfold l; by rewrite plen_app, plen_stamp).
  assert (Hnew : seq p + plen new = plen (h ++ stamp (seq p) new))
    by (rewrite plen_app, plen_stamp; lia).
  assert (Hdrop : l = drop (Z.to_nat (base p)) (h ++ stamp (seq p) new)).
  { unfold l. rewrite Hl, drop_app_le; [done|]. pose proof (plen_nonneg (log p)).
    unfold plen in *. lia. }
  assert (Hnum : numbered (h ++ stamp (seq p) new)) by (apply numbered_append; [done|lia]).
  pose proof (plen_nonneg new) as Hnn. pose proof (plen_nonneg (log p)) as Hln.
  unfold defaultMaxLog in Hm.
  destruct (Z.ltb_spec 0 (plen l - maxLog p)) as [Hover|Hover].
  - apply (log_inv_ext (p <| seq := seq p + plen new |>
        <| base := base p + (plen l - maxLog p) |>
        <| log := drop (Z.to_nat (plen l - maxLog p)) l |>)); [done|simpl; lia|simpl; lia|done|].
    split; simpl; try done.
    + lia.
    + rewrite Hdrop at 2. rewrite drop_drop. f_equal. lia.
    + rewrite plen_drop. lia.
    + rewrite plen_drop. lia.
  - apply (log_inv_ext (p <| seq := seq p + plen new |> <| log := l |>));
      [done|done|simpl; lia|done|].
    split; simpl; try done; lia.
Qed.

Lemma appendFrames_quiet now fs p :
  let p' := appendFrames now fs p in
  clients p' = clients p /\ queue p' = queue p /\ busy p' = busy p /\
  inflightPromptID p' = inflightPromptID p /\ nextID p' = nextID p /\ forkBarrier p' = forkBarrier p /\
  pending p' = pending p /\ sessionID p' = sessionID p /\ seq p' = seq p + plen fs.
Proof.
  unfold appendFrames. destruct fs as [|f fs]; simpl.
  - unfold plen. simpl. split_and!; try done. lia.
  - destruct (0 <? _); simpl; split_and!; try done; lia.
Qed.

(** ** Streams

    [stream h c0 l n]: a client that asked for the frames after [c0] has been sent [l] and is now
    at position [n]: each frame is the next one of the history, or a reset moves the position. *)
Inductive stream (h : list Frame) (c0 : Z) : list Frame -> Z -> Prop :=
| stream_nil : stream h c0 [] c0
| stream_frame l n f :
    stream h c0 l n -> 0 <= n -> h !! Z.to_nat n = Some f -> stream h c0 (l ++ [f]) (n + 1)
| stream_reset l n b :
    stream h c0 l n -> stream h c0 (l ++ [(frame "reset") <| FromSeq := b |>]) b.

Lemma stream_mono h h' c0 l n : stream h c0 l n -> stream (h ++ h') c0 l n.
Proof.
  induction 1; [apply stream_nil| |by eapply stream_reset]. apply stream_frame; try done.
  by apply lookup_app_l_Some.
Qed.

(** The rest of the history from position [n] extends the stream to its end. *)
Lemma stream_rest h c0 l n :
  stream h c0 l n -> 0 <= n <= plen h -> stream h c0 (l ++ drop (Z.to_nat n) h) (plen h).
Proof.
  intros Hs Hn. remember (drop (Z.to_nat n) h) as r eqn:Hr.
  revert l n Hs Hn Hr. induction r as [|f r IH]; intros l n Hs Hn Hr.
  - assert (n = plen h) as <-; [|by rewrite app_nil_r].
    apply (f_equal length) in Hr. rewrite length_drop in Hr. simpl in Hr. unfold plen in *. lia.
  - assert (Hf : h !! Z.to_nat n = Some f).
    { rewrite <- (Nat.add_0_r (Z.to_nat n)), <- lookup_drop, <- Hr. done. }
    assert (Hlt : n < plen h) by (apply lookup_lt_Some in Hf; unfold plen; lia).
    replace (l ++ f :: r) with ((l ++ [f]) ++ r) by (by rewrite <- app_assoc).
    apply (IH _ (n + 1)).
    + apply stream_frame; [done|lia|done].
    + lia.
    + assert (Hr1 : r = drop 1 (drop (Z.to_nat n) h)) by (by rewrite <- Hr).
      rewrite drop_drop in Hr1. rewrite Hr1. f_equal. lia.
Qed.

(** ** Catching up *)

Lemma catch_up_spec c p h cl fs p' c0 l :
  log_inv p h -> heap p !! c = Some cl -> catch_up c p = (fs, p') -> stream h c0 l (cursor cl) ->
  stream h c0 (l ++ fs) (seq p) /\
  heap p' = <[c := cl <| cursor := seq p |>]> (heap p) /\
  (fs = [] -> cursor cl = seq p) /\
  (base p <= cursor cl <= seq p -> fs = drop (Z.to_nat (cursor cl)) h).
Proof.
  intros Hinv Hcl. unfold catch_up. rewrite Hcl. destruct Hinv as [Hs Hb Hl Hlen Hmax _ _].
  pose proof (plen_nonneg (log p)) as Hln. intros [= <- <-] Hst.
  set (outside := (cursor cl <? base p) || (seq p <? cursor cl)) in *.
  set (cur := if outside then base p else cursor cl).
  assert (Hcur : base p <= cur <= seq p).
  { unfold cur, outside. destruct (Z.ltb_spec (cursor cl) (base p)), (Z.ltb_spec (seq p) (cursor cl));
      simpl; lia. }
  assert (Hbatch : (if cur <? seq p then drop (Z.to_nat (cur - base p)) (log p) else []) =
                   drop (Z.to_nat cur) h).
  { destruct (Z.ltb_spec cur (seq p)).
    - rewrite Hl, drop_drop. f_equal. lia.
    - rewrite drop_ge; [done|]. unfold plen in *. lia. }
  assert (Hend : (if cur <? seq p then seq p else cur) = seq p)
    by (destruct (Z.ltb_spec cur (seq p)); lia).
  rewrite Hbatch, Hend. split_and!; [|done| |].
  - rewrite app_assoc, Hs. apply (stream_rest h c0 _ cur); [|lia].
    unfold cur. destruct outside; [by apply stream_reset with (n := cursor cl)|]. by rewrite app_nil_r.
  - unfold cur in *. destruct outside; [done|]. simpl. intros Hnil.
    apply (f_equal length) in Hnil. rewrite length_drop in Hnil. simpl in Hnil. unfold plen in *. lia.
  - intros [H1 H2]. unfold cur, outside.
    destruct (Z.ltb_spec (cursor cl) (base p)), (Z.ltb_spec (seq p) (cursor cl)); simpl; try lia. done.
Qed.

(** * The relay: what a subscriber is sent

    The invariant that ties the log, the client loops and their wake-ups together, over every
    interleaving of the relay's threads. *)

(** A critical section that leaves the log and the cursors alone, drops no client and loses no
    wake-up. *)
Record soft (p p' : Pump) : Prop := {
  so_log : log p' = log p /\ base p' = base p /\ seq p' = seq p /\ maxLog p' = maxLog p;
  so_heap : forall c cl', heap p' !! c = Some cl' -> exists cl, heap p !! c = Some cl /\
      cursor cl' = cursor cl /\ (notify cl' = false -> notify cl = false);
  so_kept : forall c, is_Some (heap p !! c) -> is_Some (heap p' !! c);
  so_clients : forall id c, clients p' !! id = Some c -> clients p !! id = Some c
}.

Lemma soft_same p p' :
  log p' = log p -> base p' = base p -> seq p' = seq p -> maxLog p' = maxLog p ->
  heap p' = heap p -> clients p' = clients p -> soft p p'.
Proof.
  intros ? ? ? ? Hh Hc. split; [auto|..]; rewrite ?Hh, ?Hc; eauto.
Qed.

Lemma soft_close c p : soft p (close_client c p).
Proof.
  split; simpl; auto.
  - intros d cl'. rewrite lookup_alter_Some. intros [(<- & cl & Hcl & ->)|[_ H]]; eauto.
  - intros d [cl Hcl]. rewrite lookup_alter_is_Some. eauto.
Qed.

Lemma soft_wake c p : soft p (wake c p).
Proof.
  split; simpl; auto.
  - intros d cl'. rewrite lookup_alter_Some. intros [(<- & cl & Hcl & ->)|[_ H]]; [|eauto].
    exists cl. by split_and!.
  - intros d [cl Hcl]. rewrite lookup_alter_is_Some. eauto.
Qed.

Lemma soft_detach id p : soft p (detachClient id p).
Proof.
  unfold detachClient. destruct (clients p !! id) as [c|]; [|by apply soft_same].
  destruct (soft_close c p) as [H1 H2 H3 H4]. split; [done|done|done|].
  simpl. intros k d [_ Hd]%lookup_delete_Some. done.
Qed.

Lemma soft_stop p : soft p (stop p).
Proof.
  unfold stop. destruct (stopped p); [by apply soft_same|]. split; simpl; auto.
  - intros c cl'. rewrite map_lookup_imap. destruct (heap p !! c) as [cl|]; [|done].
    simpl. intros [= <-]. exists cl. case_match; auto.
  - intros c [cl Hcl]. rewrite map_lookup_imap, Hcl. simpl. eauto.
  - intros id c. by rewrite lookup_empty.
Qed.

Ltac soft_tac := repeat first [ by apply soft_same | case_match; simpl ].

Lemma soft_drain p p' acts : drain p = Some (p', acts) -> soft p p'.
Proof. unfold drain. destruct (queue p); [done|]. intros [= <- _]. by apply soft_same. Qed.

Lemma soft_resolve r o p : soft p (resolvePermission r o p).1.
Proof. unfold resolvePermission. soft_tac. Qed.

Lemma soft_trans p1 p2 p3 : soft p1 p2 -> soft p2 p3 -> soft p1 p3.
Proof.
  intros [(L1 & L2 & L3 & L4) H2 H3 H4] [(M1 & M2 & M3 & M4) G2 G3 G4].
  split; [|intros c cl' Hc|auto|auto].
  - split_and!; congruence.
  - destruct (G2 _ _ Hc) as (cl1 & Hcl1 & ? & ?). destruct (H2 _ _ Hcl1) as (cl & Hcl & ? & ?).
    exists cl. split_and!; [done|congruence|auto].
Qed.

Lemma soft_turn_end r e u p : soft p (handleTurnEnd r e u p).1.
Proof.
  unfold handleTurnEnd. set (p1 := p <| busy := false |> <| inflightPromptID := 0 |>).
  assert (H1 : soft p p1) by (by apply soft_same).
  destruct (is_none _); [|done]. destruct (drain p1) as [[p2 acts]|] eqn:Hd; [|done].
  eapply soft_trans; [done|]. by eapply soft_drain.
Qed.

Lemma soft_release m p : soft p (releaseForkBarrier m p).1.
Proof.
  unfold releaseForkBarrier. destruct (forkBarrier p) as [b|]; [|by apply soft_same].
  destruct (m b); [|by apply soft_same]. set (p1 := p <| forkBarrier := None |>).
  assert (H1 : soft p p1) by (by apply soft_same).
  destruct (_ && _); [|done]. destruct (drain p1) as [[p2 acts]|] eqn:Hd; [|done].
  eapply soft_trans; [done|]. by eapply soft_drain.
Qed.

Lemma soft_fromClient now f p : soft p (fromClient now f p).1.
Proof.
  unfold fromClient. destruct f as [f|]; [|by apply soft_same].
  set (p1 := p <| lastActivity := now |>). assert (H1 : soft p p1) by (by apply soft_same).
  destruct (String.eqb _ _).
  { unfold clientPrompt, enqueue. soft_tac. }
  destruct (String.eqb _ _).
  { eapply soft_trans; [done|apply soft_resolve]. }
  repeat (destruct (String.eqb _ _); [by apply soft_same|]). done.
Qed.

Lemma soft_onAgent m t p : soft p (onAgent m t p).1.
Proof. unfold onAgent, onPermissionRequest. soft_tac. Qed.

Lemma soft_timer t p : soft p (timerFires t p).1.
Proof.
  unfold timerFires. destruct (timers p !! t); [|by apply soft_same].
  eapply soft_trans; [|apply soft_resolve]. by apply soft_same.
Qed.

Lemma soft_acquire b p : soft p (tryAcquireForkBarrier b p).2.
Proof. unfold tryAcquireForkBarrier. soft_tac. Qed.

(** ** The invariant *)

(** What a loop still has to write. *)
Definition to_write (pc : loopPC) (rest : list Frame) : Prop :=
  match pc with LoopSend fs => rest = fs | LoopExit => True | _ => rest = [] end.

Definition sent_so_far (s : System) (c : Z) : list Frame := default [] (got s !! c).

Record relay_inv (s : System) : Prop := {
  r_log : log_inv (pump s) (hist s);
  r_threads : forall tid l c, threads s !! tid = Some l -> DoLoop c ∈ l -> is_Some (heap (pump s) !! c);
  r_loop : forall c pc, loops s !! c = Some pc -> is_Some (heap (pump s) !! c);
  r_got : forall c l, got s !! c = Some l -> is_Some (loops s !! c);
  r_client : forall id c, clients (pump s) !! id = Some c -> is_Some (heap (pump s) !! c);
  r_fresh : forall c cl, heap (pump s) !! c = Some cl -> loops s !! c = None ->
     asked s !! c = Some (cursor cl);
  r_stream : forall c cl pc, heap (pump s) !! c = Some cl -> loops s !! c = Some pc ->
     exists c0 rest, asked s !! c = Some c0 /\ to_write pc rest /\
       stream (hist s) c0 (sent_so_far s c ++ rest) (cursor cl);
  r_awake : forall id c cl, clients (pump s) !! id = Some c -> heap (pump s) !! c = Some cl ->
     loops s !! c = Some LoopWait -> notify cl = false -> cursor cl = seq (pump s)
}.

Lemma relay_new now : relay_inv (new_system now).
Proof.
  split; simpl; try (intros *; by rewrite lookup_empty).
  - apply log_inv_new.
  - intros tid l c [<- <-]%lookup_singleton_Some Hin. by apply elem_of_nil in Hin.
Qed.

(** Threads may only gain work that starts no loop. *)
Definition starts_none (acts : list action) : Prop := forall c, DoLoop c ∉ acts.
Definition threads_ok (s s' : System) : Prop :=
  forall tid l c, threads s' !! tid = Some l -> DoLoop c ∈ l ->
    exists tid' l', threads s !! tid' = Some l' /\ DoLoop c ∈ l'.

Lemma threads_ok_spawn s tid rest acts m :
  starts_none acts -> (rest = [] \/ exists a, threads s !! tid = Some (a :: rest)) ->
  m = <[tid := acts ++ rest]> (threads s) ->
  forall tid' l c, m !! tid' = Some l -> DoLoop c ∈ l ->
    exists tid2 l2, threads s !! tid2 = Some l2 /\ DoLoop c ∈ l2.
Proof.
  intros Hn Hr -> tid' l c. intros [[<- <-]|[_ Hl]]%lookup_insert_Some Hin; [|eauto].
  apply elem_of_app in Hin as [Hin|Hin]; [by destruct (Hn c)|].
  destruct Hr as [->|[a Ha]]; [by apply elem_of_nil in Hin|].
  exists tid, (a :: rest). split; [done|]. by right.
Qed.

Lemma relay_soft s s' :
  relay_inv s -> soft (pump s) (pump s') -> threads_ok s s' -> loops s' = loops s ->
  got s' = got s -> hist s' = hist s -> asked s' = asked s -> relay_inv s'.
Proof.
  intros [Hl Ht Hlp Hg Hc Hf Hs Ha] [(E1 & E2 & E3 & E4) Hh Hk Hcl] Tok L G H K.
  split; unfold sent_so_far; rewrite ?L, ?G, ?H, ?K.
  - by eapply log_inv_ext.
  - intros tid l c Htid Hin. destruct (Tok _ _ _ Htid Hin) as (tid' & l' & ? & ?). eauto.
  - intros c pc Hp. eauto.
  - done.
  - intros id c Hid. eauto.
  - intros c cl' Hcl' Hno. destruct (Hh _ _ Hcl') as (cl & Hcl0 & -> & _). eauto.
  - intros c cl' pc Hcl' Hpc. destruct (Hh _ _ Hcl') as (cl & Hcl0 & -> & _). eauto.
  - intros id c cl' Hid Hcl' Hpc Hn. destruct (Hh _ _ Hcl') as (cl & Hcl0 & -> & Hn').
    rewrite E3. eauto.
Qed.

(** ** Steps *)

Lemma elem_of_clients p c : c ∈ (map_to_list (clients p)).*2 <-> exists id, clients p !! id = Some c.
Proof.
  rewrite list_elem_of_fmap. split.
  - intros ([id c'] & -> & Hin). apply elem_of_map_to_list in Hin. eauto.
  - intros [id Hid]. exists (id, c). split; [done|]. by apply elem_of_map_to_list.
Qed.

Lemma heap_append now fs p c cl' :
  heap (appendFrames now fs p) !! c = Some cl' ->
  exists cl, heap p !! c = Some cl /\ cursor cl' = cursor cl /\
    ((exists id, clients p !! id = Some c) -> fs <> [] -> notify cl' = true).
Proof.
  unfold appendFrames. destruct fs as [|f fs]; [intros H; by exists cl'|].
  set (over := _ - _). destruct (0 <? over); unfold wake_all; simpl;
    rewrite map_lookup_imap; (destruct (heap p !! c) as [cl|]; [|done]); simpl; intros [= <-];
    exists cl; (split; [done|]); (split; [by case_match|]); intros Hid _;
    rewrite bool_decide_true by (by apply elem_of_clients); done.
Qed.

Lemma heap_append_kept now fs p c :
  is_Some (heap p !! c) -> is_Some (heap (appendFrames now fs p) !! c).
Proof.
  intros [cl Hcl]. unfold appendFrames. destruct fs as [|f fs]; [by rewrite Hcl|].
  set (over := _ - _). destruct (0 <? over); unfold wake_all; simpl;
    rewrite map_lookup_imap, Hcl; simpl; eauto.
Qed.

Lemma relay_append now tid rest fs s :
  relay_inv s -> threads s !! tid = Some (DoAppend fs :: rest) ->
  relay_inv (perform now tid (DoAppend fs) rest s).
Proof.
  intros [Hl Ht Hlp Hg Hc Hf Hs Ha] Htid. simpl.
  pose proof (appendFrames_quiet now fs (pump s)) as (Hcl & _ & _ & _ & _ & _ & _ & _ & Hseq).
  split; unfold sent_so_far; simpl.
  - by apply appendFrames_log.
  - intros tid' l c Hl' Hin. apply heap_append_kept.
    destruct (threads_ok_spawn s tid rest [] _ (fun c => not_elem_of_nil _) (or_intror (ex_intro _ _ Htid))
                eq_refl _ _ _ Hl' Hin) as (? & ? & ? & ?). eauto.
  - intros c pc Hp. apply heap_append_kept. eauto.
  - done.
  - intros id c. rewrite Hcl. intros Hid. apply heap_append_kept. eauto.
  - intros c cl' Hcl' Hno. destruct (heap_append _ _ _ _ _ Hcl') as (cl & Hcl0 & -> & _). eauto.
  - intros c cl' pc Hcl' Hpc. destruct (heap_append _ _ _ _ _ Hcl') as (cl & Hcl0 & -> & _).
    destruct (Hs _ _ _ Hcl0 Hpc) as (c0 & rs & ? & ? & ?). exists c0, rs. split_and!; [done..|].
    by apply stream_mono.
  - intros id c cl'. rewrite Hcl. intros Hid Hcl' Hpc Hn.
    destruct (heap_append _ _ _ _ _ Hcl') as (cl & Hcl0 & -> & Hw).
    destruct fs as [|f fs].
    + unfold appendFrames in Hcl'. rewrite Hcl0 in Hcl'. injection Hcl' as <-. by eapply Ha.
    + rewrite Hw in Hn; [done|by eauto|done].
Qed.

Lemma relay_attach s tid id cur c :
  relay_inv s -> heap (pump s) !! c = None ->
  relay_inv (spawn tid (attachClient id cur c (pump s)) s <| asked ::= <[c := cur]> |>).
Proof.
  intros [Hl Ht Hlp Hg Hc Hf Hs Ha] Hfresh.
  assert (Hno : loops s !! c = None).
  { destruct (loops s !! c) eqn:E; [|done]. destruct (Hlp _ _ E). congruence. }
  unfold spawn, then_do, attachClient.
  set (p0 := match clients (pump s) !! id with
             | Some old => close_client old (pump s) | None => pump s end).
  assert (H0 : soft (pump s) p0 /\ clients p0 = clients (pump s)).
  { unfold p0. destruct (clients (pump s) !! id); [|by split; [apply soft_same|]].
    split; [apply soft_close|done]. }
  destruct H0 as [[(E1 & E2 & E3 & E4) Hh Hk _] Hcl].
  assert (Hkept : forall d, is_Some (heap (pump s) !! d) ->
            is_Some (<[c := mkClient cur false false]> (heap p0) !! d)).
  { intros d Hd. destruct (decide (d = c)) as [->|]; [by rewrite lookup_insert_eq|].
    rewrite lookup_insert_ne by done. eauto. }
  split; unfold sent_so_far; simpl.
  - by apply (log_inv_ext (pump s)).
  - intros tid' l d. rewrite app_nil_r. intros [[<- <-]|[_ Hl']]%lookup_insert_Some Hin.
    + apply elem_of_app in Hin as [Hin|Hin].
      * apply list_elem_of_fmap in Hin as (? & [=] & _).
      * apply list_elem_of_singleton in Hin as [= ->]. by rewrite lookup_insert_eq.
    + apply Hkept; eauto.
  - intros c' pc Hp. apply Hkept; eauto.
  - done.
  - intros id' c'. rewrite Hcl. intros [[<- <-]|[_ Hid]]%lookup_insert_Some;
      [by rewrite lookup_insert_eq|]. apply Hkept; eauto.
  - intros c' cl' [[<- <-]|[Hne Hcl']]%lookup_insert_Some Hl'; [by rewrite lookup_insert_eq|].
    rewrite lookup_insert_ne by done. destruct (Hh _ _ Hcl') as (cl & Hcl0 & -> & _). eauto.
  - intros c' cl' pc [[<- <-]|[Hne Hcl']]%lookup_insert_Some Hpc; [congruence|].
    rewrite lookup_insert_ne by done. destruct (Hh _ _ Hcl') as (cl & Hcl0 & -> & _). eauto.
  - intros id' c' cl'. rewrite Hcl, E3. intros Hid [[<- <-]|[Hne Hcl']]%lookup_insert_Some Hpc Hn;
      [congruence|]. apply lookup_insert_Some in Hid as [[_ ->]|[_ Hid]]; [done|].
    destruct (Hh _ _ Hcl') as (cl & Hcl0 & -> & Hn'). eauto.
Qed.

Lemma relay_start now tid rest c s :
  relay_inv s -> threads s !! tid = Some (DoLoop c :: rest) ->
  relay_inv (perform now tid (DoLoop c) rest s).
Proof.
  intros [Hl Ht Hlp Hg Hc Hf Hs Ha] Htid. simpl.
  destruct (soft_wake c (pump s)) as [(E1 & E2 & E3 & E4) Hh Hk _].
  assert (Hhc : is_Some (heap (pump s) !! c)) by (eapply Ht; [exact Htid|left]).
  split; unfold sent_so_far; simpl.
  - by apply (log_inv_ext (pump s)).
  - intros tid' l d Hl' Hin. apply Hk.
    destruct (threads_ok_spawn s tid rest [] _ (fun c => not_elem_of_nil _) (or_intror (ex_intro _ _ Htid))
                eq_refl _ _ _ Hl' Hin) as (? & ? & ? & ?). eauto.
  - intros d pc. rewrite lookup_partial_alter_Some. intros [(<- & _)|[_ H]]; apply Hk; eauto.
  - intros d l Hd. destruct (decide (c = d)) as [<-|]; [by rewrite lookup_partial_alter_eq|].
    rewrite lookup_partial_alter_ne by done. eauto.
  - intros id d Hid. apply Hk. eauto.
  - intros d cl' Hcl' Hno. destruct (Hh _ _ Hcl') as (cl & Hcl0 & -> & _).
    apply (Hf _ _ Hcl0). destruct (decide (c = d)) as [<-|]; [by rewrite lookup_partial_alter_eq in Hno|].
    by rewrite lookup_partial_alter_ne in Hno.
  - intros d cl' pc Hcl' Hpc. destruct (Hh _ _ Hcl') as (cl & Hcl0 & -> & _).
    apply lookup_partial_alter_Some in Hpc as [(<- & Hpc)|[_ Hpc]]; [|eauto].
    destruct (loops s !! c) as [pc0|] eqn:Hpc0; simpl in Hpc; injection Hpc as <-; [eauto|].
    exists (cursor cl), []. split_and!; [eauto|done|].
    destruct (got s !! c) eqn:Hgc; [destruct (Hg _ _ Hgc); congruence|]. apply stream_nil.
  - intros id d cl' Hid Hcl' Hpc Hn.
    destruct (Hh _ _ Hcl') as (cl & Hcl0 & -> & Hn').
    apply lookup_partial_alter_Some in Hpc as [(<- & Hpc)|[_ Hpc]]; [|eauto].
    exfalso. simpl in Hcl'. rewrite lookup_alter_eq, Hcl0 in Hcl'. injection Hcl' as <-. done.
Qed.

(** A loop that moves without touching the pump: its stream must still fit. *)
Lemma relay_move s c pc pc' g' :
  relay_inv s -> loops s !! c = Some pc -> pc' <> LoopWait ->
  (forall l rest, l = sent_so_far s c -> to_write pc rest ->
     exists rest', to_write pc' rest' /\ default [] (g' !! c) ++ rest' = l ++ rest) ->
  (forall d, d <> c -> g' !! d = got s !! d) ->
  relay_inv (set_loop c pc' (s <| got := g' |>)).
Proof.
  intros [Hl Ht Hlp Hg Hc Hf Hs Ha] Hpc Hnw Hw Hg'. split; unfold sent_so_far; simpl.
  - done.
  - done.
  - intros d pc1 [[<- <-]|[_ H]]%lookup_insert_Some; eauto.
  - intros d l Hd. destruct (decide (c = d)) as [<-|]; [by rewrite lookup_insert_eq|].
    rewrite lookup_insert_ne by done. rewrite Hg' in Hd by done. eauto.
  - done.
  - intros d cl Hcl [Hno _]%lookup_insert_None. eauto.
  - intros d cl pc1 Hcl [[<- <-]|[Hne Hpc1]]%lookup_insert_Some.
    + destruct (Hs _ _ _ Hcl Hpc) as (c0 & rest & ? & Hrest & Hst).
      destruct (Hw _ _ eq_refl Hrest) as (rest' & ? & Heq). exists c0, rest'.
      split_and!; [done..|]. by rewrite Heq.
    + rewrite Hg' by done. by apply Hs.
  - intros id d cl Hid Hcl [[<- ->]|[Hne Hpc1]]%lookup_insert_Some Hn; [done|eauto].
Qed.

Lemma set_got_same s : s <| got := got s |> = s.
Proof. by destruct s. Qed.

Lemma relay_loop c s s' : relay_inv s -> loop_step c s s' -> relay_inv s'.
Proof.
  intros Hinv Hst. destruct Hst as [cl Hpc Hcl Hd|cl Hpc Hcl Hn|fs p Hpc Hcu|f fs Hpc|f fs Hpc|Hpc].
  - rewrite <- (set_got_same s). eapply relay_move; [done..| |done].
    intros l rest -> ->. by exists [].
  - pose proof Hinv as [Hl Ht Hlp Hg Hc Hf Hs Ha].
    set (s1 := s <| pump := (pump s) <| heap ::= <[c := cl <| notify := false |>]> |> |>).
    split; unfold sent_so_far; simpl.
    + by apply (log_inv_ext (pump s)).
    + intros tid l d Hl' Hin. destruct (decide (d = c)) as [->|]; [by rewrite lookup_insert_eq|].
      rewrite lookup_insert_ne by done. eauto.
    + intros d pc Hd. destruct (decide (d = c)) as [->|]; [by rewrite lookup_insert_eq|].
      rewrite lookup_insert_ne by done. rewrite lookup_insert_ne in Hd by done. eauto.
    + intros d l Hd. destruct (decide (d = c)) as [->|]; [by rewrite lookup_insert_eq|].
      rewrite lookup_insert_ne by done. eauto.
    + intros id d Hid. destruct (decide (d = c)) as [->|]; [by rewrite lookup_insert_eq|].
      rewrite lookup_insert_ne by done. eauto.
    + intros d cl' [[<- <-]|[Hne Hcl']]%lookup_insert_Some [Hno ?]%lookup_insert_None; [done|eauto].
    + intros d cl' pc [[<- <-]|[Hne Hcl']]%lookup_insert_Some Hpc'; simpl.
      * rewrite lookup_insert_eq in Hpc'. injection Hpc' as <-.
        destruct (Hs _ _ _ Hcl Hpc) as (c0 & rest & ? & -> & ?). by exists c0, [].
      * rewrite lookup_insert_ne in Hpc' by done. by apply Hs.
    + intros id d cl' Hid Hcl' [[<- [=]]|[Hne Hpc']]%lookup_insert_Some Hn'.
      rewrite lookup_insert_ne in Hcl' by done. eauto.
  - pose proof Hinv as [Hl Ht Hlp Hg Hc Hf Hs Ha].
    destruct (Hlp _ _ Hpc) as [cl Hcl].
    destruct (Hs _ _ _ Hcl Hpc) as (c0 & rest & Hask & -> & Hst). rewrite app_nil_r in Hst.
    destruct (catch_up_spec c (pump s) (hist s) cl fs p c0 _ Hl Hcl Hcu Hst) as (Hst' & Hh & Hnil & _).
    assert (Hp : log p = log (pump s) /\ base p = base (pump s) /\ seq p = seq (pump s) /\
                 maxLog p = maxLog (pump s) /\ clients p = clients (pump s)).
    { unfold catch_up in Hcu. rewrite Hcl in Hcu. by injection Hcu as _ <-. }
    destruct Hp as (E1 & E2 & E3 & E4 & E5).
    assert (Hkept : forall d, is_Some (heap (pump s) !! d) -> is_Some (heap p !! d)).
    { intros d Hd. rewrite Hh. destruct (decide (d = c)) as [->|]; [by rewrite lookup_insert_eq|].
      by rewrite lookup_insert_ne. }
    split; unfold sent_so_far; simpl.
    + by apply (log_inv_ext (pump s)).
    + intros tid l d Hl' Hin. apply Hkept. eauto.
    + intros d pc Hd. apply Hkept. apply lookup_insert_Some in Hd as [[<- _]|[_ Hd]]; eauto.
    + intros d l Hd. destruct (decide (d = c)) as [->|]; [by rewrite lookup_insert_eq|].
      rewrite lookup_insert_ne by done. eauto.
    + intros id d. rewrite E5. intros Hid. apply Hkept. eauto.
    + intros d cl'. rewrite Hh.
      intros [[<- <-]|[Hne Hcl']]%lookup_insert_Some [Hno ?]%lookup_insert_None; [done|eauto].
    + intros d cl' pc'. rewrite Hh. intros [[<- <-]|[Hne Hcl']]%lookup_insert_Some Hpc'; simpl.
      * rewrite lookup_insert_eq in Hpc'. injection Hpc' as <-. exists c0, fs.
        split_and!; [done|by destruct fs|exact Hst'].
      * rewrite lookup_insert_ne in Hpc' by done. by apply Hs.
    + intros id d cl'. rewrite Hh, E3, E5.
      intros Hid [[<- <-]|[Hne Hcl']]%lookup_insert_Some Hpc' Hn; simpl; [done|].
      rewrite lookup_insert_ne in Hpc' by done. eauto.
  - eapply (relay_move s c (LoopSend (f :: fs)) (LoopSend fs)); [done..| |].
    + intros l rest -> ->. exists fs. split; [done|]. rewrite lookup_insert_eq. simpl.
      by rewrite <- app_assoc.
    + intros d Hd. by rewrite lookup_insert_ne.
  - rewrite <- (set_got_same s). eapply relay_move; [done..| |done].
    intros l rest -> ->. by exists (f :: fs).
  - rewrite <- (set_got_same s). eapply relay_move; [done..| |done].
    intros l rest -> ->. by exists [].
Qed.

(** ** The actions of the methods start no loop *)

Ltac starts_tac := let H := fresh in intros ? H; simpl in H;
  repeat first [ by apply elem_of_nil in H
               | apply elem_of_cons in H as [[=]|H]
               | apply elem_of_app in H as [H|H] ].

Lemma starts_drain p p' acts : drain p = Some (p', acts) -> starts_none acts.
Proof. unfold drain. destruct (queue p); [done|]. intros [= _ <-]. starts_tac. Qed.
Lemma starts_turn_end r e u p : starts_none (handleTurnEnd r e u p).2.
Proof.
  unfold handleTurnEnd. destruct (is_none _); [|starts_tac].
  destruct (drain _) as [[p' acts]|] eqn:Hd; [by eapply starts_drain|starts_tac].
Qed.
Lemma starts_release m p : starts_none (releaseForkBarrier m p).2.
Proof.
  unfold releaseForkBarrier. destruct (forkBarrier p); [|starts_tac]. destruct (m _); [|starts_tac].
  destruct (_ && _); [|starts_tac].
  destruct (drain _) as [[p' acts]|] eqn:Hd; [by eapply starts_drain|starts_tac].
Qed.
Lemma starts_resolve r o p : starts_none (resolvePermission r o p).2.
Proof. unfold resolvePermission. destruct (pending p !! r); starts_tac. Qed.
Lemma starts_timer t p : starts_none (timerFires t p).2.
Proof. unfold timerFires. destruct (timers p !! t); [apply starts_resolve|starts_tac]. Qed.
Lemma starts_fromClient now f p : starts_none (fromClient now f p).2.
Proof.
  unfold fromClient. destruct f as [f|]; [|starts_tac].
  destruct (String.eqb _ _).
  { unfold clientPrompt, enqueue, prompt_frames.
    destruct (forkBarrier _); [destruct (_ <? _); starts_tac|].
    destruct (busy _); [destruct (_ <? _); starts_tac|starts_tac]. }
  destruct (String.eqb _ _); [apply starts_resolve|].
  destruct (String.eqb _ _); [starts_tac|]. destruct (String.eqb _ _); starts_tac.
Qed.
Lemma starts_onAgent m t p : starts_none (onAgent m t p).2.
Proof.
  unfold onAgent, onPermissionRequest.
  destruct m as [[id|] x r e u|[f|]|[id|] opts title|]; try solve [starts_tac].
  - destruct (waiters p !! id) as [[y|]|]; [starts_tac..|]. destruct (_ && _); starts_tac.
  - destruct (stopped p); [starts_tac|]. intros c Hin. simpl in Hin.
    by apply list_elem_of_fmap in Hin as (? & [=] & _).
Qed.

Lemma relay_step s s' : relay_inv s -> step s s' -> relay_inv s'.
Proof.
  intros Hinv Hst.
  assert (Hsp : forall tid rest pa s0, soft (pump s) pa.1 -> starts_none pa.2 ->
    (rest = [] \/ exists a, threads s !! tid = Some (a :: rest)) ->
    pump s0 = pump s -> threads s0 = threads s -> loops s0 = loops s -> got s0 = got s ->
    hist s0 = hist s -> asked s0 = asked s -> relay_inv (then_do tid rest pa s0)).
  { intros tid rest pa s0 Hso Hno Hr Ep Et El Eg Eh Ea. apply (relay_soft s); try done.
    intros tid' l c Hl Hin. eapply threads_ok_spawn; [done..| |done|done]. simpl. by rewrite Et. }
  assert (Hpl : forall s0, soft (pump s) (pump s0) -> threads s0 = threads s -> loops s0 = loops s ->
    got s0 = got s -> hist s0 = hist s -> asked s0 = asked s -> relay_inv s0).
  { intros s0 Hso Et El Eg Eh Ea. apply (relay_soft s); try done.
    intros tid l c. rewrite Et. eauto. }
  destruct Hst as [now tid a rest Ht|tid line rest Ht Hstop|c s' Hlp|m t Ht Htm Hw|now tid f Ht
    |tid id cur c Ht Hc|id|tid t Ht|tid method Ht|id|tid sid modes Ht|b|b|tid m Ht|];
    unfold spawn in *.
  - destruct a as [fs|sid text|line|r e u|c f|c]; [by apply relay_append| | | | |by apply relay_start];
      simpl; apply Hsp; eauto; try (by apply soft_same); try solve [starts_tac].
    + apply soft_turn_end.
    + apply starts_turn_end.
  - apply (relay_soft s); try done; [by apply soft_same|]. intros tid' l c Hl Hin.
    eapply (threads_ok_spawn s tid rest []); [starts_tac|right; by eexists|done|done|done].
  - by eapply relay_loop.
  - apply Hsp; auto using soft_onAgent, starts_onAgent.
  - apply Hsp; auto using soft_fromClient, starts_fromClient.
  - by apply relay_attach.
  - apply Hpl; try done. apply soft_detach.
  - apply Hsp; auto using soft_timer, starts_timer.
  - apply Hsp; auto; [by apply soft_same|starts_tac].
  - apply Hpl; try done. by apply soft_same.
  - apply Hsp; auto; [by apply soft_same|]. simpl. destruct modes; starts_tac.
  - apply Hpl; try done. apply soft_acquire.
  - apply Hpl; try done. by apply soft_same.
  - apply Hsp; auto using soft_release, starts_release.
  - apply Hpl; try done. apply soft_stop.
Qed.

Lemma reachable_relay now s : reachable now s -> relay_inv s.
Proof. induction 1; [apply relay_new|by eapply relay_step]. Qed.
