(* ===== verification/PumpTurns.v ===== *)
(** * Turns and the prompt queue

    The token that makes a turn exclusive: while the pump is busy, either one thread is about to
    send the prompt of the turn ([hand]), or the prompt has been sent and its result is awaited. *)

From S2P Require Import Prelude GoLib Pump PumpLog.
(** The prompts a thread has still to send, and the turn ends it has still to handle. *)
Definition prompts_of (l : list action) : list string :=
  omap (fun a => match a with DoSendPrompt _ t => Some t | _ => None end) l.
Definition ends_of (l : list action) : list unit :=
  omap (fun a => match a with DoTurnEnd _ _ _ => Some tt | _ => None end) l.

Lemma prompts_of_app l l' : prompts_of (l ++ l') = prompts_of l ++ prompts_of l'.
Proof. apply omap_app. Qed.
Lemma ends_of_app l l' : ends_of (l ++ l') = ends_of l ++ ends_of l'.
Proof. apply omap_app. Qed.

Definition hand_in (hand : option (Z * string)) (tid : Z) : list string :=
  match hand with Some (t, x) => if decide (t = tid) then [x] else [] | None => [] end.

Record turn_inv (hand : option (Z * string)) (s : System) : Prop := {
  t_hand : forall tid l, threads s !! tid = Some l -> prompts_of l = hand_in hand tid;
  t_alive : forall t x, hand = Some (t, x) -> is_Some (threads s !! t);
  t_ends : forall tid l, threads s !! tid = Some l ->
     ends_of l = [] \/ (tid = readLoop /\ ends_of l = [tt] /\ inflightPromptID (pump s) <> 0);
  t_busy : if busy (pump s) then hand = None <-> inflightPromptID (pump s) <> 0
           else hand = None /\ inflightPromptID (pump s) = 0;
  t_fifo : accepted s = started s ++ option_list (snd <$> hand) ++ queue (pump s);
  t_queue : plen (queue (pump s)) <= maxQueued;
  t_strand : forkBarrier (pump s) = None -> busy (pump s) = false -> queue (pump s) = [];
  t_next : 0 <= nextID (pump s)
}.

Lemma turn_new now : turn_inv None (new_system now).
Proof.
  split; simpl; try done.
  - intros tid l [<- <-]%lookup_singleton_Some. done.
  - intros tid l [<- <-]%lookup_singleton_Some. by left.
Qed.

(** ** Threads *)

(** Thread [tid] gives up an action that is neither a prompt nor a turn end (or does not exist
    yet) and goes on with [rest]. *)
Definition resumes (s : System) (tid : Z) (rest : list action) : Prop :=
  (threads s !! tid = None /\ rest = []) \/
  (exists l, threads s !! tid = Some l /\ prompts_of l = prompts_of rest /\ ends_of l = ends_of rest).

Lemma resumes_next s tid a rest :
  threads s !! tid = Some (a :: rest) -> prompts_of [a] = [] -> ends_of [a] = [] ->
  resumes s tid rest.
Proof.
  intros Ht Hp He. right. exists (a :: rest). split; [done|].
  change (a :: rest) with ([a] ++ rest). by rewrite prompts_of_app, ends_of_app, Hp, He.
Qed.
Lemma resumes_new s tid : threads s !! tid = None -> resumes s tid [].
Proof. by left. Qed.

(** The turn fields of the pump that most methods leave alone. *)
Definition same_turn (p p' : Pump) : Prop :=
  busy p' = busy p /\ inflightPromptID p' = inflightPromptID p /\ queue p' = queue p /\
  forkBarrier p' = forkBarrier p /\ nextID p <= nextID p'.

Lemma hand_rest hand s tid rest :
  turn_inv hand s -> resumes s tid rest -> prompts_of rest = hand_in hand tid.
Proof.
  intros Hinv [[Ht ->]|(l & Ht & Hp & _)].
  - destruct hand as [[t x]|]; simpl; [|done]. rewrite decide_False; [done|]. intros ->.
    destruct (t_alive _ _ Hinv tid x eq_refl). congruence.
  - rewrite <- Hp. by eapply t_hand.
Qed.

Lemma ends_rest hand s tid rest :
  turn_inv hand s -> resumes s tid rest ->
  ends_of rest = [] \/ (tid = readLoop /\ ends_of rest = [tt] /\ inflightPromptID (pump s) <> 0).
Proof.
  intros Hinv [[Ht ->]|(l & Ht & _ & He)]; [by left|]. rewrite <- He. by eapply t_ends.
Qed.

(** A method that starts no turn. *)
Lemma turn_quiet hand s s' tid rest acts :
  turn_inv hand s -> resumes s tid rest -> same_turn (pump s) (pump s') ->
  prompts_of acts = [] -> ends_of acts = [] -> threads s' = <[tid := acts ++ rest]> (threads s) ->
  accepted s' = accepted s -> started s' = started s -> turn_inv hand s'.
Proof.
  intros Hinv Hr (Eb & Ei & Eq & Ef & En) Hp He Hth Ea Es.
  pose proof (hand_rest _ _ _ _ Hinv Hr) as Hhand. pose proof (ends_rest _ _ _ _ Hinv Hr) as Hends.
  destruct Hinv as [H1 H2 H3 H4 H5 H6 H7 H8].
  split; rewrite ?Hth, ?Eb, ?Ei, ?Eq, ?Ef, ?Ea, ?Es; try done.
  - intros tid' l [[<- <-]|[_ Hl]]%lookup_insert_Some; [|by apply H1].
    by rewrite prompts_of_app, Hp, Hhand.
  - intros t x Hh. destruct (decide (t = tid)) as [->|]; [by rewrite lookup_insert_eq|].
    rewrite lookup_insert_ne by done. by eapply H2.
  - intros tid' l [[<- <-]|[_ Hl]]%lookup_insert_Some; [|by apply H3].
    by rewrite ends_of_app, He.
  - lia.
Qed.

(** A method that starts no turn and spawns no work. *)
Lemma turn_still hand s s' :
  turn_inv hand s -> same_turn (pump s) (pump s') -> threads s' = threads s ->
  accepted s' = accepted s -> started s' = started s -> turn_inv hand s'.
Proof.
  intros [H1 H2 H3 H4 H5 H6 H7 H8] (Eb & Ei & Eq & Ef & En) Hth Ea Es.
  split; rewrite ?Hth, ?Eb, ?Ei, ?Eq, ?Ef, ?Ea, ?Es; try done. lia.
Qed.

(** A method that takes the token: [text] becomes the prompt in hand. *)
Lemma turn_takes s s' tid rest acts text :
  turn_inv None s -> prompts_of rest = [] -> ends_of rest = [] ->
  (forall tid' l, tid' <> tid -> threads s !! tid' = Some l -> ends_of l = []) ->
  prompts_of acts = [text] -> ends_of acts = [] ->
  threads s' = <[tid := acts ++ rest]> (threads s) ->
  busy (pump s') = true -> inflightPromptID (pump s') = 0 -> nextID (pump s) <= nextID (pump s') ->
  accepted s' = started s' ++ text :: queue (pump s') -> plen (queue (pump s')) <= maxQueued ->
  turn_inv (Some (tid, text)) s'.
Proof.
  intros Hinv Hhand Her Heo Hp He Hth Hb Hi Hn Ha Hq.
  destruct Hinv as [H1 H2 H3 H4 H5 H6 H7 H8].
  split; rewrite ?Hth, ?Hb, ?Hi; simpl.
  - intros tid' l [[<- <-]|[Hne Hl]]%lookup_insert_Some.
    + by rewrite prompts_of_app, Hp, Hhand, decide_True.
    + rewrite decide_False by done. by apply (H1 _ _ Hl).
  - intros t x [= -> ->]. by rewrite lookup_insert_eq.
  - intros tid' l [[<- <-]|[Hne Hl]]%lookup_insert_Some; left; [by rewrite ends_of_app, He, Her|].
    eapply Heo; [|done]. congruence.
  - split; [done|]. lia.
  - done.
  - done.
  - done.
  - lia.
Qed.

(** With no turn under way, no thread has one to end. *)
Lemma idle_ends hand s tid l :
  turn_inv hand s -> inflightPromptID (pump s) = 0 -> threads s !! tid = Some l -> ends_of l = [].
Proof.
  intros Hinv Hi Hl. destruct (t_ends _ _ Hinv _ _ Hl) as [?|(_ & _ & ?)]; [done|lia].
Qed.
Lemma idle_rest hand s tid rest :
  turn_inv hand s -> inflightPromptID (pump s) = 0 -> resumes s tid rest -> ends_of rest = [].
Proof.
  intros Hinv Hi Hr. destruct (ends_rest _ _ _ _ Hinv Hr) as [?|(_ & _ & ?)]; [done|lia].
Qed.

(** ** The methods that start turns *)

Lemma turn_client hand s now tid f :
  turn_inv hand s -> threads s !! tid = None ->
  exists hand', turn_inv hand' (spawn tid (fromClient now f (pump s)) s
              <| accepted ::= (fun l => l ++ option_list (accepts f (pump s))) |>).
Proof.
  intros Hinv Ht. pose proof (resumes_new _ _ Ht) as Hr.
  assert (Hquiet : forall p' acts, fromClient now f (pump s) = (p', acts) -> accepts f (pump s) = None ->
    same_turn (pump s) p' -> prompts_of acts = [] -> ends_of acts = [] ->
    exists hand', turn_inv hand' (spawn tid (fromClient now f (pump s)) s
              <| accepted ::= (fun l => l ++ option_list (accepts f (pump s))) |>)).
  { intros p' acts -> -> Hst Hp He. exists hand.
    apply (turn_quiet hand s _ tid [] acts); try done. simpl. by rewrite app_nil_r. }
  destruct f as [f|]; [|eapply Hquiet; try done; unfold same_turn; split_and!; simpl; done || lia].
  destruct (String.eqb (Kind f) "prompt") eqn:Hk.
  2: { destruct (fromClient now (Some f) (pump s)) as [p' acts] eqn:Hf.
       assert (Hac : accepts (Some f) (pump s) = None) by (simpl; by rewrite Hk).
       unfold fromClient in Hf. rewrite Hk in Hf. unfold resolvePermission in Hf.
       repeat case_match; injection Hf as <- <-; eapply Hquiet; try done;
         unfold same_turn; split_and!; simpl; done || lia. }
  destruct Hinv as [H1 H2 H3 H4 H5 H6 H7 H8] eqn:Hinv0. pose proof Hinv as Hinv'. clear Hinv0.
  assert (Hbq : forall p' acts, fromClient now (Some f) (pump s) = (p', acts) ->
     accepts (Some f) (pump s) = Some (Text f) ->
     queue p' = queue (pump s) ++ [Text f] -> busy p' = busy (pump s) ->
     inflightPromptID p' = inflightPromptID (pump s) -> forkBarrier p' = forkBarrier (pump s) ->
     nextID p' = nextID (pump s) -> prompts_of acts = [] -> ends_of acts = [] ->
     plen (queue p') <= maxQueued -> (forkBarrier p' = None -> busy p' = true) ->
     exists hand', turn_inv hand' (spawn tid (fromClient now (Some f) (pump s)) s
              <| accepted ::= (fun l => l ++ option_list (accepts (Some f) (pump s))) |>)).
  { intros p' acts -> -> Eq Eb Ei Ef En Hp He Hlen Hbar. exists hand.
    pose proof (hand_rest _ _ _ _ Hinv Hr) as Hhand.
    split; simpl; rewrite ?Eq, ?Eb, ?Ei, ?Ef, ?En; try done.
    - intros tid' l [[<- <-]|[_ Hl]]%lookup_insert_Some; [|by apply H1].
      by rewrite prompts_of_app, Hp, Hhand.
    - intros t x Hh. destruct (decide (t = tid)) as [->|]; [by rewrite lookup_insert_eq|].
      rewrite lookup_insert_ne by done. by eapply H2.
    - intros tid' l [[<- <-]|[_ Hl]]%lookup_insert_Some; [|by apply H3].
      left. by rewrite ends_of_app, He.
    - by rewrite H5, <- !app_assoc.
    - by rewrite Eq in Hlen.
    - intros Hn Hb. rewrite Ef, Eb in Hbar. rewrite Hbar in Hb; done. }
  destruct (fromClient now (Some f) (pump s)) as [p' acts] eqn:Hf.
  pose proof Hf as Hf0. unfold fromClient, clientPrompt in Hf. rewrite Hk in Hf. simpl in Hf.
  destruct (forkBarrier (pump s)) as [b|] eqn:Hb.
  - destruct (plen (queue (pump s)) <? maxQueued) eqn:Hlen; injection Hf as <- <-.
    + eapply (Hbq _ _ eq_refl); simpl; try done; [by rewrite Hk, Hb, Hlen|].
      rewrite plen_app. apply Z.ltb_lt in Hlen. unfold plen at 2. simpl. lia.
    + eapply Hquiet; [done|simpl; by rewrite Hk, Hb, Hlen| |done|done].
      unfold same_turn. split_and!; simpl; done || lia.
  - destruct (busy (pump s)) eqn:Hbz; simpl in Hf.
    + destruct (plen (queue (pump s)) <? maxQueued) eqn:Hlen; injection Hf as <- <-.
      * eapply (Hbq _ _ eq_refl); simpl; try done; [by rewrite Hk, Hb, Hbz, Hlen|].
        rewrite plen_app. apply Z.ltb_lt in Hlen. unfold plen at 2. simpl. lia.
      * eapply Hquiet; [done|simpl; by rewrite Hk, Hb, Hbz, Hlen| |done|done].
        unfold same_turn. split_and!; simpl; done || lia.
    + injection Hf as <- <-. exists (Some (tid, Text f)). destruct H4 as [-> Hi].
      assert (Hac : accepts (Some f) (pump s) = Some (Text f)) by (simpl; by rewrite Hk, Hb, Hbz).
      apply (turn_takes s _ tid [] (prompt_frames (Text f) 0 ++ [DoSendPrompt (sessionID (pump s)) (Text f)]));
        try done; cbn -[accepts]; rewrite ?Hac; try done.
      * intros tid' l _ Hl. by eapply idle_ends.
      * rewrite (H7 eq_refl eq_refl) in H5 |- *. cbn in H5 |- *. by rewrite H5, app_nil_r.
Qed.

(** The next queued prompt takes the token the last turn gave back; [p0] is the pump after the
    turn fields were cleared. *)
Lemma turn_drains s p0 s' tid rest p acts :
  turn_inv None s -> prompts_of rest = [] -> ends_of rest = [] ->
  (forall tid' l, tid' <> tid -> threads s !! tid' = Some l -> ends_of l = []) ->
  drain p0 = Some (p, acts) -> queue p0 = queue (pump s) -> inflightPromptID p0 = 0 ->
  nextID p0 = nextID (pump s) ->
  pump s' = p -> threads s' = <[tid := acts ++ rest]> (threads s) ->
  accepted s' = accepted s -> started s' = started s ->
  exists text, turn_inv (Some (tid, text)) s'.
Proof.
  intros Hinv Hpr Her Heo Hd Hq Hi Hn Hp Hth Ha Hs. unfold drain in Hd. rewrite Hq in Hd.
  pose proof (t_fifo _ _ Hinv) as Hf. pose proof (t_queue _ _ Hinv) as Hl.
  destruct (queue (pump s)) as [|text q]; [done|]. injection Hd as <- <-. exists text.
  apply (turn_takes s s' tid rest [DoAppend [busy_frame (plen q)]; DoSendPrompt (sessionID p0) text]);
    rewrite ?Hp; simpl; try done.
  - lia.
  - rewrite Ha, Hs. exact Hf.
  - unfold plen in *. simpl in Hl. lia.
Qed.

Lemma turn_ended hand s now tid reason e u rest :
  turn_inv hand s -> threads s !! tid = Some (DoTurnEnd reason e u :: rest) ->
  exists hand', turn_inv hand' (perform now tid (DoTurnEnd reason e u) rest s).
Proof.
  intros Hinv Ht.
  destruct (t_ends _ _ Hinv _ _ Ht) as [Hn|(-> & He & Hi)]; [done|].
  assert (Her : ends_of rest = []) by (simpl in He; by injection He).
  assert (Heo : forall tid' l, tid' <> readLoop -> threads s !! tid' = Some l -> ends_of l = []).
  { intros tid' l Hne Hl. destruct (t_ends _ _ Hinv _ _ Hl) as [?|(? & _)]; done. }
  pose proof (t_hand _ _ Hinv _ _ Ht) as Hhand. simpl in Hhand.
  assert (Hnone : hand = None).
  { pose proof (t_busy _ _ Hinv) as Hb. destruct (busy (pump s)); [by apply Hb|tauto]. }
  subst hand. simpl in Hhand.
  set (p1 := (pump s) <| busy := false |> <| inflightPromptID := 0 |>).
  assert (H1 : forall acts, prompts_of acts = [] -> ends_of acts = [] ->
    queue (pump s) = [] \/ forkBarrier (pump s) <> None ->
    exists hand', turn_inv hand' (then_do readLoop rest (p1, acts) s)).
  { intros acts Hpa Hea Hq. destruct Hinv as [G1 G2 G3 G4 G5 G6 G7 G8]. exists None.
    split; simpl; try done.
    - intros tid' l [[<- <-]|[_ Hl]]%lookup_insert_Some; [|by apply (G1 _ _ Hl)].
      by rewrite prompts_of_app, Hpa, Hhand.
    - intros tid' l [[<- <-]|[Hne Hl]]%lookup_insert_Some; left; [|eapply Heo; [|done]; congruence].
      by rewrite ends_of_app, Hea, Her.
    - intros Hf _. by destruct Hq as [Hq|Hq]. }
  cbn [perform]. unfold handleTurnEnd. fold p1.
  destruct (is_none (forkBarrier p1)) eqn:Hf.
  - destruct (drain p1) as [[p acts]|] eqn:Hd.
    + destruct (turn_drains s p1 (then_do readLoop rest (p, acts) s) readLoop rest p acts) as [text Hx];
        try done. by eexists.
    + apply H1; [done..|]. left. unfold drain in Hd. simpl in Hd. by destruct (queue (pump s)).
  - apply H1; [done..|]. right. simpl in Hf. by destruct (forkBarrier (pump s)).
Qed.

Lemma turn_released hand s tid m :
  turn_inv hand s -> threads s !! tid = None ->
  exists hand', turn_inv hand' (spawn tid (releaseForkBarrier m (pump s)) s).
Proof.
  intros Hinv Ht. pose proof (resumes_new _ _ Ht) as Hr.
  assert (Hq : same_turn (pump s) (pump s) -> exists hand', turn_inv hand' (spawn tid (pump s, []) s)).
  { intros _. exists hand. apply (turn_quiet hand s _ tid [] []); try done. }
  assert (Hrefl : same_turn (pump s) (pump s)) by (unfold same_turn; split_and!; done || lia).
  unfold releaseForkBarrier. destruct (forkBarrier (pump s)) as [b|] eqn:Hb; [|by apply Hq].
  destruct (m b); [|by apply Hq]. clear Hq.
  set (p1 := (pump s) <| forkBarrier := None |>). cbn [busy inflightPromptID].
  assert (Hkeep : (busy (pump s) = false -> queue (pump s) = []) ->
                  exists hand', turn_inv hand' (spawn tid (p1, []) s)).
  { intros Hq. exists hand. destruct Hinv as [G1 G2 G3 G4 G5 G6 G7 G8] eqn:E. clear E.
    pose proof (hand_rest _ _ _ _ Hinv Hr) as Hhand. split; simpl; try done.
    - intros tid' l [[<- <-]|[_ Hl]]%lookup_insert_Some; [done|by apply G1].
    - intros t x Hh. destruct (decide (t = tid)) as [->|]; [by rewrite lookup_insert_eq|].
      rewrite lookup_insert_ne by done. by eapply G2.
    - intros tid' l [[<- <-]|[_ Hl]]%lookup_insert_Some; [by left|by apply G3].
  }
  pose proof (t_busy _ _ Hinv) as Hbz. change (busy p1) with (busy (pump s)).
  change (inflightPromptID p1) with (inflightPromptID (pump s)).
  destruct (busy (pump s)) eqn:Hbusy; simpl.
  { apply Hkeep. done. }
  destruct Hbz as [-> Hi]. rewrite Hi. simpl.
  destruct (drain p1) as [[p acts]|] eqn:Hd; simpl.
  - destruct (turn_drains s p1 (spawn tid (p, acts) s) tid [] p acts) as [text Hx]; try done;
      [|by eexists]. intros tid' l _ Hl. by eapply idle_ends.
  - apply Hkeep. intros _. unfold drain in Hd. simpl in Hd. by destruct (queue (pump s)).
Qed.

(** ** Every step *)

Ltac same_turn_tac := unfold same_turn; simpl; split_and!; (done || lia).

Lemma same_turn_refl p : same_turn p p.
Proof. unfold same_turn. split_and!; done || lia. Qed.

Lemma quiet_resolve r o p :
  same_turn p (resolvePermission r o p).1 /\ prompts_of (resolvePermission r o p).2 = [] /\
  ends_of (resolvePermission r o p).2 = [].
Proof. unfold resolvePermission. destruct (pending p !! r); by split; [same_turn_tac|]. Qed.

Lemma prompts_tells (f : Z -> action) l :
  (forall c, exists d g, f c = DoTell d g) -> prompts_of (f <$> l) = [] /\ ends_of (f <$> l) = [].
Proof.
  intros Hf. induction l as [|c l [IH1 IH2]]; [done|]. destruct (Hf c) as (d & g & Hc).
  rewrite fmap_cons, Hc. simpl. split; [apply IH1|apply IH2].
Qed.

Lemma quiet_perm id opts title t p :
  same_turn p (onPermissionRequest id opts title t p).1 /\
  prompts_of (onPermissionRequest id opts title t p).2 = [] /\
  ends_of (onPermissionRequest id opts title t p).2 = [].
Proof.
  unfold onPermissionRequest. destruct id as [id|]; [|by split; [same_turn_tac|]].
  destruct (stopped p); [by split; [same_turn_tac|]|]. split; [same_turn_tac|].
  apply prompts_tells. eauto.
Qed.

Lemma quiet_timer t p :
  same_turn p (timerFires t p).1 /\ prompts_of (timerFires t p).2 = [] /\
  ends_of (timerFires t p).2 = [].
Proof.
  unfold timerFires. destruct (timers p !! t) as [r|].
  { by destruct (quiet_resolve r "" (p <| timers ::= delete t |>)). }
  by split; [same_turn_tac|].
Qed.

Lemma turn_agent hand s m t :
  turn_inv hand s -> threads s !! readLoop = Some [] ->
  turn_inv hand (spawn readLoop (onAgent m t (pump s)) s).
Proof.
  intros Hinv Ht.
  assert (Hr : resumes s readLoop []) by (right; by exists []).
  assert (Hq : forall p acts, same_turn (pump s) p -> prompts_of acts = [] -> ends_of acts = [] ->
            turn_inv hand (spawn readLoop (p, acts) s)).
  { intros p acts Hs Hp He. by apply (turn_quiet hand s _ readLoop [] acts). }
  pose proof (same_turn_refl (pump s)) as Hrefl.
  unfold onAgent. destruct m as [[id|] x r e u|[f|]|id opts title|]; try (by apply Hq).
  - destruct (waiters (pump s) !! id) as [[y|]|]; [by apply Hq..|].
    destruct (inflightPromptID (pump s) =? 0) eqn:Hi; simpl; [by apply Hq|].
    destruct (id =? inflightPromptID (pump s)); [|by apply Hq].
    pose proof (hand_rest _ _ _ _ Hinv Hr) as Hhand.
    destruct Hinv as [G1 G2 G3 G4 G5 G6 G7 G8]. split; simpl; try done.
    + intros tid' l [[<- <-]|[_ Hl]]%lookup_insert_Some; [done|by apply G1].
    + intros t' y Hh. destruct (decide (t' = readLoop)) as [->|]; [by rewrite lookup_insert_eq|].
      rewrite lookup_insert_ne by done. by eapply G2.
    + intros tid' l [[<- <-]|[_ Hl]]%lookup_insert_Some; [right|by apply G3].
      split_and!; [done..|]. by apply Z.eqb_neq.
  - destruct (quiet_perm id opts title t (pump s)) as (? & ? & ?).
    destruct (onPermissionRequest _ _ _ _ _) as [p acts]. by apply Hq.
Qed.

Lemma turn_performs hand s now tid a rest :
  turn_inv hand s -> threads s !! tid = Some (a :: rest) ->
  exists hand', turn_inv hand' (perform now tid a rest s).
Proof.
  intros Hinv Ht.
  assert (Hq : forall s', same_turn (pump s) (pump s') -> prompts_of [a] = [] -> ends_of [a] = [] ->
    threads s' = <[tid := rest]> (threads s) -> accepted s' = accepted s -> started s' = started s ->
    exists hand', turn_inv hand' s').
  { intros s' Hs Hp He Hth Ha Hst. exists hand.
    apply (turn_quiet hand s s' tid rest []); try done. by eapply resumes_next. }
  destruct a as [fs|sid text|line|r e u|c f|c]; cbn [perform]; try (by apply Hq).
  - apply Hq; try done.
    destruct (appendFrames_quiet now fs (pump s)) as (_ & ? & ? & ? & ? & ? & _).
    unfold same_turn. simpl. split_and!; try done. lia.
  - exists None. pose proof (t_hand _ _ Hinv _ _ Ht) as Hh. simpl in Hh.
    destruct hand as [[t x]|]; simpl in Hh; [|done].
    destruct (decide (t = tid)) as [->|]; [|done]. injection Hh as <- Hrest.
    destruct Hinv as [G1 G2 G3 G4 G5 G6 G7 G8].
    assert (Hb : busy (pump s) = true /\ inflightPromptID (pump s) = 0).
    { destruct (busy (pump s)); [|by destruct G4]. split; [done|]. destruct (decide (inflightPromptID (pump s) = 0)); [done|].
      by apply G4 in n. }
    destruct Hb as [Hb Hi]. rewrite Hb, Hi in *. simpl in *.
    split; simpl; rewrite ?Hb; try done.
    + intros tid' l [[<- <-]|[Hne Hl]]%lookup_insert_Some; [done|].
      specialize (G1 _ _ Hl). by rewrite decide_False in G1.
    + intros tid' l [[<- <-]|[Hne Hl]]%lookup_insert_Some; left.
      * destruct (G3 _ _ Ht) as [He|(_ & _ & ?)]; [done|lia].
      * destruct (G3 _ _ Hl) as [He|(_ & _ & ?)]; [done|lia].
    + split; [lia|done].
    + by rewrite G5, <- app_assoc.
    + lia.
  - by apply (turn_ended hand s now tid r e u rest).
Qed.

Lemma turn_step hand s s' : turn_inv hand s -> step s s' -> exists hand', turn_inv hand' s'.
Proof.
  intros Hinv Hst.
  assert (Hnew : forall tid pa, threads s !! tid = None -> same_turn (pump s) pa.1 ->
    prompts_of pa.2 = [] -> ends_of pa.2 = [] -> exists hand', turn_inv hand' (spawn tid pa s)).
  { intros tid [p acts] Ht Hs Hp He. exists hand.
    apply (turn_quiet hand s _ tid [] acts); try done. by apply resumes_new. }
  assert (Hstill : forall s0, same_turn (pump s) (pump s0) -> threads s0 = threads s ->
    accepted s0 = accepted s -> started s0 = started s -> exists hand', turn_inv hand' s0).
  { intros s0 Hs Hth Ha Hst0. exists hand. by eapply turn_still. }
  pose proof (same_turn_refl (pump s)) as Hrefl.
  destruct Hst as [now tid a rest Ht|tid line rest Ht Hstop|c s' Hlp|m t Ht Htm Hw|now tid f Ht
    |tid id cur c Ht Hc|id|tid t Ht|tid method Ht|id|tid sid modes Ht|b|b|tid m Ht|].
  - by apply (turn_performs hand).
  - exists hand. apply (turn_quiet hand s _ tid rest []); try done. by eapply resumes_next.
  - destruct Hlp; apply Hstill; try done. simpl. unfold catch_up in *.
    destruct (heap (pump s) !! c); by simplify_eq.
  - exists hand. by apply turn_agent.
  - by apply (turn_client hand).
  - exists hand. destruct (attachClient id cur c (pump s)) as [p acts] eqn:Ha.
    assert (Hacts : same_turn (pump s) p /\ prompts_of acts = [] /\ ends_of acts = []).
    { unfold attachClient in Ha. injection Ha as <- <-. split_and!.
      - by destruct (clients (pump s) !! id).
      - rewrite prompts_of_app. simpl. rewrite app_nil_r. by induction (map_to_list _).
      - rewrite ends_of_app. simpl. rewrite app_nil_r. by induction (map_to_list _). }
    destruct Hacts as (? & ? & ?).
    apply (turn_quiet hand s _ tid [] acts); try done. by apply resumes_new.
  - apply Hstill; try done. simpl. unfold detachClient. by destruct (clients (pump s) !! id).
  - destruct (quiet_timer t (pump s)) as (? & ? & ?). by apply Hnew.
  - apply Hnew; try done. unfold same_turn. simpl. split_and!; done || lia.
  - by apply Hstill.
  - apply Hnew; try done; by destruct modes.
  - exists hand. destruct Hinv as [G1 G2 G3 G4 G5 G6 G7 G8]. unfold tryAcquireForkBarrier.
    destruct (forkBarrier (pump s)) as [b'|] eqn:Hb; split; simpl; try done. by rewrite Hb.
  - exists hand. by destruct Hinv as [G1 G2 G3 G4 G5 G6 G7 G8]; split.
  - by apply (turn_released hand).
  - apply Hstill; try done. simpl. unfold stop. by destruct (stopped (pump s)).
Qed.

Lemma reachable_turn now s : reachable now s -> exists hand, turn_inv hand s.
Proof.
  induction 1 as [|s s' _ [hand IH] Hst]; [exists None; apply turn_new|by eapply turn_step].
Qed.

(** ** The prompts on their way to the agent

    [sendPrompt] numbers a prompt under the lock and hands its line to the writer after it: a
    line is written, or in the hands of a thread, or lost because the pump has stopped. *)

Definition prompt_line (l : AgentLine) : option (Z * string) :=
  match l with LPrompt id _ text => Some (id, text) | _ => None end.
Definition lines_of (l : list action) : list (Z * string) :=
  omap (fun a => match a with DoSendLine line => prompt_line line | _ => None end) l.
(** The prompts the agent was written, and those about to be. *)
Definition written (s : System) : list (Z * string) := omap prompt_line (toAgent (pump s)).
Definition in_flight (th : gmap Z (list action)) : list (Z * string) :=
  concat ((fun tl : Z * list action => lines_of tl.2) <$> map_to_list th).

Record sends_inv (l : list (Z * string)) (s : System) : Prop := {
  sd_started : l.*2 = started s;
  sd_sorted : StronglySorted Z.lt l.*1;
  sd_below : Forall (fun n => n <= nextID (pump s)) l.*1;
  sd_lines : exists lost, written s ++ in_flight (threads s) ++ lost ≡ₚ l /\
    (stopped (pump s) = false -> lost = [])
}.

Lemma lines_of_app l l' : lines_of (l ++ l') = lines_of l ++ lines_of l'.
Proof. apply omap_app. Qed.

Lemma in_flight_insert th tid l :
  in_flight (<[tid := l]> th) ≡ₚ lines_of l ++ in_flight (delete tid th).
Proof.
  unfold in_flight. rewrite <- insert_delete_eq, map_to_list_insert by apply lookup_delete_eq. done.
Qed.
Lemma in_flight_delete th tid :
  in_flight th ≡ₚ lines_of (default [] (th !! tid)) ++ in_flight (delete tid th).
Proof.
  destruct (th !! tid) as [l|] eqn:Ht; cbn.
  - unfold in_flight. by rewrite <- (map_to_list_delete th tid l) by done.
  - by rewrite delete_id.
Qed.

(** A step that gives thread [tid] the lines [new]; [gone] are those it leaves behind. *)
Lemma in_flight_step th tid l gone new :
  gone ++ lines_of l ≡ₚ new ++ lines_of (default [] (th !! tid)) ->
  gone ++ in_flight (<[tid := l]> th) ≡ₚ new ++ in_flight th.
Proof.
  intros Hl. rewrite in_flight_insert, (in_flight_delete th tid). rewrite !(assoc_L (++)). by rewrite Hl.
Qed.

(** The fields that everything but sending a prompt leaves alone. *)
Definition same_lines (p p' : Pump) : Prop :=
  toAgent p' = toAgent p /\ nextID p <= nextID p' /\ (stopped p' = false -> stopped p = false).

Lemma sends_quiet l s s' tid acts :
  sends_inv l s -> same_lines (pump s) (pump s') -> started s' = started s ->
  threads s' = <[tid := acts]> (threads s) ->
  lines_of acts = lines_of (default [] (threads s !! tid)) -> sends_inv l s'.
Proof.
  intros [H1 H2 H3 (lost & H4 & H5)] (Ea & En & Es) Est Hth Hl. split; [congruence|done| |].
  - eapply Forall_impl; [exact H3|]. intros n ?. simpl in *. lia.
  - exists lost. split; [|auto]. unfold written. rewrite Ea, Hth.
    rewrite (in_flight_step (threads s) tid acts [] []); [done|]. by rewrite Hl.
Qed.
Lemma sends_still l s s' :
  sends_inv l s -> same_lines (pump s) (pump s') -> started s' = started s -> threads s' = threads s ->
  sends_inv l s'.
Proof.
  intros [H1 H2 H3 (lost & H4 & H5)] (Ea & En & Es) Est Hth. split; [congruence|done| |].
  - eapply Forall_impl; [exact H3|]. intros n ?. simpl in *. lia.
  - exists lost. split; [|auto]. unfold written. by rewrite Ea, Hth.
Qed.

Lemma sends_new now : sends_inv [] (new_system now).
Proof. split; simpl; [done|constructor|constructor|]. by exists []. Qed.

(** A method that hands no line over, ends no turn and leaves the prompt in flight. *)
Definition no_lines (p : Pump) (pa : Pump * list action) : Prop :=
  same_lines p pa.1 /\ lines_of pa.2 = [] /\ ends_of pa.2 = [] /\
  inflightPromptID pa.1 = inflightPromptID p.
Ltac no_lines_tac := unfold no_lines, same_lines; split_and!; simpl; (done || lia).

Lemma lines_resolve r o p : no_lines p (resolvePermission r o p).
Proof. unfold resolvePermission. case_match; no_lines_tac. Qed.
Lemma lines_drain p pa : drain p = Some pa -> no_lines p pa.
Proof. unfold drain. case_match; [done|]. intros [= <-]. no_lines_tac. Qed.
Lemma lines_turn_end r e u p :
  no_lines (p <| busy := false |> <| inflightPromptID := 0 |>) (handleTurnEnd r e u p).
Proof.
  unfold handleTurnEnd. set (p0 := p <| busy := false |> <| inflightPromptID := 0 |>).
  destruct (if is_none (forkBarrier p0) then drain p0 else None) as [pa|] eqn:Hd; [|no_lines_tac].
  case_match; [|done]. by apply lines_drain.
Qed.
Lemma lines_client now f p : no_lines p (fromClient now f p).
Proof.
  destruct f as [f|]; [|no_lines_tac]. unfold fromClient. repeat case_match; try no_lines_tac.
  - unfold clientPrompt, enqueue. repeat case_match; no_lines_tac.
  - by destruct (lines_resolve (ReqID f) (fOptionID f) (p <| lastActivity := now |>)) as [(? & ? & ?) ?].
Qed.
Lemma lines_tells (cs : list Z) f :
  lines_of ((fun c => DoTell c f) <$> cs) = [] /\ ends_of ((fun c => DoTell c f) <$> cs) = [].
Proof. by induction cs. Qed.
Lemma lines_permission id opts title t p : no_lines p (onPermissionRequest id opts title t p).
Proof.
  unfold onPermissionRequest. case_match; [|no_lines_tac]. case_match; [no_lines_tac|].
  unfold no_lines, same_lines. split_and!; cbn; try done; apply lines_tells.
Qed.
Lemma lines_agent m t p :
  no_lines p (onAgent m t p) \/
  inflightPromptID p <> 0 /\ exists r e u, onAgent m t p = (p, [DoTurnEnd r e u]).
Proof.
  destruct m as [[id|] x r e u|[f|]|id opts title|]; cbn [onAgent]; try (left; no_lines_tac).
  - repeat case_match; try (left; no_lines_tac). right. brefl. split; [tauto|by eexists _, _, _].
  - left. apply lines_permission.
Qed.
Lemma lines_timer t p : no_lines p (timerFires t p).
Proof.
  unfold timerFires. case_match; [|no_lines_tac].
  by destruct (lines_resolve s "" (p <| timers ::= delete t |>)) as [(? & ? & ?) ?].
Qed.
Lemma lines_release m p : no_lines p (releaseForkBarrier m p).
Proof.
  unfold releaseForkBarrier. repeat case_match; try no_lines_tac.
  set (p1 := p <| forkBarrier := None |>). destruct (drain p1) as [pa|] eqn:Hd; [|no_lines_tac].
  exact (lines_drain p1 pa Hd).
Qed.
Lemma lines_attach id cur c p : no_lines p (attachClient id cur c p).
Proof.
  unfold attachClient, no_lines. cbn. split_and!; [case_match; unfold same_lines; split_and!; done || lia| | |by case_match].
  - rewrite lines_of_app. cbn. rewrite app_nil_r. by induction (map_to_list _).
  - rewrite ends_of_app. cbn. rewrite app_nil_r. by induction (map_to_list _).
Qed.
Lemma lines_append now fs p : no_lines p (appendFrames now fs p, []).
Proof. unfold appendFrames. destruct fs; [no_lines_tac|]. cbn. destruct (0 <? _); no_lines_tac. Qed.

Lemma sends_performs l s now tid a rest :
  sends_inv l s -> threads s !! tid = Some (a :: rest) -> exists l', sends_inv l' (perform now tid a rest s).
Proof.
  intros Hi Ht.
  assert (forall s' p acts, same_lines (pump s) p -> lines_of acts = [] -> lines_of [a] = [] ->
    pump s' = p -> threads s' = <[tid := acts ++ rest]> (threads s) -> started s' = started s ->
    exists l', sends_inv l' s') as Hq.
  { intros s' p acts Hs Hl Ha Hp Hth Hst. exists l. apply (sends_quiet l s s' tid (acts ++ rest)); try done.
    - by rewrite Hp.
    - rewrite Ht, lines_of_app, Hl. change (lines_of rest = lines_of ([a] ++ rest)). by rewrite lines_of_app, Ha. }
  destruct a as [fs|sid text|line|r e u|c f|c]; cbn [perform].
  - apply (Hq _ (appendFrames now fs (pump s)) []); try done. apply (lines_append now fs).
  - destruct Hi as [H1 H2 H3 (lost & H4 & H5)]. exists (l ++ [(nextID (pump s) + 1, text)]). split; cbn.
    + by rewrite fmap_app, H1.
    + rewrite fmap_app. apply StronglySorted_app_2; [|done|repeat constructor].
      intros x y Hx ->%list_elem_of_singleton. rewrite Forall_forall in H3. specialize (H3 _ Hx). simpl in *. lia.
    + rewrite fmap_app. apply Forall_app. split; [|apply Forall_singleton; cbn; lia].
      eapply Forall_impl; [exact H3|]. intros n ?. simpl in *. lia.
    + exists lost. split; [|done].
      pose proof (in_flight_step (threads s) tid (DoSendLine (LPrompt (nextID (pump s) + 1) sid text) :: rest)
        [] [(nextID (pump s) + 1, text)]) as Hf. rewrite Ht in Hf. cbn in Hf. specialize (Hf ltac:(done)).
      rewrite Hf, <- H4. unfold written. cbn. solve_Permutation.
  - destruct Hi as [H1 H2 H3 (lost & H4 & H5)]. exists l. split; cbn; [done..|]. exists lost. split; [|done].
    unfold written. cbn. rewrite omap_app, <- H4. unfold written.
    pose proof (in_flight_step (threads s) tid rest (option_list (prompt_line line)) []) as Hf.
    rewrite Ht in Hf. cbn in *. rewrite <- Hf by (by destruct (prompt_line line)).
    destruct (prompt_line line); cbn; by rewrite <- ?(assoc_L (++)).
  - destruct (lines_turn_end r e u (pump s)) as ((? & ? & ?) & ? & ?). by eapply Hq.
  - by apply (Hq _ (pump s) []).
  - by apply (Hq _ (wake c (pump s)) []).
Qed.

Lemma sends_drop l s tid line rest :
  sends_inv l s -> threads s !! tid = Some (DoSendLine line :: rest) -> stopped (pump s) = true ->
  sends_inv l (drop_line tid rest s).
Proof.
  intros [H1 H2 H3 (lost & H4 & H5)] Ht Hst. split; [done..|].
  exists (option_list (prompt_line line) ++ lost). split; [|cbn; congruence].
  rewrite <- H4. cbn. pose proof (in_flight_step (threads s) tid rest (option_list (prompt_line line)) []) as Hf.
  rewrite Ht in Hf. cbn in Hf. rewrite <- Hf by (by destruct (prompt_line line)). unfold written. cbn. solve_Permutation.
Qed.

Lemma sends_step l s s' : sends_inv l s -> step s s' -> exists l', sends_inv l' s'.
Proof.
  intros Hi Hst.
  assert (forall tid pa s1, threads s !! tid = None \/ threads s !! tid = Some [] ->
    no_lines (pump s) pa ->
    pump s1 = pa.1 -> threads s1 = <[tid := pa.2 ++ []]> (threads s) -> started s1 = started s ->
    exists l', sends_inv l' s1) as Hnew.
  { intros tid pa s1 Ht (Hs & Hl & _) Hp Hth Hst1. exists l. apply (sends_quiet l s s1 tid (pa.2 ++ [])); try done.
    - by rewrite Hp.
    - rewrite app_nil_r, Hl. by destruct Ht as [-> | ->]. }
  assert (forall s1, same_lines (pump s) (pump s1) -> started s1 = started s -> threads s1 = threads s ->
    exists l', sends_inv l' s1) as Hstill by (intros; exists l; by eapply sends_still).
  destruct Hst as [now tid a rest Ht|tid line rest Ht Hstop|c s' Hlp|m t Ht Htm Hw|now tid f Ht
    |tid id cur c Ht Hc|id|tid t Ht|tid method Ht|id|tid sid modes Ht|b|b|tid m Ht|].
  - by eapply sends_performs.
  - exists l. by eapply sends_drop.
  - destruct Hlp; apply Hstill; try done; try no_lines_tac; cbn. unfold catch_up in *.
    destruct (heap (pump s) !! c); simplify_eq; no_lines_tac.
  - destruct (lines_agent m t (pump s)) as [Hn|(_ & r & e & u & Heq)]; [by eapply (Hnew readLoop); [right| |..]|].
    exists l. apply (sends_quiet l s _ readLoop [DoTurnEnd r e u]); try done; [..|by rewrite Ht];
      unfold spawn, then_do; rewrite Heq; first [done|no_lines_tac].
  - eapply (Hnew tid); [by left|apply lines_client|done..].
  - eapply (Hnew tid); [by left|apply lines_attach|done..].
  - apply Hstill; try done. cbn. unfold detachClient. case_match; no_lines_tac.
  - eapply (Hnew tid); [by left|apply lines_timer|done..].
  - apply (Hnew tid (call method (pump s))); [by left|no_lines_tac|done..].
  - apply Hstill; try done; no_lines_tac.
  - apply (Hnew tid (start_session sid modes (pump s))); [by left|by destruct modes; no_lines_tac|done..].
  - apply Hstill; try done. cbn. unfold tryAcquireForkBarrier. case_match; no_lines_tac.
  - apply Hstill; try done; no_lines_tac.
  - eapply (Hnew tid); [by left|apply lines_release|done..].
  - apply Hstill; try done. cbn. unfold stop. case_match; no_lines_tac.
Qed.

Lemma reachable_sends now s : reachable now s -> exists l, sends_inv l s.
Proof.
  induction 1 as [|s s' _ [l IH] Hst]; [exists []; apply sends_new|by eapply sends_step].
Qed.

(** ** The order in which the agent reads them

    An agent that ends a turn only after it was sent the turn's prompt reads the prompts in the
    order of their numbers: no thread hands a prompt over while another still has one. *)

(** The read loop takes up the result of the prompt in flight. *)
Definition begins_end (s s' : System) : Prop :=
  threads s !! readLoop = Some [] /\ ends_of (default [] (threads s' !! readLoop)) <> [].
Inductive polite (now : Z) : System -> Prop :=
| polite_new : polite now (new_system now)
| polite_step s s' : polite now s -> step s s' ->
    (begins_end s s' -> inflightPromptID (pump s) ∈ (written s).*1) -> polite now s'.
Lemma polite_reachable now s : polite now s -> reachable now s.
Proof. induction 1 as [|s s' _ IH Hst _]; [constructor|by eapply reach_step]. Qed.

Definition no_ends (s : System) : Prop := forall tid l, threads s !! tid = Some l -> ends_of l = [].
Definition order_inv (s : System) : Prop :=
  stopped (pump s) = false -> exists t : option (Z * string),
    in_flight (threads s) = option_list t /\
    StronglySorted Z.lt (written s ++ option_list t).*1 /\
    (written s ++ option_list t).*2 = started s /\
    (forall x, t = Some x -> x.1 = inflightPromptID (pump s) /\ x.1 <> 0 /\ no_ends s).

Lemma order_new now : order_inv (new_system now).
Proof. intros _. exists None. split_and!; cbn; try done. constructor. Qed.

Lemma in_flight_option th t : in_flight th ≡ₚ option_list t -> in_flight th = option_list t.
Proof.
  destruct t as [x|]; cbn; [by intros ->%Permutation_singleton_r|by intros ->%Permutation_nil_r].
Qed.

Lemma order_quiet s s' :
  order_inv s -> same_lines (pump s) (pump s') -> started s' = started s ->
  in_flight (threads s') ≡ₚ in_flight (threads s) ->
  (no_ends s -> inflightPromptID (pump s') = inflightPromptID (pump s) /\ no_ends s') ->
  order_inv s'.
Proof.
  intros Ho (Ea & _ & Es) Est Hf Hx Hs. destruct (Ho (Es Hs)) as (t & H1 & H2 & H3 & H4).
  exists t. split; [apply in_flight_option; by rewrite Hf, H1|]. unfold written in *. rewrite Ea.
  split_and!; [done|congruence|]. intros x ->. destruct (H4 x eq_refl) as (Hi & Hn & He).
  destruct (Hx He) as [-> Hne]. auto.
Qed.
(** A thread goes on with what a quiet method leaves it, before [rest]. *)
Lemma order_method s s' tid pa rest :
  order_inv s -> no_lines (pump s) pa ->
  (threads s !! tid = None /\ rest = [] \/
   exists a, threads s !! tid = Some (a :: rest) /\ lines_of [a] = []) \/ threads s !! tid = Some rest ->
  pump s' = pa.1 -> threads s' = <[tid := pa.2 ++ rest]> (threads s) -> started s' = started s ->
  order_inv s'.
Proof.
  intros Ho (Hl & Hq & He & Hi) Ht Hp Hth Hst.
  assert (lines_of rest = lines_of (default [] (threads s !! tid)) /\ (no_ends s -> ends_of rest = [])) as [Hr Hn].
  { destruct Ht as [[[-> ->]|(a & Ht & Ha)]|Ht]; [done| |].
    - rewrite Ht. split.
      + change (lines_of rest = lines_of ([a] ++ rest)). by rewrite lines_of_app, Ha.
      + intros Hn. specialize (Hn _ _ Ht). change (ends_of ([a] ++ rest) = []) in Hn.
        rewrite ends_of_app in Hn. by apply app_eq_nil in Hn as [_ ?].
    - rewrite Ht. split; [done|]. intros Hn. by eapply Hn. }
  apply (order_quiet s); [done|by rewrite Hp|done| |].
  - rewrite Hth. rewrite (in_flight_step (threads s) tid (pa.2 ++ rest) [] []); [done|].
    by rewrite lines_of_app, Hq, Hr.
  - intros Hno. split; [by rewrite Hp|]. intros tid' l. rewrite Hth.
    intros [[<- <-]|[_ Hl']]%lookup_insert_Some; [|by eapply Hno]. by rewrite ends_of_app, He, Hn.
Qed.
Lemma order_still s s' :
  order_inv s -> same_lines (pump s) (pump s') -> started s' = started s -> threads s' = threads s ->
  inflightPromptID (pump s') = inflightPromptID (pump s) -> order_inv s'.
Proof.
  intros Ho Hs Hst Hth Hi. apply (order_quiet s); [done..|by rewrite Hth|]. intros Hn. split; [done|].
  unfold no_ends. by rewrite Hth.
Qed.

(** A number in flight has not been written. *)
Lemma order_idle s : order_inv s -> stopped (pump s) = false ->
  inflightPromptID (pump s) ∈ (written s).*1 -> in_flight (threads s) = [].
Proof.
  intros Ho Hs Hin. destruct (Ho Hs) as ([x|] & H1 & H2 & _ & H4); [|done].
  destruct (H4 x eq_refl) as (Hi & _). rewrite fmap_app in H2.
  pose proof (StronglySorted_app_1_elem_of _ _ _ _ _ H2 Hin (list_elem_of_here _ _)) as Hlt. cbn in Hlt. lia.
Qed.

Lemma order_performs hand l s now tid a rest :
  turn_inv hand s -> sends_inv l s -> order_inv s -> threads s !! tid = Some (a :: rest) ->
  order_inv (perform now tid a rest s).
Proof.
  intros Ht Hsd Ho Hth.
  assert (forall s' pa, no_lines (pump s) pa -> lines_of [a] = [] -> pump s' = pa.1 ->
    threads s' = <[tid := pa.2 ++ rest]> (threads s) -> started s' = started s -> order_inv s') as Hq.
  { intros s' pa Hn Ha Hp Hths Hst. eapply (order_method s s' tid pa rest); eauto. }
  destruct a as [fs|sid text|line|r e u|c f|c]; cbn [perform].
  - apply (Hq _ (appendFrames now fs (pump s), [])); try done. apply lines_append.
  - intros Hs. cbn in Hs. destruct (Ho Hs) as (t & H1 & H2 & H3 & H4).
    pose proof (t_hand _ _ Ht _ _ Hth) as Hh. cbn in Hh. destruct hand as [[t' x]|]; [|done].
    pose proof (t_busy _ _ Ht) as Hb.
    assert (inflightPromptID (pump s) = 0) as Hi.
    { destruct (busy (pump s)); [|by destruct Hb]. destruct (decide (inflightPromptID (pump s) = 0)) as [|Hn]; [done|].
      by apply Hb in Hn. }
    assert (t = None) as -> by (destruct t as [y|]; [destruct (H4 y eq_refl) as (? & ? & _); lia|done]).
    pose proof (t_next _ _ Ht) as Hnext.
    exists (Some (nextID (pump s) + 1, text)). cbn. split_and!.
    + apply (in_flight_option _ (Some _)). cbn.
      pose proof (in_flight_step (threads s) tid (DoSendLine (LPrompt (nextID (pump s) + 1) sid text) :: rest)
        [] [(nextID (pump s) + 1, text)]) as Hf. rewrite Hth in Hf. cbn in Hf. specialize (Hf ltac:(done)).
      rewrite H1 in Hf. exact Hf.
    + cbn in H2. rewrite app_nil_r in H2. rewrite fmap_app. apply StronglySorted_app_2; [|done|repeat constructor].
      intros n m Hn ->%list_elem_of_singleton. destruct Hsd as [_ _ Hbl (lost & Hp & _)].
      assert (n ∈ l.*1) as Hnl by (rewrite <- Hp, fmap_app; set_solver).
      rewrite Forall_forall in Hbl. specialize (Hbl _ Hnl). simpl in *. lia.
    + rewrite fmap_app, <- H3. cbn. by rewrite app_nil_r.
    + intros y [= <-]. cbn. split_and!; [done|lia|].
      intros tid' l'. cbn. intros [[<- <-]|[_ Hl']]%lookup_insert_Some.
      * by eapply (idle_ends _ _ _ _ Ht) in Hth.
      * by eapply (idle_ends _ _ _ _ Ht).
  - intros Hs. cbn in Hs. destruct (Ho Hs) as (t & H1 & H2 & H3 & H4).
    pose proof (in_flight_step (threads s) tid rest (option_list (prompt_line line)) []) as Hf.
    rewrite Hth in Hf. cbn in Hf. specialize (Hf ltac:(by destruct (prompt_line line))). rewrite H1 in Hf.
    unfold written in *. cbn. rewrite omap_app. cbn. destruct (prompt_line line) as [x|] eqn:Hx; cbn in *.
    + destruct t as [y|]; cbn in Hf; [|by apply Permutation_nil_r in Hf].
      apply Permutation_singleton_r in Hf. injection Hf as -> Hf. exists None. rewrite app_nil_r.
      split_and!; [done..|]. by intros.
    + exists t. rewrite app_nil_r. split_and!; [by apply in_flight_option|done|done|].
      intros y ->. destruct (H4 y eq_refl) as (Hi & Hn & He). split_and!; [done|done|].
      intros tid' l'. cbn. intros [[<- <-]|[_ Hl']]%lookup_insert_Some; [|by eapply He]. by specialize (He _ _ Hth).
  - destruct (lines_turn_end r e u (pump s)) as ((Ea & En & Es) & Hq1 & Hq2 & Hi).
    apply (order_quiet s); [done|done|done| |].
    + apply (in_flight_step (threads s) tid _ [] []). rewrite Hth. cbn. by rewrite lines_of_app, Hq1.
    + intros Hno. by specialize (Hno _ _ Hth).
  - by apply (Hq _ (pump s, [])).
  - by apply (Hq _ (wake c (pump s), [])).
Qed.

Lemma order_drop s tid rest :
  order_inv s -> stopped (pump s) = true -> order_inv (drop_line tid rest s).
Proof. intros _ Hs Hs'. cbn in Hs'. congruence. Qed.

Lemma order_step hand l s s' :
  turn_inv hand s -> sends_inv l s -> order_inv s -> step s s' ->
  (begins_end s s' -> inflightPromptID (pump s) ∈ (written s).*1) -> order_inv s'.
Proof.
  intros Htn Hsd Ho Hst Hpol.
  assert (forall tid pa s1, threads s !! tid = None \/ threads s !! tid = Some [] -> no_lines (pump s) pa ->
    pump s1 = pa.1 -> threads s1 = <[tid := pa.2 ++ []]> (threads s) -> started s1 = started s -> order_inv s1) as Hnew.
  { intros tid pa s1 Ht Hn Hp Hth Hst1. eapply (order_method s s1 tid pa []); try done.
    destruct Ht; [left; by left|by right]. }
  assert (forall s1, same_lines (pump s) (pump s1) -> started s1 = started s -> threads s1 = threads s ->
    inflightPromptID (pump s1) = inflightPromptID (pump s) -> order_inv s1) as Hstill
    by (intros; by eapply order_still).
  destruct Hst as [now tid a rest Ht|tid line rest Ht Hstop|c s' Hlp|m t Ht Htm Hw|now tid f Ht
    |tid id cur c Ht Hc|id|tid t Ht|tid method Ht|id|tid sid modes Ht|b|b|tid m Ht|].
  - by eapply order_performs.
  - by eapply order_drop.
  - destruct Hlp; apply Hstill; try done; try no_lines_tac; cbn; unfold catch_up in *;
      destruct (heap (pump s) !! c); simplify_eq; try no_lines_tac; done.
  - destruct (lines_agent m t (pump s)) as [Hn|(Hi & r & e & u & Heq)]; [by eapply (Hnew readLoop); [right| |..]|].
    unfold spawn, then_do in *. rewrite Heq in *. cbn in *.
    intros Hs. cbn in Hs. destruct (Ho Hs) as (t0 & H1 & H2 & H3 & H4).
    assert (in_flight (threads s) = []) as Hnil.
    { apply order_idle; [done..|]. apply Hpol. split; [done|]. cbn. by rewrite lookup_insert_eq. }
    rewrite Hnil in H1. assert (t0 = None) as -> by (by destruct t0). exists None. split_and!; [|done..|by intros].
    apply (in_flight_option _ None). cbn. transitivity (in_flight (threads s)); [|by rewrite Hnil].
    apply (in_flight_step (threads s) readLoop _ [] []). by rewrite Ht.
  - eapply (Hnew tid); [by left|apply lines_client|done..].
  - eapply (Hnew tid); [by left|apply lines_attach|done..].
  - apply Hstill; try done; cbn; unfold detachClient; case_match; (done || no_lines_tac).
  - eapply (Hnew tid); [by left|apply lines_timer|done..].
  - apply (Hnew tid (call method (pump s))); [by left|no_lines_tac|done..].
  - apply Hstill; try done; no_lines_tac.
  - apply (Hnew tid (start_session sid modes (pump s))); [by left|by destruct modes; no_lines_tac|done..].
  - apply Hstill; try done; cbn; unfold tryAcquireForkBarrier; case_match; (done || no_lines_tac).
  - apply Hstill; try done; no_lines_tac.
  - eapply (Hnew tid); [by left|apply lines_release|done..].
  - apply Hstill; try done; cbn; unfold stop; case_match; (done || no_lines_tac).
Qed.

Lemma polite_order now s : polite now s -> order_inv s.
Proof.
  induction 1 as [|s s' Hp IH Hst Hpol]; [apply order_new|].
  destruct (reachable_turn _ _ (polite_reachable _ _ Hp)) as [hand Ht].
  destruct (reachable_sends _ _ (polite_reachable _ _ Hp)) as [l Hl]. by eapply order_step.
Qed.
