(* ===== verification/PumpContract.v ===== *)
(** * The contract of the relay

    What clients and the agent can rely on, for every interleaving of the relay's goroutines. *)

From S2P Require Import Prelude GoLib Pump PumpLog PumpTurns.
(** ** Helpers *)

Definition reset_to (b : Z) : Frame := (frame "reset") <| FromSeq := b |>.

(** What a client displays: the frames after the last reset it was sent. *)
Lemma stream_view h c0 l n :
  stream h c0 l n -> n <= plen h ->
  exists pre b suf, l = pre ++ suf /\
    (pre = [] /\ b = c0 \/ exists pre', pre = pre' ++ [reset_to b]) /\
    (suf = [] /\ n = b \/ 0 <= b /\ suf ++ drop (Z.to_nat n) h = drop (Z.to_nat b) h).
Proof.
  induction 1 as [|l n f Hs IH Hn Hf|l n b Hs IH]; intros Hle.
  - exists [], c0, []. split_and!; [done|by left|by left].
  - destruct IH as (pre & b & suf & -> & Hpre & Hsuf); [lia|].
    assert (Hd : drop (Z.to_nat n) h = f :: drop (Z.to_nat (n + 1)) h).
    { rewrite (drop_S _ f) by done. do 2 f_equal. lia. }
    exists pre, b, (suf ++ [f]). split_and!; [by rewrite app_assoc|done|]. right.
    destruct Hsuf as [[-> <-]|[Hb Hsuf]]; [by rewrite Hd|]. split; [done|].
    rewrite <- Hsuf, Hd. by rewrite <- app_assoc.
  - exists (l ++ [reset_to b]), b, []. split_and!; [by rewrite app_nil_r|right; eauto|by left].
Qed.

(** ** Theorems *)

(** The log is a faithful window: frames carry their position in the conversation, the log
    holds the most recent of them (at most 2000) without a gap, and a subscriber whose cursor lies
    in the window is sent exactly the frames it has not seen, never a reset. *)
Theorem log_is_a_window now s :
  reachable now s ->
  numbered (hist s) /\ log (pump s) = drop (Z.to_nat (base (pump s))) (hist s) /\
  seq (pump s) = plen (hist s) /\ plen (log (pump s)) <= 2000 /\
  forall c cl, heap (pump s) !! c = Some cl -> base (pump s) <= cursor cl <= seq (pump s) ->
    (catch_up c (pump s)).1 = drop (Z.to_nat (cursor cl)) (hist s).
Proof.
  intros Hr. pose proof (r_log _ (reachable_relay _ _ Hr)) as Hl. pose proof Hl as [? ? ? ? Hm Hmax ?].
  split_and!; [done..|by rewrite Hmax in Hm|]. intros c cl Hcl Hcur.
  destruct (catch_up c (pump s)) as [fs p'] eqn:Hcu.
  by destruct (catch_up_spec c (pump s) (hist s) cl fs p' (cursor cl) [] Hl Hcl Hcu (stream_nil _ _))
    as (_ & _ & _ & ->).
Qed.

(** C7: no subscriber misses anything.  When a registered client's loop sleeps with no wake-up
    pending, what it has written is an uninterrupted copy of the conversation to its very end,
    from the cursor the client attached with or from the last reset it was sent. *)
Theorem sleeping_client_is_current now s id c cl c0 :
  reachable now s -> clients (pump s) !! id = Some c -> heap (pump s) !! c = Some cl ->
  loops s !! c = Some LoopWait -> notify cl = false -> asked s !! c = Some c0 ->
  exists pre b, (pre = [] /\ b = c0 \/ exists pre', pre = pre' ++ [reset_to b]) /\ 0 <= b /\
    sent_so_far s c = pre ++ drop (Z.to_nat b) (hist s).
Proof.
  intros Hr Hid Hcl Hloop Hn Hask. pose proof (reachable_relay _ _ Hr) as Hinv.
  pose proof (r_log _ Hinv) as [Hseq _ _ _ _ _ _].
  pose proof (r_awake _ Hinv _ _ _ Hid Hcl Hloop Hn) as Hcur.
  destruct (r_stream _ Hinv _ _ _ Hcl Hloop) as (c0' & rest & Hask' & -> & Hst).
  rewrite Hask in Hask'. injection Hask' as <-. rewrite app_nil_r, Hcur, Hseq in Hst.
  destruct (stream_view _ _ _ _ Hst ltac:(lia)) as (pre & b & suf & Heq & Hpre & Hsuf).
  pose proof (plen_nonneg (hist s)) as Hh.
  assert (Hend : drop (Z.to_nat (plen (hist s))) (hist s) = []).
  { apply drop_ge. unfold plen. lia. }
  exists pre, b. split; [done|]. destruct Hsuf as [[-> Hb]|[Hb Hsuf]].
  - subst b. split; [lia|]. by rewrite Hend.
  - split; [done|]. rewrite Hend, app_nil_r in Hsuf. by rewrite Heq, Hsuf.
Qed.

Lemma sorted_by_number (l : list (Z * string)) :
  StronglySorted Z.lt l.*1 -> StronglySorted (fun x y => x.1 < y.1) l.
Proof.
  induction l as [|x l IH]; cbn; [constructor|]. rewrite !StronglySorted_cons, Forall_fmap. intros [Hx Hl]. auto.
Qed.

(** C6: prompts are neither lost, repeated nor reordered.  The accepted prompts are those that were
    given a number, in increasing order, then the one in hand if any, then the queue, which never
    exceeds 50; the lines of the numbered prompts are the ones the agent has been written and the
    ones a thread is about to write, each once, and only a pump that has been stopped loses one.
    If besides the agent never ends a turn whose prompt it has not been sent, it has been written
    the prompts in exactly the order they were accepted in.  An idle relay has none in hand, and
    without a fork barrier none in its queue. *)
Theorem prompts_in_order now s :
  reachable now s ->
  exists (l : list (Z * string)) (hand : option string),
    accepted s = l.*2 ++ option_list hand ++ queue (pump s) /\ plen (queue (pump s)) <= 50 /\
    StronglySorted Z.lt l.*1 /\
    (exists lost, written s ++ in_flight (threads s) ++ lost ≡ₚ l /\
       (stopped (pump s) = false -> lost = [])) /\
    (polite now s -> stopped (pump s) = false -> l = written s ++ in_flight (threads s)) /\
    (busy (pump s) = false -> hand = None) /\
    (busy (pump s) = false -> forkBarrier (pump s) = None -> queue (pump s) = []).
Proof.
  intros Hr. destruct (reachable_turn _ _ Hr) as [hand Hinv].
  destruct (reachable_sends _ _ Hr) as [l [Hl Hsort _ Hlines]].
  pose proof (t_fifo _ _ Hinv) as Hf. pose proof (t_busy _ _ Hinv) as Hb.
  exists l, (snd <$> hand). split_and!; [by rewrite Hl|apply (t_queue _ _ Hinv)|done|done| | |].
  - intros Hpol Hs. destruct (polite_order _ _ Hpol Hs) as (t & Ht & Hst & _).
    destruct Hlines as (lost & Hp & Hlost). rewrite (Hlost Hs), app_nil_r in Hp. rewrite Ht in *.
    eapply (StronglySorted_unique_strong (fun x y : Z * string => x.1 < y.1));
      [|by apply sorted_by_number..|by symmetry].
    intros x y _ _ H1 H2. lia.
  - intros Hbz. rewrite Hbz in Hb. by destruct Hb as [-> _].
  - intros Hbz Hbar. by apply (t_strand _ _ Hinv Hbar Hbz).
Qed.

(** Turns never overlap: at most one thread has a prompt to send, only while no other prompt
    is awaiting its result, and the relay is marked busy all that time. *)
Theorem one_turn_at_a_time now s tid l :
  reachable now s -> threads s !! tid = Some l -> prompts_of l <> [] ->
  (exists text, prompts_of l = [text]) /\ busy (pump s) = true /\ inflightPromptID (pump s) = 0 /\
  forall tid' l', threads s !! tid' = Some l' -> tid' <> tid -> prompts_of l' = [].
Proof.
  intros Hr Hl Hne. destruct (reachable_turn _ _ Hr) as [hand Hinv].
  pose proof (t_hand _ _ Hinv _ _ Hl) as Hp. rewrite Hp in Hne |- *.
  destruct hand as [[t x]|]; simpl in *; [|done]. destruct (decide (t = tid)) as [->|]; [|done].
  pose proof (t_busy _ _ Hinv) as Hb. split_and!; [by exists x| | |].
  - destruct (busy (pump s)); [done|]. by destruct Hb.
  - destruct (busy (pump s)); [|by destruct Hb].
    destruct (decide (inflightPromptID (pump s) = 0)) as [|Hi]; [done|]. by apply Hb in Hi.
  - intros tid' l' Hl' Hne'. rewrite (t_hand _ _ Hinv _ _ Hl'). simpl. by rewrite decide_False.
Qed.

(** Steps during which the fork barrier stays up. *)
Inductive barred (s : System) : System -> Prop :=
| barred_here : barred s s
| barred_step s1 s2 : barred s s1 -> step s1 s2 -> forkBarrier (pump s2) <> None -> barred s s2.

Lemma started_step s s' :
  (forall tid l, threads s !! tid = Some l -> prompts_of l = []) -> step s s' -> started s' = started s.
Proof.
  intros Hno Hst. destruct Hst as [now tid a rest Ht| |c s' Hlp|m t Ht| | | | | | | | | | |]; try done.
  - specialize (Hno _ _ Ht). by destruct a.
  - by destruct Hlp.
Qed.

(** Only an idle relay can hand out a turn, and only without a barrier. *)
Lemma barrier_keeps_idle hand s s' :
  turn_inv hand s -> busy (pump s) = false -> forkBarrier (pump s) <> None -> step s s' ->
  forkBarrier (pump s') <> None -> busy (pump s') = false.
Proof.
  intros Hinv Hb Hbar Hst Hbar'.
  pose proof (t_busy _ _ Hinv) as Hidle. rewrite Hb in Hidle. destruct Hidle as [-> Hi].
  destruct Hst as [now tid a rest Ht|tid line rest Ht Hstop|c s' Hlp|m t Ht Htm Hw|now tid f Ht
    |tid id cur c Ht Hc|id|tid t Ht|tid method Ht|id|tid sid modes Ht|b|b|tid m Ht|]; try done.
  - destruct a as [fs|sid text|line|r e u|c f|c]; try done.
    + simpl. by destruct (appendFrames_quiet now fs (pump s)) as (_ & _ & -> & _).
    + pose proof (idle_ends _ _ _ _ Hinv Hi Ht) as He. done.
  - destruct Hlp; try done. simpl. unfold catch_up in *. destruct (heap (pump s) !! c); by simplify_eq.
  - simpl. unfold onAgent. destruct m as [[id|] x r e u|[f|]|id opts title|]; try done.
    + destruct (waiters (pump s) !! id) as [[y|]|]; [done..|]. by destruct (_ && _).
    + by destruct (quiet_perm id opts title t (pump s)) as [(-> & _) _].
  - simpl. unfold fromClient. destruct f as [f|]; [|done]. destruct (String.eqb _ _).
    + unfold clientPrompt. simpl. destruct (forkBarrier (pump s)); [|done]. by destruct (_ <? _).
    + destruct (String.eqb _ _).
      * destruct (quiet_resolve (ReqID f) (fOptionID f) ((pump s) <| lastActivity := now |>)) as [(-> & _) _]. done.
      * destruct (String.eqb _ _); [done|]. by destruct (String.eqb _ _).
  - simpl. by destruct (clients (pump s) !! id).
  - simpl. unfold detachClient. by destruct (clients (pump s) !! id).
  - simpl. by destruct (quiet_timer t (pump s)) as [(-> & _) _].
  - simpl. unfold tryAcquireForkBarrier. by destruct (forkBarrier (pump s)).
  - simpl in *. unfold releaseForkBarrier in *. destruct (forkBarrier (pump s)) as [b|]; [|done].
    destruct (m b); [|done]. simpl in *. rewrite Hb, Hi in *. simpl in *.
    unfold drain in *. simpl in *. by destruct (queue (pump s)).
  - simpl. unfold stop. by destruct (stopped (pump s)).
Qed.

(** The fork barrier works.  If it was acquired, no turn is under way, and as long as it stays
    up no prompt is sent to the agent, whatever clients and the agent do; prompts that arrive wait
    in the queue. *)
Theorem fork_barrier_excludes_turns now s b s1 s2 :
  reachable now s -> tryAcquireForkBarrier b (pump s) = (true, pump s1) ->
  s1 = s <| pump := pump s1 |> -> barred s1 s2 ->
  started s2 = started s /\ busy (pump s2) = false /\ inflightPromptID (pump s2) = 0.
Proof.
  intros Hr Hacq Hs1 Hbar.
  assert (Hr1 : reachable now s1).
  { eapply reach_step; [exact Hr|]. rewrite Hs1. pose proof (step_acquire s b) as Hst.
    by rewrite Hacq in Hst. }
  assert (H1 : busy (pump s1) = false /\ inflightPromptID (pump s1) = 0 /\
               forkBarrier (pump s1) <> None /\ started s1 = started s).
  { unfold tryAcquireForkBarrier in Hacq.
    destruct (forkBarrier (pump s)) as [held|] eqn:Hf; injection Hacq as Hq Hp; rewrite <- Hp;
      brefl; rewrite Hs1; simpl; [destruct Hq as [_ Hq]|]; destruct Hq as [Hq1 Hq2];
      split_and!; try done; congruence. }
  destruct H1 as (Hb1 & Hi1 & Hf1 & <-). clear Hs1 Hacq.
  assert (H2 : reachable now s2 /\ started s2 = started s1 /\ busy (pump s2) = false /\
               forkBarrier (pump s2) <> None).
  { induction Hbar as [|s2 s3 _ (Hr2 & Hst2 & Hb2 & Hf2) Hstep Hf3]; [done|].
    destruct (reachable_turn _ _ Hr2) as [hand Hinv].
    assert (Hb3 : busy (pump s3) = false) by (by eapply barrier_keeps_idle).
    split_and!; [by eapply reach_step| |done|done].
    rewrite <- Hst2. apply started_step; [|done]. intros tid l Hl.
    rewrite (t_hand _ _ Hinv _ _ Hl). pose proof (t_busy _ _ Hinv) as Hb. rewrite Hb2 in Hb.
    by destruct Hb as [-> _]. }
  destruct H2 as (Hr2 & -> & Hb2 & _). split_and!; [done..|].
  destruct (reachable_turn _ _ Hr2) as [hand Hinv]. pose proof (t_busy _ _ Hinv) as Hb.
  rewrite Hb2 in Hb. tauto.
Qed.

(** A permission request gets one answer.  The first answer, or the timer, sends the agent the
    chosen option, or for a dismissal a rejecting option if the agent offered one; after it the
    request is gone and its timer disarmed, so later answers and the timer do nothing. *)
Theorem permission_first_answer_wins p reqID pp choice choice' :
  pending p !! reqID = Some pp ->
  let '(p', acts) := resolvePermission reqID choice p in
  (exists option, acts = [DoSendLine (LPermission (agentID pp) option)] /\
     (choice <> "" -> option = choice) /\
     (choice = "" -> (exists o, o ∈ ppOptions pp /\
         Contains (poKind o) "reject" || Contains (poKind o) "deny" = true) ->
       exists o, o ∈ ppOptions pp /\ option = OptionID o /\
         Contains (poKind o) "reject" || Contains (poKind o) "deny" = true)) /\
  resolvePermission reqID choice' p' = (p', []) /\ timerFires (ppTimer pp) p' = (p', []).
Proof.
  intros Hpp. unfold resolvePermission at 1. rewrite Hpp. split_and!.
  - eexists. split; [done|]. split.
    + intros Hc. by destruct (String.eqb_spec choice "").
    + intros -> (o & Ho & Hk). simpl. unfold rejectOptionID.
      destruct (List.find _ _) as [o'|] eqn:Hfind.
      * apply List.find_some in Hfind as [Hin Hk']. exists o'. rewrite list_elem_of_In. done.
      * apply List.find_none with (x := o) in Hfind; [congruence|by apply list_elem_of_In].
  - unfold resolvePermission. simpl. by rewrite lookup_delete_eq.
  - unfold timerFires. simpl. by rewrite lookup_delete_eq.
Qed.

(** ** Concrete runs *)

Definition go_perform (tid : Z) (s : System) : System :=
  match threads s !! tid with Some (a :: rest) => perform 0 tid a rest s | _ => s end.
Definition go_client (tid : Z) (f : Frame) (s : System) : System :=
  match threads s !! tid with
  | None => spawn tid (fromClient 0 (Some f) (pump s)) s
              <| accepted ::= (fun l => l ++ option_list (accepts (Some f) (pump s))) |>
  | Some _ => s
  end.
Definition go_result (id : Z) (s : System) : System :=
  match threads s !! readLoop, timers (pump s) !! 0, waiters (pump s) !! id with
  | Some [], None, None => spawn readLoop (onAgent (MResult (Some id) "" "end_turn" None None) 0 (pump s)) s
  | _, _, _ => s
  end.
Definition go_attach (tid : Z) (id : string) (cur c : Z) (s : System) : System :=
  match threads s !! tid, heap (pump s) !! c with
  | None, None => spawn tid (attachClient id cur c (pump s)) s <| asked ::= <[c := cur]> |>
  | _, _ => s
  end.
(** One turn of a client's loop, all its writes succeeding. *)
Definition go_loop (c : Z) (s : System) : System :=
  match loops s !! c with
  | Some LoopWait =>
    match heap (pump s) !! c with
    | Some cl => if notify cl then set_loop c LoopCheck
                   (s <| pump := (pump s) <| heap ::= <[c := cl <| notify := false |>]> |> |>) else s
    | None => s
    end
  | Some LoopCheck =>
    let '(fs, p) := catch_up c (pump s) in
    set_loop c (match fs with [] => LoopWait | _ => LoopSend fs end) (s <| pump := p |>)
  | Some (LoopSend (f :: fs)) =>
    set_loop c (LoopSend fs) (s <| got ::= <[c := default [] (got s !! c) ++ [f]]> |>)
  | Some (LoopSend []) => set_loop c LoopCheck s
  | _ => s
  end.

Lemma go_perform_ok tid s : reachable 0 s -> reachable 0 (go_perform tid s).
Proof.
  intros Hr. unfold go_perform. destruct (threads s !! tid) as [[|a rest]|] eqn:Ht; [done| |done].
  eapply reach_step; [done|]. by constructor.
Qed.
Lemma go_client_ok tid f s : reachable 0 s -> reachable 0 (go_client tid f s).
Proof.
  intros Hr. unfold go_client. destruct (threads s !! tid) as [l|] eqn:Ht; [done|].
  eapply reach_step; [done|]. by constructor.
Qed.
Lemma go_result_ok id s : reachable 0 s -> reachable 0 (go_result id s).
Proof.
  intros Hr. unfold go_result. destruct (threads s !! readLoop) as [[|]|] eqn:Ht; [|done..].
  destruct (timers (pump s) !! 0) eqn:Htm; [done|].
  destruct (waiters (pump s) !! id) eqn:Hw; [done|].
  eapply reach_step; [done|]. apply step_agent; [done..|]. intros id' x r e u Hm y.
  injection Hm as <- _ _ _ _. congruence.
Qed.
Lemma go_attach_ok tid id cur c s : reachable 0 s -> reachable 0 (go_attach tid id cur c s).
Proof.
  intros Hr. unfold go_attach. destruct (threads s !! tid) eqn:Ht; [done|].
  destruct (heap (pump s) !! c) eqn:Hc; [done|]. eapply reach_step; [done|]. by constructor.
Qed.
Lemma go_loop_ok c s : reachable 0 s -> reachable 0 (go_loop c s).
Proof.
  intros Hr. unfold go_loop. destruct (loops s !! c) as [[| |[|f fs]|]|] eqn:Hl; try done.
  - destruct (heap (pump s) !! c) as [cl|] eqn:Hcl; [|done]. destruct (notify cl) eqn:Hn; [|done].
    eapply reach_step; [done|]. eapply step_loop. by apply loop_wake.
  - destruct (catch_up c (pump s)) as [fs p] eqn:Hcu.
    eapply reach_step; [done|]. eapply step_loop. by apply loop_check.
  - eapply reach_step; [done|]. eapply step_loop. by apply loop_again.
  - eapply reach_step; [done|]. eapply step_loop. by apply loop_send.
Qed.
Create HintDb go.
#[export] Hint Resolve reach_new go_perform_ok go_client_ok go_result_ok go_attach_ok go_loop_ok : go.

Definition prompt (text : string) : Frame := (frame "prompt") <| Text := text |>.
Definition turn_finished (s : System) : System := go_perform readLoop (go_perform readLoop s).

Definition stale_run : System :=
  let s := go_perform 1 (go_perform 1 (go_perform 1 (go_client 1 (prompt "A") (new_system 0)))) in
  let s := go_client 2 (prompt "B") s in
  let s := go_perform readLoop (go_perform readLoop (turn_finished (go_result 1 s))) in
  let s := turn_finished (go_result 2 s) in
  go_perform 2 s.

(** The log can end with a turn in progress although none is: the thread that queued a prompt
    logs its frames outside the lock, so they may follow the end of the turn the prompt became;
    there is then nothing left to run, no queue and no turn under way. *)
Theorem stale_busy_frame :
  exists s h f, reachable 0 s /\ (forall tid l, threads s !! tid = Some l -> l = []) /\
    busy (pump s) = false /\ queue (pump s) = [] /\ inflightPromptID (pump s) = 0 /\
    hist s = h ++ [f] /\ Kind f = "turn" /\ State f = "busy".
Proof.
  exists stale_run, (take 5 (hist stale_run)), ((busy_frame 1) <| Seq := 6 |>). split.
  { unfold stale_run, turn_finished. auto 30 with go. }
  split_and!; try (vm_compute; reflexivity).
  assert (Hall : Forall (fun tl : Z * list action => tl.2 = []) (map_to_list (threads stale_run)))
    by (vm_compute; repeat constructor).
  intros tid l Hl. rewrite Forall_forall in Hall.
  apply (Hall (tid, l)). by apply elem_of_map_to_list.
Qed.

(** A client attaches, a prompt is logged, the loop runs. *)
Definition attached_run : System :=
  let s := go_perform 5 (go_attach 5 "web" 0 9 (new_system 0)) in
  let s := go_perform 1 (go_client 1 (prompt "A") s) in
  go_loop 9 (go_loop 9 (go_loop 9 (go_loop 9 (go_loop 9 (go_loop 9 s))))).

Lemma attached_run_ok : reachable 0 attached_run.
Proof. unfold attached_run. auto 30 with go. Qed.

Lemma log_is_a_window_witness : plen (log (pump attached_run)) <= 2000.
Proof. apply (log_is_a_window 0 attached_run attached_run_ok). Defined.

Lemma sleeping_client_is_current_witness :
  exists pre b, sent_so_far attached_run 9 = pre ++ drop (Z.to_nat b) (hist attached_run) /\
    length (sent_so_far attached_run 9) = 2%nat.
Proof.
  destruct (sleeping_client_is_current 0 attached_run "web" 9 (mkClient 2 false false) 0 attached_run_ok)
    as (pre & b & _ & _ & H); try (vm_compute; reflexivity).
  exists pre, b. split; [exact H|vm_compute; reflexivity].
Defined.

Lemma polite_perform tid s : polite 0 s -> polite 0 (go_perform tid s).
Proof.
  intros Hp. unfold go_perform. destruct (threads s !! tid) as [[|a rest]|] eqn:Ht; [done| |done].
  eapply polite_step; [done|by constructor|]. intros [H1 H2]. exfalso. apply H2.
  assert (tid <> readLoop) as Hne by congruence.
  assert (threads (perform 0 tid a rest s) !! readLoop = threads s !! readLoop) as ->
    by (destruct a; cbn; by rewrite lookup_insert_ne).
  by rewrite H1.
Qed.
Lemma polite_client tid f s : polite 0 s -> polite 0 (go_client tid f s).
Proof.
  intros Hp. unfold go_client. destruct (threads s !! tid) as [l|] eqn:Ht; [done|].
  eapply polite_step; [done|by constructor|]. intros [H1 H2]. exfalso. apply H2. cbn.
  rewrite lookup_insert_ne by congruence. by rewrite H1.
Qed.
Lemma polite_result id s :
  inflightPromptID (pump s) ∈ (written s).*1 -> polite 0 s -> polite 0 (go_result id s).
Proof.
  intros Hin Hp. unfold go_result. destruct (threads s !! readLoop) as [[|]|] eqn:Ht; [|done..].
  destruct (timers (pump s) !! 0) eqn:Htm; [done|].
  destruct (waiters (pump s) !! id) eqn:Hw; [done|].
  eapply polite_step; [done| |done]. apply step_agent; [done..|]. intros id' x r e u Hm y.
  injection Hm as <- _ _ _ _. congruence.
Qed.

(** Two prompts, the second one during the first one's turn. *)
Definition first_turn : System :=
  go_perform 2 (go_client 2 (prompt "B")
    (go_perform 1 (go_perform 1 (go_perform 1 (go_client 1 (prompt "A") (new_system 0)))))).
Definition two_turns : System :=
  go_perform readLoop (go_perform readLoop (turn_finished (go_result 1 first_turn))).
Lemma two_turns_polite : polite 0 two_turns.
Proof.
  unfold two_turns, turn_finished. repeat apply polite_perform. apply polite_result.
  - apply (bool_decide_unpack _). vm_compute. exact I.
  - unfold first_turn. repeat first [apply polite_perform|apply polite_client]. constructor.
Qed.

Lemma prompts_in_order_witness :
  accepted two_turns = ["A"; "B"] /\ written two_turns = [(1, "A"); (2, "B")] /\
  exists l hand, accepted two_turns = l.*2 ++ option_list hand ++ queue (pump two_turns) /\
    l = written two_turns ++ in_flight (threads two_turns).
Proof.
  split; [vm_compute; reflexivity|]. split; [vm_compute; reflexivity|].
  destruct (prompts_in_order 0 two_turns (polite_reachable _ _ two_turns_polite))
    as (l & hand & H & _ & _ & _ & Hl & _).
  exists l, hand. split; [exact H|]. apply Hl; [exact two_turns_polite|vm_compute; reflexivity].
Defined.

Lemma one_turn_at_a_time_witness : busy (pump attached_run) = true.
Proof.
  apply (one_turn_at_a_time 0 attached_run 1 [DoSendPrompt "" "A"] attached_run_ok);
    [vm_compute; reflexivity|discriminate].
Defined.

Definition fork_b : forkIngressBarrier := mkBarrier 3 "ts".
Definition forked (s : System) : System := s <| pump := (tryAcquireForkBarrier fork_b (pump s)).2 |>.

Lemma fork_barrier_excludes_turns_witness :
  started (go_client 2 (prompt "B") (forked (new_system 0))) = [].
Proof.
  assert (Hacq : tryAcquireForkBarrier fork_b (pump (new_system 0)) = (true, pump (forked (new_system 0))))
    by (vm_compute; reflexivity).
  refine (proj1 (fork_barrier_excludes_turns 0 (new_system 0) fork_b (forked (new_system 0))
    (go_client 2 (prompt "B") (forked (new_system 0))) (reach_new 0) Hacq eq_refl _)).
  eapply barred_step; [apply barred_here|apply (step_client _ 0 2); vm_compute; reflexivity|].
  vm_compute. discriminate.
Defined.

Lemma permission_first_answer_wins_witness :
  let pp := mkPendingPerm 4 [mkPermOption "yes" "Allow" "allow_once"; mkPermOption "no" "Deny" "reject_once"]
              "run?" 1 in
  let p := (newPump 0) <| pending := {["4" := pp]} |> <| timers := {[1 := "4"]} |> in
  (resolvePermission "4" "" p).2 = [DoSendLine (LPermission 4 "no")] /\
  resolvePermission "4" "yes" (resolvePermission "4" "" p).1 = ((resolvePermission "4" "" p).1, []).
Proof.
  intros pp p. split; [vm_compute; reflexivity|].
  assert (Hpp : pending p !! "4" = Some pp) by (vm_compute; reflexivity).
  pose proof (permission_first_answer_wins p "4" pp "" "yes" Hpp) as H.
  destruct (resolvePermission "4" "" p) as [p' acts]. exact (proj1 (proj2 H)).
Defined.
