(* ===== verification/DeviceSet.v ===== *)
(** * The device-set registry (src/internal/secrets/seal/deviceset.go)

    An append-only, hash-chained log of an owner's enrolled devices: each entry is an authored
    JSON body and the signatures over it, its body naming the hash of the entry before.  The
    packages crypto/sha256, crypto/ecdsa, crypto/elliptic and encoding/json are the operations
    of the class [Crypto]; what the honest side needs of them is the class [CryptoLaws]. *)

From S2P Require Import Prelude GoLib.
From Stdlib Require Import Ascii.
Open Scope Z_scope.

(** ** Data *)

(** [EntryType] is a Go string type: a parsed body can hold any string. *)
Definition EntryType := string.
Definition EntryGenesis : EntryType := "genesis".
Definition EntryAdd : EntryType := "add".
Definition EntryRemove : EntryType := "remove".

Record DeviceRef := { X25519Pub : bytes; SignPub : bytes }.
Record Signature := { SignerPub : bytes; Sig : bytes }.
Record EntryLabel := { Name : string; EnrolledAt : string }.
Record entryBody := {
  Version : Z;
  Type_ : EntryType;
  PrevHash : bytes;
  Change : option DeviceRef;
  Devices : list DeviceRef;
  Label : option EntryLabel;
  RecoveryLabel : option EntryLabel
}.
Record StoredEntry := { Body : bytes; Sigs : list Signature }.
Record DeviceSetLog := { Entries : list StoredEntry }.
Record OwnerRoot := { Device1SignPub : bytes; RecoverySignPub : bytes }.

#[export] Instance DeviceRef_eq_dec : EqDecision DeviceRef.
Proof. solve_decision. Defined.
#[export] Instance Signature_eq_dec : EqDecision Signature.
Proof. solve_decision. Defined.
#[export] Instance StoredEntry_eq_dec : EqDecision StoredEntry.
Proof. solve_decision. Defined.

(** The errors, one per message of the source. *)
Inductive seal_error :=
| err_parse_body | err_unsigned_entry | err_empty_log | err_marshal | err_sign
| err_genesis_devices | err_already_enrolled | err_not_enrolled | err_signer_not_member
| err_first_not_genesis | err_genesis_version | err_genesis_prev | err_genesis_sigs
| err_version | err_prev_hash | err_membership | err_member_sig
| err_missing_change | err_add_member | err_remove_non_member | err_late_genesis | err_type.

Notation "'let*' x ':=' r 'in' k" :=
  (match r with inl e => inl e | inr x => k end)
  (at level 10, x pattern, r at level 100, k at level 200, only parsing).

(** ** The packages below *)

Class Crypto := {
  PrivKey : Type;
  PubKey : Type;
  (** [key.PublicKey] *)
  PublicKey : PrivKey -> PubKey;
  (** [elliptic.Marshal] and [elliptic.Unmarshal] on P-256 *)
  Marshal : PubKey -> bytes;
  Unmarshal : bytes -> option PubKey;
  (** [ecdsa.SignASN1], its random source first *)
  Rand : Type;
  SignASN1 : Rand -> PrivKey -> bytes -> option bytes;
  VerifyASN1 : PubKey -> bytes -> bytes -> bool;
  Sum256 : bytes -> bytes;
  json_Marshal : entryBody -> option bytes;
  json_Unmarshal : bytes -> option entryBody
}.

(** ** encodeFields (src/internal/secrets/seal/seal.go) *)

(** [binary.BigEndian.PutUint64] *)
Definition PutUint64 (v : Z) : bytes := big_endian 8 v.

Definition encodeFields (parts : list bytes) : bytes :=
  flat_map (fun p => PutUint64 (Z.of_nat (length p)) ++ p) parts.

(** ** Membership *)

(** [r.equal(o)]: [bytes.Equal] on both keys. *)
Definition equal (r o : DeviceRef) : bool :=
  bool_decide (X25519Pub r = X25519Pub o) && bool_decide (SignPub r = SignPub o).

(** The first index whose element satisfies [p]; [None] is the code's -1. *)
Fixpoint index_where {A} (p : A -> bool) (l : list A) : option nat :=
  match l with
  | [] => None
  | x :: l => if p x then Some O else S <$> index_where p l
  end.

Definition memberIndex (set : list DeviceRef) (d : DeviceRef) : option nat :=
  index_where (fun m => equal m d) set.

Definition memberHasSignPub (set : list DeviceRef) (signPub : bytes) : bool :=
  existsb (fun m => bool_decide (SignPub m = signPub)) set.

Definition sameSet (a b : list DeviceRef) : bool :=
  if negb (length a =? length b)%nat then false
  else forallb (fun x => negb (is_none (memberIndex b x))) a.

Definition cloneRefs (l : list DeviceRef) : list DeviceRef :=
  map (fun r => {| X25519Pub := [] ++ X25519Pub r; SignPub := [] ++ SignPub r |}) l.

(** [append(cloneRefs(l[:idx]), cloneRefs(l[idx+1:])...)] *)
Definition without (idx : nat) (l : list DeviceRef) : list DeviceRef :=
  cloneRefs (take idx l) ++ cloneRefs (drop (S idx) l).

Definition applyDelta (prev : list DeviceRef) (e : entryBody)
    : result seal_error (list DeviceRef) :=
  if decide (Type_ e = EntryAdd) then
    match Change e with
    | None => Err err_missing_change
    | Some c =>
        match memberIndex prev c with
        | Some _ => Err err_add_member
        | None => Ok (cloneRefs prev ++ [c])
        end
    end
  else if decide (Type_ e = EntryRemove) then
    match Change e with
    | None => Err err_missing_change
    | Some c =>
        match memberIndex prev c with
        | None => Err err_remove_non_member
        | Some idx => Ok (without idx prev)
        end
    end
  else if decide (Type_ e = EntryGenesis) then Err err_late_genesis
  else Err err_type.

Section ops.
Context `{Crypto}.

(** ** Entries *)

Record Device := { device_X25519Pub : bytes; device_Sign : PrivKey }.

Definition marshalSignPub (pub : PubKey) : bytes := Marshal pub.
Definition parseSignPub (b : bytes) : option PubKey := Unmarshal b.
Definition Ref (d : Device) : DeviceRef :=
  {| X25519Pub := [] ++ device_X25519Pub d;
     SignPub := marshalSignPub (PublicKey (device_Sign d)) |}.

Definition parseBody (e : StoredEntry) : result seal_error entryBody :=
  match json_Unmarshal (Body e) with
  | None => Err err_parse_body
  | Some b => Ok b
  end.

(** The fields an entry's hash covers: the body, then each signer and signature. *)
Definition hash_parts (e : StoredEntry) : list bytes :=
  Body e :: flat_map (fun s => [SignerPub s; Sig s]) (Sigs e).

Definition hash (e : StoredEntry) : result seal_error bytes :=
  match Sigs e with
  | [] => Err err_unsigned_entry
  | _ => Ok (Sum256 (encodeFields (hash_parts e)))
  end.
(** [Hash], the exported name. *)
Definition Hash (e : StoredEntry) : result seal_error bytes := hash e.

Definition VersionAndPrevHash (e : StoredEntry) : result seal_error (Z * bytes) :=
  match json_Unmarshal (Body e) with
  | None => Err err_parse_body
  | Some b => Ok (Version b, PrevHash b)
  end.

(** [sign(d)], with the bytes [rand.Reader] gives it. *)
Definition sign (rnd : Rand) (d : Device) (e : StoredEntry) : result seal_error StoredEntry :=
  match SignASN1 rnd (device_Sign d) (Sum256 (Body e)) with
  | None => Err err_sign
  | Some sig =>
      Ok {| Body := Body e;
            Sigs := Sigs e ++
              [{| SignerPub := marshalSignPub (PublicKey (device_Sign d)); Sig := sig |}] |}
  end.

Definition buildEntry (b : entryBody) : result seal_error StoredEntry :=
  match json_Marshal b with
  | None => Err err_marshal
  | Some body => Ok {| Body := body; Sigs := [] |}
  end.

(** ** The log *)

Definition head (l : DeviceSetLog) : option StoredEntry := last (Entries l).

Definition HeadVersion (l : DeviceSetLog) : Z :=
  match last (Entries l) with
  | None => 0
  | Some e => match parseBody e with inl _ => 0 | inr b => Version b end
  end.

Definition HeadHash (l : DeviceSetLog) : result seal_error bytes :=
  match last (Entries l) with
  | None => Err err_empty_log
  | Some e => hash e
  end.

Definition HeadDevices (l : DeviceSetLog) : list DeviceRef :=
  match last (Entries l) with
  | None => []
  | Some e => match parseBody e with inl _ => [] | inr b => Devices b end
  end.

(** The pointers are [None] when nil; [now] is [nowNanoStr()]. *)
Definition NewGenesisLabeled (rnd1 rnd2 : Rand) (now : string) (device1 recovery : option Device)
    (device1Name recoveryName : string) : result seal_error DeviceSetLog :=
  match device1, recovery with
  | Some d1, Some rec =>
      let b := {| Version := 1; Type_ := EntryGenesis; PrevHash := []; Change := None;
                  Devices := [Ref d1; Ref rec];
                  Label := Some {| Name := device1Name; EnrolledAt := now |};
                  RecoveryLabel := Some {| Name := recoveryName; EnrolledAt := now |} |} in
      let* e := buildEntry b in
      let* e := sign rnd1 d1 e in
      let* e := sign rnd2 rec e in
      Ok {| Entries := [e] |}
  | _, _ => Err err_genesis_devices
  end.

Definition NewGenesis (rnd1 rnd2 : Rand) (now : string) (device1 recovery : option Device)
    : result seal_error DeviceSetLog :=
  NewGenesisLabeled rnd1 rnd2 now device1 recovery "device1" "recovery".

(** The mutators answer the log they leave in place ([l.Entries] is assigned last). *)
Definition appendMutation (rnd : Rand) (t : EntryType) (change : option DeviceRef)
    (devices : list DeviceRef) (signer : Device) (label : option EntryLabel) (l : DeviceSetLog)
    : result seal_error DeviceSetLog :=
  match head l with
  | None => Err err_empty_log (* not reached: the callers have checked *)
  | Some prev =>
      let* prevBody := parseBody prev in
      if is_none (memberIndex (Devices prevBody) (Ref signer)) then Err err_signer_not_member else
      let* ph := hash prev in
      let b := {| Version := u64 (Version prevBody + 1); Type_ := t; PrevHash := ph;
                  Change := change; Devices := devices; Label := label;
                  RecoveryLabel := None |} in
      let* e := buildEntry b in
      let* e := sign rnd signer e in
      Ok {| Entries := Entries l ++ [e] |}
  end.

Definition AddDeviceLabeled (rnd : Rand) (now : string) (newDevice : DeviceRef)
    (signer : Device) (name : string) (l : DeviceSetLog) : result seal_error DeviceSetLog :=
  match head l with
  | None => Err err_empty_log
  | Some prev =>
      let* prevBody := parseBody prev in
      match memberIndex (Devices prevBody) newDevice with
      | Some _ => Err err_already_enrolled
      | None =>
          let devices := cloneRefs (Devices prevBody) ++ [newDevice] in
          let label := Some {| Name := name; EnrolledAt := now |} in
          appendMutation rnd EntryAdd (Some newDevice) devices signer label l
      end
  end.

Definition AddDevice (rnd : Rand) (now : string) (newDevice : DeviceRef) (signer : Device)
    (l : DeviceSetLog) : result seal_error DeviceSetLog :=
  AddDeviceLabeled rnd now newDevice signer "" l.

Definition RemoveDevice (rnd : Rand) (targetX25519Pub : bytes) (signer : Device)
    (l : DeviceSetLog) : result seal_error DeviceSetLog :=
  match head l with
  | None => Err err_empty_log
  | Some prev =>
      let* prevBody := parseBody prev in
      match index_where (fun d => bool_decide (X25519Pub d = targetX25519Pub))
              (Devices prevBody) with
      | None => Err err_not_enrolled
      | Some idx =>
          match Devices prevBody !! idx with
          | None => Err err_not_enrolled (* not reached: [idx] is an index *)
          | Some removed =>
              appendMutation rnd EntryRemove (Some removed) (without idx (Devices prevBody))
                signer None l
          end
      end
  end.

(** ** Verification *)

Definition verifySig (signerPub digest sig : bytes) : bool :=
  match parseSignPub signerPub with
  | None => false
  | Some pub => VerifyASN1 pub digest sig
  end.

(** The loop over the genesis signatures, setting its two flags. *)
Definition genesis_flags (digest : bytes) (root : OwnerRoot) (sigs : list Signature)
    : bool * bool :=
  foldl (fun flags s =>
    let '(haveDev1, haveRec) := flags in
    let haveDev1 := if bool_decide (SignerPub s = Device1SignPub root)
                       && verifySig (Device1SignPub root) digest (Sig s)
                    then true else haveDev1 in
    let haveRec := if bool_decide (SignerPub s = RecoverySignPub root)
                      && verifySig (RecoverySignPub root) digest (Sig s)
                   then true else haveRec in
    (haveDev1, haveRec)) (false, false) sigs.

Definition verifyGenesisSigs (g : StoredEntry) (root : OwnerRoot) : result seal_error unit :=
  let digest := Sum256 (Body g) in
  let '(haveDev1, haveRec) := genesis_flags digest root (Sigs g) in
  if negb haveDev1 || negb haveRec then Err err_genesis_sigs else Ok tt.

Fixpoint member_sig_loop (digest : bytes) (members : list DeviceRef) (sigs : list Signature)
    : result seal_error unit :=
  match sigs with
  | [] => Err err_member_sig
  | s :: sigs =>
      if negb (memberHasSignPub members (SignerPub s)) then member_sig_loop digest members sigs
      else if verifySig (SignerPub s) digest (Sig s) then Ok tt
      else member_sig_loop digest members sigs
  end.

Definition verifyMemberSig (e : StoredEntry) (members : list DeviceRef)
    : result seal_error unit :=
  member_sig_loop (Sum256 (Body e)) members (Sigs e).

(** The loop over the entries after the genesis. *)
Fixpoint verify_loop (prev : StoredEntry) (prevBody : entryBody) (members : list DeviceRef)
    (rest : list StoredEntry) : result seal_error (list DeviceRef) :=
  match rest with
  | [] => Ok members
  | e :: rest =>
      let* eb := parseBody e in
      if negb (Version eb =? u64 (Version prevBody + 1)) then Err err_version else
      let* ph := hash prev in
      if negb (bool_decide (PrevHash eb = ph)) then Err err_prev_hash else
      let* expected := applyDelta members eb in
      if negb (sameSet expected (Devices eb)) then Err err_membership else
      let* _ := verifyMemberSig e members in
      verify_loop e eb expected rest
  end.

Definition VerifyDeviceSet (l : option DeviceSetLog) (root : OwnerRoot)
    : result seal_error (list DeviceRef) :=
  match l with
  | None => Err err_empty_log
  | Some l =>
      match Entries l with
      | [] => Err err_empty_log
      | g :: rest =>
          let* gb := parseBody g in
          if negb (bool_decide (Type_ gb = EntryGenesis)) then Err err_first_not_genesis else
          if negb (Version gb =? 1) then Err err_genesis_version else
          if negb (length (PrevHash gb) =? 0)%nat then Err err_genesis_prev else
          let* _ := verifyGenesisSigs g root in
          verify_loop g gb (cloneRefs (Devices gb)) rest
      end
  end.

End ops.
