(* ===== verification/DeviceSetLaws.v ===== *)
(** * What the device-set log promises

    The chain an accepted log is made of as an inductive relation, the agreement of
    [VerifyDeviceSet] with it, and its consequences: an injected entry needs a member's
    signature, a head hash commits to the whole log, logs the owner's devices author verify. *)

From Stdlib Require Import Ascii.
From S2P Require Import Prelude GoLib DeviceSet.
Open Scope Z_scope.

(** ** The encoding of fields *)

(** A Go slice is shorter than 2^63. *)
Definition sized (p : bytes) : Prop := Z.of_nat (length p) < 2 ^ 63.

Lemma encodeFields_inj ps qs :
  Forall sized ps -> Forall sized qs -> encodeFields ps = encodeFields qs -> ps = qs.
Proof.
  intros Hps. revert qs. induction Hps as [|p ps Hp _ IH]; intros qs Hqs; destruct Hqs as [|q qs Hq Hqs];
    [done|discriminate..|].
  unfold encodeFields. cbn [flat_map]. fold (encodeFields ps) (encodeFields qs).
  rewrite <- !app_assoc. intros Heq.
  apply app_inj_1 in Heq as [Hlen Heq].
  2: { unfold PutUint64. by rewrite !length_big_endian. }
  apply big_endian_inj in Hlen.
  2,3: unfold sized in *; change (256 ^ Z.of_nat 8) with (2 ^ 64); lia.
  apply app_inj_1 in Heq as [-> Heq]; [|lia]. f_equal. by apply IH.
Qed.

Definition sized_entry (e : StoredEntry) : Prop :=
  sized (Body e) /\ Forall (fun s => sized (SignerPub s) /\ sized (Sig s)) (Sigs e).

Lemma hash_parts_sized e : sized_entry e -> Forall sized (hash_parts e).
Proof.
  intros [Hb Hs]. unfold hash_parts. constructor; [done|].
  induction Hs as [|s ss [H1 H2] _ IH]; simpl; [constructor|]. by repeat constructor.
Qed.

Lemma hash_parts_inj e e' : hash_parts e = hash_parts e' -> e = e'.
Proof.
  destruct e as [b ss], e' as [b' ss']. unfold hash_parts. simpl. intros [= -> Heq]. f_equal.
  revert ss' Heq. induction ss as [|[p s] ss IH]; intros [|[p' s'] ss'] Heq; try discriminate; [done|].
  simpl in Heq. injection Heq as -> -> Heq. f_equal. auto.
Qed.

(** ** Membership *)

Lemma equal_eq r o : equal r o = true <-> r = o.
Proof.
  unfold equal. destruct r, o. simpl. brefl. split; [intros [-> ->]|intros [= -> ->]]; done.
Qed.

Lemma index_where_Some {A} (p : A -> bool) l i :
  index_where p l = Some i <->
  exists pre x post, l = pre ++ x :: post /\ length pre = i /\ p x = true /\
                     Forall (fun y => p y = false) pre.
Proof.
  revert i. induction l as [|x l IH]; intros i; simpl.
  { split; [done|]. intros (pre & x & post & Heq & _). by destruct pre. }
  destruct (p x) eqn:Hp.
  - split.
    + intros [= <-]. exists [], x, l. by repeat split.
    + intros (pre & y & post & Heq & <- & Hy & Hf). destruct pre as [|z pre]; [done|].
      simplify_eq/=. apply Forall_cons in Hf as [Hz _]. congruence.
  - rewrite fmap_Some. setoid_rewrite IH. split.
    + intros (j & (pre & y & post & -> & <- & Hy & Hf) & ->).
      exists (x :: pre), y, post. repeat split; [done|]. by constructor.
    + intros (pre & y & post & Heq & <- & Hy & Hf).
      destruct pre as [|z pre]; simplify_eq/=; [congruence|].
      apply Forall_cons in Hf as [_ Hf]. exists (length pre). split; [|done].
      by exists pre, y, post.
Qed.

Lemma index_where_None {A} (p : A -> bool) l :
  index_where p l = None <-> Forall (fun y => p y = false) l.
Proof.
  induction l as [|x l IH]; simpl; [done|]. rewrite Forall_cons. destruct (p x).
  - split; [done|]. intros [? _]. congruence.
  - rewrite fmap_None, IH. naive_solver.
Qed.

Lemma memberIndex_None set d : memberIndex set d = None <-> ~ d ∈ set.
Proof.
  unfold memberIndex. rewrite index_where_None, Forall_forall. split.
  - intros Hf Hin. specialize (Hf d Hin). assert (equal d d = true) by by apply equal_eq. congruence.
  - intros Hni x Hx. destruct (equal x d) eqn:He; [|done]. apply equal_eq in He. by subst.
Qed.

Lemma memberIndex_Some set d i :
  memberIndex set d = Some i <->
  exists pre post, set = pre ++ d :: post /\ length pre = i /\ ~ d ∈ pre.
Proof.
  unfold memberIndex. rewrite index_where_Some. split.
  - intros (pre & x & post & -> & <- & Hx & Hf). apply equal_eq in Hx as ->.
    exists pre, post. repeat split. by apply memberIndex_None, index_where_None.
  - intros (pre & post & -> & <- & Hni). exists pre, d, post. repeat split.
    + by apply equal_eq.
    + by apply index_where_None, memberIndex_None.
Qed.

Lemma memberHasSignPub_spec set pub :
  memberHasSignPub set pub = true <-> exists d, d ∈ set /\ SignPub d = pub.
Proof.
  unfold memberHasSignPub. rewrite existsb_exists. setoid_rewrite <- list_elem_of_In.
  split; intros (d & Hd & Heq); exists d; (split; [done|]); by apply bool_decide_eq_true in Heq || apply bool_decide_eq_true.
Qed.

Lemma cloneRefs_id l : cloneRefs l = l.
Proof.
  induction l as [|[x s] l IH]; [done|]. change (cloneRefs ({| X25519Pub := x; SignPub := s |} :: l))
    with ({| X25519Pub := x; SignPub := s |} :: cloneRefs l). by rewrite IH.
Qed.

Lemma without_app pre d post : without (length pre) (pre ++ d :: post) = pre ++ post.
Proof.
  unfold without. rewrite !cloneRefs_id, take_app_length. f_equal.
  by induction pre.
Qed.

Lemma sameSet_spec a b : sameSet a b = true <-> length a = length b /\ a ⊆ b.
Proof.
  unfold sameSet. destruct (Nat.eqb_spec (length a) (length b)) as [Hl|Hl]; simpl; [|naive_solver].
  rewrite forallb_forall. setoid_rewrite <- list_elem_of_In. split.
  - intros Hf. split; [done|]. intros x Hx. specialize (Hf x Hx).
    destruct (memberIndex b x) as [i|] eqn:Hi; [|done].
    apply memberIndex_Some in Hi as (pre & post & -> & _). set_solver.
  - intros [_ Hsub] x Hx. destruct (memberIndex b x) eqn:Hi; [done|].
    apply memberIndex_None in Hi. set_solver.
Qed.

(** The change an entry declares, as a relation between memberships. *)
Inductive delta (m : list DeviceRef) (b : entryBody) : list DeviceRef -> Prop :=
| delta_add d : Type_ b = EntryAdd -> Change b = Some d -> ~ d ∈ m -> delta m b (m ++ [d])
| delta_remove d pre post :
    Type_ b = EntryRemove -> Change b = Some d -> m = pre ++ d :: post -> ~ d ∈ pre ->
    delta m b (pre ++ post).

Lemma applyDelta_spec m b m' : applyDelta m b = inr m' <-> delta m b m'.
Proof.
  unfold applyDelta. destruct (decide (Type_ b = EntryAdd)) as [Ha|Ha].
  { split.
    - destruct (Change b) as [c|] eqn:Hc; [|done].
      destruct (memberIndex m c) eqn:Hi; [done|]. intros [= <-]. rewrite cloneRefs_id.
      apply delta_add; [done..|]. by apply memberIndex_None.
    - intros [d Ht Hc Hni|d pre post Ht]; [|rewrite Ha in Ht; discriminate].
      rewrite Hc. apply memberIndex_None in Hni as ->. by rewrite cloneRefs_id. }
  destruct (decide (Type_ b = EntryRemove)) as [Hr|Hr].
  2: { split; [by destruct (decide _)|]. intros [d Ht|d pre post Ht]; congruence. }
  split.
  - destruct (Change b) as [c|] eqn:Hc; [|done].
    destruct (memberIndex m c) as [i|] eqn:Hi; [|done]. intros [= <-].
    apply memberIndex_Some in Hi as (pre & post & -> & <- & Hni). rewrite without_app.
    by eapply delta_remove.
  - intros [d Ht|d pre post Ht Hc -> Hni]; [congruence|]. rewrite Hc.
    assert (memberIndex (pre ++ d :: post) d = Some (length pre)) as ->
      by (apply memberIndex_Some; eauto).
    by rewrite without_app.
Qed.

Lemma delta_perm m b m' :
  delta m b m' -> exists d, (m' ≡ₚ d :: m /\ ~ d ∈ m) \/ m ≡ₚ d :: m'.
Proof.
  intros [d ? ? ?|d pre post ? ? -> ?]; exists d.
  - left. split; [|done]. by rewrite Permutation_app_comm.
  - right. by rewrite Permutation_middle.
Qed.

Lemma delta_NoDup m b m' : NoDup m -> delta m b m' -> NoDup m'.
Proof.
  intros Hm Hd. destruct (delta_perm _ _ _ Hd) as (d & [[Hp Hni]|Hp]).
  - rewrite Hp. by constructor.
  - rewrite Hp in Hm. by inversion Hm.
Qed.

(** * The chain of an accepted device-set log

    [chain root l e b m]: the entries [l], whose last is [e] with the body [b], are a log the
    owner root [root] anchors and whose membership is [m].  [VerifyDeviceSet] decides it. *)

Section chain.
Context `{Crypto}.

(** A signature of the key [pub] over the entry's body. *)
Definition signed_by (pub : bytes) (e : StoredEntry) : Prop :=
  exists s pk, s ∈ Sigs e /\ SignerPub s = pub /\ Unmarshal pub = Some pk /\
               VerifyASN1 pk (Sum256 (Body e)) (Sig s) = true.

Definition signed_by_member (m : list DeviceRef) (e : StoredEntry) : Prop :=
  exists d, d ∈ m /\ signed_by (SignPub d) e.

Definition hash_of (e : StoredEntry) : bytes := Sum256 (encodeFields (hash_parts e)).

Inductive chain (root : OwnerRoot) :
    list StoredEntry -> StoredEntry -> entryBody -> list DeviceRef -> Prop :=
| chain_genesis g b :
    json_Unmarshal (Body g) = Some b -> Type_ b = EntryGenesis -> Version b = 1 ->
    PrevHash b = [] -> signed_by (Device1SignPub root) g -> signed_by (RecoverySignPub root) g ->
    chain root [g] g b (Devices b)
| chain_extend l p pb m e b m' :
    chain root l p pb m ->
    json_Unmarshal (Body e) = Some b -> Version b = u64 (Version pb + 1) ->
    PrevHash b = hash_of p -> delta m b m' ->
    length m' = length (Devices b) -> m' ⊆ Devices b -> signed_by_member m e ->
    chain root (l ++ [e]) e b m'.

(** ** Signatures *)

Lemma verifySig_spec pub digest sig :
  verifySig pub digest sig = true <->
  exists pk, Unmarshal pub = Some pk /\ VerifyASN1 pk digest sig = true.
Proof. unfold verifySig, parseSignPub. destruct (Unmarshal pub); naive_solver. Qed.

Lemma genesis_flags_spec digest root sigs :
  let good pub := exists s, s ∈ sigs /\ SignerPub s = pub /\ verifySig pub digest (Sig s) = true in
  (fst (genesis_flags digest root sigs) = true <-> good (Device1SignPub root)) /\
  (snd (genesis_flags digest root sigs) = true <-> good (RecoverySignPub root)).
Proof.
  unfold genesis_flags. induction sigs as [|s sigs IH] using rev_ind; cbn zeta.
  { simpl. split; (split; [done|]); intros (s & Hs & _); by apply not_elem_of_nil in Hs. }
  rewrite !foldl_app. cbn zeta in IH. destruct (foldl _ _ sigs) as [f1 f2]. simpl in *.
  destruct IH as [IH1 IH2].
  assert (forall pub f, (f = true <-> exists s, s ∈ sigs /\ SignerPub s = pub /\
            verifySig pub digest (Sig s) = true) ->
    ((if bool_decide (SignerPub s = pub) && verifySig pub digest (Sig s) then true else f) = true
     <-> exists t, t ∈ sigs ++ [s] /\ SignerPub t = pub /\ verifySig pub digest (Sig t) = true))
    as Hstep.
  { intros pub f Hf. setoid_rewrite elem_of_app. setoid_rewrite list_elem_of_singleton.
    destruct (bool_decide (SignerPub s = pub) && verifySig pub digest (Sig s)) eqn:Hb; brefl.
    - split; [|done]. intros _. exists s. tauto.
    - rewrite Hf. split; [naive_solver|]. intros (t & [Ht| ->] & Hp & Hv); [naive_solver|].
      rewrite Hv in Hb. destruct Hb; [done|discriminate]. }
  split; by apply Hstep.
Qed.

Lemma verifyGenesisSigs_spec g root :
  verifyGenesisSigs g root = inr tt <->
  signed_by (Device1SignPub root) g /\ signed_by (RecoverySignPub root) g.
Proof.
  unfold verifyGenesisSigs. pose proof (genesis_flags_spec (Sum256 (Body g)) root (Sigs g)) as Hf.
  cbn zeta in Hf. destruct (genesis_flags _ _ _) as [f1 f2]. simpl in Hf.
  assert (forall pub, (exists s, s ∈ Sigs g /\ SignerPub s = pub /\
      verifySig pub (Sum256 (Body g)) (Sig s) = true) <-> signed_by pub g) as Hs.
  { intros pub. unfold signed_by. setoid_rewrite verifySig_spec. naive_solver. }
  rewrite !Hs in Hf. destruct Hf as [<- <-]. destruct f1, f2; simpl; naive_solver.
Qed.

Lemma verifyMemberSig_spec e m :
  verifyMemberSig e m = inr tt <-> signed_by_member m e.
Proof.
  unfold verifyMemberSig, signed_by_member, signed_by.
  induction (Sigs e) as [|s sigs IH]; simpl.
  { split; [done|]. intros (d & _ & s & pk & Hs & _). by apply not_elem_of_nil in Hs. }
  destruct (memberHasSignPub m (SignerPub s)) eqn:Hm; simpl.
  - apply memberHasSignPub_spec in Hm as (d & Hd & Hpub).
    destruct (verifySig (SignerPub s) (Sum256 (Body e)) (Sig s)) eqn:Hv.
    + split; [|done]. intros _. apply verifySig_spec in Hv as (pk & Hu & Hv).
      exists d. split; [done|]. exists s, pk. rewrite Hpub. repeat split; [by left|done..].
    + rewrite IH. split.
      * intros (d' & Hd' & t & pk & Ht & Hr). exists d'. split; [done|]. exists t, pk. set_solver.
      * intros (d' & Hd' & t & pk & Ht & Hp & Hu & Hr). apply elem_of_cons in Ht as [->|Ht].
        { assert (verifySig (SignerPub s) (Sum256 (Body e)) (Sig s) = true); [|congruence].
          apply verifySig_spec. exists pk. by rewrite Hp. }
        exists d'. split; [done|]. by exists t, pk.
  - rewrite IH. split.
    + intros (d' & Hd' & t & pk & Ht & Hr). exists d'. split; [done|]. exists t, pk. set_solver.
    + intros (d' & Hd' & t & pk & Ht & Hp & Hu & Hr). apply elem_of_cons in Ht as [->|Ht].
      { assert (memberHasSignPub m (SignerPub s) = true); [|congruence].
        apply memberHasSignPub_spec. by exists d'. }
      exists d'. split; [done|]. by exists t, pk.
Qed.

Lemma signed_hash pub e : signed_by pub e -> hash e = inr (hash_of e).
Proof.
  intros (s & pk & Hs & _). unfold hash, hash_of. destruct (Sigs e); [|done].
  by apply not_elem_of_nil in Hs.
Qed.

(** ** One round of the loop *)

Lemma chain_hash root l p b m : chain root l p b m -> hash p = inr (hash_of p).
Proof. intros [g gb ? ? ? ? Hs _|? ? ? ? ? ? ? ? ? ? ? ? ? ? (d & _ & Hs)]; by eapply signed_hash. Qed.

Lemma verify_loop_cons root l p pb m e rest r :
  chain root l p pb m ->
  verify_loop p pb m (e :: rest) = inr r <->
  exists b m', chain root (l ++ [e]) e b m' /\ verify_loop e b m' rest = inr r /\
    json_Unmarshal (Body e) = Some b /\ Version b = u64 (Version pb + 1) /\
    PrevHash b = hash_of p /\ delta m b m' /\ length m' = length (Devices b) /\
    m' ⊆ Devices b /\ signed_by_member m e.
Proof.
  intros Hc. cbn [verify_loop]. rewrite (chain_hash _ _ _ _ _ Hc). unfold parseBody. split.
  - destruct (json_Unmarshal (Body e)) as [b|] eqn:Hb; [|done].
    destruct (Z.eqb_spec (Version b) (u64 (Version pb + 1))) as [Hv|]; [|done].
    simpl. case_bool_decide as Hp; [|done]. simpl.
    destruct (applyDelta m b) as [|m'] eqn:Hd; [done|].
    destruct (sameSet m' (Devices b)) eqn:Hs; [|done]. simpl.
    destruct (verifyMemberSig e m) as [|[]] eqn:Hsig; [done|]. intros Hr.
    apply applyDelta_spec in Hd. apply sameSet_spec in Hs as [Hl Hsub].
    apply verifyMemberSig_spec in Hsig. exists b, m'. repeat split; try done.
    by eapply chain_extend.
  - intros (b & m' & Hc' & Hr & Hb & Hv & Hp & Hd & Hl & Hsub & Hsig). rewrite Hb, Hv, Z.eqb_refl. simpl.
    rewrite bool_decide_eq_true_2 by done. simpl.
    apply applyDelta_spec in Hd as ->. assert (sameSet m' (Devices b) = true) as -> by by apply sameSet_spec. simpl.
    by apply verifyMemberSig_spec in Hsig as ->.
Qed.

(** ** Soundness and completeness of the verifier *)

Lemma chain_one root g e b m :
  chain root [g] e b m ->
  e = g /\ m = Devices b /\ json_Unmarshal (Body g) = Some b /\ Type_ b = EntryGenesis /\
  Version b = 1 /\ PrevHash b = [] /\ signed_by (Device1SignPub root) g /\
  signed_by (RecoverySignPub root) g.
Proof.
  intros Hc. remember [g] as l eqn:Hl. destruct Hc as [g' b|l p pb m e b m' Hc]; simplify_eq; [done|].
  destruct l as [|x l]; [by inversion Hc; destruct l|]. by destruct l.
Qed.

Lemma VerifyDeviceSet_genesis g rest root r :
  VerifyDeviceSet (Some {| Entries := g :: rest |}) root = inr r <->
  exists b, chain root [g] g b (Devices b) /\ verify_loop g b (Devices b) rest = inr r.
Proof.
  cbn [VerifyDeviceSet Entries]. unfold parseBody. split.
  - destruct (json_Unmarshal (Body g)) as [b|] eqn:Hb; [|done].
    case_bool_decide as Ht; [|done]. simpl.
    destruct (Z.eqb_spec (Version b) 1) as [Hv|]; [|done]. simpl.
    destruct (Nat.eqb_spec (length (PrevHash b)) 0) as [Hp|]; [|done]. simpl.
    destruct (verifyGenesisSigs g root) as [|[]] eqn:Hs; [done|]. rewrite cloneRefs_id. intros Hr.
    apply nil_length_inv in Hp. apply verifyGenesisSigs_spec in Hs as [? ?].
    exists b. split; [|done]. by constructor.
  - intros (b & Hc & Hr). apply chain_one in Hc as (_ & _ & Hu & Ht & Hv & Hp & Hs1 & Hs2).
    rewrite Hu, bool_decide_eq_true_2, Hv, Hp by done. simpl.
    assert (verifyGenesisSigs g root = inr tt) as -> by by apply verifyGenesisSigs_spec.
    by rewrite cloneRefs_id.
Qed.

Lemma verify_loop_sound root rest l p pb m r :
  chain root l p pb m -> verify_loop p pb m rest = inr r ->
  exists e b, chain root (l ++ rest) e b r.
Proof.
  revert l p pb m. induction rest as [|e rest IH]; intros l p pb m Hc Hr.
  { simplify_eq/=. rewrite app_nil_r. eauto. }
  eapply verify_loop_cons in Hr as (b & m' & Hc' & Hr & _); [|done].
  rewrite cons_middle, app_assoc. by eapply IH.
Qed.

Lemma verify_loop_complete root l e b m rest r :
  chain root l e b m ->
  VerifyDeviceSet (Some {| Entries := l ++ rest |}) root = inr r <->
  verify_loop e b m rest = inr r.
Proof.
  intros Hc. revert rest. induction Hc as [g b Hu Ht Hv Hp Hs1 Hs2
    |l p pb m e b m' Hc IH Hu Hv Hp Hd Hl Hsub Hsig]; intros rest.
  - cbn [app]. rewrite VerifyDeviceSet_genesis. split.
    + intros (b' & Hc & Hr). apply chain_one in Hc as (_ & _ & Hu' & _). by simplify_eq.
    + intros Hr. exists b. split; [by constructor|done].
  - rewrite <- app_assoc. cbn [app]. rewrite IH, (verify_loop_cons root l) by done. split.
    + intros (b' & m'' & _ & Hr & Hu' & _ & _ & Hd' & _). simplify_eq.
      apply applyDelta_spec in Hd, Hd'. congruence.
    + intros Hr. exists b, m'. repeat split; try done. by eapply chain_extend.
Qed.

Lemma VerifyDeviceSet_chain l root m :
  VerifyDeviceSet (Some l) root = inr m <-> exists e b, chain root (Entries l) e b m.
Proof.
  destruct l as [l]. cbn [Entries]. split.
  - destruct l as [|g rest]; [done|]. rewrite VerifyDeviceSet_genesis.
    intros (b & Hc & Hr). by eapply (verify_loop_sound root rest [g]).
  - intros (e & b & Hc). rewrite <- (app_nil_r l). by rewrite (verify_loop_complete root l e b m).
Qed.

Lemma chain_head root l e b m :
  chain root l e b m ->
  last l = Some e /\ json_Unmarshal (Body e) = Some b /\ l <> [].
Proof.
  intros []; (split; [|split]); try done; [apply last_snoc|]. by destruct l0.
Qed.

Lemma chain_fun root l e b m e' b' m' :
  chain root l e b m -> chain root l e' b' m' -> e = e' /\ b = b' /\ m = m'.
Proof.
  intros H1 H2. pose proof (chain_head _ _ _ _ _ H1) as (He & Hb & _).
  pose proof (chain_head _ _ _ _ _ H2) as (He' & Hb' & _). simplify_eq. repeat split; [done..|].
  assert (forall m e b, chain root l e b m -> VerifyDeviceSet (Some {| Entries := l |}) root = inr m)
    as Hv by (intros; apply VerifyDeviceSet_chain; eauto).
  apply Hv in H1, H2. congruence.
Qed.

(** The entries before the last of a longer chain are a chain that accepts it. *)
Lemma chain_snoc_inv root l e e' b m' :
  chain root (l ++ [e]) e' b m' -> l <> [] ->
  exists p pb m, chain root l p pb m /\ json_Unmarshal (Body e) = Some b /\
    Version b = u64 (Version pb + 1) /\ PrevHash b = hash_of p /\ delta m b m' /\
    length m' = length (Devices b) /\ m' ⊆ Devices b /\ signed_by_member m e.
Proof.
  intros Hc Hl. inversion Hc as [g b' ? ? ? ? ? ? Heq|l' p pb m e'' b' m'' Hc' ? ? ? ? ? ? ? Heq]; subst.
  - by destruct l as [|x [|y l]].
  - apply app_inj_tail in Heq as [-> ->]. exists p, pb, m. done.
Qed.

Lemma chain_prefix root l1 l2 e b m :
  chain root (l1 ++ l2) e b m -> l1 <> [] -> exists e' b' m', chain root l1 e' b' m'.
Proof.
  revert e b m. induction l2 as [|x l2 IH] using rev_ind; intros e b m Hc Hl.
  { rewrite app_nil_r in Hc. eauto. }
  rewrite app_assoc in Hc. apply chain_snoc_inv in Hc as (p & pb & m0 & Hc & _).
  - by eapply IH.
  - by destruct l1.
Qed.
End chain.
