(* ===== verification/DeviceSetContract.v ===== *)
(** * The contract of the device-set log

    What a client that holds the owner root may conclude from an accepted log, and what the
    owner's devices obtain by following the protocol.  The toy instance at the end is the one
    the witnesses compute with. *)

From S2P Require Import Prelude GoLib DeviceSet DeviceSetLaws.
From Stdlib Require Import Ascii.
Open Scope Z_scope.

(** ** What the honest side needs of the packages below *)

Definition label_ok (o : option EntryLabel) : Prop :=
  match o with
  | None => True
  | Some lb => utf8 (bytes_of (Name lb)) /\ utf8 (bytes_of (EnrolledAt lb))
  end.

(** Bodies encoding/json carries unchanged: strings that are valid UTF-8 (others are coerced),
    a version in the range of its type. *)
Definition json_ok (b : entryBody) : Prop :=
  0 <= Version b < 2 ^ 64 /\ utf8 (bytes_of (Type_ b)) /\
  label_ok (Label b) /\ label_ok (RecoveryLabel b).

Class CryptoLaws (C : Crypto) := {
  Unmarshal_Marshal k : Unmarshal (Marshal (PublicKey k)) = Some (PublicKey k);
  Verify_Sign rnd k digest sig :
    SignASN1 rnd k digest = Some sig -> VerifyASN1 (PublicKey k) digest sig = true;
  json_total b : json_ok b -> json_Marshal b <> None;
  json_roundtrip b body : json_ok b -> json_Marshal b = Some body -> json_Unmarshal body = Some b
}.

(** ** The verifier, for arbitrary logs *)

(** C9: [VerifyDeviceSet] accepts a log with the membership [m] exactly when the log is a chain
    anchored in the owner root: a genesis of version 1 co-signed by both owner keys, then
    entries that name the hash of their predecessor, increment its version, apply one addition
    or removal the declared membership agrees with, and carry a valid signature of a member of
    the membership before them.  The result, and every rejection, is thereby determined. *)
Theorem verify_accepts_exactly_chains `{Crypto} l root m :
  VerifyDeviceSet (Some l) root = inr m <->
  exists e b, chain root (Entries l) e b m.
Proof. apply VerifyDeviceSet_chain. Qed.

(** An accepted log holds no injected entry: at every entry after the genesis the log up to
    it is accepted too, a member of that earlier membership signed the entry's body, and the
    entry adds or removes exactly one device.  Whoever stores the log but holds no member's key
    cannot extend it. *)
Theorem injected_entry_needs_member `{Crypto} root l1 e l2 m :
  l1 <> [] ->
  VerifyDeviceSet (Some {| Entries := l1 ++ e :: l2 |}) root = inr m ->
  exists before after d,
    VerifyDeviceSet (Some {| Entries := l1 |}) root = inr before /\
    VerifyDeviceSet (Some {| Entries := l1 ++ [e] |}) root = inr after /\
    signed_by_member before e /\
    (after ≡ₚ d :: before /\ ~ d ∈ before \/ before ≡ₚ d :: after).
Proof.
  intros Hl Hv. apply VerifyDeviceSet_chain in Hv as (e' & b & Hc). cbn [Entries] in Hc.
  rewrite cons_middle, app_assoc in Hc.
  apply chain_prefix in Hc as (e1 & b1 & after & Hc); [|by destruct l1].
  pose proof Hc as Hc'. apply chain_snoc_inv in Hc'
    as (p & pb & before & Hp & Hu & Hver & Hprev & Hd & Hlen & Hsub & Hs); [|done].
  destruct (delta_perm _ _ _ Hd) as [d Hperm].
  exists before, after, d. rewrite !VerifyDeviceSet_chain. cbn [Entries]. eauto 10.
Qed.

Lemma genesis_unique `{Crypto} root g rest e b m :
  chain root (g :: rest) e b m -> exists gb, chain root [g] g gb (Devices gb).
Proof.
  intros Hc. destruct (chain_prefix root [g] rest e b m Hc) as (e' & gb & m' & Hg); [done|].
  pose proof (chain_one _ _ _ _ _ Hg) as (-> & -> & _). eauto.
Qed.

Lemma chain_membership `{Crypto} root l e b m :
  chain root l e b m ->
  (forall g gb, hd_error l = Some g -> json_Unmarshal (Body g) = Some gb -> NoDup (Devices gb)) ->
  NoDup m /\ m ≡ₚ Devices b /\ Version b = u64 (Z.of_nat (length l)).
Proof.
  induction 1 as [g b Hu Ht Hv|l p pb m e b m' Hc IH Hu Hv Hp Hd Hl Hsub Hs]; intros Hg.
  - rewrite Hv. split; [by apply (Hg g)|]. done.
  - pose proof (chain_head _ _ _ _ _ Hc) as (_ & _ & Hne).
    destruct IH as (Hnd & Hperm & Hver).
    { intros g gb Hh. apply Hg. by destruct l. }
    pose proof (delta_NoDup _ _ _ Hnd Hd) as Hnd'. split; [done|]. split.
    + apply submseteq_length_Permutation; [|lia]. by apply NoDup_submseteq.
    + rewrite Hv, Hver, length_app. unfold u64. rewrite Zplus_mod_idemp_l. f_equal. simpl. lia.
Qed.

(** The membership an accepted log resolves to is, as a set, the one its head entry
    declares: when the genesis lists no device twice, neither does the result, and it is a
    permutation of [HeadDevices]; the head's version is the number of entries (modulo 2^64). *)
Theorem accepted_membership `{Crypto} root g gb rest m :
  let l := {| Entries := g :: rest |} in
  json_Unmarshal (Body g) = Some gb -> NoDup (Devices gb) ->
  VerifyDeviceSet (Some l) root = inr m ->
  NoDup m /\ m ≡ₚ HeadDevices l /\ HeadVersion l = u64 (Z.of_nat (length (Entries l))).
Proof.
  cbn zeta. intros Hu Hnd Hv. apply VerifyDeviceSet_chain in Hv as (e & b & Hc).
  cbn [Entries] in *. pose proof (chain_head _ _ _ _ _ Hc) as (Hlast & Hb & _).
  destruct (chain_membership _ _ _ _ _ Hc) as (Hm & Hp & Hver).
  { intros g' gb' [= <-] Hu'. by simplify_eq. }
  unfold HeadDevices, HeadVersion, parseBody. cbn [Entries]. by rewrite Hlast, Hb.
Qed.

(** ** The head hash *)

Definition collision `{Crypto} : Prop := exists x y, x <> y /\ Sum256 x = Sum256 y.

Lemma hash_of_inj `{Crypto} e e' :
  sized_entry e -> sized_entry e' -> hash_of e = hash_of e' -> e = e' \/ collision.
Proof.
  intros He He' Hh.
  destruct (decide (encodeFields (hash_parts e) = encodeFields (hash_parts e'))) as [Heq|Hne].
  - left. by apply hash_parts_inj, encodeFields_inj; [apply hash_parts_sized..|].
  - right. by exists (encodeFields (hash_parts e)), (encodeFields (hash_parts e')).
Qed.

Lemma chain_commits `{Crypto} root1 root2 l1 e1 b1 m1 l2 e2 b2 m2 :
  (forall x, Sum256 x <> []) ->
  chain root1 l1 e1 b1 m1 -> chain root2 l2 e2 b2 m2 ->
  Forall sized_entry l1 -> Forall sized_entry l2 -> hash_of e1 = hash_of e2 ->
  l1 = l2 \/ collision.
Proof.
  intros Hne H1. revert l2 e2 b2 m2.
  induction H1 as [g b Hu Ht Hv Hp|l p pb m e b m' Hc IH Hu Hv Hp _ _ _ _];
    intros l2 e2 b2 m2 H2 Hs1 Hs2 Hh.
  - destruct H2 as [g2 b2|l2 p2 pb2 m2 e2 b2 m2' H2 Hu2 _ Hp2].
    + apply Forall_cons in Hs1 as [Hs1 _], Hs2 as [Hs2 _].
      destruct (hash_of_inj _ _ Hs1 Hs2 Hh) as [->|]; [by left|by right].
    + apply Forall_cons in Hs1 as [Hs1 _]. apply Forall_app in Hs2 as [_ [Hs2 _]%Forall_cons].
      destruct (hash_of_inj _ _ Hs1 Hs2 Hh) as [->|]; [|by right].
      exfalso. apply (Hne (encodeFields (hash_parts p2))). change (hash_of p2 = []). congruence.
  - apply Forall_app in Hs1 as [Hs1 [Hse _]%Forall_cons].
    destruct H2 as [g2 b2 Hu2 _ _ Hp2|l2 p2 pb2 m2 e2 b2 m2' H2 Hu2 _ Hp2].
    + apply Forall_cons in Hs2 as [Hs2 _].
      destruct (hash_of_inj _ _ Hse Hs2 Hh) as [->|]; [|by right].
      exfalso. apply (Hne (encodeFields (hash_parts p))). change (hash_of p = []). congruence.
    + apply Forall_app in Hs2 as [Hs2 [Hse2 _]%Forall_cons].
      destruct (hash_of_inj _ _ Hse Hse2 Hh) as [->|]; [|by right].
      destruct (IH l2 p2 pb2 m2 H2 Hs1 Hs2) as [->|]; [congruence|by left|by right].
Qed.

(** The head hash commits to the whole log: two accepted logs (whatever their owner roots)
    with the same [HeadHash] are equal, entry by entry and signature by signature, or a
    collision of SHA-256 has been found. *)
Theorem head_hash_commits `{Crypto} root1 root2 l1 l2 m1 m2 h :
  (forall x, Sum256 x <> []) ->
  Forall sized_entry (Entries l1) -> Forall sized_entry (Entries l2) ->
  VerifyDeviceSet (Some l1) root1 = inr m1 -> VerifyDeviceSet (Some l2) root2 = inr m2 ->
  HeadHash l1 = inr h -> HeadHash l2 = inr h ->
  l1 = l2 \/ collision.
Proof.
  intros Hne Hs1 Hs2 Hv1 Hv2 Hh1 Hh2.
  apply VerifyDeviceSet_chain in Hv1 as (e1 & b1 & Hc1), Hv2 as (e2 & b2 & Hc2).
  pose proof (chain_head _ _ _ _ _ Hc1) as (Hl1 & _). pose proof (chain_head _ _ _ _ _ Hc2) as (Hl2 & _).
  unfold HeadHash in Hh1, Hh2. rewrite Hl1 in Hh1. rewrite Hl2 in Hh2.
  rewrite (chain_hash _ _ _ _ _ Hc1) in Hh1. rewrite (chain_hash _ _ _ _ _ Hc2) in Hh2.
  destruct (chain_commits _ _ _ _ _ _ _ _ _ _ Hne Hc1 Hc2 Hs1 Hs2) as [Heq|]; [congruence| |by right].
  left. destruct l1 as [x1], l2 as [x2]. cbn [Entries] in Heq. by subst.
Qed.

(** ** Logs the owner's devices author *)

Section honest.
Context `{CryptoLaws}.

(** A log made by the operations of the package, with the membership its author means. *)
Inductive built : OwnerRoot -> DeviceSetLog -> list DeviceRef -> Prop :=
| built_genesis rnd1 rnd2 now d1 rec n1 n2 l :
    utf8 (bytes_of now) -> utf8 (bytes_of n1) -> utf8 (bytes_of n2) ->
    NewGenesisLabeled rnd1 rnd2 now (Some d1) (Some rec) n1 n2 = inr l ->
    built {| Device1SignPub := SignPub (Ref d1); RecoverySignPub := SignPub (Ref rec) |} l
      [Ref d1; Ref rec]
| built_add root l m rnd now new signer name l' :
    built root l m -> utf8 (bytes_of now) -> utf8 (bytes_of name) ->
    AddDeviceLabeled rnd now new signer name l = inr l' ->
    built root l' (m ++ [new])
| built_remove root l pre d post rnd target signer l' :
    built root l (pre ++ d :: post) -> X25519Pub d = target ->
    Forall (fun x => X25519Pub x <> target) pre ->
    RemoveDevice rnd target signer l = inr l' ->
    built root l' (pre ++ post).

Lemma utf8_entry_types : utf8 (bytes_of EntryGenesis) /\ utf8 (bytes_of EntryAdd) /\
  utf8 (bytes_of EntryRemove).
Proof.
  split; [|split]; cbv [bytes_of String.list_ascii_of_string EntryGenesis EntryAdd EntryRemove];
    repeat (apply (utf8_app _ 1); [reflexivity|lia|cbn [drop]]); constructor.
Qed.

Lemma sign_signed rnd d e e' :
  sign rnd d e = inr e' -> Body e' = Body e /\ signed_by (SignPub (Ref d)) e' /\
    exists s, Sigs e' = Sigs e ++ [s].
Proof.
  unfold sign. destruct (SignASN1 _ _ _) as [sig|] eqn:Hs; [|done]. intros [= <-].
  split; [done|]. split; [|eauto]. unfold Ref, marshalSignPub. cbn.
  eexists _, (PublicKey (device_Sign d)).
  split; [apply elem_of_app; right; by apply list_elem_of_singleton|]. cbn.
  split; [done|]. split; [by apply Unmarshal_Marshal|]. by eapply Verify_Sign.
Qed.

Lemma signed_by_mono pub e e' s :
  signed_by pub e -> Body e' = Body e -> Sigs e' = Sigs e ++ [s] -> signed_by pub e'.
Proof.
  intros (t & pk & Ht & Hp & Hu & Hv) Hb Hs. exists t, pk. rewrite Hb, Hs. set_solver.
Qed.

(** The log a successful [appendMutation] leaves is a longer chain. *)
Lemma appendMutation_chain root l p pb m rnd t c devs signer label l' :
  chain root (Entries l) p pb m -> Devices pb = m -> utf8 (bytes_of t) -> label_ok label ->
  (forall b, Type_ b = t -> Change b = c -> delta m b devs) ->
  appendMutation rnd t c devs signer label l = inr l' ->
  exists e b, chain root (Entries l') e b devs /\ Devices b = devs.
Proof.
  intros Hc Hdev Ht Hlb Hd. unfold appendMutation, head.
  destruct (chain_head _ _ _ _ _ Hc) as (Hlast & Hu & _).
  rewrite Hlast. unfold parseBody. rewrite Hu, Hdev.
  destruct (memberIndex m (Ref signer)) as [i|] eqn:Hi; [|done].
  apply memberIndex_Some in Hi as (pre & post & Hm & _). cbn [is_none].
  rewrite (chain_hash _ _ _ _ _ Hc). unfold buildEntry.
  set (b := {| Version := _ |}). assert (json_ok b) as Hok by
    (split; [apply u64_range|]; repeat split; done).
  destruct (json_Marshal b) as [body|] eqn:Hj; [|done].
  destruct (sign _ _ _) as [|e] eqn:Hs; [done|]. intros [= <-].
  apply sign_signed in Hs as (Hbody & Hs & _). cbn [Entries].
  exists e, b. split; [|done]. eapply chain_extend; [done| |done|done|by apply Hd|done|done|].
  - rewrite Hbody. by apply json_roundtrip.
  - exists (Ref signer). split; [rewrite Hm; set_solver|done].
Qed.

Lemma genesis_chain rnd1 rnd2 now d1 rec n1 n2 l :
  utf8 (bytes_of now) -> utf8 (bytes_of n1) -> utf8 (bytes_of n2) ->
  NewGenesisLabeled rnd1 rnd2 now (Some d1) (Some rec) n1 n2 = inr l ->
  exists e b, Devices b = [Ref d1; Ref rec] /\
    chain {| Device1SignPub := SignPub (Ref d1); RecoverySignPub := SignPub (Ref rec) |}
      (Entries l) e b [Ref d1; Ref rec].
Proof.
  intros Hnow Hn1 Hn2. unfold NewGenesisLabeled, buildEntry. set (b := {| Version := _ |}).
  assert (json_ok b) as Hok by (split; [done|]; split; [apply utf8_entry_types|done]).
  destruct (json_Marshal b) as [body|] eqn:Hj; [|done].
  destruct (sign rnd1 _ _) as [|e1] eqn:Hs1; [done|].
  destruct (sign rnd2 _ _) as [|e2] eqn:Hs2; [done|]. intros [= <-].
  apply sign_signed in Hs1 as (Hb1 & Hs1 & _). apply sign_signed in Hs2 as (Hb2 & Hs2 & s & Hss).
  cbn [Entries]. exists e2, b. split; [done|].
  change [Ref d1; Ref rec] with (Devices b) at 1. apply chain_genesis; try done.
  - rewrite Hb2, Hb1. by apply json_roundtrip.
  - by eapply signed_by_mono.
Qed.

Lemma built_chain root l m :
  built root l m -> exists e b, chain root (Entries l) e b m /\ Devices b = m.
Proof.
  induction 1 as [rnd1 rnd2 now d1 rec n1 n2 l Hnow Hn1 Hn2 Hl
    |root l m rnd now new signer name l' _ (p & pb & Hc & Hdev) Hnow Hname Hl
    |root l pre d post rnd target signer l' _ (p & pb & Hc & Hdev) Hd Hpre Hl].
  - apply genesis_chain in Hl as (e & b & Hdev & Hc); [|done..]. eauto.
  - destruct (chain_head _ _ _ _ _ Hc) as (Hlast & Hu & _).
    unfold AddDeviceLabeled, head, parseBody in Hl. rewrite Hlast, Hu, Hdev in Hl.
    destruct (memberIndex m new) eqn:Hi; [done|]. apply memberIndex_None in Hi.
    rewrite cloneRefs_id in Hl. eapply appendMutation_chain in Hl; [done|done|done| |done|].
    + apply utf8_entry_types.
    + intros b Ht Hch. by apply delta_add.
  - destruct (chain_head _ _ _ _ _ Hc) as (Hlast & Hu & _).
    unfold RemoveDevice, head, parseBody in Hl. rewrite Hlast, Hu, Hdev in Hl.
    assert (index_where (fun x => bool_decide (X25519Pub x = target)) (pre ++ d :: post)
      = Some (length pre)) as Hi.
    { apply index_where_Some. exists pre, d, post. repeat split.
      - by apply bool_decide_eq_true.
      - eapply Forall_impl; [done|]. intros x Hx. by apply bool_decide_eq_false. }
    rewrite Hi, list_lookup_middle, without_app in Hl by done.
    eapply appendMutation_chain in Hl; [done|done|done| |done|].
    + apply utf8_entry_types.
    + intros b Ht Hch. eapply delta_remove; [done..|]. intros Hin.
      rewrite Forall_forall in Hpre. by apply (Hpre d).
Qed.
End honest.

(** A log built by the owner's devices — a genesis by device 1 and the recovery device, then
    any additions and removals by members that answered no error — is accepted by every client
    that holds the owner root, with exactly the membership the author meant, in order; and its
    head declares the same list. *)
Theorem honest_logs_verify `{CryptoLaws} root l m :
  built root l m ->
  VerifyDeviceSet (Some l) root = inr m /\ HeadDevices l = m.
Proof.
  intros (e & b & Hc & Hdev)%built_chain. split; [apply VerifyDeviceSet_chain; eauto|].
  destruct (chain_head _ _ _ _ _ Hc) as (Hlast & Hu & _).
  unfold HeadDevices, parseBody. by rewrite Hlast, Hu.
Qed.

(** Every branch of [AddDeviceLabeled] on such a log: an enrolled device is refused as
    already enrolled, a signer outside the membership is refused as no member, and otherwise
    (when the signing primitive answers) the device is enrolled: the new log is accepted with
    the membership extended by it. *)
Theorem add_device_outcome `{CryptoLaws} root l m rnd now new signer name :
  built root l m -> utf8 (bytes_of now) -> utf8 (bytes_of name) ->
  (forall digest, SignASN1 rnd (device_Sign signer) digest <> None) ->
  let outcome := AddDeviceLabeled rnd now new signer name l in
  if decide (new ∈ m) then outcome = inl err_already_enrolled
  else if decide (Ref signer ∈ m) then
    exists l', outcome = inr l' /\ VerifyDeviceSet (Some l') root = inr (m ++ [new])
  else outcome = inl err_signer_not_member.
Proof.
  intros Hb Hnow Hname Hsig outcome.
  destruct (built_chain _ _ _ Hb) as (p & pb & Hc & Hdev).
  destruct (chain_head _ _ _ _ _ Hc) as (Hlast & Hu & _).
  assert (outcome = match memberIndex m new with
    | Some _ => inl err_already_enrolled
    | None => appendMutation rnd EntryAdd (Some new) (cloneRefs m ++ [new]) signer
                (Some {| Name := name; EnrolledAt := now |}) l end) as Ho.
  { unfold outcome, AddDeviceLabeled, head, parseBody. by rewrite Hlast, Hu, Hdev. }
  destruct (decide (new ∈ m)) as [Hin|Hni].
  { rewrite Ho. destruct (memberIndex m new) eqn:Hi; [done|]. by apply memberIndex_None in Hi. }
  rewrite Ho. assert (memberIndex m new = None) as -> by by apply memberIndex_None.
  assert (forall l', outcome = inr l' -> VerifyDeviceSet (Some l') root = inr (m ++ [new])) as Hv.
  { intros l' Hl'. destruct (built_chain root l' (m ++ [new])) as (e & b & Hc' & _).
    - exact (built_add root l m rnd now new signer name l' Hb Hnow Hname Hl').
    - apply VerifyDeviceSet_chain. eauto. }
  unfold appendMutation, head, parseBody in *. rewrite Hlast in *. rewrite Hu, Hdev in *.
  destruct (decide (Ref signer ∈ m)) as [Hs|Hs].
  2: { apply memberIndex_None in Hs. by rewrite Hs. }
  destruct (memberIndex m (Ref signer)) as [i|] eqn:Hi; [|by apply memberIndex_None in Hi].
  assert (memberIndex m new = None) as Hn by by apply memberIndex_None.
  rewrite Hn in Ho. cbn [is_none] in *. rewrite (chain_hash _ _ _ _ _ Hc) in *.
  unfold buildEntry, sign in *.
  match type of Ho with context [json_Marshal ?b] =>
    assert (json_Marshal b <> None) as Hj
  end.
  { apply json_total. split; [apply u64_range|]. split; [apply utf8_entry_types|done]. }
  destruct (json_Marshal _) as [body|]; [|done]. cbn [Body] in *.
  destruct (SignASN1 _ _ _) as [sig|] eqn:Hsg; [|by apply Hsig in Hsg].
  eexists. split; [reflexivity|]. by apply Hv.
Qed.

(** ** A toy instance of the packages, for the witnesses

    Keys are byte strings, a signature is the key followed by the digest, the digest of a
    message is its length modulo 256, and a body's encoding is stdpp's [encode],
    written as one byte per bit. *)

#[export] Instance DeviceRef_countable : Countable DeviceRef :=
  inj_countable' (fun d => (X25519Pub d, SignPub d))
    (fun '(x, s) => {| X25519Pub := x; SignPub := s |}) ltac:(by intros []).
#[export] Instance EntryLabel_eq_dec : EqDecision EntryLabel.
Proof. solve_decision. Defined.
#[export] Instance EntryLabel_countable : Countable EntryLabel :=
  inj_countable' (fun l => (Name l, EnrolledAt l))
    (fun '(n, a) => {| Name := n; EnrolledAt := a |}) ltac:(by intros []).
#[export] Instance entryBody_eq_dec : EqDecision entryBody.
Proof. solve_decision. Defined.
#[export] Instance entryBody_countable : Countable entryBody :=
  inj_countable'
    (fun b => (Version b, Type_ b, PrevHash b, Change b, Devices b, Label b, RecoveryLabel b))
    (fun '(v, t, p, c, d, l, r) =>
       {| Version := v; Type_ := t; PrevHash := p; Change := c; Devices := d; Label := l;
          RecoveryLabel := r |}) ltac:(by intros []).

Module Toy.
Fixpoint bits (p : positive) : bytes :=
  match p with
  | xH => []
  | xO p => "0"%char :: bits p
  | xI p => "1"%char :: bits p
  end.
Fixpoint of_bits (l : bytes) : positive :=
  match l with
  | [] => xH
  | a :: l => if Ascii.eqb a "0" then xO (of_bits l) else xI (of_bits l)
  end.
Lemma of_bits_bits p : of_bits (bits p) = p.
Proof. induction p; simpl; congruence. Qed.

#[export] Instance crypto : Crypto := {|
  PrivKey := bytes; PubKey := bytes; PublicKey k := k;
  Marshal k := "4"%char :: k;
  Unmarshal b := match b with a :: k => if Ascii.eqb a "4" then Some k else None | [] => None end;
  Rand := unit;
  SignASN1 _ k digest := Some (k ++ digest);
  VerifyASN1 k digest sig := bool_decide (sig = k ++ digest);
  Sum256 x := ["h"%char; ascii_of_nat (length x)];
  json_Marshal b := Some (bits (encode b));
  json_Unmarshal l := decode (of_bits l)
|}.

#[export] Instance laws : CryptoLaws crypto.
Proof.
  split; [done| | |]; cbn.
  - intros _ k digest sig [= <-]. by apply bool_decide_eq_true.
  - done.
  - intros b body _ [= <-]. by rewrite of_bits_bits, decode_encode.
Qed.

Definition dev (x s : ascii) : Device := {| device_X25519Pub := [x]; device_Sign := [s] |}.
Definition d1 := dev "a" "A".
Definition rec := dev "r" "R".
Definition d2 := dev "b" "B".
Definition root : OwnerRoot :=
  {| Device1SignPub := SignPub (Ref d1); RecoverySignPub := SignPub (Ref rec) |}.
Definition log_of (r : result seal_error DeviceSetLog) : DeviceSetLog :=
  match r with inr l => l | inl _ => {| Entries := [] |} end.
Definition log1 : DeviceSetLog := log_of (NewGenesis tt tt "" (Some d1) (Some rec)).
Definition log2 : DeviceSetLog := log_of (AddDevice tt "" (Ref d2) d1 log1).

Lemma log1_ok : NewGenesis tt tt "" (Some d1) (Some rec) = inr log1.
Proof. reflexivity. Qed.
Lemma log2_ok : AddDevice tt "" (Ref d2) d1 log1 = inr log2.
Proof. vm_compute. reflexivity. Qed.

Definition nil_entry : StoredEntry := {| Body := []; Sigs := [] |}.
Definition g : StoredEntry := nth 0 (Entries log2) nil_entry.
Definition e2 : StoredEntry := nth 1 (Entries log2) nil_entry.
Definition gb : entryBody :=
  {| Version := 1; Type_ := EntryGenesis; PrevHash := []; Change := None;
     Devices := [Ref d1; Ref rec];
     Label := Some {| Name := "device1"; EnrolledAt := "" |};
     RecoveryLabel := Some {| Name := "recovery"; EnrolledAt := "" |} |}.
Definition members : list DeviceRef := [Ref d1; Ref rec; Ref d2].

Lemma log2_entries : log2 = {| Entries := [g] ++ e2 :: [] |}.
Proof. vm_compute. reflexivity. Qed.
Lemma log2_accepted : VerifyDeviceSet (Some {| Entries := [g] ++ e2 :: [] |}) root = inr members.
Proof. vm_compute. reflexivity. Qed.
Lemma g_body : json_Unmarshal (Body g) = Some gb.
Proof. vm_compute. reflexivity. Qed.
Lemma gb_nodup : NoDup (Devices gb).
Proof. apply (bool_decide_eq_true_1 (NoDup (Devices gb))). reflexivity. Qed.
Lemma utf8_names : utf8 (bytes_of "") /\ utf8 (bytes_of "device1") /\ utf8 (bytes_of "recovery").
Proof.
  split; [|split]; cbv [bytes_of String.list_ascii_of_string];
    repeat (apply (utf8_app _ 1); [reflexivity|lia|cbn [drop]]); constructor.
Qed.
Lemma sized_log2 : Forall sized_entry (Entries log2).
Proof.
  assert (forallb (fun e => (Z.of_nat (length (Body e)) <? 2 ^ 63) &&
    forallb (fun s => (Z.of_nat (length (SignerPub s)) <? 2 ^ 63) && (Z.of_nat (length (Sig s)) <? 2 ^ 63)) (Sigs e))
    (Entries log2) = true) as Hb by (vm_compute; reflexivity).
  apply Forall_forall. intros e He. rewrite forallb_forall in Hb.
  apply list_elem_of_In, Hb in He. apply andb_true_iff in He as [He Hs].
  unfold sized_entry, sized. apply Z.ltb_lt in He. split; [done|].
  apply Forall_forall. intros s Hin. rewrite forallb_forall in Hs.
  apply list_elem_of_In, Hs in Hin. by brefl.
Qed.
Lemma built1 : built root log1 [Ref d1; Ref rec].
Proof.
  destruct utf8_names as (H0 & H1 & H2).
  exact (built_genesis tt tt "" d1 rec "device1" "recovery" log1 H0 H1 H2 log1_ok).
Qed.
Lemma built2 : built root log2 members.
Proof.
  destruct utf8_names as (H0 & _).
  exact (built_add root log1 [Ref d1; Ref rec] tt "" (Ref d2) d1 "" log2 built1 H0 H0 log2_ok).
Qed.
End Toy.
#[local] Existing Instances Toy.crypto Toy.laws.

Lemma injected_entry_needs_member_witness :
  exists before after d,
    VerifyDeviceSet (Some {| Entries := [Toy.g] |}) Toy.root = inr before /\
    VerifyDeviceSet (Some {| Entries := [Toy.g] ++ [Toy.e2] |}) Toy.root = inr after /\
    signed_by_member before Toy.e2 /\
    (after ≡ₚ d :: before /\ ~ d ∈ before \/ before ≡ₚ d :: after).
Proof.
  apply (injected_entry_needs_member Toy.root [Toy.g] Toy.e2 [] Toy.members);
    [discriminate|apply Toy.log2_accepted].
Defined.

Lemma accepted_membership_witness :
  NoDup Toy.members /\ Toy.members ≡ₚ HeadDevices {| Entries := [Toy.g; Toy.e2] |} /\
  HeadVersion {| Entries := [Toy.g; Toy.e2] |} = u64 2.
Proof.
  apply (accepted_membership Toy.root Toy.g Toy.gb [Toy.e2] Toy.members);
    [apply Toy.g_body|apply Toy.gb_nodup|apply Toy.log2_accepted].
Defined.

Lemma head_hash_commits_witness :
  Toy.log2 = {| Entries := [Toy.g] ++ Toy.e2 :: [] |} \/ collision.
Proof.
  apply (head_hash_commits Toy.root Toy.root Toy.log2 {| Entries := [Toy.g] ++ Toy.e2 :: [] |}
           Toy.members Toy.members (hash_of Toy.e2)).
  - discriminate.
  - apply Toy.sized_log2.
  - rewrite <- Toy.log2_entries. apply Toy.sized_log2.
  - rewrite Toy.log2_entries. apply Toy.log2_accepted.
  - apply Toy.log2_accepted.
  - vm_compute. reflexivity.
  - vm_compute. reflexivity.
Defined.

Lemma honest_logs_verify_witness :
  VerifyDeviceSet (Some Toy.log2) Toy.root = inr Toy.members /\ HeadDevices Toy.log2 = Toy.members.
Proof. apply (honest_logs_verify Toy.root Toy.log2 Toy.members), Toy.built2. Defined.

Lemma add_device_outcome_witness :
  exists l', AddDeviceLabeled tt "" (Ref Toy.d2) Toy.d1 "" Toy.log1 = inr l' /\
    VerifyDeviceSet (Some l') Toy.root = inr ([Ref Toy.d1; Ref Toy.rec] ++ [Ref Toy.d2]).
Proof.
  pose proof (add_device_outcome Toy.root Toy.log1 [Ref Toy.d1; Ref Toy.rec] tt "" (Ref Toy.d2)
    Toy.d1 "" Toy.built1 (proj1 Toy.utf8_names) (proj1 Toy.utf8_names)) as Hout.
  apply Hout. discriminate.
Defined.
