(* ===== verification/ExecStream.v ===== *)
(** * The exec frame stream (src/internal/execstream/frame.go)

    A length-prefixed stream of typed frames: the node muxes a command's stdout, stderr and
    exit code into it, spawnctl demuxes them.  An [io.Writer] is an implementation of the class
    [Writer]; an [io.Reader] is the sequence of bytes it will still deliver, then end of file. *)

From Stdlib Require Import Ascii.
From S2P Require Import Prelude GoLib.
Open Scope Z_scope.

(** ** Data *)

(** [FrameType] is a byte; a reader meets unknown ones. *)
Definition FrameType := ascii.
Definition Stdout : FrameType := "001"%char.
Definition Stderr : FrameType := "002"%char.
Definition Exit : FrameType := "003"%char.
Definition Error : FrameType := "004"%char.

Definition maxPayload : Z := 2 ^ 24.

Inductive stream_error :=
| io_EOF                       (* io.EOF, bare *)
| truncated_header             (* wraps io.ErrUnexpectedEOF *)
| payload_too_large (n : Z)
| truncated_payload (eof : bool) (* wraps io.EOF when [eof], io.ErrUnexpectedEOF otherwise *)
| write_failed
| no_exit_frame
| exit_payload (n : Z)
| node_error (msg : bytes).

(** [errors.Is(err, io.EOF)] looks through the wrapping. *)
Definition is_EOF (e : stream_error) : bool :=
  match e with io_EOF => true | truncated_payload eof => eof | _ => false end.

(** [Write(p)]: the writer afterwards and the error, if any. *)
Class Writer (W : Type) := Write : bytes -> W -> W * option stream_error.

(** A [bytes.Buffer]: every write succeeds. *)
#[export] Instance Buffer : Writer bytes := fun p w => (w ++ p, None).

(** [binary.BigEndian.PutUint32] *)
Definition PutUint32 (v : Z) : bytes := big_endian 4 v.

(** ** Writing *)

Section writing.
Context {W : Type} `{Writer W}.

Definition WriteFrame (typ : FrameType) (payload : bytes) (w : W) : W * option stream_error :=
  let hdr := typ :: PutUint32 (u32 (Z.of_nat (length payload))) in
  match Write hdr w with
  | (w, Some err) => (w, Some err)
  | (w, None) =>
      if (0 <? length payload)%nat then
        match Write payload w with
        | (w, Some err) => (w, Some err)
        | (w, None) => (w, None)
        end
      else (w, None)
  end.

Definition WriteExit (code : Z) (w : W) : W * option stream_error :=
  WriteFrame Exit (PutUint32 (u32 (i32 code))) w.

(** ** The muxer: its methods run under its mutex, so as atomic steps of this state *)

Record Muxer := { w : W; flush : option (W -> W) }.
#[local] Instance eta_Muxer : Eta Muxer :=
  fun m => {| w := w m; flush := flush m |}.

Definition NewMuxer (w : W) (flush : option (W -> W)) : Muxer := {| w := w; flush := flush |}.

Definition doFlush (m : Muxer) : Muxer :=
  match flush m with
  | Some f => m <| w ::= f |>
  | None => m
  end.

Definition Muxer_WriteExit (code : Z) (m : Muxer) : Muxer * option stream_error :=
  let '(w', err) := WriteExit code (w m) in (doFlush (m <| w := w' |>), err).

Definition WriteError (msg : bytes) (m : Muxer) : Muxer * option stream_error :=
  let '(w', err) := WriteFrame Error msg (w m) in (doFlush (m <| w := w' |>), err).

(** [muxWriter.Write], the writer [Writer(typ)] hands out: the bytes written and the error. *)
Definition muxWriter_Write (typ : FrameType) (p : bytes) (m : Muxer)
    : Muxer * (Z * option stream_error) :=
  match WriteFrame typ p (w m) with
  | (w', Some err) => (m <| w := w' |>, (0, Some err))
  | (w', None) => (doFlush (m <| w := w' |>), (Z.of_nat (length p), None))
  end.
End writing.
Arguments Muxer : clear implicits.

(** ** Reading *)

(** [io.ReadFull(r, buf)] with [len(buf) = n]: the bytes read and the rest of the stream. *)
Definition ReadFull (n : nat) (r : bytes) : result stream_error (bytes * bytes) :=
  if (n <=? length r)%nat then Ok (take n r, drop n r)
  else Err (if (length r =? 0)%nat then io_EOF else truncated_payload false).

Definition ReadFrame (r : bytes) : result stream_error (FrameType * bytes * bytes) :=
  match ReadFull 5 r with
  | inl io_EOF => Err io_EOF
  | inl _ => Err truncated_header
  | inr (hdr, r) =>
      let n := read_be (drop 1 hdr) in
      if maxPayload <? n then Err (payload_too_large n) else
      match ReadFull (Z.to_nat n) r with
      | inl err => Err (truncated_payload (is_EOF err))
      | inr (payload, r) =>
          match hdr with
          | typ :: _ => Ok (typ, payload, r)
          | [] => Err truncated_header (* not reached: [hdr] has five bytes *)
          end
      end
  end.

Section demux.
Context {W : Type} `{Writer W}.

(** The state of [Demux]'s loop: the two writers, [gotExit] and [exitCode]. *)
Record demux := { out : W; err : W; gotExit : bool; exitCode : Z }.
#[local] Instance eta_demux : Eta demux :=
  fun s => {| out := out s; err := err s; gotExit := gotExit s; exitCode := exitCode s |}.

(** One round's [switch]: the next state, or the error the function returns. *)
Definition dispatch (typ : FrameType) (payload : bytes) (s : demux)
    : demux * option stream_error :=
  if Ascii.eqb typ Stdout then
    let '(o, werr) := Write payload (out s) in (s <| out := o |>, werr)
  else if Ascii.eqb typ Stderr then
    let '(o, werr) := Write payload (err s) in (s <| err := o |>, werr)
  else if Ascii.eqb typ Exit then
    if negb (length payload =? 4)%nat then
      (s, Some (exit_payload (Z.of_nat (length payload))))
    else (s <| exitCode := i32 (read_be payload) |> <| gotExit := true |>, None)
  else if Ascii.eqb typ Error then (s, Some (node_error payload))
  else (s, None).

(** The loop; every frame read is at least five bytes, so the length of the stream is fuel
    enough ([demux_fuel]).  Answers the writers, the exit code and the error. *)
Fixpoint demux_loop (fuel : nat) (r : bytes) (s : demux)
    : option (W * W * (Z * option stream_error)) :=
  match fuel with
  | O => None
  | S fuel =>
      match ReadFrame r with
      | inl e =>
          if is_EOF e then
            if negb (gotExit s) then Some (out s, err s, (1, Some no_exit_frame))
            else Some (out s, err s, (exitCode s, None))
          else Some (out s, err s, (1, Some e))
      | inr (typ, payload, r) =>
          match dispatch typ payload s with
          | (s, Some werr) => Some (out s, err s, (1, Some werr))
          | (s, None) => demux_loop fuel r s
          end
      end
  end.

Definition Demux (r : bytes) (stdout stderr : W) : option (W * W * (Z * option stream_error)) :=
  demux_loop (S (length r)) r
    {| out := stdout; err := stderr; gotExit := false; exitCode := 0 |}.
End demux.
Arguments demux : clear implicits.

(** * The exec stream carries a command's output and exit code

    [encode] is the wire form of one frame.  The muxer writes it, [ReadFrame] reads it back, and
    a stream cut anywhere short of its exit frame is never taken for a success. *)

Definition encode (typ : FrameType) (p : bytes) : bytes :=
  typ :: PutUint32 (u32 (Z.of_nat (length p))) ++ p.

Definition fits (p : bytes) : Prop := Z.of_nat (length p) <= maxPayload.

(** ** One frame *)

Lemma WriteFrame_buffer typ p (b : bytes) : WriteFrame typ p b = (b ++ encode typ p, None).
Proof.
  unfold WriteFrame, Write, Buffer, encode. destruct p as [|a p]; cbn [length Nat.ltb Nat.leb].
  - by rewrite app_nil_r.
  - by rewrite <- app_assoc.
Qed.

Lemma ReadFull_app n a b : length a = n -> ReadFull n (a ++ b) = inr (a, b).
Proof.
  intros <-. unfold ReadFull.
  rewrite (proj2 (Nat.leb_le _ _)) by (rewrite length_app; lia).
  by rewrite take_app_length, drop_app_length.
Qed.

Lemma ReadFull_short n r :
  (length r < n)%nat ->
  ReadFull n r = inl (if (length r =? 0)%nat then io_EOF else truncated_payload false).
Proof. intros Hn. unfold ReadFull. by rewrite (proj2 (Nat.leb_gt _ _)). Qed.

Lemma length_header typ n : length (typ :: PutUint32 n) = 5%nat.
Proof. reflexivity. Qed.

Lemma read_PutUint32 n : 0 <= n < 2 ^ 32 -> read_be (PutUint32 n) = n.
Proof. intros Hn. unfold PutUint32. rewrite read_be_big_endian. by apply Z.mod_small. Qed.

Lemma header_length p : fits p -> u32 (Z.of_nat (length p)) = Z.of_nat (length p).
Proof. unfold fits, maxPayload. intros Hp. apply u32_small. lia. Qed.

Lemma ReadFrame_encode typ p r : fits p -> ReadFrame (encode typ p ++ r) = inr (typ, p, r).
Proof.
  intros Hp. unfold encode, ReadFrame. rewrite header_length by done.
  rewrite app_comm_cons, <- app_assoc, ReadFull_app by apply length_header.
  cbn [drop]. unfold fits, maxPayload in *. rewrite drop_0, read_PutUint32 by lia.
  rewrite (proj2 (Z.ltb_ge _ _)) by done.
  by rewrite ReadFull_app by lia.
Qed.

(** [WriteFrame] has no such limit: what it writes of a longer payload is refused. *)
Lemma long_frame_refused typ p r :
  maxPayload < Z.of_nat (length p) < 2 ^ 32 ->
  ReadFrame (encode typ p ++ r) = inl (payload_too_large (Z.of_nat (length p))).
Proof.
  intros [Hp Hlt]. unfold encode, ReadFrame. rewrite u32_small by lia.
  rewrite app_comm_cons, <- app_assoc, ReadFull_app by apply length_header.
  cbn [drop]. rewrite drop_0, read_PutUint32 by lia.
  by rewrite (proj2 (Z.ltb_lt _ _)).
Qed.

(** A stream that ends inside a frame is an error of [ReadFrame]; at the frame's boundary the
    error is the bare end of file. *)
Lemma ReadFrame_truncated typ p pre k :
  fits p -> encode typ p = pre ++ k -> k <> [] -> exists e, ReadFrame pre = inl e.
Proof.
  intros Hp Heq Hk. unfold encode in Heq. rewrite header_length, app_comm_cons in Heq by done.
  unfold ReadFrame.
  assert (0 < length k)%nat as Hk' by (destruct k; [done|simpl; lia]).
  assert (length pre + length k = 5 + length p)%nat as Hlen.
  { apply (f_equal length) in Heq. by rewrite !length_app, length_header in Heq. }
  destruct (decide (length pre < 5)%nat) as [Hs|Hs].
  { rewrite ReadFull_short by done. destruct (length pre =? 0)%nat; eauto. }
  assert (exists q, pre = (typ :: PutUint32 (Z.of_nat (length p))) ++ q) as [q ->].
  { exists (drop 5 pre). rewrite <- (take_drop 5 pre) at 1. f_equal.
    apply (f_equal (take 5)) in Heq.
    rewrite take_app_length', (take_app_le pre) in Heq by (rewrite ?length_header; lia).
    done. }
  rewrite ReadFull_app by apply length_header. cbn [drop].
  unfold fits, maxPayload in *. rewrite drop_0, read_PutUint32 by lia.
  rewrite (proj2 (Z.ltb_ge _ _)) by done.
  rewrite length_app, length_header in Hlen.
  unfold FrameType in *. rewrite ReadFull_short by lia. eauto.
Qed.

Lemma ReadFrame_nil : ReadFrame [] = inl io_EOF.
Proof. reflexivity. Qed.

Lemma ReadFrame_shrinks r typ p r' : ReadFrame r = inr (typ, p, r') -> (length r' < length r)%nat.
Proof.
  unfold ReadFrame, ReadFull. destruct (Nat.leb_spec 5 (length r)) as [Hl|]; [|repeat case_match; done].
  destruct (maxPayload <? _); [done|]. destruct (_ <=? _)%nat; [|done]. case_match; [done|].
  intros [= _ _ <-]. rewrite !length_drop. lia.
Qed.

(** ** The loop *)

Section loop.
Context {W : Type} `{Writer W}.

Lemma demux_fuel fuel r (s : demux W) : (length r < fuel)%nat -> demux_loop fuel r s <> None.
Proof.
  revert r s. induction fuel as [|fuel IH]; intros r s Hf; [lia|]. cbn [demux_loop].
  destruct (ReadFrame r) as [e|[[typ p] r']] eqn:Hr; [repeat case_match; done|].
  apply ReadFrame_shrinks in Hr. destruct (dispatch typ p s) as [s' [werr|]]; [done|].
  apply IH. lia.
Qed.

(** More fuel changes nothing. *)
Lemma demux_loop_irrel fuel fuel' r (s : demux W) :
  (length r < fuel)%nat -> (length r < fuel')%nat -> demux_loop fuel r s = demux_loop fuel' r s.
Proof.
  revert fuel' r s. induction fuel as [|fuel IH]; intros [|fuel'] r s Hf Hf'; [lia..|].
  cbn [demux_loop]. destruct (ReadFrame r) as [e|[[typ p] r']] eqn:Hr; [done|].
  apply ReadFrame_shrinks in Hr. destruct (dispatch typ p s) as [s' [werr|]]; [done|].
  apply IH; lia.
Qed.

(** [Demux] from any state of its loop. *)
Definition demux_from (r : bytes) (s : demux W) := demux_loop (S (length r)) r s.

Lemma demux_from_frame typ p r s :
  fits p ->
  demux_from (encode typ p ++ r) s =
  match dispatch typ p s with
  | (s, Some werr) => Some (out s, err s, (1, Some werr))
  | (s, None) => demux_from r s
  end.
Proof.
  intros Hp. unfold demux_from. set (fuel := S (length r)). cbn [demux_loop].
  rewrite ReadFrame_encode by done.
  destruct (dispatch typ p s) as [s' [werr|]]; [done|].
  apply demux_loop_irrel; [|unfold fuel; lia]. unfold encode. simpl. rewrite !length_app. lia.
Qed.

Lemma demux_from_truncated r s e :
  ReadFrame r = inl e -> gotExit s = false ->
  exists e', demux_from r s = Some (out s, err s, (1, Some e')).
Proof.
  intros Hr Hg. unfold demux_from. cbn [demux_loop]. rewrite Hr, Hg.
  destruct (is_EOF e); eauto.
Qed.
End loop.

(** ** A whole exec *)

(** What the exec handler makes the muxer do: the writes of the command's two output streams in
    the order its goroutines obtained the mutex, then the exit frame. *)
Fixpoint mux_writes (ws : list (FrameType * bytes)) (m : Muxer bytes) : Muxer bytes :=
  match ws with
  | [] => m
  | (typ, p) :: ws => mux_writes ws (fst (muxWriter_Write typ p m))
  end.

Definition exec_stream (ws : list (FrameType * bytes)) (code : Z) : bytes :=
  w (fst (Muxer_WriteExit code (mux_writes ws (NewMuxer [] None)))).

(** The bytes written to one of the streams, in order. *)
Definition written (typ : FrameType) (ws : list (FrameType * bytes)) : bytes :=
  flat_map (fun w => if Ascii.eqb (fst w) typ then snd w else []) ws.

(** The writers the exec handler hands to the command, and frames a reader accepts. *)
Definition output_write (w : FrameType * bytes) : Prop :=
  (fst w = Stdout \/ fst w = Stderr) /\ fits (snd w).

Lemma mux_writes_buffer ws b :
  mux_writes ws {| w := b; flush := None |} =
  {| w := b ++ flat_map (fun w => encode (fst w) (snd w)) ws; flush := None |}.
Proof.
  revert b. induction ws as [|[typ p] ws IH]; intros b; cbn [mux_writes flat_map fst snd].
  - by rewrite app_nil_r.
  - unfold muxWriter_Write. rewrite WriteFrame_buffer. cbn. by rewrite IH, <- app_assoc.
Qed.

Definition exit_frame (code : Z) : bytes := encode Exit (PutUint32 (u32 (i32 code))).

Lemma exec_stream_frames ws code :
  exec_stream ws code = flat_map (fun w => encode (fst w) (snd w)) ws ++ exit_frame code.
Proof.
  unfold exec_stream, Muxer_WriteExit, WriteExit, NewMuxer. rewrite mux_writes_buffer.
  by rewrite WriteFrame_buffer.
Qed.

Lemma dispatch_output typ p (s : demux bytes) :
  typ = Stdout \/ typ = Stderr ->
  dispatch typ p s =
    ({| out := out s ++ written Stdout [(typ, p)]; err := err s ++ written Stderr [(typ, p)];
        gotExit := gotExit s; exitCode := exitCode s |}, None).
Proof. intros [-> | ->]; destruct s; cbn; rewrite !app_nil_r; done. Qed.

Lemma dispatch_exit v (s : demux bytes) :
  dispatch Exit (PutUint32 v) s =
    ({| out := out s; err := err s; gotExit := true; exitCode := i32 (read_be (PutUint32 v)) |}, None).
Proof. by destruct s. Qed.

Lemma demux_from_end (s : demux bytes) :
  gotExit s = true -> demux_from [] s = Some (out s, err s, (exitCode s, None)).
Proof. intros Hg. unfold demux_from. cbn [demux_loop]. by rewrite ReadFrame_nil, Hg. Qed.

Lemma written_cons typ w ws : written typ (w :: ws) = written typ [w] ++ written typ ws.
Proof. unfold written. simpl. by rewrite app_nil_r. Qed.

Lemma demux_output ws rest (s : demux bytes) :
  Forall output_write ws ->
  demux_from (flat_map (fun w => encode (fst w) (snd w)) ws ++ rest) s =
  demux_from rest {| out := out s ++ written Stdout ws; err := err s ++ written Stderr ws;
                     gotExit := gotExit s; exitCode := exitCode s |}.
Proof.
  intros Hws. revert s. induction Hws as [|[typ p] ws [Ht Hp] _ IH]; intros s.
  - destruct s. cbn. by rewrite !app_nil_r.
  - cbn [flat_map fst snd] in *. rewrite <- app_assoc, demux_from_frame, dispatch_output by done.
    rewrite IH. cbn [out err gotExit exitCode].
    by rewrite <- !app_assoc, <- !written_cons.
Qed.

Definition start : demux bytes := {| out := []; err := []; gotExit := false; exitCode := 0 |}.

Lemma i32_read_exit code : i32 (read_be (PutUint32 (u32 (i32 code)))) = i32 code.
Proof.
  rewrite read_PutUint32 by apply u32_range. rewrite i32_u32.
  apply i32_small. unfold i32. pose proof (u32_range code).
  destruct (Z.ltb_spec (u32 code) (2 ^ 31)); lia.
Qed.

(** C10: the exec stream is faithful.  Take any interleaving of the command's writes to its two
    output streams, each write of at most 16 MiB ([maxPayload]; [WriteFrame] takes longer ones too,
    but [ReadFrame] refuses their frames).  [Demux] of what the muxer wrote delivers exactly the
    bytes of each stream, in order, and answers the exit code (the low 32 bits of it, as the wire
    carries) with no error. *)
Theorem exec_roundtrip ws code :
  Forall output_write ws ->
  Demux (exec_stream ws code) [] [] =
    Some (written Stdout ws, written Stderr ws, (i32 code, None)).
Proof.
  intros Hws. change (Demux (exec_stream ws code) [] []) with (demux_from (exec_stream ws code) start).
  rewrite exec_stream_frames, demux_output by done. unfold exit_frame.
  rewrite <- (app_nil_r (encode _ _)), demux_from_frame.
  2: { unfold fits, maxPayload, PutUint32. rewrite length_big_endian. lia. }
  by rewrite dispatch_exit, demux_from_end, i32_read_exit.
Qed.

(** C11: a stream cut short is never a success: on any proper prefix of an exec's stream whose
    writes are of at most 16 MiB, cut at or inside any frame, [Demux] answers exit code 1 and an
    error. *)
Theorem truncation_detected ws code pre k :
  Forall output_write ws -> exec_stream ws code = pre ++ k -> k <> [] ->
  exists o e why, Demux pre [] [] = Some (o, e, (1, Some why)).
Proof.
  intros Hws Heq Hk. change (Demux pre [] []) with (demux_from pre start).
  rewrite exec_stream_frames in Heq.
  assert (gotExit start = false) as Hg by done. revert Hg. generalize start as s.
  revert pre Heq. induction Hws as [|[typ p] ws [Ht Hp] _ IH]; intros pre Heq s Hg.
  - cbn [flat_map app] in Heq. apply ReadFrame_truncated in Heq as [e He]; [| |done].
    + destruct (demux_from_truncated _ _ _ He Hg) as [e' ->]. eauto.
    + unfold fits, maxPayload, PutUint32. rewrite length_big_endian. lia.
  - cbn [flat_map fst snd] in *. rewrite <- app_assoc in Heq.
    apply app_eq_app in Heq as (q & [[Hpre Hq]|[Hpre Hq]]).
    + (* cut inside this frame, or at its end *)
      destruct q as [|a q].
      * rewrite app_nil_r in Hpre. subst pre. rewrite <- (app_nil_r (encode typ p)).
        rewrite demux_from_frame, dispatch_output by done.
        apply IH; [|done]. simpl in Hq. by rewrite Hq.
      * apply ReadFrame_truncated in Hpre as [e He]; [|done..].
        destruct (demux_from_truncated _ _ _ He Hg) as [e' ->]. eauto.
    + subst pre. rewrite demux_from_frame, dispatch_output by done. by apply IH.
Qed.

(** [Demux] returns on every stream, whatever its writers do. *)
Theorem demux_terminates {W} `{Writer W} r (stdout stderr : W) : Demux r stdout stderr <> None.
Proof. apply demux_fuel. lia. Qed.

Definition demo_writes : list (FrameType * bytes) :=
  [(Stdout, ["o"%char; "k"%char]); (Stderr, ["!"%char]); (Stdout, [])].
Lemma demo_writes_ok : Forall output_write demo_writes.
Proof. repeat constructor; done || (left; done) || (right; done). Qed.

Lemma exec_roundtrip_witness :
  Demux (exec_stream demo_writes (-1)) [] [] =
    Some (["o"%char; "k"%char], ["!"%char], (-1, None)).
Proof. apply (exec_roundtrip demo_writes (-1)), demo_writes_ok. Defined.

Lemma truncation_detected_witness :
  exists o e why, Demux (take 9 (exec_stream demo_writes 0)) [] [] = Some (o, e, (1, Some why)).
Proof.
  apply (truncation_detected demo_writes 0 _ (drop 9 (exec_stream demo_writes 0)) demo_writes_ok).
  - by rewrite take_drop.
  - discriminate.
Defined.
