(* ===== verification/Intent.v ===== *)
(** * Signed intents (src/internal/intent, src/internal/authsvc/token/token.go)

    A client signs each operation it asks of a node with its session key: the intent's body
    under a domain tag.  Here are the artifact's construction and signature check, the
    protobuf messages as records, and the node's cache against replay.  protobuf, SHA-256,
    ECDSA and PKIX parsing are the operations of the class [IntentCrypto]. *)

From S2P Require Import Prelude GoLib.
From Stdlib Require Import Ascii.
Open Scope Z_scope.

(** ** Codes and constants *)

Definition NACKCode := string.
Definition NACKMissingIntent : NACKCode := "MISSING_INTENT".
Definition NACKTokenInvalid : NACKCode := "TOKEN_INVALID".
Definition NACKWrongAudience : NACKCode := "WRONG_AUDIENCE".
Definition NACKOwnerMismatch : NACKCode := "OWNER_MISMATCH".
Definition NACKCNFMismatch : NACKCode := "CNF_MISMATCH".
Definition NACKBadSig : NACKCode := "BAD_SIG".
Definition NACKCorrespondence : NACKCode := "CORRESPONDENCE".
Definition NACKStale : NACKCode := "STALE".
Definition NACKSkew : NACKCode := "SKEW".
Definition NACKReplay : NACKCode := "REPLAY".

Definition RetryableNACK (detail : string) : bool :=
  existsb (fun code => HasPrefix detail (code +:+ ":") || String.eqb detail code)
    [NACKStale; NACKSkew; NACKReplay].

Definition FreshnessWindow : Z := 90 * Second.
Definition SkewBudget : Z := 30 * Second.

(** [Op] is a Go string type. *)
Definition Op := string.
Definition OpCreateSpawn : Op := "create-spawn".
Definition OpResumeSpawn : Op := "resume-spawn".
Definition OpRecreateSpawn : Op := "recreate-spawn".
Definition OpMigrateSpawn : Op := "migrate-spawn".
Definition OpForkSpawn : Op := "fork-spawn".
Definition OpSessionOpen : Op := "session-open".
Definition OpSessionReauth : Op := "session-reauth".
Definition OpExecOpen : Op := "exec-open".

Definition DomainCreateSpawn : string := "spawnery/intent/create-spawn/v1".
Definition DomainResumeSpawn : string := "spawnery/intent/resume-spawn/v1".
Definition DomainRecreateSpawn : string := "spawnery/intent/recreate-spawn/v1".
Definition DomainMigrateSpawn : string := "spawnery/intent/migrate-spawn/v1".
Definition DomainForkSpawn : string := "spawnery/intent/fork-spawn/v1".
Definition DomainSessionOpen : string := "spawnery/intent/session-open/v1".
Definition DomainSessionReauth : string := "spawnery/intent/session-reauth/v1".
Definition DomainExecOpen : string := "spawnery/intent/exec-open/v1".

Definition DomainFor (op : Op) : string :=
  if String.eqb op OpCreateSpawn then DomainCreateSpawn
  else if String.eqb op OpResumeSpawn then DomainResumeSpawn
  else if String.eqb op OpRecreateSpawn then DomainRecreateSpawn
  else if String.eqb op OpMigrateSpawn then DomainMigrateSpawn
  else if String.eqb op OpForkSpawn then DomainForkSpawn
  else if String.eqb op OpSessionOpen then DomainSessionOpen
  else if String.eqb op OpSessionReauth then DomainSessionReauth
  else if String.eqb op OpExecOpen then DomainExecOpen
  else "spawnery/intent/" +:+ op +:+ "/v1".

(** ** The protobuf messages, with the fields this code reads *)

Record MountRef := {
  MountName : string; BackendUri : string; CredentialSecretId : string;
  CreateIfMissing : bool; RepositoryId : string
}.
Record ExecRequest := { Argv : list string }.
Record IntentBody := {
  Jti : string;
  IssuedAt : Z; (* int64, Unix seconds *)
  SpawnId : string;
  Generation : Z;
  TargetNodeId : string;
  body_Op : string;
  AppRef : string;
  Image : string;
  Model : string;
  DataRef : string;
  SessionId : string;
  Mounts : list MountRef;
  AttachedSecretIds : list string;
  NewTokenId : string;
  exec_request : option ExecRequest
}.
Record SignedIntent := { Domain : string; intent_Body : bytes; intent_Sig : bytes; SpkiDer : bytes }.
Record AuthEnvelope := { AccessToken : string; env_Intent : option SignedIntent }.
Record SessionTokenBody := {
  AccountId : string; TokenId : string; Audience : string;
  token_IssuedAt : Z; token_ExpiresAt : Z; (* int64, Unix seconds *)
  token_SessionKeyHash : bytes
}.

#[export] Instance MountRef_eq_dec : EqDecision MountRef.
Proof. solve_decision. Defined.
#[export] Instance ExecRequest_eq_dec : EqDecision ExecRequest.
Proof. solve_decision. Defined.

(** ** The packages below *)

Class IntentCrypto := {
  EcPriv : Type;
  EcPub : Type;
  EcPublic : EcPriv -> EcPub;
  EcRand : Type;
  Sum256 : bytes -> bytes;
  (** [ecdsa.Sign] and [ecdsa.Verify], on the digest; r and s as numbers *)
  ecdsa_Sign : EcRand -> EcPriv -> bytes -> option (Z * Z);
  ecdsa_Verify : EcPub -> bytes -> Z -> Z -> bool;
  (** [x509.ParsePKIXPublicKey]: the inner [None] is a key of another kind *)
  ParsePKIXPublicKey : bytes -> option (option EcPub);
  MarshalPKIXPublicKey : EcPub -> option bytes;
  on_P256 : EcPub -> bool;
  Marshal_IntentBody : IntentBody -> option bytes;
  Unmarshal_IntentBody : bytes -> option IntentBody;
  Unmarshal_SessionTokenBody : bytes -> option SessionTokenBody
}.

Inductive intent_error :=
| err_pkix | err_not_ecdsa | err_not_p256 | err_sig_length | err_sig_verify
| err_proto | err_ecdsa_sign.

(** ** Signatures *)

(** [x.Bytes()] on a [big.Int]: the least number of bytes, most significant first. *)
Definition big_Bytes (x : Z) : bytes :=
  if x <=? 0 then [] else big_endian (Z.to_nat ((Z.log2 x + 8) / 8)) x.
(** [SetBytes] *)
Definition SetBytes (l : bytes) : Z := read_be l.

(** [copy(out[32-len(b):32], b)] into 32 zero bytes. *)
Definition pad32 (b : bytes) : bytes := replicate (32 - length b) "000"%char ++ b.

Section ops.
Context `{IntentCrypto}.

Definition signP1363 (rnd : EcRand) (domain : string) (body : bytes) (priv : EcPriv)
    : result intent_error bytes :=
  let hash := Sum256 (bytes_of domain ++ body) in
  match ecdsa_Sign rnd priv hash with
  | None => Err err_ecdsa_sign
  | Some (r, s) => Ok (pad32 (big_Bytes r) ++ pad32 (big_Bytes s))
  end.

Definition p1363ToRS (sig : bytes) : result intent_error (Z * Z) :=
  if negb (length sig =? 64)%nat then Err err_sig_length
  else Ok (SetBytes (take 32 sig), SetBytes (drop 32 sig)).

Definition parseSPKIECDSA (spkiDER : bytes) : result intent_error EcPub :=
  match ParsePKIXPublicKey spkiDER with
  | None => Err err_pkix
  | Some None => Err err_not_ecdsa
  | Some (Some pub) => if negb (on_P256 pub) then Err err_not_p256 else Ok pub
  end.

Definition Build (rnd : EcRand) (op : Op) (body : IntentBody) (priv : EcPriv)
    : result intent_error SignedIntent :=
  match Marshal_IntentBody body with
  | None => Err err_proto
  | Some bodyBytes =>
      let domain := DomainFor op in
      match signP1363 rnd domain bodyBytes priv with
      | inl err => Err err
      | inr sig =>
          match MarshalPKIXPublicKey (EcPublic priv) with
          | None => Err err_pkix
          | Some spkiDER =>
              Ok {| Domain := domain; intent_Body := bodyBytes; intent_Sig := sig;
                    SpkiDer := spkiDER |}
          end
      end
  end.

(** The loop's accumulated difference of two byte strings. *)
Definition byte_diff (h k : bytes) : Z :=
  foldl (fun diff '(a, b) => Z.lor diff (Z.lxor (byte_of a) (byte_of b))) 0 (zip h k).

Definition SPKIMatchesHash (spkiDER sessionKeyHash : bytes) : bool :=
  let h := Sum256 spkiDER in
  if negb (length sessionKeyHash =? 32)%nat then false
  else byte_diff h sessionKeyHash =? 0.

Definition VerifySig (domain : string) (body sig spkiDER : bytes) : result intent_error unit :=
  match parseSPKIECDSA spkiDER with
  | inl err => Err err
  | inr pub =>
      let hash := Sum256 (bytes_of domain ++ body) in
      match p1363ToRS sig with
      | inl err => Err err
      | inr (r, s) => if negb (ecdsa_Verify pub hash r s) then Err err_sig_verify else Ok tt
      end
  end.

Definition ParseBody (body : bytes) : result intent_error IntentBody :=
  match Unmarshal_IntentBody body with
  | None => Err err_proto
  | Some ib => Ok ib
  end.

Definition SessionKeyHash (spkiDER : bytes) : bytes := Sum256 spkiDER.
End ops.

(** ** Session tokens (src/internal/authsvc/token/token.go) *)

Inductive token_error := ErrMalformed | ErrExpired | ErrNotYet.
Definition issuedAtSkew : Z := 60 * Second.

Definition ValidateSessionBody (body : option SessionTokenBody) (now : Z)
    : result token_error unit :=
  match body with
  | None => Err ErrMalformed
  | Some body =>
      if negb (Before now (Unix (token_ExpiresAt body))) then Err ErrExpired
      else if After (Unix (token_IssuedAt body)) (now + issuedAtSkew) then Err ErrNotYet
      else Ok tt
  end.

(** ** The replay cache (src/internal/intent/jticache.go): each method holds the mutex *)

Record JTICache := { processStart : Z; seen : gmap string Z }.
#[export] Instance eta_JTICache : Eta JTICache :=
  fun c => {| processStart := processStart c; seen := seen c |}.

(** [now] is the clock reading at construction. *)
Definition NewJTICache (now : Z) : JTICache := {| processStart := now; seen := ∅ |}.

Definition pruneOlderThan (cutoff : Z) (c : JTICache) : JTICache :=
  c <| seen ::= filter (fun kv => Before kv.2 cutoff = false) |>.

(** [Admit(jti, issuedAt)], its clock reading [now] last; [false] is ErrReplay. *)
Definition Admit (jti : string) (issuedAt now : Z) (c : JTICache) : JTICache * bool :=
  if Before issuedAt (processStart c) then (c, false)
  else match seen c !! jti with
  | Some _ => (c, false)
  | None =>
      (pruneOlderThan (now - (FreshnessWindow + SkewBudget)) (c <| seen ::= <[jti := issuedAt]> |>),
       true)
  end.
