(* ===== verification/IntentVerify.v ===== *)
(** * The node's intent verifier (src/internal/node/intentverify.go)

    Before a node starts a spawn, opens a session, replaces a session's token or runs a command,
    it checks the user's token and the signed intent against the request the control plane
    relays.  A rejection is its NACK code (the detail text is not modelled); the verifier's only
    state is the replay cache.  Package token's artifact verification (signature and
    certificate chain) is the operation of the class [ArtifactVerifier]. *)

From Stdlib Require Import Ascii.
From S2P Require Import Prelude GoLib Intent.
Open Scope Z_scope.

(** [token.Verifier]: [Verify(wire, ArtifactTypeSession, now)] answers the payload of an artifact
    whose signature chains to the environment's root. *)
Class ArtifactVerifier := artifact_Verify : string -> Z -> option bytes.

(** [UserRevocationLookup.IsRevoked] *)
Definition UserRevocationLookup := string -> string -> Z -> bool.

Record IntentVerifier := {
  nodeOwner : string;
  nodeID : string;
  selfHosted : bool;
  jtiCache : JTICache;
  revocations : option UserRevocationLookup
}.
#[export] Instance eta_IntentVerifier : Eta IntentVerifier :=
  fun v => {| nodeOwner := nodeOwner v; nodeID := nodeID v; selfHosted := selfHosted v;
              jtiCache := jtiCache v; revocations := revocations v |}.

Definition NewIntentVerifier (nodeOwner nodeID : string) (selfHosted : bool) (now : Z)
    (revocations : list UserRevocationLookup) : IntentVerifier :=
  {| nodeOwner := nodeOwner; nodeID := nodeID; selfHosted := selfHosted;
     jtiCache := NewJTICache now; revocations := hd_error revocations |}.

Record StartFields := {
  start_Op : Op; start_SpawnID : string; start_Generation : Z; start_AppRef : string;
  start_Image : string; start_Model : string; start_DataRef : string;
  start_Mounts : list MountRef; start_AttachedSecretIDs : list string;
  start_AssertedOwner : string
}.
Record Authorization := {
  auth_AccountID : string; auth_TokenID : string; auth_IssuedAt : Z; auth_ExpiresAt : Z;
  auth_SessionKeyHash : bytes
}.
Record OpenFields := {
  open_SpawnID : string; open_Generation : Z; open_SessionID : string;
  open_AssertedOwner : string
}.
Record ReauthFields := {
  reauth_SpawnID : string; reauth_Generation : Z; reauth_SessionID : string;
  reauth_AssertedOwner : string
}.
Record ExecFields := {
  exec_SpawnID : string; exec_Generation : Z; exec_SessionID : string;
  exec_AssertedOwner : string; exec_Request : option ExecRequest
}.

(** ** Step 6: correspondence of the signed body with the relayed fields *)

Definition string_le (x y : string) : Prop := String.leb x y = true.
#[export] Instance string_le_dec : RelDecision string_le := fun x y => decide (String.leb x y = true).

(** [slices.Sort] of the set's elements; the byte order of Go's strings. *)
Definition canonicalStringSet (values : list string) : list string :=
  merge_sort string_le
    (elements (list_to_set (filter (fun v => v <> "") values) : gset string)).

Definition mount_mismatch (bm m : MountRef) : bool :=
  negb (String.eqb (MountName bm) (MountName m))
  || negb (String.eqb (BackendUri bm) (BackendUri m))
  || negb (String.eqb (CredentialSecretId bm) (CredentialSecretId m))
  || negb (Bool.eqb (CreateIfMissing bm) (CreateIfMissing m))
  || negb (String.eqb (RepositoryId bm) (RepositoryId m)).

Definition checkStartCorrespondence (v : IntentVerifier) (body : IntentBody)
    (fields : StartFields) : option NACKCode :=
  if negb (String.eqb (SpawnId body) (start_SpawnID fields)) then Some NACKCorrespondence
  else if negb (Generation body =? start_Generation fields) then Some NACKCorrespondence
  else if negb (String.eqb (nodeID v) "") && negb (String.eqb (TargetNodeId body) (nodeID v))
    then Some NACKCorrespondence
  else if negb (String.eqb (AppRef body) (start_AppRef fields)) then Some NACKCorrespondence
  else if negb (String.eqb (Image body) (start_Image fields)) then Some NACKCorrespondence
  else if negb (String.eqb (Model body) (start_Model fields)) then Some NACKCorrespondence
  else if negb (String.eqb (DataRef body) (start_DataRef fields)) then Some NACKCorrespondence
  else if negb (length (Mounts body) =? length (start_Mounts fields))%nat
    then Some NACKCorrespondence
  else if existsb (fun '(bm, m) => mount_mismatch bm m) (zip (Mounts body) (start_Mounts fields))
    then Some NACKCorrespondence
  else if negb (bool_decide (canonicalStringSet (AttachedSecretIds body) =
                             canonicalStringSet (start_AttachedSecretIDs fields)))
    then Some NACKCorrespondence
  else None.

Definition checkOpenCorrespondence (v : IntentVerifier) (body : IntentBody)
    (fields : OpenFields) : option NACKCode :=
  if negb (String.eqb (SpawnId body) (open_SpawnID fields)) then Some NACKCorrespondence
  else if negb (Generation body =? open_Generation fields) then Some NACKCorrespondence
  else if negb (String.eqb (SessionId body) (open_SessionID fields)) then Some NACKCorrespondence
  else if negb (String.eqb (TargetNodeId body) (nodeID v)) then Some NACKCorrespondence
  else None.

(** ** The chain *)

(** Step 7, on the age [now.Sub(issuedAt)]. *)
Definition freshness (now issuedAt : Z) : option NACKCode :=
  let age := Sub now issuedAt in
  if age <? 0 then
    if SkewBudget <? neg age then Some NACKSkew else None
  else if FreshnessWindow + SkewBudget <? age then Some NACKStale
  else None.

Section verify.
Context `{IntentCrypto} `{ArtifactVerifier}.

(** Steps 1 to 3, up to the owner checks: the token's body. *)
Definition verify_token (v : IntentVerifier) (env : AuthEnvelope) (assertedOwner : string)
    (now : Z) : result NACKCode SessionTokenBody :=
  match artifact_Verify (AccessToken env) now with
  | None => Err NACKTokenInvalid
  | Some payload =>
  match Unmarshal_SessionTokenBody payload with
  | None => Err NACKTokenInvalid
  | Some body =>
  match ValidateSessionBody (Some body) now with
  | inl _ => Err NACKTokenInvalid
  | inr _ =>
  if negb (String.eqb (Audience body) "node") then Err NACKWrongAudience
  else if match revocations v with
          | Some IsRevoked => IsRevoked (TokenId body) (AccountId body) (token_IssuedAt body)
          | None => false end then Err NACKTokenInvalid
  else if negb (selfHosted v) && String.eqb assertedOwner "" then Err NACKOwnerMismatch
  else if negb (String.eqb assertedOwner "") && negb (String.eqb (AccountId body) assertedOwner)
    then Err NACKOwnerMismatch
  else if selfHosted v && negb (String.eqb (nodeOwner v) "")
          && negb (String.eqb (AccountId body) (nodeOwner v))
    then Err NACKOwnerMismatch
  else Ok body
  end end end.

(** Steps 4 and 5: the intent's body, its key bound to the token and its signature checked. *)
Definition verify_intent (body : SessionTokenBody) (si : SignedIntent) (expectedOp : Op)
    : result NACKCode IntentBody :=
  if negb (SPKIMatchesHash (SpkiDer si) (token_SessionKeyHash body)) then Err NACKCNFMismatch
  else if negb (String.eqb (Domain si) (DomainFor expectedOp)) then Err NACKCorrespondence
  else match VerifySig (Domain si) (intent_Body si) (intent_Sig si) (SpkiDer si) with
  | inl _ => Err NACKBadSig
  | inr _ =>
  match ParseBody (intent_Body si) with
  | inl _ => Err NACKBadSig
  | inr intentBody =>
  if negb (String.eqb (body_Op intentBody) expectedOp) then Err NACKCorrespondence
  else Ok intentBody
  end end.

Definition authorization_of (body : SessionTokenBody) : Authorization :=
  {| auth_AccountID := AccountId body; auth_TokenID := TokenId body;
     auth_IssuedAt := token_IssuedAt body; auth_ExpiresAt := Unix (token_ExpiresAt body);
     auth_SessionKeyHash := token_SessionKeyHash body |}.

(** [verify], [now] the reading of [v.now()] and [now'] the one the cache takes in step 8. *)
Definition verify (v : IntentVerifier) (env : option AuthEnvelope) (assertedOwner : string)
    (expectedOp : Op) (correspondenceFn : IntentBody -> Authorization -> option NACKCode)
    (now now' : Z) : IntentVerifier * result NACKCode Authorization :=
  match env with
  | None => (v, Err NACKMissingIntent)
  | Some env =>
  if String.eqb (AccessToken env) "" && is_none (env_Intent env)
    then (v, Err NACKMissingIntent) else
  match verify_token v env assertedOwner now with
  | inl nack => (v, Err nack)
  | inr body =>
  match env_Intent env with
  | None => (v, Err NACKMissingIntent)
  | Some si =>
  match verify_intent body si expectedOp with
  | inl nack => (v, Err nack)
  | inr intentBody =>
  let auth := authorization_of body in
  match correspondenceFn intentBody auth with
  | Some nack => (v, Err nack)
  | None =>
  let issuedAt := Unix (IssuedAt intentBody) in
  match freshness now issuedAt with
  | Some nack => (v, Err nack)
  | None =>
  match Admit (Jti intentBody) issuedAt now' (jtiCache v) with
  | (c, false) => (v <| jtiCache := c |>, Err NACKReplay)
  | (c, true) => (v <| jtiCache := c |>, Ok auth)
  end end end end end end end.

Definition VerifyStart (v : IntentVerifier) (env : option AuthEnvelope) (fields : StartFields)
    (now now' : Z) : IntentVerifier * result NACKCode Authorization :=
  verify v env (start_AssertedOwner fields) (start_Op fields)
    (fun body _ => checkStartCorrespondence v body fields) now now'.

Definition VerifyOpen (v : IntentVerifier) (env : option AuthEnvelope) (fields : OpenFields)
    (now now' : Z) : IntentVerifier * result NACKCode Authorization :=
  verify v env (open_AssertedOwner fields) OpSessionOpen
    (fun body _ => checkOpenCorrespondence v body fields) now now'.

Definition VerifyReauth (v : IntentVerifier) (env : option AuthEnvelope) (fields : ReauthFields)
    (now now' : Z) : IntentVerifier * result NACKCode Authorization :=
  verify v env (reauth_AssertedOwner fields) OpSessionReauth
    (fun body auth =>
       match checkOpenCorrespondence v body
               {| open_SpawnID := reauth_SpawnID fields;
                  open_Generation := reauth_Generation fields;
                  open_SessionID := reauth_SessionID fields; open_AssertedOwner := "" |} with
       | Some nack => Some nack
       | None =>
           if negb (String.eqb (NewTokenId body) (auth_TokenID auth)) then Some NACKCorrespondence
           else None
       end) now now'.

Definition VerifyExec (v : IntentVerifier) (env : option AuthEnvelope) (fields : ExecFields)
    (now now' : Z) : IntentVerifier * result NACKCode Authorization :=
  verify v env (exec_AssertedOwner fields) OpExecOpen
    (fun body _ =>
       match checkOpenCorrespondence v body
               {| open_SpawnID := exec_SpawnID fields; open_Generation := exec_Generation fields;
                  open_SessionID := exec_SessionID fields; open_AssertedOwner := "" |} with
       | Some nack => Some nack
       | None =>
           match exec_Request fields with
           | None | Some {| Argv := [] |} => Some NACKCorrespondence
           | Some ({| Argv := a :: _ |} as req) =>
               if String.eqb a "" then Some NACKCorrespondence else
               match exec_request body with
               | None => Some NACKCorrespondence
               | Some breq => if negb (bool_decide (breq = req)) then Some NACKCorrespondence
                              else None
               end
           end
       end) now now'.
End verify.

(** * Laws of intents: domains, signatures, freshness, the replay cache *)

(** ** Domain separation *)

Lemma bytes_of_app a b : bytes_of (a +:+ b) = bytes_of a ++ bytes_of b.
Proof.
  unfold bytes_of. induction a as [|c a IH]; [done|].
  change (String.list_ascii_of_string (String c a +:+ b))
    with (c :: String.list_ascii_of_string (a +:+ b)). by rewrite IH.
Qed.
Lemma bytes_of_inj a b : bytes_of a = bytes_of b -> a = b.
Proof.
  unfold bytes_of. intros Heq. apply (f_equal of_bytes) in Heq. unfold of_bytes in Heq.
  by rewrite !String.string_of_list_ascii_of_string in Heq.
Qed.

Lemma DomainFor_shape op : DomainFor op = "spawnery/intent/" +:+ op +:+ "/v1".
Proof.
  unfold DomainFor.
  repeat match goal with
  | |- context [String.eqb op ?x] => destruct (String.eqb_spec op x) as [->|_]; [reflexivity|]
  end. reflexivity.
Qed.

Lemma DomainFor_inj op op' : DomainFor op = DomainFor op' -> op = op'.
Proof.
  rewrite !DomainFor_shape. intros Heq. apply (f_equal bytes_of) in Heq.
  rewrite !bytes_of_app in Heq. apply app_inv_head, app_inv_tail in Heq. by apply bytes_of_inj.
Qed.

(** ** Big integers *)

Lemma big_Bytes_bound x :
  0 <= x -> x < 256 ^ Z.of_nat (length (big_Bytes x)) /\ read_be (big_Bytes x) = x.
Proof.
  intros Hx. unfold big_Bytes. destruct (Z.leb_spec x 0) as [H0|H0]; [by replace x with 0 by lia|].
  rewrite length_big_endian, read_be_big_endian.
  assert (x < 256 ^ Z.of_nat (Z.to_nat ((Z.log2 x + 8) / 8))) as Hlt.
  { pose proof (Z.log2_nonneg x). rewrite Z2Nat.id by (apply Z.div_pos; lia).
    pose proof (Z.log2_spec x H0) as [_ Hl]. eapply Z.lt_le_trans; [exact Hl|].
    change 256 with (2 ^ 8). rewrite <- Z.pow_mul_r by (try apply Z.div_pos; lia).
    apply Z.pow_le_mono_r; [lia|].
    pose proof (Z.div_mod (Z.log2 x + 8) 8). pose proof (Z.mod_pos_bound (Z.log2 x + 8) 8). lia. }
  split; [done|]. apply Z.mod_small. lia.
Qed.

Lemma length_big_Bytes x : 0 <= x < 2 ^ 256 -> (length (big_Bytes x) <= 32)%nat.
Proof.
  intros Hx. unfold big_Bytes. destruct (Z.leb_spec x 0); [simpl; lia|].
  rewrite length_big_endian.
  assert (Z.log2 x < 256) by (apply Z.log2_lt_pow2; lia).
  assert ((Z.log2 x + 8) / 8 <= 32); [|lia].
  transitivity (263 / 8); [apply Z.div_le_mono; lia|]. by vm_compute.
Qed.

Lemma read_be_zeros n l : read_be (replicate n "000"%char ++ l) = read_be l.
Proof.
  induction n as [|n IH]; [done|]. unfold read_be in *. cbn [replicate app foldl].
  by change (0 * 256 + byte_of "000"%char) with 0.
Qed.

Lemma pad32_spec x :
  0 <= x < 2 ^ 256 ->
  length (pad32 (big_Bytes x)) = 32%nat /\ SetBytes (pad32 (big_Bytes x)) = x.
Proof.
  intros Hx. pose proof (length_big_Bytes x Hx). unfold pad32, SetBytes. split.
  - rewrite length_app, length_replicate. lia.
  - rewrite read_be_zeros. apply big_Bytes_bound. lia.
Qed.

(** ** The constant-time comparison *)

Lemma byte_of_inj a b : byte_of a = byte_of b -> a = b.
Proof.
  unfold byte_of. intros Heq. apply N2Z.inj in Heq. apply (f_equal ascii_of_N) in Heq.
  by rewrite !ascii_N_embedding in Heq.
Qed.

Lemma lor_zero a b : Z.lor a b = 0 <-> a = 0 /\ b = 0.
Proof. apply Z.lor_eq_0_iff. Qed.

Lemma byte_diff_acc d l :
  foldl (fun diff '(a, b) => Z.lor diff (Z.lxor (byte_of a) (byte_of b))) d l = 0 <->
  d = 0 /\ Forall (fun ab => ab.1 = ab.2) l.
Proof.
  revert d. induction l as [|[a b] l IH]; intros d; cbn [foldl].
  { split; [by split|by intros []]. }
  rewrite IH, Forall_cons, lor_zero, Z.lxor_eq_0_iff. simpl. split.
  - intros [[-> Hab] Hf]. apply byte_of_inj in Hab. by subst.
  - by intros [-> [-> Hf]].
Qed.

Lemma byte_diff_zero h k : length h = length k -> byte_diff h k = 0 <-> h = k.
Proof.
  unfold byte_diff. intros Hl. rewrite byte_diff_acc. split.
  - intros [_ Hf]. revert k Hl Hf. induction h as [|a h IH]; intros [|b k] Hl Hf; try discriminate; [done|].
    simpl in Hf. apply Forall_cons in Hf as [Hab Hf]. simpl in Hab. subst. f_equal.
    apply IH; [by injection Hl|done].
  - intros ->. split; [done|]. clear. induction k; simpl; by constructor.
Qed.

Lemma SPKIMatchesHash_spec `{IntentCrypto} spki k :
  (forall x, length (Sum256 x) = 32%nat) ->
  SPKIMatchesHash spki k = true <-> Sum256 spki = k.
Proof.
  intros Hlen. unfold SPKIMatchesHash. destruct (Nat.eqb_spec (length k) 32) as [Hk|Hk]; simpl.
  - rewrite Z.eqb_eq. apply byte_diff_zero. by rewrite Hlen.
  - split; [done|]. intros <-. by rewrite Hlen in Hk.
Qed.

(** ** Freshness *)

Lemma freshness_None now issuedAt :
  freshness now issuedAt = None <->
  - SkewBudget <= now - issuedAt <= FreshnessWindow + SkewBudget \/ 2 ^ 63 <= issuedAt - now.
Proof.
  unfold freshness, Sub. cbv [FreshnessWindow SkewBudget Second].
  destruct (decide (now - issuedAt <= minDuration)) as [Hm|Hm].
  - replace (Z.max _ _) with minDuration by (unfold minDuration, maxDuration in *; lia).
    rewrite neg_min. unfold minDuration in *. simpl. split; [intros _; right; lia|done].
  - destruct (Z.ltb_spec (Z.max minDuration (Z.min maxDuration (now - issuedAt))) 0) as [Hn|Hn].
    + replace (Z.max _ _) with (now - issuedAt) in * by (unfold minDuration, maxDuration in *; lia).
      rewrite neg_small by (unfold minDuration in *; lia).
      destruct (Z.ltb_spec (30 * 1000000000) (- (now - issuedAt))); unfold minDuration in *;
        (split; [intros; try done; left; lia|intros; try done; lia]).
    + destruct (Z.ltb_spec (90 * 1000000000 + 30 * 1000000000)
                  (Z.max minDuration (Z.min maxDuration (now - issuedAt))));
        unfold minDuration, maxDuration in *;
        (split; [intros; try done; left; lia|intros; try done; lia]).
Qed.

(** ** The replay cache *)

Lemma Admit_true jti ia now c c' :
  Admit jti ia now c = (c', true) ->
  processStart c <= ia /\ seen c !! jti = None /\
  c' = pruneOlderThan (now - (FreshnessWindow + SkewBudget)) (c <| seen ::= <[jti := ia]> |>).
Proof.
  unfold Admit, Before. destruct (Z.ltb_spec ia (processStart c)); [done|].
  destruct (seen c !! jti) eqn:Hs; [done|]. by intros [= <-].
Qed.

Lemma Admit_ok jti ia now c :
  processStart c <= ia -> seen c !! jti = None -> snd (Admit jti ia now c) = true.
Proof.
  intros Hp Hs. unfold Admit, Before.
  destruct (Z.ltb_spec ia (processStart c)); [lia|]. by rewrite Hs.
Qed.

Lemma Admit_false jti ia now c c' : Admit jti ia now c = (c', false) -> c' = c.
Proof. unfold Admit. repeat case_match; by intros [= <-]. Qed.

Lemma lookup_prune cutoff c j :
  seen (pruneOlderThan cutoff c) !! j =
  match seen c !! j with
  | Some t => if Before t cutoff then None else Some t
  | None => None
  end.
Proof.
  unfold pruneOlderThan. cbn [seen set_field]. rewrite map_lookup_filter.
  destruct (seen c !! j) as [t|]; [|done]. cbn. destruct (Before t cutoff); by case_guard.
Qed.

(** An intent is spent at [t]: its id is remembered with its instant, or it is stale for good. *)
Definition spent (jti : string) (ia t : Z) (c : JTICache) : Prop :=
  seen c !! jti = Some ia \/ ia + (FreshnessWindow + SkewBudget) < t.

Lemma spent_later jti ia t t' c : t <= t' -> spent jti ia t c -> spent jti ia t' c.
Proof. intros Ht [Hs|Hs]; [by left|right; lia]. Qed.

Lemma spent_Admit jti ia t j i now c :
  t <= now -> spent jti ia t c -> spent jti ia now (fst (Admit j i now c)).
Proof.
  intros Ht Hs. apply (spent_later _ _ _ now) in Hs; [|done].
  destruct (Admit j i now c) as [c' [|]] eqn:Ha; [|apply Admit_false in Ha as ->; done].
  apply Admit_true in Ha as (_ & Hn & ->). destruct Hs as [Hs|Hs]; [|by right]. unfold spent.
  cbn [fst]. rewrite lookup_prune. cbn [seen set_field].
  rewrite lookup_insert_ne by congruence. rewrite Hs. unfold Before.
  destruct (Z.ltb_spec ia (now - (FreshnessWindow + SkewBudget))); [right; lia|by left].
Qed.

Lemma Admit_spends jti ia now c c' : Admit jti ia now c = (c', true) -> spent jti ia now c'.
Proof.
  intros (_ & _ & ->)%Admit_true. unfold spent. rewrite lookup_prune. cbn [seen set_field].
  rewrite lookup_insert_eq. unfold Before.
  destruct (Z.ltb_spec ia (now - (FreshnessWindow + SkewBudget))); [right; lia|by left].
Qed.

Lemma spent_stale jti ia t c now :
  spent jti ia t c -> t <= now -> freshness now ia = None -> seen c !! jti = Some ia.
Proof.
  intros [Hs|Hs] Ht Hf; [done|]. apply freshness_None in Hf. cbv [FreshnessWindow SkewBudget Second] in *.
  lia.
Qed.

(** ** Secret ids compare as sets *)

Lemma canonicalStringSet_spec a b :
  canonicalStringSet a = canonicalStringSet b <->
  forall x, x <> "" -> x ∈ a <-> x ∈ b.
Proof.
  unfold canonicalStringSet.
  assert (forall l (x : string), x ∈ (list_to_set (filter (fun v => v <> "") l) : gset string) <->
    x <> "" /\ x ∈ l) as Hin.
  { intros l x. by rewrite elem_of_list_to_set, list_elem_of_filter. }
  split.
  - intros Heq x Hx.
    set (A := list_to_set (filter _ a) : gset string) in *.
    set (B := list_to_set (filter _ b) : gset string) in *.
    assert (elements A ≡ₚ elements B) as Hp.
    { rewrite <- (merge_sort_Permutation string_le (elements A)), Heq.
      apply merge_sort_Permutation. }
    assert (x ∈ A <-> x ∈ B) as Hs by by rewrite <- !elem_of_elements, Hp.
    unfold A, B in Hs. rewrite !Hin in Hs. naive_solver.
  - intros Hs. do 2 f_equal. apply set_eq. intros x. rewrite !Hin. naive_solver.
Qed.
