(* ===== verification/IntentContract.v ===== *)
(** * What a node's acceptance of a request means

    The conditions of an accepted request as propositions, the agreement of the verifier with
    them, and the fate of replays: within the verifier's lifetime and across a restart. *)

From S2P Require Import Prelude GoLib Intent IntentVerify.
From Stdlib Require Import Ascii.
Open Scope Z_scope.

(** ** What the honest client needs of the packages below *)

Class IntentLaws (C : IntentCrypto) := {
  Sum256_length x : length (Sum256 x) = 32%nat;
  Sign_Verify rnd k digest r s :
    ecdsa_Sign rnd k digest = Some (r, s) ->
    0 <= r < 2 ^ 256 /\ 0 <= s < 2 ^ 256 /\ ecdsa_Verify (EcPublic k) digest r s = true;
  keys_on_P256 k : on_P256 (EcPublic k) = true;
  pkix_roundtrip pub der :
    MarshalPKIXPublicKey pub = Some der -> ParsePKIXPublicKey der = Some (Some pub);
  proto_roundtrip body b : Marshal_IntentBody body = Some b -> Unmarshal_IntentBody b = Some body
}.

(** ** The conditions of acceptance *)

Section conditions.
Context `{IntentCrypto} `{ArtifactVerifier}.

Definition owner_ok (v : IntentVerifier) (owner account : string) : Prop :=
  (selfHosted v = false -> owner <> "") /\
  (owner <> "" -> account = owner) /\
  (selfHosted v = true -> nodeOwner v <> "" -> account = nodeOwner v).

(** A session token for this node, in force at [now], not revoked, of the right account. *)
Definition token_ok (v : IntentVerifier) (env : AuthEnvelope) (owner : string) (now : Z)
    (tb : SessionTokenBody) : Prop :=
  (exists payload, artifact_Verify (AccessToken env) now = Some payload /\
                   Unmarshal_SessionTokenBody payload = Some tb) /\
  now < Unix (token_ExpiresAt tb) /\ Unix (token_IssuedAt tb) <= now + issuedAtSkew /\
  Audience tb = "node" /\
  (forall f, revocations v = Some f -> f (TokenId tb) (AccountId tb) (token_IssuedAt tb) = false) /\
  owner_ok v owner (AccountId tb).

(** A P-256 signature, by the session key the token names, over the domain of [op] and the
    intent's exact bytes, which parse as [ib]. *)
Definition signed_ok (tb : SessionTokenBody) (si : SignedIntent) (op : Op) (ib : IntentBody)
    : Prop :=
  Sum256 (SpkiDer si) = token_SessionKeyHash tb /\ Domain si = DomainFor op /\
  (exists pub, ParsePKIXPublicKey (SpkiDer si) = Some (Some pub) /\ on_P256 pub = true /\
     length (intent_Sig si) = 64%nat /\
     ecdsa_Verify pub (Sum256 (bytes_of (DomainFor op) ++ intent_Body si))
       (read_be (take 32 (intent_Sig si))) (read_be (drop 32 (intent_Sig si))) = true) /\
  Unmarshal_IntentBody (intent_Body si) = Some ib /\ body_Op ib = op.

(** The second case is an overflow of the code's: see [freshness_exact]. *)
Definition fresh (now issuedAt : Z) : Prop :=
  - SkewBudget <= now - issuedAt <= FreshnessWindow + SkewBudget \/ 2 ^ 63 <= issuedAt - now.

Definition unused (v : IntentVerifier) (ib : IntentBody) : Prop :=
  processStart (jtiCache v) <= Unix (IssuedAt ib) /\ seen (jtiCache v) !! Jti ib = None.

Definition start_corresponds (v : IntentVerifier) (ib : IntentBody) (f : StartFields) : Prop :=
  SpawnId ib = start_SpawnID f /\ Generation ib = start_Generation f /\
  (nodeID v <> "" -> TargetNodeId ib = nodeID v) /\
  AppRef ib = start_AppRef f /\ Image ib = start_Image f /\ Model ib = start_Model f /\
  DataRef ib = start_DataRef f /\ Mounts ib = start_Mounts f /\
  (forall x, x <> "" -> x ∈ AttachedSecretIds ib <-> x ∈ start_AttachedSecretIDs f).

Definition open_corresponds (v : IntentVerifier) (ib : IntentBody) (spawn : string) (gen : Z)
    (session : string) : Prop :=
  SpawnId ib = spawn /\ Generation ib = gen /\ SessionId ib = session /\
  TargetNodeId ib = nodeID v.

(** ** The pieces of the chain *)

Lemma if_err {A} (b : bool) (e : NACKCode) (r : result NACKCode A) x :
  (if b then inl e else r) = inr x <-> b = false /\ r = inr x.
Proof. destruct b; naive_solver. Qed.

Lemma if_nack (b : bool) (e : NACKCode) (r : option NACKCode) :
  (if b then Some e else r) = None <-> b = false /\ r = None.
Proof. destruct b; naive_solver. Qed.

Lemma neq_eqb_false (x y : string) : negb (String.eqb x y) = false <-> x = y.
Proof. by rewrite negb_false_iff, String.eqb_eq. Qed.

Lemma verify_token_spec v env owner now tb :
  verify_token v env owner now = inr tb <-> token_ok v env owner now tb.
Proof.
  unfold verify_token, token_ok, owner_ok, ValidateSessionBody, Before, After.
  destruct (artifact_Verify _ _) as [payload|]; [|by split; [|intros ((? & ? & _) & _)]].
  destruct (Unmarshal_SessionTokenBody payload) as [b|] eqn:Hb;
    [|split; [done|intros ((? & ? & ?) & _); congruence]].
  destruct (Z.ltb_spec now (Unix (token_ExpiresAt b))) as [He|He]; cbn [negb].
  2: { split; [done|]. intros ((p & [= <-] & Hb') & Hlt & _). simplify_eq. lia. }
  destruct (Z.ltb_spec (now + issuedAtSkew) (Unix (token_IssuedAt b))) as [Hi|Hi].
  { split; [done|]. intros ((p & [= <-] & Hb') & _ & Hle & _). simplify_eq. lia. }
  rewrite !if_err, neq_eqb_false, !andb_false_iff, !neq_eqb_false, !negb_false_iff.
  rewrite String.eqb_neq. split.
  - intros (Ha & Hr & Ho1 & Ho2 & Ho3 & [= ->]). split; [eauto|]. do 2 (split; [done|]).
    split; [done|]. split; [intros f Hf; by rewrite Hf in Hr|].
    split; [intros Hs; destruct Ho1; congruence|]. split; [naive_solver|].
    intros Hs Hn. destruct Ho3 as [[?|?]|?]; congruence.
  - intros ((p & [= <-] & Hb') & _ & _ & Ha & Hr & Ho1 & Ho2 & Ho3). simplify_eq. split; [done|].
    split; [destruct (revocations v); [by apply Hr|done]|].
    split; [destruct (selfHosted v); [by left|right; by apply Ho1]|].
    split; [destruct (decide (owner = "")); [by left|right; by apply Ho2]|].
    split; [|done]. destruct (selfHosted v); [|by left; left].
    destruct (decide (nodeOwner v = "")); [by left; right|right; by apply Ho3].
Qed.

Lemma verify_intent_spec tb si op ib :
  (forall x, length (Sum256 x) = 32%nat) ->
  verify_intent tb si op = inr ib <-> signed_ok tb si op ib.
Proof.
  intros Hlen. unfold verify_intent, signed_ok, VerifySig, parseSPKIECDSA, p1363ToRS, ParseBody.
  rewrite !if_err, neq_eqb_false, negb_false_iff, SPKIMatchesHash_spec by done.
  split.
  - intros (Hk & Hd & Hr). rewrite Hd in Hr.
    destruct (ParsePKIXPublicKey _) as [[pub|]|]; [|done..].
    destruct (on_P256 pub) eqn:Hp; [|done]. cbn [negb] in Hr.
    destruct (Nat.eqb_spec (length (intent_Sig si)) 64) as [Hl|]; [|done]. cbn [negb] in Hr.
    destruct (ecdsa_Verify _ _ _ _) eqn:Hv; [|done]. cbn [negb] in Hr.
    destruct (Unmarshal_IntentBody _) as [b|]; [|done].
    apply if_err in Hr as [Ho [= ->]]. apply neq_eqb_false in Ho. naive_solver.
  - intros (Hk & Hd & (pub & Hpub & Hp & Hl & Hv) & Hu & Ho). do 2 (split; [done|]).
    rewrite Hd, Hpub, Hp, Hl. cbn [negb Nat.eqb]. unfold SetBytes. rewrite Hv, Hu. cbn [negb].
    apply if_err. by rewrite neq_eqb_false.
Qed.

Lemma verify_spec v env owner op corr now now' v' auth :
  (forall x, length (Sum256 x) = 32%nat) ->
  verify v env owner op corr now now' = (v', inr auth) <->
  exists e si tb ib,
    env = Some e /\ env_Intent e = Some si /\ token_ok v e owner now tb /\
    signed_ok tb si op ib /\ auth = authorization_of tb /\ corr ib auth = None /\
    fresh now (Unix (IssuedAt ib)) /\ unused v ib /\
    v' = v <| jtiCache := fst (Admit (Jti ib) (Unix (IssuedAt ib)) now' (jtiCache v)) |>.
Proof.
  intros Hlen. unfold verify, unused, fresh. setoid_rewrite <- freshness_None. split.
  - destruct env as [e|]; [|done]. destruct (_ && _); [done|].
    destruct (verify_token v e owner now) as [|tb] eqn:Ht; [done|].
    destruct (env_Intent e) as [si|] eqn:Hi; [|done].
    destruct (verify_intent tb si op) as [|ib] eqn:Hs; [done|]. cbn zeta.
    destruct (corr ib _) eqn:Hc; [done|]. destruct (freshness _ _) eqn:Hf; [done|].
    destruct (Admit _ _ _ _) as [c [|]] eqn:Ha; [|done]. intros [= <- <-].
    apply verify_token_spec in Ht. apply verify_intent_spec in Hs; [|done].
    exists e, si, tb, ib. rewrite Ha.
    apply Admit_true in Ha as (Hp & Hn & _). naive_solver.
  - intros (e & si & tb & ib & -> & Hi & Ht & Hs & -> & Hc & Hf & [Hp Hn] & ->).
    apply verify_token_spec in Ht. apply verify_intent_spec in Hs; [|done].
    rewrite Hi, andb_false_r, Ht, Hs, Hc, Hf.
    pose proof (Admit_ok _ _ now' _ Hp Hn) as Ha.
    destruct (Admit _ _ _ _) as [c [|]]; [done|discriminate].
Qed.

Lemma mount_mismatch_false bm m : mount_mismatch bm m = false <-> bm = m.
Proof.
  unfold mount_mismatch. rewrite !orb_false_iff, !negb_false_iff, !String.eqb_eq, Bool.eqb_true_iff.
  destruct bm, m. simpl. naive_solver.
Qed.

Lemma mounts_equal l1 l2 :
  length l1 = length l2 ->
  existsb (fun '(bm, m) => mount_mismatch bm m) (zip l1 l2) = false <-> l1 = l2.
Proof.
  revert l2. induction l1 as [|a l1 IH]; intros [|b l2] Hl; try discriminate; [done|].
  cbn [zip zip_with existsb]. rewrite orb_false_iff, mount_mismatch_false, IH by (by injection Hl).
  naive_solver.
Qed.

Lemma start_correspondence_spec v ib f :
  checkStartCorrespondence v ib f = None <-> start_corresponds v ib f.
Proof.
  unfold checkStartCorrespondence, start_corresponds. rewrite !if_nack, !neq_eqb_false.
  rewrite !negb_false_iff, !andb_false_iff, !neq_eqb_false, Z.eqb_eq.
  rewrite Nat.eqb_eq, bool_decide_eq_true, canonicalStringSet_spec. split.
  - intros (? & ? & Ht & ? & ? & ? & ? & Hl & Hm & Hs & _). apply mounts_equal in Hm; [|done].
    split_and!; try done. intros Hn. by destruct Ht.
  - intros (? & ? & Ht & ? & ? & ? & ? & Hm & Hs). rewrite mounts_equal by congruence.
    split_and!; try done; [|congruence].
    destruct (decide (nodeID v = "")); [by left|right; auto].
Qed.

Lemma open_correspondence_spec v ib f :
  checkOpenCorrespondence v ib f = None <->
  open_corresponds v ib (open_SpawnID f) (open_Generation f) (open_SessionID f).
Proof.
  unfold checkOpenCorrespondence, open_corresponds. rewrite !if_nack, !neq_eqb_false.
  rewrite negb_false_iff, Z.eqb_eq. naive_solver.
Qed.
End conditions.

(** ** Acceptance *)

(** C12: a node starts a spawn on a user's behalf exactly when every condition of the chain holds:
    a session token in force, for this audience and account and not revoked; a P-256 signature,
    by the key the token names, over the start's domain and the exact intent bytes; a signed
    body that agrees with the relayed request in its spawn, generation, target node, app,
    image, model, data, mounts (in order) and set of secrets; an issue time that is between 30
    seconds ahead and the freshness window plus 30 seconds ago, or else 2^63 nanoseconds (292
    years) or more ahead of the node's clock, where the code's check of the future skew overflows
    and lets the intent pass; an unused intent id, issued since the node's start.  The one effect
    is the replay cache's. *)
Theorem start_accepted_exactly_when `{IntentCrypto} `{ArtifactVerifier} v env f now now' v' auth :
  (forall x, length (Sum256 x) = 32%nat) ->
  VerifyStart v env f now now' = (v', inr auth) <->
  exists e si tb ib,
    env = Some e /\ env_Intent e = Some si /\
    token_ok v e (start_AssertedOwner f) now tb /\ signed_ok tb si (start_Op f) ib /\
    start_corresponds v ib f /\ fresh now (Unix (IssuedAt ib)) /\ unused v ib /\
    auth = authorization_of tb /\
    v' = v <| jtiCache := fst (Admit (Jti ib) (Unix (IssuedAt ib)) now' (jtiCache v)) |>.
Proof.
  intros Hlen. unfold VerifyStart. rewrite verify_spec by done.
  setoid_rewrite start_correspondence_spec. naive_solver.
Qed.

Lemma exec_correspondence_spec (bodyreq req : option ExecRequest) :
  match req with
  | None | Some {| Argv := [] |} => Some NACKCorrespondence
  | Some ({| Argv := a :: _ |} as r) =>
      if String.eqb a "" then Some NACKCorrespondence else
      match bodyreq with
      | None => Some NACKCorrespondence
      | Some breq => if negb (bool_decide (breq = r)) then Some NACKCorrespondence else None
      end
  end = None <->
  exists a args, a <> "" /\ req = Some {| Argv := a :: args |} /\ bodyreq = req.
Proof.
  split.
  - destruct req as [[[|a args]]|]; [done| |done]. destruct (String.eqb_spec a "") as [|Ha]; [done|].
    destruct bodyreq as [b|]; [|done]. case_bool_decide as Hb; [|done]. intros _. subst b. eauto.
  - intros (a & args & Ha & -> & ->). destruct (String.eqb_spec a ""); [done|].
    by rewrite bool_decide_eq_true_2.
Qed.

(** A node runs a command only if the user signed that very command for that session: an
    accepted exec carries a non-empty argv that is, word for word, the one in a fresh unused
    body signed for this node, spawn, generation and session by the token's session key. *)
Theorem exec_accepted_only_if_signed `{IntentCrypto} `{ArtifactVerifier} v env f now now' v' auth :
  (forall x, length (Sum256 x) = 32%nat) ->
  VerifyExec v env f now now' = (v', inr auth) ->
  exists e si tb ib a args,
    env = Some e /\ env_Intent e = Some si /\
    token_ok v e (exec_AssertedOwner f) now tb /\ signed_ok tb si OpExecOpen ib /\
    open_corresponds v ib (exec_SpawnID f) (exec_Generation f) (exec_SessionID f) /\
    exec_Request f = Some {| Argv := a :: args |} /\ a <> "" /\
    exec_request ib = exec_Request f /\ fresh now (Unix (IssuedAt ib)) /\ unused v ib.
Proof.
  intros Hlen. unfold VerifyExec. rewrite verify_spec by done.
  intros (e & si & tb & ib & -> & Hi & Ht & Hs & _ & Hc & Hf & Hn & _).
  destruct (checkOpenCorrespondence _ _ _) eqn:Ho; [done|].
  apply open_correspondence_spec in Ho. cbn [open_SpawnID open_Generation open_SessionID] in Ho.
  apply exec_correspondence_spec in Hc as (a & args & Ha & Hr & Hb).
  exists e, si, tb, ib, a, args. naive_solver.
Qed.

(** C13: an intent a client builds with its session key passes the node's signature checks for
    its own operation, with the body it signed, and for no other operation: there the node
    answers that the domain does not correspond. *)
Theorem built_intent_verifies `{IntentLaws} rnd op body priv si tb :
  Build rnd op body priv = inr si -> body_Op body = op ->
  token_SessionKeyHash tb = SessionKeyHash (SpkiDer si) ->
  verify_intent tb si op = inr body /\
  forall op', op' <> op -> verify_intent tb si op' = inl NACKCorrespondence.
Proof.
  intros Hb Hop Htb. unfold Build, signP1363 in Hb.
  destruct (Marshal_IntentBody body) as [bb|] eqn:Hm; [|done].
  destruct (ecdsa_Sign _ _ _) as [[r s]|] eqn:Hs; [|done].
  destruct (MarshalPKIXPublicKey _) as [der|] eqn:Hp; [|done]. injection Hb as <-.
  cbn [SpkiDer] in Htb. apply Sign_Verify in Hs as (Hr & Hs & Hv).
  apply pkix_roundtrip in Hp. pose proof (proto_roundtrip _ _ Hm) as Hu.
  destruct (pad32_spec r Hr) as [Lr Br]. destruct (pad32_spec s Hs) as [Ls Bs]. split.
  - apply verify_intent_spec; [apply Sum256_length|]. unfold signed_ok. cbn -[read_be].
    split; [done|]. split; [done|]. split; [|done]. exists (EcPublic priv).
    rewrite Hp, keys_on_P256, take_app_length', drop_app_length', length_app, Lr, Ls by done.
    unfold SetBytes in *. by rewrite Br, Bs.
  - intros op' Hne. unfold verify_intent. cbn [SpkiDer Domain].
    assert (SPKIMatchesHash der (token_SessionKeyHash tb) = true) as ->
      by (apply SPKIMatchesHash_spec; [apply Sum256_length|done]). cbn [negb].
    destruct (String.eqb_spec (DomainFor op) (DomainFor op')) as [Hd|]; [|done].
    apply DomainFor_inj in Hd. congruence.
Qed.

(** ** Replays *)

Section replay.
Context `{IntentCrypto} `{ArtifactVerifier}.

(** Any further calls of the verifier's methods, under a clock that does not go back. *)
Inductive calls : IntentVerifier -> Z -> IntentVerifier -> Z -> Prop :=
| calls_none v t t' : t <= t' -> calls v t v t'
| calls_one v t env owner op corr now now' v' t' :
    t <= now -> now <= now' ->
    calls (fst (verify v env owner op corr now now')) now' v' t' ->
    calls v t v' t'.

Lemma verify_spent jti ia t v env owner op corr now now' :
  t <= now' -> spent jti ia t (jtiCache v) ->
  spent jti ia now' (jtiCache (fst (verify v env owner op corr now now'))).
Proof.
  intros Ht Hs. pose proof (spent_later _ _ _ _ _ Ht Hs) as Hl. unfold verify.
  destruct env as [e|]; [|done]. destruct (_ && _); [done|].
  destruct (verify_token _ _ _ _); [done|]. destruct (env_Intent e) as [si|]; [|done].
  destruct (verify_intent _ _ _) as [|ib]; [done|]. destruct (corr _ _); [done|].
  destruct (freshness _ _); [done|].
  pose proof (spent_Admit jti ia t (Jti ib) (Unix (IssuedAt ib)) now' _ Ht Hs) as Ha.
  by destruct (Admit _ _ _ _) as [c []].
Qed.

Lemma calls_spent jti ia v t v' t' :
  calls v t v' t' -> spent jti ia t (jtiCache v) -> spent jti ia t' (jtiCache v').
Proof.
  induction 1 as [v t t' Ht|v t env owner op corr now now' v' t' Ht Hn _ IH]; intros Hs.
  - by eapply spent_later.
  - apply IH, (verify_spent _ _ t); [lia|done].
Qed.
End replay.

(** No replay: once a verifier has accepted a signed body, then after any further calls it
    never accepts that body again, through whichever of its methods, while it lives and its
    clock does not go back; remembering ids no longer than the freshness window is enough. *)
Theorem replay_rejected `{IntentCrypto} `{ArtifactVerifier}
    v v1 v2 v3 t env si owner op corr now now1 env2 si2 owner2 op2 corr2 now2 now2' auth auth2 :
  (forall x, length (Sum256 x) = 32%nat) ->
  option_bind _ _ env_Intent env = Some si -> option_bind _ _ env_Intent env2 = Some si2 ->
  intent_Body si2 = intent_Body si ->
  verify v env owner op corr now now1 = (v1, inr auth) ->
  calls v1 now1 v2 t -> t <= now2 ->
  verify v2 env2 owner2 op2 corr2 now2 now2' <> (v3, inr auth2).
Proof.
  intros Hlen He He2 Hbody Hv Hcalls Ht Hv2.
  apply verify_spec in Hv as (e & s & tb & ib & -> & Hs & _ & (_ & _ & _ & Hu & _) & _ & _ & _ & [Hp Hn] & ->);
    [|done].
  apply verify_spec in Hv2 as (e2 & s2 & tb2 & ib2 & -> & Hs2 & _ & (_ & _ & _ & Hu2 & _) & _ & _ & Hf2 & [_ Hn2] & _);
    [|done].
  cbn in He, He2. simplify_eq. rewrite Hbody in Hu2. simplify_eq.
  assert (spent (Jti ib) (Unix (IssuedAt ib)) t (jtiCache v2)) as Hsp.
  { eapply calls_spent; [done|]. cbn.
    pose proof (Admit_ok (Jti ib) (Unix (IssuedAt ib)) now1 (jtiCache v) Hp Hn) as Hok.
    destruct (Admit (Jti ib) _ now1 _) as [c b] eqn:Ha. cbn in Hok. subst b.
    by eapply Admit_spends. }
  apply (spent_stale _ _ _ _ now2) in Hsp; [congruence|done|]. by apply freshness_None.
Qed.

(** Across a restart (the cache starts empty at [ps]) an accepted intent is accepted again,
    while its token and freshness last, exactly when its issued_at is not before the restart.
    Intents a client dates up to thirty seconds ahead of the node are accepted, so one used just
    before a restart can be replayed just after: the floor does not cover them. *)
Theorem restart_floor `{IntentCrypto} `{ArtifactVerifier}
    v v1 env owner op corr now now1 auth ps now2 now2' :
  (forall x, length (Sum256 x) = 32%nat) ->
  verify v env owner op corr now now1 = (v1, inr auth) ->
  let v2 := v <| jtiCache := NewJTICache ps |> in
  forall e si tb ib, env = Some e -> env_Intent e = Some si ->
  Unmarshal_IntentBody (intent_Body si) = Some ib ->
  token_ok v2 e owner now2 tb -> authorization_of tb = auth ->
  fresh now2 (Unix (IssuedAt ib)) ->
  (exists v3, verify v2 env owner op corr now2 now2' = (v3, inr auth)) <->
  ps <= Unix (IssuedAt ib).
Proof.
  intros Hlen Hv v2 e si tb ib -> Hi Hu Ht Ha Hf.
  apply verify_spec in Hv
    as (e' & s & tb' & ib' & [= <-] & Hs & Ht' & Hsig & Ha' & Hc & _ & _ & _); [|done].
  pose proof Hsig as (_ & _ & _ & Hu' & _).
  assert (s = si) as -> by congruence. assert (ib' = ib) as -> by congruence. split.
  - intros [v3 Hv]. apply verify_spec in Hv as (e2 & s2 & tb2 & ib2 & [= <-] & Hs2 & _ &
      (_ & _ & _ & Hu2 & _) & _ & _ & _ & [Hp _] & _); [|done].
    assert (s2 = si) as -> by congruence. assert (ib2 = ib) as -> by congruence. done.
  - intros Hp. eexists. apply verify_spec; [done|]. exists e, si, tb, ib.
    split_and!; try done.
    destruct Hsig as (Hk & Hd & Hx). split; [|done]. rewrite Hk.
    unfold authorization_of in *. congruence.
Qed.

(** The freshness window is exact, but not one window: an intent is taken for fresh when its
    age lies between -30 s and 120 s, and also when it is dated 2^63 ns (292 years) or more into
    the future, because the age saturates at the least Duration, whose negation wraps to
    itself and so is no more than the skew budget. *)
Theorem freshness_exact now issuedAt :
  (freshness now issuedAt = None <->
    - SkewBudget <= now - issuedAt <= FreshnessWindow + SkewBudget \/ 2 ^ 63 <= issuedAt - now) /\
  freshness (Unix 1700000000) (Unix 11000000000) = None.
Proof. split; [apply freshness_None|by vm_compute]. Qed.

(** ** A toy instance of the packages, for the witnesses

    Its protobuf knows the two bodies of the demonstration, its signatures only the length of
    what they sign. *)

#[export] Instance IntentBody_eq_dec : EqDecision IntentBody.
Proof. solve_decision. Defined.

Module Toy.
Definition body0 : IntentBody := {|
  Jti := "j"; IssuedAt := 1010; SpawnId := "s"; Generation := 1; TargetNodeId := "n";
  body_Op := OpCreateSpawn; AppRef := "app"; Image := ""; Model := ""; DataRef := "";
  SessionId := ""; Mounts := []; AttachedSecretIds := ["k"; ""]; NewTokenId := "";
  exec_request := None |}.
Definition body1 : IntentBody := {|
  Jti := "e"; IssuedAt := 990; SpawnId := "s"; Generation := 1; TargetNodeId := "n";
  body_Op := OpExecOpen; AppRef := ""; Image := ""; Model := ""; DataRef := "";
  SessionId := "0"; Mounts := []; AttachedSecretIds := []; NewTokenId := "";
  exec_request := Some {| Argv := ["ls"] |} |}.

Definition digest (x : bytes) : bytes := ascii_of_nat (length x) :: replicate 31 "000"%char.
Definition wire0 : bytes := ["0"%char].
Definition wire1 : bytes := ["1"%char].

#[export] Instance crypto : IntentCrypto := {|
  EcPriv := unit; EcPub := unit; EcPublic k := k; EcRand := unit;
  Sum256 := digest;
  ecdsa_Sign _ _ d := Some (read_be (take 1 d), 7);
  ecdsa_Verify _ d r s := (r =? read_be (take 1 d)) && (s =? 7);
  ParsePKIXPublicKey _ := Some (Some tt);
  MarshalPKIXPublicKey _ := Some ["k"%char];
  on_P256 _ := true;
  Marshal_IntentBody b := if decide (b = body0) then Some wire0
                          else if decide (b = body1) then Some wire1 else None;
  Unmarshal_IntentBody w := if decide (w = wire0) then Some body0
                            else if decide (w = wire1) then Some body1 else None;
  Unmarshal_SessionTokenBody _ :=
    Some {| AccountId := "u"; TokenId := "t"; Audience := "node"; token_IssuedAt := 900;
            token_ExpiresAt := 5000; token_SessionKeyHash := digest ["k"%char] |}
|}.
#[export] Instance artifacts : ArtifactVerifier := fun _ _ => Some [].

Lemma digest_length x : length (digest x) = 32%nat.
Proof. reflexivity. Qed.

Lemma byte_of_range a : 0 <= byte_of a < 256.
Proof. unfold byte_of. pose proof (N_ascii_bounded a). lia. Qed.

#[export] Instance laws : IntentLaws crypto.
Proof.
  split; cbn -[read_be digest]; try done.
  - intros rnd k d r s [= <- <-].
    assert (0 <= read_be (take 1 d) < 256).
    { destruct d as [|a d]; [done|]. change (read_be (take 1 (a :: d))) with (byte_of a).
      apply byte_of_range. }
    rewrite !Z.eqb_refl. split_and!; done || lia.
  - intros [] der _. done.
  - intros body b. destruct (decide (body = body0)) as [->|]; [by intros [= <-]|].
    destruct (decide (body = body1)) as [->|]; [by intros [= <-]|done].
Qed.

Definition signed (op : Op) (b : IntentBody) : option SignedIntent :=
  match Build tt op b tt with inr si => Some si | inl _ => None end.
Definition si0 : SignedIntent := default {| Domain := ""; intent_Body := []; intent_Sig := [];
  SpkiDer := [] |} (signed OpCreateSpawn body0).
Definition env0 : option AuthEnvelope :=
  Some {| AccessToken := "w"; env_Intent := Some si0 |}.
Definition env1 : option AuthEnvelope :=
  Some {| AccessToken := "w"; env_Intent := signed OpExecOpen body1 |}.
Definition v0 : IntentVerifier := NewIntentVerifier "" "n" false (Unix 0) [].
Definition fields0 : StartFields := {|
  start_Op := OpCreateSpawn; start_SpawnID := "s"; start_Generation := 1; start_AppRef := "app";
  start_Image := ""; start_Model := ""; start_DataRef := ""; start_Mounts := [];
  start_AttachedSecretIDs := ["k"; "k"]; start_AssertedOwner := "u" |}.
Definition fields1 : ExecFields := {|
  exec_SpawnID := "s"; exec_Generation := 1; exec_SessionID := "0"; exec_AssertedOwner := "u";
  exec_Request := Some {| Argv := ["ls"] |} |}.
Definition token0 : SessionTokenBody := default {| AccountId := ""; TokenId := ""; Audience := "";
  token_IssuedAt := 0; token_ExpiresAt := 0; token_SessionKeyHash := [] |}
  (Unmarshal_SessionTokenBody []).
Definition corr0 (v : IntentVerifier) (b : IntentBody) (_ : Authorization) : option NACKCode :=
  checkStartCorrespondence v b fields0.
Definition v1 : IntentVerifier :=
  v0 <| jtiCache := fst (Admit "j" (Unix 1010) (Unix 1000) (jtiCache v0)) |>.

Lemma accepted0 :
  verify v0 env0 "u" OpCreateSpawn (corr0 v0) (Unix 1000) (Unix 1000)
  = (v1, inr (authorization_of token0)).
Proof. vm_compute. reflexivity. Qed.
Lemma accepted1 :
  VerifyExec v0 env1 fields1 (Unix 1000) (Unix 1000) =
  (fst (VerifyExec v0 env1 fields1 (Unix 1000) (Unix 1000)), inr (authorization_of token0)).
Proof. vm_compute. reflexivity. Qed.
Lemma token0_ok v :
  revocations v = None -> selfHosted v = false -> forall e, e = {| AccessToken := "w"; env_Intent := Some si0 |} ->
  token_ok v e "u" (Unix 1006) token0.
Proof.
  intros Hr Hs e ->. unfold token_ok, owner_ok. rewrite Hr, Hs. split; [by exists []|].
  split; [by vm_compute|]. split; [by vm_compute|]. done.
Qed.
End Toy.
#[local] Existing Instances Toy.crypto Toy.artifacts Toy.laws.

Lemma start_accepted_exactly_when_witness :
  exists e si tb ib,
    Toy.env0 = Some e /\ env_Intent e = Some si /\
    token_ok Toy.v0 e "u" (Unix 1000) tb /\ signed_ok tb si OpCreateSpawn ib /\
    start_corresponds Toy.v0 ib Toy.fields0 /\ fresh (Unix 1000) (Unix (IssuedAt ib)) /\
    unused Toy.v0 ib /\ authorization_of Toy.token0 = authorization_of tb /\
    Toy.v1 = Toy.v0 <| jtiCache :=
      fst (Admit (Jti ib) (Unix (IssuedAt ib)) (Unix 1000) (jtiCache Toy.v0)) |>.
Proof.
  apply (@start_accepted_exactly_when Toy.crypto Toy.artifacts Toy.v0 Toy.env0 Toy.fields0 (Unix 1000) (Unix 1000) Toy.v1
    (authorization_of Toy.token0)); [exact Toy.digest_length|exact Toy.accepted0].
Defined.

Lemma exec_accepted_only_if_signed_witness :
  exists e si tb ib a args,
    Toy.env1 = Some e /\ env_Intent e = Some si /\
    token_ok Toy.v0 e "u" (Unix 1000) tb /\ signed_ok tb si OpExecOpen ib /\
    open_corresponds Toy.v0 ib "s" 1 "0" /\
    Some {| Argv := ["ls"] |} = Some {| Argv := a :: args |} /\ a <> "" /\
    exec_request ib = Some {| Argv := ["ls"] |} /\ fresh (Unix 1000) (Unix (IssuedAt ib)) /\
    unused Toy.v0 ib.
Proof.
  exact (@exec_accepted_only_if_signed Toy.crypto Toy.artifacts Toy.v0 Toy.env1 Toy.fields1 (Unix 1000) (Unix 1000) _
    (authorization_of Toy.token0) Toy.digest_length Toy.accepted1).
Defined.

Lemma built_intent_verifies_witness :
  verify_intent Toy.token0 Toy.si0 OpCreateSpawn = inr Toy.body0 /\
  verify_intent Toy.token0 Toy.si0 OpExecOpen = inl NACKCorrespondence.
Proof.
  destruct (@built_intent_verifies Toy.crypto Toy.laws tt OpCreateSpawn Toy.body0 tt Toy.si0
    Toy.token0) as [Hok Hne];
    [vm_compute; reflexivity..|].
  split; [exact Hok|]. apply Hne. discriminate.
Defined.

Lemma replay_rejected_witness :
  verify Toy.v1 Toy.env0 "u" OpCreateSpawn (Toy.corr0 Toy.v1) (Unix 1001) (Unix 1001)
  <> (Toy.v1, inr (authorization_of Toy.token0)).
Proof.
  apply (@replay_rejected Toy.crypto Toy.artifacts Toy.v0 Toy.v1 Toy.v1 Toy.v1 (Unix 1001) Toy.env0 Toy.si0 "u" OpCreateSpawn
    (Toy.corr0 Toy.v0) (Unix 1000) (Unix 1000) Toy.env0 Toy.si0 "u" OpCreateSpawn
    (Toy.corr0 Toy.v1) (Unix 1001) (Unix 1001) (authorization_of Toy.token0)
    (authorization_of Toy.token0) Toy.digest_length eq_refl eq_refl eq_refl Toy.accepted0).
  - apply calls_none. vm_compute. discriminate.
  - reflexivity.
Defined.

Lemma restart_floor_witness :
  exists v3, verify (Toy.v0 <| jtiCache := NewJTICache (Unix 1005) |>) Toy.env0 "u" OpCreateSpawn
    (Toy.corr0 Toy.v0) (Unix 1006) (Unix 1006) = (v3, inr (authorization_of Toy.token0)).
Proof.
  apply (@restart_floor Toy.crypto Toy.artifacts Toy.v0 Toy.v1 Toy.env0 "u" OpCreateSpawn (Toy.corr0 Toy.v0) (Unix 1000)
    (Unix 1000) (authorization_of Toy.token0) (Unix 1005) (Unix 1006) (Unix 1006)
    Toy.digest_length Toy.accepted0 {| AccessToken := "w"; env_Intent := Some Toy.si0 |} Toy.si0
    Toy.token0 Toy.body0).
  - reflexivity.
  - reflexivity.
  - vm_compute. reflexivity.
  - by apply Toy.token0_ok.
  - reflexivity.
  - left. vm_compute. split; discriminate.
  - vm_compute. discriminate.
Defined.
