(* ===== verification/JournalQueue.v ===== *)
(** * The journal's per-mount snapshot queue (src/internal/storage/journal/queue.go)

    Snapshots of a mount run one at a time on a runner goroutine; a suspend drains them and then
    takes the final one; a warm snapshot drains them and runs between.  Each critical section of
    the mutex is one function on the queue's fields; the goroutines are program counters that
    interleave between them, and [cond] wakes the ones asleep in [Wait]. *)

From S2P Require Import Prelude.
Open Scope Z_scope.

(** ** The queue and its critical sections *)

Record serialQueue := { running : bool; pending : bool; suspended : bool }.
#[export] Instance eta_serialQueue : Eta serialQueue :=
  fun q => {| running := running q; pending := pending q; suspended := suspended q |}.

Definition newSerialQueue : serialQueue :=
  {| running := false; pending := false; suspended := false |}.

(** [Request]: the queue, and whether [go q.run()] was executed. *)
Definition Request (q : serialQueue) : serialQueue * bool :=
  if suspended q then (q, false)
  else
    let q := q <| pending := true |> in
    if negb (running q) then (q <| running := true |>, true) else (q, false).

(** The head of [run]'s loop: [true] is the exit, which broadcasts; otherwise the action follows
    outside the lock. *)
Definition run_head (q : serialQueue) : serialQueue * bool :=
  if suspended q || negb (pending q) then (q <| running := false |>, true)
  else (q <| pending := false |>, false).

(** [Suspend] up to its wait loop. *)
Definition Suspend_enter (q : serialQueue) : serialQueue :=
  q <| suspended := true |> <| pending := false |>.

(** [WarmSnapshot] after its wait loop, before the snapshot. *)
Definition Warm_claim (q : serialQueue) : serialQueue := q <| running := true |>.

(** [WarmSnapshot] after the snapshot: the queue, and whether a runner was started; it
    broadcasts in either case. *)
Definition Warm_release (q : serialQueue) : serialQueue * bool :=
  let q := q <| running := false |> in
  if pending q && negb (suspended q) then (q <| running := true |>, true) else (q, false).

Definition IsSuspended (q : serialQueue) : bool := suspended q.

(** ** The goroutines *)

Inductive pc :=
| Run_head | Run_action | Run_done
| Suspend_call | Suspend_asleep | Suspend_woken | Suspend_final | Suspend_done
| Warm_call | Warm_asleep | Warm_action | Warm_done.
#[export] Instance pc_eq_dec : EqDecision pc.
Proof. solve_decision. Defined.

Record system := { queue : serialQueue; threads : list pc }.
#[export] Instance eta_system : Eta system :=
  fun s => {| queue := queue s; threads := threads s |}.

(** [cond.Broadcast()] *)
Definition woken (p : pc) : pc :=
  match p with
  | Suspend_asleep => Suspend_woken
  | Warm_asleep => Warm_call
  | p => p
  end.

(** [go q.run()] *)
Definition go_run (started : bool) (l : list pc) : list pc :=
  if started then l ++ [Run_head] else l.

Definition at_pc (i : nat) (p : pc) (s : system) : system := s <| threads ::= <[i := p]> |>.

(** One step of goroutine [i]; [None] when it has nothing to do or sleeps. *)
Definition step_thread (i : nat) (s : system) : option system :=
  let q := queue s in
  match threads s !! i with
  | Some Run_head =>
      match run_head q with
      | (q, true) =>
          Some {| queue := q; threads := map woken (<[i := Run_done]> (threads s)) |}
      | (q, false) => Some (at_pc i Run_action (s <| queue := q |>))
      end
  | Some Run_action => Some (at_pc i Run_head s)
  | Some Suspend_call =>
      let q := Suspend_enter q in
      Some (at_pc i (if running q then Suspend_asleep else Suspend_final) (s <| queue := q |>))
  | Some Suspend_woken =>
      Some (at_pc i (if running q then Suspend_asleep else Suspend_final) s)
  | Some Suspend_final => Some (at_pc i Suspend_done s)
  | Some Warm_call =>
      if running q then Some (at_pc i Warm_asleep s)
      else Some (at_pc i Warm_action (s <| queue := Warm_claim q |>))
  | Some Warm_action =>
      let '(q, started) := Warm_release q in
      Some {| queue := q; threads := map woken (go_run started (<[i := Warm_done]> (threads s))) |}
  | _ => None
  end.

(** The world: a call of [Request], of [Suspend] or of [WarmSnapshot], or a goroutine's step. *)
Inductive event := Ev_request | Ev_suspend | Ev_warm | Ev_thread (i : nat).

Definition step (e : event) (s : system) : option system :=
  match e with
  | Ev_request =>
      let '(q, started) := Request (queue s) in
      Some {| queue := q; threads := go_run started (threads s) |}
  | Ev_suspend => Some (s <| threads ::= (fun l => l ++ [Suspend_call]) |>)
  | Ev_warm => Some (s <| threads ::= (fun l => l ++ [Warm_call]) |>)
  | Ev_thread i => step_thread i s
  end.

Definition init : system := {| queue := newSerialQueue; threads := [] |}.

Inductive reachable : system -> Prop :=
| reachable_init : reachable init
| reachable_step e s s' : reachable s -> step e s = Some s' -> reachable s'.

Fixpoint exec (es : list event) (s : system) : option system :=
  match es with
  | [] => Some s
  | e :: es => match step e s with Some s => exec es s | None => None end
  end.

Lemma exec_reachable es s s' : reachable s -> exec es s = Some s' -> reachable s'.
Proof.
  revert s. induction es as [|e es IH]; intros s Hs; simpl; [by intros [= <-]|].
  destruct (step e s) eqn:He; [|done]. apply IH. by eapply reachable_step.
Qed.

(** ** Counting goroutines *)

Definition count (f : pc -> bool) (l : list pc) : nat := length (filter (fun p => f p = true) l).

Lemma count_nil f : count f [] = 0%nat.
Proof. reflexivity. Qed.
Lemma count_cons f p l : count f (p :: l) = ((if f p then 1 else 0) + count f l)%nat.
Proof. unfold count. rewrite filter_cons. by destruct (f p). Qed.
Lemma count_app f l1 l2 : count f (l1 ++ l2) = (count f l1 + count f l2)%nat.
Proof. unfold count. by rewrite filter_app, length_app. Qed.
Lemma count_insert f l i p p' :
  l !! i = Some p ->
  (count f (<[i := p']> l) + (if f p then 1 else 0) = count f l + (if f p' then 1 else 0))%nat.
Proof.
  revert i. induction l as [|x l IH]; intros [|i] Hi; simplify_eq/=; rewrite !count_cons; [lia|].
  specialize (IH i Hi). lia.
Qed.
Lemma count_map f g l : (forall p, f (g p) = f p) -> count f (map g l) = count f l.
Proof. intros Hf. induction l as [|p l IH]; [done|]. simpl. rewrite !count_cons, Hf. lia. Qed.
Lemma count_pos f l i p : l !! i = Some p -> f p = true -> (0 < count f l)%nat.
Proof.
  revert i. induction l as [|x l IH]; intros [|i] Hi Hf; simplify_eq/=; rewrite count_cons.
  - rewrite Hf. lia.
  - specialize (IH i Hi Hf). lia.
Qed.
Lemma count_zero f l : count f l = 0%nat <-> Forall (fun p => f p = false) l.
Proof.
  induction l as [|p l IH]; [by rewrite count_nil|]. rewrite count_cons, Forall_cons, <- IH.
  destruct (f p); split; [lia|naive_solver|lia|naive_solver].
Qed.

(** * What the snapshot queue promises *)

(** The goroutine that set [running], or was handed it. *)
Definition owns (p : pc) : bool :=
  match p with Run_head | Run_action | Warm_action => true | _ => false end.
Definition runner (p : pc) : bool :=
  match p with Run_head | Run_action => true | _ => false end.
Definition asleep (p : pc) : bool :=
  match p with Suspend_asleep | Warm_asleep => true | _ => false end.
(** A suspend past its entry, and one past its barrier. *)
Definition suspending (p : pc) : bool :=
  match p with Suspend_asleep | Suspend_woken | Suspend_final | Suspend_done => true | _ => false end.
Definition past_barrier (p : pc) : bool :=
  match p with Suspend_final | Suspend_done => true | _ => false end.

Definition one (b : bool) : nat := if b then 1 else 0.

#[local] Arguments count : simpl never.

Definition warming (p : pc) : bool := match p with Warm_action => true | _ => false end.

(** The owner is a runner or a warm snapshot. *)
Lemma count_owns l : count owns l = (count runner l + count warming l)%nat.
Proof. induction l as [|p l IH]; [done|]. rewrite !count_cons, IH. destruct p; simpl; lia. Qed.

(** The invariant, on the queue and the counts. *)
Record wf (q : serialQueue) (l : list pc) : Prop := {
  wf_owner : count owns l = one (running q);
  wf_pending : pending q = true -> running q = true /\ suspended q = false;
  wf_asleep : (0 < count asleep l)%nat -> running q = true;
  wf_suspended : (0 < count suspending l)%nat -> suspended q = true;
  wf_barrier : (0 < count past_barrier l)%nat -> count runner l = 0%nat /\ suspended q = true
}.

(** ** Preservation *)

(** Decide the premises of the invariant's implications, then finish by arithmetic. *)
Ltac wf_solve :=
  cbn in *; intros;
  repeat match goal with
  | H : (0 < ?n)%nat -> _ |- _ =>
      let E := fresh in destruct (decide (0 < n)%nat) as [E|E]; [specialize (H E)|clear H]
  end;
  intuition (try discriminate; try congruence; try lia).

(** The counts after goroutine [i] moves from the pc of [Hi] to [p']. *)
Ltac count_move Hi p' :=
  pose proof (count_insert owns _ _ _ p' Hi);
  pose proof (count_insert runner _ _ _ p' Hi);
  pose proof (count_insert warming _ _ _ p' Hi);
  pose proof (count_insert asleep _ _ _ p' Hi);
  pose proof (count_insert suspending _ _ _ p' Hi);
  pose proof (count_insert past_barrier _ _ _ p' Hi).

Lemma count_woken_asleep l : count asleep (map woken l) = 0%nat.
Proof. apply count_zero, Forall_map, Forall_true. by intros []. Qed.
Lemma count_woken f l :
  f = owns \/ f = runner \/ f = suspending \/ f = past_barrier ->
  count f (map woken l) = count f l.
Proof. intros Hf. apply count_map. intros []; naive_solver. Qed.

Lemma count_singleton f p : count f [p] = one (f p).
Proof. by rewrite count_cons, count_nil, Nat.add_0_r. Qed.

Ltac count_simpl :=
  rewrite ?count_woken_asleep, ?(count_woken owns), ?(count_woken runner),
    ?(count_woken suspending), ?(count_woken past_barrier), ?count_app, ?count_singleton in *
    by auto.

Lemma wf_request q l q' b :
  wf q l -> Request q = (q', b) -> wf q' (go_run b l).
Proof.
  intros [H1 H3 H4 H5 H6]. pose proof (count_owns l) as H2. unfold Request, go_run.
  destruct q as [[] [] []]; intros [= <- <-]; constructor; count_simpl; wf_solve.
Qed.

Lemma wf_call q l p :
  wf q l -> p = Suspend_call \/ p = Warm_call -> wf q (l ++ [p]).
Proof.
  intros [H1 H3 H4 H5 H6] [-> | ->]; constructor; count_simpl; wf_solve.
Qed.

Lemma wf_step_thread i s s' :
  wf (queue s) (threads s) -> step_thread i s = Some s' -> wf (queue s') (threads s').
Proof.
  intros [H1 H3 H4 H5 H6]. pose proof (count_owns (threads s)) as H2. unfold step_thread, at_pc.
  destruct s as [[r p su] l]. cbn [queue threads] in *.
  destruct (l !! i) as [[]|] eqn:Hi; try done.
  - count_move Hi Run_action. count_move Hi Run_done.
    destruct r, p, su; intros [= <-]; constructor; cbn [queue threads] in *; count_simpl; wf_solve.
  - count_move Hi Run_head. intros [= <-]. destruct r; constructor; wf_solve.
  - count_move Hi Suspend_asleep. count_move Hi Suspend_final.
    intros [= <-]. destruct r; constructor; wf_solve.
  - count_move Hi Suspend_asleep. count_move Hi Suspend_final.
    pose proof (count_pos suspending _ _ _ Hi eq_refl).
    intros [= <-]. destruct r; constructor; wf_solve.
  - count_move Hi Suspend_done. intros [= <-]. constructor; wf_solve.
  - count_move Hi Warm_asleep. count_move Hi Warm_action.
    destruct r; intros [= <-]; constructor; wf_solve.
  - count_move Hi Warm_done. destruct r, p, su; intros [= <-]; constructor;
      cbn [queue threads go_run] in *; count_simpl; wf_solve.
Qed.

Lemma wf_reachable s : reachable s -> wf (queue s) (threads s).
Proof.
  induction 1 as [|e s s' _ IH Hs].
  - constructor; cbn; rewrite ?count_nil; done || lia.
  - destruct e as [| | |i]; cbn in Hs.
    + destruct (Request (queue s)) as [q b] eqn:Hq. injection Hs as <-. by eapply wf_request.
    + injection Hs as <-. apply wf_call; auto.
    + injection Hs as <-. apply wf_call; auto.
    + by eapply wf_step_thread.
Qed.

(** ** The properties *)

Lemma count_two f l i j p p' :
  l !! i = Some p -> l !! j = Some p' -> f p = true -> f p' = true -> i <> j ->
  (1 < count f l)%nat.
Proof.
  revert i j. induction l as [|x l IH]; intros [|i] [|j] Hi Hj Hf Hf' Hne; simplify_eq/=;
    rewrite count_cons.
  - rewrite Hf. pose proof (count_pos f l j p' Hj Hf'). lia.
  - rewrite Hf'. pose proof (count_pos f l i p Hi Hf). lia.
  - assert (i <> j) by congruence. specialize (IH i j Hi Hj Hf Hf'). lia.
Qed.

(** C14: snapshots of a mount never overlap: no two goroutines are inside a periodic or a warm
    snapshot at once, and no periodic snapshot runs beside or after a suspend's final one, for
    any interleaving of any number of requests, suspends and warm snapshots. *)
Theorem snapshots_do_not_overlap s i j p :
  reachable s -> threads s !! i = Some p -> p = Run_action \/ p = Warm_action ->
  i <> j ->
  ~ (threads s !! j = Some Run_action \/ threads s !! j = Some Warm_action) /\
  (p = Run_action -> threads s !! j <> Some Suspend_final /\ threads s !! j <> Some Suspend_done).
Proof.
  intros [H1 _ _ _ H6]%wf_reachable Hi Hp Hne. split.
  - assert (owns p = true) as Ho by (destruct Hp as [-> | ->]; done).
    intros [Hj|Hj].
    + pose proof (count_two owns _ _ _ _ _ Hi Hj Ho eq_refl Hne). destruct (running _); simpl in *; lia.
    + pose proof (count_two owns _ _ _ _ _ Hi Hj Ho eq_refl Hne). destruct (running _); simpl in *; lia.
  - intros ->. pose proof (count_pos runner _ _ _ Hi eq_refl) as Hr.
    split; intros Hj; pose proof (count_pos past_barrier _ _ _ Hj eq_refl) as Hb;
      destruct (H6 Hb); lia.
Qed.

Lemma owner_exists l : (0 < count owns l)%nat -> exists i p, l !! i = Some p /\ owns p = true.
Proof.
  induction l as [|x l IH]; [rewrite count_nil; lia|]. rewrite count_cons.
  destruct (owns x) eqn:Hx; [by exists 0%nat, x|]. intros (i & p & Hi & Hp)%IH. by exists (S i), p.
Qed.

Lemma lookup_woken_insert l i k p p' :
  l !! k = Some p -> i <> k -> map woken (<[i:=p']> l) !! k = Some (woken p).
Proof. intros Hk Hne. by rewrite list_lookup_fmap, list_lookup_insert_ne, Hk. Qed.

(** Run the step of the goroutine whose pc [Hi] gives. *)
Ltac at_thread Hi := unfold step_thread at 1; cbn [threads queue at_pc set_field]; rewrite Hi; cbn.

(** Once suspended, an owner releases the queue within two of its own steps. *)
Lemma owner_releases s i p k :
  suspended (queue s) = true -> threads s !! i = Some p -> owns p = true ->
  threads s !! k = Some Suspend_asleep ->
  exists n s', (n <= 2)%nat /\ exec (replicate n (Ev_thread i)) s = Some s' /\
    running (queue s') = false /\ threads s' !! k = Some Suspend_woken.
Proof.
  intros Hs Hi Ho Hk. assert (i <> k) as Hne by (intros ->; rewrite Hk in Hi; by simplify_eq).
  destruct s as [[r pe su] l]. cbn in Hs, Hi, Hk. subst su. destruct p; try done.
  - exists 1%nat. cbn. at_thread Hi. eexists. split; [lia|]. split; [reflexivity|].
    split; [done|]. cbn. by rewrite (lookup_woken_insert l i k Suspend_asleep).
  - exists 2%nat. cbn. at_thread Hi.
    at_thread (list_lookup_insert_eq l i Run_head (lookup_lt_Some _ _ _ Hi)).
    eexists. split; [lia|]. split; [reflexivity|]. split; [done|]. cbn.
    by rewrite list_insert_insert_eq, (lookup_woken_insert l i k Suspend_asleep).
  - exists 1%nat. cbn. at_thread Hi. destruct pe; cbn; (eexists; split; [lia|];
      split; [reflexivity|]; split; [done|]; cbn;
      by rewrite (lookup_woken_insert l i k Suspend_asleep)).
Qed.

Lemma exec_app es1 es2 s : exec (es1 ++ es2) s = match exec es1 s with
  | Some s => exec es2 s | None => None end.
Proof. revert s. induction es1 as [|e es1 IH]; intros s; simpl; [done|]. by destruct (step e s). Qed.

(** The suspend barrier drains: a suspend asleep on the barrier is never stranded. Whoever
    holds the queue needs at most two more steps (its snapshot, and finding the queue
    suspended) to release it and wake the sleepers, and then the suspend's next step is its
    final snapshot. No wakeup is lost and no further snapshot can be scheduled in between. *)
Theorem suspend_drains s k :
  reachable s -> threads s !! k = Some Suspend_asleep ->
  exists i n s', (n <= 2)%nat /\
    exec (replicate n (Ev_thread i) ++ [Ev_thread k]) s = Some s' /\
    threads s' !! k = Some Suspend_final.
Proof.
  intros Hr Hk. destruct (wf_reachable _ Hr) as [H1 _ H4 H5 _].
  pose proof (count_pos asleep _ _ _ Hk eq_refl) as Ha.
  pose proof (count_pos suspending _ _ _ Hk eq_refl) as Hsu.
  rewrite (H4 Ha) in H1. destruct (owner_exists (threads s)) as (i & p & Hi & Ho).
  { rewrite H1. simpl. lia. }
  destruct (owner_releases s i p k (H5 Hsu) Hi Ho Hk) as (n & s' & Hn & He & Hrun & Hk').
  exists i, n, (at_pc k Suspend_final s'). split; [done|]. split.
  - rewrite exec_app, He. cbn. at_thread Hk'. by rewrite Hrun.
  - cbn. apply list_lookup_insert_eq. by eapply lookup_lt_Some.
Qed.

(** No accepted request is forgotten, and requests coalesce: while one is pending the queue
    is owned and not suspended, and the owner's releasing step, whichever it is, starts exactly
    one follow-up snapshot and clears the flag. *)
Theorem request_is_served s :
  reachable s -> pending (queue s) = true ->
  exists i p, threads s !! i = Some p /\ owns p = true /\
    (p = Run_head -> exists s', step (Ev_thread i) s = Some s' /\
       threads s' !! i = Some Run_action /\ pending (queue s') = false) /\
    (p = Warm_action -> exists s', step (Ev_thread i) s = Some s' /\
       threads s' !! length (threads s) = Some Run_head /\ running (queue s') = true).
Proof.
  intros Hr Hp. destruct (wf_reachable _ Hr) as [H1 H3 _ _ _].
  destruct (H3 Hp) as [Hrun Hsus]. rewrite Hrun in H1.
  destruct (owner_exists (threads s)) as (i & p & Hi & Ho). { rewrite H1. simpl. lia. }
  exists i, p. split; [done|]. split; [done|].
  destruct s as [[r pe su] l]. cbn in *. subst. split; intros ->; at_thread Hi.
  - eexists. split; [reflexivity|]. cbn. split; [|done].
    apply list_lookup_insert_eq. by eapply lookup_lt_Some.
  - eexists. split; [reflexivity|]. cbn. split; [|done].
    rewrite list_lookup_fmap, lookup_app_r by by rewrite length_insert.
    by rewrite length_insert, Nat.sub_diag.
Qed.

(** The final snapshot is not exclusive against warm ones: [WarmSnapshot] does not look at
    [suspended] and [Suspend] leaves [running] false while it takes the final snapshot, so a
    warm snapshot, or a second suspend's final, can run at the same time on the same mount. *)
Theorem warm_overlaps_final :
  (exists s, reachable s /\ threads s = [Suspend_final; Warm_action]) /\
  (exists s, reachable s /\ threads s = [Suspend_final; Suspend_final]).
Proof.
  split.
  - exists {| queue := {| running := true; pending := false; suspended := true |};
              threads := [Suspend_final; Warm_action] |}. split; [|done].
    by apply (exec_reachable [Ev_suspend; Ev_thread 0; Ev_warm; Ev_thread 1] init); [constructor|].
  - exists {| queue := {| running := false; pending := false; suspended := true |};
              threads := [Suspend_final; Suspend_final] |}. split; [|done].
    by apply (exec_reachable [Ev_suspend; Ev_thread 0; Ev_suspend; Ev_thread 1] init); [constructor|].
Qed.

(** ** Witnesses *)

(** A snapshot in flight, a coalesced request, a suspend asleep on the barrier. *)
Definition busy : system :=
  {| queue := {| running := true; pending := true; suspended := false |};
     threads := [Run_action] |}.
Definition draining : system :=
  {| queue := {| running := true; pending := false; suspended := true |};
     threads := [Run_action; Suspend_asleep] |}.
Lemma busy_reachable : reachable busy.
Proof.
  by apply (exec_reachable [Ev_request; Ev_thread 0; Ev_request] init); [constructor|].
Qed.
Lemma draining_reachable : reachable draining.
Proof.
  by apply (exec_reachable [Ev_suspend; Ev_thread 1] busy); [apply busy_reachable|].
Qed.

Lemma snapshots_do_not_overlap_witness :
  ~ (threads draining !! 1%nat = Some Run_action \/ threads draining !! 1%nat = Some Warm_action) /\
  (Run_action = Run_action ->
   threads draining !! 1%nat <> Some Suspend_final /\ threads draining !! 1%nat <> Some Suspend_done).
Proof.
  apply (snapshots_do_not_overlap draining 0 1 Run_action).
  - apply draining_reachable.
  - reflexivity.
  - by left.
  - discriminate.
Defined.

Lemma suspend_drains_witness :
  exists i n s', (n <= 2)%nat /\
    exec (replicate n (Ev_thread i) ++ [Ev_thread 1]) draining = Some s' /\
    threads s' !! 1%nat = Some Suspend_final.
Proof. apply (suspend_drains draining 1); [apply draining_reachable|reflexivity]. Defined.

Lemma request_is_served_witness :
  exists i p, threads busy !! i = Some p /\ owns p = true /\
    (p = Run_head -> exists s', step (Ev_thread i) busy = Some s' /\
       threads s' !! i = Some Run_action /\ pending (queue s') = false) /\
    (p = Warm_action -> exists s', step (Ev_thread i) busy = Some s' /\
       threads s' !! length (threads busy) = Some Run_head /\ running (queue s') = true).
Proof. apply (request_is_served busy); [apply busy_reachable|reflexivity]. Defined.
