(* ===== verification/NodeSessions.v ===== *)
(** * A spawn's sessions on its node (src/internal/node/sessions.go)

    The registry of one spawn's live sessions: their ids, states and the pool of ACP ports.
    Every method holds the registry's mutex, so each is one function on its state.  The map
    holds pointers, but only [setState] writes through them, under the mutex: entries are
    values here. *)

From S2P Require Import Prelude GoLib.
Open Scope Z_scope.

Definition SessionZeroID : string := "0".
Definition acpPoolLo : Z := 32668.
Definition acpPoolHi : Z := 32767.

(** The generated enums of node.proto. *)
Inductive SessionTransport := TRANSPORT_UNSPECIFIED | TRANSPORT_ACP | TRANSPORT_MOSH.
Inductive SessionState :=
| STATE_UNSPECIFIED | STATE_STARTING | STATE_ACTIVE | STATE_CLOSING | STATE_CLOSED | STATE_ERROR.
#[export] Instance SessionState_eq_dec : EqDecision SessionState.
Proof. solve_decision. Defined.

Record sessionKey := { spawnID : string; sessionID : string }.

Record sessionEntry := {
  id : string; transport : SessionTransport; runnable : string; state : SessionState;
  endpoint : string; pinned : bool
}.
#[export] Instance eta_sessionEntry : Eta sessionEntry :=
  fun e => {| id := id e; transport := transport e; runnable := runnable e; state := state e;
              endpoint := endpoint e; pinned := pinned e |}.

(** [nextID] is a Go int: it would wrap only after 2^63 sessions, and is kept unbounded. *)
Record sessionRegistry := {
  registry_spawnID : string;
  sessions : gmap string sessionEntry;
  nextID : Z;
  ports : gmap Z string
}.
#[export] Instance eta_sessionRegistry : Eta sessionRegistry :=
  fun r => {| registry_spawnID := registry_spawnID r; sessions := sessions r;
              nextID := nextID r; ports := ports r |}.

Definition newSessionRegistry (spawnID : string) : sessionRegistry :=
  {| registry_spawnID := spawnID; sessions := ∅; nextID := 1; ports := ∅ |}.

(** [allocID]: the loop, with [n] more rounds allowed; it answers the id and the registry whose
    [nextID] it advanced.  One round more than there are sessions is enough. *)
Fixpoint allocID_loop (n : nat) (r : sessionRegistry) : option (string * sessionRegistry) :=
  match n with
  | O => None
  | S n =>
      let id := Itoa (nextID r) in
      match sessions r !! id with
      | None => Some (id, r)
      | Some _ => allocID_loop n (r <| nextID ::= Z.succ |>)
      end
  end.
Definition allocID (r : sessionRegistry) : option (string * sessionRegistry) :=
  allocID_loop (S (size (sessions r))) r.

Definition register (e : sessionEntry) (r : sessionRegistry) : sessionRegistry :=
  let r := r <| sessions ::= <[id e := e]> |> in
  match Atoi (id e) with
  | (n, true) => if nextID r <=? n then r <| nextID := n + 1 |> else r
  | (_, false) => r
  end.

Definition remove (id : string) (r : sessionRegistry) : sessionRegistry * bool :=
  match sessions r !! id with
  | None => (r, false)
  | Some _ => (r <| sessions ::= delete id |>, true)
  end.

(** The loop over the pool from [p], with [n] ports left. *)
Fixpoint allocPort_loop (n : nat) (p : Z) (owner : string) (r : sessionRegistry)
    : sessionRegistry * option Z :=
  match n with
  | O => (r, None)
  | S n =>
      match ports r !! p with
      | None => (r <| ports ::= <[p := owner]> |>, Some p)
      | Some _ => allocPort_loop n (p + 1) owner r
      end
  end.
(** [None] is [(0, false)]. *)
Definition allocPort (owner : string) (r : sessionRegistry) : sessionRegistry * option Z :=
  allocPort_loop (Z.to_nat (acpPoolHi - acpPoolLo + 1)) acpPoolLo owner r.

(** [r.ports[p]]: the empty string when absent. *)
Definition portOwner (p : Z) (r : sessionRegistry) : string := default "" (ports r !! p).

Definition freePort (p : Z) (owner : string) (r : sessionRegistry) : sessionRegistry :=
  if String.eqb (portOwner p r) owner then r <| ports ::= delete p |> else r.

Definition setState (id : string) (st : SessionState) (r : sessionRegistry)
    : sessionRegistry * bool :=
  match sessions r !! id with
  | None => (r, false)
  | Some e => (r <| sessions ::= <[id := e <| state := st |>]> |>, true)
  end.

Definition get (id : string) (r : sessionRegistry) : option sessionEntry := sessions r !! id.

Definition hasStarting (r : sessionRegistry) : bool :=
  existsb (fun '(_, e) => bool_decide (state e = STATE_STARTING)) (map_to_list (sessions r)).

(** [snapshot]'s comparison. *)
Definition snapshot_less (a b : sessionEntry) : bool :=
  if String.eqb (id a) SessionZeroID then true
  else if String.eqb (id b) SessionZeroID then false
  else fst (Atoi (id a)) <? fst (Atoi (id b)).

(** [sort.Slice(out, less)] on the entries [out] the map range gave, in whatever order: an
    insertion sort (package sort promises no more than a sorted permutation). *)
Fixpoint insert_entry (e : sessionEntry) (l : list sessionEntry) : list sessionEntry :=
  match l with
  | [] => [e]
  | x :: l' => if snapshot_less x e then x :: insert_entry e l' else e :: l
  end.
Definition sort_entries (out : list sessionEntry) : list sessionEntry := foldr insert_entry [] out.
Definition snapshot (r : sessionRegistry) : list sessionEntry :=
  sort_entries (map snd (map_to_list (sessions r))).

(** [agentcaps.ModeTmux] *)
Definition ModeTmux : string := "tmux".
Definition transportForMode (mode : string) : SessionTransport :=
  if String.eqb mode ModeTmux then TRANSPORT_MOSH else TRANSPORT_ACP.

(** * Laws of the session registry *)

(** ** Ids *)

Lemma allocID_loop_fresh n r s r' :
  allocID_loop n r = Some (s, r') ->
  sessions r' !! s = None /\ s = Itoa (nextID r') /\ nextID r <= nextID r' /\
  r' = r <| nextID := nextID r' |>.
Proof.
  revert r. induction n as [|n IH]; intros r Hr; [done|]. cbn in Hr.
  destruct (sessions r !! Itoa (nextID r)) eqn:Hs.
  - apply IH in Hr as (H1 & H2 & H3 & H4). cbn in H3, H4. split_and!; [done|done|lia|].
    rewrite H4. by destruct r.
  - injection Hr as <- <-. split_and!; [done|done|lia|by destruct r].
Qed.

(** The loop ends: the ids it tries are distinct, and only finitely many are taken. *)
Lemma allocID_total r : allocID r <> None.
Proof.
  unfold allocID. intros Hn.
  assert (forall n r, allocID_loop n r = None ->
    forall i, (i < n)%nat -> is_Some (sessions r !! Itoa (nextID r + Z.of_nat i))) as Htaken.
  { clear. intros n. induction n as [|n IH]; intros r Hr i Hi; [lia|]. cbn in Hr.
    destruct (sessions r !! Itoa (nextID r)) eqn:Hs; [|done].
    destruct i as [|i]; [rewrite Z.add_0_r; eauto|].
    specialize (IH _ Hr i ltac:(lia)). cbn in IH.
    by replace (nextID r + Z.of_nat (S i)) with (Z.succ (nextID r) + Z.of_nat i) by lia. }
  specialize (Htaken _ _ Hn).
  set (l := map (fun i => Itoa (nextID r + Z.of_nat i)) (seq 0 (S (size (sessions r))))).
  assert (NoDup l) as Hnd.
  { apply NoDup_fmap_2_strong; [|apply NoDup_seq]. intros i j _ _ Heq.
    apply (inj Itoa) in Heq. lia. }
  assert (list_to_set l ⊆ (dom (sessions r) : gset string)) as Hsub.
  { intros x Hx. apply elem_of_list_to_set, list_elem_of_fmap in Hx as (i & -> & Hi).
    apply elem_of_dom, Htaken. apply elem_of_seq in Hi. lia. }
  apply subseteq_size in Hsub. rewrite size_list_to_set, size_dom in Hsub by done.
  unfold l in Hsub. rewrite length_map, length_seq in Hsub. lia.
Qed.

Lemma allocID_next r :
  sessions r !! Itoa (nextID r) = None -> allocID r = Some (Itoa (nextID r), r).
Proof. intros Hs. unfold allocID. cbn. by rewrite Hs. Qed.

(** Registering the id just allocated moves the allocator past it. *)
Lemma register_next e r :
  id e = Itoa (nextID r) -> 0 <= nextID r < 2 ^ 63 ->
  register e r = r <| sessions ::= <[id e := e]> |> <| nextID := nextID r + 1 |>.
Proof.
  intros Hid Hn. unfold register. rewrite Hid, Atoi_Itoa by done. cbn.
  by rewrite Z.leb_refl.
Qed.

(** ** Ports *)

Lemma allocPort_loop_spec n p owner r :
  match allocPort_loop n p owner r with
  | (r', Some q) => p <= q < p + Z.of_nat n /\ ports r !! q = None /\
      (forall x, p <= x < q -> is_Some (ports r !! x)) /\ r' = r <| ports ::= <[q := owner]> |>
  | (r', None) => r' = r /\ forall x, p <= x < p + Z.of_nat n -> is_Some (ports r !! x)
  end.
Proof.
  revert p. induction n as [|n IH]; intros p; cbn [allocPort_loop].
  { split; [done|]. lia. }
  destruct (ports r !! p) eqn:Hp.
  - specialize (IH (p + 1)). destruct (allocPort_loop n (p + 1) owner r) as [r' [q|]].
    + destruct IH as (? & ? & Hx & ?). split_and!; try done; [lia..|].
      intros x Hx'. destruct (decide (x = p)) as [->|]; [eauto|]. apply Hx. lia.
    + destruct IH as [? Hx]. split; [done|]. intros x Hx'.
      destruct (decide (x = p)) as [->|]; [eauto|]. apply Hx. lia.
  - split_and!; try done; lia.
Qed.

(** [allocPort] takes the lowest free port of the pool, and fails only when none is free. *)
Lemma allocPort_spec owner r :
  match allocPort owner r with
  | (r', Some q) => acpPoolLo <= q <= acpPoolHi /\ ports r !! q = None /\
      (forall x, acpPoolLo <= x < q -> is_Some (ports r !! x)) /\
      r' = r <| ports ::= <[q := owner]> |>
  | (r', None) => r' = r /\ forall x, acpPoolLo <= x <= acpPoolHi -> is_Some (ports r !! x)
  end.
Proof.
  pose proof (allocPort_loop_spec (Z.to_nat (acpPoolHi - acpPoolLo + 1)) acpPoolLo owner r) as Hs.
  unfold allocPort. destruct (allocPort_loop _ _ _ _) as [r' [q|]];
    unfold acpPoolLo, acpPoolHi in *.
  - destruct Hs as (? & ? & ? & ?). split_and!; try done; lia.
  - destruct Hs as [? Hs]. split; [done|]. intros x Hx. apply Hs. lia.
Qed.

(** Freeing twice, or freeing a port another session has meanwhile been given, does nothing. *)
Lemma freePort_twice p owner r :
  owner <> "" -> freePort p owner (freePort p owner r) = freePort p owner r.
Proof.
  intros Ho. unfold freePort at 2 3. destruct (String.eqb_spec (portOwner p r) owner) as [He|He];
    unfold freePort.
  - assert (portOwner p (r <| ports ::= delete p |>) = "") as ->
      by (unfold portOwner; cbn; by rewrite lookup_delete_eq).
    by destruct (String.eqb_spec "" owner).
  - by destruct (String.eqb_spec (portOwner p r) owner).
Qed.
Lemma freePort_stale p owner owner' r :
  ports r !! p = Some owner' -> owner <> owner' -> freePort p owner r = r.
Proof.
  intros Hp Hne. unfold freePort, portOwner. rewrite Hp. cbn.
  by destruct (String.eqb_spec owner' owner).
Qed.

(** * Additional sessions on a node: create, launch, close, attach (src/internal/node/attach.go)

    The attacher's bookkeeping for one spawn: its session registry, the pumps and tmux relays
    registered for its sessions, the attaches waiting for a session that is still starting.
    [createSession] reserves and starts a launch goroutine; closes, suspends and the exit of an
    agent race with it.  Each section under [a.mu] (and each call of the registry, which has its
    own mutex) is one step, the goroutines are program counters between them.  What the
    container runtime answers to a launch, dial or start is chosen by the environment. *)

Definition moshTmuxName (sessionID : string) : string := "spawn-" +:+ sessionID.
Definition acpTmuxName (sessionID : string) : string := "acp-" +:+ sessionID.

(** A pump or a relay, by identity. *)
Definition resource := nat.

Record pendingClient := { clientID : string; cursor : Z }.

(** The registries are objects: a launch keeps the one it read although the spawn may have been
    reaped, so they live in a store and [a_sessions] and the goroutines refer to them. *)
Inductive pc :=
| Launch_start (e : sessionEntry)
| Launch_run (g : nat) (e : sessionEntry)
| Launch_ready (g : nat) (e : sessionEntry) (p : resource)
| Launch_undo (g : nat) (e : sessionEntry) (p : resource)
| Launch_bind (g : nat) (e : sessionEntry) (p : resource) (pend : list pendingClient)
| Launch_fail (g : nat) (e : sessionEntry)
| Free_port (g : nat) (e : sessionEntry)
| Close_found (g : nat) (e : sessionEntry)
| Close_reap (g : nat) (e : sessionEntry) (p : option resource)
| Stop_all (ps : list resource)
| Finished.

Record attacher := {
  a_sessions : option nat;
  registries : list sessionRegistry;
  pumps : gmap string resource;
  tmuxRelays : gmap string resource;
  pending : gmap string (list pendingClient);
  (** pumps and relays whose goroutines run *)
  alive : gset resource;
  (** the next fresh resource *)
  fresh_resource : resource;
  (** attaches handed to a pump or relay: session, resource, client *)
  bound : list (string * resource * string);
  threads : list pc
}.
#[export] Instance eta_attacher : Eta attacher :=
  fun a => {| a_sessions := a_sessions a; registries := registries a; pumps := pumps a;
              tmuxRelays := tmuxRelays a; pending := pending a; alive := alive a;
              fresh_resource := fresh_resource a; bound := bound a; threads := threads a |}.

(** ** The registry behind a reference *)

Definition reg_get (g : nat) (id : string) (a : attacher) : option sessionEntry :=
  match registries a !! g with Some r => get id r | None => None end.
Definition on_registry (g : nat) (f : sessionRegistry -> sessionRegistry) (a : attacher)
    : attacher := a <| registries ::= alter f g |>.
Definition reg_remove (g : nat) (id : string) : attacher -> attacher :=
  on_registry g (fun r => fst (remove id r)).

(** ** Sections under [a.mu] *)

(** [takePending]: the attaches, and the map without them. *)
Definition takePending (k : string) (a : attacher) : list pendingClient * attacher :=
  (default [] (pending a !! k), a <| pending ::= delete k |>).

Definition removePending (k : string) (client : string) (a : attacher) : attacher :=
  match pending a !! k with
  | None | Some [] => a
  | Some pend =>
      match filter (fun pc => clientID pc <> client) pend with
      | [] => a <| pending ::= delete k |>
      | out => a <| pending ::= <[k := out]> |>
      end
  end.

(** The resource map of a session's transport. *)
Definition is_acp (e : sessionEntry) : bool :=
  match transport e with TRANSPORT_ACP => true | _ => false end.
Definition put_resource (e : sessionEntry) (p : resource) (a : attacher) : attacher :=
  if is_acp e then a <| pumps ::= <[id e := p]> |> else a <| tmuxRelays ::= <[id e := p]> |>.

(** [createSession], all on the receive goroutine: the reservation and [go launchSession]. *)
Definition createSession (transport : SessionTransport) (runnable : string)
    (forkBarrierActive : bool) (a : attacher) : attacher :=
  match a_sessions a with
  | None => a
  | Some g =>
      if forkBarrierActive then a else
      match registries a !! g with
      | None => a
      | Some r =>
          match allocID r with
          | None => a (* not reached: the ids in use stay below nextID *)
          | Some (id, r) =>
              let e ep := {| id := id; transport := transport; runnable := runnable;
                             state := STATE_STARTING; endpoint := ep; pinned := false |} in
              let launch r e := a <| registries ::= <[g := register e r]> |>
                                  <| threads ::= (fun l => l ++ [Launch_start e]) |> in
              match transport with
              | TRANSPORT_ACP =>
                  match allocPort id r with
                  | (r, None) => on_registry g (fun _ => r) a
                  | (r, Some port) => launch r (e (Itoa port))
                  end
              | _ => launch r (e (moshTmuxName id))
              end
          end
      end
  end.

(** The liveness re-check of a launch whose pump or relay [p] is up: register it and take the
    waiting attaches, or find the session closed. *)
Definition launch_register (g : nat) (e : sessionEntry) (p : resource) (a : attacher)
    : attacher * pc :=
  match reg_get g (id e) a with
  | None => let '(_, a) := takePending (id e) a in (a, Launch_undo g e p)
  | Some _ =>
      let a := put_resource e p a in
      let '(pend, a) := takePending (id e) a in (a, Launch_bind g e p pend)
  end.

(** The pending attaches bound to the resource, in order. *)
Definition bind_all (k : string) (p : resource) (pend : list pendingClient) (a : attacher)
    : attacher :=
  a <| bound ::= (fun l => l ++ map (fun pc => (k, p, clientID pc)) pend) |>.

(** [failSession] under [a.mu]. *)
Definition fail_section (g : nat) (e : sessionEntry) (a : attacher) : attacher :=
  snd (takePending (id e) (reg_remove g (id e) a)).

(** [closeSession] under [a.mu]: the resource to stop, by the entry's transport. *)
Definition close_section (g : nat) (e : sessionEntry) (a : attacher)
    : attacher * option resource :=
  let a := snd (takePending (id e) (reg_remove g (id e) a)) in
  let p := if is_acp e then pumps a !! id e else tmuxRelays a !! id e in
  (a <| pumps ::= delete (id e) |> <| tmuxRelays ::= delete (id e) |>, p).

(** [reapSessions], which a stop or a suspend runs. *)
Definition reapSessions (a : attacher) : attacher * list resource :=
  (a <| pumps := ∅ |> <| tmuxRelays := ∅ |> <| pending := ∅ |> <| a_sessions := None |>,
   map snd (map_to_list (pumps a)) ++ map snd (map_to_list (tmuxRelays a))).

(** [attachClient]: the answer, the new state. *)
Definition attachClient (k : string) (pc : pendingClient) (a : attacher) : attacher * bool :=
  match tmuxRelays a !! k, pumps a !! k with
  | None, None =>
      match a_sessions a with
      | Some g =>
          match reg_get g k a with
          | Some _ => (a <| pending ::= <[k := default [] (pending a !! k) ++ [pc]]> |>, true)
          | None => (a, false)
          end
      | None => (a, false)
      end
  | Some p, _ | None, Some p => (bind_all k p [pc] a, true)
  end.

(** [exitFn] of an additional session's pump [p] (session 0's reclaims the whole spawn): its
    agent is gone. *)
Definition pump_exit (k : string) (p : resource) (a : attacher) : attacher :=
  let a := a <| alive ::= (fun s => s ∖ {[p]}) |> in
  if decide (pumps a !! k = Some p) then a <| pumps ::= delete k |> else a.

Definition stop_resource (p : resource) (a : attacher) : attacher :=
  a <| alive ::= (fun s => s ∖ {[p]}) |>.

(** [failSession] and [closeSession] outside the lock; the endpoint of an ACP session is the port
    [createSession] reserved. *)
Definition free_port (g : nat) (e : sessionEntry) (a : attacher) : attacher :=
  if is_acp e then
    match Atoi (endpoint e) with
    | (p, true) => on_registry g (freePort p (id e)) a
    | (_, false) => a
    end
  else a.

(** ** The goroutines *)

Definition at_pc (i : nat) (p : pc) (a : attacher) : attacher := a <| threads ::= <[i := p]> |>.

(** A step of goroutine [i].  [ok] is what the environment answers in a launch: that the pump or
    relay came up. *)
Definition step_thread (i : nat) (ok : bool) (a : attacher) : option attacher :=
  match threads a !! i with
  | Some (Launch_start e) =>
      match a_sessions a with
      | None => Some (at_pc i Finished a)
      | Some g =>
          match transport e with
          | TRANSPORT_UNSPECIFIED => Some (at_pc i Finished a)
          | _ => Some (at_pc i (Launch_run g e) a)
          end
      end
  | Some (Launch_run g e) =>
      if ok then
        let p := fresh_resource a in
        Some (at_pc i (Launch_ready g e p)
          (a <| alive ::= (fun s => {[p]} ∪ s) |> <| fresh_resource ::= S |>))
      else Some (at_pc i (Launch_fail g e) a)
  | Some (Launch_ready g e p) =>
      let '(a, next) := launch_register g e p a in Some (at_pc i next a)
  | Some (Launch_undo g e p) => Some (at_pc i (Free_port g e) (stop_resource p a))
  | Some (Launch_bind g e p pend) =>
      Some (at_pc i Finished
        (on_registry g (fun r => fst (setState (id e) STATE_ACTIVE r)) (bind_all (id e) p pend a)))
  | Some (Launch_fail g e) => Some (at_pc i (Free_port g e) (fail_section g e a))
  | Some (Free_port g e) => Some (at_pc i Finished (free_port g e a))
  | Some (Close_found g e) =>
      let '(a, p) := close_section g e a in Some (at_pc i (Close_reap g e p) a)
  | Some (Close_reap g e p) =>
      Some (at_pc i (Free_port g e) (match p with Some p => stop_resource p a | None => a end))
  | Some (Stop_all ps) => Some (at_pc i Finished (foldr stop_resource a ps))
  | Some Finished | None => None
  end.

(** [closeSession] up to its section: the lookup and the pinned check. *)
Definition closeSession (k : string) (a : attacher) : attacher :=
  match a_sessions a with
  | None => a
  | Some g =>
      match reg_get g k a with
      | None => a
      | Some e => if pinned e then a else a <| threads ::= (fun l => l ++ [Close_found g e]) |>
      end
  end.

(** The pump [p] of session [k] is up and not yet registered. *)
Definition starting_pump (k : string) (p : resource) (t : pc) : bool :=
  match t with
  | Launch_ready _ e p' => String.eqb (id e) k && is_acp e && (p =? p')%nat
  | _ => false
  end.

(** What can happen next: a message of the control plane, a goroutine's step, the exit of an
    agent, a reap by a stop or a suspend. *)
Inductive event :=
| Ev_create (transport : SessionTransport) (runnable : string) (forkBarrierActive : bool)
| Ev_close (k : string)
| Ev_attach (k : string) (pc : pendingClient)
| Ev_detach (k : string) (client : string)
| Ev_thread (i : nat) (ok : bool)
| Ev_pump_exit (k : string) (p : resource)
| Ev_reap.

Definition step (ev : event) (a : attacher) : option attacher :=
  match ev with
  | Ev_create t r b => Some (createSession t r b a)
  | Ev_close k => Some (closeSession k a)
  | Ev_attach k pc => Some (fst (attachClient k pc a))
  | Ev_detach k c => Some (removePending k c a)
  | Ev_thread i ok => step_thread i ok a
  | Ev_pump_exit k p =>
      if bool_decide (k <> SessionZeroID) && bool_decide (p ∈ alive a)
         && (bool_decide (pumps a !! k = Some p) || existsb (starting_pump k p) (threads a))
      then Some (pump_exit k p a) else None
  | Ev_reap => let '(a, ps) := reapSessions a in
               Some (a <| threads ::= (fun l => l ++ [Stop_all ps]) |>)
  end.

(** The spawn just started: its registry holds the pinned session 0, served by pump 0. *)
Definition zero_entry (runnable mode : string) : sessionEntry :=
  {| id := SessionZeroID; transport := transportForMode mode; runnable := runnable;
     state := STATE_ACTIVE; endpoint := if String.eqb mode ModeTmux then "spawn" else "7000";
     pinned := true |}.
Definition init (spawn runnable mode : string) : attacher :=
  put_resource (zero_entry runnable mode) 0%nat
  {| a_sessions := Some 0%nat;
     registries := [register (zero_entry runnable mode) (newSessionRegistry spawn)];
     pumps := ∅; tmuxRelays := ∅; pending := ∅; alive := {[0%nat]}; fresh_resource := 1%nat;
     bound := []; threads := [] |}.
