(* ===== verification/NodeSessionsInv.v ===== *)
(** * The invariant of a spawn's additional sessions

    As long as the spawn is not reaped, whatever the interleaving of creates, closes, attaches,
    launches and agents' exits.  [info] remembers the transport and endpoint every id was
    created with: ids are never reused. *)

From S2P Require Import Prelude GoLib NodeSessions.
Open Scope Z_scope.

Definition info_map := string -> bool * string.

(** ** What a goroutine knows *)

(** An entry of a created session. *)
Definition known (info : info_map) (r : sessionRegistry) (e : sessionEntry) : Prop :=
  (exists n, id e = Itoa n /\ 1 <= n < nextID r) /\ info (id e) = (is_acp e, endpoint e).
Definition gone (r : sessionRegistry) (e : sessionEntry) : Prop := sessions r !! id e = None.

(** A launch before its second section: nothing is registered for its session. *)
Definition unregistered (a : attacher) (e : sessionEntry) : Prop :=
  pumps a !! id e = None /\ tmuxRelays a !! id e = None.

Definition launching (t : pc) : option sessionEntry :=
  match t with
  | Launch_start e | Launch_run _ e | Launch_ready _ e _ | Launch_fail _ e => Some e
  | _ => None
  end.
(** The resource a goroutine must register or stop. *)
Definition holds (t : pc) : option resource :=
  match t with
  | Launch_ready _ _ p | Launch_undo _ _ p | Close_reap _ _ (Some p) => Some p
  | _ => None
  end.
(** The closed session whose port a goroutine will free. *)
Definition will_free (t : pc) : option sessionEntry :=
  match t with
  | Launch_undo _ e _ | Free_port _ e | Close_reap _ e _ => Some e
  | _ => None
  end.

Definition thread_entry (t : pc) : option (nat * sessionEntry) :=
  match t with
  | Launch_start e => Some (0%nat, e)
  | Launch_run g e | Launch_ready g e _ | Launch_undo g e _ | Launch_bind g e _ _
  | Launch_fail g e | Free_port g e | Close_found g e | Close_reap g e _ => Some (g, e)
  | Stop_all _ | Finished => None
  end.

Record thread_ok (info : info_map) (a : attacher) (r : sessionRegistry) (t : pc) : Prop := {
  t_known g e : thread_entry t = Some (g, e) -> g = 0%nat /\ known info r e;
  t_launching e : launching t = Some e -> unregistered a e;
  t_gone e : will_free t = Some e -> gone r e;
  t_holds p : holds t = Some p -> (p < fresh_resource a)%nat;
  t_not_stop ps : t <> Stop_all ps
}.

(** ** The invariant *)

(** Who has a resource: a session's registered slot or a goroutine. *)
Inductive place := P_pump (k : string) | P_relay (k : string) | P_thread (i : nat).
Definition held (a : attacher) (p : resource) (h : place) : Prop :=
  match h with
  | P_pump k => pumps a !! k = Some p
  | P_relay k => tmuxRelays a !! k = Some p
  | P_thread i => exists t, threads a !! i = Some t /\ holds t = Some p
  end.

Record inv (info : info_map) (a : attacher) (r : sessionRegistry) : Prop := {
  i_sessions : a_sessions a = Some 0%nat;
  i_registry : registries a = [r];
  i_next : 1 <= nextID r;
  i_live k e : sessions r !! k = Some e ->
    id e = k /\ info k = (is_acp e, endpoint e) /\
    ((k = SessionZeroID /\ pinned e = true) \/
     (pinned e = false /\ exists n, k = Itoa n /\ 1 <= n < nextID r));
  i_pump k p : pumps a !! k = Some p ->
    is_Some (sessions r !! k) /\ fst (info k) = true /\ (p < fresh_resource a)%nat;
  i_relay k p : tmuxRelays a !! k = Some p ->
    is_Some (sessions r !! k) /\ fst (info k) = false /\ (p < fresh_resource a)%nat;
  i_threads i t : threads a !! i = Some t -> thread_ok info a r t;
  i_one_launch i j t t' e e' : threads a !! i = Some t -> threads a !! j = Some t' ->
    launching t = Some e -> launching t' = Some e' -> id e = id e' -> i = j;
  i_port q o : ports r !! q = Some o ->
    o <> SessionZeroID /\ fst (info o) = true /\ Atoi (snd (info o)) = (q, true) /\
    (is_Some (sessions r !! o) \/
     exists i t e, threads a !! i = Some t /\ will_free t = Some e /\ id e = o);
  i_owned k e : sessions r !! k = Some e -> k <> SessionZeroID -> is_acp e = true ->
    exists q, Atoi (endpoint e) = (q, true) /\ ports r !! q = Some k;
  i_alive p : p ∈ alive a -> (p < fresh_resource a)%nat /\ exists h, held a p h;
  i_exclusive p h h' : held a p h -> held a p h' -> h = h'
}.

(** ** Moving a goroutine *)

Lemma at_pc_cases i t' (a : attacher) j t :
  threads (at_pc i t' a) !! j = Some t ->
  (j = i /\ t = t') \/ (j <> i /\ threads a !! j = Some t).
Proof.
  cbn. intros Hj. destruct (decide (j = i)) as [->|Hne].
  - left. pose proof (lookup_lt_Some _ _ _ Hj) as Hl. rewrite length_insert in Hl.
    rewrite list_lookup_insert_eq in Hj by done. by simplify_eq.
  - right. by rewrite list_lookup_insert_ne in Hj.
Qed.

Lemma at_pc_self i t t' (a : attacher) :
  threads a !! i = Some t -> threads (at_pc i t' a) !! i = Some t'.
Proof. intros Hi. cbn. apply list_lookup_insert_eq. by eapply lookup_lt_Some. Qed.

Lemma at_pc_other i j t t' (a : attacher) :
  i <> j -> threads a !! j = Some t -> threads (at_pc i t' a) !! j = Some t.
Proof. intros Hne Hj. cbn. by rewrite list_lookup_insert_ne. Qed.

(** A goroutine that gains no resource, loses none that is alive, starts no launch and keeps
    what it will free keeps the invariant. *)
Lemma inv_move info a r i t t' :
  inv info a r -> threads a !! i = Some t ->
  launching t' = None \/ launching t' = launching t ->
  holds t' = holds t \/ (holds t' = None /\ forall p, holds t = Some p -> p ∉ alive a) ->
  (forall e, will_free t = Some e -> will_free t' = Some e) ->
  thread_ok info a r t' -> inv info (at_pc i t' a) r.
Proof.
  intros [] Hi Hl Hh Hf Hok.
  assert (forall p h, held (at_pc i t' a) p h -> held a p h) as Hheld.
  { intros p [k|k|j]; [done|done|]. intros (u & Hj & Hu).
    apply at_pc_cases in Hj as [[-> ->]|[Hne Hj]]; [exists t|by exists u].
    split; [done|]. destruct Hh as [Hh|[Hh _]]; congruence. }
  assert (forall p h, p ∈ alive a -> held a p h -> held (at_pc i t' a) p h) as Hheld'.
  { intros p [k|k|j] Hp; [done|done|]. intros (u & Hj & Hu). destruct (decide (j = i)) as [->|Hne].
    - exists t'. split; [by eapply at_pc_self|]. simplify_eq.
      destruct Hh as [Hh|[_ Hh]]; [congruence|]. by apply Hh in Hu.
    - exists u. split; [by apply at_pc_other|done]. }
  split; try done.
  - intros j u Hj. apply at_pc_cases in Hj as [[-> ->]|[Hne Hj]]; [by destruct Hok; split|].
    by destruct (i_threads0 j u Hj); split.
  - intros j1 j2 u1 u2 e1 e2 H1 H2 L1 L2 He.
    apply at_pc_cases in H1 as [[-> ->]|[Hn1 H1]], H2 as [[-> ->]|[Hn2 H2]]; [done| | |by eapply i_one_launch0].
    + destruct Hl as [Hl|Hl]; [congruence|]. rewrite Hl in L1. by eapply i_one_launch0.
    + destruct Hl as [Hl|Hl]; [congruence|]. rewrite Hl in L2. by eapply i_one_launch0.
  - intros q o (Ho & Hi1 & Hi2 & [Hs|(j & u & e & Hj & Hu & He)])%i_port0; [by eauto|].
    split_and!; try done. right. destruct (decide (j = i)) as [->|Hne].
    + simplify_eq. exists i, t', e. split; [by eapply at_pc_self|]. auto.
    + exists j, u, e. split; [by apply at_pc_other|done].
  - intros p Hp. pose proof (i_alive0 p Hp) as (? & h & ?). eauto.
  - intros p h h' H1%Hheld H2%Hheld. by eapply i_exclusive0.
Qed.

(** The parts of the state the invariant does not look at. *)
Lemma inv_ext info a a' r :
  inv info a r -> a_sessions a' = a_sessions a -> registries a' = registries a ->
  pumps a' = pumps a -> tmuxRelays a' = tmuxRelays a -> alive a' = alive a ->
  fresh_resource a' = fresh_resource a -> threads a' = threads a -> inv info a' r.
Proof.
  intros Hinv E1 E2 E3 E4 E5 E6 E7. destruct a, a'. cbn in *. subst.
  destruct Hinv as [h1 h2 h3 h4 h5 h6 h7 h8 h9 h10 h11 h12]. split; try done.
  intros i t Hi. destruct (h7 i t Hi). by split.
Qed.

Lemma thread_ok_mono info a a' r r' t :
  thread_ok info a r t -> nextID r <= nextID r' ->
  (forall e, launching t = Some e -> unregistered a e -> unregistered a' e) ->
  (forall e, will_free t = Some e -> gone r e -> gone r' e) ->
  (fresh_resource a <= fresh_resource a')%nat -> thread_ok info a' r' t.
Proof.
  intros [Hk Hl Hg Hh Hs] Hn Hl' Hg' Hf. split; auto.
  - intros g e Hge. destruct (Hk g e Hge) as (? & (n & ? & ?) & ?). split; [done|].
    split; [exists n; split; [done|lia]|done].
  - intros p Hp. specialize (Hh p Hp). lia.
Qed.

(** The same session store, up to what the invariant reads. *)
Lemma held_at_pc a a' i t' p h :
  threads a' = threads (at_pc i t' a) -> pumps a' = pumps a -> tmuxRelays a' = tmuxRelays a ->
  held a' p h ->
  (h = P_thread i /\ holds t' = Some p) \/ (h <> P_thread i /\ held a p h).
Proof.
  intros Ht Hp Hr. destruct h as [k|k|j]; cbn; rewrite ?Ht, ?Hp, ?Hr; [by right|by right|].
  intros (u & Hj & Hu). apply at_pc_cases in Hj as [[-> ->]|[Hne Hj]]; [by left|].
  right. split; [congruence|]. eauto.
Qed.

(** ** Launches *)

(** The pump or relay of a launch is up. *)
Lemma inv_up info a r i g e :
  inv info a r -> threads a !! i = Some (Launch_run g e) ->
  inv info (at_pc i (Launch_ready g e (fresh_resource a))
    (a <| alive ::= (fun s => {[fresh_resource a]} ∪ s) |> <| fresh_resource ::= S |>)) r.
Proof.
  intros [] Hi. set (p := fresh_resource a). set (a' := at_pc _ _ _).
  assert (forall q h, held a' q h -> (h = P_thread i /\ q = p) \/ (h <> P_thread i /\ held a q h))
    as Hheld.
  { intros q h [[-> [= <-]]|Hh]%(held_at_pc a a' i (Launch_ready g e p)); auto. }
  assert (forall q h, held a q h -> (q < p)%nat) as Hlt.
  { intros q [k|k|j] Hh; [by apply i_pump0 in Hh as (_ & _ & ?)|by apply i_relay0 in Hh as (_ & _ & ?)|].
    destruct Hh as (u & Hj & Hu). by apply i_threads0 in Hj as [_ _ _ Hh _]; apply Hh. }
  split; try done.
  - intros k q (Hs & Hf & Hq)%i_pump0. split_and!; try done. cbn. lia.
  - intros k q (Hs & Hf & Hq)%i_relay0. split_and!; try done. cbn. lia.
  - intros j u Hj. apply at_pc_cases in Hj as [[-> ->]|[Hne Hj]].
    + destruct (i_threads0 _ _ Hi) as [Hk Hl _ _ _]. split; try done.
      intros q [= <-]. cbn. lia.
    + eapply thread_ok_mono; [by apply (i_threads0 j)|done|done|done|cbn; lia].
  - intros j1 j2 u1 u2 e1 e2 H1 H2 L1 L2 He.
    apply at_pc_cases in H1 as [[-> ->]|[Hn1 H1]], H2 as [[-> ->]|[Hn2 H2]]; [done|..].
    + by eapply (i_one_launch0 i j2 _ u2 e1 e2).
    + by eapply (i_one_launch0 j1 i u1 _ e1 e2).
    + by eapply i_one_launch0.
  - intros q o (Ho & Hi1 & Hi2 & [Hs|(j & u & f & Hj & Hu & He)])%i_port0; [by eauto|].
    split_and!; try done. right. exists j, u, f. split; [|done].
    apply at_pc_other; [|done]. intros ->. simplify_eq.
  - intros q Hq. cbn in Hq. apply elem_of_union in Hq as [->%elem_of_singleton|Hq].
    + split; [cbn; lia|]. exists (P_thread i), (Launch_ready g e p). split; [|done].
      by apply (at_pc_self i (Launch_run g e)).
    + apply i_alive0 in Hq as (Hlq & h & Hh). split; [cbn; lia|]. exists h.
      destruct h as [k|k|j]; [done|done|]. destruct Hh as (u & Hj & Hu).
      exists u. split; [|done]. apply at_pc_other; [|done]. intros ->. by simplify_eq.
  - intros q h h' [[-> ->]|[Hn Hh]]%Hheld [[-> Hq]|[Hn' Hh']]%Hheld; [done| | |by eapply i_exclusive0].
    + apply Hlt in Hh'. lia.
    + subst q. apply Hlt in Hh. lia.
Qed.

Lemma is_acp_kind info r e k :
  known info r e -> id e = k -> fst (info k) = is_acp e.
Proof. intros [_ Hi] <-. by rewrite Hi. Qed.

(** A launch registers its pump or relay: the session is live. *)
Lemma inv_register info a r i g e p pend :
  inv info a r -> threads a !! i = Some (Launch_ready g e p) ->
  is_Some (sessions r !! id e) ->
  inv info (at_pc i (Launch_bind g e p pend) (put_resource e p a)) r.
Proof.
  intros Hinv Hi Hlive. pose proof Hinv as []. set (a' := at_pc _ _ _).
  destruct (i_threads0 _ _ Hi) as [Hk Hl _ Hh _].
  destruct (Hk _ _ eq_refl) as [-> Hkn]. destruct (Hl _ eq_refl) as [Hnp Hnr].
  specialize (Hh _ eq_refl). pose proof (is_acp_kind _ _ _ _ Hkn eq_refl) as Hkind.
  assert (forall k q, pumps a' !! k = Some q ->
    (k = id e /\ q = p /\ is_acp e = true) \/ pumps a !! k = Some q) as Hpump.
  { intros k q. unfold a', put_resource. destruct (is_acp e); cbn; [|by right].
    rewrite lookup_insert_Some. naive_solver. }
  assert (forall k q, tmuxRelays a' !! k = Some q ->
    (k = id e /\ q = p /\ is_acp e = false) \/ tmuxRelays a !! k = Some q) as Hrelay.
  { intros k q. unfold a', put_resource. destruct (is_acp e); cbn; [by right|].
    rewrite lookup_insert_Some. naive_solver. }
  assert (forall k q, pumps a !! k = Some q -> pumps a' !! k = Some q) as Hpump'.
  { intros k q Hq. unfold a', put_resource. destruct (is_acp e); cbn; [|done].
    rewrite lookup_insert_ne by congruence. done. }
  assert (forall k q, tmuxRelays a !! k = Some q -> tmuxRelays a' !! k = Some q) as Hrelay'.
  { intros k q Hq. unfold a', put_resource. destruct (is_acp e); cbn; [done|].
    rewrite lookup_insert_ne by congruence. done. }
  assert (threads a' = <[i := Launch_bind 0 e p pend]> (threads a)) as Hth.
  { unfold a', put_resource. by destruct (is_acp e). }
  assert (forall j u, threads a' !! j = Some u ->
    (j = i /\ u = Launch_bind 0 e p pend) \/ (j <> i /\ threads a !! j = Some u)) as Hcases.
  { intros j u Hj. apply (at_pc_cases i _ a). cbn. by rewrite <- Hth. }
  assert (fresh_resource a' = fresh_resource a) as Hfr
    by (unfold a', put_resource; by destruct (is_acp e)).
  assert (forall j u, j <> i -> threads a !! j = Some u -> threads a' !! j = Some u) as Hother.
  { intros j u Hne Hj. rewrite Hth. by rewrite list_lookup_insert_ne. }
  assert (alive a' = alive a) as Hal by (unfold a', put_resource; by destruct (is_acp e)).
  assert (forall q h, held a' q h ->
    (q = p /\ h = (if is_acp e then P_pump else P_relay) (id e)) \/
    (h <> P_thread i /\ held a q h)) as Hheld.
  { intros q [k|k|j] Hq; cbn in Hq.
    - apply Hpump in Hq as [(-> & -> & ->)|Hq]; [by left|by right].
    - apply Hrelay in Hq as [(-> & -> & ->)|Hq]; [by left|by right].
    - destruct Hq as (u & Hj & Hu). apply Hcases in Hj as [[-> ->]|[Hne Hj]]; [done|].
      right. split; [congruence|]. by exists u. }
  assert (held a p (P_thread i)) as Hown by (by exists (Launch_ready 0 e p)).
  split; try (unfold a', put_resource; by destruct (is_acp e)); try done.
  - intros k q [(-> & -> & He)|Hq]%Hpump; rewrite Hfr; [by rewrite Hkind|by apply i_pump0].
  - intros k q [(-> & -> & He)|Hq]%Hrelay; rewrite Hfr; [by rewrite Hkind|by apply i_relay0].
  - intros j u [[-> ->]|[Hne Hj]]%Hcases.
    + by split.
    + eapply thread_ok_mono; [by apply (i_threads0 j)|done| |done|by rewrite Hfr].
      intros e' Hu [Hp' Hr']. assert (id e <> id e') as Hid.
      { intros Heq. apply Hne. by eapply (i_one_launch0 j i u _ e' e). }
      unfold a', put_resource, unregistered. destruct (is_acp e); cbn;
        by rewrite ?lookup_insert_ne by done.
  - intros j1 j2 u1 u2 e1 e2 [[-> ->]|[Hn1 H1]]%Hcases [[-> ->]|[Hn2 H2]]%Hcases; try done.
    by eapply i_one_launch0.
  - intros q o (Ho & Hi1 & Hi2 & [Hs|(j & u & f & Hj & Hu & He)])%i_port0; [by eauto|].
    split_and!; try done. right. exists j, u, f. split; [|done]. apply Hother; [|done].
    intros ->. by simplify_eq.
  - rewrite Hal, Hfr. intros q (Hq & h & Hh')%i_alive0. split; [done|].
    destruct h as [k|k|j]; [exists (P_pump k); by apply Hpump'|exists (P_relay k); by apply Hrelay'|].
    destruct Hh' as (u & Hj & Hu). destruct (decide (j = i)) as [->|Hne].
    + simplify_eq. cbn in Hu. simplify_eq. exists ((if is_acp e then P_pump else P_relay) (id e)).
      unfold a', put_resource. destruct (is_acp e); cbn; apply lookup_insert_eq.
    + exists (P_thread j), u. split; [by apply Hother|done].
  - intros q h h' [[-> ->]|[Hn Hq]]%Hheld [[Hq' ->]|[Hn' Hq']]%Hheld; [done| | |by eapply i_exclusive0].
    + exfalso. apply Hn'. by eapply i_exclusive0.
    + subst q. exfalso. apply Hn. by eapply i_exclusive0.
Qed.

(** ** Resources that stop *)

Lemma inv_shrink info a r X : inv info a r -> inv info (a <| alive ::= (fun s => s ∖ X) |>) r.
Proof.
  intros []. split; try done.
  - intros i t Hi. by destruct (i_threads0 i t Hi); split.
  - intros p Hp. cbn in Hp. apply elem_of_difference in Hp as [Hp _]. by apply i_alive0.
Qed.

(** The exit function of a dead pump takes its registration away. *)
Lemma inv_drop_pump info a r k p :
  inv info a r -> pumps a !! k = Some p -> p ∉ alive a ->
  inv info (a <| pumps ::= delete k |>) r.
Proof.
  intros [] Hp Hdead.
  assert (forall k' q, pumps (a <| pumps ::= delete k |>) !! k' = Some q -> pumps a !! k' = Some q)
    as Hsub by (intros k' q; cbn; rewrite lookup_delete_Some; tauto).
  assert (forall q h, held (a <| pumps ::= delete k |>) q h -> held a q h) as Hheld.
  { intros q [k'|k'|j]; [apply Hsub|done|done]. }
  split; try done.
  - intros k' q Hq%Hsub. by apply i_pump0.
  - intros j t Hj. eapply thread_ok_mono; [by apply (i_threads0 j)|done| |done|done].
    intros e _ [He ?]. split; [|done]. cbn. rewrite lookup_delete_None. by right.
  - intros q Hq. pose proof (i_alive0 q Hq) as (Hl & [k'|k'|j] & Hh); split; try done;
      [|by exists (P_relay k')|by exists (P_thread j)].
    exists (P_pump k'). cbn in *. rewrite lookup_delete_ne; [done|]. intros <-. by simplify_eq.
  - intros q h h' H1%Hheld H2%Hheld. by eapply i_exclusive0.
Qed.

(** ** Changes of the registry *)

Lemma on_registry_inv info a r f :
  inv info a r -> registries (on_registry 0 f a) = [f r].
Proof. intros []. cbn. by rewrite i_registry0. Qed.

Lemma reg_get_inv info a r k : inv info a r -> reg_get 0 k a = sessions r !! k.
Proof. intros []. unfold reg_get. by rewrite i_registry0. Qed.

(** [setState] keeps ids, transports and endpoints. *)
Lemma inv_setState info a r k st :
  inv info a r -> exists r', inv info (on_registry 0 (fun r => fst (setState k st r)) a) r'.
Proof.
  intros Hinv. pose proof (on_registry_inv _ _ _ (fun r => fst (setState k st r)) Hinv) as Hreg.
  destruct Hinv as []. unfold setState in *. destruct (sessions r !! k) as [e|] eqn:Hk.
  2: { exists r. cbn in Hreg. try rewrite Hk in Hreg. split; try done.
       intros i t Hi. by destruct (i_threads0 i t Hi); split. }
  try rewrite Hk in Hreg. cbn [fst] in Hreg. eexists. split; try done; cbn [sessions nextID ports set_field].
  - intros k' e'. rewrite lookup_insert_Some. intros [[<- <-]|[_ Hl]]; [|by apply i_live0].
    exact (i_live0 k e Hk).
  - intros k' p (Hs & ?)%i_pump0. split; [|done]. rewrite lookup_insert_is_Some'. tauto.
  - intros k' p (Hs & ?)%i_relay0. split; [|done]. rewrite lookup_insert_is_Some'. tauto.
  - intros i t Hi. eapply thread_ok_mono; [by apply (i_threads0 i)|done|done| |done].
    intros e' _ Hg. unfold gone in *. cbn. rewrite lookup_insert_ne; [done|congruence].
  - intros q o (? & ? & ? & Hs)%i_port0. split_and!; try done. rewrite lookup_insert_is_Some'. tauto.
  - intros k' e'. rewrite lookup_insert_Some. intros [[<- <-]|[_ Hl]] Hz Ha; [|by eapply i_owned0].
    exact (i_owned0 k e Hk Hz Ha).
Qed.

(** A goroutine's section that removes its session from the registry and takes over what was
    registered for it: the failure of a launch, or a close. *)
Lemma inv_remove info a r i t t' e :
  inv info a r -> threads a !! i = Some t ->
  known info r e -> holds t = None -> will_free t = None -> launching t' = None ->
  thread_entry t' = Some (0%nat, e) -> will_free t' = Some e -> (forall ps, t' <> Stop_all ps) ->
  holds t' = (if is_acp e then pumps a !! id e else tmuxRelays a !! id e) ->
  exists r', inv info (at_pc i t' (reg_remove 0 (id e) a
    <| pumps ::= delete (id e) |> <| tmuxRelays ::= delete (id e) |>)) r' /\
    nextID r' = nextID r.
Proof.
  intros Hinv Hi Hkn Hh Hf Hl Hte Hf' Hns Hh'.
  pose proof (on_registry_inv _ _ _ (fun r => fst (remove (id e) r)) Hinv) as Hreg.
  pose proof Hinv as []. pose proof Hkn as [(n & Hn & Hn') Hinfo].
  set (r' := fst (remove (id e) r)) in *. exists r'.
  set (a' := at_pc _ _ _).
  assert (sessions r' = delete (id e) (sessions r)) as Hsess.
  { unfold r', remove. destruct (sessions r !! id e) eqn:He; cbn; [done|].
    by rewrite delete_id. }
  assert (ports r' = ports r /\ nextID r' = nextID r) as [Hports Hnext].
  { unfold r', remove. by destruct (sessions r !! id e). }
  split; [|done].
  assert (forall k x, sessions r' !! k = Some x -> k <> id e /\ sessions r !! k = Some x) as Hsub.
  { intros k x. rewrite Hsess, lookup_delete_Some. intros [? ?]. split; congruence. }
  assert (forall k, k <> id e -> is_Some (sessions r !! k) -> is_Some (sessions r' !! k)) as Hkeep.
  { intros k Hk Hs. rewrite Hsess, lookup_delete_ne by congruence. done. }
  assert (forall k q, pumps a' !! k = Some q -> k <> id e /\ pumps a !! k = Some q) as Hp.
  { intros k q. cbn. rewrite lookup_delete_Some. intros [? ?]. split; congruence. }
  assert (forall k q, tmuxRelays a' !! k = Some q -> k <> id e /\ tmuxRelays a !! k = Some q) as Hr.
  { intros k q. cbn. rewrite lookup_delete_Some. intros [? ?]. split; congruence. }
  assert (forall j u, threads a' !! j = Some u -> (j = i /\ u = t') \/ (j <> i /\ threads a !! j = Some u))
    as Hcases.
  { intros j u Hj. destruct (at_pc_cases i t' a j u Hj) as [[-> ->]|?]; auto. }
  assert (forall j u, j <> i -> threads a !! j = Some u -> threads a' !! j = Some u) as Hother.
  { intros j u Hne Hj. cbn. by rewrite list_lookup_insert_ne. }
  assert (threads a' !! i = Some t') as Hself by by apply (at_pc_self i t).
  (* where the resources of [a'] were *)
  assert (forall q h, held a' q h ->
    (h = P_thread i /\ held a q ((if is_acp e then P_pump else P_relay) (id e))) \/
    (h <> P_thread i /\ h <> P_pump (id e) /\ h <> P_relay (id e) /\ held a q h)) as Hheld.
  { intros q [k|k|j] Hq; cbn in Hq.
    - apply Hp in Hq as [Hne Hq]. right. split_and!; congruence || done.
    - apply Hr in Hq as [Hne Hq]. right. split_and!; congruence || done.
    - destruct Hq as (u & Hj & Hu). apply Hcases in Hj as [[-> ->]|[Hne Hj]].
      + left. split; [done|]. rewrite Hh' in Hu. by destruct (is_acp e).
      + right. split_and!; try congruence. by exists u. }
  split.
  - done.
  - cbn. done.
  - by rewrite Hnext.
  - intros k x [Hne Hx]%Hsub. rewrite Hnext. by apply i_live0.
  - intros k q [Hne Hq]%Hp. destruct (i_pump0 k q Hq) as (? & ? & ?). split_and!; auto.
  - intros k q [Hne Hq]%Hr. destruct (i_relay0 k q Hq) as (? & ? & ?). split_and!; auto.
  - intros j u [[-> ->]|[Hne Hj]]%Hcases.
    + split; try done; try congruence.
      * intros g x Hx. rewrite Hte in Hx. simplify_eq. split; [done|]. split; [|done].
        exists n. by rewrite Hnext.
      * intros x Hx. rewrite Hf' in Hx. simplify_eq. unfold gone.
        rewrite Hsess. apply lookup_delete_eq.
      * intros q Hq. rewrite Hh' in Hq.
        destruct (is_acp e); [by apply i_pump0 in Hq as (_ & _ & ?)|by apply i_relay0 in Hq as (_ & _ & ?)].
    + eapply thread_ok_mono; [by apply (i_threads0 j)|by rewrite Hnext| | |done].
      * intros x _ [Hx1 Hx2]. unfold unregistered. cbn. rewrite !lookup_delete_None. auto.
      * intros x _ Hg. unfold gone in *. rewrite Hsess, lookup_delete_None. by right.
  - intros j1 j2 u1 u2 e1 e2 [[-> ->]|[Hn1 H1]]%Hcases [[-> ->]|[Hn2 H2]]%Hcases; try congruence.
    by eapply i_one_launch0.
  - intros q o Hq. rewrite Hports in Hq. destruct (i_port0 q o Hq) as (Ho & Ho1 & Ho2 & Hor).
    split_and!; try done. destruct (decide (o = id e)) as [->|Hne].
    { right. by exists i, t', e. }
    destruct Hor as [Hs|(j & u & x & Hj & Hu & Hx)]; [left; by apply Hkeep|].
    right. exists j, u, x. split; [|done]. apply Hother; [|done]. intros ->. by simplify_eq.
  - intros k x [Hne Hx]%Hsub Hz Ha. rewrite Hports. by eapply i_owned0.
  - intros q Hq. cbn in Hq. destruct (i_alive0 q Hq) as (Hlt & h & Hhq). split; [done|].
    destruct h as [k|k|j]; cbn in Hhq.
    + destruct (decide (k = id e)) as [->|Hne].
      * exists (P_thread i), t'. split; [done|]. rewrite Hh'.
        destruct (i_pump0 _ _ Hhq) as (_ & Hk & _). rewrite Hinfo in Hk. cbn in Hk. by rewrite Hk.
      * exists (P_pump k). cbn. by rewrite lookup_delete_ne.
    + destruct (decide (k = id e)) as [->|Hne].
      * exists (P_thread i), t'. split; [done|]. rewrite Hh'.
        destruct (i_relay0 _ _ Hhq) as (_ & Hk & _). rewrite Hinfo in Hk. cbn in Hk. by rewrite Hk.
      * exists (P_relay k). cbn. by rewrite lookup_delete_ne.
    + destruct Hhq as (u & Hj & Hu). exists (P_thread j), u. split; [|done]. apply Hother; [|done].
      intros ->. by simplify_eq.
  - intros q h h' [[-> H1]|(Hn1 & Hn2 & Hn3 & H1)]%Hheld [[-> H2]|(Hm1 & Hm2 & Hm3 & H2)]%Hheld;
      [done| | |by eapply i_exclusive0].
    + exfalso. pose proof (i_exclusive0 _ _ _ H1 H2) as <-. by destruct (is_acp e).
    + exfalso. pose proof (i_exclusive0 _ _ _ H1 H2) as ->. by destruct (is_acp e).
Qed.

(** ** Ports *)

(** A goroutine ends once no port is left for it to free. *)
Lemma inv_finish info a r i g e :
  inv info a r -> threads a !! i = Some (Free_port g e) ->
  (forall q o, ports r !! q = Some o -> o <> id e) -> inv info (at_pc i Finished a) r.
Proof.
  intros [] Hi Hno. split; try done.
  - intros j u Hj. apply at_pc_cases in Hj as [[-> ->]|[Hne Hj]]; [by split|].
    by destruct (i_threads0 j u Hj); split.
  - intros j1 j2 u1 u2 e1 e2 H1 H2 L1 L2 He.
    apply at_pc_cases in H1 as [[-> ->]|[Hn1 H1]], H2 as [[-> ->]|[Hn2 H2]]; try done.
    by eapply i_one_launch0.
  - intros q o Hq. destruct (i_port0 q o Hq) as (Ho & Ho1 & Ho2 & [Hs|(j & u & x & Hj & Hu & Hx)]);
      [by eauto|]. split_and!; try done. right. exists j, u, x. split; [|done].
    apply at_pc_other; [|done]. intros ->. rewrite Hi in Hj. injection Hj as <-. cbn in Hu.
    injection Hu as <-. by apply (Hno q o).
  - intros q Hq. destruct (i_alive0 q Hq) as (Hlt & h & Hh). split; [done|]. exists h.
    destruct h as [k|k|j]; [done|done|]. destruct Hh as (u & Hj & Hu). exists u. split; [|done].
    apply at_pc_other; [|done]. intros ->. rewrite Hi in Hj. by simplify_eq.
  - assert (forall q h, held (at_pc i Finished a) q h -> held a q h) as Hheld.
    { intros q [k|k|j]; [done|done|]. intros (u & Hj & Hu).
      apply at_pc_cases in Hj as [[-> ->]|[Hne Hj]]; [done|by exists u]. }
    intros q h h' H1%Hheld H2%Hheld. by eapply i_exclusive0.
Qed.

(** The port a created session was given is the only one it can own. *)
Lemma port_of_owner info a r e q :
  inv info a r -> known info r e -> ports r !! q = Some (id e) ->
  is_acp e = true /\ Atoi (endpoint e) = (q, true).
Proof.
  intros Hinv [_ Hi] Hq. destruct (i_port _ _ _ Hinv q _ Hq) as (_ & Hf & Ha & _).
  rewrite Hi in Hf, Ha. done.
Qed.

(** Freeing the port of a gone session, whoever already freed it. *)
Lemma inv_free_port info a r i g e :
  inv info a r -> threads a !! i = Some (Free_port g e) ->
  exists r', inv info (at_pc i Finished (free_port g e a)) r'.
Proof.
  intros Hinv Hi. pose proof (i_threads _ _ _ Hinv _ _ Hi) as [Hk _ Hg _ _].
  destruct (Hk _ _ eq_refl) as [-> Hkn]. specialize (Hg _ eq_refl). unfold gone in Hg.
  pose proof (fun q => port_of_owner info a r e q Hinv Hkn) as Hown.
  unfold free_port. destruct (is_acp e) eqn:Hacp.
  2: { exists r. apply (inv_finish _ _ _ _ 0%nat e); [done..|]. intros q o Hq ->.
       by destruct (Hown q Hq). }
  destruct (Atoi (endpoint e)) as [p []] eqn:Hat.
  2: { exists r. apply (inv_finish _ _ _ _ 0%nat e); [done..|]. intros q o Hq ->.
       by destruct (Hown q Hq). }
  pose proof (on_registry_inv _ _ _ (freePort p (id e)) Hinv) as Hreg.
  exists (freePort p (id e) r). apply (inv_finish _ _ _ _ 0%nat e); [|done|].
  - destruct Hinv. unfold freePort in *. destruct (String.eqb_spec (portOwner p r) (id e)) as [Ho|Ho].
    + split; try done.
      * intros j u Hj. by destruct (i_threads0 j u Hj); split.
      * intros q o Hq. cbn in Hq. rewrite lookup_delete_Some in Hq. destruct Hq as [_ Hq]. exact (i_port0 q o Hq).
      * intros k x Hx Hz Ha. destruct (i_owned0 k x Hx Hz Ha) as (q & Hq1 & Hq2).
        exists q. split; [done|]. cbn. rewrite lookup_delete_ne; [done|]. intros <-.
        unfold portOwner in Ho. rewrite Hq2 in Ho. cbn in Ho. cbn in Hx. rewrite Ho in Hx. rewrite Hg in Hx. done.
    + split; try done. intros j u Hj. by destruct (i_threads0 j u Hj); split.
  - intros q o Hq ->. unfold freePort in Hq.
    destruct (String.eqb_spec (portOwner p r) (id e)) as [Ho|Ho]; cbn in Hq.
    + rewrite lookup_delete_Some in Hq. destruct Hq as [Hne Hq].
      destruct (Hown q Hq) as [_ Heq]. congruence.
    + destruct (Hown q Hq) as [_ Heq]. assert (q = p) as -> by congruence.
      unfold portOwner in Ho. by rewrite Hq in Ho.
Qed.

(** ** Creation *)

Lemma Itoa_not_zero n : 1 <= n -> Itoa n <> SessionZeroID.
Proof. intros Hn Heq. change SessionZeroID with (Itoa 0) in Heq. apply (inj Itoa) in Heq. lia. Qed.

(** The next id is in nobody's hands. *)
Lemma next_unused info a r : inv info a r -> sessions r !! Itoa (nextID r) = None.
Proof.
  intros Hinv. destruct (sessions r !! Itoa (nextID r)) as [e|] eqn:He; [|done].
  pose proof (i_next _ _ _ Hinv) as Hn.
  destruct (i_live _ _ _ Hinv _ _ He) as (_ & _ & [[Hz _]|(_ & n & Heq & Hlt)]).
  - by apply Itoa_not_zero in Hz.
  - apply (inj Itoa) in Heq. lia.
Qed.

Lemma known_not_next info r e : known info r e -> id e <> Itoa (nextID r).
Proof. intros [(n & Hn & Hlt) _] Heq. rewrite Hn in Heq. apply (inj Itoa) in Heq. lia. Qed.

(** A reserved session: its entry registered, its port (if any) recorded, its launch started. *)
Lemma inv_reserve info a r e ports' :
  inv info a r -> nextID r < 2 ^ 63 - 1 ->
  id e = Itoa (nextID r) -> pinned e = false ->
  (ports' = ports r /\ is_acp e = false \/
   exists q, is_acp e = true /\ Atoi (endpoint e) = (q, true) /\ ports r !! q = None /\
     ports' = <[q := id e]> (ports r)) ->
  exists info' r',
    inv info' (a <| registries ::= <[0%nat := register e (r <| ports := ports' |>)]> |>
                 <| threads ::= (fun l => l ++ [Launch_start e]) |>) r'.
Proof.
  intros Hinv Hb Hid Hpin Hports. pose proof (next_unused _ _ _ Hinv) as Hfree.
  pose proof (i_next _ _ _ Hinv) as Hn1.
  pose proof Hinv as [].
  set (info' := fun k => if decide (k = id e) then (is_acp e, endpoint e) else info k).
  set (r' := r <| ports := ports' |> <| sessions ::= <[id e := e]> |> <| nextID := nextID r + 1 |>).
  exists info', r'. rewrite register_next by (cbn; lia || done).
  change (r <| ports := ports' |> <| sessions ::= <[id e := e]> |> <| nextID := nextID (r <| ports := ports' |>) + 1 |>)
    with r'.
  set (a' := a <| registries ::= _ |> <| threads ::= _ |>).
  assert (forall k, k <> id e -> info' k = info k) as Hinfo.
  { intros k Hk. unfold info'. by rewrite decide_False. }
  assert (info' (id e) = (is_acp e, endpoint e)) as Hinfo_e by (unfold info'; by rewrite decide_True).
  assert (forall k x, sessions r !! k = Some x -> k <> id e) as Hlive_ne.
  { intros k x Hk ->. rewrite Hid in Hk. congruence. }
  assert (forall x, known info r x -> known info' r' x) as Hknown.
  { intros x Hx. pose proof (known_not_next _ _ _ Hx) as Hne. destruct Hx as [(n & ? & ?) Hi].
    split; [exists n; split; [done|cbn; lia]|]. rewrite Hinfo; [done|congruence]. }
  assert (forall j u, threads a' !! j = Some u ->
    threads a !! j = Some u \/ (j = length (threads a) /\ u = Launch_start e)) as Hcases.
  { intros j u. cbn. rewrite lookup_app_Some, list_lookup_singleton_Some. intros [?|[? [? <-]]]; [by left|].
    right. split; [lia|done]. }
  assert (forall j u, threads a !! j = Some u -> threads a' !! j = Some u) as Hold.
  { intros j u Hj. cbn. by apply lookup_app_l_Some. }
  assert (forall q h, held a' q h -> held a q h) as Hheld.
  { intros q [k|k|j]; [done|done|]. intros (u & [Hj|[-> ->]]%Hcases & Hu); [by exists u|done]. }
  assert (forall j u g x, threads a !! j = Some u -> thread_entry u = Some (g, x) -> id x <> id e)
    as Hthread_ne.
  { intros j u g x Hj Hx. destruct (i_threads0 _ _ Hj) as [Hk _ _ _ _].
    destruct (Hk _ _ Hx) as [_ Hkx]. rewrite Hid. by eapply known_not_next. }
  assert (forall u x, launching u = Some x -> exists g, thread_entry u = Some (g, x)) as Hlte.
  { intros []; cbn; intros x [= <-]; eauto. }
  split; try done.
  - cbn. by rewrite i_registry0.
  - cbn. lia.
  - intros k x. cbn. rewrite lookup_insert_Some. intros [[<- <-]|[Hne Hx]].
    + split_and!; [done|done|]. right. split; [done|]. exists (nextID r). split; [done|lia].
    + destruct (i_live0 k x Hx) as (? & Hi & Hor). rewrite Hinfo by done. split_and!; try done.
      destruct Hor as [?|(? & n & ? & ?)]; [by left|right]. split; [done|]. exists n. split; [done|lia].
  - intros k q Hq. destruct (i_pump0 k q Hq) as ([x Hx] & Hf & Hl).
    pose proof (Hlive_ne _ _ Hx). rewrite Hinfo by done. split_and!; try done.
    cbn. rewrite lookup_insert_ne by done. eauto.
  - intros k q Hq. destruct (i_relay0 k q Hq) as ([x Hx] & Hf & Hl).
    pose proof (Hlive_ne _ _ Hx). rewrite Hinfo by done. split_and!; try done.
    cbn. rewrite lookup_insert_ne by done. eauto.
  - intros j u [Hj|[-> ->]]%Hcases.
    + destruct (i_threads0 j u Hj) as [Hk Hl Hg Hh Hs]. split; try done.
      * intros g x Hx. destruct (Hk g x Hx) as [-> Hkx]. auto.
      * intros x Hx. specialize (Hg x Hx). unfold gone in *. cbn.
        assert (exists g, thread_entry u = Some (g, x)) as [g Hgx] by (destruct u; cbn in *; simplify_eq; eauto).
        by rewrite lookup_insert_ne by (apply not_eq_sym; by eapply Hthread_ne).
    + split; try done.
      * intros g x [= <- <-]. split; [done|]. split; [|done]. exists (nextID r). cbn. split; [done|lia].
      * intros x [= <-]. split.
        -- destruct (pumps a !! id e) as [q|] eqn:Hq; [|done].
           destruct (i_pump0 _ _ Hq) as ([x Hx] & _). rewrite Hid in Hx. congruence.
        -- cbn. destruct (tmuxRelays a !! id e) as [q|] eqn:Hq; [|done].
           destruct (i_relay0 _ _ Hq) as ([x Hx] & _). rewrite Hid in Hx. congruence.
  - intros j1 j2 u1 u2 x1 x2 [H1|[-> ->]]%Hcases [H2|[-> ->]]%Hcases L1 L2 Hx; [by eapply i_one_launch0| | |done].
    + exfalso. destruct (Hlte _ _ L1) as [g Hg]. cbn in L2. simplify_eq.
      by eapply (Hthread_ne j1 u1 g x1).
    + exfalso. destruct (Hlte _ _ L2) as [g Hg]. cbn in L1. simplify_eq.
      by eapply (Hthread_ne j2 u2 g x2).
  - intros q o Hq. cbn in Hq.
    assert (o = id e /\ is_acp e = true /\ Atoi (endpoint e) = (q, true) \/ ports r !! q = Some o) as [Hnew|Hq'].
    { destruct Hports as [[-> _]|(q' & Ha & Hat & _ & ->)]; [by right|].
      apply lookup_insert_Some in Hq as [[-> <-]|[_ Hq]]; [by left|by right]. }
    + destruct Hnew as (-> & Ha & Hat). rewrite Hinfo_e, Ha. split_and!; try done.
      * rewrite Hid. by apply Itoa_not_zero.
      * left. cbn. rewrite lookup_insert_eq. eauto.
    + destruct (i_port0 q o Hq') as (Ho & Hf & Hat & Hor).
      assert (o <> id e) as Hne.
      { destruct Hor as [[x Hx]|(j & u & x & Hj & Hu & <-)]; [by eapply Hlive_ne|].
        assert (exists g, thread_entry u = Some (g, x)) as [g Hgx] by (destruct u; cbn in *; simplify_eq; eauto).
        by eapply Hthread_ne. }
      rewrite Hinfo by done. split_and!; try done.
      destruct Hor as [Hs|(j & u & x & Hj & Hu & Hx)].
      * left. cbn. by rewrite lookup_insert_ne by done.
      * right. exists j, u, x. split; [by apply Hold|done].
  - intros k x. cbn. rewrite lookup_insert_Some. intros [[<- <-]|[Hne Hx]] Hz Ha.
    + destruct Hports as [[_ Hf]|(q & _ & Hat & _ & ->)]; [congruence|].
      exists q. split; [done|]. apply lookup_insert_eq.
    + destruct (i_owned0 k x Hx Hz Ha) as (q & Hat & Hq). exists q. split; [done|].
      destruct Hports as [[-> _]|(q' & _ & _ & Hnone & ->)]; [done|].
      rewrite lookup_insert_ne; [done|]. intros ->. congruence.
  - intros q Hq. destruct (i_alive0 q Hq) as (Hl & h & Hh). split; [done|]. exists h.
    destruct h as [k|k|j]; [done|done|]. destruct Hh as (u & Hj & Hu). exists u. split; [by apply Hold|done].
  - intros q h h' H1%Hheld H2%Hheld. by eapply i_exclusive0.
Qed.

Lemma inv_create info a r t rn b :
  inv info a r -> nextID r < 2 ^ 63 - 1 -> exists info' r', inv info' (createSession t rn b a) r'.
Proof.
  intros Hinv Hb. pose proof (next_unused _ _ _ Hinv) as Hfree.
  pose proof (i_next _ _ _ Hinv) as Hn.
  unfold createSession. rewrite (i_sessions _ _ _ Hinv), (i_registry _ _ _ Hinv). cbn [list_lookup lookup].
  destruct b; [by exists info, r|]. change ([r] !! 0%nat) with (Some r). cbn iota beta.
  rewrite allocID_next by done.
  destruct t.
  - pose proof (inv_reserve info a r {| id := Itoa (nextID r); transport := TRANSPORT_UNSPECIFIED;
      runnable := rn; state := STATE_STARTING; endpoint := moshTmuxName (Itoa (nextID r));
      pinned := false |} (ports r) Hinv Hb eq_refl eq_refl ltac:(by left)) as (i' & r' & Hr).
    exists i', r'. by destruct r.
  - pose proof (allocPort_spec (Itoa (nextID r)) r) as Hp.
    destruct (allocPort _ r) as [r1 [q|]].
    + destruct Hp as (Hq & Hnone & _ & ->).
      assert (0 <= q < 2 ^ 63) by (unfold acpPoolLo, acpPoolHi in *; lia).
      pose proof (inv_reserve info a r {| id := Itoa (nextID r); transport := TRANSPORT_ACP;
        runnable := rn; state := STATE_STARTING; endpoint := Itoa q; pinned := false |}
        (<[q := Itoa (nextID r)]> (ports r)) Hinv Hb eq_refl eq_refl) as Hr.
      destruct Hr as (i' & r' & Hr).
      { right. exists q. split_and!; try done. cbn. by rewrite Atoi_Itoa. }
      exists i', r'. exact Hr.
    + destruct Hp as [-> _]. exists info, r. eapply inv_ext; [done|..]; try done.
      cbn. by rewrite (i_registry _ _ _ Hinv).
  - pose proof (inv_reserve info a r {| id := Itoa (nextID r); transport := TRANSPORT_MOSH;
      runnable := rn; state := STATE_STARTING; endpoint := moshTmuxName (Itoa (nextID r));
      pinned := false |} (ports r) Hinv Hb eq_refl eq_refl ltac:(by left)) as (i' & r' & Hr).
    exists i', r'. by destruct r.
Qed.

(** A new goroutine that owns nothing. *)
Lemma inv_append info a r t :
  inv info a r -> launching t = None -> holds t = None -> will_free t = None ->
  thread_ok info a r t -> inv info (a <| threads ::= (fun l => l ++ [t]) |>) r.
Proof.
  intros [] Hl Hh Hf Hok. set (a' := a <| threads ::= _ |>).
  assert (forall j u, threads a' !! j = Some u -> threads a !! j = Some u \/ u = t) as Hcases.
  { intros j u. cbn. rewrite lookup_app_Some, list_lookup_singleton_Some. naive_solver. }
  assert (forall j u, threads a !! j = Some u -> threads a' !! j = Some u) as Hold
    by (intros j u Hj; cbn; by apply lookup_app_l_Some).
  assert (forall q h, held a' q h -> held a q h) as Hheld.
  { intros q [k|k|j]; [done|done|]. intros (u & [Hj| ->]%Hcases & Hu); [by exists u|congruence]. }
  split; try done.
  - intros j u [Hj| ->]%Hcases; [destruct (i_threads0 j u Hj)|destruct Hok]; by split.
  - intros j1 j2 u1 u2 e1 e2 [H1| ->]%Hcases [H2| ->]%Hcases L1 L2; try congruence.
    by eapply i_one_launch0.
  - intros q o Hq. destruct (i_port0 q o Hq) as (? & ? & ? & [?|(j & u & x & Hj & ?)]); [by eauto|].
    split_and!; try done. right. exists j, u, x. split; [by apply Hold|done].
  - intros q Hq. destruct (i_alive0 q Hq) as (? & h & Hh'). split; [done|]. exists h.
    destruct h as [k|k|j]; [done|done|]. destruct Hh' as (u & Hj & Hu). exists u. auto.
  - intros q h h' H1%Hheld H2%Hheld. by eapply i_exclusive0.
Qed.
