(* ===== verification/NodeSessionsContract.v ===== *)
(** * What the node promises about additional sessions

    Over every interleaving of creates, closes, attaches, launches and agents' exits, while the
    spawn is not reaped; and what a reap, or an agent's exit, can leave behind. *)

From S2P Require Import Prelude GoLib NodeSessions NodeSessionsInv.
Open Scope Z_scope.

(** ** Runs *)

(** Fewer than 2^63 sessions were created: [nextID] has not wrapped. *)
Definition counts_fit (a : attacher) : Prop :=
  forall g r, registries a !! g = Some r -> nextID r < 2 ^ 63 - 1.

Inductive run (spawn runnable mode : string) : attacher -> Prop :=
| run_init : run spawn runnable mode (init spawn runnable mode)
| run_step ev a a' : run spawn runnable mode a -> ev <> Ev_reap -> counts_fit a ->
    step ev a = Some a' -> run spawn runnable mode a'.

Ltac ext_of H := eapply inv_ext; [exact H|reflexivity..].

Lemma inv_init spawn runnable mode :
  exists info r, inv info (init spawn runnable mode) r.
Proof.
  set (z := zero_entry runnable mode).
  exists (fun k => if decide (k = SessionZeroID) then (is_acp z, endpoint z) else (false, "")).
  exists (register z (newSessionRegistry spawn)).
  assert (register z (newSessionRegistry spawn) =
    {| registry_spawnID := spawn; sessions := {[SessionZeroID := z]}; nextID := 1; ports := ∅ |})
    as Hr by reflexivity.
  rewrite Hr. unfold init, put_resource. fold z.
  split; try (destruct (is_acp z) eqn:Hz; cbn; try done; try lia).
  all: try (intros k q Hk; apply lookup_singleton_Some in Hk as [<- <-]; rewrite ?Hz;
            split_and!; [by eexists|by rewrite ?decide_True|lia]).
  all: try (intros k x Hk; apply lookup_singleton_Some in Hk as [<- <-]; rewrite ?Hz;
            split_and!; [done|by rewrite decide_True by done|by left]).
  all: try (intros k x Hk; apply lookup_singleton_Some in Hk as [<- <-]; done).
  all: try (intros q Hq; apply elem_of_singleton in Hq as ->; split; [lia|];
            (exists (P_pump SessionZeroID); done) || (exists (P_relay SessionZeroID); done)).
  all: intros q [k|k|j] [k'|k'|j'] H1 H2; cbn in H1, H2; try done;
    try (apply lookup_singleton_Some in H1 as [<- <-]);
    try (apply lookup_singleton_Some in H2 as [<- _]); try done;
    try (by destruct H1 as (? & ? & ?)); try (by destruct H2 as (? & ? & ?)).
Qed.

Lemma inv_thread_known info a r i t g e :
  inv info a r -> threads a !! i = Some t -> thread_entry t = Some (g, e) ->
  g = 0%nat /\ known info r e.
Proof. intros Hinv Hi He. by destruct (i_threads _ _ _ Hinv _ _ Hi) as [Hk _ _ _ _]; apply Hk. Qed.

(** A goroutine that only moves on: its new pc knows nothing more. *)
Lemma inv_move_plain info a r i t t' :
  inv info a r -> threads a !! i = Some t ->
  launching t' = None \/ launching t' = launching t ->
  holds t' = holds t \/ (holds t' = None /\ forall p, holds t = Some p -> p ∉ alive a) ->
  will_free t' = will_free t ->
  (forall g e, thread_entry t' = Some (g, e) -> g = 0%nat /\ known info r e) ->
  (forall ps, t' <> Stop_all ps) ->
  inv info (at_pc i t' a) r.
Proof.
  intros Hinv Hi Hl Hh Hf Hk Hs. eapply inv_move; [done..| |]; [congruence|].
  destruct (i_threads _ _ _ Hinv _ _ Hi) as [_ Hl' Hg' Hh' _]. split; try done.
  - intros e He. destruct Hl as [Hl|Hl]; [congruence|]. apply Hl'. congruence.
  - intros e He. apply Hg'. congruence.
  - intros p Hp. destruct Hh as [Hh|[Hh _]]; [|congruence]. apply Hh'. congruence.
Qed.

Lemma inv_launch_register info a r i g e p :
  inv info a r -> threads a !! i = Some (Launch_ready g e p) ->
  exists r', inv info (let '(a, next) := launch_register g e p a in at_pc i next a) r'.
Proof.
  intros Hinv Hi. destruct (inv_thread_known _ _ _ _ _ _ _ Hinv Hi eq_refl) as [-> Hk].
  unfold launch_register. rewrite (reg_get_inv _ _ _ _ Hinv). exists r.
  destruct (sessions r !! id e) as [x|] eqn:Hs.
  - pose proof (inv_register info a r i 0%nat e p
      (default [] (pending (put_resource e p a) !! id e)) Hinv Hi ltac:(eauto)) as Hr.
    eapply inv_ext; [exact Hr|..]; unfold put_resource; by destruct (is_acp e).
  - assert (inv info (at_pc i (Launch_undo 0 e p) a) r) as Hm; [|by ext_of Hm].
    eapply inv_move; [exact Hinv|exact Hi|by left|by left|done|].
    destruct (i_threads _ _ _ Hinv _ _ Hi) as [Hk' _ _ Hh _]. split; try done.
    by intros x [= <-].
Qed.

Lemma inv_stop info a r i t p e :
  inv info a r -> threads a !! i = Some t -> thread_entry t = Some (0%nat, e) ->
  holds t = Some p -> will_free t = Some e ->
  inv info (at_pc i (Free_port 0 e) (stop_resource p a)) r.
Proof.
  intros Hinv Hi He Hh Hf. pose proof (inv_shrink _ _ _ {[p]} Hinv) as Hs.
  apply (inv_move_plain info (stop_resource p a) r i t (Free_port 0 e)); [exact Hs|done|by left| |by rewrite Hf| |done].
  - right. split; [done|]. intros q Hq. cbn. assert (q = p) as -> by congruence. set_solver.
  - intros g x [= <- <-]. by eapply inv_thread_known.
Qed.

Lemma inv_fail info a r i g e :
  inv info a r -> threads a !! i = Some (Launch_fail g e) ->
  exists r', inv info (at_pc i (Free_port g e) (fail_section g e a)) r'.
Proof.
  intros Hinv Hi. destruct (inv_thread_known _ _ _ _ _ _ _ Hinv Hi eq_refl) as [-> Hk].
  destruct (i_threads _ _ _ Hinv _ _ Hi) as [_ Hl _ _ _]. destruct (Hl _ eq_refl) as [Hp Hr].
  destruct (inv_remove info a r i _ (Free_port 0 e) e Hinv Hi Hk) as (r' & Hinv' & _); try done.
  { cbn. by destruct (is_acp e). }
  exists r'. eapply inv_ext; [exact Hinv'|..]; try done; cbn; symmetry; by apply delete_id.
Qed.

Lemma inv_close info a r i g e :
  inv info a r -> threads a !! i = Some (Close_found g e) ->
  exists r', inv info (let '(a, p) := close_section g e a in at_pc i (Close_reap g e p) a) r'.
Proof.
  intros Hinv Hi. destruct (inv_thread_known _ _ _ _ _ _ _ Hinv Hi eq_refl) as [-> Hk].
  set (p := if is_acp e then pumps a !! id e else tmuxRelays a !! id e).
  destruct (inv_remove info a r i _ (Close_reap 0 e p) e Hinv Hi Hk) as (r' & Hinv' & _); try done.
  { change (holds (Close_reap 0 e p) = p). clearbody p. by destruct p. }
  exists r'. by ext_of Hinv'.
Qed.

Lemma inv_step_thread info a r i ok a' :
  inv info a r -> step_thread i ok a = Some a' -> exists info' r', inv info' a' r'.
Proof.
  intros Hinv. unfold step_thread. destruct (threads a !! i) as [[]|] eqn:Hi; [..|done|done].
  - rewrite (i_sessions _ _ _ Hinv). intros Ha. exists info, r.
    destruct (inv_thread_known _ _ _ _ _ _ _ Hinv Hi eq_refl) as [_ Hk].
    assert (forall t', t' = Finished \/ t' = Launch_run 0 e -> inv info (at_pc i t' a) r) as Hm.
    { intros t' [-> | ->]; eapply inv_move_plain; try done; auto. by intros g x [= <- <-]. }
    destruct (transport e); injection Ha as <-; auto.
  - destruct (inv_thread_known _ _ _ _ _ _ _ Hinv Hi eq_refl) as [-> Hk].
    destruct ok; intros [= <-]; exists info, r.
    + by apply (inv_up info a r i 0%nat e).
    + eapply inv_move_plain; try done; auto. by intros g' x [= <- <-].
  - destruct (inv_launch_register _ _ _ _ _ _ _ Hinv Hi) as [r' Hr].
    destruct (launch_register g e p a). intros [= <-]. eauto.
  - destruct (inv_thread_known _ _ _ _ _ _ _ Hinv Hi eq_refl) as [-> Hk]. intros [= <-].
    exists info, r. by eapply inv_stop.
  - destruct (inv_thread_known _ _ _ _ _ _ _ Hinv Hi eq_refl) as [-> Hk]. intros [= <-].
    destruct (inv_setState info (bind_all (id e) p pend a) r (id e) STATE_ACTIVE) as [r' Hr];
      [by ext_of Hinv|].
    exists info, r'. eapply (inv_move_plain _ _ _ i (Launch_bind 0 e p pend)); try done; auto.
  - intros [= <-]. destruct (inv_fail _ _ _ _ _ _ Hinv Hi) as [r' Hr]. eauto.
  - intros [= <-]. destruct (inv_free_port _ _ _ _ _ _ Hinv Hi) as [r' Hr]. eauto.
  - destruct (inv_close _ _ _ _ _ _ Hinv Hi) as [r' Hr].
    destruct (close_section g e a). intros [= <-]. eauto.
  - destruct (inv_thread_known _ _ _ _ _ _ _ Hinv Hi eq_refl) as [-> Hk]. intros [= <-].
    exists info, r. destruct p as [p|]; [by eapply inv_stop|].
    eapply inv_move_plain; try done; auto. by intros g x [= <- <-].
  - destruct (i_threads _ _ _ Hinv _ _ Hi) as [_ _ _ _ Hs]. by destruct (Hs ps).
Qed.

Lemma inv_closeSession info a r k : inv info a r -> inv info (closeSession k a) r.
Proof.
  intros Hinv. unfold closeSession. rewrite (i_sessions _ _ _ Hinv), (reg_get_inv _ _ _ _ Hinv).
  destruct (sessions r !! k) as [e|] eqn:Hk; [|done]. destruct (pinned e) eqn:Hp; [done|].
  apply inv_append; try done. split; try done. intros g x [= <- <-]. split; [done|].
  destruct (i_live _ _ _ Hinv _ _ Hk) as (Hid & Hi & [[_ Ht]|(_ & n & Hn & Hlt)]); [congruence|].
  rewrite <- Hid in *. split; [by exists n|done].
Qed.

Lemma run_step_inv info a r ev a' :
  inv info a r -> nextID r < 2 ^ 63 - 1 -> ev <> Ev_reap -> step ev a = Some a' ->
  exists info' r', inv info' a' r'.
Proof.
  intros Hinv Hb Hne. destruct ev as [t rn b|k|k pc|k c|i ok|k p|]; cbn; [..|done].
  - intros [= <-]. by eapply inv_create.
  - intros [= <-]. exists info, r. by apply inv_closeSession.
  - intros [= <-]. exists info, r. unfold attachClient.
    destruct (tmuxRelays a !! k), (pumps a !! k); try by ext_of Hinv.
    rewrite (i_sessions _ _ _ Hinv). destruct (reg_get _ _ _); by ext_of Hinv.
  - intros [= <-]. exists info, r. unfold removePending.
    destruct (pending a !! k) as [[|x l]|]; try by ext_of Hinv.
    destruct (filter _ _); by ext_of Hinv.
  - by eapply inv_step_thread.
  - destruct (_ && _) eqn:Hg; [|done]. intros [= <-]. exists info, r. unfold pump_exit.
    pose proof (inv_shrink _ _ _ {[p]} Hinv) as Hs. cbv zeta.
    destruct (decide _) as [Hk|Hk]; [|exact Hs].
    apply (inv_drop_pump _ _ _ k p Hs); [exact Hk|]. cbn. set_solver.
Qed.

Lemma run_inv spawn runnable mode a :
  run spawn runnable mode a -> exists info r, inv info a r.
Proof.
  induction 1 as [|ev a a' _ (info & r & Hinv) Hne Hfit Hs]; [apply inv_init|].
  eapply run_step_inv; [done| |done|done]. apply (Hfit 0%nat r). by rewrite (i_registry _ _ _ Hinv).
Qed.

(** ** Concrete runs *)

Fixpoint exec (es : list event) (a : attacher) : option attacher :=
  match es with
  | [] => Some a
  | ev :: es => match step ev a with Some a => exec es a | None => None end
  end.

Definition fitsb (a : attacher) : bool :=
  forallb (fun r => nextID r <? 2 ^ 63 - 1) (registries a).
Definition reaps (ev : event) : bool := match ev with Ev_reap => true | _ => false end.
Fixpoint exec_fits (es : list event) (a : attacher) : bool :=
  match es with
  | [] => true
  | ev :: es => negb (reaps ev) && fitsb a &&
      match step ev a with Some a => exec_fits es a | None => false end
  end.

Lemma exec_run spawn rn mode es a a' :
  run spawn rn mode a -> exec_fits es a = true -> exec es a = Some a' -> run spawn rn mode a'.
Proof.
  revert a. induction es as [|ev es IH]; intros a Ha Hf He; cbn in *; [by simplify_eq|].
  destruct (step ev a) as [a1|] eqn:Hs; [|done]. brefl. destruct Hf as [[Hr Hfit] Hf].
  apply (IH a1); [|done|done]. apply (run_step _ _ _ ev a); [done|by intros ->| |done].
  intros g r Hg. unfold fitsb in Hfit. rewrite forallb_forall in Hfit.
  apply Z.ltb_lt, Hfit, list_elem_of_In. by eapply list_elem_of_lookup_2.
Qed.

(** ** The properties *)

(** Every live pump or relay has exactly one owner, in every interleaving of creates, closes,
    attaches, launches and agents' exits: either it is registered under a session that is in
    the registry, or exactly one goroutine holds it, to register it or to stop it. So a close
    that races with a launch never leaves one running with nobody to stop it, and the two never
    both stop it. *)
Theorem one_teardown_owner spawn runnable mode a p :
  run spawn runnable mode a -> p ∈ alive a ->
  exists h, held a p h /\ (forall h', held a p h' -> h' = h) /\
    match h with
    | P_pump k | P_relay k => is_Some (reg_get 0 k a)
    | P_thread i => exists t, threads a !! i = Some t /\ t <> Finished
    end.
Proof.
  intros (info & r & Hinv)%run_inv Hp. destruct (i_alive _ _ _ Hinv p Hp) as (_ & h & Hh).
  exists h. split; [done|]. split; [intros h' Hh'; by eapply i_exclusive|].
  destruct h as [k|k|i]; rewrite ?(reg_get_inv _ _ _ _ Hinv).
  - by destruct (i_pump _ _ _ Hinv k p Hh).
  - by destruct (i_relay _ _ _ Hinv k p Hh).
  - destruct Hh as (t & Hi & Ht). exists t. split; [done|]. by intros ->.
Qed.

Lemma stopped_all ps a p : p ∈ alive (foldr stop_resource a ps) -> p ∈ alive a /\ p ∉ ps.
Proof.
  induction ps as [|q ps IH]; cbn; [set_solver|]. intros [[Ha Hps]%IH Hq]%elem_of_difference. set_solver.
Qed.

Lemma stopped_threads ps a : threads (foldr stop_resource a ps) = threads a.
Proof. by induction ps. Qed.

(** A reap with no goroutine under way stops everything. *)
Lemma quiet_reap info a r :
  inv info a r -> Forall (fun t => t = Finished) (threads a) ->
  exists a1, step Ev_reap a = Some a1 /\
    forall ok, exists a2, step (Ev_thread (length (threads a)) ok) a1 = Some a2 /\
      alive a2 = ∅ /\ Forall (fun t => t = Finished) (threads a2).
Proof.
  intros Hinv Hdone. eexists. split; [reflexivity|]. intros ok. cbn. unfold step_thread. cbn.
  rewrite lookup_app_r, Nat.sub_diag by done. eexists. split; [reflexivity|]. cbn. split.
  - apply set_eq. intros p. split; [|set_solver]. intros [Hp Hps]%stopped_all. cbn in Hp. exfalso. apply Hps.
    rewrite Forall_forall in Hdone. rewrite elem_of_app, !list_elem_of_fmap.
    destruct (i_alive _ _ _ Hinv p Hp) as (_ & [k|k|i] & Hh).
    + left. exists (k, p). split; [done|]. by apply elem_of_map_to_list.
    + right. exists (k, p). split; [done|]. by apply elem_of_map_to_list.
    + destruct Hh as (t & Hi & Ht). apply list_elem_of_lookup_2, Hdone in Hi as ->. done.
  - rewrite stopped_threads.
    cbn. rewrite insert_app_r_alt, Nat.sub_diag by done. cbn. apply Forall_app. split; [done|by repeat constructor].
Qed.

(** C15: nothing leaks while a spawn lives, and nothing after it when its end is not raced.  Take
    any interleaving of creates, closes, attaches, detaches, launches and agents' exits (fewer than
    2^63 sessions), with no stop or suspend yet.  Once the goroutines are done, every live pump or
    relay serves a session of the registry, and the reserved ports of the pool are exactly those
    of the live additional ACP sessions, each its own; and a stop or suspend that comes then reaps
    the sessions and leaves no pump or relay alive. *)
Theorem quiescent_no_leak spawn runnable mode a :
  run spawn runnable mode a -> Forall (fun t => t = Finished) (threads a) ->
  (exists r, registries a = [r] /\
    (forall p, p ∈ alive a -> exists k, is_Some (get k r) /\
       (pumps a !! k = Some p \/ tmuxRelays a !! k = Some p)) /\
    (forall q o, ports r !! q = Some o <->
       exists e, get o r = Some e /\ o <> SessionZeroID /\ is_acp e = true /\
                 Atoi (endpoint e) = (q, true))) /\
  (exists a1, step Ev_reap a = Some a1 /\
    forall ok, exists a2, step (Ev_thread (length (threads a)) ok) a1 = Some a2 /\
      alive a2 = ∅ /\ Forall (fun t => t = Finished) (threads a2)).
Proof.
  intros (info & r & Hinv)%run_inv Hdone. split; [|by eapply quiet_reap]. rewrite Forall_forall in Hdone.
  exists r. split; [by apply i_registry in Hinv|]. split.
  - intros p Hp. destruct (i_alive _ _ _ Hinv p Hp) as (_ & [k|k|i] & Hh).
    + exists k. destruct (i_pump _ _ _ Hinv k p Hh). by auto.
    + exists k. destruct (i_relay _ _ _ Hinv k p Hh). by auto.
    + destruct Hh as (t & Hi & Ht). apply list_elem_of_lookup_2, Hdone in Hi as ->. done.
  - intros q o. split.
    + intros Hq. destruct (i_port _ _ _ Hinv q o Hq) as (Hz & Hf & Hat & [[e He]|Ht]).
      * exists e. destruct (i_live _ _ _ Hinv _ _ He) as (_ & Hi & _). rewrite Hi in Hf, Hat. done.
      * destruct Ht as (i & t & e & Hi & Ht & _).
        apply list_elem_of_lookup_2, Hdone in Hi as ->. done.
    + intros (e & He & Hz & Ha & Hat).
      destruct (i_owned _ _ _ Hinv _ _ He Hz Ha) as (q' & Hat' & Hq'). congruence.
Qed.

(** What [createSession] launches. *)
Lemma create_launches info a r t rn b e :
  inv info a r ->
  threads (createSession t rn b a) = threads a ++ [Launch_start e] ->
  id e = Itoa (nextID r) /\ state e = STATE_STARTING /\ pinned e = false /\
  (exists r1, registries (createSession t rn b a) = [register e r1]) /\
  (t = TRANSPORT_ACP -> exists q, endpoint e = Itoa q /\ acpPoolLo <= q <= acpPoolHi /\
     ports r !! q = None).
Proof.
  intros Hinv. pose proof (next_unused _ _ _ Hinv) as Hfree.
  assert (forall l (x : pc), l = l ++ [x] -> False) as Hno.
  { intros l x Hl. apply (f_equal length) in Hl. rewrite length_app in Hl. cbn in Hl. lia. }
  unfold createSession. rewrite (i_sessions _ _ _ Hinv), (i_registry _ _ _ Hinv).
  destruct b; [by intros []%Hno|]. change ([r] !! 0%nat) with (Some r). cbn iota beta.
  rewrite allocID_next by done. destruct t.
  - cbn. intros [= <-]%app_inv_head. split_and!; try done. rewrite (i_registry _ _ _ Hinv). by exists r.
  - pose proof (allocPort_spec (Itoa (nextID r)) r) as Hp.
    destruct (allocPort _ r) as [r1 [q|]]; cbn; [|by intros []%Hno].
    intros [= <-]%app_inv_head. destruct Hp as (Hq & Hnone & _). split_and!; try done.
    + rewrite (i_registry _ _ _ Hinv). by exists r1.
    + intros _. by exists q.
  - cbn. intros [= <-]%app_inv_head. split_and!; try done. rewrite (i_registry _ _ _ Hinv). by exists r.
Qed.

(** A session that is created is new: its id belongs to no live session and no goroutine
    still works on a session of that id, so a late close, failure or port release of an earlier
    session never touches it; it enters the registry as STARTING, and an ACP session gets a port
    of the pool that no other session holds. *)
Theorem created_session_is_fresh spawn runnable mode a t rn b e :
  run spawn runnable mode a ->
  threads (createSession t rn b a) = threads a ++ [Launch_start e] ->
  reg_get 0 (id e) a = None /\
  (forall i t' g e', threads a !! i = Some t' -> thread_entry t' = Some (g, e') ->
     id e' <> id e) /\
  reg_get 0 (id e) (createSession t rn b a) = Some e /\ state e = STATE_STARTING /\
  (t = TRANSPORT_ACP -> exists q, endpoint e = Itoa q /\ acpPoolLo <= q <= acpPoolHi /\
     forall r, registries a !! 0%nat = Some r -> ports r !! q = None).
Proof.
  intros (info & r & Hinv)%run_inv Ht.
  destruct (create_launches _ _ _ _ _ _ _ Hinv Ht) as (Hid & Hst & _ & (r1 & Hr1) & Hp).
  split_and!; [rewrite (reg_get_inv _ _ _ _ Hinv), Hid; by eapply next_unused| | |done|].
  - intros i t' g e' Hi He'. destruct (inv_thread_known _ _ _ _ _ _ _ Hinv Hi He') as [_ Hk].
    rewrite Hid. by apply (known_not_next info).
  - unfold reg_get. rewrite Hr1. cbn. unfold get, register.
    destruct (Atoi (id e)) as [n []]; cbn; try destruct (_ <=? _); cbn; apply lookup_insert_eq.
  - intros Hacp. destruct (Hp Hacp) as (q & Hq & Hlo & Hnone). exists q. split_and!; try done; try lia.
    intros r' Hr'. rewrite (i_registry _ _ _ Hinv) in Hr'. cbn in Hr'. by simplify_eq.
Qed.

(** ** Where nobody answers *)

(** When the agent of an additional session exits, its pump is unregistered but the session
    stays in the registry: a client that attaches afterwards is accepted and put on the list of
    those waiting for a launch, and there is no launch. *)
Theorem attach_after_exit_waits k p pc g e a :
  a_sessions a = Some g -> reg_get g k a = Some e ->
  pumps a !! k = Some p -> tmuxRelays a !! k = None ->
  let a' := pump_exit k p a in
  reg_get g k a' = Some e /\ threads a' = threads a /\
  snd (attachClient k pc a') = true /\ bound (fst (attachClient k pc a')) = bound a /\
  pending (fst (attachClient k pc a')) !! k = Some (default [] (pending a !! k) ++ [pc]).
Proof.
  intros Hs Hg Hp Hr a'. unfold a', pump_exit. cbn. rewrite decide_True by done.
  split; [done|]. split; [done|]. unfold attachClient. cbn. rewrite Hr, lookup_delete_eq.
  rewrite Hs. change (reg_get g k _) with (reg_get g k a). rewrite Hg. cbn.
  by rewrite lookup_insert_eq.
Qed.

(** ** Witnesses *)

(** An ACP session is created, its launch dials, a close comes before the launch registers. *)
Definition race_events : list event :=
  [Ev_create TRANSPORT_ACP "claude" false; Ev_thread 0 true; Ev_thread 0 true; Ev_close "1";
   Ev_thread 1 true; Ev_thread 0 true].
Definition race_state (es : list event) : attacher :=
  default (init "sp" "shell" "acp") (exec es (init "sp" "shell" "acp")).

Lemma race_run es :
  exec_fits es (init "sp" "shell" "acp") = true -> is_Some (exec es (init "sp" "shell" "acp")) ->
  run "sp" "shell" "acp" (race_state es).
Proof.
  intros Hf [a Ha]. unfold race_state. rewrite Ha. by eapply exec_run; [constructor|..].
Qed.

Lemma one_teardown_owner_witness :
  exists h, held (race_state race_events) 1%nat h /\
    (forall h', held (race_state race_events) 1%nat h' -> h' = h) /\
    match h with
    | P_pump k | P_relay k => is_Some (reg_get 0 k (race_state race_events))
    | P_thread i => exists t, threads (race_state race_events) !! i = Some t /\ t <> Finished
    end.
Proof.
  apply (one_teardown_owner "sp" "shell" "acp").
  - apply race_run; vm_compute; eauto.
  - apply (bool_decide_unpack _). vm_compute. exact I.
Defined.

(** The same race to its end, and a session left running. *)
Definition settled_events : list event :=
  race_events ++ [Ev_thread 1 true; Ev_thread 0 true; Ev_thread 1 true; Ev_thread 0 true;
    Ev_create TRANSPORT_ACP "claude" false; Ev_thread 2 true; Ev_thread 2 true; Ev_thread 2 true;
    Ev_thread 2 true].

Lemma quiescent_no_leak_witness :
  (exists r, registries (race_state settled_events) = [r] /\
    (forall p, p ∈ alive (race_state settled_events) -> exists k, is_Some (get k r) /\
       (pumps (race_state settled_events) !! k = Some p \/
        tmuxRelays (race_state settled_events) !! k = Some p)) /\
    (forall q o, ports r !! q = Some o <->
       exists e, get o r = Some e /\ o <> SessionZeroID /\ is_acp e = true /\
                 Atoi (endpoint e) = (q, true))) /\
  (exists a1, step Ev_reap (race_state settled_events) = Some a1 /\
    forall ok, exists a2, step (Ev_thread (length (threads (race_state settled_events))) ok) a1 = Some a2 /\
      alive a2 = ∅ /\ Forall (fun t => t = Finished) (threads a2)).
Proof.
  apply (quiescent_no_leak "sp" "shell" "acp").
  - apply race_run; vm_compute; eauto.
  - vm_compute. repeat constructor.
Defined.

Lemma created_session_is_fresh_witness :
  let a := race_state settled_events in
  let e := {| id := "3"; transport := TRANSPORT_ACP; runnable := "codex";
              state := STATE_STARTING; endpoint := "32669"; pinned := false |} in
  reg_get 0 (id e) a = None /\
  (forall i t' g e', threads a !! i = Some t' -> thread_entry t' = Some (g, e') ->
     id e' <> id e) /\
  reg_get 0 (id e) (createSession TRANSPORT_ACP "codex" false a) = Some e /\
  state e = STATE_STARTING /\
  (TRANSPORT_ACP = TRANSPORT_ACP -> exists q, endpoint e = Itoa q /\
     acpPoolLo <= q <= acpPoolHi /\
     forall r, registries a !! 0%nat = Some r -> ports r !! q = None).
Proof.
  intros a e. apply (created_session_is_fresh "sp" "shell" "acp" _ _ "codex" false).
  - apply race_run; vm_compute; eauto.
  - vm_compute. reflexivity.
Defined.

Lemma attach_after_exit_waits_witness :
  let a := race_state settled_events in
  let pc := {| clientID := "c1"; cursor := 0 |} in
  let a' := pump_exit "2" 2%nat a in
  exists e, reg_get 0 "2" a' = Some e /\ threads a' = threads a /\
  snd (attachClient "2" pc a') = true /\ bound (fst (attachClient "2" pc a')) = bound a /\
  pending (fst (attachClient "2" pc a')) !! "2" = Some (default [] (pending a !! "2") ++ [pc]).
Proof.
  eexists. apply (attach_after_exit_waits "2" 2%nat _ 0%nat); vm_compute; reflexivity.
Defined.

(** A stop or a suspend that reaps the sessions while one is being launched leaves its agent
    behind: the launch looks the session up in the registry it had read before, which the reap
    has only detached, so it registers the pump, and no goroutine is left to stop it. *)
Theorem launch_survives_reap :
  exists es a p, exec es (init "sp" "shell" "acp") = Some a /\
    a_sessions a = None /\ Forall (fun t => t = Finished) (threads a) /\
    p ∈ alive a /\ pumps a !! "1" = Some p.
Proof.
  set (es := [Ev_create TRANSPORT_ACP "claude" false; Ev_thread 0 true; Ev_thread 0 true;
    Ev_reap; Ev_thread 1 true; Ev_thread 0 true; Ev_thread 0 true]).
  exists es, (race_state es), 1%nat. split; [vm_compute; reflexivity|].
  split; [vm_compute; reflexivity|]. split; [vm_compute; repeat constructor|].
  split; [apply (bool_decide_unpack _); vm_compute; exact I|vm_compute; reflexivity].
Qed.
