(* ===== verification/Transitions.v ===== *)
(** * The control plane's waiters (src/internal/cp/lifecycle.go)

    What correlates a suspend or a resume in flight with the messages its node sends back:
    one waiter per spawn, matched by spawn id and generation, and the last progress each has
    reported.  Waiters are objects: [deliver] keeps the one it found although the waiter may
    have been unregistered meanwhile, so they live in a store and the map refers to them. *)

From S2P Require Import Prelude GoLib Database SpawnStore.
Open Scope Z_scope.

(** ** Suspends *)

(** The parts of the node's SuspendComplete the control plane reads here. *)
Record SuspendComplete := {
  sc_SpawnId : string; sc_Generation : Z; sc_Error : string; sc_Markers : list (string * string);
  (** the captured layers; [ArtifactType] is not part of the message *)
  sc_RootfsArtifacts : list RootfsArtifactPin
}.

Record SuspendProgressHint := {
  hint_SpawnID : string; hint_Generation : Z; hint_Phase : string; hint_Detail : string;
  hint_Markers : list (string * string)
}.

(** [ch] and [progressCh] are channels of capacity one. *)
Record suspendWaiter := {
  gen : Z;
  ch : option SuspendComplete;
  progressCh : bool;
  partialMarkers : gmap string string;
  lastPhase : string;
  lastDetail : string
}.
#[export] Instance eta_suspendWaiter : Eta suspendWaiter :=
  fun w => {| gen := gen w; ch := ch w; progressCh := progressCh w;
              partialMarkers := partialMarkers w; lastPhase := lastPhase w;
              lastDetail := lastDetail w |}.

Record suspendWaiters := { sw_m : gmap string nat; sw_store : list suspendWaiter }.
#[export] Instance eta_suspendWaiters : Eta suspendWaiters :=
  fun w => {| sw_m := sw_m w; sw_store := sw_store w |}.

Definition newSuspendWaiters : suspendWaiters := {| sw_m := ∅; sw_store := [] |}.

Definition register (spawnID : string) (gen : Z) (w : suspendWaiters) : suspendWaiters * nat :=
  let wt := length (sw_store w) in
  (w <| sw_store ::= (fun l => l ++ [{| gen := gen; ch := None; progressCh := false;
         partialMarkers := ∅; lastPhase := ""; lastDetail := "" |}]) |>
     <| sw_m ::= <[spawnID := wt]> |>, wt).

Definition unregister (spawnID : string) (w : suspendWaiters) : suspendWaiters :=
  w <| sw_m ::= delete spawnID |>.

(** [deliver] up to its channel: the lookup under the mutex and the comparison of the
    generations; [None] is the answer [false]. *)
Definition deliver_find (sc : SuspendComplete) (w : suspendWaiters) : option nat :=
  wt ← sw_m w !! sc_SpawnId sc;
  x ← sw_store w !! wt;
  if gen x =? sc_Generation sc then Some wt else None.
(** [deliver]'s select, with the waiter it found. *)
Definition deliver_send (wt : nat) (sc : SuspendComplete) (w : suspendWaiters)
    : suspendWaiters * bool :=
  match sw_store w !! wt with
  | Some x =>
      match ch x with
      | None => (w <| sw_store ::= <[wt := x <| ch := Some sc |>]> |>, true)
      | Some _ => (w, false)
      end
  | None => (w, false)
  end.

(** The hint applied to its waiter. *)
Definition progressed (h : SuspendProgressHint) (x : suspendWaiter) : suspendWaiter :=
  let x := x <| partialMarkers ::= (fun m => foldl (fun m '(k, v) => <[k := v]> m) m (hint_Markers h)) |> in
  let x := if String.eqb (hint_Phase h) "" then x
           else x <| lastPhase := hint_Phase h |> <| lastDetail := hint_Detail h |> in
  x <| progressCh := true |>.
Definition progress (h : SuspendProgressHint) (w : suspendWaiters) : suspendWaiters * bool :=
  match sw_m w !! hint_SpawnID h with
  | None => (w, false)
  | Some wt =>
      match sw_store w !! wt with
      | Some x =>
          if negb (gen x =? hint_Generation h) then (w, false)
          else (w <| sw_store ::= <[wt := progressed h x]> |>, true)
      | None => (w, false)
      end
  end.

Definition lastProgress (spawnID : string) (w : suspendWaiters) : string * string :=
  match wt ← sw_m w !! spawnID; sw_store w !! wt with
  | Some x => (lastPhase x, lastDetail x)
  | None => ("", "")
  end.

(** ** Resumes *)

Record ResumeProgressHint := {
  rhint_SpawnID : string; rhint_Generation : Z; rhint_Phase : string; rhint_Detail : string
}.

Record resumeWaiter := {
  rw_gen : Z; rw_progressCh : bool; rw_lastPhase : string; rw_lastDetail : string
}.
#[export] Instance eta_resumeWaiter : Eta resumeWaiter :=
  fun w => {| rw_gen := rw_gen w; rw_progressCh := rw_progressCh w;
              rw_lastPhase := rw_lastPhase w; rw_lastDetail := rw_lastDetail w |}.
Record resumeWaiters := { rw_m : gmap string nat; rw_store : list resumeWaiter }.
#[export] Instance eta_resumeWaiters : Eta resumeWaiters :=
  fun w => {| rw_m := rw_m w; rw_store := rw_store w |}.

Definition newResumeWaiters : resumeWaiters := {| rw_m := ∅; rw_store := [] |}.

Definition resume_register (spawnID : string) (gen : Z) (w : resumeWaiters)
    : resumeWaiters * nat :=
  let wt := length (rw_store w) in
  (w <| rw_store ::= (fun l => l ++ [{| rw_gen := gen; rw_progressCh := false;
         rw_lastPhase := ""; rw_lastDetail := "" |}]) |>
     <| rw_m ::= <[spawnID := wt]> |>, wt).

Definition resume_unregister (spawnID : string) (w : resumeWaiters) : resumeWaiters :=
  w <| rw_m ::= delete spawnID |>.

Definition resume_progress (h : ResumeProgressHint) (w : resumeWaiters) : resumeWaiters * bool :=
  match rw_m w !! rhint_SpawnID h with
  | None => (w, false)
  | Some wt =>
      match rw_store w !! wt with
      | Some x =>
          if negb (rw_gen x =? rhint_Generation h) then (w, false)
          else
            let x := if String.eqb (rhint_Phase h) "" then x
                     else x <| rw_lastPhase := rhint_Phase h |>
                            <| rw_lastDetail := rhint_Detail h |> in
            (w <| rw_store ::= <[wt := x <| rw_progressCh := true |>]> |>, true)
      | None => (w, false)
      end
  end.

Definition resume_lastProgress (spawnID : string) (w : resumeWaiters) : string * string :=
  match wt ← rw_m w !! spawnID; rw_store w !! wt with
  | Some x => (rw_lastPhase x, rw_lastDetail x)
  | None => ("", "")
  end.

(** ** Provisioning steps *)

Record provisionStep := { index : Z; total : Z; key : string; label : string }.
Definition provisioningProgress : Type := gmap string provisionStep.
Definition newProvisioningProgress : provisioningProgress := ∅.
Definition provisioning_set (spawnID : string) (st : provisionStep) (p : provisioningProgress)
    : provisioningProgress := <[spawnID := st]> p.
Definition provisioning_get (spawnID : string) (p : provisioningProgress)
    : option provisionStep := p !! spawnID.
Definition provisioning_clear (spawnID : string) (p : provisioningProgress)
    : provisioningProgress := delete spawnID p.

(** * Suspending and resuming a spawn (src/internal/cp/lifecycle.go, server.go)

    The control plane's drivers: they hold the spawn's claim, move its ledger row through the
    transient status, talk to the node and wait for its answer, and settle the row.  A driver is
    a program of type [prog]: between two of its steps anything else may happen to the ledger
    and the waiters.  One method of the store is one step; it can fail as the store's failure
    oracle says.  The checks of other parts of the control plane (secrets, app versions,
    placement, signed intents) are [Ask]s, which the environment answers; so is the scheduler's
    Provision, which ends in the [W_provision] wake-up. *)

(** ** Errors *)

(** The connect codes of the errors, and what distinguishes two errors of one code. *)
Inductive code :=
| CodeNotFound | CodePermissionDenied | CodeFailedPrecondition | CodeInternal | CodeAborted
| CodeDeadlineExceeded | CodeUnavailable | CodeInvalidArgument | CodeOther.

Inductive cp_error :=
| Unknown_spawn | Not_your_spawn | Not_active | No_live_container | Not_suspended
| Spawn_busy | Shutting_down
| Store_failed (e : StoreErr)
| Not_suspending (e : StoreErr)          (** Active→Suspending *)
| Suspend_refused (detail : string)      (** the node's gate: spawn left running *)
| Suspended_not_recorded (e : StoreErr)
| Suspend_stalled | Suspend_timed_out | Suspend_cancelled
| Check_failed (what : string)           (** a check of another part *)
| Not_resuming (e : StoreErr)            (** Starting→Resuming *)
| Provision_failed (detail : string)
| Active_not_recorded (e : StoreErr)
| Resume_stalled | Resume_timed_out | Resume_cancelled
| Invalid_request (what : string)
| Target_not_connected | Target_of_another_owner | Not_migratable
| Bad_rootfs_pins (what : string)
| Transfer_failed (what : string) (e : StoreErr).   (** a write of the transfer set *)

Definition code_of (e : cp_error) : code :=
  match e with
  | Unknown_spawn => CodeNotFound
  | Not_your_spawn | Target_of_another_owner => CodePermissionDenied
  | Not_active | No_live_container | Not_suspended | Suspend_refused _ | Target_not_connected
  | Not_migratable | Bad_rootfs_pins _ => CodeFailedPrecondition
  | Invalid_request _ => CodeInvalidArgument
  | Spawn_busy | Suspend_cancelled | Resume_cancelled => CodeAborted
  | Shutting_down => CodeUnavailable
  | Store_failed _ | Not_suspending _ | Suspended_not_recorded _ | Not_resuming _
  | Active_not_recorded _ | Transfer_failed _ _ => CodeInternal
  | Suspend_stalled | Suspend_timed_out | Resume_stalled | Resume_timed_out =>
      CodeDeadlineExceeded
  | Check_failed _ | Provision_failed _ => CodeOther
  end.

(** The errors of a request that is turned away. *)
Definition turned_away (e : cp_error) : bool :=
  match e with
  | Unknown_spawn | Not_your_spawn | Shutting_down | Spawn_busy | Store_failed _ => true
  | _ => false
  end.

(** ** Programs *)

(** [rootfsRestorePins]: the layers a resume restores. *)
Record rootfsRestorePins := mkRestore {
  restore_SourceGeneration : Z; restore_Pins : list RootfsArtifactPin; LocalOnly : bool }.

(** [schedulerRootfsRestore], with the pins by their sequence ([sortedRootfsArtifactPins]). *)
Definition by_sequence (a b : RootfsArtifactPin) : Prop := Sequence a <= Sequence b.
#[export] Instance by_sequence_dec a b : Decision (by_sequence a b).
Proof. unfold by_sequence. apply _. Defined.
Definition sortedRootfsArtifactPins (pins : list RootfsArtifactPin) : list RootfsArtifactPin :=
  merge_sort by_sequence pins.
Definition schedulerRootfsRestore (rootfs : option rootfsRestorePins) : option rootfsRestorePins :=
  match rootfs with
  | Some r =>
      match restore_Pins r with
      | [] => None
      | pins => Some (mkRestore (restore_SourceGeneration r) (sortedRootfsArtifactPins pins) (LocalOnly r))
      end
  | None => None
  end.

(** What a driver tells the router, the waiters and the scheduler. *)
Inductive action :=
| Register (gen : Z)
| Unregister
| SuspendOnNode (gen : Z) (capture : bool)
| DropRoute
| StopOnNode
| RegisterResume (gen : Z)
| UnregisterResume
| ClearProvisioning
| ClearSkillInstalls
| RegisterIntent (gen : Z) (node : string)
| CleanupIntent
| NoteNodeSecrets
| EmitSessionEnd
| Provision (gen : Z) (targetNode requireClass : string) (rootfs : option rootfsRestorePins)
| MarkDeliveryPending
| CancelProvision.

(** What a migration has fixed when it takes the claim. *)
Record migration := mkMigration {
  mg_sourceGeneration : Z; mg_targetNode : string; mg_baseImageDigest : string; mg_upgrade : bool }.
(** Whose suspend or resume it is. *)
Inductive caller := Direct | Migrating (m : migration).

(** Where a driver waits. *)
Inductive select :=
| Await_suspend (gen : Z) (who : caller)
| Await_resume (gen : Z) (revertOnFail intentEnabled : bool) (who : caller).

Inductive outcome := Suspended_with (sc : SuspendComplete) | Resumed_on (node : string) | Nothing.

Inductive prog :=
| Return (r : result cp_error outcome)
| Select (s : select)
| Call {A : Type} (m : DB A) (k : result StoreErr A -> prog)
| Ask (what : string) (k : bool -> prog)
(** [s.sched.PickNodeID(placement)] *)
| Pick (targetNode requireClass : string) (k : option string -> prog)
| Do (a : action) (k : prog)
(** a non-blocking receive from the suspend waiter's [ch] *)
| Poll (k : option SuspendComplete -> prog)
(** a copy of its partial markers *)
| Markers (k : list (string * string) -> prog)
(** [s.provisioning.get(id)], and the key of the step *)
| Step_key (k : string -> prog).

(** Why a waiting driver goes on: its waiter's channels, the provisioning goroutine, the stall
    timer, the deadline ([claim_lost] when the claim's context was cancelled). *)
Inductive wake :=
| W_reply (sc : SuspendComplete)
| W_progress
| W_provision (r : result string string)
| W_stall
| W_done (claim_lost : bool).

Section Drivers.
(** The spawn, the lease of the claim the driver holds, its caller, and how the caller goes on. *)
Context (id leaseID : string) (who : caller) (ret : result cp_error outcome -> prog).

Fixpoint set_markers (l : list (string * string)) (k : prog) : prog :=
  match l with
  | [] => k
  | (name, marker) :: l => Call (SetMountMarker id name marker) (fun _ => set_markers l k)
  end.

(** ** Suspend *)

Definition maxRevertRetries : nat := 3.

(** The gate's loop: Suspending→Active, again after a conflict. *)
Fixpoint revert_active (n : nat) (gen : Z) (k : prog) : prog :=
  match n with
  | O => k
  | S n =>
      Call (Get id) (fun r =>
        match r with
        | Err _ => k
        | Ok freshSP =>
            Call (TransitionClaimed id leaseID (StatusSeq freshSP) gen Active) (fun r =>
              match r with Err ErrConflict => revert_active n gen k | _ => k end)
        end)
  end.

Definition suspend_return (r : result cp_error outcome) : prog := Do Unregister (ret r).

Definition handleSuspendReply (gen : Z) (sc : SuspendComplete) : prog :=
  if negb (String.eqb (sc_Error sc) "")
  then revert_active maxRevertRetries gen
         (suspend_return (Err (Suspend_refused (sc_Error sc))))
  else
    set_markers (sc_Markers sc)
      (Do DropRoute
        (Call (SetSuspended id gen) (fun r =>
          match r with
          | Err e =>
              Call (SetError id "" "") (fun _ => suspend_return (Err (Suspended_not_recorded e)))
          | Ok _ => Do EmitSessionEnd (suspend_return (Ok (Suspended_with sc)))
          end))).

Definition suspendLocked (owner : string) (captureRootfsArtifact : bool) : prog :=
  Call (Get id) (fun r =>
    match r with
    | Err _ => ret (Err Unknown_spawn)
    | Ok sp =>
        if negb (String.eqb (OwnerID sp) owner) then ret (Err Not_your_spawn)
        else if negb (bool_decide (SpawnStatus sp = Active)) then ret (Err Not_active)
        else
          Call (LiveContainer id) (fun r =>
            match r with
            | Err e => ret (Err (Store_failed e))
            | Ok None => ret (Err No_live_container)
            | Ok (Some ((_, gen), _)) =>
                Call (TransitionClaimed id leaseID (StatusSeq sp) gen Suspending) (fun r =>
                  match r with
                  | Err e => ret (Err (Not_suspending e))
                  | Ok _ =>
                      Do (Register (u64 gen))
                        (Do (SuspendOnNode (u64 gen) captureRootfsArtifact)
                          (Select (Await_suspend gen who)))
                  end)
            end)
    end).

(** The stall's and the backstop's end: unregister first, take a reply that raced, else settle
    the row as an error. *)
Definition suspend_give_up (gen : Z) (persist : bool) (e : cp_error) : prog :=
  Do Unregister
    (Poll (fun r =>
      match r with
      | Some sc => handleSuspendReply gen sc
      | None =>
          let fail :=
            Do DropRoute (Call (SetError id "" "") (fun _ => suspend_return (Err e))) in
          if persist then Markers (fun acc => set_markers acc fail) else fail
      end)).

(** The body of [suspendLocked]'s select. *)
Definition suspend_select (gen : Z) (w : wake) : prog :=
  match w with
  | W_reply sc => handleSuspendReply gen sc
  | W_progress => Markers (fun acc => set_markers acc (Select (Await_suspend gen who)))
  | W_stall => suspend_give_up gen true Suspend_stalled
  | W_done true => suspend_return (Err Suspend_cancelled)
  | W_done false => suspend_give_up gen false Suspend_timed_out
  | W_provision _ => Select (Await_suspend gen who) (* not a case of this select *)
  end.

(** ** Resume *)

Definition failResume (gen : Z) (revert : bool) (detail : string) (k : prog) : prog :=
  if negb revert
  then Step_key (fun step => Call (SetError id step detail) (fun _ => k))
  else
    Do StopOnNode (Do DropRoute
      (Call (RevertSuspended id gen) (fun r =>
        match r with
        | Err _ => Call (SetError id "" "") (fun _ => k)
        | Ok _ => k
        end))).

(** The deferred calls: [provisioning.clear]; before it [pendingIntents.cleanup] once an intent
    was registered, and before that [resumes.unregister] once the waiter was. *)
Definition resume_return (r : result cp_error outcome) : prog :=
  Do ClearProvisioning (ret r).
Definition resume_cleanup_return (intentEnabled : bool) (r : result cp_error outcome) : prog :=
  if intentEnabled then Do CleanupIntent (resume_return r) else resume_return r.
Definition resume_unregister_return (intentEnabled : bool) (r : result cp_error outcome) : prog :=
  Do UnregisterResume (resume_cleanup_return intentEnabled r).

Definition fail_and_return (gen : Z) (revert : bool) (detail : string) (e : cp_error) : prog :=
  failResume gen revert detail (resume_return (Err e)).

(** [n] checks of other parts, each with its stage and whether a failure must settle the row. *)
Fixpoint checks (l : list string) (fail : string -> prog) (k : prog) : prog :=
  match l with
  | [] => k
  | what :: l => Ask what (fun ok => if ok then checks l fail k else fail what)
  end.

(** Before the claim of an episode a failed check leaves the spawn suspended. *)
Definition checks_before : list string :=
  ["attachSecretArtifacts"; "GetVersion"; "placementFor"].
(** With signed intents enforced: the secrets, the node, then the client's signature; the node
    that was picked is the one the intent names and the spawn is placed on. *)
Definition checks_unsigned : list string :=
  ["GetArtifacts"; "validate startup secret catalog"; "validate github mount credential type"].
Definition checks_signed : list string :=
  ["await SignedIntent"; "validate startup secrets"; "recheck startup secret catalog";
   "prepare github mint provision"].
Definition signed_placement (gen : Z) (revertOnFail intentEnabled : bool)
    (targetNode requireClass : string) (k : string -> prog) : prog :=
  let fail what := fail_and_return gen revertOnFail "" (Check_failed what) in
  let fail_cleanup what :=
    failResume gen revertOnFail "" (resume_cleanup_return true (Err (Check_failed what))) in
  if intentEnabled then
    checks checks_unsigned fail
      (Pick targetNode requireClass (fun r =>
        match r with
        | None => fail "PickNodeID"
        | Some node =>
            Do (RegisterIntent (u64 gen) node) (checks checks_signed fail_cleanup (k node))
        end))
  else k targetNode.

(** From the episode's claim to the wait. *)
Definition resume_claim (intentEnabled revertOnFail : bool) (targetNode requireClass : string)
    (rootfs : option rootfsRestorePins) : prog :=
  Call (run_in_tx (ClaimStarting id [Suspended])) (fun r =>
    match r with
    | Err e => ret (Err (Store_failed e))
    | Ok gen =>
        Do ClearSkillInstalls (Call (Get id) (fun r =>
          match r with
          | Err e => fail_and_return gen revertOnFail "" (Store_failed e)
          | Ok freshSP =>
              Call (TransitionClaimed id leaseID (StatusSeq freshSP) gen Resuming) (fun r =>
                match r with
                | Err e => fail_and_return gen revertOnFail "" (Not_resuming e)
                | Ok _ =>
                    Call (GetMounts id) (fun r =>
                      match r with
                      | Err e => fail_and_return gen revertOnFail "" (Store_failed e)
                      | Ok _ =>
                          signed_placement gen revertOnFail intentEnabled targetNode requireClass
                            (fun node =>
                              Do (RegisterResume (u64 gen))
                                (Do (Provision (u64 gen) node requireClass (schedulerRootfsRestore rootfs))
                                  (Select (Await_resume gen revertOnFail intentEnabled who))))
                      end)
                end)
          end))
    end).

(** A spawn with a journaled mount goes back to the node of its latest episode, unless the
    caller forced a placement. *)
Definition resume_placement (ovNode ovClass : string) (k : string -> prog) : prog :=
  if String.eqb ovNode "" && String.eqb ovClass "" then
    Ask "hasJournaledMount" (fun journaled =>
      if journaled then
        Call (LatestContainer id) (fun r =>
          match r with
          | Err e => ret (Err (Store_failed e))
          | Ok (Some (_, c)) => k (if String.eqb (NodeID c) "" then ovNode else NodeID c)
          | Ok None => k ovNode
          end)
      else k ovNode)
  else k ovNode.

Definition resumeLocked (owner ovNode ovClass : string) (revertOnFail intentEnabled : bool)
    (rootfs : option rootfsRestorePins) : prog :=
  Call (Get id) (fun r =>
    match r with
    | Err _ => ret (Err Unknown_spawn)
    | Ok sp =>
        if negb (String.eqb (OwnerID sp) owner) then ret (Err Not_your_spawn)
        else if negb (bool_decide (SpawnStatus sp = Suspended)) then ret (Err Not_suspended)
        else
          checks checks_before (fun what => ret (Err (Check_failed what)))
            (resume_placement ovNode ovClass (fun node =>
              resume_claim intentEnabled revertOnFail node ovClass rootfs))
    end).

Definition resume_select (gen : Z) (revertOnFail intentEnabled : bool) (w : wake) : prog :=
  let fail detail e :=
    failResume gen revertOnFail detail (resume_unregister_return intentEnabled (Err e)) in
  match w with
  | W_provision (Err detail) => fail detail (Provision_failed detail)
  | W_provision (Ok nodeID) =>
      Call (SetActive id nodeID gen) (fun r =>
        match r with
        | Err e => Do StopOnNode (Do DropRoute (fail "" (Active_not_recorded e)))
        | Ok _ =>
            Call (MarkModelApplied id) (fun _ =>
              Do NoteNodeSecrets (resume_unregister_return intentEnabled (Ok (Resumed_on nodeID))))
        end)
  | W_progress => Select (Await_resume gen revertOnFail intentEnabled who)
  | W_stall => Do CancelProvision (Do DropRoute (fail "" Resume_stalled))
  | W_done true => Do CancelProvision (resume_unregister_return intentEnabled (Err Resume_cancelled))
  | W_done false => Do CancelProvision (Do DropRoute (fail "" Resume_timed_out))
  | W_reply _ => Select (Await_resume gen revertOnFail intentEnabled who) (* not a case of this select *)
  end.

Definition on_wake (s : select) (w : wake) : prog :=
  match s with
  | Await_suspend gen _ => suspend_select gen w
  | Await_resume gen revertOnFail intentEnabled _ => resume_select gen revertOnFail intentEnabled w
  end.
End Drivers.

(** ** The claim *)

Section Claim.
(** The lease a driver asks for, the control plane's id, its clock at each attempt to acquire,
    the claim's time to live; [claimDraining] once the server shuts down. *)
Context (id leaseID cpID : string) (clock : nat -> Z) (claimTTL : Z) (claimDraining : bool).

Definition maxAcquireRetries : nat := 3.

Fixpoint acquireClaim (n : nat) (k : prog) : prog :=
  match n with
  | O => Return (Err Spawn_busy)
  | S n =>
      Call (Get id) (fun r =>
        match r with
        | Err _ => Return (Err Unknown_spawn)
        | Ok sp =>
            Call (Acquire id cpID leaseID (clock n) (clock n + claimTTL) (StatusSeq sp)) (fun r =>
              match r with
              | Ok _ => k
              | Err ErrConflict => acquireClaim n k
              | Err e => Return (Err (Store_failed e))
              end)
        end)
  end.

(** The deferred release. *)
Definition release (r : result cp_error outcome) : prog :=
  Call (Release id leaseID) (fun _ => Return r).

Definition withClaim (fn : prog) : prog :=
  if claimDraining then Return (Err Shutting_down) else acquireClaim maxAcquireRetries fn.

Definition owned (owner : string) (k : prog) : prog :=
  Call (Get id) (fun r =>
    match r with
    | Err _ => Return (Err Unknown_spawn)
    | Ok sp => if String.eqb (OwnerID sp) owner then k else Return (Err Not_your_spawn)
    end).

Definition SuspendSpawn (owner : string) : prog :=
  owned owner (withClaim (suspendLocked id leaseID Direct release owner false)).

Definition ResumeSpawn (owner : string) (intentEnabled : bool) : prog :=
  owned owner (withClaim (resumeLocked id leaseID Direct release owner "" "" false intentEnabled None)).

(** A SuspendComplete that found no waiter: the row is settled after all, if it is still the
    error the stall left. *)
Definition reconcileLateSuspend (sc : SuspendComplete) : prog :=
  if negb (String.eqb (sc_Error sc) "") then Return (Ok Nothing)
  else
    let gen := i64 (sc_Generation sc) in
    let settle :=
      set_markers id (sc_Markers sc)
        (Call (ReconcileSuspendedAfterError id) (fun _ => release (Ok Nothing))) in
    withClaim
      (Call (Get id) (fun r =>
        match r with
        | Err ErrNotFound => release (Ok Nothing)
        | Err e => release (Err (Store_failed e))
        | Ok sp =>
            if negb (bool_decide (SpawnStatus sp = Errored)) then release (Ok Nothing)
            else
              Call (LatestContainer id) (fun r =>
                match r with
                | Ok (Some ((_, g), _)) => if g =? gen then settle else release (Ok Nothing)
                | _ => settle
                end)
        end)).
End Claim.
