(* ===== verification/TransitionLaws.v ===== *)
(** * Runs of a suspend or resume driver among everything else

    The system around one driver of one spawn: the ledger, the waiters, the replies being
    delivered, the late replies handed to [reconcileLateSuspend].  An event is a step of the
    driver, a message of the node, a timer, or an operation of anyone else on the ledger. *)

From S2P Require Import Prelude GoLib Database SpawnStore SpawnLifecycle SpawnContract Transitions.
Open Scope Z_scope.

Record system := {
  ses : Session Tables;
  suspends : suspendWaiters;
  resumes : resumeWaiters;
  provisioning : provisioningProgress;
  driver : prog;
  (** the waiters the driver registered *)
  waiter : option nat;
  rwaiter : option nat;
  (** what it has told the others, oldest first *)
  actions : list action;
  (** calls of [deliver] between the lookup and the channel *)
  delivering : list (nat * SuspendComplete);
  (** [go reconcileLateSuspend] *)
  late : list SuspendComplete
}.
#[export] Instance eta_system : Eta system :=
  fun s => {| ses := ses s; suspends := suspends s; resumes := resumes s;
              provisioning := provisioning s; driver := driver s; waiter := waiter s;
              rwaiter := rwaiter s; actions := actions s; delivering := delivering s;
              late := late s |}.

Section Runs.
(** The spawn, and how its driver goes on when it is woken. *)
Context (id : string) (woken : select -> wake -> prog).

(** What an action does to the waiters; the router and the scheduler only see it. *)
Definition act (a : action) (s : system) : system :=
  let s := s <| actions ::= (fun l => l ++ [a]) |> in
  match a with
  | Register g =>
      let '(w, wt) := register id g (suspends s) in s <| suspends := w |> <| waiter := Some wt |>
  | Unregister => s <| suspends ::= unregister id |>
  | RegisterResume g =>
      let '(w, wt) := resume_register id g (resumes s) in
      s <| resumes := w |> <| rwaiter := Some wt |>
  | UnregisterResume => s <| resumes ::= resume_unregister id |>
  | ClearProvisioning => s <| provisioning ::= provisioning_clear id |>
  | SuspendOnNode _ _ | DropRoute | StopOnNode | Provision _ _ _ _ | CancelProvision
  | ClearSkillInstalls | RegisterIntent _ _ | CleanupIntent | NoteNodeSecrets | EmitSessionEnd
  | MarkDeliveryPending => s
  end.

(** The driver's waiter. *)
Definition my_waiter (s : system) : option (nat * suspendWaiter) :=
  wt ← waiter s; x ← sw_store (suspends s) !! wt; Some (wt, x).
Definition my_rwaiter (s : system) : option (nat * resumeWaiter) :=
  wt ← rwaiter s; x ← rw_store (resumes s) !! wt; Some (wt, x).
Definition set_waiter (wt : nat) (x : suspendWaiter) (s : system) : system :=
  s <| suspends ::= (fun w => w <| sw_store ::= <[wt := x]> |>) |>.

(** A receive from the waiter's [ch]. *)
Definition receive (s : system) : option (SuspendComplete * system) :=
  '(wt, x) ← my_waiter s;
  sc ← ch x;
  Some (sc, set_waiter wt (x <| ch := None |>) s).

(** A step of the driver that needs no answer. *)
Definition step_driver (s : system) : option system :=
  match driver s with
  | Call m k =>
      let '(r, ses') := m (ses s) in Some (s <| ses := ses' |> <| driver := k r |>)
  | Do a k => Some ((act a s) <| driver := k |>)
  | Poll k =>
      match receive s with
      | Some (sc, s) => Some (s <| driver := k (Some sc) |>)
      | None => Some (s <| driver := k None |>)
      end
  | Markers k =>
      let l := match my_waiter s with
               | Some (_, x) => map_to_list (partialMarkers x)
               | None => []
               end in
      Some (s <| driver := k l |>)
  | Step_key k =>
      let step := match provisioning_get id (provisioning s) with
                  | Some st => key st
                  | None => ""
                  end in
      Some (s <| driver := k step |>)
  | Return _ | Select _ | Ask _ _ | Pick _ _ _ => None
  end.

(** The other wake-ups a select has cases for, with what they take from the channels. *)
Definition step_wake (w : wake) (s : system) : option system :=
  match driver s with
  | Select (Await_suspend g _ as sel) =>
      let go s := Some (s <| driver := woken sel w |>) in
      match w with
      | W_reply _ | W_provision _ => None
      | W_progress =>
          '(wt, x) ← my_waiter s;
          if progressCh x then go (set_waiter wt (x <| progressCh := false |>) s) else None
      | W_stall | W_done _ => go s
      end
  | Select (Await_resume g revert signed _ as sel) =>
      let go s := Some (s <| driver := woken sel w |>) in
      match w with
      | W_progress =>
          '(wt, x) ← my_rwaiter s;
          if rw_progressCh x
          then go (s <| resumes ::= (fun w => w <| rw_store ::= <[wt := x <| rw_progressCh := false |>]> |>) |>)
          else None
      | W_provision _ | W_stall | W_done _ => go s
      | W_reply _ => None
      end
  | _ => None
  end.

Inductive event :=
| Ev_driver
| Ev_answer (ok : bool)
| Ev_pick (node : option string)
(** the select takes the reply in its waiter's channel, or another wake-up *)
| Ev_reply
| Ev_wake (w : wake)
(** the node's SuspendComplete: [deliver] up to its channel, and [deliver]'s send *)
| Ev_deliver (sc : SuspendComplete)
| Ev_send (i : nat)
| Ev_hint (h : SuspendProgressHint)
| Ev_resume_hint (h : ResumeProgressHint)
| Ev_provisioning (spawnID : string) (st : provisionStep)
(** an operation of anyone else on the ledger *)
| Ev_store (top : bool) (op : SpawnOp).

Definition step (ev : event) (s : system) : option system :=
  match ev with
  | Ev_driver => step_driver s
  | Ev_answer ok =>
      match driver s with Ask _ k => Some (s <| driver := k ok |>) | _ => None end
  | Ev_pick node =>
      match driver s with Pick _ _ k => Some (s <| driver := k node |>) | _ => None end
  | Ev_reply =>
      match driver s with
      | Select (Await_suspend _ _ as sel) =>
          '(sc, s) ← receive s; Some (s <| driver := woken sel (W_reply sc) |>)
      | _ => None
      end
  | Ev_wake w => step_wake w s
  | Ev_deliver sc =>
      match deliver_find sc (suspends s) with
      | Some wt => Some (s <| delivering ::= (fun l => l ++ [(wt, sc)]) |>)
      | None => Some (s <| late ::= (fun l => l ++ [sc]) |>)
      end
  | Ev_send i =>
      '(wt, sc) ← delivering s !! i;
      let s := s <| delivering ::= delete i |> in
      match deliver_send wt sc (suspends s) with
      | (w, true) => Some (s <| suspends := w |>)
      | (_, false) => Some (s <| late ::= (fun l => l ++ [sc]) |>)
      end
  | Ev_hint h => Some (s <| suspends ::= (fun w => fst (progress h w)) |>)
  | Ev_resume_hint h => Some (s <| resumes ::= (fun w => fst (resume_progress h w)) |>)
  | Ev_provisioning spawn st => Some (s <| provisioning ::= provisioning_set spawn st |>)
  | Ev_store top op => Some (s <| ses ::= (fun x => snd (run_op top op x)) |>)
  end.

Fixpoint exec (es : list event) (s : system) : option system :=
  match es with
  | [] => Some s
  | ev :: es => match step ev s with Some s => exec es s | None => None end
  end.

Definition start (p : prog) (d : Tables) : system :=
  {| ses := mkSession d []; suspends := newSuspendWaiters; resumes := newResumeWaiters;
     provisioning := newProvisioningProgress; driver := p; waiter := None; rwaiter := None;
     actions := []; delivering := []; late := [] |}.
End Runs.

(** * Reasoning about the drivers under interference

    While a driver holds the claim the others may do anything to the ledger but take the claim
    away or move the row out of a transient status ([rely]): what a lease, the sequence numbers
    and the transient statuses are for.  [wp] is the weakest precondition of a program for a
    store whose statements do not fail; [run_wp] carries it along every run. *)

(** ** Ledgers in a phase *)

(** The row has status [st] and lease [lease], and episode [g] is live. *)
Record phase (id lease : string) (st : Status) (g : Z) (d : Tables) : Prop := {
  ph_wf : ledger_wf d;
  ph_row : exists s, spawns d !! id = Some s /\ SpawnStatus s = st /\ ClaimLeaseID s = Some lease;
  ph_live : live_in d id g
}.
(** The row has status [st] and lease [lease], and no episode is live. *)
Record settled (id : string) (lease : option string) (st : Status) (d : Tables) : Prop := {
  se_wf : ledger_wf d;
  se_row : exists s, spawns d !! id = Some s /\ SpawnStatus s = st /\ ClaimLeaseID s = lease;
  se_idle : forall g, ~ live_in d id g
}.

(** [run_op]s and methods keep ledgers well formed. *)
Lemma wf_run {A} (m : DB A) d : always (keeps ledger_wf) m -> ledger_wf d -> ledger_wf (run m d).2.
Proof. intros Hm. by apply (always_run (keeps ledger_wf)). Qed.

Lemma run_Get id d s :
  spawns d !! id = Some s -> SpawnStatus s <> Deleted -> run (Get id) d = (Ok s, d).
Proof.
  intros Hs Hd. unfold Get. rewrite run_bind by (eauto with sql). unfold query. rewrite run_stmt.
  erewrite (select_where_key _ _ id s); [done| |done|].
  - intros k s'. brefl. tauto.
  - rewrite String.eqb_refl. unfold not_deleted. by rewrite bool_decide_true.
Qed.

(** Whatever [Get] answers is the row. *)
Lemma run_Get_inv id d :
  exists r, run (Get id) d = (r, d) /\
    forall s, r = Ok s -> spawns d !! id = Some s /\ SpawnStatus s <> Deleted.
Proof.
  destruct (spawns d !! id) as [s|] eqn:Hs; [destruct (decide (SpawnStatus s = Deleted)) as [Hd|Hd]|].
  2: { exists (Ok s). rewrite (run_Get _ _ s) by done. split; [done|]. by intros s' [= <-]. }
  all: exists (Err ErrNotFound); split; [|done].
  all: unfold Get; rewrite run_bind by (eauto with sql); unfold query; rewrite run_stmt.
  all: assert (select_where (fun k s => String.eqb k id && not_deleted s) (spawns d) = []) as ->; [|done].
  all: apply select_where_nil; intros k s' Hk; apply Bool.not_true_iff_false; brefl;
    intros [-> Hn]; unfold not_deleted in Hn; brefl; congruence.
Qed.

Lemma phase_get id lease st g d :
  phase id lease st g d -> st <> Deleted ->
  exists s, run (Get id) d = (Ok s, d) /\ spawns d !! id = Some s /\ SpawnStatus s = st /\
    ClaimLeaseID s = Some lease.
Proof.
  intros [_ (s & Hs & <- & Hl) _] Hd. exists s. by rewrite (run_Get _ _ s).
Qed.

Lemma live_generation_phase id lease st g d : phase id lease st g d -> live_generation d id = Some g.
Proof.
  intros [Hwf _ Hl]. destruct (live_generation d id) as [g'|] eqn:Hg.
  - f_equal. apply live_generation_live in Hg. by eapply wf_unique.
  - destruct Hl as (c & Hc & Hl). unfold live_generation in Hg.
    destruct (select_where _ _) eqn:Hr; [|done].
    eapply select_where_nil in Hr; [|exact Hc]. unfold live_of in Hr. cbn in Hr.
    by rewrite String.eqb_refl, Hl in Hr.
Qed.

(** A write of the row alone. *)
Lemma live_in_row d id s k g : live_in (d <| spawns ::= <[id := s]> |>) k g <-> live_in d k g.
Proof. done. Qed.
Lemma wf_row d id s s' :
  ledger_wf d -> spawns d !! id = Some s -> ledger_wf (d <| spawns ::= <[id := s']> |>).
Proof.
  intros Hwf Hs. revert Hwf. apply wf_same; [done|]. intros k Hk. cbn.
  rewrite lookup_insert_is_Some'. auto.
Qed.
Lemma phase_row id lease st st' g d s :
  phase id lease st g d -> SpawnStatus s = st' -> ClaimLeaseID s = Some lease ->
  phase id lease st' g (d <| spawns ::= <[id := s]> |>).
Proof.
  intros [Hwf (s0 & Hs & _) Hl] Hst Hle. split; [by eapply wf_row|exists s; cbn|done].
  by rewrite lookup_insert_eq.
Qed.

Lemma phase_transition id lease st st' g d s :
  phase id lease st g d -> spawns d !! id = Some s -> forall seq,
  run (TransitionClaimed id lease seq g st') d =
    (if StatusSeq s =? seq then Ok (seq + 1) else Err ErrConflict,
     if StatusSeq s =? seq then d <| spawns ::= <[id := bump (set_status st' s)]> |> else d) /\
  (StatusSeq s = seq -> phase id lease st' g (d <| spawns ::= <[id := bump (set_status st' s)]> |>)).
Proof.
  intros Hp Hs seq. destruct (ph_row _ _ _ _ _ Hp) as (s0 & Hs0 & Hst & Hl).
  assert (s0 = s) as -> by congruence. split.
  - rewrite run_TransitionClaimed, Hs, (live_generation_phase _ _ _ _ _ Hp).
    unfold claimed, id_is, opt_eqb. rewrite String.eqb_refl, Hl, !bool_decide_true by done. cbn.
    by destruct (StatusSeq s =? seq).
  - intros _. by eapply phase_row.
Qed.

(** Ending the spawn's live episode. *)
Lemma settled_end id lease d s p ts :
  ledger_wf d -> is_Some (spawns d !! id) -> ClaimLeaseID s = lease ->
  settled id lease (SpawnStatus s)
    (d <| spawns ::= <[id := s]> |>
       <| spawn_containers ::= update_where (live_of id) (end_episode p ts) |>).
Proof.
  intros Hwf [s0 Hs0] Hl. split.
  - revert Hwf. apply wf_mono; cbn.
    + intros k Hk. rewrite lookup_insert_is_Some'. auto.
    + intros k c'. rewrite lookup_update_where. destruct (spawn_containers d !! k) as [c|]; [|done].
      intros [= <-]. exists c. split; [done|]. by destruct (live_of id k c).
  - exists s. cbn. by rewrite lookup_insert_eq.
  - exact (proj1 (wf_ended (d <| spawns ::= <[id := s]> |>) id (end_episode p ts) (fun _ => eq_refl))).
Qed.

Lemma run_guarded_end id from set p d s :
  spawns d !! id = Some s -> status_in from s = true ->
  (forall s, LastUsedAt (set s) = LastUsedAt s) ->
  run (guardStatus id from set;; ts ← lastUsedTS id; endLiveContainer id p ts) d =
  (Ok tt, d <| spawns ::= <[id := set (bump s)]> |>
            <| spawn_containers ::= update_where (live_of id) (end_episode p (LastUsedAt s)) |>).
Proof.
  intros Hs Hf Hset. rewrite run_bind by (unfold guardStatus; eauto 20 with sql).
  rewrite run_guardStatus, Hs, Hf. rewrite run_bind by (unfold lastUsedTS; eauto 20 with sql).
  rewrite run_lastUsedTS. cbn [spawns]. cbn. rewrite lookup_insert_eq, Hset. done.
Qed.

Lemma run_SetError id step detail d lease s :
  ledger_wf d -> spawns d !! id = Some s -> ClaimLeaseID s = lease ->
  SpawnStatus s ∈ [Starting; Active; Suspending; Resuming; Unreachable] ->
  exists d', run (SetError id step detail) d = (Ok tt, d') /\ settled id lease Errored d'.
Proof.
  intros Hwf Hs Hl Hst. unfold SetError. rewrite (run_guarded_end _ _ _ _ _ s); [|done| |done].
  - eexists. split; [done|].
    pose (s' := set_status Errored (bump s) <| ErrorStep := step |>
             <| ErrorDetail := truncateDetail detail |>).
    exact (settled_end id lease d s' _ _ Hwf (mk_is_Some _ _ Hs) Hl).
  - unfold status_in. by rewrite bool_decide_true.
Qed.

Lemma run_guardGen_phase {A} id lease st g d (m : DB A) :
  phase id lease st g d -> run (guardContainerGen id g;; m) d = run m d.
Proof.
  intros [_ _ (c & Hc & Hl)]. rewrite run_bind by (unfold guardContainerGen, query; eauto 20 with sql).
  by rewrite run_guardContainerGen, Hc, Hl.
Qed.

Lemma run_SetSuspended id lease g d :
  phase id lease Suspending g d ->
  exists d', run (SetSuspended id g) d = (Ok tt, d') /\ settled id (Some lease) Suspended d'.
Proof.
  intros Hp. destruct (ph_row _ _ _ _ _ Hp) as (s & Hs & Hst & Hl).
  unfold SetSuspended. rewrite (run_guardGen_phase _ _ _ _ _ _ Hp), (run_guarded_end _ _ _ _ _ s); [|done| |done].
  - eexists. split; [done|].
    exact (settled_end id _ d (set_suspended (bump s)) _ _ (ph_wf _ _ _ _ _ Hp) (mk_is_Some _ _ Hs) Hl).
  - unfold status_in. rewrite bool_decide_true by (rewrite Hst; set_solver). done.
Qed.

Lemma run_RevertSuspended id lease st g d :
  phase id lease st g d -> st ∈ [Starting; Resuming] ->
  exists d', run (RevertSuspended id g) d = (Ok tt, d') /\ settled id (Some lease) Suspended d'.
Proof.
  intros Hp Hin. destruct (ph_row _ _ _ _ _ Hp) as (s & Hs & Hst & Hl).
  unfold RevertSuspended. rewrite (run_guardGen_phase _ _ _ _ _ _ Hp), (run_guarded_end _ _ _ _ _ s); [|done| |done].
  - eexists. split; [done|].
    exact (settled_end id _ d (set_suspended (bump s)) _ _ (ph_wf _ _ _ _ _ Hp) (mk_is_Some _ _ Hs) Hl).
  - unfold status_in. rewrite bool_decide_true by (rewrite Hst; set_solver). done.
Qed.

Lemma run_SetActive id lease st node g d :
  phase id lease st g d -> st ∈ [Starting; Resuming] ->
  exists d', run (SetActive id node g) d = (Ok tt, d') /\ phase id lease Active g d' /\
    exists c, spawn_containers d' !! (id, g) = Some c /\ NodeID c = node.
Proof.
  intros Hp Hin. destruct (ph_row _ _ _ _ _ Hp) as (s & Hs & Hst & Hl).
  destruct (ph_live _ _ _ _ _ Hp) as (c & Hc & Hlive). unfold SetActive.
  rewrite run_bind by (unfold guardStatus; eauto 20 with sql).
  rewrite run_guardStatus, Hs. unfold status_in. rewrite bool_decide_true by (rewrite Hst; set_solver).
  rewrite run_exec_live. cbn. rewrite Hc, Hlive.
  pose proof (phase_row id lease st Active g d (set_status Active (bump s)) Hp eq_refl Hl) as [Hwf Hrow _].
  eexists. split; [done|]. split; [split; [|exact Hrow|]|].
  - revert Hwf. apply wf_mono; [done|]. cbn. intros k c' [[<- <-]|[_ Hk]]%lookup_insert_Some; eauto.
  - eexists. cbn. rewrite lookup_insert_eq. done.
  - eexists. cbn. by rewrite lookup_insert_eq.
Qed.

(** Writes of the row that leave its status and claim alone. *)
Lemma phase_exec_row id lease st g d (p : string -> Spawn -> bool) f :
  phase id lease st g d ->
  (forall s, SpawnStatus (f s) = SpawnStatus s /\ ClaimLeaseID (f s) = ClaimLeaseID s) ->
  phase id lease st g (d <| spawns ::= update_where p f |>).
Proof.
  intros [Hwf (s & Hs & Hst & Hl) Hlive] Hf. split; [|exists (if p id s then f s else s)|done].
  - revert Hwf. apply wf_same; [done|]. intros k. cbn. rewrite lookup_update_where. by intros [x ->].
  - cbn. rewrite lookup_update_where, Hs. split; [done|]. destruct (Hf s). destruct (p id s); split; congruence.
Qed.

Lemma run_MarkModelApplied id lease st g d :
  phase id lease st g d ->
  exists d', run (MarkModelApplied id) d = (Ok tt, d') /\ phase id lease st g d' /\
    spawn_containers d' = spawn_containers d.
Proof.
  intros Hp. unfold MarkModelApplied. rewrite run_bind by (unfold exec_spawns; eauto 20 with sql).
  unfold exec_spawns. rewrite run_stmt. eexists. split; [done|]. split; [|done].
  by apply phase_exec_row.
Qed.

Lemma run_SetMountMarker id lease st g name marker d :
  phase id lease st g d ->
  exists d', run (SetMountMarker id name marker) d = (Ok tt, d') /\ phase id lease st g d'.
Proof.
  intros [Hwf Hrow Hlive]. unfold SetMountMarker.
  rewrite run_bind by (unfold exec_mounts; eauto 20 with sql). unfold exec_mounts. rewrite run_stmt.
  eexists. split; [done|]. split; [|done|done]. revert Hwf. by apply wf_same.
Qed.

(** Releasing the claim. *)
Lemma run_Release id lease d s :
  spawns d !! id = Some s -> ClaimLeaseID s = Some lease ->
  run (Release id lease) d = (Ok tt, d <| spawns ::= <[id := bump (clear_claim s)]> |>).
Proof.
  intros Hs Hl. unfold Release. rewrite (run_exec_id _ _ _ id) by pin_key.
  rewrite Hs. unfold id_is, opt_eqb. rewrite String.eqb_refl, bool_decide_true by done. done.
Qed.

Lemma run_query {A} (q : Tables -> A) d : run (query q) d = (Ok (q d), d).
Proof. unfold query. by rewrite run_stmt. Qed.

Lemma run_LiveContainer id d :
  run (LiveContainer id) d = (Ok (head (select_where (live_of id) (spawn_containers d))), d).
Proof. unfold LiveContainer. rewrite run_bind by (unfold query; eauto with sql). by rewrite run_query. Qed.
Lemma run_LatestContainer id d : exists o, run (LatestContainer id) d = (Ok o, d).
Proof.
  unfold LatestContainer. rewrite run_bind by (unfold query; eauto with sql). rewrite run_query. eauto.
Qed.
Lemma run_GetMounts id d : exists l, run (GetMounts id) d = (Ok l, d).
Proof.
  unfold GetMounts. rewrite run_bind by (unfold query; eauto with sql). rewrite run_query. eauto.
Qed.

(** Claiming a suspended spawn's next episode. *)
Lemma run_claim id lease d s :
  ledger_wf d -> spawns d !! id = Some s -> ClaimLeaseID s = Some lease ->
  exists r d', run (run_in_tx (ClaimStarting id [Suspended])) d = (r, d') /\
    match r with
    | Ok g => phase id lease Starting g d'
    | Err _ => d' = d
    end.
Proof.
  intros Hwf Hs Hl. rewrite run_tx by (unfold ClaimStarting, insert_container, guardStatus; eauto 20 with sql).
  pose proof (run_ClaimStarting id [Suspended] d s Hwf Hs) as Hr.
  destruct (status_in _ s); rewrite Hr; [|by eexists _, _].
  eexists _, _. split; [done|]. split.
  - pose proof (hoare_ClaimStarting id [Suspended] (mkSession d []) Hwf) as Hw.
    unfold run in Hr. destruct (ClaimStarting id [Suspended] (mkSession d [])) as [[e|a] x]; [done|].
    cbn in Hr. injection Hr as _ Hx. rewrite Hx in Hw. exact Hw.
  - eexists. cbn. rewrite lookup_insert_eq. done.
  - eexists. cbn. rewrite lookup_insert_eq. done.
Qed.

(** ** What the others may do *)

Definition guarded (st : Status) : Prop := st ∈ [Starting; Suspending; Resuming].

Record rely (id lease : string) (d d' : Tables) : Prop := {
  rl_wf : ledger_wf d -> ledger_wf d';
  rl_held s : spawns d !! id = Some s -> ClaimLeaseID s = Some lease ->
    exists s', spawns d' !! id = Some s' /\ ClaimLeaseID s' = Some lease /\
      StatusSeq s <= StatusSeq s' /\
      (StatusSeq s' = StatusSeq s -> SpawnStatus s' = SpawnStatus s) /\
      (guarded (SpawnStatus s) ->
        SpawnStatus s' = SpawnStatus s /\ forall g, live_in d' id g <-> live_in d id g)
}.
#[export] Instance rely_refl id lease : Reflexive (rely id lease).
Proof. intros d. split; [done|]. intros s Hs Hl. exists s. split_and!; done || lia. Qed.
#[export] Instance rely_trans id lease : Transitive (rely id lease).
Proof.
  intros d1 d2 d3 [W1 H1] [W2 H2]. split; [auto|]. intros s Hs Hl.
  destruct (H1 s Hs Hl) as (s2 & Hs2 & Hl2 & Hq2 & He2 & Hg2).
  destruct (H2 s2 Hs2 Hl2) as (s3 & Hs3 & Hl3 & Hq3 & He3 & Hg3).
  exists s3. split_and!; [done|done|lia| |].
  - intros Heq. rewrite He3, He2; lia || done.
  - intros Hg. destruct (Hg2 Hg) as [Ha Hb]. rewrite <- Ha in Hg. destruct (Hg3 Hg) as [Hc Hd].
    split; [congruence|]. intros g. by rewrite Hd.
Qed.

#[export] Instance rely_preorder id lease : PreOrder (rely id lease).
Proof. split; apply _. Qed.

Lemma rely_phase id lease st g d d' :
  rely id lease d d' -> guarded st -> phase id lease st g d -> phase id lease st g d'.
Proof.
  intros [W H] Hg [Hwf (s & Hs & <- & Hl) Hlive].
  destruct (H s Hs Hl) as (s' & Hs' & Hl' & _ & _ & Hk). destruct (Hk Hg) as [Hst Hlv].
  split; [auto|by exists s'|by apply Hlv].
Qed.

Definition held_wf (id lease : string) (d : Tables) : Prop :=
  ledger_wf d /\ exists s, spawns d !! id = Some s /\ ClaimLeaseID s = Some lease.
Lemma rely_held id lease d d' : rely id lease d d' -> held_wf id lease d -> held_wf id lease d'.
Proof.
  intros [W H] [Hwf (s & Hs & Hl)]. destruct (H s Hs Hl) as (s' & Hs' & Hl' & _).
  split; [auto|by exists s'].
Qed.
