(* ===== verification/TransitionWp.v ===== *)
(** * The weakest precondition of a driver, carried along its runs *)

From S2P Require Import Prelude GoLib Database SpawnStore SpawnLifecycle.
From S2P Require Import Transitions TransitionLaws.
Open Scope Z_scope.

Lemma faultless_try_op top op : faultless (run_op top op).
Proof.
  assert (forall A (m : DB A), faultless m -> faultless (ignore m)) as Hi
    by (intros A m Hm; unfold ignore; eauto 20 with sql).
  assert (forall id ms, faultless (insert_mounts id ms)) as Hms.
  { intros id ms. induction ms as [|[n m] ms IH]; cbn; unfold insert_mount; eauto 20 with sql. }
  destruct op; cbn [run_op]; try apply Hi; unfold_ops;
    unfold ClaimStarting, MarkForkingLost, MarkDeletedClaimed, insert_container, insert_spawn,
      guardStatus, MarkUnreachable;
    repeat case_match; eauto 20 using faultless_withTx, faultless_check_declared with sql.
Qed.

(** The replies a driver can receive: of its own spawn, and of a generation it registered. *)
Definition own_reply (id : string) (acts : list action) (sc : SuspendComplete) : Prop :=
  sc_SpawnId sc = id /\ Register (sc_Generation sc) ∈ acts.

Section Wp.
(** The spawn, how its driver goes on when woken, and what the others may do to the ledger. *)
Context (id : string) (woken : select -> wake -> prog) (R : Tables -> Tables -> Prop) `{!PreOrder R}.
(** What its run has gone through: where its driver had written the ledger [d] last, and what it
    was about to do. *)
Context (V : prog -> Tables -> Prop).
(** What holds when the driver waits, and when it returns: of the ledger as its last write left
    it, and of what it has told the others. *)
Context (J : select -> Tables -> list action -> Prop).
Context (Q : result cp_error outcome -> Tables -> list action -> Prop).

Fixpoint wp (p : prog) (d : Tables) (acts : list action) : Prop :=
  match p with
  | Return r => V p d -> Q r d acts
  | Select s => V p d -> J s d acts
  | Call m k => V p d ->
      faultless m /\
      forall d1, R d d1 -> wp (k (run m d1).1) (run m d1).2 acts
  | Ask _ k => forall b, wp (k b) d acts
  | Pick _ _ k => forall o, wp (k o) d acts
  | Do a k => wp k d (acts ++ [a])
  | Poll k => wp (k None) d acts /\ forall sc, own_reply id acts sc -> wp (k (Some sc)) d acts
  | Markers k => forall l, wp (k l) d acts
  | Step_key k => forall step, wp (k step) d acts
  end.

(** The run goes through the ledger a driver has written before it goes on. *)
Lemma wp_visited p d acts : (forall p', V p' d -> wp p d acts) -> wp p d acts.
Proof.
  revert d acts. induction p as [r|sel|A m k IH|what k IH|n c k IH|a k IH|k IH|k IH|k IH]; cbn; intros d acts Hp;
    try (by intros Hv; apply (Hp _ Hv)).
  - intros b. apply IH. intros p' Hv. by apply (Hp p').
  - intros o. apply IH. intros p' Hv. by apply (Hp p').
  - apply IH. intros p' Hv. by apply (Hp p').
  - split; [apply IH; intros p' Hv; by apply (Hp p')|]. intros sc Hsc. apply IH. intros p' Hv. by apply (Hp p').
  - intros l. apply IH. intros p' Hv. by apply (Hp p').
  - intros step. apply IH. intros p' Hv. by apply (Hp p').
Qed.

(** What the wake-ups of a select must establish. *)
Definition wakes_ok : Prop := forall s w d acts,
  J s d acts ->
  match w with W_reply sc => own_reply id acts sc | _ => True end ->
  wp (woken s w) d acts.

(** *** Runs *)

(** Waiters hold replies of their own generation, and a generation that was registered. *)
Record waiters_ok (s : system) : Prop := {
  wo_map k n : sw_m (suspends s) !! k = Some n -> k = id;
  wo_gen n x : sw_store (suspends s) !! n = Some x -> Register (gen x) ∈ actions s;
  wo_ch n x sc : sw_store (suspends s) !! n = Some x -> ch x = Some sc ->
    sc_SpawnId sc = id /\ sc_Generation sc = gen x;
  wo_deliver n sc : (n, sc) ∈ delivering s -> sc_SpawnId sc = id /\
    exists x, sw_store (suspends s) !! n = Some x /\ gen x = sc_Generation sc
}.

(** One step of the system in which the others keep the rely condition; [rests] when it is not a
    call of the driver to the store. *)
Definition move (s s' : system) : Prop :=
  exists ev, step id woken ev s = Some s' /\
    (forall top op, ev = Ev_store top op -> R (tables (ses s)) (tables (ses s'))).
Definition rests (s s' : system) : Prop :=
  exists ev, step id woken ev s = Some s' /\
    (forall top op, ev = Ev_store top op -> R (tables (ses s)) (tables (ses s'))) /\
    match driver s with Call _ _ => ev <> Ev_driver | _ => True end.

(** Every run of the system in which the others keep the rely condition. *)
Inductive runs (p : prog) (d : Tables) : system -> Prop :=
| runs_start : runs p d (start p d)
| runs_step ev s s' : runs p d s -> step id woken ev s = Some s' ->
    (forall top op, ev = Ev_store top op -> R (tables (ses s)) (tables (ses s'))) ->
    runs p d s'.

(** The run of [p] from [d] to [s] came through the ledger [dm], and then, with no further call
    of the driver to the store, to where the driver was to do [p']. *)
Definition visited (p : prog) (d : Tables) (s : system) (p' : prog) (dm : Tables) : Prop :=
  exists s0 s1, runs p d s0 /\ tables (ses s0) = dm /\ rtc rests s0 s1 /\ driver s1 = p' /\ rtc move s1 s.

(** What holds in the middle of a run, where [L] are the ledgers its driver may have written
    last. *)
Record system_ok (L : Tables -> Prop) (s : system) : Prop := {
  so_faults : faults (ses s) = [];
  so_waiters : waiters_ok s;
  so_wp : exists d, L d /\ R d (tables (ses s)) /\ wp (driver s) d (actions s)
}.

Lemma start_ok (L : Tables -> Prop) p d : L d -> wp p d [] -> system_ok L (start p d).
Proof.
  intros Hl Hp. split; [done| |by exists d].
  split; cbn; intros *; rewrite ?lookup_nil, ?lookup_empty; try done. by intros ?%elem_of_nil.
Qed.

(** A step that leaves the waiters alone. *)
Lemma waiters_same s s' :
  waiters_ok s -> suspends s' = suspends s -> delivering s' = delivering s ->
  (forall a, a ∈ actions s -> a ∈ actions s') -> waiters_ok s'.
Proof.
  intros [H1 H2 H3 H4] E1 E2 E3.
  split; rewrite ?E1, ?E2; auto. intros n x Hn. apply E3. by eapply H2.
Qed.

(** A waiter that is changed keeps its generation and holds at most replies of it. *)
Lemma waiters_set n x y s s' :
  waiters_ok s -> sw_store (suspends s) !! n = Some x ->
  suspends s' = (suspends s) <| sw_store ::= <[n := y]> |> ->
  delivering s' ⊆ delivering s -> actions s' = actions s ->
  gen y = gen x ->
  (forall sc, ch y = Some sc -> sc_SpawnId sc = id /\ sc_Generation sc = gen x) -> waiters_ok s'.
Proof.
  intros [H1 H2 H3 H4] Hn E1 E2 E3 Hg Hc.
  assert (forall m z, sw_store (suspends s') !! m = Some z ->
    exists z', sw_store (suspends s) !! m = Some z' /\ gen z = gen z' /\
      forall sc, ch z = Some sc -> sc_SpawnId sc = id /\ sc_Generation sc = gen z') as Hz.
  { intros m z. rewrite E1. cbn. intros [(<- & <- & _)|[_ Hm]]%list_lookup_insert_Some.
    - by exists x.
    - exists z. split_and!; [done|done|]. intros sc Hsc. by eapply H3. }
  split.
  - intros k m. rewrite E1. apply H1.
  - intros m z (z' & Hz' & -> & _)%Hz. rewrite E3. by eapply H2.
  - intros m z sc (z' & Hz' & -> & Hsc)%Hz. apply Hsc.
  - intros m sc Hm. destruct (H4 m sc (E2 _ Hm)) as [Hid (z & Hz' & Hg')]. split; [done|].
    rewrite E1. cbn. destruct (decide (n = m)) as [<-|Hne].
    + exists y. rewrite list_lookup_insert_eq by (by eapply lookup_lt_Some).
      split; [done|]. congruence.
    + exists z. by rewrite list_lookup_insert_ne.
Qed.

Lemma receive_spec s sc s' :
  waiters_ok s -> receive s = Some (sc, s') ->
  own_reply id (actions s) sc /\ waiters_ok s' /\ ses s' = ses s /\ actions s' = actions s /\
  driver s' = driver s.
Proof.
  unfold receive, my_waiter. intros Hw.
  destruct (waiter s) as [n|]; [|done]. cbn.
  destruct (sw_store (suspends s) !! n) as [x|] eqn:Hn; [|done]. cbn.
  destruct (ch x) as [sc'|] eqn:Hc; [|done]. cbn. intros [= -> <-].
  destruct (wo_ch _ Hw _ _ _ Hn Hc) as [Hid Hg].
  split_and!; try done.
  - split; [done|]. rewrite Hg. by eapply wo_gen.
  - by eapply (waiters_set n x).
Qed.

Lemma find_spec sc n s :
  waiters_ok s -> deliver_find sc (suspends s) = Some n ->
  sc_SpawnId sc = id /\ exists x, sw_store (suspends s) !! n = Some x /\ gen x = sc_Generation sc.
Proof.
  unfold deliver_find. intros Hw. destruct (sw_m (suspends s) !! _) as [m|] eqn:Hm; [|done]. cbn.
  destruct (sw_store (suspends s) !! m) as [x|] eqn:Hx; [|done]. cbn.
  destruct (Z.eqb_spec (gen x) (sc_Generation sc)) as [Hg|]; [|done]. intros [= <-].
  split; [by eapply wo_map|by exists x].
Qed.

Lemma waiters_send i n sc s s' :
  waiters_ok s -> delivering s !! i = Some (n, sc) ->
  step id woken (Ev_send i) s = Some s' ->
  waiters_ok s' /\ ses s' = ses s /\ actions s' = actions s /\ driver s' = driver s.
Proof.
  intros Hw Hi. unfold step. rewrite Hi. cbn.
  assert (delete i (delivering s) ⊆ delivering s) as Hsub.
  { intros x. rewrite !list_elem_of_lookup. intros [j Hj].
    destruct (decide (j < i)%nat); [rewrite list_lookup_delete_lt in Hj by done|
      rewrite list_lookup_delete_ge in Hj by lia]; eauto. }
  unfold deliver_send. destruct (sw_store (suspends s) !! n) as [x|] eqn:Hn.
  - destruct (ch x) eqn:Hc; intros [= <-].
    + split; [|done]. destruct Hw as [H1 H2 H3 H4]. split; cbn; auto.
    + split; [|done]. apply (waiters_set n x (x <| ch := Some sc |>) s); try done.
      intros sc' [= <-]. destruct (wo_deliver _ Hw n sc) as [Hid (x' & Hx' & Hg)].
      { by eapply list_elem_of_lookup_2. }
      split; [done|]. congruence.
  - intros [= <-]. split; [|done]. destruct Hw as [H1 H2 H3 H4]. split; cbn; auto.
Qed.

Lemma waiters_hint h s :
  waiters_ok s -> waiters_ok (s <| suspends ::= (fun w => fst (progress h w)) |>).
Proof.
  intros Hw. assert (fst (progress h (suspends s)) = suspends s \/
    exists n x, sw_store (suspends s) !! n = Some x /\
      fst (progress h (suspends s)) = (suspends s) <| sw_store ::= <[n := progressed h x]> |>) as Hp.
  { unfold progress. destruct (sw_m (suspends s) !! _) as [n|]; [|by left].
    destruct (sw_store (suspends s) !! n) as [x|] eqn:Hn; [|by left].
    destruct (negb _); [by left|right]. by exists n, x. }
  destruct Hp as [Hp|(n & x & Hn & Hp)]; [by eapply waiters_same|].
  apply (waiters_set n x (progressed h x) s); try done.
  - unfold progressed. by case_match.
  - unfold progressed. intros sc Hsc. eapply (wo_ch _ Hw n x); [done|]. by case_match.
Qed.

(** What an action does to the waiters. *)
Lemma waiters_act a s : waiters_ok s -> waiters_ok (act id a s).
Proof.
  intros Hw. assert (forall x : action, x ∈ actions s -> x ∈ actions s ++ [a]) as Hin.
  { intros x Hx. apply elem_of_app. by left. }
  destruct a; try (eapply waiters_same; try exact Hw; done).
  - destruct Hw as [H1 H2 H3 H4]. split; cbn.
    + intros k n. intros [[<- _]|[_ Hk]]%lookup_insert_Some; [done|]. by eapply H1.
    + intros n x [Hx|[_ Hx]]%lookup_app_Some; [apply Hin; by eapply H2|].
      apply list_lookup_singleton_Some in Hx as [_ <-]. apply elem_of_app. right. by left.
    + intros n x sc [Hx|[_ Hx]]%lookup_app_Some; [by eapply H3|].
      by apply list_lookup_singleton_Some in Hx as [_ <-].
    + intros n sc Hn. destruct (H4 n sc Hn) as [Hid (x & Hx & Hg)]. split; [done|].
      exists x. by rewrite (lookup_app_l_Some _ _ _ _ Hx).
  - destruct Hw as [H1 H2 H3 H4]. split; cbn; auto.
    + intros k n [_ Hk]%lookup_delete_Some. by eapply H1.
    + intros n x Hn. apply Hin. by eapply H2.
Qed.

(** One step: [L] before it, [L'] after. *)
Section Step.
Context (L L' : Tables -> Prop) (s : system) (HL : forall d, L d -> V (driver s) d).
Context (Hok : system_ok L s).

(** A step that leaves the driver, the ledger and the actions alone. *)
Lemma ok_waiters s' :
  (forall d, L d -> L' d) -> waiters_ok s' -> ses s' = ses s -> driver s' = driver s ->
  actions s' = actions s -> system_ok L' s'.
Proof.
  intros Hk Hw E1 E2 E3. destruct Hok as [Hf _ (d & Hd & Hr & Hwp)].
  split; [congruence|done|]. exists d. rewrite E1, E2, E3. auto.
Qed.

Lemma step_driver_ok s' :
  match driver s with Call _ _ => L' (tables (ses s')) | _ => forall d, L d -> L' d end ->
  step_driver id s = Some s' -> system_ok L' s'.
Proof.
  intros Hk. destruct Hok as [Hf Hw (d & Hld & Hd & Hwp)]. specialize (HL d Hld). revert Hk. unfold step_driver.
  destruct (driver s) as [r|sel|A m k|what k|n c k|a k|k|k|k] eqn:Hdr; cbn in Hwp; try done.
  - destruct (Hwp HL) as [Hm Hk]. specialize (Hk _ Hd). specialize (Hm (tables (ses s))).
    destruct (m (ses s)) as [r ses'] eqn:Hr. intros Hl' [= <-]. cbn in Hl'.
    assert (ses s = mkSession (tables (ses s)) []) as Hs by (destruct (ses s); cbn in *; by subst).
    rewrite Hs in Hr. unfold run in Hk. rewrite Hr in Hk, Hm. cbn in *.
    split; [done|by eapply waiters_same|]. by exists (tables ses').
  - intros Hk [= <-]. assert (waiters_ok (act id a s)) as Ha by (by apply waiters_act).
    assert (ses (act id a s) = ses s /\ actions (act id a s) = actions s ++ [a]) as [E1 E2]
      by (by destruct a).
    generalize dependent (act id a s). intros s1 Ha E1 E2.
    split; cbn; [by rewrite E1|by eapply waiters_same|]. exists d. rewrite E1, E2. auto.
  - intros Hk. destruct Hwp as [Hnone Hsome]. destruct (receive s) as [[sc s1]|] eqn:Hr; intros [= <-].
    + destruct (receive_spec _ _ _ Hw Hr) as (Ho & Hw1 & E1 & E2 & _).
      split; cbn; [by rewrite E1|by eapply waiters_same|]. exists d. rewrite E1, E2. auto.
    + split; cbn; [done|by eapply waiters_same|]. exists d. auto.
  - intros Hk [= <-]. split; cbn; [done|by eapply waiters_same|]. exists d. auto.
  - intros Hk [= <-]. split; cbn; [done|by eapply waiters_same|]. exists d. auto.
Qed.

Lemma ok_woken sel w s1 :
  (forall d, L d -> L' d) -> wakes_ok -> driver s = Select sel ->
  match w with W_reply sc => own_reply id (actions s) sc | _ => True end ->
  waiters_ok s1 -> ses s1 = ses s -> actions s1 = actions s ->
  system_ok L' (s1 <| driver := woken sel w |>).
Proof.
  intros Hk Hwk Hdr Ho Hw1 E1 E2. destruct Hok as [Hf Hw (d & Hld & Hd & Hwp)]. specialize (HL d Hld).
  rewrite Hdr in Hwp, HL. cbn in Hwp.
  split; cbn; [by rewrite E1|by apply (waiters_same s1)|]. exists d. rewrite E1, E2.
  split_and!; [auto|done|]. apply Hwk; [by apply Hwp|done].
Qed.

Lemma step_wake_ok w s' :
  (forall d, L d -> L' d) -> wakes_ok -> step_wake woken w s = Some s' -> system_ok L' s'.
Proof.
  intros Hk Hwk. pose proof (so_waiters _ _ Hok) as Hw. pose proof ok_woken as Hwoken. unfold step_wake.
  destruct (driver s) as [|sel| | | | | | |] eqn:Hdr; try done.
  destruct sel as [g who|g rv sg who], w; try done;
    try (match goal with |- Some (_ <| driver := woken ?sel ?w |>) = _ -> _ =>
           intros [= <-]; exact (Hwoken sel w s Hk Hwk eq_refl I Hw eq_refl eq_refl) end).
  - unfold my_waiter. destruct (waiter s) as [n|]; [|done]. cbn.
    destruct (sw_store (suspends s) !! n) as [x|] eqn:Hn; [|done]. cbn.
    destruct (progressCh x); [|done]. intros [= <-].
    refine (Hwoken (Await_suspend g who) W_progress
             (set_waiter n (x <| progressCh := false |>) s) Hk Hwk eq_refl I _ eq_refl eq_refl).
    apply (waiters_set n x (x <| progressCh := false |>) s); try done.
    intros sc Hsc. by eapply (wo_ch _ Hw).
  - unfold my_rwaiter. destruct (rwaiter s) as [n|]; [|done]. cbn.
    destruct (rw_store (resumes s) !! n) as [x|] eqn:Hn; [|done]. cbn.
    destruct (rw_progressCh x); [|done]. intros [= <-].
    assert (waiters_ok (s <| resumes ::= (fun w =>
      w <| rw_store ::= <[n := x <| rw_progressCh := false |>]> |>) |>)) as Hw1
      by (by eapply waiters_same).
    pose proof (Hwoken (Await_resume g rv sg who) W_progress _ Hk Hwk eq_refl I Hw1 eq_refl eq_refl) as Hx.
    exact Hx.
Qed.

Lemma step_ok ev s' :
  match driver s, ev with Call _ _, Ev_driver => L' (tables (ses s')) | _, _ => forall d, L d -> L' d end ->
  wakes_ok -> step id woken ev s = Some s' ->
  (forall top op, ev = Ev_store top op -> R (tables (ses s)) (tables (ses s'))) ->
  system_ok L' s'.
Proof.
  intros Hk Hwk Hs Hr. pose proof (so_waiters _ _ Hok) as Hw. pose proof ok_woken as Hwoken.
  pose proof ok_waiters as Hwaiters. pose proof step_driver_ok as Hdriver. pose proof step_wake_ok as Hwakes.
  assert (ev <> Ev_driver -> forall d, L d -> L' d) as Hk' by (intros Hne; revert Hk; destruct (driver s), ev; auto; congruence).
  destruct ev as [|ok|o| |w|sc|i|h|h|spawn st|top op]; cbn [step] in Hs;
    try (specialize (Hk' ltac:(done))).
  - apply Hdriver; [|done]. revert Hk. destruct (driver s); auto.
  - destruct Hok as [Hf _ (d & Hld & Hd & Hwp)]. destruct (driver s) eqn:Hdr; try done.
    injection Hs as <-. split; cbn; [done|by eapply waiters_same|]. exists d. auto.
  - destruct Hok as [Hf _ (d & Hld & Hd & Hwp)]. destruct (driver s) eqn:Hdr; try done.
    injection Hs as <-. split; cbn; [done|by eapply waiters_same|]. exists d. auto.
  - destruct (driver s) as [|sel| | | | | | |] eqn:Hdr; try done. destruct sel as [g who|]; [|done].
    destruct (receive s) as [[sc s1]|] eqn:Hrc; [|done]. cbn in Hs. injection Hs as <-.
    destruct (receive_spec _ _ _ Hw Hrc) as (Ho & Hw1 & E1 & E2 & _).
    exact (Hwoken (Await_suspend g who) (W_reply sc) s1 Hk' Hwk eq_refl Ho Hw1 E1 E2).
  - by eapply Hwakes.
  - destruct (deliver_find sc (suspends s)) as [n|] eqn:Hf; injection Hs as <-.
    + apply Hwaiters; try done. destruct Hw as [H1 H2 H3 H4].
      split; cbn; auto. intros m sc' [Hin|Hin%list_elem_of_singleton]%elem_of_app; [auto|].
      injection Hin as -> ->. by apply find_spec.
    + apply Hwaiters; try done. by eapply waiters_same.
  - destruct (delivering s !! i) as [[n sc]|] eqn:Hi; [|done].
    destruct (waiters_send i n sc s s' Hw Hi) as (Hw1 & E1 & E2 & E3).
    { cbn. by rewrite Hi. }
    by apply Hwaiters.
  - injection Hs as <-. apply Hwaiters; try done. by apply waiters_hint.
  - injection Hs as <-. apply Hwaiters; try done. by eapply waiters_same.
  - injection Hs as <-. apply Hwaiters; try done. by eapply waiters_same.
  - specialize (Hr top op eq_refl). injection Hs as <-. destruct Hok as [Hf _ (d & Hld & Hd & Hwp)].
    split; [|by eapply waiters_same|].
    + cbn. pose proof (faultless_try_op top op (tables (ses s))) as Hfl.
      replace (mkSession (tables (ses s)) []) with (ses s) in Hfl by (destruct (ses s); cbn in *; by subst).
      done.
    + exists d. split_and!; [auto|by etransitivity|done].
Qed.
End Step.

(** The ledgers the driver may have written last when a run of [p] from [d] is in [s]. *)
Definition last_written (p : prog) (d : Tables) (s : system) (dm : Tables) : Prop :=
  exists s0, runs p d s0 /\ tables (ses s0) = dm /\ rtc rests s0 s.

Lemma runs_ok p d s s' :
  (forall p' dm, visited p d s' p' dm -> V p' dm) -> wakes_ok -> wp p d [] -> runs p d s -> rtc move s s' ->
  system_ok (last_written p d s) s.
Proof.
  intros Hv Hwk Hp Hr. induction Hr as [|ev s1 s2 Hr IH Hs Hrl]; intros Hl.
  - apply start_ok; [|done]. exists (start p d). split_and!; [constructor|done|done].
  - assert (rtc move s1 s') as Hl1 by (eapply rtc_l; [by exists ev|done]).
    eapply (step_ok (last_written p d s1) _ s1); [|by apply IH| |done|exact Hs|exact Hrl].
    + intros dm (s0 & Hs0 & Hdm & Hrest). apply Hv. exists s0, s1. by split_and!.
    + assert (match driver s1 with Call _ _ => ev <> Ev_driver | _ => True end ->
        forall dm, last_written p d s1 dm -> last_written p d s2 dm) as Hrest.
      { intros Hne dm (s0 & Hs0 & Hdm & Hrest). exists s0. split_and!; [done..|].
        eapply rtc_r; [done|]. by exists ev. }
      assert (last_written p d s2 (tables (ses s2))) as Hlast.
      { exists s2. split_and!; [by eapply runs_step|done|done]. }
      destruct (driver s1), ev; first [done|by apply Hrest].
Qed.

(** The postcondition holds of every run that has returned, against a ledger of the run. *)
Lemma run_wp p d s r :
  (forall p' dm, visited p d s p' dm -> V p' dm) -> wakes_ok -> wp p d [] -> runs p d s -> driver s = Return r ->
  exists d1, R d1 (tables (ses s)) /\ Q r d1 (actions s).
Proof.
  intros Hv Hwk Hp Hr Hret.
  destruct (runs_ok p d s s Hv Hwk Hp Hr) as [_ _ (d1 & Hld & Hd & Hw)]; [done|].
  exists d1. rewrite Hret in Hw. split; [done|]. apply Hw, Hv.
  destruct Hld as (s0 & Hs0 & Hdm & Hrest). exists s0, s. by split_and!.
Qed.
End Wp.

(** ** The store's methods do not fail by themselves *)

Lemma faultless_Get id : faultless (Get id).
Proof. unfold Get, query. apply faultless_bind; [eauto with sql|]. intros [|[k s] l]; eauto with sql. Qed.
Lemma faultless_rows id :
  faultless (LiveContainer id) /\ faultless (LatestContainer id) /\ faultless (GetMounts id).
Proof. unfold LiveContainer, LatestContainer, GetMounts, query. split_and!; eauto with sql. Qed.
Lemma faultless_TransitionClaimed id lease seq gen to : faultless (TransitionClaimed id lease seq gen to).
Proof. unfold TransitionClaimed. eauto with sql. Qed.
Lemma faultless_Acquire id h l n dl s : faultless (Acquire id h l n dl s).
Proof. unfold Acquire. eauto with sql. Qed.
Lemma faultless_claim id : faultless (run_in_tx (ClaimStarting id [Suspended])).
Proof. unfold ClaimStarting, insert_container, guardStatus. eauto 20 with sql. Qed.
Definition faultless_op op := faultless_try_op true op.

#[export] Hint Resolve faultless_Get faultless_TransitionClaimed faultless_Acquire faultless_claim : sql.
#[export] Hint Extern 4 (faultless (LiveContainer _)) => apply faultless_rows : sql.
#[export] Hint Extern 4 (faultless (LatestContainer _)) => apply faultless_rows : sql.
#[export] Hint Extern 4 (faultless (GetMounts _)) => apply faultless_rows : sql.
#[export] Hint Extern 4 (faultless (SetMountMarker ?i ?n ?m)) => exact (faultless_op (OpSetMountMarker i n m)) : sql.
#[export] Hint Extern 4 (faultless (SetError ?i ?s ?t)) => exact (faultless_op (OpSetError i s t)) : sql.
#[export] Hint Extern 4 (faultless (SetSuspended ?i ?g)) => exact (faultless_op (OpSetSuspended i g)) : sql.
#[export] Hint Extern 4 (faultless (RevertSuspended ?i ?g)) => exact (faultless_op (OpRevertSuspended i g)) : sql.
#[export] Hint Extern 4 (faultless (SetActive ?i ?n ?g)) => exact (faultless_op (OpSetActive i n g)) : sql.
#[export] Hint Extern 4 (faultless (MarkModelApplied ?i)) => exact (faultless_op (OpMarkModelApplied i)) : sql.
#[export] Hint Extern 4 (faultless (Release ?i ?l)) => exact (faultless_op (OpRelease i l)) : sql.
#[export] Hint Extern 4 (faultless (ReconcileSuspendedAfterError ?i)) =>
  exact (faultless_op (OpReconcileSuspendedAfterError i)) : sql.
