(* ===== verification/TransitionRules.v ===== *)
(** * The rules of the drivers: what each part of a suspend or a resume establishes

    For whatever caller: [ret] is how it goes on, [R] what the others may do, [J] what must hold
    where a driver waits and [Q] where it ends.  The handlers and the migration instantiate
    them. *)

From S2P Require Import Prelude GoLib Database SpawnStore SpawnLifecycle SpawnContract.
From S2P Require Import Transitions TransitionLaws TransitionWp.
Open Scope Z_scope.

(** Marking the model applied is one of the writes the rely condition allows. *)
Lemma run_mark_rely id lease d :
  exists d', run (MarkModelApplied id) d = (Ok tt, d') /\ rely id lease d d'.
Proof.
  unfold MarkModelApplied. rewrite run_bind by (unfold exec_spawns; eauto 20 with sql).
  unfold exec_spawns. rewrite run_stmt. eexists. split; [done|]. split.
  - apply wf_same; [done|]. intros k. cbn. rewrite lookup_update_where. by intros [x ->].
  - intros s Hs Hl. eexists. cbn. rewrite lookup_update_where, Hs. cbn. split; [done|].
    by destruct (id_is id id); split_and!.
Qed.

(** ** What holds when a driver waits or ends *)

Section Contract.
Context (id lease : string) (who : caller).
(** What the run goes through: a ledger the driver wrote, and what it does next. *)
Context (V : prog -> Tables -> Prop).

Definition suspend_post (r : result cp_error outcome) (d : Tables) (acts : list action) : Prop :=
  match r with
  | Ok (Suspended_with sc) =>
      settled id (Some lease) Suspended d /\ own_reply id acts sc /\ sc_Error sc = "" /\
      DropRoute ∈ acts
  | (Ok _) | (Err (Suspended_not_recorded _)) => False
  | (Err Suspend_stalled) | (Err Suspend_timed_out) =>
      settled id (Some lease) Errored d /\ DropRoute ∈ acts
  | Err (Suspend_refused detail) =>
      detail <> "" /\ (DropRoute ∉ acts) /\
      exists g, phase id lease Active g d \/ phase id lease Suspending g d
  | Err Suspend_cancelled => (DropRoute ∉ acts) /\ exists g, phase id lease Suspending g d
  | Err _ => acts = []
  end.

(** A resume starts where its caller has told [acts0] and the ledger satisfies [P0]; [E0] is what
    the caller learns when it fails before it has claimed an episode. *)
Context (acts0 : list action) (P0 E0 : Tables -> Prop).

(** What was told since leaves the route alone. *)
Definition told (acts : list action) : Prop := exists l, acts = acts0 ++ l /\ DropRoute ∉ l.

Definition resume_post (revertOnFail : bool) (r : result cp_error outcome) (d : Tables)
    (acts : list action) : Prop :=
  match r with
  | Ok (Resumed_on node) =>
      exists g d0, (exists p, V p d0) /\ rely id lease d0 d /\ phase id lease Active g d0 /\ told acts /\
        exists c, spawn_containers d0 !! (id, g) = Some c /\ NodeID c = node
  | (Ok _) | (Err (Active_not_recorded _)) => False
  | Err Resume_cancelled => exists g, phase id lease Resuming g d
  | Err _ =>
      (acts = acts0 /\ E0 d) \/
      settled id (Some lease) (if revertOnFail then Suspended else Errored) d
  end.

(** [kind]: a suspend, or a resume with its [revertOnFail]. *)
Definition waiting (kind : option bool) (s : select) (d : Tables) (acts : list action) : Prop :=
  match s, kind with
  | Await_suspend g who', None => who' = who /\ (DropRoute ∉ acts) /\ phase id lease Suspending g d
  | Await_resume g rv _ who', Some rv' => who' = who /\ told acts /\ rv = rv' /\ phase id lease Resuming g d
  | _, _ => False
  end.

Context (kind : option bool) (ret : result cp_error outcome -> prog) (J : select -> Tables -> list action -> Prop) (Q : result cp_error outcome -> Tables -> list action -> Prop).
Context (R : Tables -> Tables -> Prop) `{!PreOrder R}.
Context (HR : forall d d', R d d' -> rely id lease d d').
Context (HJ : forall sel d acts, waiting kind sel d acts -> J sel d acts).
Context (HP0 : forall d d', R d d' -> P0 d -> P0 d') (HPh : forall d, P0 d -> held_wf id lease d).
Context (HPE : forall d, P0 d -> E0 d).
Abbreviation WP := (wp id R V J Q).

(** A call of the store: what it does to whatever ledger the others have left. *)
Lemma wp_call {A} (m : DB A) k d acts :
  faultless m -> (forall d1, R d d1 -> rely id lease d d1 -> WP (k (run m d1).1) (run m d1).2 acts) ->
  WP (Call m k) d acts.
Proof. intros Hm Hk _. split; [done|]. intros d1 Hd. apply Hk; [done|by apply HR]. Qed.

Lemma wp_do a k d acts : WP k d (acts ++ [a]) -> WP (Do a k) d acts.
Proof. done. Qed.

Ltac call d1 Hd := apply wp_call; [by eauto with sql|intros d1 ?Hi Hd].
Ltac in_guarded := unfold guarded; set_solver.

Lemma set_markers_wp l k st g d acts :
  guarded st -> phase id lease st g d ->
  (forall d', phase id lease st g d' -> WP k d' acts) -> WP (set_markers id l k) d acts.
Proof.
  intros Hg. revert d. induction l as [|[name marker] l IH]; intros d Hp Hk; [by apply Hk|].
  call d1 Hd. pose proof (rely_phase _ _ _ _ _ _ Hd Hg Hp) as Hp1.
  destruct (run_SetMountMarker id lease st g name marker d1 Hp1) as (d' & -> & Hp'). by apply IH.
Qed.

Lemma revert_active_wp n g k d acts :
  phase id lease Suspending g d ->
  (forall d', phase id lease Active g d' \/ phase id lease Suspending g d' -> WP k d' acts) ->
  WP (revert_active id lease n g k) d acts.
Proof.
  assert (guarded Suspending) as Hg by in_guarded.
  revert d. induction n as [|n IH]; intros d Hp Hk; [by apply Hk; right|].
  call d1 Hd. pose proof (rely_phase _ _ _ _ _ _ Hd Hg Hp) as Hp1.
  destruct (phase_get _ _ _ _ _ Hp1) as (s & -> & Hs & _); [done|]. cbn [fst snd].
  call d2 Hd2. pose proof (rely_phase _ _ _ _ _ _ Hd2 Hg Hp1) as Hp2.
  destruct (ph_row _ _ _ _ _ Hp2) as (s2 & Hs2 & _).
  destruct (phase_transition id lease Suspending Active g d2 s2 Hp2 Hs2 (StatusSeq s)) as [-> Hok].
  destruct (Z.eqb_spec (StatusSeq s2) (StatusSeq s)) as [He|He]; cbn [fst snd]; auto.
Qed.

Lemma SetError_wp step detail k st g d acts :
  guarded st -> phase id lease st g d ->
  (forall r d', settled id (Some lease) Errored d' -> WP (k r) d' acts) ->
  WP (Call (SetError id step detail) k) d acts.
Proof.
  intros Hg Hp Hk. call d1 Hd. pose proof (rely_phase _ _ _ _ _ _ Hd Hg Hp) as [Hwf (s & Hs & Hst & Hl) _].
  destruct (run_SetError id step detail d1 (Some lease) s Hwf Hs Hl) as (d' & -> & Hse).
  - rewrite Hst. unfold guarded in Hg. set_solver.
  - by apply Hk.
Qed.

(** *** Suspend *)

Definition returns (post : result cp_error outcome -> Tables -> list action -> Prop) : Prop :=
  forall r d acts, post r d acts -> WP (ret r) d acts.

Lemma guarded_suspending : guarded Suspending.
Proof. in_guarded. Qed.

Lemma handleSuspendReply_wp g sc d acts :
  returns suspend_post -> phase id lease Suspending g d -> own_reply id acts sc ->
  (DropRoute ∉ acts) -> WP (handleSuspendReply id lease ret g sc) d acts.
Proof.
  intros Hret Hp [Hid Hreg] Hnd. unfold handleSuspendReply.
  destruct (String.eqb_spec (sc_Error sc) "") as [He|He]; cbn [negb].
  - apply (set_markers_wp _ _ Suspending g); [apply guarded_suspending|done|]. clear d Hp.
    intros d Hp. apply wp_do. call d1 Hd.
    pose proof (rely_phase _ _ _ _ _ _ Hd guarded_suspending Hp) as Hp1.
    destruct (run_SetSuspended id lease g d1 Hp1) as (d' & -> & Hse). cbn. apply Hret. cbn.
    unfold own_reply. set_solver.
  - apply (revert_active_wp _ g); [done|]. intros d' Hp'. cbn. apply Hret. cbn.
    split_and!; [done|set_solver|by exists g].
Qed.

Lemma suspend_give_up_wp g persist e d acts :
  returns suspend_post -> phase id lease Suspending g d -> DropRoute ∉ acts ->
  e = Suspend_stalled \/ e = Suspend_timed_out ->
  WP (suspend_give_up id lease ret g persist e) d acts.
Proof.
  intros Hret Hp Hnd He. unfold suspend_give_up. apply wp_do.
  assert (forall d, phase id lease Suspending g d ->
    WP (Do DropRoute (Call (SetError id "" "") (fun _ => suspend_return ret (Err e)))) d
      (acts ++ [Unregister])) as Hfail.
  { intros d' Hp'. apply wp_do, (SetError_wp _ _ _ Suspending g); [apply guarded_suspending|done|].
    intros _ d1 Hse. cbn. apply Hret. destruct He as [-> | ->]; cbn; set_solver. }
  split.
  - destruct persist; [|by apply Hfail]. intros l.
    by apply (set_markers_wp _ _ Suspending g); [apply guarded_suspending| |].
  - intros sc [Hid Hreg]. apply handleSuspendReply_wp; try done.
    set_solver.
Qed.

Lemma suspend_select_wp g w d acts :
  kind = None -> returns suspend_post -> waiting kind (Await_suspend g who) d acts ->
  match w with W_reply sc => own_reply id acts sc | _ => True end ->
  WP (suspend_select id lease who ret g w) d acts.
Proof.
  intros Hkind Hret Hp Hw. rewrite Hkind in Hp. destruct Hp as (_ & Hnd & Hp).
  assert (forall d, phase id lease Suspending g d -> WP (Select (Await_suspend g who)) d acts) as Hwait
    by (intros ?? _; apply HJ; by rewrite Hkind).
  destruct w as [sc| |r| |[]]; cbn [suspend_select].
  - by apply handleSuspendReply_wp.
  - intros l. apply (set_markers_wp _ _ Suspending g); [apply guarded_suspending|done|].
    exact Hwait.
  - by apply Hwait.
  - apply suspend_give_up_wp; auto.
  - cbn. apply Hret. cbn. split; [set_solver|by exists g].
  - apply suspend_give_up_wp; auto.
Qed.

(** Returns before the node was asked. *)
Definition early (e : cp_error) : Prop := forall d, suspend_post (Err e) d [].

Lemma suspendLocked_wp owner capture d :
  kind = None -> returns suspend_post -> held_wf id lease d ->
  WP (suspendLocked id lease who ret owner capture) d [].
Proof.
  intros Hkind Hret Hh. unfold suspendLocked. call d1 Hd. pose proof (rely_held _ _ _ _ Hd Hh) as Hh1.
  destruct (run_Get_inv id d1) as (r & -> & Hr). cbn [fst snd].
  destruct r as [e|sp]; [by apply Hret|]. destruct (Hr sp eq_refl) as [Hs _].
  destruct (negb _); [by apply Hret|]. destruct (negb _); [by apply Hret|].
  call d2 Hd2. pose proof (rely_held _ _ _ _ Hd2 Hh1) as Hh2. rewrite run_LiveContainer. cbn [fst snd].
  destruct (head _) as [[[k g] c]|]; [|by apply Hret].
  call d3 Hd3. pose proof (rely_held _ _ _ _ Hd3 Hh2) as [Hwf (s & Hs3 & Hl)].
  rewrite run_TransitionClaimed, Hs3.
  destruct (claimed _ _ _ _ _ && _) eqn:Hc; cbn [fst snd]; [|by apply Hret].
  cbn. intros _. apply HJ. cbn. rewrite Hkind. brefl. destruct Hc as [_ Hg]. unfold opt_eqb in Hg. brefl.
  apply live_generation_live in Hg. split_and!; [done|set_solver|]. split; [by eapply wf_row| |exact Hg].
  eexists. cbn. by rewrite lookup_insert_eq.
Qed.

(** *** Resume *)

Lemma told_nil : told acts0.
Proof. exists []. rewrite app_nil_r. split; [done|]. intros Hx. by apply elem_of_nil in Hx. Qed.
Lemma told_one acts a : told acts -> a <> DropRoute -> told (acts ++ [a]).
Proof. intros (l & -> & Hl) Ha. exists (l ++ [a]). split; [by rewrite app_assoc|].
  intros [?|?%list_elem_of_singleton]%elem_of_app; congruence. Qed.

Lemma failResume_wp g (rv : bool) detail st k d acts :
  phase id lease st g d -> st ∈ [Starting; Resuming] ->
  (forall d' acts', settled id (Some lease) (if rv then Suspended else Errored) d' -> WP k d' acts') ->
  WP (failResume id g rv detail k) d acts.
Proof.
  intros Hp Hin Hk. assert (guarded st) as Hg by (unfold guarded; set_solver).
  destruct rv.
  - do 2 apply wp_do. call d1 Hd. pose proof (rely_phase _ _ _ _ _ _ Hd Hg Hp) as Hp1.
    destruct (run_RevertSuspended id lease st g d1 Hp1 Hin) as (d' & -> & Hse). by apply Hk.
  - intros step. apply (SetError_wp _ _ _ st g); auto.
Qed.

Lemma fail_and_return_wp g rv detail st e d acts :
  returns (resume_post rv) -> phase id lease st g d -> st ∈ [Starting; Resuming] ->
  match e with Active_not_recorded _ | Resume_cancelled => False | _ => True end ->
  WP (fail_and_return id ret g rv detail e) d acts.
Proof.
  intros Hret Hp Hin He. apply (failResume_wp _ _ _ st); [done..|]. intros d' acts' Hse.
  cbn. apply Hret. destruct e; by (cbn; auto).
Qed.

Lemma checks_wp l fail k d acts :
  (forall what, WP (fail what) d acts) -> WP k d acts -> WP (checks l fail k) d acts.
Proof.
  intros Hf Hk. induction l as [|what l IH]; [done|]. cbn. intros [|]; [done|apply Hf].
Qed.

Lemma fail_cleanup_wp g rv b detail st e d acts :
  returns (resume_post rv) -> phase id lease st g d -> st ∈ [Starting; Resuming] ->
  match e with Active_not_recorded _ | Resume_cancelled => False | _ => True end ->
  WP (failResume id g rv detail (resume_cleanup_return ret b (Err e))) d acts.
Proof.
  intros Hret Hp Hin He. apply (failResume_wp _ _ _ st); [done..|]. intros d' acts' Hse.
  destruct b; cbn; apply Hret; destruct e; by (cbn; auto).
Qed.

Lemma signed_placement_wp g rv b n c k d acts :
  returns (resume_post rv) -> phase id lease Resuming g d -> told acts ->
  (forall node acts', told acts' -> WP (k node) d acts') ->
  WP (signed_placement id ret g rv b n c k) d acts.
Proof.
  intros Hret Hp Hd Hk. unfold signed_placement. destruct b; [|by apply Hk].
  assert (Resuming ∈ [Starting; Resuming]) as Hin by set_solver.
  apply checks_wp; [intros what; by apply (fail_and_return_wp _ _ _ Resuming)|].
  intros [node|]; [|by apply (fail_and_return_wp _ _ _ Resuming)]. apply wp_do.
  apply checks_wp; [intros what; by apply (fail_cleanup_wp _ _ _ _ Resuming)|].
  apply Hk. by apply told_one.
Qed.

Lemma early_resume rv e d :
  returns (resume_post rv) -> P0 d ->
  match e with Active_not_recorded _ | Resume_cancelled => False | _ => True end ->
  WP (ret (Err e)) d acts0.
Proof. intros Hret HP He. apply Hret. destruct e; try done; cbn; auto. Qed.

Lemma resume_claim_wp b rv n c rootfs d :
  kind = Some rv -> returns (resume_post rv) -> P0 d ->
  WP (resume_claim id lease who ret b rv n c rootfs) d acts0.
Proof.
  intros Hkind Hret Hh. unfold resume_claim. call d1 Hd.
  pose proof (HP0 _ _ Hi Hh) as HP1. destruct (HPh _ HP1) as [Hwf (s & Hs & Hl)].
  destruct (run_claim id lease d1 s Hwf Hs Hl) as (r & d2 & -> & Hr). cbn [fst snd].
  destruct r as [e|g]; [subst d2; by apply (early_resume rv)|].
  assert (guarded Starting /\ guarded Resuming) as [Hg1 Hg2] by (split; in_guarded).
  call d3 Hd3. pose proof (rely_phase _ _ _ _ _ _ Hd3 Hg1 Hr) as Hp3.
  destruct (phase_get _ _ _ _ _ Hp3) as (s3 & -> & Hs3 & _); [done|]. cbn [fst snd].
  call d4 Hd4. pose proof (rely_phase _ _ _ _ _ _ Hd4 Hg1 Hp3) as Hp4.
  destruct (ph_row _ _ _ _ _ Hp4) as (s4 & Hs4 & _).
  destruct (phase_transition id lease Starting Resuming g d4 s4 Hp4 Hs4 (StatusSeq s3)) as [-> Hok].
  destruct (Z.eqb_spec (StatusSeq s4) (StatusSeq s3)) as [He|He]; cbn [fst snd].
  2: { apply (fail_and_return_wp _ _ _ Starting); auto. set_solver. }
  specialize (Hok He). call d5 Hd5. pose proof (rely_phase _ _ _ _ _ _ Hd5 Hg2 Hok) as Hp5.
  destruct (run_GetMounts id d5) as [l ->]. cbn [fst snd].
  apply signed_placement_wp; [done|done|apply told_one; [exact told_nil|done]|].
  intros node acts' Hacts. cbn. intros _. apply HJ. cbn. rewrite Hkind. split_and!; [done| |done|done].
  do 2 (apply told_one; [|done]). exact Hacts.
Qed.

Lemma resume_placement_wp n c k d acts :
  P0 d ->
  (forall node d', P0 d' -> WP (k node) d' acts) ->
  (forall e d', P0 d' -> WP (ret (Err (Store_failed e))) d' acts) ->
  WP (resume_placement id ret n c k) d acts.
Proof.
  intros Hh Hk He. unfold resume_placement. destruct (_ && _); [|by apply Hk].
  intros [|]; [|by apply Hk]. call d1 Hd. pose proof (HP0 _ _ Hi Hh) as Hh1.
  destruct (run_LatestContainer id d1) as [[[k0 c0]|] ->]; cbn [fst snd]; by apply Hk.
Qed.

Lemma resumeLocked_wp owner n c rv b rootfs d :
  kind = Some rv -> returns (resume_post rv) -> P0 d ->
  WP (resumeLocked id lease who ret owner n c rv b rootfs) d acts0.
Proof.
  intros Hkind Hret Hh. unfold resumeLocked. call d1 Hd. pose proof (HP0 _ _ Hi Hh) as Hh1.
  destruct (run_Get_inv id d1) as (r & -> & Hr). cbn [fst snd].
  destruct r as [e|sp]; [by apply (early_resume rv)|].
  destruct (negb _); [by apply (early_resume rv)|]. destruct (negb _); [by apply (early_resume rv)|].
  apply checks_wp; [intros what; by apply (early_resume rv)|].
  apply resume_placement_wp; [done| |intros e d' Hh'; by apply (early_resume rv)].
  intros node d' Hh'. by apply resume_claim_wp.
Qed.

Lemma resume_select_wp g rv sg w d acts :
  kind = Some rv -> returns (resume_post rv) -> waiting kind (Await_resume g rv sg who) d acts ->
  WP (resume_select id who ret g rv sg w) d acts.
Proof.
  intros Hkind Hret Hwt. assert (WP (Select (Await_resume g rv sg who)) d acts) as Hwait by (intros _; by apply HJ).
  rewrite Hkind in Hwt. destruct Hwt as (_ & Hnd & _ & Hp).
  assert (guarded Resuming) as Hg by in_guarded.
  assert (forall detail e acts', match e with Active_not_recorded _ | Resume_cancelled => False | _ => True end ->
    WP (failResume id g rv detail (resume_unregister_return ret sg (Err e))) d acts') as Hfail.
  { intros detail e acts' He. apply (failResume_wp _ _ _ Resuming); [done|set_solver|].
    intros d' acts'' Hse. destruct sg; cbn; apply Hret; destruct e; by (cbn; auto). }
  destruct w as [sc| |[detail|node]| |[]]; cbn [resume_select]; try (exact Hwait).
  - by apply Hfail.
  - call d1 Hd. pose proof (rely_phase _ _ _ _ _ _ Hd Hg Hp) as Hp1.
    destruct (run_SetActive id lease Resuming node g d1 Hp1 ltac:(set_solver))
      as (d2 & -> & Hp2 & Hc). cbn [fst snd]. apply wp_visited. intros p2 HV2. call d3 Hd3.
    destruct (run_mark_rely id lease d3) as (d4 & -> & Hd4). destruct sg; cbn; apply Hret; cbn;
      exists g, d2; (split_and!; [by exists p2|by etransitivity|done|repeat (apply told_one; [|done]); exact Hnd|done]).
  - do 2 apply wp_do. by apply Hfail.
  - destruct sg; cbn; apply Hret; cbn; by exists g.
  - do 2 apply wp_do. by apply Hfail.
Qed.

(** *** The claim *)

Lemma acquireClaim_wp cp clock ttl n k d :
  ledger_wf d ->
  (forall e d', turned_away e = true -> WP (Return (Err e)) d' []) ->
  (forall d', held_wf id lease d' -> WP k d' []) ->
  WP (acquireClaim id lease cp clock ttl n k) d [].
Proof.
  intros Hwf He Hk. revert d Hwf. induction n as [|n IH]; intros d Hwf; [by apply He|].
  call d1 Hd. pose proof (rl_wf _ _ _ _ Hd Hwf) as Hwf1.
  destruct (run_Get_inv id d1) as (r & -> & Hr). cbn [fst snd].
  destruct r as [e|sp]; [by apply He|].
  call d2 Hd2. pose proof (rl_wf _ _ _ _ Hd2 Hwf1) as Hwf2. rewrite run_Acquire.
  destruct (spawns d2 !! id) as [s|] eqn:Hs; [|by apply IH].
  destruct (_ && _); [|by apply IH]. cbn [fst snd]. apply Hk.
  split; [by eapply wf_row|]. eexists. cbn. by rewrite lookup_insert_eq.
Qed.

Lemma owned_claim_wp owner cp clock ttl draining k d :
  ledger_wf d ->
  (forall e d', turned_away e = true -> WP (Return (Err e)) d' []) ->
  (forall d', held_wf id lease d' -> WP k d' []) ->
  WP (owned id owner (withClaim id lease cp clock ttl draining k)) d [].
Proof.
  intros Hwf He Hk. unfold owned. call d1 Hd. pose proof (rl_wf _ _ _ _ Hd Hwf) as Hwf1.
  destruct (run_Get_inv id d1) as (r & -> & Hr). cbn [fst snd].
  destruct r as [e|sp]; [by apply He|]. destruct (String.eqb _ _); [|by apply He].
  unfold withClaim. destruct draining; [by apply He|]. by apply acquireClaim_wp.
Qed.
End Contract.
