(* ===== verification/TransitionContract.v ===== *)
(** * What suspending and resuming a spawn promise *)

From S2P Require Import Prelude GoLib Database SpawnStore SpawnLifecycle SpawnContract.
From S2P Require Import Transitions TransitionLaws TransitionWp TransitionRules.
Open Scope Z_scope.

(** What a handler returns, against the last ledger [dm] its driver wrote before it gave the claim
    back, or before it returned when it had not taken it: [V] says that the run went through it. *)
Definition settled_by (id lease : string) (V : prog -> Tables -> Prop)
    (post : result cp_error outcome -> Tables -> list action -> Prop)
    (r : result cp_error outcome) (d : Tables) (acts : list action) : Prop :=
  exists dm, post r dm acts /\
    ((V (Return r) dm /\ rely id lease dm d) \/
     (V (release id lease r) dm /\ exists d1, rely id lease dm d1 /\ d = (run (Release id lease) d1).2)).

(** A handler starts with nothing told, and learns nothing of the ledger when it fails early. *)
Abbreviation plain_waiting id lease := (waiting id lease Direct []).
Abbreviation plain_resume_post id lease V := (resume_post id lease V [] (fun _ => True)).

Section Handlers.
Context (id lease : string) (V : prog -> Tables -> Prop) (kind : option bool) (post : result cp_error outcome -> Tables -> list action -> Prop).
Abbreviation rel := (release id lease).
Abbreviation J := (plain_waiting id lease kind).
Abbreviation Q := (settled_by id lease V post).
Abbreviation R := (rely id lease).

Lemma release_returns : returns id V rel J Q R post.
Proof.
  intros r d acts Hp Hv. split; [by eauto with sql|].
  intros d1 Hd _. exists d. split; [done|]. right. eauto.
Qed.

Lemma plain_resumeLocked owner n c rv b rootfs d :
  kind = Some rv -> returns id V rel J Q R (plain_resume_post id lease V rv) -> held_wf id lease d ->
  wp id R V J Q (resumeLocked id lease Direct rel owner n c rv b rootfs) d [].
Proof.
  intros. eapply (resumeLocked_wp id lease Direct V [] (held_wf id lease) (fun _ => True) kind);
    first [apply _ | eauto using rely_held].
Qed.
Lemma plain_resume_select g rv sg w d acts :
  kind = Some rv -> returns id V rel J Q R (plain_resume_post id lease V rv) ->
  J (Await_resume g rv sg Direct) d acts ->
  wp id R V J Q (resume_select id Direct rel g rv sg w) d acts.
Proof.
  intros. eapply (resume_select_wp id lease Direct V [] (held_wf id lease) (fun _ => True) kind);
    first [apply _ | eauto using rely_held].
Qed.
End Handlers.

(** The wake-ups of a handler's driver. *)
Abbreviation direct_wake id lease := (on_wake id lease Direct (release id lease)).

(** The ledgers that the run of a handler has been in. *)
Abbreviation ledgers_of id lease p d s := (visited id (direct_wake id lease) (rely id lease) p d s).


(** C17: resuming a spawn always ends in a defined state too, under the same conditions (the
    others neither take the claim nor move the row out of a transient status, and no statement of
    the store fails for an outside reason).  The driver left the ledger with the spawn active on
    the node that provisioned it, its new episode live; or an error, with no live container, when
    anything failed after its episode was claimed; or still resuming, for the recovery sweep, when
    the claim was lost; and nothing was started on an error before. *)
Theorem resume_settles id lease cp clock ttl draining owner signed d s r :
  ledger_wf d ->
  runs id (direct_wake id lease) (rely id lease) (ResumeSpawn id lease cp clock ttl draining owner signed) d s ->
  driver s = Return r ->
  let V := ledgers_of id lease (ResumeSpawn id lease cp clock ttl draining owner signed) d s in
  exists d1, rely id lease d1 (tables (ses s)) /\
    settled_by id lease V (plain_resume_post id lease V false) r d1 (actions s).
Proof.
  intros Hwf Hr Hret V.
  eapply (run_wp id _ (rely id lease) V (plain_waiting id lease (Some false))); [done| | |exact Hr|exact Hret].
  - intros sel w d' acts HJ Hw. destruct sel as [g who|g rv sg who]; [by destruct HJ|].
    assert (who = Direct /\ rv = false) as [-> ->] by (by destruct HJ as (? & _ & ? & _)).
    apply plain_resume_select; done || apply release_returns.
  - apply owned_claim_wp; [done|done| |].
    + intros e d' He Hv. exists d'. split; [|by left]. destruct e; try done; by left.
    + intros d' Hh. apply plain_resumeLocked; done || apply release_returns.
Qed.

(** ** A reply nobody waits for *)

(** The programs with no waiting and no outside answer, run alone on a ledger. *)
Fixpoint solo (p : prog) (d : Tables) : option (result cp_error outcome * Tables) :=
  match p with
  | Return r => Some (r, d)
  | Call m k => solo (k (run m d).1) (run m d).2
  | Do _ k => solo k d
  | _ => None
  end.

Lemma solo_set_markers id l k d :
  exists d', solo (set_markers id l k) d = solo k d' /\ spawns d' = spawns d /\
    spawn_containers d' = spawn_containers d.
Proof.
  revert d. induction l as [|[name marker] l IH]; intros d; [by exists d|]. cbn [set_markers solo].
  unfold SetMountMarker. rewrite run_bind by (unfold exec_mounts; eauto 20 with sql).
  unfold exec_mounts. rewrite run_stmt. cbn [fst snd].
  destruct (IH (d <| spawn_mounts ::= update_where (fun k _ => String.eqb k.1 id && String.eqb k.2 name)
    (fun m => m <| PersistMarker := Some marker |>) |>)) as (d' & Hs & E1 & E2).
  exists d'. split; [exact Hs|]. split; [exact E1|exact E2].
Qed.

(** The spawn's latest episode, if it has one, is [gen]. *)
Definition latest_is (id : string) (gen : Z) (d : Tables) : bool :=
  match (run (LatestContainer id) d).1 with
  | Ok (Some ((_, g), _)) => g =? gen
  | _ => true
  end.

Lemma latest_is_containers id gen d d' :
  spawn_containers d' = spawn_containers d -> latest_is id gen d' = latest_is id gen d.
Proof.
  intros He. unfold latest_is, LatestContainer. rewrite !run_bind by (unfold query; eauto with sql).
  by rewrite !run_query, He.
Qed.

(** The end of the reconciliation: the claim is given back. *)
Lemma solo_release id lease r d s :
  spawns d !! id = Some s -> ClaimLeaseID s = Some lease ->
  solo (release id lease r) d = Some (r, d <| spawns ::= <[id := bump (clear_claim s)]> |>).
Proof. intros Hs Hl. cbn. by rewrite (run_Release id lease d s). Qed.

Lemma run_Reconcile id d s :
  spawns d !! id = Some s -> SpawnStatus s = Errored ->
  run (ReconcileSuspendedAfterError id) d = (Ok tt, d <| spawns ::= <[id := set_suspended (bump s)]> |>).
Proof.
  intros Hs Hst. unfold ReconcileSuspendedAfterError. rewrite run_guardStatus, Hs.
  unfold status_in. rewrite bool_decide_true by (rewrite Hst; set_solver). done.
Qed.

(** A suspend that finishes after the control plane gave up on it is settled after all: a
    reply with no error, for a spawn that is still the error the stall left, whose latest episode
    is the reply's, turns the row into suspended; in every other case the status stays as it
    was. The episodes are left alone and the claim is given back. *)
Theorem late_reply_reconciled id lease cp clock ttl sc d s :
  spawns d !! id = Some s -> SpawnStatus s <> Deleted -> claim_free (clock 2%nat) s = true ->
  sc_Error sc = "" ->
  exists d' s',
    solo (reconcileLateSuspend id lease cp clock ttl false sc) d = Some (Ok Nothing, d') /\
    spawns d' !! id = Some s' /\ ClaimLeaseID s' = None /\
    spawn_containers d' = spawn_containers d /\
    SpawnStatus s' =
      (if bool_decide (SpawnStatus s = Errored) && latest_is id (i64 (sc_Generation sc)) d
       then Suspended else SpawnStatus s).
Proof.
  intros Hs Hd Hf He. unfold reconcileLateSuspend, withClaim, maxAcquireRetries.
  rewrite He. cbn [String.eqb negb acquireClaim solo].
  rewrite (run_Get id d s) by done. cbn [fst snd solo].
  rewrite run_Acquire, Hs, Z.eqb_refl, Hf. cbn [andb fst snd].
  set (s1 := bump (set_claim cp lease (clock 2%nat + ttl) s)).
  set (d1 := d <| spawns ::= <[id := s1]> |>). cbn [solo].
  assert (spawns d1 !! id = Some s1) as Hs1 by (cbn; by rewrite lookup_insert_eq).
  assert (forall r d2, spawns d2 = spawns d1 -> spawn_containers d2 = spawn_containers d1 ->
    exists d' s', solo (release id lease r) d2 = Some (r, d') /\ spawns d' !! id = Some s' /\
      ClaimLeaseID s' = None /\ spawn_containers d' = spawn_containers d /\
      SpawnStatus s' = SpawnStatus s) as Hrel.
  { intros r d2 E1 E2. exists (d2 <| spawns ::= <[id := bump (clear_claim s1)]> |>), (bump (clear_claim s1)).
    split_and!; [|cbn; by rewrite lookup_insert_eq|done|exact E2|done].
    by apply solo_release; [rewrite E1|]. }
  rewrite (run_Get id d1 s1) by done. cbn [fst snd].
  case_bool_decide as Hst; cbn [negb].
  2: { rewrite bool_decide_false by done. by apply Hrel. }
  rewrite bool_decide_true by done. cbn [andb solo].
  rewrite <- (latest_is_containers id _ d d1) by done. unfold latest_is.
  destruct (run_LatestContainer id d1) as [o Ho]. rewrite Ho. cbn [fst snd].
  assert (exists d' s',
    solo (set_markers id (sc_Markers sc) (Call (ReconcileSuspendedAfterError id)
      (fun _ => release id lease (Ok Nothing)))) d1 = Some (Ok Nothing, d') /\
    spawns d' !! id = Some s' /\ ClaimLeaseID s' = None /\
    spawn_containers d' = spawn_containers d /\ SpawnStatus s' = Suspended) as Hset.
  { destruct (solo_set_markers id (sc_Markers sc) (Call (ReconcileSuspendedAfterError id)
      (fun _ => release id lease (Ok Nothing))) d1) as (d2 & -> & E1 & E2). cbn [solo].
    rewrite (run_Reconcile id d2 s1); [|by rewrite E1|done]. cbn [fst snd].
    eexists _, _. split; [apply solo_release; cbn; [by rewrite lookup_insert_eq|done]|].
    cbn. rewrite lookup_insert_eq. by split_and!. }
  destruct o as [[[k g] c]|]; [destruct (g =? _)|]; [exact Hset|by apply Hrel|exact Hset].
Qed.

(** ** Concrete runs *)

(** A ledger with one active spawn whose episode 1 runs on node n1. *)
Definition demo_row : Spawn :=
  {| OwnerID := "u1"; Name := "s"; AppID := "a"; AppVersion := "1"; AppRef := "r";
     Pinned := false; Model := "m"; Image := "i"; RunnableID := "c"; Mode := "acp";
     SpawnStatus := Active; Recovered := false; ModelApplied := true; ModelApplyDetail := "";
     BaseImageDigest := ""; GitHubCredStatus := GitHubCredUnset; ProfileID := "";
     ProfileVersion := 0; CreatedAt := 1; LastUsedAt := 5; SuspendedAt := None;
     DeletedAt := None; StatusSeq := 7; ClaimHolder := None; ClaimLeaseID := None;
     ClaimDeadline := None; ForkCaptureDeadline := None; ParentSpawnID := None;
     ForkedAt := None; ErrorStep := ""; ErrorDetail := "" |}.
Definition demo_ledger : Tables :=
  {| spawns := {["sp" := demo_row]};
     spawn_containers := {[("sp", 1) := mkContainer "n1" PhaseActive 1 None]};
     spawn_mounts := {[("sp", "main") := mkMount "scratch:" "" false "" None]};
     spawn_artifacts := ∅; transfer_sets := ∅;
     app_versions := ∅; app_version_mounts := ∅ |}.


(** Events of the driver, the node and the timers only. *)
Definition own_event (ev : event) : bool := match ev with Ev_store _ _ => false | _ => true end.

Lemma exec_runs id woken R es p d s s' :
  forallb own_event es = true -> runs id woken R p d s -> exec id woken es s = Some s' ->
  runs id woken R p d s'.
Proof.
  revert s. induction es as [|ev es IH]; intros s Ho Hr He; cbn in *; [by simplify_eq|].
  destruct (step id woken ev s) as [s1|] eqn:Hs; [|done]. brefl. destruct Ho as [Ho Hes].
  apply (IH s1); [done| |done]. eapply runs_step; [done|done|]. by intros top op ->.
Qed.

Definition demo_suspend : prog :=
  SuspendSpawn "sp" "L" "cp" (fun _ => 100) 30 false "u1".
Definition demo_reply : SuspendComplete :=
  {| sc_SpawnId := "sp"; sc_Generation := 1; sc_Error := ""; sc_Markers := [("main", "m1")];
     sc_RootfsArtifacts := [] |}.
Definition demo_run (p : prog) (d : Tables) (es : list event) : option system :=
  exec "sp" (direct_wake "sp" "L") es (start p d).

(** To the wait: the request, the claim, Active→Suspending, the waiter, the node. *)
Definition to_wait : list event := replicate 8 Ev_driver.

Definition state_of (o : option system) : system := default (start (Return (Ok Nothing)) demo_ledger) o.


(** A reply can still be lost. [deliver] finds the waiter under its mutex but sends to its
    channel after releasing it: when the stall fires in between, unregisters the waiter and
    drains an empty channel, the reply goes into a channel nobody reads, [deliver] answers true
    and no late reconciliation is started. The spawn stays an error although its node suspended
    it and reported so. *)
Theorem reply_lost_to_the_stall :
  exists es s, demo_run demo_suspend demo_ledger es = Some s /\
    In (Ev_deliver demo_reply) es /\
    driver s = Return (Err Suspend_stalled) /\
    late s = [] /\ delivering s = [] /\
    SpawnStatus <$> spawns (tables (ses s)) !! "sp" = Some Errored.
Proof.
  set (es := to_wait ++ [Ev_deliver demo_reply; Ev_wake W_stall] ++ replicate 4 Ev_driver ++
    [Ev_send 0] ++ replicate 3 Ev_driver).
  exists es, (state_of (demo_run demo_suspend demo_ledger es)).
  split; [vm_compute; reflexivity|]. split; [vm_compute; tauto|].
  split_and!; vm_compute; reflexivity.
Qed.

(** The spawn suspended. *)
Definition demo_suspended : Tables :=
  demo_ledger <| spawns := {["sp" := demo_row <| SpawnStatus := Suspended |>]} |>
    <| spawn_containers := {[("sp", 1) := mkContainer "n1" PhaseStopped 1 (Some 5)]} |>.
Lemma demo_suspended_wf : ledger_wf demo_suspended.
Proof.
  unfold demo_suspended. split; cbn.
  - intros id g g' c' (c & Hc & Hl) _. cbn in Hc. by apply lookup_singleton_Some in Hc as [_ <-].
  - intros id g c Hc. apply lookup_singleton_Some in Hc as [[= <- <-] _]. lia.
  - intros id g c Hc. apply lookup_singleton_Some in Hc as [[= <- <-] _].
    rewrite lookup_singleton_eq. eauto.
Qed.

(** A resume that node n2 provisions. *)
Definition resumed_events : list event :=
  replicate 4 Ev_driver ++ replicate 3 (Ev_answer true) ++ [Ev_answer false] ++
  replicate 7 Ev_driver ++ [Ev_wake (W_provision (Ok "n2"))] ++ replicate 6 Ev_driver.
Definition demo_resume : prog :=
  ResumeSpawn "sp" "L" "cp" (fun _ => 100) 30 false "u1" false.

Lemma resume_settles_witness :
  let s := state_of (demo_run demo_resume demo_suspended resumed_events) in
  let V := ledgers_of "sp" "L" demo_resume demo_suspended s in
  exists d1, rely "sp" "L" d1 (tables (ses s)) /\
    settled_by "sp" "L" V (plain_resume_post "sp" "L" V false) (Ok (Resumed_on "n2")) d1 (actions s).
Proof.
  intros s. apply (resume_settles "sp" "L" "cp" (fun _ => 100) 30 false "u1" false demo_suspended).
  - exact demo_suspended_wf.
  - eapply (exec_runs _ _ _ resumed_events); [vm_compute; reflexivity|constructor|].
    vm_compute. reflexivity.
  - vm_compute. reflexivity.
Defined.

(** The row the stall left. *)
Definition demo_errored : Tables :=
  demo_suspended <| spawns := {["sp" := demo_row <| SpawnStatus := Errored |>]} |>.

Lemma late_reply_reconciled_witness :
  exists d' s',
    solo (reconcileLateSuspend "sp" "L" "cp" (fun _ => 100) 30 false demo_reply) demo_errored
      = Some (Ok Nothing, d') /\
    spawns d' !! "sp" = Some s' /\ ClaimLeaseID s' = None /\
    spawn_containers d' = spawn_containers demo_errored /\
    SpawnStatus s' = Suspended.
Proof.
  destruct (late_reply_reconciled "sp" "L" "cp" (fun _ => 100) 30 demo_reply demo_errored
    (demo_row <| SpawnStatus := Errored |>)) as (d' & s' & H1 & H2 & H3 & H4 & H5);
    [vm_compute; reflexivity|discriminate|vm_compute; reflexivity|reflexivity|].
  exists d', s'. repeat (split; [done|]). rewrite H5. vm_compute. reflexivity.
Defined.
