(* ===== verification/Migration.v ===== *)
(** * Migrating a spawn (src/internal/cp/lifecycle.go, rootfs_pins.go)

    [MigrateSpawn] is a suspend and a resume under one claim, with a durable transfer set beside
    them: what the source captured is pinned before the target may restore it, and the target
    restores those pins and nothing else. *)

From S2P Require Import Prelude GoLib Database SpawnStore TransferSets Transitions.
Open Scope Z_scope.

(** ** Pins *)

(** [validateRootfsArtifactPinChain] at index [i], after a pin of sequence [prev]. *)
Fixpoint valid_chain (i : Z) (prev : option Z) (pins : list RootfsArtifactPin) : result string unit :=
  match pins with
  | [] => Ok tt
  | pin :: pins =>
      if Sequence pin <=? 0 then Err "missing sequence"
      else if opt_eqb prev (Sequence pin) then Err "duplicate sequence"
      else if negb (Sequence pin =? i + 1) then Err "sequence gap"
      else valid_chain (i + 1) (Some (Sequence pin)) pins
  end.
Definition validateRootfsArtifactPinChain (pins : list RootfsArtifactPin) : result string unit :=
  valid_chain 0 None pins.

(** The pin of one captured layer, of the generation [g] and on the base image that are asked for. *)
Definition pin_of (g : Z) (baseImageDigest : string) (art : RootfsArtifactPin)
    : result string RootfsArtifactPin :=
  if String.eqb (ArtifactID art) "" then Err "missing artifact id"
  else if negb (pin_Generation art =? g) then Err "generation"
  else if negb (String.eqb baseImageDigest "") && negb (String.eqb (pin_BaseImageDigest art) "")
          && negb (String.eqb (pin_BaseImageDigest art) baseImageDigest) then Err "base digest"
  else Ok (mkPin (ArtifactID art) "rootfs_delta" (pin_Generation art) (Sequence art)
             (pin_BaseImageDigest art) (Format art) (ContentDigest art) (UncompressedSize art)).
Fixpoint pins_of (g : Z) (baseImageDigest : string) (arts : list RootfsArtifactPin)
    : result string (list RootfsArtifactPin) :=
  match arts with
  | [] => Ok []
  | art :: arts =>
      match pin_of g baseImageDigest art with
      | Err e => Err e
      | Ok pin =>
          match pins_of g baseImageDigest arts with Err e => Err e | Ok pins => Ok (pin :: pins) end
      end
  end.
Definition rootfsPinsFromSuspend (sc : SuspendComplete) (sourceGeneration : Z) (baseImageDigest : string)
    : result string (list RootfsArtifactPin) :=
  match sc_RootfsArtifacts sc with
  | [] => Ok []
  | arts =>
      match pins_of sourceGeneration baseImageDigest arts with
      | Err e => Err e
      | Ok pins =>
          let pins := sortedRootfsArtifactPins pins in
          match validateRootfsArtifactPinChain pins with Err e => Err e | Ok _ => Ok pins end
      end
  end.

(** The pins are one gap-free chain, from 1, of the episode [g]. *)
Definition good_pins (g : Z) (pins : list RootfsArtifactPin) : Prop :=
  Sequence <$> pins = seqZ 1 (Z.of_nat (length pins)) /\ Forall (fun p => pin_Generation p = g) pins.

Lemma valid_chain_seq pins i prev :
  valid_chain i prev pins = Ok tt -> Sequence <$> pins = seqZ (i + 1) (Z.of_nat (length pins)).
Proof.
  revert i prev. induction pins as [|p pins IH]; intros i prev; [done|]. cbn [valid_chain].
  repeat (case_match; [done|]). brefl. intros Hv. rewrite fmap_cons, (IH _ _ Hv). cbn [length].
  rewrite (seqZ_cons (i + 1)) by lia. f_equal; [done|]. f_equal; lia.
Qed.

Lemma pins_of_gen g dig arts pins :
  pins_of g dig arts = Ok pins -> Forall (fun p => pin_Generation p = g) pins.
Proof.
  revert pins. induction arts as [|art arts IH]; intros pins; cbn [pins_of]; [by intros [= <-]|].
  unfold pin_of. repeat (case_match; try done). intros [= <-]. brefl.
  constructor; [|by apply IH]. match goal with Hx : _ = Ok ?r |- _ ?r => injection Hx as <- | _ => idtac end.
  simplify_eq. done.
Qed.

(** What the source may hand over. *)
Lemma rootfs_pins_good sc g dig pins : rootfsPinsFromSuspend sc g dig = Ok pins -> good_pins g pins.
Proof.
  unfold rootfsPinsFromSuspend. destruct (sc_RootfsArtifacts sc) as [|art arts]; [intros [= <-]; by split|].
  destruct (pins_of _ _ _) as [e|ps] eqn:Hp; [done|]. unfold validateRootfsArtifactPinChain.
  destruct (valid_chain _ _ _) as [e|[]] eqn:Hv; [done|]. intros [= <-]. split.
  - by apply valid_chain_seq in Hv.
  - apply pins_of_gen in Hp. unfold sortedRootfsArtifactPins. by rewrite (merge_sort_Permutation by_sequence).
Qed.

(** The mounts' pins: the markers of the suspend, or those the mounts' rows carry. *)
Definition mount_pins (sc : SuspendComplete) : gmap string string :=
  foldl (fun m '(name, marker) => <[name := marker]> m) ∅ (sc_Markers sc).
Definition marked_pins (mounts : list ((string * string) * Mount)) : gmap string string :=
  foldl (fun m '((_, name), mt) =>
    match PersistMarker mt with
    | Some marker => if String.eqb marker "" then m else <[name := marker]> m
    | None => m
    end) ∅ mounts.

(** ** The handler *)

Section Migrate.
(** The spawn, its owner, the lease and the clock of the claim, the id drawn for the transfer
    set, the clock at each write of it. *)
Context (id leaseID cpID : string) (clock : nat -> Z) (claimTTL : Z) (claimDraining : bool).
Context (owner transferSetID : string) (now : string -> Z) (intentEnabled : bool).

Definition set_status_of (what : string) (st : TransferSetStatus) (k : result StoreErr unit -> prog) : prog :=
  Call (TransferSets.SetStatus transferSetID st (now what)) k.
(** [_ = SetStatus(..., TransferSetFailed, ...)], whatever comes of it *)
Definition set_failed (k : prog) : prog :=
  set_status_of "failed" TransferSetFailed (fun _ => k).

(** After the claim has been released. *)
Definition migrate_finish (mg : migration) (r : result cp_error outcome) : prog :=
  match r with
  | Ok (Resumed_on node) =>
      Call (TransferSets.SetTargetNode transferSetID node (now "target node")) (fun r =>
        match r with
        | Err e => set_failed (Return (Err (Transfer_failed "update target node" e)))
        | Ok _ =>
            set_status_of "active" TransferSetActive (fun r =>
              match r with
              | Err e => set_failed (Return (Err (Transfer_failed "mark active" e)))
              | Ok _ =>
                  if mg_upgrade mg then Do MarkDeliveryPending (Return (Ok (Resumed_on node)))
                  else Return (Ok (Resumed_on node))
              end)
        end)
  | r => Return r
  end.
Definition migrate_release (mg : migration) (r : result cp_error outcome) : prog :=
  Call (Release id leaseID) (fun _ => migrate_finish mg r).
Definition migrate_fail (mg : migration) (e : cp_error) : prog :=
  set_failed (migrate_release mg (Err e)).

(** How the body goes on after its resume. *)
Definition after_resume (mg : migration) (r : result cp_error outcome) : prog :=
  match r with
  | Err e => migrate_fail mg e
  | Ok o => migrate_release mg (Ok o)
  end.

(** The pins, then the resume on the target. *)
Definition migrate_restore (mg : migration) (rootfsPins : list RootfsArtifactPin)
    (mountPins : gmap string string) : prog :=
  Call (TransferSets.SetPins transferSetID (mg_sourceGeneration mg) mountPins rootfsPins (now "pins"))
    (fun r =>
    match r with
    | Err e => migrate_fail mg (Transfer_failed "record pins" e)
    | Ok _ =>
        set_status_of "restoring" TransferSetRestoring (fun r =>
          match r with
          | Err e => migrate_fail mg (Transfer_failed "mark restoring" e)
          | Ok _ =>
              resumeLocked id leaseID (Migrating mg) (after_resume mg) owner (mg_targetNode mg) "" true
                intentEnabled (Some (mkRestore (mg_sourceGeneration mg) rootfsPins false))
          end)
    end).
Definition migrate_transfer (mg : migration) (sourceComplete : option SuspendComplete) : prog :=
  match sourceComplete with
  | Some sc =>
      match rootfsPinsFromSuspend sc (mg_sourceGeneration mg) (mg_baseImageDigest mg) with
      | Err what => migrate_fail mg (Bad_rootfs_pins what)
      | Ok pins => migrate_restore mg pins (mount_pins sc)
      end
  | None =>
      Call (GetMounts id) (fun r =>
        match r with
        | Err e => migrate_fail mg (Store_failed e)
        | Ok mounts => migrate_restore mg [] (marked_pins mounts)
        end)
  end.

(** How the body goes on after its suspend. *)
Definition after_suspend (mg : migration) (r : result cp_error outcome) : prog :=
  match r with
  | Err e => migrate_fail mg e
  | Ok (Suspended_with sc) => migrate_transfer mg (Some sc)
  | Ok o => migrate_release mg (Ok o) (* a suspend returns nothing else *)
  end.

Definition migrate_body (mg : migration) (st : Status) : prog :=
  match st with
  | Active => suspendLocked id leaseID (Migrating mg) (after_suspend mg) owner true
  | _ => migrate_transfer mg None
  end.

(** The transfer set, then everything else under the claim. *)
Definition migrate_begin (mg : migration) (sourceNodeID : string) (sp : Spawn) : prog :=
  Call (TransferSets.Create transferSetID None (Some TransferKeyTargetReady) (Some TransferSetPending)
          {| Kind := TransferSetMigration; ts_SpawnID := id; SourceSpawnID := ""; ForkSpawnID := "";
             SourceGeneration := mg_sourceGeneration mg;
             TargetGeneration := u64 (mg_sourceGeneration mg + 1);
             SourceNodeID := sourceNodeID; TargetNodeID := mg_targetNode mg;
             ts_BaseImageDigest := BaseImageDigest sp; MountManifestPins := ∅;
             RootfsArtifactPins := []; KeyStatus := TransferKeyTargetReady;
             ts_Status := TransferSetPending; ts_CreatedAt := now "created";
             UpdatedAt := now "created" |}) (fun r =>
    match r with
    | Err e => Return (Err (Transfer_failed "create" e))
    | Ok _ =>
        set_status_of "capturing" TransferSetCapturing (fun r =>
          match r with
          | Err e => Return (Err (Transfer_failed "mark capturing" e))
          | Ok _ =>
              withClaim id leaseID cpID clock claimTTL claimDraining (migrate_body mg (SpawnStatus sp))
          end)
    end).

(** The episode to capture: the live one, or the latest. *)
Definition source_episode (liveNode : string) (k : Z -> string -> prog) : prog :=
  Call (LiveContainer id) (fun r =>
    match r with
    | Err e => Return (Err (Store_failed e))
    | Ok (Some ((_, g), c)) => k (u64 g) (NodeID c)
    | Ok None =>
        Call (LatestContainer id) (fun r =>
          match r with
          | Err e => Return (Err (Store_failed e))
          | Ok (Some ((_, g), c)) => k (u64 g) (NodeID c)
          | Ok None => k 0 liveNode
          end)
    end).

(** A class is resolved to a node before anything is claimed. *)
Definition resolve_target (targetNode targetClass : string) (k : string -> prog) : prog :=
  if String.eqb targetNode "" && negb (String.eqb targetClass "") then
    checks ["GetVersion"; "placementFor"] (fun what => Return (Err (Check_failed what)))
      (Pick "" targetClass (fun r =>
        match r with
        | None => Return (Err (Check_failed "PickNodeID"))
        | Some node => k node
        end))
  else k targetNode.

Definition check_target (targetNode : string) (k : prog) : prog :=
  if String.eqb targetNode "" then k
  else
    Ask "target exists" (fun exists_ =>
      Ask "target eligible" (fun eligible =>
        if negb exists_ then Return (Err Target_not_connected)
        else if negb eligible then Return (Err Target_of_another_owner)
        else k)).

Definition MigrateSpawn (reqTargetNode reqTargetClass : string) (upgradeToOwnerSealed : bool) : prog :=
  let targetNode := TrimSpace reqTargetNode in
  let targetClass := TrimSpace reqTargetClass in
  if String.eqb targetNode "" && String.eqb targetClass ""
  then Return (Err (Invalid_request "a migration target is required"))
  else if negb (String.eqb targetNode "") && negb (String.eqb targetClass "")
  then Return (Err (Invalid_request "specify a target node id OR a class"))
  else
    Call (Get id) (fun r =>
      match r with
      | Err _ => Return (Err Unknown_spawn)
      | Ok sp =>
          if negb (String.eqb (OwnerID sp) owner) then Return (Err Not_your_spawn)
          else
            check_target targetNode
              (Call (LiveContainer id) (fun r =>
                let liveNode := match r with Ok (Some (_, c)) => NodeID c | _ => "" end in
                Ask "guardCrossNodeDurability" (fun ok =>
                  if negb ok then Return (Err (Check_failed "guardCrossNodeDurability"))
                  else
                    resolve_target targetNode targetClass (fun targetNode =>
                      if negb (bool_decide (SpawnStatus sp ∈ [Active; Suspended]))
                      then Return (Err Not_migratable)
                      else
                        source_episode liveNode (fun sourceGeneration sourceNodeID =>
                          migrate_begin
                            (mkMigration sourceGeneration targetNode (BaseImageDigest sp)
                               upgradeToOwnerSealed)
                            sourceNodeID sp)))))
      end).

(** The selects of both halves. *)
Definition migrate_wake (s : select) (w : wake) : prog :=
  match s with
  | Await_suspend gen (Migrating mg as who) => suspend_select id leaseID who (after_suspend mg) gen w
  | Await_resume gen revertOnFail intentEnabled (Migrating mg as who) =>
      resume_select id who (after_resume mg) gen revertOnFail intentEnabled w
  | _ => on_wake id leaseID Direct (release id leaseID) s w
  end.
End Migrate.
