(* ===== verification/MigrationLedger.v ===== *)
(** * The transfer set beside a migration

    The ledger's methods leave the transfer sets alone, so each half of a migration keeps the
    set as it finds it: the rules of this file carry a fact about the set through a suspend and
    a resume, whatever becomes of the ledger. *)

From S2P Require Import Prelude GoLib Database SpawnStore SpawnLifecycle SpawnContract TransferSets Transitions TransitionLaws TransitionWp.
From S2P Require Import TransitionRules TransitionContract Migration.
Open Scope Z_scope.

Definition same_sets (d d' : Tables) : Prop := transfer_sets d' = transfer_sets d.
#[export] Instance same_sets_refl : Reflexive same_sets.
Proof. done. Qed.
#[export] Instance same_sets_trans : Transitive same_sets.
Proof. unfold same_sets. congruence. Qed.

Lemma same_stmt {A} (q : Tables -> result StoreErr A * Tables) :
  (forall d, transfer_sets (snd (q d)) = transfer_sets d) -> always same_sets (stmt q).
Proof. intros Hq. by apply always_stmt; [apply _|]. Qed.
Lemma same_query {A} (q : Tables -> A) : always same_sets (query q).
Proof. by apply same_stmt. Qed.
Lemma same_exec_spawns p f : always same_sets (exec_spawns p f).
Proof. by apply same_stmt. Qed.
Lemma same_exec_containers p f : always same_sets (exec_containers p f).
Proof. by apply same_stmt. Qed.
Lemma same_exec_mounts p f : always same_sets (exec_mounts p f).
Proof. by apply same_stmt. Qed.
Lemma same_insert_container k c : always same_sets (insert_container k c).
Proof. apply same_stmt. intros d. by repeat case_match. Qed.
Lemma same_insert_mount k m : always same_sets (insert_mount k m).
Proof. apply same_stmt. intros d. by repeat case_match. Qed.
Lemma same_insert_spawn id s : always same_sets (insert_spawn id s).
Proof. apply same_stmt. intros d. by repeat case_match. Qed.
Lemma same_expect_one e n : always same_sets (expect_one e n).
Proof. unfold expect_one. case_match; [by apply always_ret, _|by apply always_throw, _]. Qed.
Lemma same_insert_mounts id ms : always same_sets (insert_mounts id ms).
Proof.
  induction ms as [|[n m] ms IH]; simpl; [by apply always_ret, _|].
  apply always_bind; [apply _|apply same_insert_mount|done].
Qed.
Lemma same_check_declared d a v ms : always same_sets (check_declared d a v ms).
Proof.
  induction ms as [|[n m] ms IH]; simpl; [by apply always_ret, _|].
  case_match; [done|by apply always_throw, _].
Qed.
#[export] Hint Resolve same_query same_exec_spawns same_exec_containers same_exec_mounts
  same_insert_container same_insert_mount same_insert_spawn same_expect_one same_insert_mounts
  same_check_declared : always.

Lemma same_op top op : always same_sets (run_op top op).
Proof. destruct op; unfold_ops; always_walk. Qed.

Lemma same_Get id : always same_sets (Get id).
Proof. unfold Get. always_walk. Qed.
Lemma same_rows id :
  always same_sets (LiveContainer id) /\ always same_sets (LatestContainer id) /\
  always same_sets (GetMounts id).
Proof. unfold LiveContainer, LatestContainer, GetMounts. split_and!; always_walk. Qed.
Lemma same_TransitionClaimed id l s g to : always same_sets (TransitionClaimed id l s g to).
Proof. unfold TransitionClaimed. always_walk. Qed.
Lemma same_Acquire id h l n dl s : always same_sets (Acquire id h l n dl s).
Proof. unfold Acquire. always_walk. Qed.
Lemma same_claim id from : always same_sets (run_in_tx (ClaimStarting id from)).
Proof. unfold ClaimStarting, guardStatus, lastUsedTS, endLiveContainer, maxGen. always_walk. Qed.

(** A call that leaves the sets alone. *)
Definition quiet {A} (m : DB A) : Prop := faultless m /\ always same_sets m.

Lemma quiet_op op : quiet (run_op true op).
Proof. split; [apply faultless_try_op|apply same_op]. Qed.
Lemma quiet_Get id : quiet (Get id).
Proof. split; [eauto with sql|apply same_Get]. Qed.
Lemma quiet_rows id : quiet (LiveContainer id) /\ quiet (LatestContainer id) /\ quiet (GetMounts id).
Proof. split_and!; (split; [by eauto with sql|apply same_rows]). Qed.
Lemma quiet_TransitionClaimed id l s g to : quiet (TransitionClaimed id l s g to).
Proof. split; [by eauto with sql|apply same_TransitionClaimed]. Qed.
Lemma quiet_Acquire id h l n dl s : quiet (Acquire id h l n dl s).
Proof. split; [by eauto with sql|apply same_Acquire]. Qed.
Lemma quiet_claim id : quiet (run_in_tx (ClaimStarting id [Suspended])).
Proof. split; [by eauto with sql|apply same_claim]. Qed.

(** What the others may do during a migration: what they may during any driver, and they leave
    its transfer set alone. *)
Definition migration_rely (id lease tsid : string) (d d' : Tables) : Prop :=
  rely id lease d d' /\ transfer_sets d' !! tsid = transfer_sets d !! tsid.
#[export] Instance migration_rely_preorder id lease tsid : PreOrder (migration_rely id lease tsid).
Proof.
  split; [done|]. intros d1 d2 d3 [H1 E1] [H2 E2]. split; [by etransitivity|congruence].
Qed.

(** ** The rules *)

Section Quiet.
Context (id lease tsid : string) (who : caller) (ret : result cp_error outcome -> prog).
Context (R : Tables -> Tables -> Prop) `{!PreOrder R} (V : prog -> Tables -> Prop).
Context (J : select -> Tables -> list action -> Prop) (Q : result cp_error outcome -> Tables -> list action -> Prop).
(** The set is [x], and stays so under the others. *)
Context (x : option TransferSet).
Context (HR : forall d d', R d d' -> transfer_sets d' !! tsid = transfer_sets d !! tsid).
Abbreviation WP := (wp id R V J Q).
Abbreviation F := (fun d => transfer_sets d !! tsid = x).

Lemma quiet_call {A} (m : DB A) k d acts :
  quiet m -> F d -> (forall r d', F d' -> WP (k r) d' acts) -> WP (Call m k) d acts.
Proof.
  intros [Hf Hs] Hd Hk _. split; [done|]. intros d1 H1. apply Hk.
  pose proof (always_run same_sets m d1 Hs) as He. unfold same_sets in He.
  by rewrite He, (HR _ _ H1).
Qed.

Lemma quiet_do a k d acts : WP k d (acts ++ [a]) -> WP (Do a k) d acts.
Proof. done. Qed.
Ltac call := apply quiet_call; [first [apply quiet_Get|apply quiet_rows|apply quiet_TransitionClaimed|apply quiet_Acquire|apply quiet_claim]|done|intros ?r ?d ?Hd].
Ltac op o := apply quiet_call; [exact (quiet_op o)|done|intros ?r ?d ?Hd].

Definition carries (k : prog) (acts : list action) : Prop :=
  forall d acts', F d -> acts ⊆ acts' -> WP k d acts'.
(** What a suspend and a resume answer; their errors are not those of the set's writes. *)
Definition no_set_error (r : result cp_error outcome) : Prop :=
  match r with Err (Transfer_failed _ _) => False | _ => True end.
Definition suspend_result (r : result cp_error outcome) : Prop :=
  match r with Ok (Suspended_with _) => True | Ok _ => False | _ => no_set_error r end.
Definition resume_result (r : result cp_error outcome) : Prop :=
  match r with Ok (Resumed_on _) => True | Ok _ => False | _ => no_set_error r end.
Definition suspend_quiet (acts : list action) : Prop := forall r, suspend_result r -> carries (ret r) acts.
Definition resume_quiet (acts : list action) : Prop := forall r, resume_result r -> carries (ret r) acts.
Definition errs_quiet (acts : list action) : Prop :=
  forall e, no_set_error (Err e) -> carries (ret (Err e)) acts.

Lemma carries_more k acts acts' : carries k acts -> acts ⊆ acts' -> carries k acts'.
Proof. intros Hk Hs d a Hd Ha. apply Hk; [done|set_solver]. Qed.

Lemma quiet_set_markers l k d acts : F d -> carries k acts -> WP (set_markers id l k) d acts.
Proof.
  intros Hd Hk. revert d Hd. induction l as [|[n m] l IH]; intros d Hd; [by apply Hk|].
  op (OpSetMountMarker id n m). by apply IH.
Qed.

Lemma quiet_checks l fail k d acts :
  F d -> (forall what, WP (fail what) d acts) -> WP k d acts -> WP (checks l fail k) d acts.
Proof. intros Hd Hf Hk. induction l as [|what l IH]; [done|]. cbn. by intros [|]. Qed.

Lemma quiet_revert n g k d acts : F d -> carries k acts -> WP (revert_active id lease n g k) d acts.
Proof.
  intros Hd Hk. revert d Hd. induction n as [|n IH]; intros d Hd; [by apply Hk|].
  call. destruct r; [by apply Hk|]. call. repeat case_match; try (by apply Hk). by apply IH.
Qed.

Lemma quiet_reply g sc d acts :
  F d -> suspend_quiet acts -> WP (handleSuspendReply id lease ret g sc) d acts.
Proof.
  intros Hd Hr. unfold handleSuspendReply. case_match.
  - apply quiet_revert; [done|]. intros d' acts' Hd' Hs. apply Hr; [done..|set_solver].
  - apply quiet_set_markers; [done|]. intros d' acts' Hd' Hs. apply quiet_do.
    op (OpSetSuspended id g). destruct r.
    + op (OpSetError id "" ""). apply Hr; [done..|set_solver].
    + apply Hr; [done..|set_solver].
Qed.

Lemma quiet_give_up g persist e d acts :
  no_set_error (Err e) -> F d -> suspend_quiet acts ->
  WP (suspend_give_up id lease ret g persist e) d acts.
Proof.
  intros Hn Hd Hr. unfold suspend_give_up. apply quiet_do.
  assert (carries (Do DropRoute (Call (SetError id "" "") (fun _ => suspend_return ret (Err e))))
            (acts ++ [Unregister])) as Hf.
  { intros d' acts' Hd' Hs. apply quiet_do. op (OpSetError id "" ""). apply Hr; [done..|set_solver]. }
  split.
  - destruct persist; [|by apply Hf]. intros l. by apply quiet_set_markers.
  - intros sc _. apply quiet_reply; [done|]. intros r Hn'. eapply carries_more; [by apply Hr|set_solver].
Qed.

(** The selects: the set is untouched when a driver waits again. *)
Definition waits (s : select) (acts : list action) : Prop :=
  forall d acts', F d -> acts ⊆ acts' -> J s d acts'.
Lemma wait_again s d acts acts' : F d -> waits s acts -> acts ⊆ acts' -> WP (Select s) d acts'.
Proof. intros Hd HJ Hs _. by apply HJ. Qed.

Lemma quiet_suspend_select g w d acts :
  F d -> waits (Await_suspend g who) acts -> suspend_quiet acts ->
  WP (suspend_select id lease who ret g w) d acts.
Proof.
  intros Hd HJ Hr. destruct w as [sc| |r| |[]]; cbn [suspend_select].
  - by apply quiet_reply.
  - intros l. apply quiet_set_markers; [done|]. intros d' acts' Hd' Hs. by eapply wait_again.
  - by eapply wait_again.
  - by apply quiet_give_up.
  - apply Hr; [done..|set_solver].
  - by apply quiet_give_up.
Qed.

Lemma quiet_suspendLocked owner capture d acts :
  F d -> (forall g, waits (Await_suspend g who) acts) -> suspend_quiet acts ->
  WP (suspendLocked id lease who ret owner capture) d acts.
Proof.
  intros Hd HJ Hr. unfold suspendLocked. call. destruct r as [e|sp]; [by apply Hr|].
  do 2 (case_match; [by apply Hr|]). call. destruct r as [e|[[[k g] c]|]]; [by apply Hr| |by apply Hr].
  call. destruct r as [e|q]; [by apply Hr|]. cbn. eapply wait_again; [done|apply HJ|set_solver].
Qed.

(** *** Resume *)

Lemma quiet_failResume g rv detail k d acts :
  F d -> carries k acts -> WP (failResume id g rv detail k) d acts.
Proof.
  intros Hd Hk. unfold failResume. destruct rv; cbn [negb].
  - do 2 apply quiet_do. op (OpRevertSuspended id g). destruct r; [|apply Hk; [done|set_solver]].
    op (OpSetError id "" ""). apply Hk; [done|set_solver].
  - intros step. op (OpSetError id step detail). by apply Hk.
Qed.

Lemma carries_return r acts b :
  carries (ret r) acts ->
  carries (resume_return ret r) acts /\ carries (resume_cleanup_return ret b r) acts /\
  carries (resume_unregister_return ret b r) acts.
Proof.
  intros Hr. split_and!; intros d acts' Hd Hs; try destruct b; cbn; apply Hr; (done || set_solver).
Qed.

Lemma quiet_signed_placement g rv b n c k d acts :
  F d -> errs_quiet acts -> (forall node, carries (k node) acts) ->
  WP (signed_placement id ret g rv b n c k) d acts.
Proof.
  intros Hd Hr Hk. unfold signed_placement. destruct b; [|by apply Hk].
  assert (forall what d acts', F d -> acts ⊆ acts' ->
    WP (fail_and_return id ret g rv "" (Check_failed what)) d acts') as Hf.
  { intros what d' acts' Hd' Hs. apply quiet_failResume; [done|].
    eapply carries_more; [by apply (carries_return _ acts true), Hr|done]. }
  apply quiet_checks; [done|intros what; by apply Hf|]. intros [node|]; [|by apply Hf]. apply quiet_do.
  apply quiet_checks; [done| |apply Hk; [done|set_solver]].
  intros what. apply quiet_failResume; [done|].
  eapply carries_more; [by apply (carries_return _ acts true), Hr|set_solver].
Qed.

(** [Provision] is told with the pins the resume was given. *)
Definition resume_waits (rootfs : option rootfsRestorePins) (acts : list action) : Prop :=
  forall g rv b d acts', F d -> acts ⊆ acts' ->
    (exists node c, Provision (u64 g) node c (schedulerRootfsRestore rootfs) ∈ acts') ->
    J (Await_resume g rv b who) d acts'.

Lemma quiet_resume_claim b rv n c rootfs d acts :
  F d -> resume_waits rootfs acts -> errs_quiet acts ->
  WP (resume_claim id lease who ret b rv n c rootfs) d acts.
Proof.
  intros Hd HJ Hr. unfold resume_claim. call. destruct r as [e|g]; [by apply Hr|].
  assert (forall e d acts', no_set_error (Err e) -> F d -> acts ⊆ acts' -> WP (fail_and_return id ret g rv "" e) d acts') as Hf.
  { intros e d' acts' Hn Hd' Hs. apply quiet_failResume; [done|].
    eapply carries_more; [by apply (carries_return _ acts true), Hr|done]. }
  apply quiet_do. call. destruct r as [e|sp]; [apply Hf; [done..|set_solver]|].
  call. destruct r as [e|q]; [apply Hf; [done..|set_solver]|].
  call. destruct r as [e|ms]; [apply Hf; [done..|set_solver]|].
  apply quiet_signed_placement; [done| |].
  - intros e Hn. eapply carries_more; [by apply Hr|set_solver].
  - intros node d' acts' Hd' Hs. cbn. intros _. apply HJ; [done|set_solver|]. exists node, c. set_solver.
Qed.

Lemma quiet_resumeLocked owner n c rv b rootfs d acts :
  F d -> resume_waits rootfs acts -> errs_quiet acts ->
  WP (resumeLocked id lease who ret owner n c rv b rootfs) d acts.
Proof.
  intros Hd HJ Hr. unfold resumeLocked. call. destruct r as [e|sp]; [by apply Hr|].
  do 2 (case_match; [by apply Hr|]). apply quiet_checks; [done|intros what; by apply Hr|].
  unfold resume_placement. case_match; [|by apply quiet_resume_claim].
  intros [|]; [|by apply quiet_resume_claim]. call.
  destruct r as [e|[[k c0]|]]; [by apply Hr|by apply quiet_resume_claim..].
Qed.

Lemma quiet_resume_select g rv sg w d acts :
  F d -> (forall d', F d' -> J (Await_resume g rv sg who) d' acts) -> resume_quiet acts ->
  WP (resume_select id who ret g rv sg w) d acts.
Proof.
  intros Hd HJ Hr.
  assert (forall detail e d acts', no_set_error (Err e) -> F d -> acts ⊆ acts' ->
    WP (failResume id g rv detail (resume_unregister_return ret sg (Err e))) d acts') as Hf.
  { intros detail e d' acts' Hn Hd' Hs. apply quiet_failResume; [done|].
    eapply carries_more; [by apply (carries_return _ acts sg), Hr|done]. }
  destruct w as [sc| |[detail|node]| |[]]; cbn [resume_select].
  - intros _. by apply HJ.
  - intros _. by apply HJ.
  - by apply Hf.
  - op (OpSetActive id node g). destruct r; [apply Hf; [done..|set_solver]|].
    op (OpMarkModelApplied id). cbn. apply (carries_return _ acts sg (Hr (Ok (Resumed_on node)) I)); [done..|set_solver].
  - cbn. apply Hf; [done..|set_solver].
  - cbn. apply (carries_return _ acts sg (Hr (Err Resume_cancelled) I)); [done..|set_solver].
  - cbn. apply Hf; [done..|set_solver].
Qed.

(** *** The claim *)

Lemma quiet_withClaim cp clock ttl draining k d acts :
  F d -> (forall e d', F d' -> turned_away e = true -> WP (Return (Err e)) d' acts) -> carries k acts ->
  WP (withClaim id lease cp clock ttl draining k) d acts.
Proof.
  intros Hd He Hk. unfold withClaim. destruct draining; [by apply He|].
  generalize maxAcquireRetries as n. intros n. revert d Hd. induction n as [|n IH]; intros d Hd; [by apply He|].
  cbn [acquireClaim]. call. destruct r; [by apply He|]. call. repeat case_match; try (by apply He).
  - by apply IH.
  - by apply Hk.
Qed.
End Quiet.

(** * The spawn's row through a migration

    It ends active on the target, or down and restorable, or as its suspend left it, never
    between the two halves. *)

(** ** The ledger *)

Section Spawn.
Context (id lease cpID : string) (clock : nat -> Z) (ttl : Z) (draining : bool).
Context (owner tsid : string) (now : string -> Z) (signed : bool).
(** What the run of the migration goes through. *)
Context (V : prog -> Tables -> Prop).
Abbreviation migration_rely := (migration_rely id lease tsid).
Lemma rely_sets d f : rely id lease d (d <| transfer_sets ::= f |>).
Proof. split; [apply TransferSets.wf_sets|]. intros s Hs Hl. exists s. split_and!; done || lia. Qed.

(** The spawn was taken down, its layers captured, and nobody has brought it up since. *)
Definition down (d : Tables) : Prop :=
  exists d0, (exists p, V p d0) /\ settled id (Some lease) Suspended d0 /\ rely id lease d0 d.
Definition between (acts0 : list action) (d : Tables) : Prop := acts0 = [] \/ down d.

Lemma down_rely d d' : down d -> rely id lease d d' -> down d'.
Proof. intros (d0 & Hv & Hs & Hr) H. exists d0. split_and!; [done..|]. by etransitivity. Qed.
Lemma between_rely acts0 d d' : between acts0 d -> rely id lease d d' -> between acts0 d'.
Proof. intros [Ha|Hd] Hr; [by left|right]. by eapply down_rely. Qed.

(** The ledger as the body under the claim leaves it. *)
Definition migrate_settled (r : result cp_error outcome) (d : Tables) (acts : list action) : Prop :=
  match r with
  | Ok (Resumed_on node) => exists acts0, resume_post id lease V acts0 (between acts0) true r d acts
  | Ok _ => False
  | Err e =>
      acts = [] \/ down d \/ suspend_post id lease (Err e) d acts \/
      (e = Resume_cancelled /\ exists g, phase id lease Resuming g d)
  end.

(** After the release the others and the writes of the transfer set go on. *)
Definition aside (d d' : Tables) : Prop :=
  migration_rely d d' \/ (spawns d' = spawns d /\ spawn_containers d' = spawn_containers d).
(** After the release, only a migration that upgraded its spawn tells one thing more. *)
Definition told_last (r : result cp_error outcome) (acts acts' : list action) : Prop :=
  acts' = acts \/ (is_ok r = true /\ acts' = acts ++ [MarkDeliveryPending]).
Definition migrate_post (r : result cp_error outcome) (d : Tables) (acts : list action) : Prop :=
  (acts = [] /\ is_ok r = false) \/
  exists r' dm d1 acts', (exists p, V p dm) /\ migrate_settled r' dm acts' /\ rely id lease dm d1 /\
    rtc aside (run (Release id lease) d1).2 d /\ told_last r' acts' acts /\
    (r = r' \/ exists what e, r = Err (Transfer_failed what e)).

Definition migrate_waiting (s : select) (d : Tables) (acts : list action) : Prop :=
  match s with
  | Await_suspend _ (Migrating _ as who) => waiting id lease who [] None s d acts
  | Await_resume _ _ _ (Migrating _ as who) => exists acts0, waiting id lease who acts0 (Some true) s d acts
  | _ => False
  end.

Abbreviation WP := (wp id migration_rely V migrate_waiting migrate_post).

Lemma migrate_call {A} (m : DB A) k d acts :
  faultless m ->
  (forall d1, migration_rely d d1 -> rely id lease d d1 -> WP (k (run m d1).1) (run m d1).2 acts) ->
  WP (Call m k) d acts.
Proof. intros Hm Hk _. split; [done|]. intros d1 Hd. apply Hk; [done|apply Hd]. Qed.
Ltac call d1 Hi Hd := apply migrate_call; [by eauto with sql|intros d1 Hi Hd].

(** A write of the set, seen from the ledger. *)
Lemma run_set set d :
  exists r f, run (TransferSets.updateOne tsid set) d = (r, d <| transfer_sets ::= f |>).
Proof.
  rewrite TransferSets.run_updateOne. destruct (transfer_sets d !! tsid) as [x|].
  - by eexists _, _.
  - exists (Err ErrNotFound), (fun x => x). by destruct d.
Qed.
Lemma run_pins g mounts pins ts d :
  exists r f, run (TransferSets.SetPins tsid g mounts pins ts) d = (r, d <| transfer_sets ::= f |>).
Proof.
  rewrite TransferSets.run_SetPins. destruct (transfer_sets d !! tsid) as [x|]; [case_match|].
  1: by eexists _, _.
  all: exists (Err ErrConflict), (fun x => x); by destruct d.
Qed.
Lemma aside_set d d1 f : migration_rely d d1 -> rtc aside d (d1 <| transfer_sets ::= f |>).
Proof. intros Hd. eapply rtc_l; [by left|]. apply rtc_once. by right. Qed.

Ltac set_call d1 Hi Hd f := 
  apply migrate_call; [by (unfold TransferSets.SetStatus, TransferSets.SetTargetNode; eauto with sql)|intros d1 Hi Hd];
  unfold TransferSets.SetStatus, TransferSets.SetTargetNode;
  let r := fresh "r" in
  match goal with |- context [run (TransferSets.updateOne tsid ?s) d1] => destruct (run_set s d1) as (r & f & ->) end;
  cbn [fst snd].

Lemma finish_wp mg r dm d1 d acts :
  (exists p, V p dm) -> migrate_settled r dm acts -> rely id lease dm d1 -> rtc aside (run (Release id lease) d1).2 d ->
  WP (migrate_finish tsid now mg r) d acts.
Proof.
  intros Hv Hs Hr Hl.
  assert (forall x d' a, rtc aside d d' -> told_last r acts a -> (x = r \/ exists what e, x = Err (Transfer_failed what e)) ->
    migrate_post x d' a) as HQ.
  { intros x d' a Hd' Hs' Hx. right. exists r, dm, d1, acts. split_and!; [done|done|done| |done|done].
    by etransitivity. }
  assert (forall what e d', rtc aside d d' -> WP (set_failed tsid now (Return (Err (Transfer_failed what e)))) d' acts) as Hfail.
  { intros what e d' Hd'. unfold set_failed, set_status_of. set_call d2 Hi Hd f. intros _. apply HQ; [|by left|eauto].
    etransitivity; [done|]. by apply aside_set. }
  unfold migrate_finish. destruct r as [e|[sc|node|]]; try (by intros _; apply HQ; [done|by left|auto]).
  set_call d2 Hi Hd f. assert (rtc aside d (d2 <| transfer_sets ::= f |>)) as H2 by (by apply aside_set).
  destruct r; [by apply Hfail|]. unfold set_status_of. set_call d3 Hi3 Hd3 f3.
  assert (rtc aside d (d3 <| transfer_sets ::= f3 |>)) as H3.
  { etransitivity; [done|]. by apply aside_set. }
  destruct r; [by apply Hfail|]. destruct (mg_upgrade mg); cbn; intros _; apply HQ; auto; [by right|by left].
Qed.

Lemma release_wp mg r dm d acts :
  (exists p, V p dm) -> migrate_settled r dm acts -> rely id lease dm d -> WP (migrate_release id lease tsid now mg r) d acts.
Proof.
  intros Hv Hs Hr. unfold migrate_release. call d1 Hi Hd. eapply finish_wp; [exact Hv|done| |done].
  by etransitivity.
Qed.

Lemma fail_wp mg e dm d acts :
  (exists p, V p dm) -> migrate_settled (Err e) dm acts -> rely id lease dm d -> WP (migrate_fail id lease tsid now mg e) d acts.
Proof.
  intros Hv Hs Hr. unfold migrate_fail, set_failed, set_status_of. set_call d1 Hi Hd f.
  eapply release_wp; [exact Hv|done|]. etransitivity; [done|]. etransitivity; [done|]. apply rely_sets.
Qed.

Lemma after_resume_wp mg acts0 :
  returns id V (after_resume id lease tsid now mg) migrate_waiting migrate_post migration_rely
    (resume_post id lease V acts0 (between acts0) true).
Proof.
  intros r d acts Hp. unfold after_resume. destruct r as [e|o].
  - apply wp_visited. intros p Hv. apply (fail_wp mg e d); [by exists p| |reflexivity].
    destruct e; cbn in Hp; try done; cbn;
      try (destruct Hp as [[-> [->|Hd]]|Hd]; [by left|by right; left|right; left; exists d; by split_and!; [exists p|..]]).
    by right; right; right.
  - apply wp_visited. intros p Hv. apply (release_wp mg (Ok o) d); [by exists p| |reflexivity].
    destruct o; try done. by exists acts0.
Qed.

Lemma restore_wp mg pins mounts d acts :
  held_wf id lease d -> between acts d ->
  WP (migrate_restore id lease owner tsid now signed mg pins mounts) d acts.
Proof.
  intros Hh Hb. unfold migrate_restore. call d1 Hi Hd.
  destruct (run_pins (mg_sourceGeneration mg) mounts pins (now "pins") d1) as (r & f & ->). cbn [fst snd].
  assert (forall f', rely id lease d (d1 <| transfer_sets ::= f' |>)) as H1.
  { intros f'. etransitivity; [done|apply rely_sets]. }
  assert (forall e d', rely id lease d d' -> WP (migrate_fail id lease tsid now mg e) d' acts) as Hfail.
  { intros e d' Hd'. apply wp_visited. intros p Hv. apply (fail_wp mg e d'); [by exists p| |reflexivity]. cbn. destruct (between_rely _ _ _ Hb Hd'); auto. }
  destruct r; [by apply Hfail|]. unfold set_status_of. set_call d2 Hi2 Hd2 f2.
  assert (rely id lease d (d2 <| transfer_sets ::= f2 |>)) as H2.
  { etransitivity; [apply (H1 f)|]. etransitivity; [done|apply rely_sets]. }
  destruct r; [by apply Hfail|].
  eapply (resumeLocked_wp id lease (Migrating mg) V acts (fun d => held_wf id lease d /\ between acts d)
            (between acts) (Some true)); try done.
  - apply _.
  - by intros ?? [??].
  - intros sel d' acts' Hw. destruct sel as [|g rv b who]; [done|]. pose proof Hw as (-> & _).
    by exists acts.
  - intros d' d'' [Hr _] [Hx Hy]. split; [by eapply rely_held|by eapply between_rely].
  - by intros ? [??].
  - by intros ? [??].
  - apply after_resume_wp.
  - split; [by eapply rely_held|by eapply between_rely].
Qed.

Lemma transfer_wp mg sc d acts :
  held_wf id lease d -> between acts d ->
  WP (migrate_transfer id lease owner tsid now signed mg sc) d acts.
Proof.
  intros Hh Hb.
  assert (forall e d', rely id lease d d' -> WP (migrate_fail id lease tsid now mg e) d' acts) as Hfail.
  { intros e d' Hd'. apply wp_visited. intros p Hv. apply (fail_wp mg e d'); [by exists p| |reflexivity]. cbn. destruct (between_rely _ _ _ Hb Hd'); auto. }
  unfold migrate_transfer. destruct sc as [sc|].
  - destruct (rootfsPinsFromSuspend _ _ _); [by apply Hfail|by apply restore_wp].
  - call d1 Hi Hd. destruct (run_GetMounts id d1) as [l ->]. cbn [fst snd].
    apply restore_wp; [by eapply rely_held|by eapply between_rely].
Qed.

Lemma after_suspend_wp mg :
  returns id V (after_suspend id lease owner tsid now signed mg) migrate_waiting migrate_post migration_rely
    (suspend_post id lease).
Proof.
  intros r d acts Hp. unfold after_suspend. destruct r as [e|[sc|node|]]; try done.
  - apply wp_visited. intros p Hv. apply (fail_wp mg e d); [by exists p| |reflexivity]. by right; right; left.
  - apply wp_visited. intros p Hv. destruct Hp as (Hse & _). apply transfer_wp.
    + destruct Hse as [Hwf (s & Hs & _ & Hl) _]. split; [done|by exists s].
    + right. exists d. by split_and!; [exists p|..].
Qed.

Lemma suspend_waits mg sel d acts :
  waiting id lease (Migrating mg) [] None sel d acts -> migrate_waiting sel d acts.
Proof. intros Hw. destruct sel as [g who|]; [|done]. pose proof Hw as (-> & _). done. Qed.

Lemma body_wp mg st d :
  held_wf id lease d -> WP (migrate_body id lease owner tsid now signed mg st) d [].
Proof.
  intros Hh. assert (WP (migrate_transfer id lease owner tsid now signed mg None) d []) as Ht
    by (apply transfer_wp; [done|by left]).
  unfold migrate_body. destruct st; try exact Ht.
  eapply (suspendLocked_wp id lease (Migrating mg) V [] (held_wf id lease) (fun _ => True) None); try done.
  - apply _.
  - by intros ?? [??].
  - exact (suspend_waits mg).
  - intros d' d'' [Hr _] Hx. by eapply rely_held.
  - apply after_suspend_wp.
Qed.

Lemma wake_wp : wakes_ok id (migrate_wake id lease owner tsid now signed) migration_rely V migrate_waiting migrate_post.
Proof.
  intros sel w d acts HJ Hw. destruct sel as [g [|mg]|g rv b [|mg]]; try done; cbn in HJ; cbn [migrate_wake].
  - eapply (suspend_select_wp id lease (Migrating mg) V [] (held_wf id lease) (fun _ => True) None); try done.
    + apply _.
    + by intros ?? [??].
    + exact (suspend_waits mg).
    + intros d' d'' [Hr _] Hx. by eapply rely_held.
    + apply after_suspend_wp.
  - destruct HJ as [acts0 HJ]. assert (rv = true) as -> by (by destruct HJ as (_ & _ & ? & _)).
    eapply (resume_select_wp id lease (Migrating mg) V acts0 (fun d => held_wf id lease d /\ between acts0 d)
              (between acts0) (Some true)); try done.
    + apply _.
    + by intros ?? [??].
    + intros sel d' acts' Hx. destruct sel as [|g' rv b' who]; [done|]. pose proof Hx as (-> & _).
      by exists acts0.
    + intros d' d'' [Hr _] [Hx Hy]. split; [by eapply rely_held|by eapply between_rely].
    + by intros ? [??].
    + by intros ? [??].
    + apply after_resume_wp.
Qed.
(** Nothing is told before the claim is taken. *)
Lemma refused_wp e d : WP (Return (Err e)) d [].
Proof. intros _. by left. Qed.

Lemma run_create key st kind x d :
  exists r f, run (TransferSets.Create tsid kind key st x) d = (r, d <| transfer_sets ::= f |>).
Proof.
  assert (forall e : StoreErr, exists r f, (@inl StoreErr unit e, d) = (r, d <| transfer_sets ::= f |>)) as Herr.
  { intros e. exists (Err e), (fun x => x). by destruct d. }
  assert (forall y, exists r f, run (TransferSets.insert_set tsid y) d = (r, d <| transfer_sets ::= f |>)) as Hins.
  { intros y. unfold TransferSets.insert_set. rewrite run_stmt. case_match; [apply Herr|by eexists _, _]. }
  unfold TransferSets.Create. repeat case_match; first [apply Hins|apply Herr].
Qed.

Lemma begin_wp mg node sp d :
  ledger_wf d -> WP (migrate_begin id lease cpID clock ttl draining owner tsid now signed mg node sp) d [].
Proof.
  intros Hwf. unfold migrate_begin. call d1 Hi Hd. pose proof (rl_wf _ _ _ _ Hd Hwf) as Hwf1.
  match goal with |- context [run (TransferSets.Create tsid ?k ?a ?b ?x) d1] =>
    destruct (run_create a b k x d1) as (r & f & ->) end. cbn [fst snd].
  destruct r; [apply refused_wp|]. unfold set_status_of. set_call d2 Hi2 Hd2 f2.
  destruct r; [apply refused_wp|].
  assert (ledger_wf (d2 <| transfer_sets ::= f2 |>)) as Hwf2.
  { apply TransferSets.wf_sets, (rl_wf _ _ _ _ Hd2), TransferSets.wf_sets. done. }
  unfold withClaim. destruct draining; [apply refused_wp|].
  apply acquireClaim_wp; [by intros ?? [??]|done|intros e d' _; apply refused_wp|].
  intros d' Hh. by apply body_wp.
Qed.

Lemma episode_wp live k d :
  ledger_wf d -> (forall g node d', ledger_wf d' -> WP (k g node) d' []) -> WP (source_episode id live k) d [].
Proof.
  intros Hwf Hk. unfold source_episode. call d1 Hi Hd. pose proof (rl_wf _ _ _ _ Hd Hwf) as Hwf1.
  rewrite run_LiveContainer. cbn [fst snd]. destruct (head _) as [[[k0 g] c]|]; [by apply Hk|].
  call d2 Hi2 Hd2. pose proof (rl_wf _ _ _ _ Hd2 Hwf1) as Hwf2.
  destruct (run_LatestContainer id d2) as [[[[k0 g] c]|] ->]; cbn [fst snd]; by apply Hk.
Qed.

Lemma target_wp node class_ k d :
  ledger_wf d -> (forall node d', ledger_wf d' -> WP (k node) d' []) -> WP (resolve_target node class_ k) d [].
Proof.
  intros Hwf Hk. unfold resolve_target. case_match; [|by apply Hk].
  apply checks_wp; [intros what; apply refused_wp|].
  intros [n|]; [by apply Hk|apply refused_wp].
Qed.

Lemma migrate_wp node class_ up d :
  ledger_wf d ->
  WP (MigrateSpawn id lease cpID clock ttl draining owner tsid now signed node class_ up) d [].
Proof.
  intros Hwf. unfold MigrateSpawn. do 2 (case_match; [apply refused_wp|]).
  call d1 Hi Hd. pose proof (rl_wf _ _ _ _ Hd Hwf) as Hwf1.
  destruct (run_Get_inv id d1) as (r & -> & _). cbn [fst snd]. destruct r as [e|sp]; [apply refused_wp|].
  case_match; [apply refused_wp|].
  assert (forall p, WP p d1 [] -> WP (check_target (TrimSpace node) p) d1 []) as Hchk.
  { intros p Hp. unfold check_target. case_match; [done|]. intros b b'.
    repeat (case_match; [apply refused_wp|]). done. }
  apply Hchk. call d2 Hi2 Hd2. pose proof (rl_wf _ _ _ _ Hd2 Hwf1) as Hwf2.
  rewrite run_LiveContainer. cbn [fst snd]. intros ok. case_match; [apply refused_wp|].
  apply target_wp; [done|]. intros n d3 Hwf3. case_match; [apply refused_wp|].
  apply episode_wp; [done|]. intros g nd d4 Hwf4. by apply begin_wp.
Qed.
End Spawn.
