(* ===== verification/MigrationContract.v ===== *)
(** * The transfer set through a migration

    It is created before anything is asked of the nodes, holds the pins before the target is
    asked to restore them, and ends active with the spawn, or failed. *)

From S2P Require Import Prelude GoLib Database SpawnStore SpawnLifecycle SpawnContract TransferSets Transitions TransitionLaws.
From S2P Require Import TransitionWp TransitionRules TransitionContract Migration MigrationLedger.
Open Scope Z_scope.

(** ** The set *)

Section Set_.
Context (id lease cpID : string) (clock : nat -> Z) (ttl : Z) (draining : bool).
Context (owner tsid : string) (now : string -> Z) (signed : bool).
Abbreviation R := (migration_rely id lease tsid).
Abbreviation set_of d := (transfer_sets d !! tsid).

Lemma R_set d d' : R d d' -> set_of d' = set_of d.
Proof. by intros [_ ?]. Qed.

(** The target was asked to restore the pins of [x], and no others. *)
Definition restored (x : TransferSet) (acts : list action) : Prop :=
  exists g node c,
    Provision g node c (schedulerRootfsRestore
      (Some (mkRestore (SourceGeneration x) (RootfsArtifactPins x) false))) ∈ acts.

Definition capturing (mg : migration) (x : TransferSet) : Prop :=
  ts_Status x = TransferSetCapturing /\ SourceGeneration x = mg_sourceGeneration mg.
Definition restoring (mg : migration) (x : TransferSet) : Prop :=
  ts_Status x = TransferSetRestoring /\ SourceGeneration x = mg_sourceGeneration mg /\
  good_pins (SourceGeneration x) (RootfsArtifactPins x).

Definition set_waiting (s : select) (d : Tables) (acts : list action) : Prop :=
  match s with
  | Await_suspend _ (Migrating mg) => exists x, set_of d = Some x /\ capturing mg x
  | Await_resume _ _ _ (Migrating mg) => exists x, set_of d = Some x /\ restoring mg x /\ restored x acts
  | _ => False
  end.

Definition set_post (r : result cp_error outcome) (d : Tables) (acts : list action) : Prop :=
  match r with
  | Ok (Resumed_on node) =>
      exists x, set_of d = Some x /\ ts_Status x = TransferSetActive /\ TargetNodeID x = node /\
        good_pins (SourceGeneration x) (RootfsArtifactPins x) /\ restored x acts
  | Ok _ => True
  | Err e =>
      no_set_error (Err e) /\
      ((set_of d = None /\ acts = []) \/
       exists x, set_of d = Some x /\
         (ts_Status x = TransferSetFailed \/
          (ts_Status x = TransferSetCapturing /\ turned_away e = true /\ acts = [])))
  end.

Context (V : prog -> Tables -> Prop).
Abbreviation WP := (wp id R V set_waiting set_post).

(** A write of the set. *)
Lemma write_wp set k x d acts :
  set_of d = Some x -> (forall d', set_of d' = Some (set x) -> WP (k (Ok tt)) d' acts) ->
  WP (Call (TransferSets.updateOne tsid set) k) d acts.
Proof.
  intros Hd Hk _. split; [by eauto with sql|]. intros d1 H1. apply R_set in H1.
  rewrite TransferSets.run_updateOne, H1, Hd. apply Hk. cbn. by rewrite lookup_insert_eq.
Qed.
Ltac write Hx := unfold set_status_of, TransferSets.SetStatus, TransferSets.SetTargetNode;
  eapply write_wp; [exact Hx|intros ?d Hx; clear Hx].

Lemma quiet {A} (m : DB A) k o d acts :
  MigrationLedger.quiet m -> set_of d = o -> (forall r d', set_of d' = o -> WP (k r) d' acts) -> WP (Call m k) d acts.
Proof. intros Hm Hd Hk. eapply (quiet_call id tsid R); [apply R_set|done|exact Hd|exact Hk]. Qed.

Lemma set_fail mg e x d acts :
  set_of d = Some x -> no_set_error (Err e) -> WP (migrate_fail id lease tsid now mg e) d acts.
Proof.
  intros Hd Hn. unfold migrate_fail, set_failed, set_status_of, TransferSets.SetStatus.
  eapply write_wp; [exact Hd|]. intros d1 H1. unfold migrate_release.
  eapply quiet; [exact (quiet_op (OpRelease id lease))|exact H1|]. intros r d2 H2.
  intros _. split; [done|]. right. eexists. split; [exact H2|]. by left.
Qed.

Lemma set_finish mg node x d acts :
  set_of d = Some x -> good_pins (SourceGeneration x) (RootfsArtifactPins x) -> restored x acts ->
  WP (migrate_finish tsid now mg (Ok (Resumed_on node))) d acts.
Proof.
  intros Hd Hg Hr. unfold migrate_finish, TransferSets.SetTargetNode. eapply write_wp; [exact Hd|].
  intros d1 H1. unfold set_status_of, TransferSets.SetStatus. eapply write_wp; [exact H1|]. intros d2 H2.
  destruct (mg_upgrade mg); cbn; intros _; (eexists; split; [exact H2|]; cbn; split_and!; try done).
  destruct Hr as (g & n & c & Hr). exists g, n, c. set_solver.
Qed.

Lemma set_after_resume mg x acts :
  restoring mg x -> restored x acts ->
  resume_quiet id tsid (after_resume id lease tsid now mg) R V set_waiting set_post (Some x) acts.
Proof.
  intros (_ & _ & Hg) (g & n & c & Hr) r Hn d acts' Hd Hs. unfold after_resume. destruct r as [e|o].
  - by eapply set_fail.
  - unfold migrate_release. eapply quiet; [exact (quiet_op (OpRelease id lease))|exact Hd|]. intros r d2 H2.
    destruct o as [sc|node|]; try done. eapply set_finish; [exact H2|done|]. exists g, n, c. set_solver.
Qed.
Lemma set_restore mg pins mounts x d acts :
  set_of d = Some x -> capturing mg x -> good_pins (mg_sourceGeneration mg) pins ->
  WP (migrate_restore id lease owner tsid now signed mg pins mounts) d acts.
Proof.
  intros Hd [_ Hg] Hp. unfold migrate_restore. intros _. split; [by eauto with sql|]. intros d1 H1. apply R_set in H1.
  rewrite TransferSets.run_SetPins, H1, Hd, Hg, Z.eqb_refl. cbn [fst snd].
  unfold set_status_of, TransferSets.SetStatus. eapply write_wp; [cbn; by rewrite lookup_insert_eq|].
  intros d2 H2. eapply (quiet_resumeLocked id lease tsid (Migrating mg)); [apply _|apply R_set|exact H2| |].
  - intros g rv b d3 acts' H3 Hs (node & c & Hpr). eexists. split; [exact H3|]. split.
    + split_and!; [done|done|by rewrite Hg].
    + exists (u64 g), node, c. cbn. by rewrite Hg.
  - intros e Hn d3 acts' H3 Hs. eapply set_fail; [exact H3|done].
Qed.

Lemma set_transfer mg sc x d acts :
  set_of d = Some x -> capturing mg x ->
  WP (migrate_transfer id lease owner tsid now signed mg sc) d acts.
Proof.
  intros Hd Hc. unfold migrate_transfer. destruct sc as [sc|].
  - destruct (rootfsPinsFromSuspend _ _ _) eqn:Hp; [by eapply set_fail|].
    eapply set_restore; [done|done|]. by eapply rootfs_pins_good.
  - eapply quiet; [apply quiet_rows|exact Hd|]. intros r d1 H1. destruct r; [by eapply set_fail|].
    eapply set_restore; [exact H1|done|]. by split.
Qed.

Lemma set_after_suspend mg x acts :
  capturing mg x ->
  suspend_quiet id tsid (after_suspend id lease owner tsid now signed mg) R V set_waiting set_post (Some x) acts.
Proof.
  intros Hc r Hn d acts' Hd Hs. unfold after_suspend. destruct r as [e|[sc|node|]]; try done.
  - by eapply set_fail.
  - by eapply set_transfer.
Qed.

Lemma set_body mg st x d acts :
  set_of d = Some x -> capturing mg x ->
  WP (migrate_body id lease owner tsid now signed mg st) d acts.
Proof.
  intros Hd Hc.
  assert (WP (migrate_transfer id lease owner tsid now signed mg None) d acts) as Ht by (by eapply set_transfer).
  unfold migrate_body. destruct st; try exact Ht.
  eapply (quiet_suspendLocked id lease tsid (Migrating mg)); [apply _|apply R_set|exact Hd| |].
  - intros g d' acts' Hd' Hs. by exists x.
  - by apply set_after_suspend.
Qed.

Lemma set_wake : wakes_ok id (migrate_wake id lease owner tsid now signed) R V set_waiting set_post.
Proof.
  intros sel w d acts HJ Hw. destruct sel as [g [|mg]|g rv b [|mg]]; try done; cbn in HJ; cbn [migrate_wake].
  - destruct HJ as (x & Hd & Hc).
    eapply (quiet_suspend_select id lease tsid (Migrating mg)); [apply _|apply R_set|exact Hd| |].
    + intros d' acts' Hd' Hs. by exists x.
    + by apply set_after_suspend.
  - destruct HJ as (x & Hd & Hc & Hr).
    eapply (quiet_resume_select id tsid (Migrating mg)); [apply _|apply R_set|exact Hd| |].
    + intros d' Hd'. by exists x.
    + by eapply set_after_resume.
Qed.

(** ** Before the claim *)

Lemma set_refused e d : set_of d = None -> no_set_error (Err e) -> WP (Return (Err e)) d [].
Proof. intros Hd He _. split; [done|]. by left. Qed.

Lemma run_create_set x d :
  id <> "" -> tsid <> "" -> ts_SpawnID x = id -> set_of d = None ->
  exists y, run (TransferSets.Create tsid None (Some TransferKeyTargetReady) (Some TransferSetPending) x) d
              = (Ok tt, d <| transfer_sets ::= <[tsid := y]> |>) /\ SourceGeneration y = SourceGeneration x.
Proof.
  intros Hid Hts Hx Hd. unfold TransferSets.Create, TransferSets.insert_set. rewrite Hx.
  destruct (String.eqb_spec tsid ""), (String.eqb_spec id ""); try done. cbn [orb default].
  rewrite run_stmt, Hd. eexists. split; [reflexivity|done].
Qed.

Lemma set_begin mg node sp d :
  id <> "" -> tsid <> "" -> set_of d = None ->
  WP (migrate_begin id lease cpID clock ttl draining owner tsid now signed mg node sp) d [].
Proof.
  intros Hid Hts Hd. unfold migrate_begin. intros _. split; [by eauto with sql|]. intros d1 H1. apply R_set in H1.
  match goal with |- context [run (TransferSets.Create _ _ _ _ ?x) d1] =>
    destruct (run_create_set x d1 Hid Hts eq_refl) as (y & -> & Hy); [congruence|] end. cbn [fst snd].
  unfold set_status_of, TransferSets.SetStatus.
  eapply write_wp; [cbn; by rewrite lookup_insert_eq|]. intros d2 H2.
  assert (capturing mg (y <| ts_Status := TransferSetCapturing |> <| UpdatedAt := now "capturing" |>)) as Hc by done.
  eapply (quiet_withClaim id lease tsid R); [apply R_set|exact H2| |].
  - intros e d' Hd' He _. split; [by destruct e|]. right. eexists. split; [exact Hd'|]. by right.
  - intros d' acts' Hd' _. by eapply set_body.
Qed.

Lemma set_migrate node class_ up d :
  id <> "" -> tsid <> "" -> set_of d = None ->
  WP (MigrateSpawn id lease cpID clock ttl draining owner tsid now signed node class_ up) d [].
Proof.
  intros Hid Hts Hd. unfold MigrateSpawn. do 2 (case_match; [by apply set_refused|]).
  eapply quiet; [apply quiet_Get|exact Hd|]. intros r d1 Hd1. destruct r as [e|sp]; [by apply set_refused|].
  case_match; [by apply set_refused|].
  assert (forall p, WP p d1 [] -> WP (check_target (TrimSpace node) p) d1 []) as Hchk.
  { intros p Hp. unfold check_target. case_match; [done|]. intros b b'.
    repeat (case_match; [by apply set_refused|]). done. }
  apply Hchk. eapply quiet; [apply quiet_rows|exact Hd1|]. intros r d2 Hd2 ok. case_match; [by apply set_refused|].
  assert (forall n, WP (if negb (bool_decide (SpawnStatus sp ∈ [Active; Suspended])) then Return (Err Not_migratable)
    else source_episode id match r with Ok (Some (_, c)) => NodeID c | _ => "" end (fun g nd =>
      migrate_begin id lease cpID clock ttl draining owner tsid now signed
        (mkMigration g n (BaseImageDigest sp) up) nd sp)) d2 []) as Hn.
  { intros n. case_match; [by apply set_refused|]. unfold source_episode.
    eapply quiet; [apply quiet_rows|exact Hd2|]. intros r3 d3 Hd3.
    destruct r3 as [e|[[[k g] c]|]]; [by apply set_refused|by apply set_begin|].
    eapply quiet; [apply quiet_rows|exact Hd3|]. intros r4 d4 Hd4.
    destruct r4 as [e|[[[k g] c]|]]; [by apply set_refused|by apply set_begin..]. }
  unfold resolve_target. destruct (String.eqb (TrimSpace node) "" && negb (String.eqb (TrimSpace class_) ""));
    [|apply Hn]. cbn [checks]. intros [|]; [|by apply set_refused].
  intros [|]; [|by apply set_refused]. intros [n|]; [apply Hn|by apply set_refused].
Qed.
End Set_.

(** * What a migration promises

    Of the spawn: it ends active on the target, or down and restorable, or as its suspend left
    it, never between the two halves.  Of the transfer set: it says how far the migration came,
    and the target restored the pins it records. *)


Section Contract.
Context (id lease cpID : string) (clock : nat -> Z) (ttl : Z) (draining : bool).
Context (owner tsid : string) (now : string -> Z) (signed : bool).
Abbreviation migration_runs := (runs id (migrate_wake id lease owner tsid now signed) (migration_rely id lease tsid)).
Abbreviation program node class_ up :=
  (MigrateSpawn id lease cpID clock ttl draining owner tsid now signed node class_ up).

Lemma set_settles node class_ up d s r :
  id <> "" -> tsid <> "" -> transfer_sets d !! tsid = None ->
  migration_runs (program node class_ up) d s -> driver s = Return r ->
  set_post tsid r (tables (ses s)) (actions s).
Proof.
  intros Hid Hts Hd Hr Hret.
  destruct (run_wp id (migrate_wake id lease owner tsid now signed) (migration_rely id lease tsid) (fun _ _ => True) (set_waiting tsid) (set_post tsid) (program node class_ up) d s r) as (d1 & [_ He] & Hp);
    [done|apply set_wake|by apply set_migrate|done|done|].
  unfold set_post in *. destruct r as [e|[sc|n|]]; by rewrite ?He.
Qed.


(** C19: the transfer set tells how far a migration came, as long as no statement of the store
    fails for an outside reason (a status write that fails is not repeated) and the others leave
    this migration's set and the claim alone; the spawn and the set have nonempty ids, the set's a
    new one.  When [MigrateSpawn] answers with the spawn on a node, its set is active, names that
    node, and the layers the target was asked to restore are exactly the pins the set records: of the captured episode, in a chain numbered
    from 1 without a gap.  When it answers with an error the set is failed, or there is none and
    no node was asked; only a request that could not take the claim leaves it capturing. *)
Theorem transfer_set_tells node class_ up d s r :
  id <> "" -> tsid <> "" -> transfer_sets d !! tsid = None ->
  migration_runs (program node class_ up) d s -> driver s = Return r ->
  match r with
  | Ok (Resumed_on node) =>
      exists x, transfer_sets (tables (ses s)) !! tsid = Some x /\ ts_Status x = TransferSetActive /\
        TargetNodeID x = node /\ good_pins (SourceGeneration x) (RootfsArtifactPins x) /\
        restored x (actions s)
  | Ok _ => True
  | Err e =>
      (transfer_sets (tables (ses s)) !! tsid = None /\ actions s = []) \/
      exists x, transfer_sets (tables (ses s)) !! tsid = Some x /\
        (ts_Status x = TransferSetFailed \/
         (ts_Status x = TransferSetCapturing /\ turned_away e = true /\ actions s = []))
  end.
Proof.
  intros Hid Hts Hd Hr Hret. pose proof (set_settles _ _ _ _ _ _ Hid Hts Hd Hr Hret) as Hset.
  destruct r as [e|o]; [by destruct Hset as [_ Hset]|done].
Qed.
End Contract.

(** ** A concrete migration *)

(** The driver on its own until it waits or returns, with every check passed. *)
Fixpoint auto (id : string) (woken : select -> wake -> prog) (n : nat) (s : system) : list event :=
  match n with
  | O => []
  | S n =>
      let go ev := match step id woken ev s with Some s => ev :: auto id woken n s | None => [] end in
      match driver s with
      | Return _ | Select _ => []
      | Ask _ _ => go (Ev_answer true)
      | Pick _ _ _ => go (Ev_pick (Some "n2"))
      | _ => go Ev_driver
      end
  end.

Abbreviation demo_wake := (migrate_wake "sp" "L" "u1" "ts" (fun _ => 50) false).
Definition demo_migrate : prog :=
  MigrateSpawn "sp" "L" "cp" (fun _ => 100) 30 false "u1" "ts" (fun _ => 50) false "n2" "" false.
Definition demo_captured : SuspendComplete :=
  {| sc_SpawnId := "sp"; sc_Generation := 1; sc_Error := ""; sc_Markers := [("main", "m1")];
     sc_RootfsArtifacts := [mkPin "a2" "" 1 2 "" "tar" "d2" 20; mkPin "a1" "" 1 1 "" "tar" "d1" 10] |}.
Definition until (s : system) (evs : list event) : list event :=
  match exec "sp" demo_wake evs s with Some s' => evs ++ auto "sp" demo_wake 60 s' | None => evs end.
(** Source n1 answers, then target n2 provisions. *)
Definition migrate_events : list event :=
  let s0 := start demo_migrate demo_ledger in
  let l1 := until s0 [] in
  let l2 := until s0 (l1 ++ [Ev_deliver demo_captured; Ev_send 0; Ev_reply]) in
  until s0 (l2 ++ [Ev_wake (W_provision (Ok "n2"))]).
Definition demo_migrated : system :=
  state_of (exec "sp" demo_wake migrate_events (start demo_migrate demo_ledger)).

Lemma demo_migration :
  runs "sp" demo_wake (migration_rely "sp" "L" "ts") demo_migrate demo_ledger demo_migrated /\
  driver demo_migrated = Return (Ok (Resumed_on "n2")).
Proof.
  split; [|vm_compute; reflexivity].
  eapply (exec_runs _ _ _ migrate_events); [vm_compute; reflexivity|constructor|].
  vm_compute. reflexivity.
Qed.


Lemma transfer_set_tells_witness :
  exists x, transfer_sets (tables (ses demo_migrated)) !! "ts" = Some x /\
    ts_Status x = TransferSetActive /\ TargetNodeID x = "n2" /\
    good_pins (SourceGeneration x) (RootfsArtifactPins x) /\ restored x (actions demo_migrated).
Proof.
  apply (transfer_set_tells "sp" "L" "cp" (fun _ => 100) 30 false "u1" "ts" (fun _ => 50) false "n2" "" false
           demo_ledger demo_migrated (Ok (Resumed_on "n2")));
    [done|done|vm_compute; reflexivity|apply demo_migration|apply demo_migration].
Defined.
