(* ===== verification/CpEnv.v ===== *)
(** * What the control plane's handlers ask of their environment
    (src/internal/cp/fork*.go, durability.go, server.go, readopt.go)

    The sagas of this part ask the clock, the registry of nodes, the nodes and the timers, the
    in-process lock, the session router and the other catalogues of the control plane.  What is
    told rather than asked is a question whose answer is [tt], so that the trace of a run holds it. *)

From S2P Require Import Prelude GoLib Database Sagas SpawnStore Transitions.
Open Scope Z_scope.

(** ** Errors *)

(** A connect error with its code, an error of the store, any other error, [ctx.Err()]. *)
Inductive fork_error :=
| Connect (c : code) (what : string)
| Store_error (e : StoreErr)
| Plain (what : string)
| Context_done.

(** [connect.CodeOf], as far as forking looks at it. *)
Definition CodeOf (e : fork_error) : code :=
  match e with Connect c _ => c | _ => CodeOther end.
Definition asConnectError (c : code) (e : fork_error) : fork_error :=
  match e with Connect _ _ => e | _ => Connect c "" end.
#[export] Instance code_eq_dec : EqDecision code.
Proof. solve_decision. Defined.

(** ** Messages *)

Inductive FailedForkCleanupOp := REVOKE_GENERATION | EMPTY_BUCKET | DROP_BUCKET | RELEASE_DELTA.
#[export] Instance FailedForkCleanupOp_eq_dec : EqDecision FailedForkCleanupOp.
Proof. solve_decision. Defined.

(** What the control plane sends to a node. *)
Inductive command :=
| FailedForkCleanup (forkID : string) (gen : Z) (bucket : string) (op : FailedForkCleanupOp)
| UnpauseIfPaused (spawnID : string) (gen : Z)
| ForkTurnBoundary (sourceID : string) (gen : Z) (transferSetID : string)
| ReleaseForkTurnBoundary (sourceID : string) (gen : Z) (transferSetID : string)
| ForkSameNode (sourceID forkID : string) (sourceGeneration targetGeneration : Z) (transferSetID : string)
| CancelForkSameNode (sourceID forkID transferSetID : string)
| ForkTransferExport (sourceID forkID : string) (sourceGeneration targetGeneration : Z)
    (transferSetID targetNodeID : string)
| ForkTransferImport (sourceID forkID : string) (targetGeneration : Z) (transferSetID : string)
    (sealedTransferKey payload : string)
| CancelForkTransfer (sourceID forkID transferSetID : string)
| StopSpawn (spawnID : string) (gen : Z).

Record FailedForkCleanupComplete := {
  fc_ForkSpawnId : string; fc_Op : FailedForkCleanupOp; fc_Error : string }.
Record ForkTurnBoundaryComplete := {
  tb_SourceSpawnId : string; tb_TransferSetId : string; tb_Error : string }.
Record ForkSourceRestored := {
  sr_SourceSpawnId : string; sr_SourceGeneration : Z; sr_TransferSetId : string; sr_Error : string }.
(** [ForkSameNodeComplete] and [ForkTransferImported] have the same fields. *)
Record ForkComplete := {
  co_SourceSpawnId : string; co_ForkSpawnId : string; co_NodeId : string; co_Error : string;
  co_Mounts : list (string * string); co_RootfsArtifacts : list RootfsArtifactPin }.
Record ForkTransferExported := {
  ex_SourceSpawnId : string; ex_ForkSpawnId : string; ex_TransferSetId : string; ex_Error : string;
  ex_SealedTransferKey : string; ex_Payload : string }.

(** The answer to a node that reports the pods it still runs (readopt.go). *)
Inductive ReadoptVerdict := READOPT_UNSPECIFIED | ADOPT | REAP | DEFER.
#[export] Instance ReadoptVerdict_eq_dec : EqDecision ReadoptVerdict.
Proof. solve_decision. Defined.
Record AdoptSpawn := mkAdopt {
  as_Row : Spawn; as_SpawnId : string; as_Generation : Z; as_Mounts : list ((string * string) * Mount);
  as_JournalKeyDeliveryPending : bool }.
Record ReadoptDecision := mkDecision {
  rd_SpawnId : string; rd_Generation : Z; rd_Verdict : ReadoptVerdict; rd_Adopt : option AdoptSpawn }.
Record ManagedPodsDecisions := mkDecisions { md_RequestId : string; md_Decisions : list ReadoptDecision }.

(** A select of one reply: the context, the timer, or the reply. *)
Inductive awaited (A : Type) := Cancelled | Timed_out | Replied (m : A).
#[global] Arguments Cancelled {A}.
#[global] Arguments Timed_out {A}.
#[global] Arguments Replied {A} m.

(** What the materialization's select receives: until it returns or the wait ends. *)
Inductive same_arrival := Same_restored (m : ForkSourceRestored) | Same_complete (m : ForkComplete).
Inductive cross_arrival :=
| Cross_restored (m : ForkSourceRestored)
| Cross_exported (m : ForkTransferExported)
| Cross_imported (m : ForkComplete).

(** ** Questions *)

Inductive question :=
| Now
| Target_eligible (node : string)
(** the fork's footprint, when an estimator is configured and answers *)
| Footprint
(** [s.reg.PickFor] finds a node *)
| Room_on (node : string) (minDiskFree : Z)
| Check (what : string)
| PickNode (class_ : string) (minDiskFree : Z)
| Manifest_durability (app version : string)
| Journal_key (spawnID mount : string)
| Connected (node : string)
| Send (node : string) (c : command)
| Await_cleanup (op : FailedForkCleanupOp)
| Await_unpause (spawnID : string) (gen : Z)
| Await_boundary
| Context_cancelled
| Arrivals_same
| Arrivals_cross
| Provision (fork node : string) (gen : Z) (rootfs : option rootfsRestorePins)
| Lock_source | Unlock_source
| Mark_delivery_pending (id : string) | Clear_delivery_pending (id : string)
| Clear_provisioning (id : string)
| Register_intent | Cleanup_intent
| Stop_on_node (id : string) | Drop_route (id : string)
(** the session router: is there a route, are clients attached; a new route *)
| Route_bound (id : string) | Attached (id : string) | Bind_route (id node : string)
(** no suspension by the evaluator is in flight for the spawn: it is marked as in flight, and started *)
| Enter_driver (id : string) | Drive_suspend (id owner : string)
| Send_decisions (node : string) (ds : ManagedPodsDecisions).

(** The wait ends with the context, or with the timer. *)
Definition ending : Type := bool.

(** A journal key exists, does not ([ErrNotFound]), or cannot be read. *)
Inductive key_answer := Key_exists | Key_missing | Key_unreadable.

Definition answer (q : question) : Type :=
  match q with
  | Now => Z
  | Target_eligible _ => bool * bool
  | Footprint => option Z
  | Room_on _ _ | Check _ | Connected _ | Send _ _ | Context_cancelled | Route_bound _ | Attached _
  | Enter_driver _ | Send_decisions _ _ => bool
  | PickNode _ _ => option string
  | Manifest_durability _ _ => option (gmap string string)
  | Journal_key _ _ => key_answer
  | Await_cleanup _ => awaited FailedForkCleanupComplete
  | Await_unpause _ _ => awaited string
  | Await_boundary => awaited ForkTurnBoundaryComplete
  | Arrivals_same => list same_arrival * ending
  | Arrivals_cross => list cross_arrival * ending
  | Provision _ _ _ _ => result string string
  | _ => unit
  end.

Definition is_fault (e : StoreErr) : bool := match e with ErrDriver _ => true | _ => false end.

Abbreviation saga := (Sagas.saga (D := Tables) (E := StoreErr) (ans := answer)).
Abbreviation handler A := (saga (result fork_error A)).
Abbreviation event := (Sagas.event (D := Tables) (ans := answer)).
Abbreviation trace := (list event).
Abbreviation outcome := Database.outcome.
Abbreviation ask := (Sagas.ask (D := Tables) (E := StoreErr) (ans := answer)).
Abbreviation store m := (Sagas.store (ans := answer) m).

Definition fail {A} (e : fork_error) : handler A := mret (Err e).
Definition ok {A} (a : A) : handler A := mret (Ok a).
(** [if err != nil { return wrap(err) }] around a method of the store *)
Definition stored {A} (wrap : StoreErr -> fork_error) (m : DB A) : handler A :=
  r ← store m;
  match r with Err e => fail (wrap e) | Ok a => ok a end.
Definition internal (what : string) (_ : StoreErr) : fork_error := Connect CodeInternal what.
(** [if !cond { return err }] *)
Definition require_ (b : bool) (e : fork_error) : handler unit := if b then ok tt else fail e.
(** a condition of another part of the control plane *)
Definition check (what : string) (e : fork_error) : handler unit :=
  b ← ask (Check what); require_ b e.
