(* ===== verification/Durability.v ===== *)
(** * The durability guard of a move (src/internal/cp/durability.go)

    A spawn may move to another node only when each of its mounts survives the move: its key is
    sealed to the owner, or it is not journaled at all. *)

From S2P Require Import Prelude GoLib Database Sagas SpawnStore SpawnLifecycle Transitions CpEnv.
Open Scope Z_scope.

Inductive mountClass := mountClassEphemeral | mountClassNodeLocal | mountClassOwnerSealed.
#[export] Instance mountClass_eq_dec : EqDecision mountClass.
Proof. solve_decision. Defined.

(** The class a version's manifest declares for a mount whose key is not sealed to the owner. *)
Definition declared (decl : option string) : mountClass :=
  match decl with
  | Some decl =>
      if String.eqb decl "node-local" || String.eqb decl "owner-sealed"
      then mountClassNodeLocal else mountClassEphemeral
  | None => mountClassEphemeral
  end.

Fixpoint classify (spawnID : string) (manifestDurability : gmap string string)
    (mounts : list ((string * string) * Mount)) (result : gmap string mountClass)
    : handler (gmap string mountClass) :=
  match mounts with
  | [] => ok result
  | ((_, name), _) :: mounts =>
      g ← ask (Journal_key spawnID name);
      match g with
      | Key_exists => classify spawnID manifestDurability mounts (<[name := mountClassOwnerSealed]> result)
      | Key_unreadable => fail (Plain "classifyMounts: journalKeys.Get")
      | Key_missing =>
          classify spawnID manifestDurability mounts
            (<[name := declared (manifestDurability !! name)]> result)
      end
  end.

Definition classifyMounts (spawnID : string) : handler (gmap string mountClass) :=
  mounts ←! stored Store_error (GetMounts spawnID);
  sp ←! stored Store_error (Get spawnID);
  md ← ask (Manifest_durability (AppID sp) (AppVersion sp));
  classify spawnID (default ∅ md) mounts ∅.

Definition hasJournaledMount (classes : gmap string mountClass) : bool :=
  negb (bool_decide (map_Forall (fun _ class_ => class_ = mountClassEphemeral) classes)).

(** Each mount of a move between nodes. *)
Fixpoint guard_mounts (spawnID : string) (classes : gmap string mountClass) (upgrade : bool)
    (mounts : list ((string * string) * Mount)) : handler unit :=
  match mounts with
  | [] => ok tt
  | ((_, name), _) :: mounts =>
      if negb (bool_decide (default mountClassEphemeral (classes !! name) = mountClassNodeLocal))
      then guard_mounts spawnID classes upgrade mounts
      else if negb upgrade then fail (Connect CodeFailedPrecondition "moving requires upgrading")
      else
        g ← ask (Journal_key spawnID name);
        match g with
        | Key_missing => fail (Connect CodeFailedPrecondition "no owner-sealed ciphertext")
        | Key_unreadable => fail (Connect CodeInternal "journal key")
        | Key_exists => guard_mounts spawnID classes upgrade mounts
        end
  end.

Definition guardCrossNodeDurability (spawnID liveNodeID targetNodeID : string)
    (upgradeToOwnerSealed : bool) : handler unit :=
  if negb (String.eqb targetNodeID "") && String.eqb targetNodeID liveNodeID then ok tt
  else
    r ← classifyMounts spawnID;
    match r with
    | Err _ => fail (Connect CodeInternal "classify mounts")
    | Ok classes =>
        mounts ←! stored (internal "mounts") (GetMounts spawnID);
        guard_mounts spawnID classes upgradeToOwnerSealed mounts
    end.

(** [liveNodeForSpawn] *)
Definition liveNodeForSpawn (spawnID : string) : saga string :=
  r ← store (LiveContainer spawnID);
  mret (match r with Ok (Some (_, c)) => NodeID c | _ => "" end).

Definition forkNeedsJournalKeyDelivery (sourceID sourceNodeID targetNodeID : string) : handler bool :=
  if negb (String.eqb targetNodeID "") && String.eqb targetNodeID sourceNodeID then ok false
  else
    r ← classifyMounts sourceID;
    match r with
    | Err _ => fail (Connect CodeInternal "classify mounts")
    | Ok classes =>
        ok (negb (bool_decide (map_Forall (fun _ class_ => class_ <> mountClassOwnerSealed) classes)))
    end.
