(* ===== verification/SpawnNames.v ===== *)
(** * Display names (src/internal/cp/spawn_name.go)

    [nextSpawnName] counts up until a name is free.  It ends because only finitely many names are
    taken: the fuel is one more than their number. *)

From S2P Require Import Prelude GoLib.
Open Scope Z_scope.

(** [len([]rune(s))]: a byte that starts no well-formed sequence is a rune of its own. *)
Fixpoint rune_count_bytes (fuel : nat) (l : bytes) : Z :=
  match fuel, l with
  | O, _ | _, [] => 0
  | S n, _ :: _ => 1 + rune_count_bytes n (drop (Nat.max 1 (rune_width l)) l)
  end.
Definition rune_count (s : string) : Z := rune_count_bytes (String.length s) (bytes_of s).
Definition maxSpawnNameRunes : Z := 80.

Definition candidate (base : string) (i : Z) : string := base ++ " " ++ Itoa i.
Fixpoint first_free (fuel : nat) (base : string) (taken : gset string) (i : Z) : option string :=
  match fuel with
  | O => None
  | S n =>
      let cand := candidate base i in
      if bool_decide (cand ∈ taken) then first_free n base taken (i + 1) else Some cand
  end.
Definition nextSpawnName (base : string) (taken : gset string) : string :=
  let base := if String.eqb base "" then "spawn" else base in
  if negb (bool_decide (base ∈ taken)) then base
  else default base (first_free (S (size taken)) base taken 2).

Lemma candidate_inj base i j : 0 <= i < 2 ^ 63 -> 0 <= j < 2 ^ 63 -> candidate base i = candidate base j -> i = j.
Proof.
  intros Hi Hj Heq. unfold candidate in Heq. apply (inj (String.append base)) in Heq.
  apply (inj (String.append " ")) in Heq.
  pose proof (Atoi_Itoa i Hi) as Ha. rewrite Heq, Atoi_Itoa in Ha by done. by injection Ha.
Qed.

(** The candidates before the one found are taken, and there are not enough names for more. *)
Lemma first_free_spec fuel base taken i :
  (forall j, i <= j < i + Z.of_nat fuel -> candidate base j ∈ taken) \/
  exists k, i <= k < i + Z.of_nat fuel /\ first_free fuel base taken i = Some (candidate base k) /\
    candidate base k ∉ taken /\ forall j, i <= j < k -> candidate base j ∈ taken.
Proof.
  revert i. induction fuel as [|n IH]; intros i; [left; lia|].
  cbn [first_free]. case_bool_decide as Hin.
  - destruct (IH (i + 1)) as [Hall|(k & Hk & -> & Hfree & Hbefore)].
    + left. intros j Hj. destruct (decide (j = i)) as [->|]; [done|]. apply Hall. lia.
    + right. exists k. split_and!; [lia|lia|done|done|]. intros j Hj.
      destruct (decide (j = i)) as [->|]; [done|]. apply Hbefore. lia.
  - right. exists i. split_and!; [lia|lia|done|done|lia].
Qed.

Lemma candidates_fit (base : string) (taken : gset string) (n : nat) :
  2 + Z.of_nat n < 2 ^ 63 ->
  (forall j, 2 <= j < 2 + Z.of_nat n -> candidate base j ∈ taken) -> (n <= size taken)%nat.
Proof.
  intros Hb Hall.
  set (l := (fun k => candidate base (2 + Z.of_nat k)) <$> seq 0 n).
  assert (NoDup l) as Hnd.
  { apply NoDup_fmap_2_strong; [|apply NoDup_seq]. intros x y Hx Hy Heq.
    apply elem_of_seq in Hx, Hy. apply candidate_inj in Heq; lia. }
  assert (list_to_set l ⊆ taken) as Hsub.
  { intros x. rewrite elem_of_list_to_set. unfold l. rewrite list_elem_of_fmap.
    intros (k & -> & Hk%elem_of_seq). apply Hall. lia. }
  apply subseteq_size in Hsub. rewrite size_list_to_set in Hsub by done.
  unfold l in Hsub. by rewrite length_fmap, length_seq in Hsub.
Qed.

(** An owner's spawns get distinct default names.  [nextSpawnName] always ends, whatever the
    names taken are, with one that is not: the base itself, or the base with the first number
    from 2 up that makes it free. *)
Theorem next_spawn_name_is_free base taken :
  Z.of_nat (size taken) < 2 ^ 62 ->
  nextSpawnName base taken ∉ taken /\
  (nextSpawnName base taken = (if String.eqb base "" then "spawn" else base) \/
   exists k, 2 <= k /\ nextSpawnName base taken = candidate (if String.eqb base "" then "spawn" else base) k /\
     forall j, 2 <= j < k -> candidate (if String.eqb base "" then "spawn" else base) j ∈ taken).
Proof.
  intros Hsize. unfold nextSpawnName. set (b := if String.eqb base "" then "spawn" else base).
  case_bool_decide as Hin; cbn [negb]; [|by split; [|left]].
  destruct (first_free_spec (S (size taken)) b taken 2) as [Hall|(k & Hk & -> & Hfree & Hbefore)].
  - assert (S (size taken) <= size taken)%nat as Hle by (apply (candidates_fit b); [lia|done]). lia.
  - split; [done|]. right. exists k. split_and!; [lia|done|done].
Qed.

Lemma next_spawn_name_is_free_witness :
  nextSpawnName "wiki fork" {["wiki fork"; "wiki fork 2"]} = "wiki fork 3" /\
  nextSpawnName "wiki fork" {["wiki fork"; "wiki fork 2"]} ∉ ({["wiki fork"; "wiki fork 2"]} : gset string).
Proof.
  split; [vm_compute; reflexivity|].
  apply (next_spawn_name_is_free "wiki fork" {["wiki fork"; "wiki fork 2"]}). vm_compute. reflexivity.
Defined.
