(* ===== verification/ForkCleanup.v ===== *)
(** * Unwinding failed forks and recovering their sources
    (src/internal/cp/fork_cleanup.go, fork_recovery.go)

    A fork that failed is reclaimed by revoking its generation, emptying its bucket and releasing
    its delta on the node, then deleting its row, under a claim.  A source left forking is
    unpaused on its node and taken back to active.  Both run from the reconciler, and from the
    fork's own error path. *)

From S2P Require Import Prelude GoLib Database Sagas SpawnStore SpawnLifecycle TransferSets.
From S2P Require Import Transitions CpEnv.
Open Scope Z_scope.

Definition Minute : Z := 60 * Second.
Definition defaultSuspendTimeout : Z := 10 * Minute.
Definition defaultResumeTimeout : Z := 10 * Minute.
Definition defaultForkMaterializeTimeout : Z := defaultSuspendTimeout.
Definition defaultForkCaptureTimeout : Z := defaultSuspendTimeout.

(** [time.Time.Unix] of a clock in nanoseconds *)
Definition seconds (nano : Z) : Z := nano / Second.

Definition forkBucketName (forkID : string) : string := "spawnery-spawn-" ++ forkID.

Section Cleanup.
(** The control plane's id, its claims' time to live, the lease drawn to unwind or to recover a
    spawn; whether [failedForkResources] is configured. *)
Context (cpID : string) (claimTTL : Z) (lease : string -> string) (configured : bool).

(** ** The node's side: [nodeFailedForkResources] *)

Definition cleanup_send (nodeID forkID : string) (gen : Z) (bucket : string) (op : FailedForkCleanupOp)
    : handler unit :=
  if String.eqb nodeID "" then fail (Plain "no target node")
  else
    c ← ask (Connected nodeID);
    if negb c then fail (Plain "node is not connected")
    else
      sent ← ask (Send nodeID (FailedForkCleanup forkID gen bucket op));
      if negb sent then fail (Plain "send")
      else
        w ← ask (Await_cleanup op);
        match w with
        | Cancelled => fail Context_done
        | Timed_out => fail (Plain "timed out")
        | Replied msg =>
            if negb (String.eqb (fc_ForkSpawnId msg) forkID) || negb (bool_decide (fc_Op msg = op))
            then fail (Plain "completion ids do not match request")
            else if negb (String.eqb (fc_Error msg) "") then fail (Plain (fc_Error msg))
            else ok tt
        end.
Definition RevokeForkGeneration (nodeID forkID : string) (gen : Z) : handler unit :=
  cleanup_send nodeID forkID gen "" REVOKE_GENERATION.
Definition EmptyForkBucket (nodeID forkID bucket : string) : handler unit :=
  cleanup_send nodeID forkID 0 bucket EMPTY_BUCKET.
Definition DropForkBucket (nodeID forkID bucket : string) : handler unit :=
  cleanup_send nodeID forkID 0 bucket DROP_BUCKET.
Definition ReleaseForkDelta (nodeID forkID : string) : handler unit :=
  cleanup_send nodeID forkID 0 "" RELEASE_DELTA.

(** ** Unwinding *)

Record failedForkUnwind := mkUnwind {
  ForkID : string; uw_Generation : Z; Bucket : string; uw_NodeID : string;
  NowUnixNano : Z; DeletedAtUnix : Z }.

(** Under the claim: the node's three steps, then the row. *)
Definition unwind_claimed (cfg : failedForkUnwind) (live : option ((string * Z) * Container)) (seq : Z)
    : handler unit :=
  let nodeID := if String.eqb (uw_NodeID cfg) ""
                then match live with Some (_, c) => NodeID c | None => "" end else uw_NodeID cfg in
  let expectedGen := match live with Some ((_, g), _) => g | None => 0 end in
  RevokeForkGeneration nodeID (ForkID cfg) (uw_Generation cfg);!
  EmptyForkBucket nodeID (ForkID cfg) (Bucket cfg);!
  ReleaseForkDelta nodeID (ForkID cfg);!
  stored Store_error (MarkDeletedClaimed true (ForkID cfg) (lease (ForkID cfg)) seq expectedGen (DeletedAtUnix cfg));!
  ok tt.

Definition unwindFailedFork (cfg : failedForkUnwind) : handler unit :=
  if negb configured then ok tt
  else
    r ← store (Get (ForkID cfg));
    match r with
    | Err ErrNotFound => ok tt
    | Err e => fail (Store_error e)
    | Ok sp =>
        if bool_decide (SpawnStatus sp = Active) then ok tt
        else
          live ←! stored Store_error (LiveContainer (ForkID cfg));
          r ← store (Acquire (ForkID cfg) cpID (lease (ForkID cfg)) (NowUnixNano cfg)
                       (NowUnixNano cfg + claimTTL) (StatusSeq sp));
          match r with
          | Err ErrConflict => ok tt
          | Err e => fail (Store_error e)
          | Ok seq => unwind_claimed cfg live seq
          end
    end.

Definition staleRestoringForkGrace : Z :=
  2 * defaultForkMaterializeTimeout + defaultResumeTimeout + claimTTL.

(** The sweep goes through the reclaimable forks and stops at the first it cannot unwind. *)
Fixpoint sweep_rows (rows : list (string * TransferSet)) : handler unit :=
  match rows with
  | [] => ok tt
  | (_, ts) :: rows =>
      let forkID := if String.eqb (ForkSpawnID ts) "" then ts_SpawnID ts else ForkSpawnID ts in
      now ← ask Now;
      unwindFailedFork (mkUnwind forkID (TargetGeneration ts) (forkBucketName forkID) (TargetNodeID ts)
                          now (seconds now));!
      sweep_rows rows
  end.
Definition sweepFailedForks : handler unit :=
  now ← ask Now;
  rows ←! stored Store_error (TransferSets.ListReclaimableForks (now - staleRestoringForkGrace));
  if negb configured then ok tt else sweep_rows rows.

(** ** The source *)

(** [nodeForkPauseController.UnpauseIfPaused] *)
Definition unpauseIfPaused (spawnID : string) (generation : Z) : handler unit :=
  live ←! stored Store_error (LiveContainer spawnID);
  match live with
  | None => ok tt
  | Some ((_, g), c) =>
      if negb (generation =? 0) && negb (g =? generation) then ok tt
      else
        up ← ask (Connected (NodeID c));
        if negb up then fail (Connect CodeFailedPrecondition "source node is not connected")
        else
          sent ← ask (Send (NodeID c) (UnpauseIfPaused spawnID generation));
          if negb sent then fail (Connect CodeUnavailable "send unpause")
          else
            w ← ask (Await_unpause spawnID generation);
            match w with
            | Cancelled => fail Context_done
            | Timed_out => fail (Connect CodeDeadlineExceeded "timed out waiting for unpause")
            | Replied e =>
                if negb (String.eqb e "") then fail (Connect CodeFailedPrecondition "unpause source")
                else ok tt
            end
  end.

Definition is_restored (sp : Spawn) : bool :=
  bool_decide (SpawnStatus sp = Active) && is_none (ForkCaptureDeadline sp).

Definition restoreForkingSource (sourceID leaseID : string) (generation : Z) : handler unit :=
  sp ←! stored Store_error (Get sourceID);
  if is_restored sp then ok tt
  else if negb (bool_decide (SpawnStatus sp = Forking)) then fail (Store_error ErrConflict)
  else
    r ← store (TransitionForkingRecovered sourceID leaseID (StatusSeq sp) generation);
    match r with
    | Ok _ => ok tt
    | Err ErrConflict =>
        current ← store (Get sourceID);
        match current with
        | Ok current => if is_restored current then ok tt else fail (Store_error ErrConflict)
        | Err _ => fail (Store_error ErrConflict)
        end
    | Err e => fail (Store_error e)
    end.

Definition restoreForkingSourceAfterUnpause (sourceID leaseID : string) (generation : Z) : handler unit :=
  unpauseIfPaused sourceID generation;!
  restoreForkingSource sourceID leaseID generation.

(** [errors.Is(err, store.ErrConflict)] is not an error *)
Definition unless_conflict {A} (m : DB A) : handler unit :=
  r ← store m;
  match r with Ok _ | Err ErrConflict => ok tt | Err e => fail (Store_error e) end.

(** The source's row as the reconciler listed it. *)
Definition recoverForkingSource (id : string) (sp : Spawn) (nowTS : Z) : handler unit :=
  live ←! stored Store_error (LiveContainer id);
  match live with
  | None => unless_conflict (MarkForkingLost true id (StatusSeq sp))
  | Some ((_, g), _) =>
      now ← ask Now;
      r ← store (AcquireForkingRecovery id cpID (lease id) nowTS (now + claimTTL) (StatusSeq sp));
      match r with
      | Err ErrConflict => ok tt
      | Err e => fail (Store_error e)
      | Ok seq =>
          u ← unpauseIfPaused id g;
          match u with
          | Err e =>
              if bool_decide (CodeOf e = CodeFailedPrecondition) || bool_decide (CodeOf e = CodeUnavailable)
              then unless_conflict (MarkForkingLost true id seq)
              else fail e
          | Ok _ =>
              r ← store (TransitionForkingRecovered id (lease id) seq g);
              match r with
              | Err ErrConflict => ok tt
              | Err e => fail (Store_error e)
              | Ok _ => _ ← store (Release id (lease id)); ok tt
              end
          end
      end
  end.

(** An error of one source is logged. *)
Fixpoint recover_rows (nowTS : Z) (rows : list (string * Spawn)) : handler unit :=
  match rows with
  | [] => ok tt
  | (id, sp) :: rows => _ ← recoverForkingSource id sp nowTS; recover_rows nowTS rows
  end.
Definition recoverForkingSources : handler unit :=
  nowTS ← ask Now;
  rows ←! stored Store_error (ListRecoverableForking nowTS);
  recover_rows nowTS rows.
End Cleanup.
