(* ===== verification/Fork.v ===== *)
(** * Forking a spawn (src/internal/cp/fork.go, fork_materializer.go)

    A fork copies a running spawn: a row and a transfer set are created, the source is held at a
    turn boundary and marked forking under a claim while its node captures it, the source is given
    back as soon as the node says it runs again, and the copy is started from the pins of what was
    captured.  What the handler holds meanwhile (Go's deferred functions and the flags they look
    at) is a value that the stages pass on. *)

From S2P Require Import Prelude GoLib Database Sagas SpawnStore SpawnLifecycle TransferSets.
From S2P Require Import Transitions Migration CpEnv Durability SpawnNames ForkCleanup.
Open Scope Z_scope.

(** ** Disk headroom *)

Definition forkHeadroomMultiplier : Z := 3.
Definition maxInt64 : Z := 2 ^ 63 - 1.
Definition requiredForkHeadroomBytes (sourceFootprintBytes : Z) : Z :=
  if sourceFootprintBytes <=? 0 then 0
  else if Z.quot maxInt64 forkHeadroomMultiplier <? sourceFootprintBytes then maxInt64
  else i64 (sourceFootprintBytes * forkHeadroomMultiplier).

Definition forkHeadroomBytes : handler Z :=
  f ← ask Footprint;
  match f with
  | None => fail (Plain "fork source disk footprint is unknown")
  | Some footprint =>
      if footprint <? 0 then fail (Plain "fork source disk footprint is negative")
      else ok (requiredForkHeadroomBytes footprint)
  end.
Definition checkForkDiskHeadroom (targetNodeID : string) (headroomBytes : Z) : handler unit :=
  if headroomBytes <=? 0 then ok tt
  else
    room ← ask (Room_on targetNodeID headroomBytes);
    require_ room (Connect CodeOther "no fork disk headroom").

(** ** What the nodes report *)

Record forkMaterializeRequest := mkRequest {
  mq_SourceGeneration : Z; mq_TargetGeneration : Z; mq_SourceNodeID : string;
  mq_TargetNodeID : string; mq_BaseImageDigest : string }.
Record forkMaterializeResult := mkResult {
  fr_NodeID : string; fr_MountPins : gmap string string; fr_RootfsPins : list RootfsArtifactPin }.

Definition mountPinsFromForkComplete (markers : list (string * string)) : gmap string string :=
  foldl (fun m '(name, marker) =>
    if negb (String.eqb name "") && negb (String.eqb marker "") then <[name := marker]> m else m)
    ∅ markers.
Definition rootfsPinsFromArtifacts (artifacts : list RootfsArtifactPin) (targetGeneration : Z)
    (baseImageDigest : string) : result string (list RootfsArtifactPin) :=
  match artifacts with
  | [] => Ok []
  | _ =>
      match pins_of targetGeneration baseImageDigest artifacts with
      | Err e => Err e
      | Ok pins =>
          let pins := sortedRootfsArtifactPins pins in
          match validateRootfsArtifactPinChain pins with Err e => Err e | Ok _ => Ok pins end
      end
  end.

(** The checks that may turn a handler's result away. *)
Section Materialize.
Context (sourceID forkID transferSetID : string) (req : forkMaterializeRequest).

(** [forkResultFromComplete] and [forkResultFromImported], word for word the same but for their
    messages. *)
Definition forkResultFromComplete (msg : ForkComplete) : result fork_error forkMaterializeResult :=
  if negb (String.eqb (co_Error msg) "") then Err (Connect CodeInternal (co_Error msg))
  else if negb (String.eqb (co_SourceSpawnId msg) sourceID) || negb (String.eqb (co_ForkSpawnId msg) forkID)
  then Err (Connect CodeFailedPrecondition "ids do not match request")
  else
    match rootfsPinsFromArtifacts (co_RootfsArtifacts msg) (mq_TargetGeneration req) (mq_BaseImageDigest req) with
    | Err e => Err (Connect CodeFailedPrecondition e)
    | Ok rootfsPins =>
        let nodeID := if String.eqb (co_NodeId msg) "" then mq_TargetNodeID req else co_NodeId msg in
        Ok (mkResult nodeID (mountPinsFromForkComplete (co_Mounts msg)) rootfsPins)
    end.

(** A command to a node whose failure is only logged. *)
Definition send_quietly (node : string) (c : command) : saga unit :=
  up ← ask (Connected node);
  if (up : bool) then (_ ← ask (Send node c); mret tt) else mret tt.

Definition releaseForkTurnBoundary : saga unit :=
  send_quietly (mq_SourceNodeID req)
    (ReleaseForkTurnBoundary sourceID (mq_SourceGeneration req) transferSetID).

(** [WaitForForkTurnBoundary]: once the command is sent an error releases the boundary. *)
Definition waitForkTurnBoundary : handler unit :=
  up ← ask (Connected (mq_SourceNodeID req));
  if negb up then fail (Connect CodeFailedPrecondition "source node is not connected")
  else
    sent ← ask (Send (mq_SourceNodeID req) (ForkTurnBoundary sourceID (mq_SourceGeneration req) transferSetID));
    if negb sent then fail (Connect CodeUnavailable "send fork turn-boundary")
    else
      w ← ask Await_boundary;
      let r : result fork_error unit :=
        match w with
        | Cancelled => Err Context_done
        | Timed_out => Err (Connect CodeDeadlineExceeded "fork turn boundary")
        | Replied msg =>
            if negb (String.eqb (tb_Error msg) "") then Err (Connect CodeFailedPrecondition (tb_Error msg))
            else if negb (String.eqb (tb_SourceSpawnId msg) sourceID)
                    || negb (String.eqb (tb_TransferSetId msg) transferSetID)
            then Err (Connect CodeFailedPrecondition "ids do not match request")
            else Ok tt
        end in
      match r with
      | Err e => releaseForkTurnBoundary;; fail e
      | Ok _ => ok tt
      end.

(** ** Materializing

    [H] is what the handler holds; [onSourceRestored] gives the source back. *)
Context {H : Type} (onSourceRestored : H -> saga (result fork_error unit * H)).
Definition outcome_of : Type := result fork_error forkMaterializeResult * H.

Definition cancelForkSameNode : saga unit :=
  send_quietly (mq_SourceNodeID req) (CancelForkSameNode sourceID forkID transferSetID).
Definition cancelForkTransfer : saga unit :=
  send_quietly (mq_SourceNodeID req) (CancelForkTransfer sourceID forkID transferSetID);;
  if String.eqb (mq_TargetNodeID req) (mq_SourceNodeID req) then mret tt
  else send_quietly (mq_TargetNodeID req) (CancelForkTransfer sourceID forkID transferSetID).

Definition wait_ended (e : ending) : fork_error :=
  if e then Context_done else Connect CodeDeadlineExceeded "timed out waiting for fork".

Definition handleSourceRestored (msg : ForkSourceRestored) (sourceRestored : bool) (h : H)
    : saga (result fork_error unit * H) :=
  if negb (String.eqb (sr_Error msg) "") then mret (Err (Connect CodeInternal (sr_Error msg)), h)
  else if negb (String.eqb (sr_SourceSpawnId msg) sourceID)
          || negb (sr_SourceGeneration msg =? mq_SourceGeneration req)
          || negb (String.eqb (sr_TransferSetId msg) transferSetID)
  then mret (Err (Connect CodeFailedPrecondition "ids do not match request"), h)
  else if sourceRestored then mret (Ok tt, h)
  else onSourceRestored h.

(** The select of the same-node fork over what arrives; the wait ends when nothing more does. *)
Fixpoint same_node_loop (arrivals : list same_arrival) (e : ending) (sourceRestored : bool)
    (pendingComplete : option ForkComplete) (h : H) : saga outcome_of :=
  match arrivals with
  | [] => cancelForkSameNode;; mret (Err (wait_ended e), h)
  | Same_restored msg :: arrivals =>
      '(r, h) ← handleSourceRestored msg sourceRestored h;
      match r, pendingComplete with
      | Err err, _ => mret (Err err, h)
      | Ok _, Some msg => mret (forkResultFromComplete msg, h)
      | Ok _, None => same_node_loop arrivals e true None h
      end
  | Same_complete msg :: arrivals =>
      if negb sourceRestored then same_node_loop arrivals e sourceRestored (Some msg) h
      else mret (forkResultFromComplete msg, h)
  end.

Definition materialize_same_node (h : H) : saga outcome_of :=
  up ← ask (Connected (mq_SourceNodeID req));
  if negb up then mret (Err (Connect CodeFailedPrecondition "source node is not connected"), h)
  else
    sent ← ask (Send (mq_SourceNodeID req)
                  (ForkSameNode sourceID forkID (mq_SourceGeneration req) (mq_TargetGeneration req) transferSetID));
    if negb sent then mret (Err (Connect CodeUnavailable "send fork command"), h)
    else
      cancelled ← ask Context_cancelled;
      if (cancelled : bool) then cancelForkSameNode;; mret (Err Context_done, h)
      else '(arrivals, e) ← ask Arrivals_same; same_node_loop arrivals e false None h.

Definition cross_fail (err : fork_error) (h : H) : saga outcome_of :=
  cancelForkTransfer;; mret (Err err, h).

(** What the source exported goes to the target. *)
Definition handleExported (msg : ForkTransferExported) : handler unit :=
  if negb (String.eqb (ex_Error msg) "") then fail (Connect CodeInternal (ex_Error msg))
  else if negb (String.eqb (ex_SourceSpawnId msg) sourceID) || negb (String.eqb (ex_ForkSpawnId msg) forkID)
          || negb (String.eqb (ex_TransferSetId msg) transferSetID)
  then fail (Connect CodeFailedPrecondition "ids do not match request")
  else if (blen (ex_SealedTransferKey msg) =? 0) || (blen (ex_Payload msg) =? 0)
  then fail (Connect CodeFailedPrecondition "missing ciphertext")
  else
    sent ← ask (Send (mq_TargetNodeID req)
                  (ForkTransferImport sourceID forkID (mq_TargetGeneration req) transferSetID
                     (ex_SealedTransferKey msg) (ex_Payload msg)));
    require_ sent (Connect CodeUnavailable "send fork transfer import").

Fixpoint cross_node_loop (arrivals : list cross_arrival) (e : ending) (sourceRestored : bool)
    (pendingImported : option ForkComplete) (h : H) : saga outcome_of :=
  match arrivals with
  | [] => cross_fail (wait_ended e) h
  | Cross_restored msg :: arrivals =>
      '(r, h) ← handleSourceRestored msg sourceRestored h;
      match r, pendingImported with
      | Err err, _ => cross_fail err h
      | Ok _, Some msg => mret (forkResultFromComplete msg, h)
      | Ok _, None => cross_node_loop arrivals e true None h
      end
  | Cross_exported msg :: arrivals =>
      r ← handleExported msg;
      match r with
      | Err err => cross_fail err h
      | Ok _ => cross_node_loop arrivals e sourceRestored pendingImported h
      end
  | Cross_imported msg :: arrivals =>
      if negb sourceRestored then cross_node_loop arrivals e sourceRestored (Some msg) h
      else mret (forkResultFromComplete msg, h)
  end.

Definition materialize_cross_node (h : H) : saga outcome_of :=
  up ← ask (Connected (mq_SourceNodeID req));
  if negb up then mret (Err (Connect CodeFailedPrecondition "source node is not connected"), h)
  else
    up ← ask (Connected (mq_TargetNodeID req));
    if negb up then mret (Err (Connect CodeFailedPrecondition "target node is not connected"), h)
    else
      keys ← ask (Check "forkTargetKeyMaterial");
      if negb keys then mret (Err (Plain "forkTargetKeyMaterial"), h)
      else
        sent ← ask (Send (mq_SourceNodeID req)
                      (ForkTransferExport sourceID forkID (mq_SourceGeneration req)
                         (mq_TargetGeneration req) transferSetID (mq_TargetNodeID req)));
        if negb sent then mret (Err (Connect CodeUnavailable "send fork transfer export"), h)
        else '(arrivals, e) ← ask Arrivals_cross; cross_node_loop arrivals e false None h.

(** [MaterializeForkWithSourceRestored] *)
Definition materializeFork (h : H) : saga outcome_of :=
  if negb (String.eqb (mq_SourceNodeID req) (mq_TargetNodeID req)) then materialize_cross_node h
  else materialize_same_node h.
End Materialize.
