(* ===== verification/ForkSpawn.v ===== *)
(** * The fork handler (src/internal/cp/fork.go: ForkSpawn, forkSpawnClaimed, startFork) *)

From S2P Require Import Prelude GoLib Database Sagas SpawnStore SpawnLifecycle TransferSets.
From S2P Require Import Transitions Migration CpEnv Durability SpawnNames ForkCleanup Fork.
Open Scope Z_scope.

(** What the request and the checks have fixed when the fork's rows are created. *)
Record plan := mkPlan {
  pl_source : Spawn; pl_gen : Z; pl_node : string; pl_target : string; pl_name : string;
  pl_mounts : list ((string * string) * Mount); pl_artifacts : list ((string * string) * Artifact);
  pl_needsKey : bool }.

(** What the handler has to give back: the turn boundary, the source's in-process lock, its claim,
    and the source itself once it is marked forking ([restoreOnFailure], with the generation). *)
Record held := mkHeld {
  barrierAcquired : bool; sourceLockHeld : bool; claimHeld : bool; restoreOnFailure : option Z }.
#[export] Instance eta_held : Eta held := fun h =>
  mkHeld (barrierAcquired h) (sourceLockHeld h) (claimHeld h) (restoreOnFailure h).

Section ForkSpawn.
(** The request's owner and source, the ids drawn for the fork, its transfer set and the claim of
    the source; the control plane's id and settings; the leases of the cleanup. *)
Context (owner sourceID forkID transferSetID leaseID cpID : string).
Context (claimTTL maxSpawnsPerOwner : Z) (intentEnabled configured : bool) (lease : string -> string).

Definition forkName (source : Spawn) (requested : string) : handler string :=
  let name := TrimSpace requested in
  if negb (String.eqb name "") && (rune_count name <=? maxSpawnNameRunes) then ok name
  else
    existing ←! stored (internal "names") (ListByOwner owner);
    let taken : gset string := list_to_set ((fun row : string * Spawn => Name row.2) <$> existing) in
    let base := TrimSpace (Name source) in
    let base := if String.eqb base "" then sourceID else base in
    ok (nextSpawnName (base ++ " fork") taken).

(** [failForkAfterRow] *)
Definition failForkAfterRow (gen : Z) (cause : fork_error) : saga fork_error :=
  now ← ask Now;
  ask (Clear_delivery_pending forkID);;
  store (TransferSets.SetStatus transferSetID TransferSetFailed now);;
  ts ← store (TransferSets.Get transferSetID);
  let nodeID := match ts with Ok ts => TargetNodeID ts | Err _ => "" end in
  r ← unwindFailedFork cpID claimTTL lease configured
        (mkUnwind forkID gen (forkBucketName forkID) nodeID now (seconds now));
  mret (match r with Err _ => Connect CodeInternal "fork failed and unwind failed" | Ok _ => cause end).

Definition activateForkAndTransferSet (nodeID : string) (targetGeneration now1 now2 : Z) : DB unit :=
  run_in_tx (
    SetActive forkID nodeID (i64 targetGeneration);;
    TransferSets.SetTargetNode transferSetID nodeID now1;;
    TransferSets.SetStatus transferSetID TransferSetActive now2).

(** ** Starting the copy *)

Definition start_body (nodeID : string) (targetGeneration : Z) (rootfsPins : list RootfsArtifactPin)
    (rootfsLocalOnly : bool) : handler string :=
  stored (internal "artifacts") (GetArtifacts forkID);!
  stored (internal "mounts") (GetMounts forkID);!
  r ← (if intentEnabled then ask Register_intent;;
         check "await fork SignedIntent" (Connect CodeDeadlineExceeded "await fork SignedIntent");!
         check "validateSubmittedStartupSecrets" (Connect CodeFailedPrecondition "startup secrets");!
         check "ensureStartupSecretsExist" (Plain "startup secrets");!
         check "validateGitHubMountCredentialType" (Plain "credential type")
       else ok tt);
  let rootfs := mkRestore targetGeneration rootfsPins rootfsLocalOnly in
  r ← (match r with
       | Err e => fail e
       | Ok _ =>
           check "nodeArtifactsForStart" (Plain "presign");!
           p ← ask (Provision forkID nodeID targetGeneration (schedulerRootfsRestore (Some rootfs)));
           match p with Err e => fail (Plain e) | Ok node => ok node end
       end);
  (if intentEnabled then ask Cleanup_intent else mret tt);;
  mret r.
Definition startFork (nodeID : string) (targetGeneration : Z) (rootfsPins : list RootfsArtifactPin)
    (rootfsLocalOnly : bool) : handler string :=
  r ← start_body nodeID targetGeneration rootfsPins rootfsLocalOnly;
  ask (Clear_provisioning forkID);;
  mret r.

(** ** The source's claim *)

(** [acquireClaim] of server.go, as a saga. *)
Fixpoint claimSource (n : nat) : handler unit :=
  match n with
  | O => fail (Connect CodeAborted "spawn busy")
  | S n =>
      r ← store (Get sourceID);
      match r with
      | Err _ => fail (Connect CodeNotFound "unknown spawn")
      | Ok sp =>
          now ← ask Now;
          r ← store (Acquire sourceID cpID leaseID now (now + claimTTL) (StatusSeq sp));
          match r with
          | Ok _ => ok tt
          | Err ErrConflict => claimSource n
          | Err e => fail (Connect CodeInternal "acquire")
          end
      end
  end.

(** [releaseSource]: the claim, then the lock; what is no longer held is skipped. *)
Definition releaseSource (h : held) : saga held :=
  (if claimHeld h then _ ← store (Release sourceID leaseID); mret tt else mret tt);;
  (if sourceLockHeld h then ask Unlock_source else mret tt);;
  mret (h <| claimHeld := false |> <| sourceLockHeld := false |>).

(** ** What happens once the rows exist *)

Definition targetGeneration : Z := 1.

Section Rows.
Context (pl : plan).
Definition request : forkMaterializeRequest :=
  mkRequest (u64 (pl_gen pl)) targetGeneration (pl_node pl) (pl_target pl) (BaseImageDigest (pl_source pl)).
Definition release_boundary (h : held) : saga held :=
  if barrierAcquired h
  then releaseForkTurnBoundary sourceID transferSetID request;; mret (h <| barrierAcquired := false |>)
  else mret h.

(** The callback of the materialization. *)
Definition onSourceRestored (generation : Z) (h : held) : saga (result fork_error unit * held) :=
  r ← restoreForkingSource sourceID leaseID generation;
  match r with
  | Err e => mret (Err e, h)
  | Ok _ =>
      h ← releaseSource (h <| restoreOnFailure := None |>);
      h ← release_boundary h;
      mret (Ok tt, h)
  end.

(** The deferred functions, last registered first. *)
Definition deferred (h : held) : saga unit :=
  (match restoreOnFailure h with
   | Some generation => _ ← restoreForkingSourceAfterUnpause sourceID leaseID generation; mret tt
   | None => mret tt
   end);;
  h ← releaseSource h;
  _ ← release_boundary h;
  mret tt.

Definition failed (cause : fork_error) (h : held) : saga (result fork_error string * held) :=
  e ← failForkAfterRow targetGeneration cause; mret (Err e, h).
Definition stop_fork : saga unit := ask (Stop_on_node forkID);; ask (Drop_route forkID).

(** After the capture: the pins, the copy, its activation. *)
Definition finish_fork (res : forkMaterializeResult) (h : held) : saga (result fork_error string * held) :=
  now ← ask Now;
  r ← store (TransferSets.SetPins transferSetID (u64 (pl_gen pl)) (fr_MountPins res) (fr_RootfsPins res) now);
  match r with
  | Err _ => failed (Connect CodeInternal "record fork transfer pins") h
  | Ok _ =>
      let nodeID := TrimSpace (fr_NodeID res) in
      let nodeID := if String.eqb nodeID "" then pl_target pl else nodeID in
      r ← startFork nodeID targetGeneration (fr_RootfsPins res) (String.eqb nodeID (pl_node pl));
      match r with
      | Err e => stop_fork;; failed (asConnectError CodeInternal e) h
      | Ok nodeID =>
          now1 ← ask Now; now2 ← ask Now;
          r ← store (activateForkAndTransferSet nodeID targetGeneration now1 now2);
          match r with
          | Err _ => stop_fork;; failed (Connect CodeInternal "activate fork") h
          | Ok _ => mret (Ok nodeID, h)
          end
      end
  end.

(** Under the claim: the source must not have changed; it is marked forking and captured. *)
Definition fork_claimed (h : held) : saga (result fork_error string * held) :=
  r ← store (Get sourceID);
  match r with
  | Err _ => failed (Connect CodeNotFound "unknown spawn") h
  | Ok currentSource =>
      if negb (bool_decide (SpawnStatus currentSource = Active))
      then failed (Connect CodeFailedPrecondition "spawn must still be active to fork") h
      else
        r ← store (LiveContainer sourceID);
        match r with
        | Err _ => failed (Connect CodeInternal "live container") h
        | Ok None => failed (Connect CodeFailedPrecondition "no live source container") h
        | Ok (Some ((_, g), c)) =>
            if String.eqb (NodeID c) ""
            then failed (Connect CodeFailedPrecondition "no live source container") h
            else if negb (g =? i64 (u64 (pl_gen pl))) || negb (String.eqb (NodeID c) (pl_node pl))
            then failed (Connect CodeAborted "source changed while fork was waiting") h
            else
              now ← ask Now;
              r ← store (SetForking sourceID g (now + defaultForkCaptureTimeout));
              match r with
              | Err _ => failed (Connect CodeInternal "mark source forking") h
              | Ok _ =>
                  '(res, h) ← materializeFork sourceID forkID transferSetID request (onSourceRestored g)
                                (h <| restoreOnFailure := Some g |>);
                  match res with
                  | Err e => failed (asConnectError CodeInternal e) h
                  | Ok res => finish_fork res h
                  end
              end
        end
  end.

(** At the turn boundary: the lock and the claim. *)
Definition fork_at_boundary : handler string :=
  ask Lock_source;;
  let h := mkHeld true true false None in
  c ← claimSource maxAcquireRetries;
  '(r, h) ← match c with
            | Err e => failed e h
            | Ok _ => fork_claimed (h <| claimHeld := true |>)
            end;
  deferred h;;
  mret r.

Definition failed_row (cause : fork_error) : handler string :=
  e ← failForkAfterRow targetGeneration cause; fail e.

Definition after_rows : handler string :=
  (if pl_needsKey pl then ask (Mark_delivery_pending forkID) else mret tt);;
  now ← ask Now;
  r ← store (TransferSets.SetStatus transferSetID TransferSetCapturing now);
  match r with
  | Err _ => failed_row (Connect CodeInternal "mark transfer set capturing")
  | Ok _ =>
      r ← forkHeadroomBytes;
      match r with
      | Err _ => failed_row (Connect CodeFailedPrecondition "cannot check fork disk headroom")
      | Ok headroomBytes =>
          r ← checkForkDiskHeadroom (pl_target pl) headroomBytes;
          match r with
          | Err e => failed_row e
          | Ok _ =>
              now ← ask Now;
              r ← store (TransferSets.SetStatus transferSetID TransferSetRestoring now);
              match r with
              | Err _ => failed_row (Connect CodeInternal "mark transfer set restoring")
              | Ok _ =>
                  r ← waitForkTurnBoundary sourceID transferSetID request;
                  match r with
                  | Err e => failed_row (asConnectError CodeInternal e)
                  | Ok _ => fork_at_boundary
                  end
              end
          end
      end
  end.

(** ** The rows *)

Definition fork_row (forkedAt : Z) : Spawn :=
  let source := pl_source pl in
  {| OwnerID := owner; Name := pl_name pl; AppID := AppID source; AppVersion := AppVersion source;
     AppRef := AppRef source; Pinned := Pinned source; Model := Model source; Image := Image source;
     RunnableID := RunnableID source; Mode := Mode source; SpawnStatus := Starting;
     Recovered := false; ModelApplied := false; ModelApplyDetail := "";
     BaseImageDigest := BaseImageDigest source; GitHubCredStatus := GitHubCredUnset;
     ProfileID := ""; ProfileVersion := 0; CreatedAt := forkedAt; LastUsedAt := forkedAt;
     SuspendedAt := None; DeletedAt := None; StatusSeq := 0; ClaimHolder := None;
     ClaimLeaseID := None; ClaimDeadline := None; ForkCaptureDeadline := None;
     ParentSpawnID := Some sourceID; ForkedAt := Some forkedAt; ErrorStep := ""; ErrorDetail := "" |}.
Definition fork_set (key : TransferKeyStatus) (now : Z) : TransferSet :=
  {| Kind := TransferSetFork; ts_SpawnID := forkID; SourceSpawnID := sourceID; ForkSpawnID := forkID;
     SourceGeneration := u64 (pl_gen pl); TargetGeneration := targetGeneration;
     SourceNodeID := pl_node pl; TargetNodeID := pl_target pl;
     ts_BaseImageDigest := BaseImageDigest (pl_source pl); MountManifestPins := ∅;
     RootfsArtifactPins := []; KeyStatus := key; ts_Status := TransferSetPending;
     ts_CreatedAt := now; UpdatedAt := now |}.
Definition create_rows (now : Z) : DB unit :=
  let crossNode := negb (String.eqb (pl_target pl) "") && negb (String.eqb (pl_target pl) (pl_node pl)) in
  let key := if crossNode then TransferKeyTargetReady else TransferKeySourceReady in
  run_in_tx (
    Create forkID (fork_row (seconds now)) ((fun m => (m.1.2, m.2)) <$> pl_mounts pl);;
    AddArtifacts forkID (pl_artifacts pl);;
    TransferSets.Create transferSetID (Some TransferSetFork) (Some key) (Some TransferSetPending)
      (fork_set key now)).

Definition fork_planned : handler string :=
  now ← ask Now;
  r ← store (create_rows now);
  match r with
  | Err _ => fail (Connect CodeInternal "create fork rows")
  | Ok _ => after_rows
  end.
End Rows.

(** ** The checks before anything is created *)

Definition checkSpawnQuota : handler unit :=
  if maxSpawnsPerOwner <=? 0 then ok tt
  else
    existing ←! stored (internal "quota") (ListByOwner owner);
    require_ (negb (maxSpawnsPerOwner <=? Z.of_nat (length existing))) (Connect CodeOther "spawn limit reached").

Definition claim_live (sp : Spawn) (now : Z) : bool :=
  negb (is_none (ClaimHolder sp)) && match ClaimDeadline sp with Some dl => now <? dl | None => false end.

Definition owned_source : handler Spawn :=
  r ← store (Get sourceID);
  match r with
  | Err _ => fail (Connect CodeNotFound "unknown spawn")
  | Ok source => if negb (String.eqb (OwnerID source) owner)
                 then fail (Connect CodePermissionDenied "not your spawn") else ok source
  end.

Definition check_target (targetNode : string) : handler unit :=
  if String.eqb targetNode "" then ok tt
  else
    e ← ask (Target_eligible targetNode);
    let '(exists_, eligible) := (e : bool * bool) in
    if negb exists_ then fail (Connect CodeFailedPrecondition "target node is not connected")
    else require_ eligible (Connect CodePermissionDenied "target node belongs to another owner").

(** A class is resolved to a node with room for the copy. *)
Definition resolve_class (targetNode targetClass : string) (headroomBytes : Z) : handler string :=
  if String.eqb targetClass "" then ok targetNode
  else
    check "GetVersion" (Connect CodeInternal "app version");!
    check "placementFor" (Plain "placement");!
    n ← ask (PickNode targetClass headroomBytes);
    match n with None => fail (Plain "no node") | Some node => ok node end.

Definition forkSpawnClaimed (targetNode targetClass requestedName : string) : handler string :=
  source ←! owned_source;
  require_ (bool_decide (SpawnStatus source = Active)) (Connect CodeFailedPrecondition "must be active");!
  now ← ask Now;
  require_ (negb (claim_live source now)) (Connect CodeAborted "spawn busy");!
  live ←! stored (internal "live container") (LiveContainer sourceID);
  match live with
  | None => fail (Connect CodeFailedPrecondition "no live source container")
  | Some ((_, g), c) =>
      require_ (negb (String.eqb (NodeID c) "")) (Connect CodeFailedPrecondition "no live source container");!
      checkSpawnQuota;!
      let targetNode := if String.eqb targetNode "" && String.eqb targetClass "" then NodeID c else targetNode in
      check_target targetNode;!
      r ← forkHeadroomBytes;
      match r with
      | Err _ => fail (Connect CodeFailedPrecondition "cannot check fork disk headroom")
      | Ok headroomBytes =>
          targetNode ←! resolve_class targetNode targetClass headroomBytes;
          guardCrossNodeDurability sourceID (NodeID c) targetNode false;!
          checkForkDiskHeadroom targetNode headroomBytes;!
          needsKey ←! forkNeedsJournalKeyDelivery sourceID (NodeID c) targetNode;
          name ←! forkName source requestedName;
          mounts ←! stored (internal "mounts") (GetMounts sourceID);
          artifacts ←! stored (internal "artifacts") (GetArtifacts sourceID);
          fork_planned (mkPlan source g (NodeID c) targetNode name mounts artifacts needsKey)
      end
  end.

Definition ForkSpawn (reqTargetNode reqTargetClass requestedName : string) : handler string :=
  let targetNode := TrimSpace reqTargetNode in
  let targetClass := TrimSpace reqTargetClass in
  if negb (String.eqb targetNode "") && negb (String.eqb targetClass "")
  then fail (Connect CodeInvalidArgument "specify a target node id OR a class, not both")
  else
    owned_source;!
    forkSpawnClaimed targetNode targetClass requestedName.
End ForkSpawn.
