(* ===== verification/ForkLaws.v ===== *)
(** * Laws for the fork sagas

    What a transaction leaves alone: [quiet] relates one spawn's row by a relation of rows and
    keeps some transfer sets; the others' operations and the greater part of the handler's own are
    quiet about the fork, or about the source.  Then what the transactions that matter do. *)

From S2P Require Import Prelude GoLib Database Sagas SpawnStore SpawnLifecycle SpawnContract TransferSets.
From S2P Require Import Transitions CpEnv Durability SpawnNames ForkCleanup Fork ForkSpawn.
Open Scope Z_scope.

(** ** Quiet transactions *)

Definition rowrel (id : string) (P : Spawn -> Spawn -> Prop) (d d' : Tables) : Prop :=
  match spawns d !! id, spawns d' !! id with
  | Some s, Some s' => P s s'
  | None, None => True
  | _, _ => False
  end.
Lemma rowrel_same id P d d' : Reflexive P -> spawns d' = spawns d -> rowrel id P d d'.
Proof. intros HP Heq. unfold rowrel. rewrite Heq. by destruct (spawns d !! id). Qed.
Record quiet (id : string) (P : Spawn -> Spawn -> Prop) (keep : string -> Prop) (d d' : Tables) : Prop := {
  q_row : rowrel id P d d';
  q_set : forall T, keep T -> transfer_sets d' !! T = transfer_sets d !! T
}.

#[export] Instance quiet_preorder id P keep : PreOrder P -> PreOrder (quiet id P keep).
Proof.
  intros HP. split.
  - intros d. split; [|done]. apply rowrel_same; [apply _|done].
  - intros d1 d2 d3 [H1 S1] [H2 S2]. split.
    + unfold rowrel in *. destruct (spawns d1 !! id), (spawns d2 !! id), (spawns d3 !! id); try done.
      by etransitivity.
    + intros T HT. rewrite S2, S1 by done. done.
Qed.

Lemma quiet_row id P keep d d' s :
  quiet id P keep d d' -> spawns d !! id = Some s -> exists s', spawns d' !! id = Some s' /\ P s s'.
Proof.
  intros [Hr _] Hs. unfold rowrel in Hr. rewrite Hs in Hr. destruct (spawns d' !! id); [by eauto|done].
Qed.
Lemma quiet_row_back id P keep d d' s' :
  quiet id P keep d d' -> spawns d' !! id = Some s' -> exists s, spawns d !! id = Some s /\ P s s'.
Proof.
  intros [Hr _] Hs. unfold rowrel in Hr. rewrite Hs in Hr. destruct (spawns d !! id); [by eauto|done].
Qed.

Section Quiet.
Context (id : string) (P : Spawn -> Spawn -> Prop) `{!PreOrder P} (keep : string -> Prop).
Abbreviation Q := (quiet id P keep).

Lemma quiet_same {A} (q : Tables -> result StoreErr A * Tables) :
  (forall d, spawns (q d).2 = spawns d /\ transfer_sets (q d).2 = transfer_sets d) -> always Q (stmt q).
Proof.
  intros Hq. apply always_stmt; [apply _|]. intros d. destruct (Hq d) as [E1 E2].
  split; [|intros T _; by rewrite E2]. apply rowrel_same; [apply _|done].
Qed.
Lemma calm_query {A} (q : Tables -> A) : always Q (query q).
Proof. by apply quiet_same. Qed.
Lemma calm_exec_containers p f : always Q (exec_containers p f).
Proof. by apply quiet_same. Qed.
Lemma calm_exec_mounts p f : always Q (exec_mounts p f).
Proof. by apply quiet_same. Qed.
Lemma calm_insert_container k c : always Q (insert_container k c).
Proof. apply quiet_same. intros d. by repeat case_match. Qed.
Lemma calm_insert_mount k m : always Q (insert_mount k m).
Proof. apply quiet_same. intros d. by repeat case_match. Qed.
Lemma calm_insert_artifact k a : always Q (insert_artifact k a).
Proof. apply quiet_same. intros d. by repeat case_match. Qed.
Lemma calm_expect_one e n : always Q (expect_one e n).
Proof. unfold expect_one. case_match; [by apply always_ret, _|by apply always_throw, _]. Qed.
Lemma calm_exec_spawns p f :
  (forall d s, p d id s = true -> P s (f s)) -> always Q (exec_spawns p f).
Proof.
  intros HP. apply always_stmt; [apply _|]. intros d. split; [|done]. cbn. unfold rowrel. cbn.
  rewrite lookup_update_where. destruct (spawns d !! id) as [s|]; cbn; [|done].
  destruct (p d id s) eqn:Hp; [by apply HP with d|reflexivity].
Qed.
Lemma calm_insert_spawn id' s : id' <> id -> always Q (insert_spawn id' s).
Proof.
  intros Hne. apply always_stmt; [apply _|]. intros d. split; [|by intros T _; case_match].
  case_match; cbn; [apply rowrel_same; [apply _|done]|]. unfold rowrel. cbn.
  rewrite lookup_insert_ne by done. by destruct (spawns d !! id).
Qed.
Lemma calm_exec_sets p f :
  (forall T x, keep T -> p T x = false) -> always Q (TransferSets.exec_sets p f).
Proof.
  intros Hp. apply always_stmt; [apply _|]. intros d. split.
  - apply rowrel_same; [apply _|done].
  - intros T HT. cbn. rewrite lookup_update_where. destruct (transfer_sets d !! T) as [x|]; [|done].
    cbn. by rewrite (Hp T x HT).
Qed.
Lemma calm_insert_set T' x : ~ keep T' -> always Q (TransferSets.insert_set T' x).
Proof.
  intros Hk. apply always_stmt; [apply _|]. intros d. split.
  - by case_match; apply rowrel_same; try apply _.
  - intros T HT. case_match; [done|]. cbn. rewrite lookup_insert_ne; [done|]. by intros ->.
Qed.
Lemma calm_insert_mounts id' ms : always Q (insert_mounts id' ms).
Proof.
  induction ms as [|[n m] ms IH]; cbn; [by apply always_ret, _|].
  apply always_bind; [apply _|apply calm_insert_mount|done].
Qed.
Lemma calm_AddArtifacts id' l : always Q (AddArtifacts id' l).
Proof.
  induction l as [|[[a b] c] l IH]; cbn; [by apply always_ret, _|].
  apply always_bind; [apply _|apply calm_insert_artifact|done].
Qed.
Lemma calm_check_declared d a v ms : always Q (check_declared d a v ms).
Proof.
  induction ms as [|[n m] ms IH]; simpl; [by apply always_ret, _|].
  case_match; [done|by apply always_throw, _].
Qed.
End Quiet.

Create HintDb calm.
#[export] Hint Resolve calm_query calm_exec_containers calm_exec_mounts calm_insert_container
  calm_insert_mount calm_insert_artifact calm_expect_one calm_insert_mounts calm_AddArtifacts
  calm_check_declared : calm.

(** Walks through the statements of a method; leaves the updates of [spawns] and of the sets. *)
Ltac quiet_walk :=
  repeat first
    [ solve [eauto with calm typeclass_instances]
    | apply always_bind; [typeclasses eauto| |intros ?]
    | apply always_ret; typeclasses eauto
    | apply always_throw; typeclasses eauto
    | apply always_tx; [typeclasses eauto|]
    | apply calm_exec_spawns; [typeclasses eauto|intros ???]
    | case_match ].

(** Walks through a saga all of whose transactions are quiet: their lemmas are in [calm]. *)
Ltac calm_walk :=
  repeat first
    [ exact I
    | solve [eauto 4 with calm typeclass_instances]
    | intros ?; exact I
    | apply calm_store; solve [eauto 4 with calm typeclass_instances]
    | progress unfold stored, require_, check, fail, ok
    | apply calm_bind; [|intros ?]
    | case_match ].

(** Walks through a saga all of whose questions pass a test. *)
Create HintDb asks.
Ltac asks_walk :=
  repeat first
    [ exact I
    | solve [eauto 3 with asks]
    | intros ?; exact I
    | exact (conj (eq_refl true) (fun _ => I))
    | apply asks_store
    | progress unfold stored, require_, check, fail, ok
    | apply asks_bind; [|intros ?]
    | case_match ].
(** ** Rows of the fork and of the source *)

(** What may happen to the row of a fork that is not active: nobody activates it. *)
Definition unforked (s s' : Spawn) : Prop :=
  seq_guards s s' /\ (SpawnStatus s' = Active -> SpawnStatus s = Active).
#[export] Instance unforked_preorder : PreOrder unforked.
Proof. split; [by intros s|]. intros s1 s2 s3 [H1 ?] [H2 ?]. split; [by etransitivity|auto]. Qed.

(** ... and to the row of a source: nobody takes the handler's lease. *)
Definition unclaimed (lease : string) (s s' : Spawn) : Prop :=
  seq_guards s s' /\ (ClaimLeaseID s' = Some lease -> ClaimLeaseID s = Some lease).
#[export] Instance unclaimed_preorder lease : PreOrder (unclaimed lease).
Proof. split; [by intros s|]. intros s1 s2 s3 [H1 ?] [H2 ?]. split; [by etransitivity|auto]. Qed.

#[export] Instance seq_guards_preorder : PreOrder seq_guards.
Proof. split; apply _. Qed.

(** Goals about one updated row. *)
Ltac row_done :=
  unfold unforked, unclaimed, claimed, id_is, live_of in *; cbn in *; brefl;
  repeat match goal with H : _ /\ _ |- _ => destruct H end; subst;
  try first [ congruence | done
            | split; [first [by apply seq_guards_bumped | by apply seq_guards_same]|cbn; congruence] ].
Ltac quiet_method := unfold_ops; unfold Get, LiveContainer, GetMounts, GetArtifacts, ListByOwner; quiet_walk; row_done.

(** ** What only reads is quiet about everything *)

Section Readers.
Context (id : string) (P : Spawn -> Spawn -> Prop) `{!PreOrder P} (keep : string -> Prop).
Abbreviation Q := (quiet id P keep).
Abbreviation quietly p := (calm Q p).

Lemma reads_Get k : always Q (Get k).
Proof. quiet_method. Qed.
Lemma reads_live k : always Q (LiveContainer k).
Proof. quiet_method. Qed.
Lemma reads_mounts k : always Q (GetMounts k).
Proof. quiet_method. Qed.
Lemma reads_artifacts k : always Q (GetArtifacts k).
Proof. quiet_method. Qed.
Lemma reads_owner k : always Q (ListByOwner k).
Proof. quiet_method. Qed.
Lemma reads_set T : always Q (TransferSets.Get T).
Proof. unfold TransferSets.Get. quiet_walk. Qed.
#[local] Hint Resolve reads_Get reads_live reads_mounts reads_artifacts reads_owner reads_set : calm.

Lemma calm_classify k md ms res : quietly (classify k md ms res).
Proof. revert res. induction ms as [|[[a b] m] ms IH]; intros res; cbn [classify]; calm_walk. Qed.
Lemma calm_guard k cl b ms : quietly (guard_mounts k cl b ms).
Proof. induction ms as [|[[a c] m] ms IH]; cbn [guard_mounts]; calm_walk. Qed.
#[local] Hint Resolve calm_classify calm_guard : calm.
Lemma calm_classes k : quietly (classifyMounts k).
Proof. unfold classifyMounts. calm_walk. Qed.
#[local] Hint Resolve calm_classes : calm.
Lemma calm_durability k a b u : quietly (guardCrossNodeDurability k a b u).
Proof. unfold guardCrossNodeDurability. calm_walk. Qed.
Lemma calm_needs k a b : quietly (forkNeedsJournalKeyDelivery k a b).
Proof. unfold forkNeedsJournalKeyDelivery. calm_walk. Qed.
Lemma calm_name owner k src n : quietly (forkName owner k src n).
Proof. unfold forkName. calm_walk. Qed.
Lemma calm_owned owner k : quietly (owned_source owner k).
Proof. unfold owned_source. calm_walk. Qed.
Lemma calm_quota owner n : quietly (checkSpawnQuota owner n).
Proof. unfold checkSpawnQuota. calm_walk. Qed.
Lemma calm_target n : quietly (check_target n).
Proof. unfold check_target. calm_walk. Qed.
Lemma calm_class n c b : quietly (resolve_class n c b).
Proof. unfold resolve_class. calm_walk. Qed.
Lemma calm_headroom : quietly forkHeadroomBytes.
Proof. unfold forkHeadroomBytes. calm_walk. Qed.
Lemma calm_room node n : quietly (checkForkDiskHeadroom node n).
Proof. unfold checkForkDiskHeadroom. calm_walk. Qed.
Lemma calm_send node k gen bucket op : quietly (cleanup_send node k gen bucket op).
Proof. unfold cleanup_send. calm_walk. Qed.
Lemma calm_quietly node c : quietly (send_quietly node c).
Proof. unfold send_quietly. calm_walk. Qed.
Lemma calm_unpause k g : quietly (unpauseIfPaused k g).
Proof. unfold unpauseIfPaused. calm_walk. Qed.
#[local] Hint Resolve calm_quietly : calm.
Lemma calm_wait k T req : quietly (waitForkTurnBoundary k T req).
Proof. unfold waitForkTurnBoundary, releaseForkTurnBoundary. calm_walk. Qed.
Lemma calm_boundary k T pl h : quietly (release_boundary k T pl h).
Proof. unfold release_boundary, releaseForkTurnBoundary. calm_walk. Qed.
Lemma calm_start k b n g pins lo : quietly (startFork k b n g pins lo).
Proof. unfold startFork, start_body. calm_walk. Qed.
End Readers.
#[export] Hint Resolve reads_Get reads_live reads_mounts reads_artifacts reads_owner reads_set calm_durability
  calm_needs calm_name calm_owned calm_quota calm_target calm_class calm_headroom calm_room calm_send
  calm_quietly calm_unpause calm_wait calm_boundary calm_start : calm.

(** ** Outcomes of single transactions *)

Lemma always_outcome {A} R (m : DB A) d r d' : always R m -> outcome m d r d' -> R d d'.
Proof. intros Hm (fs & fs' & Ho). specialize (Hm (mkSession d fs)). by rewrite Ho in Hm. Qed.
(** A guarded UPDATE fails in the driver, or does what it does. *)
Lemma outcome_exec_one {A} (q : Tables -> result StoreErr A * Tables) (k : A -> DB unit) d r d' :
  (forall a, k a = mret tt \/ exists e, k a = throw e) ->
  outcome (stmt q ≫= k) d r d' ->
  (exists msg, r = Err (ErrDriver msg) /\ d' = d) \/ run (stmt q ≫= k) d = (r, d').
Proof.
  intros Hk [(e & -> & Ho)|(a & d1 & Ho & Hk')]%outcome_bind; apply outcome_stmt in Ho as [(msg & Hr & Hd)|Hq].
  - injection Hr as ->. left. eauto.
  - right. rewrite run_bind by eauto with sql. by rewrite run_stmt, Hq.
  - done.
  - right. rewrite run_bind by eauto with sql. rewrite run_stmt, Hq.
    destruct (Hk a) as [E|[e E]]; rewrite E in *.
    + by apply outcome_ret in Hk' as [-> ->].
    + by apply outcome_throw in Hk' as [-> ->].
Qed.
Lemma expect_one_cases e n : expect_one e n = mret tt \/ exists e', expect_one e n = throw e'.
Proof. unfold expect_one. case_match; eauto. Qed.

Lemma outcome_updateOne T set d r d' :
  outcome (TransferSets.updateOne T set) d r d' ->
  (exists msg, r = Err (ErrDriver msg) /\ d' = d) \/
  match transfer_sets d !! T with
  | Some x => r = Ok tt /\ d' = d <| transfer_sets ::= <[T := set x]> |>
  | None => r = Err ErrNotFound /\ d' = d
  end.
Proof.
  intros Ho. apply outcome_exec_one in Ho as [?|Hr]; [by left| |apply expect_one_cases]. right.
  pose proof (TransferSets.run_updateOne T set d) as E. unfold TransferSets.updateOne, TransferSets.exec_sets in E.
  rewrite E in Hr. destruct (transfer_sets d !! T); by injection Hr as <- <-.
Qed.
Lemma outcome_SetPins T g mounts rootfs ts d r d' :
  outcome (TransferSets.SetPins T g mounts rootfs ts) d r d' ->
  (exists e, r = Err e /\ d' = d) \/
  exists x, transfer_sets d !! T = Some x /\ SourceGeneration x = g /\ r = Ok tt /\
    d' = d <| transfer_sets ::= <[T := x <| MountManifestPins := mounts |>
                <| RootfsArtifactPins := rootfs |> <| UpdatedAt := ts |>]> |>.
Proof.
  intros Ho. apply outcome_exec_one in Ho as [(msg & -> & ->)|Hr]; [left; eauto| |apply expect_one_cases].
  pose proof (TransferSets.run_SetPins T g mounts rootfs ts d) as E.
  unfold TransferSets.SetPins, TransferSets.exec_sets in E.
  rewrite E in Hr. destruct (transfer_sets d !! T) as [x|]; [|injection Hr as <- <-; left; eauto].
  destruct (Z.eqb_spec (SourceGeneration x) g) as [Hg|_]; injection Hr as <- <-; [right; eauto 10|left; eauto].
Qed.

Lemma outcome_guardStatus id from set d r d' :
  outcome (guardStatus id from set) d r d' ->
  (exists e, r = Err e /\ d' = d) \/
  exists s, spawns d !! id = Some s /\ SpawnStatus s ∈ from /\ r = Ok tt /\
    d' = d <| spawns ::= <[id := set (bump s)]> |>.
Proof.
  intros Ho. apply outcome_exec_one in Ho as [(msg & -> & ->)|Hr]; [left; eauto| |apply expect_one_cases].
  pose proof (run_guardStatus id from set d) as E. unfold guardStatus, exec_spawns in E. rewrite E in Hr.
  destruct (spawns d !! id) as [s|]; [|injection Hr as <- <-; left; eauto].
  unfold status_in in Hr. case_bool_decide; injection Hr as <- <-; [right; eauto 10|left; eauto].
Qed.
Lemma outcome_exec_live id gen f d r d' :
  outcome (exec_containers (live_at id gen) f ≫= expect_one ErrConflict) d r d' ->
  (exists e, r = Err e /\ d' = d) \/
  exists c, spawn_containers d !! (id, gen) = Some c /\ is_live c = true /\ r = Ok tt /\
    d' = d <| spawn_containers ::= <[(id, gen) := f c]> |>.
Proof.
  intros Ho. apply outcome_exec_one in Ho as [(msg & -> & ->)|Hr]; [left; eauto| |apply expect_one_cases].
  pose proof (run_exec_live id gen f d) as E. unfold exec_containers in E. rewrite E in Hr.
  destruct (spawn_containers d !! (id, gen)) as [c|]; [|injection Hr as <- <-; left; eauto].
  destruct (is_live c) eqn:?; injection Hr as <- <-; [right; eauto 10|left; eauto].
Qed.

(** An UPDATE of one row and what follows it. *)
Lemma outcome_exec_id (c : Tables -> string -> Spawn -> bool) f e id d r d' :
  (forall k s, c d k s = true -> k = id) -> outcome (exec_spawns c f ≫= expect_one e) d r d' ->
  (exists e, r = Err e /\ d' = d) \/
  exists s, spawns d !! id = Some s /\ c d id s = true /\ r = Ok tt /\ d' = d <| spawns ::= <[id := f s]> |>.
Proof.
  intros Hkey Ho. apply outcome_exec_one in Ho as [(msg & -> & ->)|Hr]; [left; eauto| |apply expect_one_cases].
  pose proof (run_exec_id c f e id d Hkey) as E. unfold exec_spawns in E. rewrite E in Hr.
  destruct (spawns d !! id) as [s|]; [|injection Hr as <- <-; left; eauto].
  destruct (c d id s) eqn:?; injection Hr as <- <-; [right; eauto 10|left; eauto].
Qed.
Lemma outcome_Acquire id holder lease now dl seq d r d' :
  outcome (Acquire id holder lease now dl seq) d r d' ->
  (exists e, r = Err e /\ d' = d) \/
  exists s, spawns d !! id = Some s /\ StatusSeq s = seq /\ r = Ok (seq + 1) /\
    d' = d <| spawns ::= <[id := bump (set_claim holder lease dl s)]> |>.
Proof.
  unfold Acquire. intros [(e & -> & Ho)|([] & d1 & Ho & Hk)]%outcome_bind;
    apply (outcome_exec_id _ _ _ id) in Ho; try (intros k s; unfold id_is; intros; brefl; tauto);
    destruct Ho as [(e' & ? & ->)|(s & Hs & Hc & ? & ->)]; try done; [left; eauto|].
  apply outcome_ret in Hk as [-> ->]. right. exists s. split; [done|]. split; [brefl; lia|done].
Qed.
Lemma outcome_Recovered id lease seq g d r d' :
  outcome (TransitionForkingRecovered id lease seq g) d r d' ->
  (exists e, r = Err e /\ d' = d) \/
  exists s', r = Ok (seq + 1) /\ spawns d' !! id = Some s' /\ SpawnStatus s' = Active /\ ForkCaptureDeadline s' = None.
Proof.
  unfold TransitionForkingRecovered. intros [(e & -> & Ho)|([] & d1 & Ho & Hk)]%outcome_bind;
    apply (outcome_exec_id _ _ _ id) in Ho; try (intros k s; unfold claimed, id_is; intros; brefl; tauto);
    destruct Ho as [(e' & ? & ->)|(s & Hs & _ & ? & ->)]; try done; [left; eauto|].
  apply outcome_ret in Hk as [-> ->]. right. eexists. split; [done|]. split; [apply lookup_insert_eq|done].
Qed.
(** [SetActive]: the row, then its episode. *)
Lemma outcome_SetActive_ok id node gen d d' :
  outcome (SetActive id node gen) d (Ok tt) d' ->
  (exists s, spawns d' !! id = Some s /\ SpawnStatus s = Active) /\
  (exists c, spawn_containers d' !! (id, gen) = Some c /\ is_live c = true /\ NodeID c = node) /\
  transfer_sets d' = transfer_sets d.
Proof.
  unfold SetActive. intros [(e & ? & _)|([] & d1 & Hg & Hl)]%outcome_bind; [done|].
  apply outcome_guardStatus in Hg as [(e & ? & _)|(s & Hs & _ & _ & ->)]; [done|].
  apply outcome_exec_live in Hl as [(e & ? & _)|(c & Hc & Hlive & _ & ->)]; [done|].
  split_and!; [..|done].
  - eexists. split; [apply lookup_insert_eq|done].
  - eexists. split; [apply lookup_insert_eq|done].
Qed.

(** Reading changes nothing. *)
Lemma outcome_select {A} (q : Tables -> A) d r d' :
  outcome (query q) d r d' -> (exists msg, r = Err (ErrDriver msg) /\ d' = d) \/ (r = Ok (q d) /\ d' = d).
Proof. intros [?|Hq]%outcome_stmt; [by left|right]. by injection Hq as <- <-. Qed.

Lemma outcome_Get id d r d' :
  outcome (Get id) d r d' ->
  d' = d /\ forall s, r = Ok s -> spawns d !! id = Some s /\ SpawnStatus s <> Deleted.
Proof.
  unfold Get. intros [(e & -> & Ho)|(rows & d1 & Ho & Hk)]%outcome_bind;
    apply outcome_select in Ho as [(msg & ? & ->)|[Hr ->]]; try done.
  injection Hr as ->. destruct (select_where _ (spawns d)) as [|[k s] l] eqn:Hsel.
  - by apply outcome_throw in Hk as [-> ->].
  - apply outcome_ret in Hk as [-> ->]. split; [done|]. intros s' [= <-].
    assert ((k, s) ∈ select_where (fun k s => String.eqb k id && not_deleted s) (spawns d)) as Hin
      by (rewrite Hsel; left).
    apply elem_of_select_where in Hin as [Hs Hp]. unfold not_deleted in Hp. brefl. by destruct Hp as [-> ?].
Qed.

Lemma outcome_guardGen id g d r d' : outcome (guardContainerGen id g) d r d' -> d' = d.
Proof.
  intros [(e & -> & Ho)|(n & d1 & Ho & Hk)]%outcome_bind; apply outcome_select in Ho as [(? & ? & ->)|[? ->]];
    try done.
  destruct (expect_one_cases ErrConflict n) as [E|[e E]]; rewrite E in Hk;
    first [by apply outcome_throw in Hk as [_ ->]|by apply outcome_ret in Hk as [_ ->]].
Qed.
Lemma outcome_SetForking id g dl d r d' :
  outcome (SetForking id g dl) d r d' ->
  (exists e, r = Err e /\ d' = d) \/
  exists s s', r = Ok tt /\ spawns d !! id = Some s /\ SpawnStatus s = Active /\
    spawns d' !! id = Some s' /\ SpawnStatus s' = Forking.
Proof.
  unfold SetForking. intros [(e & -> & Ho)|([] & d1 & Ho & Hk)]%outcome_bind; apply outcome_guardGen in Ho as ->.
  - left. eauto.
  - apply outcome_guardStatus in Hk as [(e & -> & ->)|(s & Hs & Hst & -> & ->)]; [left; eauto|].
    apply list_elem_of_singleton in Hst. right. exists s. eexists. split; [done|]. split; [done|]. split; [done|].
    split; [apply lookup_insert_eq|done].
Qed.
