(* ===== verification/ForkSettles.v ===== *)
(** * The fork's row and its transfer set

    The handler against others who leave the set alone and do not activate the fork's row: the
    copy and its set become active together, or the set is failed and the row is not active. *)

From S2P Require Import Prelude GoLib Database Sagas SpawnStore SpawnLifecycle SpawnContract TransferSets.
From S2P Require Import Transitions Migration CpEnv Durability SpawnNames ForkCleanup Fork ForkSpawn ForkLaws.
Open Scope Z_scope.

(** ** The pins a materialization returns *)

Lemma pins_from_artifacts_good arts g dig pins :
  rootfsPinsFromArtifacts arts g dig = Ok pins -> good_pins g pins.
Proof.
  intros Hp. apply (rootfs_pins_good (Build_SuspendComplete "" 0 "" [] arts) g dig).
  unfold rootfsPinsFromArtifacts in Hp. unfold rootfsPinsFromSuspend. by destruct arts.
Qed.
Definition good_result (g : Z) (r : result fork_error forkMaterializeResult) : Prop :=
  forall res, r = Ok res -> good_pins g (fr_RootfsPins res).
Lemma complete_good src fork req msg : good_result (mq_TargetGeneration req) (forkResultFromComplete src fork req msg).
Proof.
  unfold forkResultFromComplete. intros res. repeat case_match; try done;
    intros [= <-]; by eapply pins_from_artifacts_good.
Qed.

Section Materialized.
Context (src fork ts : string) (req : forkMaterializeRequest) {H : Type} (cb : H -> saga (result fork_error unit * H)).
Abbreviation good := (fun o : outcome_of => good_result (mq_TargetGeneration req) o.1).

Lemma good_err e (h : H) : good (Err e, h).
Proof. by intros res. Qed.
Lemma good_complete msg (h : H) : good (forkResultFromComplete src fork req msg, h).
Proof. apply complete_good. Qed.
Lemma good_then {A} (p : saga A) e (h : H) : returns good (p;; mret (Err e, h)).
Proof. apply (returns_bind (fun _ => True)); [apply returns_any|]. intros _ _ res [=]. Qed.
Lemma good_cross_fail e (h : H) : returns good (cross_fail src fork ts req e h).
Proof. apply good_then. Qed.
Ltac good_walk :=
  repeat first
    [ apply good_cross_fail | apply good_then | apply good_err | apply good_complete | apply complete_good | done
    | apply (returns_bind (fun _ => True)); [apply returns_any|intros ??]
    | case_match; simplify_eq/= ].
Lemma good_same arr e b p h : returns good (same_node_loop src fork ts req cb arr e b p h).
Proof.
  revert b p h. induction arr as [|[m|m] arr IH]; intros b p h; cbn [same_node_loop]; good_walk; apply IH.
Qed.
Lemma good_cross arr e b p h : returns good (cross_node_loop src fork ts req cb arr e b p h).
Proof.
  revert b p h. induction arr as [|[m|m|m] arr IH]; intros b p h; cbn [cross_node_loop];
    good_walk; apply IH.
Qed.
Lemma good_materialize h : returns good (materializeFork src fork ts req cb h).
Proof.
  unfold materializeFork, materialize_cross_node, materialize_same_node.
  case_match; repeat first [apply good_cross|apply good_same|progress good_walk|intros ?].
Qed.

Context (R : Tables -> Tables -> Prop) (Hcb : forall h, calm R (cb h)).
#[local] Hint Resolve Hcb : calm.
Lemma calm_sending node c : calm R (send_quietly node c).
Proof. unfold send_quietly. calm_walk. Qed.
#[local] Hint Resolve calm_sending : calm.
Lemma calm_handle m b h : calm R (handleSourceRestored src ts req cb m b h).
Proof. unfold handleSourceRestored. calm_walk. Qed.
Lemma calm_exported m : calm R (handleExported src fork ts req m).
Proof. unfold handleExported. calm_walk. Qed.
#[local] Hint Resolve calm_handle calm_exported : calm.
Lemma calm_same arr e b p h : calm R (same_node_loop src fork ts req cb arr e b p h).
Proof.
  revert b p h. induction arr as [|[m|m] arr IH]; intros b p h; cbn [same_node_loop];
    unfold cancelForkSameNode; calm_walk.
Qed.
Lemma calm_cross arr e b p h : calm R (cross_node_loop src fork ts req cb arr e b p h).
Proof.
  revert b p h. induction arr as [|[m|m|m] arr IH]; intros b p h; cbn [cross_node_loop];
    unfold cross_fail, cancelForkTransfer; calm_walk.
Qed.
#[local] Hint Resolve calm_same calm_cross : calm.
Lemma calm_materialize h : calm R (materializeFork src fork ts req cb h).
Proof.
  unfold materializeFork, materialize_cross_node, materialize_same_node, cancelForkSameNode. calm_walk.
Qed.
End Materialized.

Section Settles.
Context (owner sourceID forkID transferSetID leaseID cpID : string).
Context (claimTTL maxSpawnsPerOwner : Z) (intentEnabled configured : bool) (lease : string -> string).
Context (Hne : forkID <> sourceID).

Abbreviation set_of d := (transfer_sets d !! transferSetID).
Abbreviation fork_of d := (spawns d !! forkID).

(** What the others do, and most of what the handler does. *)
Abbreviation others := (quiet forkID unforked (fun T => T = transferSetID)).
#[local] Instance others_preorder : PreOrder others.
Proof. apply quiet_preorder, _. Qed.

(** The copy is active and its set says so. *)
Record activated (node : string) (d : Tables) : Prop := {
  ac_row : exists s, fork_of d = Some s /\ SpawnStatus s = Active;
  ac_live : exists c, spawn_containers d !! (forkID, targetGeneration) = Some c /\ is_live c = true /\ NodeID c = node;
  ac_set : exists x, set_of d = Some x /\ ts_Status x = TransferSetActive /\ TargetNodeID x = node
}.
Definition set_active (d : Tables) : Prop := exists x, set_of d = Some x /\ ts_Status x = TransferSetActive.
(** Each transaction of the handler: the set becomes active with the copy, or not at all. *)
Definition together (l : trace) (d d' : Tables) : Prop :=
  set_active d' -> (set_active d /\ others d d') \/ exists node, activated node d'.

Lemma together_others l d d' : others d d' -> together l d d'.
Proof. intros Ho (x & Hx & Ha). left. split; [|done]. exists x. by rewrite <- (q_set _ _ _ _ _ Ho). Qed.
Lemma together_same l d : together l d d.
Proof. by apply together_others. Qed.

Abbreviation wp p P d l := (wp is_fault others together p P d l).

(** ** Quiet parts *)

Lemma others_acquire id h le n dl seq : always others (Acquire id h le n dl seq).
Proof. quiet_method. Qed.
Lemma others_delete id le seq g ts : always others (MarkDeletedClaimed true id le seq g ts).
Proof. quiet_method. Qed.
Lemma others_release le : always others (Release sourceID le).
Proof. quiet_method. Qed.
Lemma others_forking g dl : always others (SetForking sourceID g dl).
Proof. quiet_method. Qed.
Lemma others_recovered le seq g : always others (TransitionForkingRecovered sourceID le seq g).
Proof. quiet_method. Qed.
#[local] Hint Resolve others_acquire others_delete others_release others_forking others_recovered : calm.

Abbreviation quietly p := (calm others p).
Lemma quiet_unwind cfg : quietly (unwindFailedFork cpID claimTTL lease configured cfg).
Proof.
  unfold unwindFailedFork, unwind_claimed, RevokeForkGeneration, EmptyForkBucket, ReleaseForkDelta. calm_walk.
Qed.
Lemma quiet_restore g : quietly (restoreForkingSource sourceID leaseID g).
Proof. unfold restoreForkingSource. calm_walk. Qed.
#[local] Hint Resolve quiet_unwind quiet_restore : calm.
Lemma quiet_claiming n : quietly (claimSource sourceID leaseID cpID claimTTL n).
Proof. induction n; cbn [claimSource]; calm_walk. Qed.
Lemma quiet_release h : quietly (releaseSource sourceID leaseID h).
Proof. unfold releaseSource. calm_walk. Qed.
#[local] Hint Resolve quiet_claiming quiet_release : calm.
Lemma quiet_restored pl g h : quietly (onSourceRestored sourceID transferSetID leaseID pl g h).
Proof. unfold onSourceRestored. calm_walk. Qed.
Lemma quiet_deferred pl h : quietly (deferred sourceID transferSetID leaseID pl h).
Proof. unfold deferred, restoreForkingSourceAfterUnpause. calm_walk. Qed.
#[local] Hint Resolve quiet_restored quiet_deferred : calm.

(** ** The rules *)

Lemma wp_quiet {A B} (p : saga A) (f : A -> saga B) P d l :
  quietly p -> (forall a d' l', others d d' -> l `prefix_of` l' -> wp (f a) P d' l') -> wp (p ≫= f) P d l.
Proof.
  intros Hp Hf. eapply wp_seq; [eapply wp_calm; [apply _|apply together_others|exact Hp]|].
  intros a d' l' [Hd Hl]. by apply Hf.
Qed.
Lemma prefix_snoc (l : trace) e : l `prefix_of` l ++ [e].
Proof. by eexists. Qed.
Lemma faulted_prefix (l l' : trace) : faulted l -> l `prefix_of` l' -> faulted l'.
Proof. intros (d & d' & Hin) [k ->]. exists d, d'. apply elem_of_app. by left. Qed.

(** The rows exist; the set has status [st]; the copy is not active. *)
Definition made (pl : plan) (st : TransferSetStatus) (d : Tables) : Prop :=
  exists x, set_of d = Some x /\ ts_Status x = st /\ TransferSets.is_fork x = true /\ ForkSpawnID x = forkID /\
    SourceGeneration x = u64 (pl_gen pl) /\ exists s, fork_of d = Some s /\ SpawnStatus s <> Active.
(** Given up: the set is failed, unless the driver failed a statement. *)
Definition aborted (d : Tables) (l : trace) : Prop :=
  exists x, set_of d = Some x /\ TransferSets.is_fork x = true /\ ForkSpawnID x = forkID /\
    ts_Status x <> TransferSetActive /\ (ts_Status x = TransferSetFailed \/ faulted l) /\
    exists s, fork_of d = Some s /\ SpawnStatus s <> Active.

Lemma made_others pl st d d' : others d d' -> made pl st d -> made pl st d'.
Proof.
  intros Ho (x & Hx & Hst & Hf & Hid & Hg & s & Hs & Ha). destruct (quiet_row _ _ _ _ _ _ Ho Hs) as (s' & Hs' & _ & Hu).
  exists x. split_and!; [|done..|].
  - by rewrite (q_set _ _ _ _ _ Ho).
  - exists s'. auto.
Qed.
Lemma aborted_others d d' l l' : others d d' -> l `prefix_of` l' -> aborted d l -> aborted d' l'.
Proof.
  intros Ho Hl (x & Hx & Hf & Hid & Hna & Hst & s & Hs & Ha).
  destruct (quiet_row _ _ _ _ _ _ Ho Hs) as (s' & Hs' & _ & Hu).
  exists x. split_and!; [|done..| |].
  - by rewrite (q_set _ _ _ _ _ Ho).
  - destruct Hst; [by left|right]. by eapply faulted_prefix.
  - exists s'. auto.
Qed.

(** A write of the set's status other than to active. *)
Lemma wp_set_status {A} pl st st' now d l (f : result StoreErr unit -> saga A) P :
  made pl st d -> st' <> TransferSetActive ->
  (forall d' l', l `prefix_of` l' -> made pl st' d' -> wp (f (Ok tt)) P d' l') ->
  (forall e d' l', l `prefix_of` l' -> made pl st d' -> faulted l' -> wp (f (Err e)) P d' l') ->
  wp (store (TransferSets.SetStatus transferSetID st' now) ≫= f) P d l.
Proof.
  intros Hm Hna Hok Herr. apply wp_bind, wp_store. intros d1 r d2 Hr Ho.
  apply (made_others _ _ _ _ Hr) in Hm. pose proof Hm as (x & Hx & Hst & Hf & Hid & Hg & s & Hs & Ha).
  apply outcome_updateOne in Ho as [(msg & -> & ->)|Ho].
  - split; [apply together_same|]. apply Herr; [apply prefix_snoc|done|].
    exists d1, d1. apply elem_of_app. right. by left.
  - rewrite Hx in Ho. destruct Ho as [-> ->]. split.
    + intros (y & Hy & Hya). cbn in Hy. rewrite lookup_insert_eq in Hy. injection Hy as <-. done.
    + apply Hok; [apply prefix_snoc|]. eexists. split; [apply lookup_insert_eq|]. split_and!; try done. by exists s.
Qed.

Lemma wp_fail_row pl st gen cause d l :
  made pl st d -> st <> TransferSetActive ->
  wp (failForkAfterRow forkID transferSetID cpID claimTTL configured lease gen cause)
    (fun _ d' l' => aborted d' l') d l.
Proof.
  intros Hm Hna. unfold failForkAfterRow. apply wp_bind, wp_ask. intros now. apply wp_bind, wp_ask. intros ?.
  assert (forall d' l', aborted d' l' -> wp (
    ts ← store (TransferSets.Get transferSetID);
    let nodeID := match ts with Ok ts => TargetNodeID ts | Err _ => "" end in
    r ← unwindFailedFork cpID claimTTL lease configured
          (mkUnwind forkID gen (forkBucketName forkID) nodeID now (seconds now));
    mret (match r with Err _ => Connect CodeInternal "fork failed and unwind failed" | Ok _ => cause end))
    (fun _ d l => aborted d l) d' l') as Hrest.
  { intros d' l' Hab. apply wp_quiet; [calm_walk|]. intros ts d1 l1 Hd1 Hl1.
    apply wp_quiet; [calm_walk|]. intros r d2 l2 Hd2 Hl2. apply wp_ret.
    eapply aborted_others; [exact Hd2|exact Hl2|]. by eapply aborted_others. }
  eapply wp_set_status; [done|done| |].
  - intros d' l' Hl (x & Hx & Hst & Hf & Hid & Hg & s & Hs & Ha). apply Hrest.
    exists x. split_and!; [done|done|done|by rewrite Hst|by left|by exists s].
  - intros e d' l' Hl (x & Hx & Hst & Hf & Hid & Hg & s & Hs & Ha) Hfl. apply Hrest.
    exists x. split_and!; [done|done|done|by rewrite Hst|by right|by exists s].
Qed.

Abbreviation failing := (failed forkID transferSetID cpID claimTTL configured lease).
Lemma wp_failed pl st cause h d l :
  made pl st d -> st <> TransferSetActive ->
  wp (failing cause h) (fun o d' l' => is_ok o.1 = false /\ aborted d' l') d l.
Proof.
  intros Hm Hna. unfold failed. eapply wp_seq; [by eapply wp_fail_row|].
  intros e d' l' Hab. apply wp_ret. done.
Qed.
Lemma wp_failed_row pl st cause d l :
  made pl st d -> st <> TransferSetActive ->
  wp (failed_row forkID transferSetID cpID claimTTL configured lease cause)
    (fun o d' l' => is_ok o = false /\ aborted d' l') d l.
Proof.
  intros Hm Hna. unfold failed_row. eapply wp_seq; [by eapply wp_fail_row|].
  intros e d' l' Hab. apply wp_ret. done.
Qed.

(** ** The copy is started from the recorded pins *)

(** The scheduler was asked to provision the copy from [pins] and answered [node]. *)
Definition provisioned (pins : list RootfsArtifactPin) (node : string) (l : trace) : Prop :=
  exists n lo, Answered (D := Tables) (ans := answer)
    (Provision forkID n targetGeneration
       (schedulerRootfsRestore (Some (mkRestore targetGeneration pins lo)))) (Ok node) ∈ l.
Lemma provisioned_prefix pins node l l' : provisioned pins node l -> l `prefix_of` l' -> provisioned pins node l'.
Proof. intros (n & lo & Hin) [k ->]. exists n, lo. apply elem_of_app. by left. Qed.

Lemma wp_start n pins lo d l :
  wp (startFork forkID intentEnabled n targetGeneration pins lo)
    (fun r d' l' => others d d' /\ forall node, r = Ok node -> provisioned pins node l') d l.
Proof.
  assert (wp (startFork forkID intentEnabled n targetGeneration pins lo)
    (fun r _ l' => forall node, r = Ok node -> provisioned pins node l') d l) as Hp.
  { unfold startFork.
    apply (wp_seq is_fault others together) with (P' := fun r _ l' => forall node, r = Ok node -> provisioned pins node l').
    2: { intros r d1 l1 Hr. apply wp_bind, wp_ask. intros ?. apply wp_ret. intros node ->.
         eapply provisioned_prefix; [by apply Hr|apply prefix_snoc]. }
    unfold start_body.
    apply wp_quiet; [calm_walk|]. intros [e|arts] d1 l1 _ _; [by intros ? [=]|]. cbn beta iota.
    apply wp_quiet; [calm_walk|]. intros [e|mts] d2 l2 _ _; [by intros ? [=]|]. cbn beta iota.
    apply wp_quiet; [calm_walk|]. intros r d3 l3 _ _.
    apply (wp_seq is_fault others together) with (P' := fun r _ l' => forall node, r = Ok node -> provisioned pins node l').
    - destruct r as [e|[]]; [by intros ? [=]|].
      apply wp_quiet; [calm_walk|]. intros [e|?] d4 l4 _ _; [by intros ? [=]|].
      apply wp_bind, wp_ask. intros [e|node]; apply wp_ret; [by intros ? [=]|].
      intros ? [= <-]. exists n, lo. apply elem_of_app. right. by left.
    - intros r' d4 l4 Hr'. apply wp_quiet; [calm_walk|]. intros ? d5 l5 _ Hl. apply wp_ret.
      intros node Hn. eapply provisioned_prefix; [by apply Hr'|done]. }
  assert (wp (startFork forkID intentEnabled n targetGeneration pins lo)
    (fun _ d' l' => others d d' /\ l `prefix_of` l') d l) as Hq
    by (apply wp_calm; [apply _|apply together_others|apply calm_start; apply _]).
  eapply wp_mono; [|exact (wp_both _ _ _ _ _ _ _ _ Hp Hq)]. by intros r d' l' [? [? _]].
Qed.

(** ** From the capture to the end *)

Definition recorded (pins : list RootfsArtifactPin) (d : Tables) : Prop :=
  exists x, set_of d = Some x /\ RootfsArtifactPins x = pins.
(** Neither the copy nor its set is active yet. *)
Definition inactive (d : Tables) : Prop :=
  (exists s, fork_of d = Some s /\ SpawnStatus s <> Active) /\
  (exists x, set_of d = Some x /\ ts_Status x <> TransferSetActive).
(** How the handler ends: one of its transactions, from [db] to [da], made the copy and its set
    active together, with the pins the set records, from which the copy was provisioned; or the
    fork is given up. *)
Definition ended (r : result fork_error string) (d : Tables) (l : trace) : Prop :=
  match r with
  | Ok node => exists pins db da, Did db da false ∈ l /\ inactive db /\ others da d /\ activated node da /\ recorded pins da /\
                 provisioned pins node l /\ good_pins targetGeneration pins
  | Err _ => aborted d l
  end.
Lemma ended_others r d d' l l' : others d d' -> l `prefix_of` l' -> ended r d l -> ended r d' l'.
Proof.
  intros Ho Hl. destruct r as [e|node]; [by apply aborted_others|].
  intros (pins & db & da & Hin & Hb & Hd & Hact & Hrec & Hp & Hg). exists pins, db, da.
  split_and!; [by eapply elem_of_prefix|done|by etransitivity|done|done|by eapply provisioned_prefix|done].
Qed.
Lemma ended_failed {H} (o : result fork_error string * H) d l :
  is_ok o.1 = false /\ aborted d l -> ended o.1 d l.
Proof. destruct o as [[e|node] h]; by intros [? ?]. Qed.

Abbreviation activate := (activateForkAndTransferSet forkID transferSetID).
Lemma outcome_activate pl pins node now1 now2 d r d' :
  made pl TransferSetRestoring d -> recorded pins d ->
  outcome (activate node targetGeneration now1 now2) d r d' ->
  (exists e, r = Err e /\ d' = d) \/ (r = Ok tt /\ activated node d' /\ recorded pins d').
Proof.
  intros (x & Hx & _) (y & Hy & Hpins) Ho. rewrite Hx in Hy. injection Hy as <-.
  apply outcome_tx in Ho as [(a & -> & Ho)|(e & -> & ->)]; [|left; eauto]. right.
  apply outcome_bind in Ho as [(e & ? & _)|([] & d1 & Hact & Ho)]; [done|].
  apply outcome_SetActive_ok in Hact as (Hrow & Hlive & Hsets).
  apply outcome_bind in Ho as [(e & ? & _)|([] & d2 & Hn & Hst)]; [done|].
  apply outcome_updateOne in Hn as [(? & ? & _)|Hn]; [done|]. rewrite Hsets, Hx in Hn. destruct Hn as [_ ->].
  apply outcome_updateOne in Hst as [(? & ? & _)|Hst]; [done|]. cbn in Hst. rewrite lookup_insert_eq in Hst.
  destruct Hst as [Hok ->]. split; [done|]. split; [split; [done|done|]|].
  - eexists. split; [apply lookup_insert_eq|done].
  - eexists. split; [apply lookup_insert_eq|done].
Qed.

Lemma recorded_others pins d d' : others d d' -> recorded pins d -> recorded pins d'.
Proof. intros Ho (x & Hx & Hp). exists x. by rewrite (q_set _ _ _ _ _ Ho). Qed.

Lemma wp_stop_failed pl st cause h d l :
  made pl st d -> st <> TransferSetActive ->
  wp (stop_fork forkID;; failing cause h) (fun o d' l' => ended o.1 d' l') d l.
Proof.
  intros Hm Hna. apply wp_quiet; [unfold stop_fork; calm_walk|]. intros ? d1 l1 Hd1 _.
  eapply wp_mono; [|eapply wp_failed; [by eapply made_others|done]]. intros o d2 l2. apply ended_failed.
Qed.

Lemma wp_set_pins {A} pl st mounts pins now d l (f : result StoreErr unit -> saga A) P :
  made pl st d -> st <> TransferSetActive ->
  (forall d' l', made pl st d' -> recorded pins d' -> wp (f (Ok tt)) P d' l') ->
  (forall e d' l', made pl st d' -> wp (f (Err e)) P d' l') ->
  wp (store (TransferSets.SetPins transferSetID (u64 (pl_gen pl)) mounts pins now) ≫= f) P d l.
Proof.
  intros Hm Hna Hok Herr. apply wp_bind, wp_store. intros d1 r d2 Hr Ho.
  apply (made_others _ _ _ _ Hr) in Hm.
  apply outcome_SetPins in Ho as [(e & -> & ->)|(x & Hx & Hg & -> & ->)].
  { split; [apply together_same|]. by apply Herr. }
  destruct Hm as (y & Hy & Hst & Hf & Hid & _ & s & Hs & Ha). rewrite Hx in Hy. injection Hy as <-. split.
  - intros (y & Hy & Hya). cbn in Hy. rewrite lookup_insert_eq in Hy. injection Hy as <-. cbn in Hya. by subst st.
  - apply Hok; (eexists; split; [apply lookup_insert_eq|]); [|done]. split_and!; try done. by exists s.
Qed.

Abbreviation finish := (finish_fork forkID transferSetID cpID claimTTL intentEnabled configured lease).
Lemma wp_finish pl res h d l :
  made pl TransferSetRestoring d -> good_pins targetGeneration (fr_RootfsPins res) ->
  wp (finish pl res h) (fun o d' l' => ended o.1 d' l') d l.
Proof.
  intros Hm Hgood. unfold finish_fork. apply wp_bind, wp_ask. intros now.
  eapply wp_set_pins; [done|done| |].
  2: { intros e d1 l1 Hm1. eapply wp_mono; [intros o d2 l2; apply ended_failed|]. by eapply wp_failed. }
  intros d1 l1 Hm1 Hrec. cbn beta iota.
  eapply wp_seq; [apply wp_start|]. intros r d2 l2 [Hd2 Hprov]. cbn beta in *.
  apply (made_others _ _ _ _ Hd2) in Hm1. apply (recorded_others _ _ _ Hd2) in Hrec.
  destruct r as [e|node]; [by eapply wp_stop_failed|].
  apply wp_bind, wp_ask. intros now1. apply wp_bind, wp_ask. intros now2.
  apply wp_bind, wp_store. intros d3 r d4 Hd3 Ho.
  apply (made_others _ _ _ _ Hd3) in Hm1. apply (recorded_others _ _ _ Hd3) in Hrec.
  apply (outcome_activate _ _ _ _ _ _ _ _ Hm1 Hrec) in Ho as [(e & -> & ->)|(-> & Hact & Hrec')].
  - split; [apply together_same|]. by eapply wp_stop_failed.
  - split; [intros _; right; by exists node|]. apply wp_ret. exists (fr_RootfsPins res), d3, d4.
    split_and!; [set_solver| |done|done|done| |done].
    { destruct Hm1 as (x & Hx & Hst & _ & _ & _ & Hs). split; [done|]. exists x. by rewrite Hst. } eapply provisioned_prefix; [by apply Hprov|].
    rewrite <- !(assoc_L (++)). by eexists.
Qed.

(** ** Under the claim, and at the boundary *)

Abbreviation ends := (fun o (d' : Tables) (l' : trace) => ended o.1 d' l').
Lemma wp_fails pl st cause h d l :
  made pl st d -> st <> TransferSetActive -> wp (failing cause h) ends d l.
Proof.
  intros Hm Hna. eapply wp_mono; [intros o d2 l2; apply ended_failed|]. by eapply wp_failed.
Qed.
Ltac fails := by eapply wp_fails.

Lemma wp_quietly_made {A B} pl st (p : saga A) (f : A -> saga B) P d l :
  made pl st d -> quietly p -> (forall a d' l', made pl st d' -> wp (f a) P d' l') -> wp (p ≫= f) P d l.
Proof. intros Hm Hp Hf. apply wp_quiet; [done|]. intros a d' l' Hd _. by eapply Hf, made_others. Qed.

Abbreviation claimed_part :=
  (fork_claimed sourceID forkID transferSetID leaseID cpID claimTTL intentEnabled configured lease).
Lemma wp_claimed pl h d l : made pl TransferSetRestoring d -> wp (claimed_part pl h) ends d l.
Proof.
  intros Hm. unfold fork_claimed.
  eapply wp_quietly_made; [done|calm_walk|]. intros [e|cur] d1 l1 M1; [fails|]. case_match; [fails|].
  eapply wp_quietly_made; [done|calm_walk|]. intros [e|[[[id g] c]|]] d2 l2 M2; [fails| |fails].
  case_match; [fails|]. case_match; [fails|]. apply wp_bind, wp_ask. intros now.
  eapply wp_quietly_made; [done|calm_walk|]. intros [e|?] d3 l3 M3; [fails|].
  apply wp_bind. eapply wp_mono;
    [|apply (wp_returns is_fault); [apply (good_materialize sourceID forkID transferSetID (request pl))|]].
  2: { apply wp_calm; [apply _|apply together_others|]. apply calm_materialize. intros h'. apply quiet_restored. }
  intros [res h'] d4 l4 (Hg & Hd4 & _). apply (made_others _ _ _ _ Hd4) in M3.
  destruct res as [e|res]; [fails|]. apply wp_finish; [done|]. by apply (Hg res).
Qed.

Lemma wp_at_boundary pl d l :
  made pl TransferSetRestoring d ->
  wp (fork_at_boundary sourceID forkID transferSetID leaseID cpID claimTTL intentEnabled configured lease pl)
    ended d l.
Proof.
  intros Hm. unfold fork_at_boundary. apply wp_bind, wp_ask. intros ?.
  eapply wp_quietly_made; [done|calm_walk|]. intros c d1 l1 M1.
  apply (wp_seq is_fault others together) with (P' := ends).
  - destruct c; [fails|by apply wp_claimed].
  - intros [r h'] d2 l2 He. apply wp_quiet; [calm_walk|]. intros ? d3 l3 Hd3 Hl3. apply wp_ret.
    by eapply ended_others.
Qed.

Abbreviation giving_up := (failed_row forkID transferSetID cpID claimTTL configured lease).
Lemma wp_give_up pl st cause d l :
  made pl st d -> st <> TransferSetActive -> wp (giving_up cause) ended d l.
Proof.
  intros Hm Hna. eapply wp_mono; [|by eapply wp_failed_row].
  intros [e|node] d' l' [? ?]; [done|]. done.
Qed.
Lemma wp_after_rows pl d l :
  made pl TransferSetPending d ->
  wp (after_rows sourceID forkID transferSetID leaseID cpID claimTTL intentEnabled configured lease pl)
    ended d l.
Proof.
  intros Hm. unfold after_rows. eapply wp_quietly_made; [done|calm_walk|]. intros ? d1 l1 M1.
  apply wp_bind, wp_ask. intros now. eapply wp_set_status; [done|done| |].
  2: { intros e d2 l2 _ M2 _. by eapply wp_give_up. }
  intros d2 l2 _ M2. cbn beta iota.
  eapply wp_quietly_made; [done|calm_walk|]. intros [e|room] d3 l3 M3; [by eapply wp_give_up|].
  eapply wp_quietly_made; [done|calm_walk|]. intros [e|?] d4 l4 M4; [by eapply wp_give_up|].
  apply wp_bind, wp_ask. intros now'. eapply wp_set_status; [done|done| |].
  2: { intros e d5 l5 _ M5 _. by eapply wp_give_up. }
  intros d5 l5 _ M5. cbn beta iota.
  eapply wp_quietly_made; [done|calm_walk|]. intros [e|?] d6 l6 M6; [by eapply wp_give_up|].
  by apply wp_at_boundary.
Qed.

(** ** The rows *)

(** Neither the fork's row nor its set is there. *)
Definition nothing (d : Tables) : Prop := set_of d = None /\ fork_of d = None.
Lemma nothing_others d d' : others d d' -> nothing d -> nothing d'.
Proof.
  intros [Hr Hs] [Hset Hrow]. split; [by rewrite Hs|]. unfold rowrel in Hr. rewrite Hrow in Hr.
  by destruct (fork_of d').
Qed.

Definition row_only (d : Tables) : Prop :=
  set_of d = None /\ exists s, fork_of d = Some s /\ SpawnStatus s <> Active.
Lemma row_only_others d d' : others d d' -> row_only d -> row_only d'.
Proof.
  intros Ho [Hset (s & Hs & Ha)]. split; [by rewrite (q_set _ _ _ _ _ Ho)|].
  destruct (quiet_row _ _ _ _ _ _ Ho Hs) as (s' & Hs' & _ & Hu). exists s'. auto.
Qed.
Lemma others_rows :
  (forall k c, always others (insert_container k c)) /\ (forall ms, always others (insert_mounts forkID ms)) /\
  (forall l, always others (AddArtifacts forkID l)) /\
  (forall d a v ms, always others (check_declared d a v ms)) /\
  (forall A (q : Tables -> A), always others (query q)).
Proof. split_and!; intros; eauto with calm typeclass_instances. Qed.

Lemma outcome_insert_spawn s d d' :
  nothing d -> SpawnStatus s <> Active -> outcome (insert_spawn forkID s) d (Ok tt) d' -> row_only d'.
Proof.
  intros [Hset Hrow] Ha Ho. apply outcome_stmt in Ho as [(? & ? & _)|Ho]; [done|].
  rewrite Hrow in Ho. injection Ho as <-. split; [done|]. exists s. cbn. by rewrite lookup_insert_eq.
Qed.
Lemma outcome_insert_set x d d' :
  set_of d = None -> outcome (TransferSets.insert_set transferSetID x) d (Ok tt) d' ->
  d' = d <| transfer_sets ::= <[transferSetID := x]> |>.
Proof.
  intros Hset Ho. apply outcome_stmt in Ho as [(? & ? & _)|Ho]; [done|]. rewrite Hset in Ho. by injection Ho as <-.
Qed.
Lemma outcome_Create_row s mounts d d' :
  nothing d -> outcome (Create forkID s mounts) d (Ok tt) d' -> row_only d'.
Proof.
  destruct others_rows as (Hc & Hms & _ & Hdecl & Hq). intros Hn Ho. unfold Create in Ho.
  apply outcome_bind in Ho as [(? & ? & _)|(known & d1 & Ho1 & Ho)]; [done|].
  apply (always_outcome _ _ _ _ _ (Hq _ _)) in Ho1. apply (nothing_others _ _ Ho1) in Hn.
  destruct known; cbn in Ho; [|by apply outcome_throw in Ho as [? _]].
  apply outcome_bind in Ho as [(? & ? & _)|(decls & d2 & Ho2 & Ho)]; [done|].
  apply (always_outcome _ _ _ _ _ (Hq _ _)) in Ho2. apply (nothing_others _ _ Ho2) in Hn.
  apply outcome_bind in Ho as [(? & ? & _)|([] & d3 & Ho3 & Ho)]; [done|].
  apply (always_outcome _ _ _ _ _ (Hdecl _ _ _ _)) in Ho3. apply (nothing_others _ _ Ho3) in Hn.
  apply outcome_bind in Ho as [(? & ? & _)|([] & d4 & Ho4 & Ho)]; [done|].
  apply outcome_insert_spawn in Ho4; [|done|done].
  apply outcome_bind in Ho as [(? & ? & _)|([] & d5 & Ho5 & Ho)]; [done|].
  apply (always_outcome _ _ _ _ _ (Hc _ _)) in Ho5. apply (always_outcome _ _ _ _ _ (Hms _)) in Ho.
  by eapply row_only_others, row_only_others.
Qed.

Abbreviation rows pl now := (create_rows owner sourceID forkID transferSetID pl now).
Lemma outcome_create_rows pl now d r d' :
  nothing d -> outcome (rows pl now) d r d' ->
  (exists e, r = Err e /\ d' = d) \/ (r = Ok tt /\ made pl TransferSetPending d').
Proof.
  intros Hn Ho. apply outcome_tx in Ho as [([] & -> & Ho)|(e & -> & ->)]; [right|left; eauto]. split; [done|].
  apply outcome_bind in Ho as [(? & ? & _)|([] & d1 & Ho1 & Ho)]; [done|].
  apply outcome_Create_row in Ho1; [|done].
  apply outcome_bind in Ho as [(? & ? & _)|([] & d2 & Ho2 & Ho)]; [done|].
  destruct others_rows as (_ & _ & Ha & _). apply (always_outcome _ _ _ _ _ (Ha _)) in Ho2.
  destruct (row_only_others _ _ Ho2 Ho1) as [Hset (s & Hs & Hna)].
  unfold TransferSets.Create in Ho. cbn in Ho.
  case_match; [by apply outcome_throw in Ho as [? _]|].
  case_match; [by apply outcome_throw in Ho as [? _]|].
  rewrite String.eqb_refl in Ho. cbn in Ho.
  apply outcome_insert_set in Ho as ->; [|done].
  eexists. split; [apply lookup_insert_eq|]. cbn. split_and!; [done..|]. by exists s.
Qed.

(** ** The whole request *)

(** How the request ends: as [ended], or refused with nothing created. *)
Definition settled (r : result fork_error string) (d : Tables) (l : trace) : Prop :=
  ended r d l \/ (is_ok r = false /\ nothing d).

Lemma wp_planned pl d l :
  nothing d ->
  wp (fork_planned owner sourceID forkID transferSetID leaseID cpID claimTTL intentEnabled configured lease pl)
    settled d l.
Proof.
  intros Hn. unfold fork_planned. apply wp_bind, wp_ask. intros now. apply wp_bind, wp_store.
  intros d1 r d2 Hd1 Ho. apply (nothing_others _ _ Hd1) in Hn.
  apply outcome_create_rows in Ho as [(e & -> & ->)|[-> Hm]]; [..|done].
  - split; [apply together_same|]. right. done.
  - split.
    + intros (x & Hx & Ha). destruct Hm as (y & Hy & Hst & _). rewrite Hx in Hy. injection Hy as <-.
      by rewrite Hst in Ha.
    + eapply wp_mono; [|by apply wp_after_rows]. intros a d' l' He. by left.
Qed.

(** A step before the rows exist: it fails, or nothing is there yet. *)
Lemma wp_gate {A} (p : handler A) (f : A -> handler string) d l :
  nothing d -> quietly p -> (forall a d' l', nothing d' -> wp (f a) settled d' l') ->
  wp (a ←! p; f a) settled d l.
Proof.
  intros Hn Hp Hf. apply wp_quiet; [done|]. intros [e|a] d' l' Hd _; apply (nothing_others _ _ Hd) in Hn.
  - apply wp_ret. by right.
  - by apply Hf.
Qed.
Lemma wp_refused e d l : nothing d -> wp (fail e) settled d l.
Proof. intros Hn. apply wp_ret. by right. Qed.

Ltac gate x Hn := apply wp_gate; [done|calm_walk|]; clear Hn; intros x ?d ?l Hn.
Lemma wp_request n c req d l :
  nothing d ->
  wp (ForkSpawn owner sourceID forkID transferSetID leaseID cpID claimTTL maxSpawnsPerOwner intentEnabled
        configured lease n c req) settled d l.
Proof.
  intros Hn. unfold ForkSpawn. case_match; [by apply wp_refused|].
  gate u0 Hn. unfold forkSpawnClaimed. gate src Hn. gate u1 Hn. apply wp_bind, wp_ask. intros now.
  gate u2 Hn. gate live Hn. destruct live as [[[? g] live]|]; [|by apply wp_refused].
  gate u3 Hn. gate u4 Hn. gate u5 Hn.
  apply wp_quiet; [calm_walk|]. intros [e|room] d' l' Hd' _; apply (nothing_others _ _ Hd') in Hn;
    [by apply wp_refused|].
  gate target Hn. gate u7 Hn. gate u8 Hn. gate needs Hn. gate name Hn. gate ms Hn. gate arts Hn.
  by apply wp_planned.
Qed.
End Settles.
