(* ===== verification/ForkSource.v ===== *)
(** * The source of a fork

    The handler against others who do not take its claim: the claim and the lock of the source are
    given back, and a copy is only started once its source has been. *)

From S2P Require Import Prelude GoLib Database Sagas SpawnStore SpawnLifecycle SpawnContract TransferSets.
From S2P Require Import Transitions Migration CpEnv Durability SpawnNames ForkCleanup Fork ForkSpawn ForkLaws.
Open Scope Z_scope.

(** ** Sagas that only ask *)

(** A property of what happened that questions in [phi] do not change. *)
Definition asks_keep (phi : question -> Prop) (K : Tables -> trace -> Prop) : Prop :=
  forall d l q a, phi q -> K d l -> K d (l ++ [Answered q a]).

Section Loops.
Context (R : Tables -> Tables -> Prop) (phi : question -> Prop).
Abbreviation wp p P d l := (wp is_fault R (fun _ _ _ => True) p P d l).
Context (Hsend : forall n c, phi (Connected n) /\ phi (Send n c)).

Lemma wp_sends K n c d l :
  asks_keep phi K -> K d l -> wp (send_quietly n c) (fun _ d' l' => K d' l') d l.
Proof.
  intros HK Hk. destruct (Hsend n c) as [H1 H2]. unfold send_quietly.
  apply wp_bind, wp_ask. intros [|]; [apply wp_bind, wp_ask; intros ?|]; apply wp_ret; auto.
Qed.
Lemma wp_exported K src fork ts req m d l :
  asks_keep phi K -> K d l -> wp (handleExported src fork ts req m) (fun _ d' l' => K d' l') d l.
Proof.
  intros HK Hk. unfold handleExported, require_.
  do 3 (case_match; [by apply wp_ret|]). apply wp_bind, wp_ask. intros sent.
  destruct (Hsend (mq_TargetNodeID req)
    (ForkTransferImport src fork (mq_TargetGeneration req) ts (ex_SealedTransferKey m) (ex_Payload m))).
  destruct sent; apply wp_ret; auto.
Qed.

(** ** What a materialization keeps

    [I] holds of what the caller holds, and [J] too once the callback has succeeded. *)
Context (src fork ts : string) (req : forkMaterializeRequest) {H : Type} (cb : H -> saga (result fork_error unit * H)).
Context (I J : H -> Tables -> trace -> Prop).
Context (I_ask : forall h, asks_keep phi (I h)) (J_ask : forall h, asks_keep phi (J h)).
Context (Hmore : phi Context_cancelled /\ phi Arrivals_same /\ phi Arrivals_cross /\ phi (Check "forkTargetKeyMaterial")).
Definition kept {A} (o : result fork_error A * H) (d : Tables) (l : trace) : Prop :=
  I o.2 d l /\ (is_ok o.1 = true -> J o.2 d l).
Context (Hcb : forall h d l, I h d l -> wp (cb h) kept d l).

Lemma kept_err {A} (e : fork_error) h d l : I h d l -> kept (A := A) (Err e, h) d l.
Proof. by split. Qed.
Lemma kept_both {A} (r : result fork_error A) h d l : I h d l -> J h d l -> kept (r, h) d l.
Proof. by split. Qed.

Lemma wp_cancel_same h e d l :
  I h d l -> wp (cancelForkSameNode src fork ts req;; mret (Err e, h)) (kept (A := forkMaterializeResult)) d l.
Proof.
  intros Hi. eapply wp_seq; [by apply (wp_sends (I h))|]. intros ? d' l' Hl. by apply wp_ret, kept_err.
Qed.
Lemma wp_cross_fail h e d l : I h d l -> wp (cross_fail src fork ts req e h) kept d l.
Proof.
  intros Hi. unfold cross_fail, cancelForkTransfer.
  apply (wp_seq is_fault R (fun _ _ _ => True)) with (P' := fun _ => I h).
  - eapply wp_seq; [by apply (wp_sends (I h))|]. intros ? d' l' Hl.
    case_match; [by apply wp_ret|by apply wp_sends].
  - intros ? d' l' Hl. by apply wp_ret, kept_err.
Qed.
(** While the source is not restored [I], afterwards both. *)
Definition so_far (b : bool) (h : H) (d : Tables) (l : trace) : Prop := I h d l /\ (b = true -> J h d l).
Lemma so_far_ask b h : asks_keep phi (so_far b h).
Proof. intros d l q a Hq [Hi Hj]. split; [by apply I_ask|]. intros Hb. by apply J_ask, Hj. Qed.
Lemma wp_handle m b h d l :
  so_far b h d l -> wp (handleSourceRestored src ts req cb m b h) kept d l.
Proof.
  intros [Hi Hj]. unfold handleSourceRestored. do 2 (case_match; [by apply wp_ret, kept_err|]).
  destruct b; [apply wp_ret, kept_both; auto|by apply Hcb].
Qed.
Lemma wp_same arr e b p h d l :
  so_far b h d l -> wp (same_node_loop src fork ts req cb arr e b p h) kept d l.
Proof.
  revert b p h d l. induction arr as [|[m|m] arr IH]; intros b p h d l Hs; cbn [same_node_loop].
  - by apply wp_cancel_same, Hs.
  - eapply wp_seq; [by apply wp_handle|]. intros [r h'] d' l' [Hi Hj]. cbn in Hi, Hj.
    destruct r as [err|[]]; [by apply wp_ret, kept_err|].
    destruct p; [apply wp_ret, kept_both; auto|]. apply IH. split; auto.
  - destruct b; [|by apply IH]. apply wp_ret, kept_both; [apply Hs|by apply Hs].
Qed.
Lemma wp_cross arr e b p h d l :
  so_far b h d l -> wp (cross_node_loop src fork ts req cb arr e b p h) kept d l.
Proof.
  revert b p h d l. induction arr as [|[m|m|m] arr IH]; intros b p h d l Hs; cbn [cross_node_loop].
  - by apply wp_cross_fail, Hs.
  - eapply wp_seq; [by apply wp_handle|]. intros [r h'] d' l' [Hi Hj]. cbn in Hi, Hj.
    destruct r as [err|[]]; [by apply wp_cross_fail|].
    destruct p; [apply wp_ret, kept_both; auto|]. apply IH. split; auto.
  - eapply wp_seq; [apply (wp_exported (so_far b h)); [apply so_far_ask|done]|].
    intros [err|?] d' l' Hs'; [by apply wp_cross_fail, Hs'|by apply IH].
  - destruct b; [|by apply IH]. apply wp_ret, kept_both; [apply Hs|by apply Hs].
Qed.
Lemma wp_materialize h d l : I h d l -> wp (materializeFork src fork ts req cb h) kept d l.
Proof.
  intros Hi. unfold materializeFork, materialize_cross_node, materialize_same_node.
  destruct Hmore as (Hm1 & Hm2 & Hm3 & Hm4). unfold asks_keep in I_ask.
  assert (forall h d l, I h d l -> so_far false h d l) as Hfar by (by split).
  pose proof (fun n => proj1 (Hsend n (CancelForkSameNode "" "" ""))) as Hup.
  pose proof (fun n c => proj2 (Hsend n c)) as Hto.
  assert (forall e h d l, I h d l -> wp (mret (Err e, h)) (kept (A := forkMaterializeResult)) d l) as Hret
    by (intros; by apply wp_ret, kept_err).
  case_match.
  - apply wp_bind, wp_ask. intros [|]; [|apply Hret; auto]. cbn [negb].
    apply wp_bind, wp_ask. intros [|]; [|apply Hret; auto]. cbn [negb].
    apply wp_bind, wp_ask. intros [|]; [|apply Hret; auto]. cbn [negb].
    apply wp_bind, wp_ask. intros [|]; [|apply Hret; auto]. cbn [negb].
    apply wp_bind, wp_ask. intros [arr e]. apply wp_cross; auto 10.
  - apply wp_bind, wp_ask. intros [|]; [|apply Hret; auto]. cbn [negb].
    apply wp_bind, wp_ask. intros [|]; [|apply Hret; auto]. cbn [negb].
    apply wp_bind, wp_ask. intros [|]; [apply wp_cancel_same; auto|].
    apply wp_bind, wp_ask. intros [arr e]. apply wp_same; auto 10.
Qed.
End Loops.

(** ** What the trace shows *)

(** Questions that touch neither the source's lock nor the start of the copy. *)
Definition plain (q : question) : bool :=
  match q with Lock_source | Unlock_source | Provision _ _ _ _ => false | _ => true end.
Definition is_plain (q : question) : Prop := plain q = true.
Definition locks (q : question) : Z := match q with Lock_source => 1 | Unlock_source => -1 | _ => 0 end.
Fixpoint open_locks (l : trace) : Z :=
  match l with
  | [] => 0
  | Answered q _ :: l => locks q + open_locks l
  | Did _ _ _ :: l => open_locks l
  end.
Lemma open_locks_app l k : open_locks (l ++ k) = open_locks l + open_locks k.
Proof. induction l as [|[q a|d d' f] l IH]; cbn; [done|lia|done]. Qed.
Lemma open_locks_plain k : Forall (event_asks is_plain) k -> open_locks k = 0.
Proof. induction 1 as [|[q a|d d' f] k Hq _ IH]; cbn in *; [done| |done]. by destruct q. Qed.

Abbreviation plainly p := (asks is_plain p).

Section Plain.
Context (owner sourceID forkID transferSetID leaseID cpID : string) (claimTTL maxSpawnsPerOwner : Z).
Context (configured : bool) (lease : string -> string).
Lemma plain_classify k md ms res : plainly (classify k md ms res).
Proof. revert res. induction ms as [|[[a b] m] ms IH]; intros res; cbn [classify]; asks_walk. Qed.
Lemma plain_guard k cl b ms : plainly (guard_mounts k cl b ms).
Proof. induction ms as [|[[a c] m] ms IH]; cbn [guard_mounts]; asks_walk. Qed.
#[local] Hint Resolve plain_classify plain_guard : asks.
Lemma plain_durability k a b u : plainly (guardCrossNodeDurability k a b u).
Proof. unfold guardCrossNodeDurability, classifyMounts. asks_walk. Qed.
Lemma plain_needs k a b : plainly (forkNeedsJournalKeyDelivery k a b).
Proof. unfold forkNeedsJournalKeyDelivery, classifyMounts. asks_walk. Qed.
Lemma plain_name k src n : plainly (forkName owner k src n).
Proof. unfold forkName. asks_walk. Qed.
Lemma plain_owned k : plainly (owned_source owner k).
Proof. unfold owned_source. asks_walk. Qed.
Lemma plain_quota : plainly (checkSpawnQuota owner maxSpawnsPerOwner).
Proof. unfold checkSpawnQuota. asks_walk. Qed.
Lemma plain_target n : plainly (check_target n).
Proof. unfold check_target. asks_walk. Qed.
Lemma plain_class n c b : plainly (resolve_class n c b).
Proof. unfold resolve_class. asks_walk. Qed.
Lemma plain_headroom : plainly forkHeadroomBytes.
Proof. unfold forkHeadroomBytes. asks_walk. Qed.
Lemma plain_room node n : plainly (checkForkDiskHeadroom node n).
Proof. unfold checkForkDiskHeadroom. asks_walk. Qed.
Lemma plain_wait k T req : plainly (waitForkTurnBoundary k T req).
Proof. unfold waitForkTurnBoundary, releaseForkTurnBoundary, send_quietly. asks_walk. Qed.
Lemma plain_boundary k T pl h : plainly (release_boundary k T pl h).
Proof. unfold release_boundary, releaseForkTurnBoundary, send_quietly. asks_walk. Qed.
Lemma plain_unwind cfg : plainly (unwindFailedFork cpID claimTTL lease configured cfg).
Proof.
  unfold unwindFailedFork, unwind_claimed, RevokeForkGeneration, EmptyForkBucket, ReleaseForkDelta, cleanup_send.
  asks_walk.
Qed.
Lemma plain_unpause k g : plainly (unpauseIfPaused k g).
Proof. unfold unpauseIfPaused. asks_walk. Qed.
Lemma plain_restore g : plainly (restoreForkingSource sourceID leaseID g).
Proof. unfold restoreForkingSource. asks_walk. Qed.
#[local] Hint Resolve plain_unwind plain_unpause plain_restore : asks.
Lemma plain_fail gen cause :
  plainly (failForkAfterRow forkID transferSetID cpID claimTTL configured lease gen cause).
Proof. unfold failForkAfterRow. asks_walk. Qed.
Lemma plain_after g : plainly (restoreForkingSourceAfterUnpause sourceID leaseID g).
Proof. unfold restoreForkingSourceAfterUnpause. asks_walk. Qed.
Lemma plain_claim n : plainly (claimSource sourceID leaseID cpID claimTTL n).
Proof. induction n; cbn [claimSource]; asks_walk. Qed.
End Plain.
#[export] Hint Resolve plain_owned plain_quota plain_target plain_class plain_durability plain_needs plain_name plain_headroom plain_room plain_wait
  plain_boundary plain_unwind plain_unpause plain_restore plain_fail plain_after plain_claim : asks.

(** ** What the handler holds, and gives back *)

Section Gives.
Context (owner sourceID forkID transferSetID leaseID cpID : string).
Context (claimTTL maxSpawnsPerOwner : Z) (intentEnabled configured : bool) (lease : string -> string).
Context (Hne : forkID <> sourceID).

Abbreviation source_of d := (spawns d !! sourceID).
(** What the others do, and all of the handler's transactions but the claim. *)
Abbreviation aside := (quiet sourceID (unclaimed leaseID) (fun _ => False)).
Abbreviation wp p P d l := (wp is_fault aside (fun _ _ _ => True) p P d l).

Definition unheld (d : Tables) : Prop := forall s, source_of d = Some s -> ClaimLeaseID s <> Some leaseID.
Lemma unheld_aside d d' : aside d d' -> unheld d -> unheld d'.
Proof.
  intros Ho Hu s' Hs'. destruct (quiet_row_back _ _ _ _ _ _ Ho Hs') as (s & Hs & _ & Hl).
  intros Hc. by apply (Hu s), Hl.
Qed.
(** The handler marked the source forking, and saw it restored later. *)
Definition marks (e : event) : Prop :=
  exists d d' f s s', e = Did d d' f /\ source_of d = Some s /\ SpawnStatus s = Active /\
    source_of d' = Some s' /\ SpawnStatus s' = Forking.
Definition marked (l : trace) : Prop := exists e, e ∈ l /\ marks e.
Definition seen_restored (k : trace) : Prop :=
  exists d d' f s, Did d d' f ∈ k /\ source_of d' = Some s /\ is_restored s = true.
Definition given_back (l : trace) : Prop := exists l1 e l2, l = l1 ++ e :: l2 /\ marks e /\ seen_restored l2.
Lemma marked_app l k : marked l -> marked (l ++ k).
Proof. intros (e & Hin & He). exists e. split; [apply elem_of_app; by left|done]. Qed.
Lemma seen_app l k : seen_restored l -> seen_restored (l ++ k).
Proof. intros (d & d' & f & s & Hin & ?). exists d, d', f, s. split; [apply elem_of_app; by left|done]. Qed.
Lemma given_app l k : given_back l -> given_back (l ++ k).
Proof.
  intros (l1 & e & l2 & -> & He & Hs). exists l1, e, (l2 ++ k). split; [|split; [done|by apply seen_app]].
  by rewrite <- (assoc_L (++)).
Qed.
Lemma marked_seen l k : marked l -> seen_restored k -> given_back (l ++ k).
Proof.
  intros (e & [l1 [l2 ->]]%list_elem_of_split & He) (d & d' & f & s & Hin & Hs).
  exists l1, e, (l2 ++ k). split; [by rewrite <- (assoc_L (++))|]. split; [done|].
  exists d, d', f, s. split; [apply elem_of_app; by right|done].
Qed.

(** A copy is only ever started when the source is given back and its lock is open to others. *)
Definition provisions (e : event) : Prop := exists i n g rootfs a, e = Answered (Provision i n g rootfs) a.
Definition careful (l : trace) : Prop :=
  each (fun l1 e => provisions e -> given_back l1 /\ open_locks l1 = 0) l.
Lemma careful_snoc l e : careful l -> (provisions e -> given_back l /\ open_locks l = 0) -> careful (l ++ [e]).
Proof. intros Hl He. by apply each_snoc. Qed.
Lemma careful_plain l k : careful l -> Forall (event_asks is_plain) k -> careful (l ++ k).
Proof.
  intros Hl Hk. apply each_app; [done|]. eapply Forall_impl; [exact Hk|]. intros e He l1.
  by intros (i & n & g & r & a & ->).
Qed.

(** The row's claim is ours only while [claimHeld] says so, unless the driver failed; the lock is
    open as often as [sourceLockHeld] says; and the trace is [careful]. *)
Definition keeps (h : held) (d : Tables) (l : trace) : Prop :=
  (faulted l \/ claimHeld h = true \/ unheld d) /\ (open_locks l = if sourceLockHeld h then 1 else 0) /\ careful l.
Definition released (h : held) : Prop :=
  sourceLockHeld h = false /\ claimHeld h = false /\ restoreOnFailure h = None.

Lemma faulted_app (l k : trace) : faulted l -> faulted (l ++ k).
Proof. intros (d & d' & Hin). exists d, d'. apply elem_of_app. by left. Qed.
Lemma keeps_aside h d d' l k :
  aside d d' -> Forall (event_asks is_plain) k -> keeps h d l -> keeps h d' (l ++ k).
Proof.
  intros Ho Hk (Hc & Hl & Hw). split; [|split; [rewrite open_locks_app, (open_locks_plain _ Hk); lia|by apply careful_plain]].
  destruct Hc as [?|[?|?]]; [left; by apply faulted_app|by right; left|].
  right. right. by eapply unheld_aside.
Qed.

(** ** Quiet parts *)

Lemma aside_acquire h le n dl seq : always aside (Acquire forkID h le n dl seq).
Proof. quiet_method. Qed.
Lemma aside_delete le seq g ts : always aside (MarkDeletedClaimed true forkID le seq g ts).
Proof. quiet_method. Qed.
Lemma aside_release le : always aside (Release sourceID le).
Proof. quiet_method. Qed.
Lemma aside_forking g dl : always aside (SetForking sourceID g dl).
Proof. quiet_method. Qed.
Lemma aside_recovered le seq g : always aside (TransitionForkingRecovered sourceID le seq g).
Proof. quiet_method. Qed.
Lemma aside_sets T f : always aside (TransferSets.updateOne T f).
Proof. unfold TransferSets.updateOne. quiet_walk. apply calm_exec_sets; [apply _|done]. Qed.
Lemma aside_pins T g m r now : always aside (TransferSets.SetPins T g m r now).
Proof. unfold TransferSets.SetPins. quiet_walk. apply calm_exec_sets; [apply _|done]. Qed.
Lemma aside_active n g : always aside (SetActive forkID n g).
Proof. quiet_method. Qed.
#[local] Hint Resolve aside_acquire aside_delete aside_release aside_forking aside_recovered aside_sets
  aside_pins aside_active : calm.
Lemma aside_activate n g a b : always aside (activateForkAndTransferSet forkID transferSetID n g a b).
Proof. unfold activateForkAndTransferSet, TransferSets.SetTargetNode, TransferSets.SetStatus. quiet_walk. Qed.
Lemma aside_create s ms : always aside (Create forkID s ms).
Proof. unfold Create. quiet_walk; by (apply calm_insert_spawn; [apply _|]). Qed.
Lemma aside_create_set T k ks st x : always aside (TransferSets.Create T k ks st x).
Proof. unfold TransferSets.Create. quiet_walk; (apply calm_insert_set; [apply _|tauto]). Qed.
#[local] Hint Resolve aside_activate aside_create aside_create_set : calm.
Lemma aside_rows pl now : always aside (create_rows owner sourceID forkID transferSetID pl now).
Proof. unfold create_rows. quiet_walk. Qed.
#[local] Hint Resolve aside_rows : calm.
Abbreviation quietly p := (calm aside p).
Lemma aside_unwind g b n t1 t2 :
  quietly (unwindFailedFork cpID claimTTL lease configured (mkUnwind forkID g b n t1 t2)).
Proof.
  unfold unwindFailedFork, unwind_claimed, RevokeForkGeneration, EmptyForkBucket, ReleaseForkDelta. calm_walk.
Qed.
Lemma aside_restore g : quietly (restoreForkingSource sourceID leaseID g).
Proof. unfold restoreForkingSource. calm_walk. Qed.
#[local] Hint Resolve aside_unwind aside_restore : calm.
Lemma aside_after g : quietly (restoreForkingSourceAfterUnpause sourceID leaseID g).
Proof. unfold restoreForkingSourceAfterUnpause. calm_walk. Qed.
Lemma aside_status T st now : always aside (TransferSets.SetStatus T st now).
Proof. apply aside_sets. Qed.
#[local] Hint Resolve aside_after aside_status : calm.
Lemma aside_fail gen cause :
  quietly (failForkAfterRow forkID transferSetID cpID claimTTL configured lease gen cause).
Proof. unfold failForkAfterRow. calm_walk. Qed.
#[local] Hint Resolve aside_fail : calm.

(** A part that neither claims nor locks. *)
Lemma wp_aside {A B} h (p : saga A) (f : A -> saga B) P d l :
  keeps h d l -> quietly p -> asks is_plain p ->
  (forall a d' k, aside d d' -> keeps h d' (l ++ k) -> wp (f a) P d' (l ++ k)) -> wp (p ≫= f) P d l.
Proof.
  intros Hk Hc Ha Hf. eapply wp_seq.
  - apply (wp_asks is_fault aside (fun _ _ _ => True) is_plain); [exact Ha|].
    eapply wp_calm; [apply _|done|exact Hc].
  - intros a d' l' [[Hd _] (k & -> & Hall)]. apply Hf; [done|].
    by apply (keeps_aside _ _ _ _ _ Hd Hall).
Qed.

Lemma faulted_last (l : trace) d d' : faulted (l ++ [Did d d' true]).
Proof. exists d, d'. apply elem_of_app. right. by left. Qed.
Lemma outcome_Release d r d' :
  outcome (Release sourceID leaseID) d r d' -> (exists msg, r = Err (ErrDriver msg)) \/ unheld d'.
Proof.
  intros Ho. apply outcome_exec_one in Ho as [(msg & -> & _)|Hr]; [left; eauto| |apply expect_one_cases]. right.
  unfold exec_spawns in Hr. rewrite run_bind in Hr by eauto with sql. rewrite run_stmt in Hr.
  assert (unheld (d <| spawns ::= update_where
    (fun k s => id_is sourceID k && opt_eqb (ClaimLeaseID s) leaseID) (fun s => bump (clear_claim s)) |>)) as Hu.
  { intros s. cbn. rewrite lookup_update_where. destruct (source_of d) as [s0|]; [|done]. cbn.
    unfold id_is. rewrite String.eqb_refl. cbn. unfold opt_eqb.
    case_bool_decide as Hc; intros [= <-]; [done|exact Hc]. }
  unfold expect_one in Hr. case_match; injection Hr as _ <-; exact Hu.
Qed.

(** ** Taking and giving back *)

Lemma wp_release h d l :
  keeps h d l ->
  wp (releaseSource sourceID leaseID h)
    (fun h' d' l' => h' = h <| claimHeld := false |> <| sourceLockHeld := false |> /\
       (exists k, l' = l ++ k) /\ keeps h' d' l') d l.
Proof.
  intros (Hc & Hl & Hw). unfold releaseSource. apply wp_bind.
  apply (wp_mono is_fault aside (fun _ _ _ => True) _
    (fun _ d' l' => (exists k, l' = l ++ k /\ Forall (event_asks is_plain) k) /\ (faulted l' \/ unheld d'))).
  - intros ? d1 l1 [(k & -> & Hk) Hc1]. pose proof (careful_plain _ _ Hw Hk) as Hw1.
    pose proof (open_locks_plain _ Hk) as Hk0. apply wp_bind. destruct (sourceLockHeld h).
    + apply wp_ask. intros ?. apply wp_ret. split; [done|]. split; [rewrite <- (assoc_L (++)); by eexists|].
      split; [destruct Hc1; [left; by apply faulted_app|by right; right]|].
      split; [rewrite !open_locks_app; cbn; lia|]. apply careful_snoc; [done|]. by intros (? & ? & ? & ? & ? & ?).
    + apply wp_ret, wp_ret. split; [done|]. split; [by eexists|].
      split; [destruct Hc1; [by left|by right; right]|]. split; [rewrite open_locks_app; cbn; lia|done].
  - destruct (claimHeld h).
    + apply wp_bind, wp_store. intros d1 r d2 _ Ho. split; [done|]. apply wp_ret.
      split; [eexists; split; [done|by repeat constructor]|].
      apply outcome_Release in Ho as [[msg ->]|Hu]; [left; apply faulted_last|by right].
    + apply wp_ret. split; [exists []; rewrite app_nil_r; by split|]. destruct Hc as [?|[?|?]]; [by left|done|by right].
Qed.

(** A [Get] shows the row that is in the table. *)
Lemma wp_get {B} h (f : result StoreErr Spawn -> saga B) P d l :
  keeps h d l ->
  (forall r d1 l', l' = l ++ [Did d1 d1 (faulty is_fault r)] -> keeps h d1 l' ->
     (forall s, r = Ok s -> source_of d1 = Some s) -> wp (f r) P d1 l') ->
  wp (store (Get sourceID) ≫= f) P d l.
Proof.
  intros Hk Hf. apply wp_bind, wp_store. intros d1 r d2 Hd Ho. apply outcome_Get in Ho as [-> Hrow].
  split; [done|]. eapply Hf; [done| |intros s Hs; by apply Hrow].
  eapply (keeps_aside _ _ _ _ [Did d1 d1 (faulty is_fault r)] Hd); [by repeat constructor|done].
Qed.

Lemma seen_did d d' f s : source_of d' = Some s -> is_restored s = true -> seen_restored [Did d d' f].
Proof. intros Hs Hr. exists d, d', f, s. split; [by left|done]. Qed.
Lemma wp_restore g h d l :
  keeps h d l ->
  wp (restoreForkingSource sourceID leaseID g)
    (fun r d' l' => keeps h d' l' /\ exists k, l' = l ++ k /\ (is_ok r = true -> seen_restored k)) d l.
Proof.
  intros Hk. unfold restoreForkingSource, stored.
  apply wp_bind, wp_get with h; [done|]. intros [e|sp] d1 l1 -> H1 Hs1.
  { apply wp_ret, wp_ret. split; [done|]. by eexists. }
  apply wp_ret. cbn beta iota. destruct (is_restored sp) eqn:Hr.
  { apply wp_ret. split; [done|]. eexists. split; [done|]. intros _. by eapply seen_did; [apply Hs1|]. }
  case_match. { apply wp_ret. split; [done|]. by eexists. }
  apply wp_bind, wp_store. intros d2 r d3 Hd2 Ho. split; [done|].
  pose proof (outcome_Recovered _ _ _ _ _ _ _ Ho) as Hrec.
  assert (keeps h d3 ((l ++ [Did d1 d1 (faulty is_fault (Ok sp))]) ++ [Did d2 d3 (faulty is_fault r)])) as H3.
  { eapply keeps_aside; [|by repeat constructor|done]. etransitivity; [exact Hd2|].
    eapply always_outcome; [apply aside_recovered|exact Ho]. }
  destruct Hrec as [(e & -> & _)|(s' & -> & Hs' & Hact & Hdl)].
  - destruct e; try (apply wp_ret; split; [done|]; rewrite <- (assoc_L (++)); by eexists).
    apply wp_get with h; [done|]. intros r d4 l4 -> H4 Hs4. destruct r as [e|cur].
    + apply wp_ret. split; [done|]. rewrite <- !(assoc_L (++)). by eexists.
    + destruct (is_restored cur) eqn:Hcur; apply wp_ret; (split; [done|]);
        rewrite <- !(assoc_L (++)); (eexists; split; [done|]); [|done].
      intros _. destruct (seen_did d4 d4 false cur (Hs4 _ eq_refl) Hcur) as (a & b & f & s & Hin & ?).
      exists a, b, f, s. split; [apply elem_of_app; right; apply elem_of_app; by right|done].
  - apply wp_ret. split; [done|]. rewrite <- (assoc_L (++)). eexists. split; [done|]. intros _.
    exists d2, d3, false, s'. split; [apply elem_of_app; right; by left|]. split; [done|].
    unfold is_restored. rewrite Hact, Hdl. by case_bool_decide.
Qed.

Definition Held (h : held) (d : Tables) (l : trace) : Prop := keeps h d l /\ marked l.
Definition Back (h : held) (d : Tables) (l : trace) : Prop := released h /\ given_back l.
Lemma keeps_ask h : asks_keep is_plain (keeps h).
Proof.
  intros d l q a Hq Hk. eapply keeps_aside; [reflexivity| |exact Hk]. by repeat constructor.
Qed.
Lemma held_ask h : asks_keep is_plain (Held h).
Proof. intros d l q a Hq [Hk Hm]. split; [by apply keeps_ask|by apply marked_app]. Qed.
Lemma back_ask h : asks_keep is_plain (Back h).
Proof. intros d l q a Hq [Hr Hg]. split; [done|by apply given_app]. Qed.
Lemma sends_plain n c : is_plain (Connected n) /\ is_plain (Send n c).
Proof. done. Qed.

Lemma wp_boundary pl h d l K :
  asks_keep is_plain K -> K d l ->
  wp (release_boundary sourceID transferSetID pl h)
    (fun h' d' l' => K d' l' /\ (h' = h \/ h' = h <| barrierAcquired := false |>)) d l.
Proof.
  intros HK Hk. unfold release_boundary. case_match; [|apply wp_ret; auto].
  unfold releaseForkTurnBoundary. eapply wp_seq; [by eapply (wp_sends aside is_plain sends_plain K)|].
  intros ? d1 l1 K1. apply wp_ret. auto.
Qed.
Lemma wp_restored pl g h d l :
  Held h d l ->
  wp (onSourceRestored sourceID transferSetID leaseID pl g h) (kept Held Back) d l.
Proof.
  intros [Hk Hm]. unfold onSourceRestored. eapply wp_seq; [by apply wp_restore with (h := h)|].
  intros r d1 l1 [H1 (k & -> & Hs)]. destruct r as [e|[]].
  { apply wp_ret. split; [|done]. split; [done|by apply marked_app]. }
  pose proof (marked_seen _ _ Hm (Hs eq_refl)) as Hg.
  eapply wp_seq; [by apply (wp_release (h <| restoreOnFailure := None |>))|].
  intros h2 d2 l2 (-> & (k2 & ->) & H2).
  set (h2 := h <| restoreOnFailure := None |> <| claimHeld := false |> <| sourceLockHeld := false |>).
  fold h2 in H2. eapply wp_seq.
  - apply (wp_boundary pl h2 _ _ (fun d l => Held h2 d l /\ Back h2 d l)).
    + intros d3 l3 q a Hq [? ?]. split; [by apply held_ask|by apply back_ask].
    + split; (split; [done|]); [by apply marked_app, marked_app|by apply given_app].
  - intros h3 d3 l3 [[H3 B3] [->| ->]]; apply wp_ret; split; done.
Qed.

(** The claim is the handler's when [acquireClaim] succeeds. *)
Lemma wp_claim n h d l :
  keeps h d l ->
  wp (claimSource sourceID leaseID cpID claimTTL n)
    (fun r d' l' => keeps (if is_ok r then h <| claimHeld := true |> else h) d' l') d l.
Proof.
  revert d l. induction n as [|n IH]; intros d l Hk; cbn [claimSource]; [by apply wp_ret|].
  apply wp_get with h; [done|]. intros [e|sp] d1 l1 -> H1 _; [by apply wp_ret|].
  apply wp_bind, wp_ask. intros now. apply (keeps_ask _ _ _ Now now eq_refl) in H1.
  apply wp_bind, wp_store. intros d2 r d3 Hd2 Ho. split; [done|].
  apply outcome_Acquire in Ho as [(e & -> & ->)|(s & Hs & _ & -> & ->)].
  - assert (keeps h d2 ((l ++ [Did d1 d1 (faulty is_fault (Ok sp))]) ++ [Answered Now now]
      ++ [Did d2 d2 (faulty is_fault (Err e : result StoreErr Z))])) as H2.
    { rewrite (assoc_L (++)). eapply keeps_aside; [exact Hd2|by repeat constructor|done]. }
    rewrite (assoc_L (++)) in H2. destruct e; by first [apply IH|apply wp_ret].
  - apply wp_ret. destruct H1 as (_ & Hl & Hw). split; [by right; left|].
    split; [rewrite open_locks_app; cbn [open_locks]; rewrite Z.add_0_r; exact Hl|].
    apply careful_plain; [done|by repeat constructor].
Qed.

(** ** The parts of the handler *)

Abbreviation failing := (failed forkID transferSetID cpID claimTTL configured lease).
Abbreviation keeping := (fun (o : result fork_error string * held) d' l' => keeps o.2 d' l').
Lemma plain_failed cause h : asks is_plain (failing cause h).
Proof. unfold failed. asks_walk. Qed.
Lemma wp_failing cause h d l : keeps h d l -> wp (failing cause h) keeping d l.
Proof.
  intros Hk. unfold failed. apply wp_aside with h; [done|calm_walk|asks_walk|].
  intros e d' k _ H1. by apply wp_ret.
Qed.
Lemma wp_stopped cause h d l : keeps h d l -> wp (stop_fork forkID;; failing cause h) keeping d l.
Proof.
  intros Hk. unfold stop_fork. apply wp_aside with h; [done|calm_walk|asks_walk|].
  intros e d' k _ H1. by apply wp_failing.
Qed.

Lemma src_start n g pins lo h d l :
  keeps h d l -> released h -> given_back l ->
  wp (startFork forkID intentEnabled n g pins lo) (fun _ d' l' => keeps h d' l') d l.
Proof.
  intros Hk (Hlock & _ & _) Hg. unfold startFork.
  apply (wp_seq is_fault aside (fun _ _ _ => True)) with (P' := fun _ => keeps h).
  2: { intros r d1 l1 H1. apply wp_bind, wp_ask. intros ?. apply wp_ret. by apply keeps_ask. }
  unfold start_body.
  apply wp_aside with h; [done|calm_walk|asks_walk|]. intros [e|arts] d1 k1 _ H1; [by apply wp_ret|].
  apply wp_aside with h; [done|calm_walk|asks_walk|]. intros [e|mts] d2 k2 _ H2; [by apply wp_ret|].
  apply wp_aside with h; [done|calm_walk|asks_walk|]. intros r d3 k3 _ H3.
  apply (wp_seq is_fault aside (fun _ _ _ => True)) with (P' := fun _ => keeps h).
  - destruct r as [e|[]]; [by apply wp_ret|].
    apply wp_aside with h; [done|calm_walk|asks_walk|]. intros [e|?] d4 k4 _ H4; [by apply wp_ret|].
    apply wp_bind, wp_ask. intros p. destruct H4 as (Hc & Hl & Hw).
    enough (keeps h d4 ((((l ++ k1) ++ k2) ++ k3) ++ k4 ++ [Answered (Provision forkID n g
      (schedulerRootfsRestore (Some (mkRestore g pins lo)))) p])) as H5 by (rewrite (assoc_L (++)) in H5; by destruct p).
    rewrite (assoc_L (++)). split; [destruct Hc as [?|?]; [left; by apply faulted_app|by right]|].
    split; [rewrite open_locks_app, Hl; cbn; by rewrite Z.add_0_r|]. apply careful_snoc; [done|]. intros _.
    split; [by do 4 apply given_app|by rewrite Hl, Hlock].
  - intros r' d4 l4 H4. apply wp_aside with h; [done|calm_walk|asks_walk|]. intros ? d5 k5 _ H5. by apply wp_ret.
Qed.

Abbreviation finish := (finish_fork forkID transferSetID cpID claimTTL intentEnabled configured lease).
Lemma src_finish pl res h d l :
  keeps h d l -> released h -> given_back l -> wp (finish pl res h) keeping d l.
Proof.
  intros Hk Hr Hg. unfold finish_fork.
  apply wp_bind, wp_ask. intros now. apply (keeps_ask _ _ _ Now now eq_refl) in Hk.
  apply wp_aside with h; [done|calm_walk|asks_walk|]. intros [e|?] d1 k1 _ H1; [by apply wp_failing|].
  eapply wp_seq; [apply (src_start _ _ _ _ h); [done|done|by do 2 apply given_app]|].
  intros [e|node] d2 l2 H2; [by apply wp_stopped|].
  apply wp_bind, wp_ask. intros n1. apply (keeps_ask _ _ _ Now n1 eq_refl) in H2.
  apply wp_bind, wp_ask. intros n2. apply (keeps_ask _ _ _ Now n2 eq_refl) in H2.
  apply wp_aside with h; [done|calm_walk|asks_walk|]. intros [e|?] d3 k3 _ H3; [by apply wp_stopped|].
  by apply wp_ret.
Qed.

Abbreviation claimed_part :=
  (fork_claimed sourceID forkID transferSetID leaseID cpID claimTTL intentEnabled configured lease).
Lemma src_claimed pl h d l : keeps h d l -> wp (claimed_part pl h) keeping d l.
Proof.
  intros Hk. unfold fork_claimed.
  apply wp_aside with h; [done|calm_walk|asks_walk|]. intros [e|cur] d1 k1 _ H1; [by apply wp_failing|].
  case_match; [by apply wp_failing|].
  apply wp_aside with h; [done|calm_walk|asks_walk|].
  intros [e|[[[id g] c]|]] d2 k2 _ H2; [by apply wp_failing| |by apply wp_failing].
  case_match; [by apply wp_failing|]. case_match; [by apply wp_failing|].
  apply wp_bind, wp_ask. intros now. apply (keeps_ask _ _ _ Now now eq_refl) in H2.
  apply wp_bind, wp_store. intros d3 r d4 Hd3 Ho. split; [done|].
  pose proof (always_outcome _ _ _ _ _ (aside_forking _ _) Ho) as Hd4.
  eapply (keeps_aside _ _ d4 _ [Did d3 d4 (faulty is_fault r)]) in H2; [|by etransitivity|by repeat constructor].
  apply outcome_SetForking in Ho as [(e & -> & ->)|(s & s' & -> & Hs & Ha & Hs' & Hf)]; [by apply wp_failing|].
  apply wp_bind. eapply wp_mono; [|apply (wp_materialize aside is_plain sends_plain sourceID forkID transferSetID
    (request pl) _ Held Back held_ask back_ask)]; [|done|intros h' d5 l5; apply wp_restored|].
  - intros [res h'] d5 l5 [[H5 _] Hb]. cbn in H5, Hb. destruct res as [e|res]; [by apply wp_failing|].
    destruct (Hb eq_refl) as [Hr Hg]. by apply src_finish.
  - split; [exact H2|]. eexists. split; [apply elem_of_app; right; by left|]. by exists d3, d4, false, s, s'.
Qed.

Abbreviation none := (mkHeld false false false None).
Lemma wp_deferred pl h d l :
  keeps h d l ->
  wp (deferred sourceID transferSetID leaseID pl h) (fun _ d' l' => keeps none d' l') d l.
Proof.
  intros Hk. unfold deferred. apply wp_aside with h; [done|calm_walk|asks_walk|].
  intros ? d1 k1 _ H1. eapply wp_seq; [by apply wp_release|]. intros h2 d2 l2 (-> & _ & H2).
  apply wp_aside with none; [exact H2|calm_walk|asks_walk|]. intros ? d3 k3 _ H3. by apply wp_ret.
Qed.

Abbreviation given_up := (fun (_ : result fork_error string) d' l' => keeps none d' l').
Lemma src_at_boundary pl d l :
  keeps none d l ->
  wp (fork_at_boundary sourceID forkID transferSetID leaseID cpID claimTTL intentEnabled configured lease pl)
    given_up d l.
Proof.
  intros (Hc & Hl & Hw). unfold fork_at_boundary. apply wp_bind, wp_ask. intros ?.
  set (h := mkHeld true true false None).
  assert (keeps h d (l ++ [Answered Lock_source a])) as H1.
  { split; [destruct Hc as [?|?]; [left; by apply faulted_app|by right]|].
    split; [rewrite open_locks_app, Hl; done|]. apply careful_snoc; [done|]. by intros (? & ? & ? & ? & ? & ?). }
  eapply wp_seq; [by apply (wp_claim _ h)|]. intros c d1 l1 H2.
  apply (wp_seq is_fault aside (fun _ _ _ => True)) with (P' := keeping).
  - destruct c as [e|[]]; [by apply wp_failing|by apply src_claimed].
  - intros [r h'] d2 l2 H3. eapply wp_seq; [by apply wp_deferred|]. intros ? d3 l3 H4. by apply wp_ret.
Qed.

Lemma src_give_up cause d l :
  keeps none d l ->
  wp (failed_row forkID transferSetID cpID claimTTL configured lease cause) given_up d l.
Proof.
  intros Hk. unfold failed_row. apply wp_aside with none; [done|calm_walk|asks_walk|].
  intros ? d1 k1 _ H1. by apply wp_ret.
Qed.
Ltac aside_step := apply wp_aside with none; [done|calm_walk|asks_walk|].
Lemma src_after_rows pl d l :
  keeps none d l ->
  wp (after_rows sourceID forkID transferSetID leaseID cpID claimTTL intentEnabled configured lease pl)
    given_up d l.
Proof.
  intros Hk. unfold after_rows. aside_step. intros ? d1 k1 _ H1. aside_step. intros now d2 k2 _ H2.
  aside_step. intros [e|?] d3 k3 _ H3; [by apply src_give_up|].
  aside_step. intros [e|room] d4 k4 _ H4; [by apply src_give_up|].
  aside_step. intros [e|?] d5 k5 _ H5; [by apply src_give_up|].
  aside_step. intros now' d6 k6 _ H6.
  aside_step. intros [e|?] d7 k7 _ H7; [by apply src_give_up|].
  aside_step. intros [e|?] d8 k8 _ H8; [by apply src_give_up|]. by apply src_at_boundary.
Qed.

(** ** The whole request *)

Lemma src_gate {A} (p : handler A) (f : A -> handler string) d l :
  keeps none d l -> quietly p -> asks is_plain p ->
  (forall a d' k, keeps none d' (l ++ k) -> wp (f a) given_up d' (l ++ k)) ->
  wp (a ←! p; f a) given_up d l.
Proof.
  intros Hk Hq Hp Hf. apply wp_aside with none; [done..|]. intros [e|a] d' k _ H1; [by apply wp_ret|by apply Hf].
Qed.
Ltac gate x Hk := apply src_gate; [done|calm_walk|asks_walk|]; clear Hk; intros x ?d ?k Hk.
Lemma src_fork n c req d l :
  keeps none d l ->
  wp (ForkSpawn owner sourceID forkID transferSetID leaseID cpID claimTTL maxSpawnsPerOwner intentEnabled
        configured lease n c req) given_up d l.
Proof.
  intros Hk. unfold ForkSpawn. case_match; [by apply wp_ret|].
  gate u0 Hk. unfold forkSpawnClaimed. gate src Hk. gate u1 Hk.
  aside_step. intros now d' k' _ Hk'. clear Hk. rename Hk' into Hk.
  gate u2 Hk. gate live Hk. destruct live as [[[? g] live]|]; [|by apply wp_ret].
  gate u3 Hk. gate u4 Hk. gate u5 Hk. aside_step. intros [e|room] da ka _ Hk1; [by apply wp_ret|].
  gate target Hk1. gate u7 Hk1. gate u8 Hk1. gate needs Hk1. gate name Hk1. gate ms Hk1. gate arts Hk1.
  unfold fork_planned. aside_step. intros now1 db kb _ H2. aside_step. intros [e|?] dc kc _ H3; [by apply wp_ret|].
  by apply src_after_rows.
Qed.
End Gives.
