(* ===== verification/ForkContract.v ===== *)
(** * What the sweep of the failed forks deletes

    Under any histories of the others a row is only ever deleted when the node has confirmed that
    the fork's generation is revoked, its bucket emptied and its delta released, in that order,
    and never the row of a spawn that became active. *)

From S2P Require Import Prelude GoLib Database Sagas SpawnStore SpawnLifecycle SpawnContract TransferSets Transitions TransitionContract.
From S2P Require Import Migration CpEnv Durability SpawnNames ForkCleanup Fork ForkSpawn ForkLaws ForkSettles ForkSource.
Open Scope Z_scope.

Section Reclaim.
Context (cpID : string) (claimTTL : Z) (lease : string -> string) (configured : bool).

(** A cleanup step that a node confirmed for [id]. *)
Definition confirmed (id : string) (e : event) : option FailedForkCleanupOp :=
  match e with
  | Answered (Await_cleanup op) w =>
      match (w : awaited FailedForkCleanupComplete) with
      | Replied msg => if String.eqb (fc_ForkSpawnId msg) id && bool_decide (fc_Op msg = op)
                          && String.eqb (fc_Error msg) "" then Some op else None
      | _ => None
      end
  | _ => None
  end.
Definition confirmations (id : string) (l : trace) : list FailedForkCleanupOp := omap (confirmed id) l.
Definition cleaned (id : string) (ops : list FailedForkCleanupOp) (l : trace) : Prop :=
  ops `sublist_of` confirmations id l.
Lemma cleaned_app id ops ops' l k : cleaned id ops l -> cleaned id ops' k -> cleaned id (ops ++ ops') (l ++ k).
Proof. unfold cleaned, confirmations. intros. rewrite omap_app. by apply sublist_app. Qed.
Lemma cleaned_more id ops l k : cleaned id ops l -> cleaned id ops (l ++ k).
Proof. intros Hl. rewrite <- (app_nil_r ops). apply cleaned_app; [done|apply sublist_nil_l]. Qed.

Definition all_steps : list FailedForkCleanupOp := [REVOKE_GENERATION; EMPTY_BUCKET; RELEASE_DELTA].
(** A transaction deletes nothing but rows that are not active and are cleaned. *)
Definition reclaims (l : trace) (d d' : Tables) : Prop :=
  forall id s s', spawns d !! id = Some s -> spawns d' !! id = Some s' -> SpawnStatus s' <> SpawnStatus s ->
    SpawnStatus s' = Deleted /\ SpawnStatus s <> Active /\ cleaned id all_steps l.

Abbreviation others := (rowwise seq_guards).
#[local] Instance others_preorder : PreOrder others.
Proof. split; apply _. Qed.
Abbreviation wp p P d l := (wp is_fault others reclaims p P d l).

Lemma reclaims_same l d d' : spawns d' = spawns d -> reclaims l d d'.
Proof. intros E id s s' H H'. rewrite E, H in H'. by injection H' as <-. Qed.
Lemma reclaims_insert l d id s s' :
  spawns d !! id = Some s ->
  (SpawnStatus s' <> SpawnStatus s -> SpawnStatus s' = Deleted /\ SpawnStatus s <> Active /\ cleaned id all_steps l) ->
  reclaims l d (d <| spawns ::= <[id := s']> |>).
Proof.
  intros Hs Hc k s0 s1 H0 H1. cbn in H1. destruct (decide (k = id)) as [->|Hk].
  - rewrite lookup_insert_eq in H1. injection H1 as <-. rewrite Hs in H0. by injection H0 as <-.
  - rewrite lookup_insert_ne in H1 by done. rewrite H0 in H1. by injection H1 as <-.
Qed.

(** The row's number is at least [n], and it is not active while it is [n]. *)
Definition idle (id : string) (n : Z) (d : Tables) : Prop :=
  exists s, spawns d !! id = Some s /\ n <= StatusSeq s /\ (StatusSeq s = n -> SpawnStatus s <> Active).
Lemma idle_others id n d d' : others d d' -> idle id n d -> idle id n d'.
Proof.
  intros Ho (s & Hs & Hn & Ha). destruct (Ho _ _ Hs) as (s' & Hs' & Hle & Hsame). exists s'.
  split; [done|]. split; [lia|]. intros Heq. destruct Hsame as (-> & _); [lia|]. apply Ha. lia.
Qed.

(** A step asks nothing but the node. *)
Lemma wp_cleanup node id id' gen bucket op n ops d l :
  cleaned id ops l -> idle id' n d ->
  wp (cleanup_send node id gen bucket op)
    (fun r d' l' => idle id' n d' /\ (is_ok r = true -> cleaned id (ops ++ [op]) l')) d l.
Proof.
  intros Hc Hi. unfold cleanup_send. case_match; [by apply wp_ret|].
  apply wp_bind, wp_ask. intros [|]; [|by apply wp_ret]. apply wp_bind, wp_ask. intros [|]; [|by apply wp_ret].
  apply wp_bind, wp_ask. intros [| |msg]; [by apply wp_ret..|].
  case_match eqn:Hids; [by apply wp_ret|]. case_match eqn:Herr; [by apply wp_ret|].
  apply wp_ret. split; [done|]. intros _. apply cleaned_app; [by do 2 apply cleaned_more|].
  apply orb_false_iff in Hids as [H1 H2]. apply negb_false_iff in H1, H2, Herr.
  unfold cleaned, confirmations. cbn. by rewrite H1, H2, Herr.
Qed.

(** A read of the store. *)
Lemma wp_read {A B} (m : DB A) (f : result StoreErr A -> saga B) P d l :
  (forall d r d', outcome m d r d' -> d' = d) ->
  (forall r d1 k, others d d1 -> outcome m d1 r d1 -> wp (f r) P d1 (l ++ k)) ->
  wp (store m ≫= f) P d l.
Proof.
  intros Hm Hf. apply wp_bind, wp_store. intros d1 r d2 Hd Ho. pose proof (Hm _ _ _ Ho) as ->.
  split; [by apply reclaims_same|]. by eapply Hf.
Qed.
Lemma outcome_Live id d r d' : outcome (LiveContainer id) d r d' -> d' = d.
Proof.
  unfold LiveContainer. intros [(e & -> & Ho)|(rows & d1 & Ho & Hk)]%outcome_bind;
    apply outcome_select in Ho as [(msg & ? & ->)|[? ->]]; try done.
  repeat case_match; first [by apply outcome_ret in Hk as [_ ->]|by apply outcome_throw in Hk as [_ ->]].
Qed.

Lemma outcome_deleted id le seq g ts d r d' :
  outcome (MarkDeletedClaimed true id le seq g ts) d r d' ->
  spawns d' = spawns d \/
  exists s s', spawns d !! id = Some s /\ StatusSeq s = seq /\ SpawnStatus s' = Deleted /\
    spawns d' = <[id := s']> (spawns d).
Proof.
  intros [(a & -> & Ho)|(e & -> & ->)]%outcome_tx; [|by left]. right. unfold markDeletedClaimed in Ho.
  apply outcome_bind in Ho as [(e & ? & _)|([] & d1 & Ho & Hk)]; [done|].
  apply (outcome_exec_id _ _ _ id) in Ho; [|intros k s; unfold claimed, id_is; intros; brefl; tauto].
  destruct Ho as [(e & ? & _)|(s & Hs & Hc & _ & ->)]; [done|].
  apply outcome_bind in Hk as [(e & ? & _)|([] & d2 & Hl & Hk)]; [done|]. apply outcome_ret in Hk as [_ ->].
  unfold endLiveContainer in Hl. apply outcome_bind in Hl as [(e & ? & _)|(n & d3 & Hl & Hk)]; [done|].
  apply outcome_ret in Hk as [_ ->].
  apply outcome_stmt in Hl as [(? & ? & _)|Hl]; [done|]. injection Hl as _ <-.
  exists s. eexists. split; [done|]. split; [unfold claimed in Hc; brefl; tauto|]. split; [|done]. done.
Qed.

(** The unwinding of one fork. *)
Lemma wp_unwind_claimed cfg live n d l :
  idle (ForkID cfg) n d ->
  wp (unwind_claimed lease cfg live n) (fun _ _ _ => True) d l.
Proof.
  intros Hi. unfold unwind_claimed, RevokeForkGeneration, EmptyForkBucket, ReleaseForkDelta.
  assert (cleaned (ForkID cfg) [] l) as Hc by apply sublist_nil_l.
  eapply wp_seq; [by eapply (wp_cleanup _ _ (ForkID cfg) _ _ _ n [])|].
  intros [e|[]] d1 l1 [H1 C1]; [by apply wp_ret|]. specialize (C1 eq_refl).
  eapply wp_seq; [by eapply (wp_cleanup _ _ (ForkID cfg) _ _ _ n)|].
  intros [e|[]] d2 l2 [H2 C2]; [by apply wp_ret|]. specialize (C2 eq_refl).
  eapply wp_seq; [by eapply (wp_cleanup _ _ (ForkID cfg) _ _ _ n)|].
  intros [e|[]] d3 l3 [H3 C3]; [by apply wp_ret|]. specialize (C3 eq_refl). cbn in C3.
  unfold stored. apply wp_bind, wp_bind, wp_store. intros d4 r d5 Hd4 Ho. split; [|by destruct r].
  apply (idle_others _ _ _ _ Hd4) in H3 as (s & Hs & _ & Ha).
  apply outcome_deleted in Ho as [E|(s0 & s' & Hs0 & Hseq & Hdel & E)]; [by apply reclaims_same|].
  rewrite Hs in Hs0. injection Hs0 as <-. intros k a b Hka Hkb Hne. rewrite E in Hkb.
  destruct (decide (k = ForkID cfg)) as [->|Hk].
  - rewrite lookup_insert_eq in Hkb. injection Hkb as <-. rewrite Hs in Hka. injection Hka as <-. auto.
  - rewrite lookup_insert_ne in Hkb by done. by simplify_eq.
Qed.

Lemma wp_unwind cfg d l :
  wp (unwindFailedFork cpID claimTTL lease configured cfg) (fun _ _ _ => True) d l.
Proof.
  unfold unwindFailedFork. case_match; [by apply wp_ret|].
  apply wp_read; [intros d1 r d2 Ho; by apply outcome_Get in Ho as [-> _]|].
  intros [e|sp] d1 k1 _ Hget; [by destruct e|]. apply outcome_Get in Hget as [_ Hget].
  destruct (Hget _ eq_refl) as [Hsp _].
  case_match eqn:Hact; [by apply wp_ret|]. apply bool_decide_eq_false in Hact.
  assert (idle (ForkID cfg) (StatusSeq sp) d1) as Hi by (exists sp; auto with lia).
  unfold stored. apply wp_bind. apply wp_read; [apply outcome_Live|]. intros [e|live] d2 k2 Hd2 _; [by apply wp_ret|].
  apply wp_ret. cbn beta iota. apply wp_bind, wp_store. intros d3 r d4 Hd3 Ho.
  apply (idle_others _ _ _ _ Hd2), (idle_others _ _ _ _ Hd3) in Hi as (s & Hs & Hle & Ha).
  apply outcome_Acquire in Ho as [(e & -> & ->)|(s0 & Hs0 & Hseq & -> & ->)].
  { split; [by apply reclaims_same|]. by destruct e. }
  rewrite Hs in Hs0. injection Hs0 as <-. split; [by apply (reclaims_insert _ _ _ s)|].
  apply wp_unwind_claimed. eexists. split; [apply lookup_insert_eq|]. cbn. split; [lia|]. intros _. by apply Ha.
Qed.

Lemma wp_sweep_rows rows d l :
  wp (sweep_rows cpID claimTTL lease configured rows) (fun _ _ _ => True) d l.
Proof.
  revert d l. induction rows as [|[T ts] rows IH]; intros d l; cbn [sweep_rows]; [by apply wp_ret|].
  apply wp_bind, wp_ask. intros now. eapply wp_seq; [apply wp_unwind|].
  intros [e|[]] d1 l1 _; [by apply wp_ret|apply IH].
Qed.
Lemma outcome_reclaimable before d r d' : outcome (TransferSets.ListReclaimableForks before) d r d' -> d' = d.
Proof.
  unfold TransferSets.ListReclaimableForks, TransferSets.listForks.
  intros [(e & -> & Ho)|(rows & d1 & Ho & Hk)]%outcome_bind;
    apply outcome_select in Ho as [(msg & ? & ->)|[? ->]]; try done. by apply outcome_ret in Hk as [_ ->].
Qed.
Lemma wp_sweep d l : wp (sweepFailedForks cpID claimTTL lease configured) (fun _ _ _ => True) d l.
Proof.
  unfold sweepFailedForks. apply wp_bind, wp_ask. intros now.
  unfold stored. apply wp_bind. apply wp_read; [apply outcome_reclaimable|].
  intros [e|rows] d1 k1 _ _; [by apply wp_ret|]. apply wp_ret. cbn beta iota.
  case_match; [by apply wp_ret|apply wp_sweep_rows].
Qed.
End Reclaim.

(** * What forking promises

    The theorems about the fork handler and the sweep, each for every run among others allowed to
    interfere, with any statement of the store failing, and the death of the process at any point;
    then a fork played on a concrete ledger. *)

Section Promises.
Context (owner sourceID forkID transferSetID leaseID cpID : string).
Context (claimTTL maxSpawnsPerOwner : Z) (intentEnabled configured : bool) (lease : string -> string).
Abbreviation request n c name :=
  (ForkSpawn owner sourceID forkID transferSetID leaseID cpID claimTTL maxSpawnsPerOwner intentEnabled
     configured lease n c name).
Abbreviation runs R := (Sagas.runs is_fault R).
Abbreviation about_fork := (quiet forkID unforked (fun T => T = transferSetID)).
Abbreviation about_source := (quiet sourceID (unclaimed leaseID) (fun _ => False)).
#[local] Instance about_fork_preorder : PreOrder about_fork.
Proof. apply quiet_preorder, _. Qed.
#[local] Instance about_source_preorder : PreOrder about_source.
Proof. apply quiet_preorder, _. Qed.

(** The sweep of the failed forks lists the set. *)
Definition listed (d : Tables) : Prop :=
  forall before, exists x l, run (TransferSets.ListReclaimableForks before) d = (Ok l, d) /\ (transferSetID, x) ∈ l.

(** C20: a fork is all or nothing.  However the request interleaves with the others' transactions
    (none of which activates the copy's row or touches its set; the two ids are new), and whichever statements fail, a request that answers with a node has run one transaction that
    found neither the copy's row nor its set active and left both active for that node, the
    episode live on it, and only the others have touched them since; the pins the set records are
    one chain of generation 1, and the node was asked to provision from them.  A request that
    answers with an error has created nothing, or has left a failed set and a row that is not
    active, which the sweep will find unless the driver failed a statement or the row is deleted
    already. *)
Theorem fork_is_all_or_nothing n c name d0 r d l :
  forkID <> sourceID -> transfer_sets d0 !! transferSetID = None -> spawns d0 !! forkID = None ->
  runs about_fork (request n c name, d0, []) (Ret r, d, l) ->
  match r with
  | Ok node => exists pins db da, Did db da false ∈ l /\ inactive forkID transferSetID db /\
      about_fork da d /\ activated forkID transferSetID node da /\
      recorded transferSetID pins da /\ provisioned forkID pins node l /\ good_pins targetGeneration pins
  | Err _ =>
      (transfer_sets d !! transferSetID = None /\ spawns d !! forkID = None) \/
      exists s, spawns d !! forkID = Some s /\ SpawnStatus s <> Active /\
        (SpawnStatus s = Deleted \/ faulted l \/ listed d)
  end.
Proof.
  intros Hne Hset Hrow Hr.
  apply (runs_wp is_fault about_fork (together forkID transferSetID) _
    (settled forkID transferSetID)) in Hr as (d1 & Hd & [He|[Hno Hn]]).
  - apply (ended_others _ _ _ _ _ l l Hd) in He; [|done]. destruct r as [e|node]; [|exact He]. right.
    destruct He as (x & Hx & Hf & Hid & _ & Hst & s & Hs & Ha). exists s. split; [done|]. split; [done|].
    destruct Hst as [Hst|?]; [|by right; left]. destruct (decide (SpawnStatus s = Deleted)); [by left|]. right. right.
    intros before. destruct (TransferSets.run_ListReclaimableForks before d) as (rows & Hrun & Hin).
    exists x, rows. split; [done|]. apply Hin. split; [done|]. split; [done|]. split.
    + unfold TransferSets.fork_unsettled, not_deleted. rewrite Hid, Hs. by rewrite bool_decide_true, bool_decide_false.
    + unfold TransferSets.reclaimable. by rewrite Hst.
  - destruct r; [|done]. left. by eapply nothing_others in Hn.
  - by apply wp_request.
Qed.

(** The transfer set never promises a copy that is not there.  In every state of every run, so
    wherever the control plane dies: when the set says active, one transaction had made the copy's
    row active with a live episode on the node the set names, and all that touched the row and the
    set since then are the others. *)
Theorem active_set_has_its_copy n c name d0 p d l x :
  forkID <> sourceID -> transfer_sets d0 !! transferSetID = None -> spawns d0 !! forkID = None ->
  runs about_fork (request n c name, d0, []) (p, d, l) ->
  transfer_sets d !! transferSetID = Some x -> ts_Status x = TransferSetActive ->
  exists da, about_fork da d /\ activated forkID transferSetID (TargetNodeID x) da.
Proof.
  intros Hne Hset Hrow Hr Hx Hst.
  assert (set_active transferSetID d -> exists node da, about_fork da d /\ activated forkID transferSetID node da) as Hinv.
  { eapply (runs_invariant is_fault about_fork (together forkID transferSetID) _ _
      (fun d => set_active transferSetID d ->
         exists node da, about_fork da d /\ activated forkID transferSetID node da) d0 (p, d, l)).
    - intros d1 d2 Ho Hi (y & Hy & Ha).
      destruct Hi as (node & da & Hda & Hact); [exists y; by rewrite <- (q_set _ _ _ _ _ Ho)|].
      exists node, da. split; [by etransitivity|done].
    - intros l1 d1 d2 Ht Hi Ha. destruct (Ht Ha) as [[Hb Ho]|[node Hact]]; [|by exists node, d2].
      destruct (Hi Hb) as (node & da & Hda & Hact). exists node, da. split; [by etransitivity|done].
    - by eapply wp_request.
    - intros (y & Hy & _). by rewrite Hset in Hy.
    - exact Hr. }
  destruct Hinv as (node & da & Hda & Hact); [by exists x|]. exists da. split; [done|].
  destruct (ac_set _ _ _ _ Hact) as (y & Hy & _ & <-).
  pose proof (q_set _ _ _ _ _ Hda transferSetID eq_refl) as E. rewrite Hx, Hy in E. by injection E as ->.
Qed.

(** C21: the handler gives back what it took from the source.  Among others who never take the
    handler's lease, a request that returns leaves the source's row without the handler's claim,
    unless the driver failed a statement, and has unlocked the source as often as it locked it; and
    wherever it asked the scheduler to start the copy, it had marked the source forking, then seen
    it active with no capture pending, and the source's lock was free. *)
Theorem fork_gives_the_source_back n c name d0 r d l :
  forkID <> sourceID -> unheld sourceID leaseID d0 ->
  runs about_source (request n c name, d0, []) (Ret r, d, l) ->
  (faulted l \/ unheld sourceID leaseID d) /\ open_locks l = 0 /\ careful sourceID l.
Proof.
  intros Hne Hu Hr.
  assert (keeps sourceID leaseID (mkHeld false false false None) d0 []) as Hk.
  { split; [by right; right|]. split; [done|apply each_nil]. }
  apply (runs_wp is_fault about_source (fun _ _ _ => True) _
    (fun _ d' l' => keeps sourceID leaseID (mkHeld false false false None) d' l')) in Hr
    as (d1 & Hd & (Hc & Hl & Hw)); [|by apply src_fork].
  split; [|done]. destruct Hc as [?|[?|?]]; [by left|done|right]. by eapply unheld_aside.
Qed.
End Promises.

(** C22: the sweep deletes only what is cleaned.  In every run of the sweep among any histories of the
    others, a transaction of the sweep changes the status of no row but to Deleted, of no row that
    is active then, and only after the node has confirmed, in this order, that the fork's generation
    is revoked, its bucket empty and its delta released. *)
Theorem sweep_deletes_what_is_cleaned cpID claimTTL lease configured d0 p d l :
  Sagas.runs is_fault (rowwise seq_guards) (sweepFailedForks cpID claimTTL lease configured, d0, []) (p, d, l) ->
  forall l1 d1 d2 f l2 id s s',
    l = l1 ++ Did d1 d2 f :: l2 -> spawns d1 !! id = Some s -> spawns d2 !! id = Some s' ->
    SpawnStatus s' <> SpawnStatus s ->
    SpawnStatus s' = Deleted /\ SpawnStatus s <> Active /\
      [REVOKE_GENERATION; EMPTY_BUCKET; RELEASE_DELTA] `sublist_of` confirmations id l1.
Proof.
  intros Hr l1 d1 d2 f l2 id s s' Heq Hs Hs' Hne.
  assert (PreOrder (rowwise seq_guards)) by (split; apply _). assert (kept_by reclaims l) as Hk.
  { apply (runs_kept is_fault (rowwise seq_guards) reclaims (sweepFailedForks cpID claimTTL lease configured)
      (fun _ _ _ => True) d0 (p, d, l)); [apply wp_sweep|done]. }
  exact (Hk l1 _ l2 Heq d1 d2 f eq_refl id s s' Hs Hs' Hne).
Qed.

(** ** A fork on a concrete ledger *)

(** A good environment: every check passes, the nodes answer, the source is restored first. *)
Definition demo_answer (q : question) (_ : trace) : answer q :=
  match q with
  | Now => 1000
  | Target_eligible _ => (true, true)
  | Footprint => Some 10
  | Room_on _ _ | Check _ | Connected _ | Send _ _ | Enter_driver _ | Send_decisions _ _ => true
  | Route_bound _ | Attached _ => false
  | Context_cancelled => false
  | PickNode _ _ => None
  | Manifest_durability _ _ => None
  | Journal_key _ _ => Key_exists
  | Await_cleanup op => Replied {| fc_ForkSpawnId := "fork"; fc_Op := op; fc_Error := "" |}
  | Await_unpause _ _ => Timed_out
  | Await_boundary => Replied {| tb_SourceSpawnId := "sp"; tb_TransferSetId := "ts"; tb_Error := "" |}
  | Arrivals_same =>
      ([Same_restored {| sr_SourceSpawnId := "sp"; sr_SourceGeneration := 1; sr_TransferSetId := "ts"; sr_Error := "" |};
        Same_complete {| co_SourceSpawnId := "sp"; co_ForkSpawnId := "fork"; co_NodeId := "n1"; co_Error := "";
                         co_Mounts := [("main", "m1")];
                         co_RootfsArtifacts := [mkPin "a1" "" 1 1 "" "tar" "d1" 10] |}], true)
  | Arrivals_cross => ([], true)
  | Provision _ _ _ _ => Ok "n1"
  | _ => tt
  end.
Definition demo_ledger1 : Tables := demo_ledger <| app_versions := {[("a", "1")]} |>
  <| app_version_mounts := {[("a", "1", "main")]} |>.
Definition demo_request : handler string :=
  ForkSpawn "u1" "sp" "fork" "ts" "L" "cp" 30 5 true true (fun _ => "U") "" "" "".
Definition demo_forked := play is_fault demo_answer (fun _ => []) demo_request demo_ledger1 [].
Example demo_fork_ok : demo_forked.1.1 = Ok "n1".
Proof. vm_compute. reflexivity. Qed.

Lemma demo_fork_runs R : Sagas.runs is_fault R (demo_request, demo_ledger1, []) (Ret (Ok "n1"), demo_forked.1.2, demo_forked.2).
Proof.
  pose proof (play_runs is_fault demo_answer (fun _ => []) R demo_request demo_ledger1 []) as Hr.
  fold demo_forked in Hr. rewrite <- demo_fork_ok. by destruct demo_forked as [[r d] l].
Qed.

Lemma fork_is_all_or_nothing_witness :
  exists pins db da, Did db da false ∈ demo_forked.2 /\ inactive "fork" "ts" db /\
    quiet "fork" unforked (fun T => T = "ts") da demo_forked.1.2 /\ activated "fork" "ts" "n1" da /\ recorded "ts" pins da /\
    provisioned "fork" pins "n1" demo_forked.2 /\ good_pins targetGeneration pins.
Proof.
  apply (fork_is_all_or_nothing "u1" "sp" "fork" "ts" "L" "cp" 30 5 true true (fun _ => "U") "" "" "" demo_ledger1
           (Ok "n1") demo_forked.1.2 demo_forked.2); [done|done|done|].
  apply demo_fork_runs.
Defined.

Lemma active_set_has_its_copy_witness :
  exists da, quiet "fork" unforked (fun T => T = "ts") da demo_forked.1.2 /\ activated "fork" "ts" "n1" da.
Proof.
  destruct (transfer_sets demo_forked.1.2 !! "ts") as [x|] eqn:Hx; [|by vm_compute in Hx].
  assert (TargetNodeID x = "n1" /\ ts_Status x = TransferSetActive) as [<- Hst]
    by (vm_compute in Hx; injection Hx as <-; done).
  apply (active_set_has_its_copy "u1" "sp" "fork" "ts" "L" "cp" 30 5 true true (fun _ => "U") "" "" "" demo_ledger1
           (Ret (Ok "n1")) demo_forked.1.2 demo_forked.2 x); [done|done|done| |done|done].
  apply demo_fork_runs.
Defined.

Lemma fork_gives_the_source_back_witness :
  (faulted demo_forked.2 \/ unheld "sp" "L" demo_forked.1.2) /\ open_locks demo_forked.2 = 0 /\
  careful "sp" demo_forked.2.
Proof.
  apply (fork_gives_the_source_back "u1" "sp" "fork" "ts" "L" "cp" 30 5 true true (fun _ => "U") "" "" "" demo_ledger1
           (Ok "n1")); [done| |].
  - intros s Hs. vm_compute in Hs. by injection Hs as <-.
  - apply demo_fork_runs.
Defined.

(** The copy cannot be provisioned; the sweep reclaims the fork. *)
Definition demo_refused (q : question) (l : trace) : answer q :=
  match q with Provision _ _ _ _ => Err "no room" | q => demo_answer q l end.
Definition demo_abandoned := play is_fault demo_refused (fun _ => [])
  (ForkSpawn "u1" "sp" "fork" "ts" "L" "cp" 30 5 true false (fun _ => "U") "" "" "") demo_ledger1 [].
Definition demo_swept := play is_fault demo_answer (fun _ => [])
  (sweepFailedForks "cp" 30 (fun _ => "U") true) demo_abandoned.1.2 [].
Example demo_sweep_ok :
  SpawnStatus <$> spawns demo_abandoned.1.2 !! "fork" = Some Starting /\
  demo_swept.1.1 = Ok tt /\ SpawnStatus <$> spawns demo_swept.1.2 !! "fork" = Some Deleted.
Proof. vm_compute. done. Qed.

(** The last transaction of the sweep, and what came before. *)
Definition demo_last : trace * Tables * Tables :=
  match reverse demo_swept.2 with Did d1 d2 _ :: l => (reverse l, d1, d2) | _ => ([], demo_ledger, demo_ledger) end.
Lemma demo_last_is : demo_swept.2 = demo_last.1.1 ++ [Did demo_last.1.2 demo_last.2 false].
Proof. vm_compute. reflexivity. Qed.
Lemma demo_last_rows :
  SpawnStatus <$> spawns demo_last.1.2 !! "fork" = Some Starting /\
  SpawnStatus <$> spawns demo_last.2 !! "fork" = Some Deleted.
Proof. vm_compute. done. Qed.
Lemma demo_sweep_runs R :
  Sagas.runs is_fault R (sweepFailedForks "cp" 30 (fun _ => "U") true, demo_abandoned.1.2, [])
    (Ret demo_swept.1.1, demo_swept.1.2, demo_swept.2).
Proof.
  pose proof (play_runs is_fault demo_answer (fun _ => []) R
    (sweepFailedForks "cp" 30 (fun _ => "U") true) demo_abandoned.1.2 []) as Hr.
  fold demo_swept in Hr. by destruct demo_swept as [[r d] l].
Qed.
Lemma sweep_deletes_what_is_cleaned_witness :
  exists s, spawns demo_last.1.2 !! "fork" = Some s /\ SpawnStatus s <> Active /\
    [REVOKE_GENERATION; EMPTY_BUCKET; RELEASE_DELTA] `sublist_of` confirmations "fork" demo_last.1.1.
Proof.
  pose proof demo_last_rows as [H1 H2].
  apply fmap_Some_1 in H1 as (s & Hs & Hst). apply fmap_Some_1 in H2 as (s' & Hs' & Hst'). exists s. split; [done|].
  apply (sweep_deletes_what_is_cleaned "cp" 30 (fun _ => "U") true demo_abandoned.1.2 _ _ demo_swept.2
    (demo_sweep_runs _) demo_last.1.1 demo_last.1.2 demo_last.2 false [] "fork" s s');
    [exact demo_last_is|done|done|by rewrite <- Hst, <- Hst'].
Defined.
