(* ===== verification/DurabilityLaws.v ===== *)
(** * The durability guard of a move between nodes

    What the guard lets through: every mount of the spawn has an owner-sealed journal key, or its
    manifest declares a durability that does not tie it to its node. *)

From S2P Require Import Prelude Database Sagas SpawnStore Transitions TransitionContract CpEnv Durability ForkLaws ForkContract.
Open Scope Z_scope.

Section Guard.
Context (id : string).

(** The others add no mount to the spawn and remove none. *)
Definition same_mounts (d d' : Tables) : Prop :=
  forall name, is_Some (spawn_mounts d !! (id, name)) <-> is_Some (spawn_mounts d' !! (id, name)).
#[export] Instance same_mounts_preorder : PreOrder same_mounts.
Proof. split; [by intros d name|]. intros d1 d2 d3 H1 H2 name. by rewrite (H1 name). Qed.
Abbreviation wp p P d l := (wp is_fault same_mounts (fun _ _ _ => True) p P d l).

(** The mount's journal key exists. *)
Definition sealed (name : string) (l : trace) : Prop :=
  Answered (D := Tables) (ans := answer) (Journal_key id name) Key_exists ∈ l.
(** Its manifest ties it to no node. *)
Definition untied (name : string) (l : trace) : Prop :=
  exists app version md, Answered (D := Tables) (ans := answer) (Manifest_durability app version) md ∈ l /\
    declared (default ∅ md !! name) <> mountClassNodeLocal.
Definition portable (name : string) (l : trace) : Prop := sealed name l \/ untied name l.
Lemma sealed_app name l k : sealed name l -> sealed name (l ++ k).
Proof. intros H. apply elem_of_app. by left. Qed.
Lemma portable_app name l k : portable name l -> portable name (l ++ k).
Proof.
  intros [H|(a & v & md & H & Hd)]; [left; by apply sealed_app|right].
  exists a, v, md. split; [apply elem_of_app; by left|done].
Qed.

(** What [classify] has found out about a class. *)
Definition justified (md : gmap string string) (l : trace) (classes : gmap string mountClass) : Prop :=
  forall name c, classes !! name = Some c -> sealed name l \/ c = declared (md !! name).
Lemma justified_insert md l k classes name c :
  justified md l classes -> (sealed name (l ++ k) \/ c = declared (md !! name)) ->
  justified md (l ++ k) (<[name := c]> classes).
Proof.
  intros Hj Hc n c'. destruct (decide (n = name)) as [->|Hn].
  - rewrite lookup_insert_eq. by intros [= <-].
  - rewrite lookup_insert_ne by done. intros Hl. destruct (Hj _ _ Hl); [left; by apply sealed_app|by right].
Qed.
Lemma wp_classify md rows classes d l :
  justified md l classes ->
  wp (classify id md rows classes)
    (fun r d' l' => d' = d /\ (exists k, l' = l ++ k) /\ forall classes', r = Ok classes' ->
       justified md l' classes' /\
       forall name, name ∈ rows.*1.*2 \/ is_Some (classes !! name) -> is_Some (classes' !! name)) d l.
Proof.
  revert classes l. induction rows as [|[[a name] m] rows IH]; intros classes l Hj; cbn [classify].
  - apply wp_ret. split; [done|]. split; [exists []; by rewrite app_nil_r|]. intros ? [= <-]. split; [done|].
    intros name [Hin|?]; [by apply elem_of_nil in Hin|done].
  - apply wp_bind, wp_ask.
    assert (forall g c, (sealed name (l ++ [Answered (Journal_key id name) g]) \/ c = declared (md !! name)) ->
      wp (classify id md rows (<[name := c]> classes))
        (fun r d' l' => d' = d /\ (exists k, l' = l ++ k) /\ forall classes', r = Ok classes' ->
           justified md l' classes' /\
           forall n, n ∈ (((a, name), m) :: rows).*1.*2 \/ is_Some (classes !! n) -> is_Some (classes' !! n))
        d (l ++ [Answered (Journal_key id name) g])) as Hgo.
    { intros g c Hc. eapply wp_mono; [|apply IH; by apply justified_insert].
      intros r d' l' (-> & (k & ->) & Hr). split; [done|]. split; [rewrite <- (assoc_L (++)); by eexists|].
      intros classes' Heq. destruct (Hr _ Heq) as [Hj' Hall]. split; [done|]. intros n Hn. apply Hall.
      cbn in Hn. rewrite elem_of_cons in Hn. destruct (decide (n = name)) as [->|Hne].
      - right. rewrite lookup_insert_eq. by eexists.
      - rewrite lookup_insert_ne by done. tauto. }
    intros [| |]; [apply Hgo; left; apply elem_of_app; right; by left|apply Hgo; by right|].
    apply wp_ret. split; [done|]. split; [by eexists|done].
Qed.
Lemma wp_guard classes up rows d l :
  wp (guard_mounts id classes up rows)
    (fun r d' l' => d' = d /\ (exists k, l' = l ++ k) /\ (is_ok r = true -> forall name, name ∈ rows.*1.*2 ->
       default mountClassEphemeral (classes !! name) <> mountClassNodeLocal \/ sealed name l')) d l.
Proof.
  revert l. induction rows as [|[[a name] m] rows IH]; intros l; cbn [guard_mounts].
  - apply wp_ret. split; [done|]. split; [exists []; by rewrite app_nil_r|]. intros _ n Hn. by apply elem_of_nil in Hn.
  - case_bool_decide as Hc; cbn [negb].
    + destruct up; cbn [negb]; [|apply wp_ret; split; [done|]; split; [exists []; by rewrite app_nil_r|done]].
      apply wp_bind, wp_ask. intros [| |]; [|apply wp_ret; split; [done|]; split; [by eexists|done]..].
      eapply wp_mono; [|apply IH]. intros r d' l' (-> & (k & ->) & Hr). split; [done|].
      split; [rewrite <- (assoc_L (++)); by eexists|]. intros Hok n Hn. cbn in Hn. apply elem_of_cons in Hn as [->|Hn]; [|auto].
      right. apply sealed_app, elem_of_app. right. by left.
    + eapply wp_mono; [|apply IH]. intros r d' l' (-> & Hk & Hr). split; [done|]. split; [done|].
      intros Hok n Hn. cbn in Hn. apply elem_of_cons in Hn as [->|Hn]; [by left|auto].
Qed.

(** [GetMounts] reads the spawn's mounts. *)
Lemma outcome_GetMounts d r d' :
  outcome (GetMounts id) d r d' ->
  d' = d /\ forall rows, r = Ok rows -> forall name, name ∈ rows.*1.*2 <-> is_Some (spawn_mounts d !! (id, name)).
Proof.
  unfold GetMounts. intros [(e & -> & Ho)|(rows & d1 & Ho & Hk)]%outcome_bind;
    apply outcome_select in Ho as [(msg & ? & ->)|[Hr ->]]; try done.
  apply outcome_ret in Hk as [-> ->]. split; [done|]. intros ? [= <-] name. injection Hr as ->.
  rewrite (merge_sort_Permutation by_name), list_elem_of_fmap. setoid_rewrite list_elem_of_fmap. split.
  - intros (k & -> & [k' m] & -> & Hin). apply elem_of_select_where in Hin as [Hm Hk]. cbn in *. brefl. subst.
    destruct k' as [i n]. cbn in *. by exists m.
  - intros [m Hm]. exists (id, name). split; [done|]. exists ((id, name), m). split; [done|].
    apply elem_of_select_where. split; [done|]. cbn. by rewrite String.eqb_refl.
Qed.
Lemma wp_mounts {B} (f : result StoreErr (list ((string * string) * Mount)) -> saga B) P d l :
  (forall r d' k, same_mounts d d' ->
     (forall rows, r = Ok rows -> forall name, name ∈ rows.*1.*2 <-> is_Some (spawn_mounts d !! (id, name))) ->
     wp (f r) P d' (l ++ k)) ->
  wp (store (GetMounts id) ≫= f) P d l.
Proof.
  intros Hf. apply wp_bind, wp_store. intros d1 r d2 Hd Ho. apply outcome_GetMounts in Ho as [-> Hr].
  split; [done|]. apply Hf; [done|]. intros rows Hrows name. by rewrite (Hr _ Hrows name), (Hd name).
Qed.

Lemma wp_classes d l :
  wp (classifyMounts id)
    (fun r d' l' => same_mounts d d' /\ forall classes, r = Ok classes ->
       forall name, is_Some (spawn_mounts d !! (id, name)) ->
         exists c, classes !! name = Some c /\ (c <> mountClassNodeLocal -> portable name l')) d l.
Proof.
  unfold classifyMounts, stored. apply wp_bind. apply wp_mounts. intros r d1 k1 Hd1 Hrows.
  destruct r as [e|rows]; [by apply wp_ret, wp_ret|]. apply wp_ret. cbn beta iota. specialize (Hrows _ eq_refl).
  apply wp_bind, wp_bind, wp_store. intros d2 r d3 Hd2 Ho. split; [done|]. apply outcome_Get in Ho as [-> _].
  assert (same_mounts d d2) as Hd by (by etransitivity).
  destruct r as [e|sp]; [by apply wp_ret, wp_ret|]. apply wp_ret. cbn beta iota.
  apply wp_bind, wp_ask. intros md. eapply wp_mono; [|apply wp_classify; by intros n c].
  intros r d' l' (-> & (k & Hl') & Hr). split; [done|]. intros classes Heq name Hname.
  destruct (Hr _ Heq) as [Hj Hall]. destruct (Hall name) as [c Hc]; [left; by apply Hrows|].
  exists c. split; [done|]. intros Hnl. destruct (Hj _ _ Hc) as [Hs| ->]; [by left|right].
  exists (AppID sp), (AppVersion sp), md. split; [|done].
  rewrite Hl'. apply elem_of_app. left. apply elem_of_app. right. by left.
Qed.

(** No data is left behind.  When the guard lets a spawn move from its live node to another, every
    mount the spawn has is portable: its journal key was found sealed to the owner, or the manifest of
    the spawn's version was read and does not tie the mount to a node. *)
Theorem guard_leaves_no_mount_behind live target up d0 d l :
  runs is_fault same_mounts (guardCrossNodeDurability id live target up, d0, []) (Ret (Ok tt), d, l) ->
  (target <> "" /\ target = live) \/
  forall name, is_Some (spawn_mounts d !! (id, name)) -> portable name l.
Proof.
  intros Hr. destruct (negb (String.eqb target "") && String.eqb target live) eqn:Hsame; [left; by brefl|right].
  apply (runs_wp is_fault same_mounts (fun _ _ _ => True) _ (fun r d' l' => same_mounts d0 d' /\ (is_ok r = true ->
    forall name, is_Some (spawn_mounts d0 !! (id, name)) -> portable name l'))) in Hr as (d1 & Hd & Hd1 & Hall).
  { intros name Hn. apply Hall; [done|]. by rewrite (Hd1 name), (Hd name). }
  unfold guardCrossNodeDurability. rewrite Hsame. eapply wp_seq; [apply wp_classes|].
  intros r d2 l2 [Hd2 Hc]. destruct r as [e|classes]; [by apply wp_ret|]. specialize (Hc _ eq_refl).
  unfold stored. apply wp_bind, wp_mounts. intros r d3 k3 Hd3 Hrows.
  destruct r as [e|rows]; apply wp_ret; cbn beta iota; [apply wp_ret; split; [by etransitivity|done]|].
  specialize (Hrows _ eq_refl). eapply wp_mono; [|apply wp_guard].
  intros r d' l' (-> & (k & ->) & Hg). split; [by etransitivity|]. intros Hok name Hname.
  destruct (Hc name Hname) as (c & Hcl & Hport). destruct (Hg Hok name) as [Hnl|Hs].
  - apply Hrows. by rewrite <- (Hd2 name).
  - rewrite Hcl in Hnl. by do 2 apply portable_app; apply Hport.
  - by left.
Qed.
End Guard.

(** The demo spawn, whose one mount has a sealed key, may move from n1 to n2. *)
Definition demo_guarded := play is_fault demo_answer (fun _ => [])
  (guardCrossNodeDurability "sp" "n1" "n2" false) demo_ledger [].
Lemma demo_guard_runs R :
  runs is_fault R (guardCrossNodeDurability "sp" "n1" "n2" false, demo_ledger, [])
    (Ret (Ok tt), demo_guarded.1.2, demo_guarded.2).
Proof.
  pose proof (play_runs is_fault demo_answer (fun _ => []) R
    (guardCrossNodeDurability "sp" "n1" "n2" false) demo_ledger []) as Hr.
  fold demo_guarded in Hr. assert (demo_guarded.1.1 = Ok tt) as <- by (vm_compute; reflexivity).
  by destruct demo_guarded as [[r d] l].
Qed.
Lemma guard_leaves_no_mount_behind_witness : portable "sp" "main" demo_guarded.2.
Proof.
  destruct (guard_leaves_no_mount_behind "sp" "n1" "n2" false demo_ledger demo_guarded.1.2 demo_guarded.2)
    as [[_ E]|Hall]; [apply demo_guard_runs|discriminate E|apply Hall].
  vm_compute. by eexists.
Defined.
