(* ===== verification/Inventory.v ===== *)
(** * What nodes report running (src/internal/cp/server.go: reconcileInventory, adoptOrStop;
    evaluators.go; readopt.go; src/internal/node/readopt.go)

    A node reports the pods it runs when it registers and on each heartbeat; the control plane
    adopts those that are live episodes, stops the others, and marks unreachable what the node
    should run and does not report.  A node that restarted first asks what to do with the pods it
    finds: adopt, reap, or leave them running. *)

From S2P Require Import Prelude GoLib Database Sagas SpawnStore SpawnLifecycle Transitions CpEnv Durability ForkCleanup.
From S2P Require Import ForkSpawn ForkLaws.
Open Scope Z_scope.

Record RunningSpawn := mkRunning {
  rs_SpawnId : string; rs_Generation : Z; rs_DeltaSizeBytes : Z; rs_LastActivityUnixMs : Z }.

Section Inventory.
(** The evaluator's policy, and the node whose stream this is. *)
Context (evaluatorEnabled : bool) (quotaSuspendMB idleDetachedTimeout idleAttachedTimeout : Z).
Context (nodeID : string).

(** ** Suspending idle and over-quota spawns *)

Definition over_quota (rs : RunningSpawn) : bool :=
  (0 <? quotaSuspendMB) && (0 <? rs_DeltaSizeBytes rs)
    && (quotaSuspendMB <=? Z.shiftr (rs_DeltaSizeBytes rs) 20).
Definition is_idle (spawnID : string) (rs : RunningSpawn) : saga bool :=
  if negb (0 <? rs_LastActivityUnixMs rs) then mret false
  else
    now ← ask Now;
    attached ← ask (Attached spawnID);
    let elapsed := Sub now (rs_LastActivityUnixMs rs * 1000000) in
    mret ((if attached : bool then idleAttachedTimeout else idleDetachedTimeout) <=? elapsed).

Definition evaluateSpawnMetrics (spawnID : string) (rs : RunningSpawn) : saga unit :=
  r ← store (Get spawnID);
  match r with
  | Err _ => mret tt
  | Ok sp =>
      if negb (bool_decide (SpawnStatus sp = Active)) then mret tt
      else
        now ← ask Now;
        if claim_live sp now then mret tt
        else
          trigger ← (if over_quota rs then mret true else is_idle spawnID rs);
          if negb trigger then mret tt
          else
            free ← ask (Enter_driver spawnID);
            if (free : bool) then ask (Drive_suspend spawnID (OwnerID sp)) else mret tt
  end.

(** ** One reported spawn *)

Definition stop_orphan (rs : RunningSpawn) : saga unit :=
  _ ← ask (Send nodeID (StopSpawn (rs_SpawnId rs) (rs_Generation rs))); mret tt.

(** The live episode is the reported one and on this node: the route, and the way back from unreachable. *)
Definition bind_adopted (rs : RunningSpawn) : saga unit :=
  let id := rs_SpawnId rs in let gen := i64 (rs_Generation rs) in
  bound ← ask (Route_bound id);
  if (bound : bool) then if evaluatorEnabled then evaluateSpawnMetrics id rs else mret tt
  else
    ask (Bind_route id nodeID);;
    r ← store (Get id);
    (match r with
     | Ok sp => if bool_decide (SpawnStatus sp = Unreachable)
                then _ ← store (MarkReachable id gen); mret tt else mret tt
     | Err _ => mret tt
     end);;
    if evaluatorEnabled then evaluateSpawnMetrics id rs else mret tt.

Definition adoptOrStop (rs : RunningSpawn) : saga unit :=
  let id := rs_SpawnId rs in let gen := i64 (rs_Generation rs) in
  r ← store (LiveContainer id);
  match r with
  | Err _ => mret tt
  | Ok None => stop_orphan rs
  | Ok (Some ((_, g), c)) =>
      if negb (g =? gen) then stop_orphan rs
      else if negb (String.eqb (NodeID c) nodeID) then
        a ← store (Adopt id nodeID gen);
        match a with
        | Err ErrConflict => stop_orphan rs
        | Err _ => mret tt
        | Ok _ => bind_adopted rs
        end
      else bind_adopted rs
  end.

(** ** The whole inventory *)

Fixpoint adopt_all (running : list RunningSpawn) : saga unit :=
  match running with
  | [] => mret tt
  | rs :: running => adoptOrStop rs;; adopt_all running
  end.

(** The active episodes of the node that it does not report: those to mark unreachable. *)
Fixpoint lost_rows (reported : gset string) (now : Z) (live : list ((string * Z) * Container)) (lost : list string)
    : saga (list string) :=
  match live with
  | [] => mret lost
  | ((id, _), c) :: live =>
      if negb (bool_decide (ContainerPhase c = PhaseActive)) || bool_decide (id ∈ reported)
      then lost_rows reported now live lost
      else
        r ← store (Get id);
        match r with
        | Err _ => lost_rows reported now live lost
        | Ok sp =>
            if bool_decide (SpawnStatus sp = Forking) then
              ask (Drop_route id);;
              _ ← store (MarkForkingLost true id (StatusSeq sp));
              lost_rows reported now live lost
            else if bool_decide (SpawnStatus sp = Suspending) || bool_decide (SpawnStatus sp = Resuming)
            then lost_rows reported now live lost
            else if claim_live sp now then lost_rows reported now live lost
            else lost_rows reported now live (lost ++ [id])
        end
  end.
Fixpoint drop_routes (ids : list string) : saga unit :=
  match ids with [] => mret tt | id :: ids => ask (Drop_route id);; drop_routes ids end.

Definition reconcileInventory (running : list RunningSpawn) : saga unit :=
  if String.eqb nodeID "" then mret tt
  else
    adopt_all running;;
    r ← store (LiveContainersByNode nodeID);
    match r with
    | Err _ => mret tt
    | Ok live =>
        now ← ask Now;
        lost ← lost_rows (list_to_set (rs_SpawnId <$> running)) now live [];
        match lost with
        | [] => mret tt
        | _ => drop_routes lost;; _ ← store (MarkUnreachable lost); mret tt
        end
    end.

(** ** A restarted node asks (readopt.go): nothing of the ledger is written *)

(** [adoptSpawnFor] *)
Definition adoptSpawnFor (id : string) (sp : Spawn) (gen : Z) : handler AdoptSpawn :=
  mounts ←! stored Store_error (GetMounts id);
  classes ←! classifyMounts id;
  let pending := negb (bool_decide (map_Forall (fun _ class_ => class_ <> mountClassOwnerSealed) classes)) in
  (if pending then ask (Mark_delivery_pending id) else mret tt);;
  ok (mkAdopt sp id gen mounts pending).

Definition readoptDecision (id : string) (gen : Z) : saga ReadoptDecision :=
  let dec v := mkDecision id gen v None in
  if String.eqb id "" then mret (dec DEFER)
  else
    r ← store (LiveContainer id);
    match r with
    | Err _ => mret (dec DEFER)
    | Ok None => mret (dec REAP)
    | Ok (Some ((_, g), _)) =>
        if negb (g =? i64 gen) then mret (dec REAP)
        else
          r ← store (Get id);
          match r with
          | Err ErrNotFound => mret (dec REAP)
          | Err _ => mret (dec DEFER)
          | Ok sp =>
              if bool_decide (SpawnStatus sp ∈ [Suspending; Resuming; Forking]) then mret (dec DEFER)
              else
                now ← ask Now;
                if claim_live sp now then mret (dec DEFER)
                else
                  a ← adoptSpawnFor id sp gen;
                  match a with
                  | Err _ => mret (dec DEFER)
                  | Ok spec => mret (mkDecision id gen ADOPT (Some spec))
                  end
          end
    end.

Fixpoint decide_pods (pods : list (string * Z)) : saga (list ReadoptDecision) :=
  match pods with
  | [] => mret []
  | (id, gen) :: pods => d ← readoptDecision id gen; ds ← decide_pods pods; mret (d :: ds)
  end.

(** [handleManagedPodsReport]; [pods] are the spawn ids and generations of the report. *)
Definition handleManagedPodsReport (reportNode requestID : string) (pods : list (string * Z)) : saga unit :=
  if String.eqb nodeID "" then mret tt
  else if negb (String.eqb reportNode "") && negb (String.eqb reportNode nodeID) then mret tt
  else
    ds ← decide_pods pods;
    _ ← ask (Send_decisions nodeID (mkDecisions requestID ds));
    mret tt.
End Inventory.

(** ** The node's side of the handshake (src/internal/node/readopt.go) *)

(** A pod the node found: its spawn and its generation. *)
Definition ManagedPod : Type := string * Z.

(** What is done to a pod: a rebuild that fails is reaped as well. *)
Inductive readopt_action := Left_running | Adopted (spec : AdoptSpawn) | Reaped.

(** [applyReadopt]; [rebuilt] tells whether [adoptPod] succeeds. *)
Definition applyReadopt (rebuilt : AdoptSpawn -> bool) (p : ManagedPod) (d : option ReadoptDecision)
    : readopt_action :=
  match d with
  | None => Left_running
  | Some d =>
      if negb (rd_Generation d =? p.2) then Left_running
      else
        match rd_Verdict d with
        | ADOPT => match rd_Adopt d with
                   | Some spec => if rebuilt spec then Adopted spec else Reaped
                   | None => Reaped
                   end
        | REAP => Reaped
        | _ => Left_running
        end
  end.
(** The decisions by spawn; of two for one spawn the later one counts. *)
Definition byDecision (ds : list ReadoptDecision) : gmap string ReadoptDecision :=
  foldl (fun m d => <[rd_SpawnId d := d]> m) ∅ ds.

(** [readoptState]: the buffer of [answer] holds one decision. *)
Record readoptState := mkReadopt {
  ro_done : bool; ro_gate : bool; ro_waitingID : string; ro_answer : option ManagedPodsDecisions }.
#[export] Instance eta_readoptState : Eta readoptState := fun r =>
  mkReadopt (ro_done r) (ro_gate r) (ro_waitingID r) (ro_answer r).
Definition newReadoptState : readoptState := mkReadopt false false "" None.

(** [deliver] *)
Definition deliver_decisions (d : ManagedPodsDecisions) (r : readoptState) : readoptState :=
  if String.eqb (ro_waitingID r) "" || negb (String.eqb (md_RequestId d) (ro_waitingID r)) then r
  else match ro_answer r with Some _ => r | None => r <| ro_answer := Some d |> end.

(** An attempt of [reconcileManagedPods] up to its select: the pods cannot be listed, the report
    cannot be sent, or it waits. *)
Inductive attempt_start := Pods_unlisted | Report_unsent | Report_sent.
Definition begin_attempt (reqID : string) (s : attempt_start) (r : readoptState) : readoptState :=
  if ro_done r then r
  else match s with
       | Pods_unlisted => r <| ro_gate := true |>
       | Report_unsent | Report_sent => r <| ro_waitingID := reqID |>
       end.
(** The select: the context, the timer, or the buffered answer. *)
Inductive attempt_end := Attempt_cancelled | Attempt_timed_out | Attempt_answered.
Definition end_attempt (rebuilt : AdoptSpawn -> bool) (pods : list ManagedPod) (e : attempt_end) (r : readoptState)
    : option (list (ManagedPod * readopt_action) * readoptState) :=
  match e with
  | Attempt_cancelled => Some ([], r)
  | Attempt_timed_out => Some ([], r <| ro_gate := true |>)
  | Attempt_answered =>
      dec ← ro_answer r;
      let m := byDecision (md_Decisions dec) in
      Some ((fun p => (p, applyReadopt rebuilt p (m !! p.1))) <$> pods,
            r <| ro_answer := None |> <| ro_done := true |> <| ro_waitingID := "" |> <| ro_gate := true |>)
  end.

(** * Laws of the inventory: episodes that are over stay over *)

(** ** What every method keeps *)

Definition dead (d : Tables) (id : string) (g : Z) : Prop :=
  exists c, spawn_containers d !! (id, g) = Some c /\ is_live c = false.
Definition known (d : Tables) (id : string) (g : Z) : Prop := is_Some (spawn_containers d !! (id, g)).

(** Episodes are not removed, and none that is over is revived. *)
Definition keep_dead (d d' : Tables) : Prop :=
  forall k c, spawn_containers d !! k = Some c ->
    exists c', spawn_containers d' !! k = Some c' /\ (is_live c = false -> is_live c' = false).
#[export] Instance keep_dead_preorder : PreOrder keep_dead.
Proof.
  split; [by intros d k c Hc; exists c|]. intros d1 d2 d3 H1 H2 k c Hc.
  destruct (H1 k c Hc) as (c' & Hc' & Hl). destruct (H2 k c' Hc') as (c'' & Hc'' & Hl'). eauto.
Qed.
Lemma keep_same {A} (q : Tables -> result StoreErr A * Tables) :
  (forall d, spawn_containers (q d).2 = spawn_containers d) -> always keep_dead (stmt q).
Proof. intros Hq. apply always_stmt; [apply _|]. intros d k c Hc. exists c. by rewrite Hq. Qed.
Lemma keep_exec_spawns p f : always keep_dead (exec_spawns p f).
Proof. by apply keep_same. Qed.
Lemma keep_exec_mounts p f : always keep_dead (exec_mounts p f).
Proof. by apply keep_same. Qed.
Lemma keep_query {A} (q : Tables -> A) : always keep_dead (query q).
Proof. by apply keep_same. Qed.
Lemma keep_insert_mount k m : always keep_dead (insert_mount k m).
Proof. apply keep_same. intros d. by case_match. Qed.
Lemma keep_insert_spawn k s : always keep_dead (insert_spawn k s).
Proof. apply keep_same. intros d. by case_match. Qed.
Lemma keep_exec_containers p f :
  (forall c, is_live c = false -> is_live (f c) = false) -> always keep_dead (exec_containers p f).
Proof.
  intros Hf. apply always_stmt; [apply _|]. intros d k c Hc. cbn. rewrite lookup_update_where, Hc. cbn.
  eexists. split; [done|]. case_match; auto.
Qed.
Lemma keep_insert_container k c : always keep_dead (insert_container k c).
Proof.
  apply always_stmt; [apply _|]. intros d k' c' Hc'. repeat case_match; cbn; [by exists c'..|].
  rewrite lookup_insert_ne by congruence. by exists c'.
Qed.
Lemma keep_expect_one e n : always keep_dead (expect_one e n).
Proof. unfold expect_one. case_match; [by apply always_ret, _|by apply always_throw, _]. Qed.
Lemma keep_insert_mounts id ms : always keep_dead (insert_mounts id ms).
Proof.
  induction ms as [|[n m] ms IH]; simpl; [by apply always_ret, _|].
  apply always_bind; [apply _|apply keep_insert_mount|done].
Qed.
Lemma keep_check_declared d a v ms : always keep_dead (check_declared d a v ms).
Proof.
  induction ms as [|[n m] ms IH]; simpl; [by apply always_ret, _|]. case_match; [done|by apply always_throw, _].
Qed.
#[local] Hint Resolve keep_exec_spawns keep_exec_mounts keep_query keep_insert_mount keep_insert_spawn
  keep_insert_container keep_expect_one keep_insert_mounts keep_check_declared : always.
#[local] Hint Extern 3 (always keep_dead (exec_containers _ _)) => apply keep_exec_containers; by intros c : always.
Lemma run_op_keep_dead top op : always keep_dead (run_op top op).
Proof. destruct op; unfold_ops; always_walk. Qed.

(** ** The moves of the ledger *)

Record moves (d d' : Tables) : Prop := {
  mv_wf : ledger_wf d -> ledger_wf d';
  mv_dead : keep_dead d d'
}.
#[export] Instance moves_preorder : PreOrder moves.
Proof.
  split; [by split|]. intros d1 d2 d3 [W1 K1] [W2 K2]. split; [auto|by etransitivity].
Qed.
Lemma always_both {A} (R1 R2 : Tables -> Tables -> Prop) (m : DB A) :
  always R1 m -> always R2 m -> always (fun d d' => R1 d d' /\ R2 d d') m.
Proof. intros H1 H2 s. specialize (H1 s). specialize (H2 s). by split. Qed.
Lemma run_op_moves top op : always moves (run_op top op).
Proof.
  intros s. pose proof (run_op_wf top op s) as Hwf. pose proof (run_op_keep_dead top op s) as Hk. by split.
Qed.
Lemma history_moves d d' : history d d' -> moves d d'.
Proof. apply history_always; [apply _..|apply run_op_moves]. Qed.
Lemma moves_dead d d' id g : moves d d' -> dead d id g -> dead d' id g.
Proof. intros [_ Hk] (c & Hc & Hl). destruct (Hk _ _ Hc) as (c' & Hc' & Hl'). exists c'. auto. Qed.
Lemma moves_known d d' id g : moves d d' -> known d id g -> known d' id g.
Proof. intros [_ Hk] [c Hc]. destruct (Hk _ _ Hc) as (c' & Hc' & _). by exists c'. Qed.

(** ** What the control plane stops *)

Section Reported.
Context (evaluatorEnabled : bool) (quotaSuspendMB idleDetachedTimeout idleAttachedTimeout : Z) (nodeID : string).
Abbreviation wp p P d l := (wp is_fault moves (fun _ _ _ => True) p P d l).
Abbreviation quietly p := (calm moves p).

(** An episode told to stop was seen over before. *)
Definition seen_dead (l : trace) (id : string) (g : Z) : Prop :=
  exists d d' f, Did d d' f ∈ l /\ dead d' id g.
Definition stops (e : event) (id : string) (gen : Z) : Prop := exists n a, e = Answered (Send n (StopSpawn id gen)) a.
Definition only_orphans (l : trace) : Prop :=
  each (fun l1 e => forall id gen, stops e id gen -> seen_dead l1 id (i64 gen)) l.
(** Questions that stop nothing. *)
Definition spares (q : question) : bool := match q with Send _ (StopSpawn _ _) => false | _ => true end.
Abbreviation sparing p := (asks (fun q => spares q = true) p).

Lemma spares_trace l k : only_orphans l -> Forall (event_asks (fun q => spares q = true)) k -> only_orphans (l ++ k).
Proof.
  intros Hl Hk. apply each_app; [done|]. eapply Forall_impl; [exact Hk|].
  intros e He l1 id gen (n & a & ->). done.
Qed.

Lemma moves_reads {A} (q : Tables -> A) : always moves (query q).
Proof. apply always_stmt; [apply _|]. intros d. reflexivity. Qed.
Lemma moves_get id : always moves (Get id).
Proof.
  unfold Get. apply always_bind; [apply _|apply moves_reads|]. intros rows.
  case_match; [by apply always_throw, _|]. case_match. by apply always_ret, _.
Qed.
Lemma moves_live id : always moves (LiveContainer id).
Proof.
  unfold LiveContainer. apply always_bind; [apply _|apply moves_reads|]. intros rows. by apply always_ret, _.
Qed.
Lemma moves_by_node : always moves (LiveContainersByNode nodeID).
Proof. apply moves_reads. Qed.
Lemma moves_mounts id : always moves (GetMounts id).
Proof.
  unfold GetMounts. apply always_bind; [apply _|apply moves_reads|]. intros rows. by apply always_ret, _.
Qed.
Lemma moves_reachable id g : always moves (MarkReachable id g).
Proof. apply (run_op_moves true (OpMarkReachable id g)). Qed.
Lemma moves_adopt id n g : always moves (Adopt id n g).
Proof. apply (run_op_moves true (OpAdopt id n g)). Qed.
Lemma moves_ignored {A} (m : DB A) : always moves (ignore m) -> always moves m.
Proof.
  intros Hm s. specialize (Hm s). unfold ignore, mbind, sql_bind in Hm. by destruct (m s) as [[e|a] s'].
Qed.
Lemma moves_lost id n : always moves (MarkForkingLost true id n).
Proof. apply moves_ignored, (run_op_moves true (OpMarkForkingLost id n)). Qed.
Lemma moves_unreachable ids : always moves (MarkUnreachable ids).
Proof. apply moves_ignored, (run_op_moves true (OpMarkUnreachable ids)). Qed.
#[local] Hint Resolve moves_get moves_live moves_by_node moves_mounts moves_reachable moves_adopt moves_lost
  moves_unreachable : calm.

Abbreviation evaluate := (evaluateSpawnMetrics quotaSuspendMB idleDetachedTimeout idleAttachedTimeout).
Lemma quiet_evaluate id rs : quietly (evaluate id rs).
Proof. unfold evaluateSpawnMetrics, is_idle. calm_walk. Qed.
Lemma spare_evaluate id rs : sparing (evaluate id rs).
Proof. unfold evaluateSpawnMetrics, is_idle. asks_walk. Qed.
#[local] Hint Resolve quiet_evaluate : calm.
#[local] Hint Resolve spare_evaluate : asks.
Abbreviation bind := (bind_adopted evaluatorEnabled quotaSuspendMB idleDetachedTimeout idleAttachedTimeout nodeID).
Lemma quiet_bind rs : quietly (bind rs).
Proof. unfold bind_adopted. calm_walk. Qed.
Lemma spare_bind rs : sparing (bind rs).
Proof. unfold bind_adopted. asks_walk. Qed.
Lemma quiet_lost reported now live lost : quietly (lost_rows reported now live lost).
Proof. revert lost. induction live as [|[[id g] c] live IH]; intros lost; cbn [lost_rows]; calm_walk. Qed.
Lemma spare_lost reported now live lost : sparing (lost_rows reported now live lost).
Proof. revert lost. induction live as [|[[id g] c] live IH]; intros lost; cbn [lost_rows]; asks_walk. Qed.
Lemma quiet_drop ids : quietly (drop_routes ids).
Proof. induction ids; cbn [drop_routes]; calm_walk. Qed.
Lemma spare_drop ids : sparing (drop_routes ids).
Proof. induction ids; cbn [drop_routes]; asks_walk. Qed.
#[local] Hint Resolve quiet_bind quiet_lost quiet_drop : calm.
#[local] Hint Resolve spare_bind spare_lost spare_drop : asks.

Lemma outcome_live id d r d' :
  outcome (LiveContainer id) d r d' ->
  d' = d /\ forall o, r = Ok o ->
    match o with
    | None => forall g, ~ live_in d id g
    | Some ((k, g), c) => k = id /\ spawn_containers d !! (id, g) = Some c /\ is_live c = true
    end.
Proof.
  unfold LiveContainer. intros [(e & -> & Ho)|(rows & d1 & Ho & Hk)]%outcome_bind;
    apply outcome_select in Ho as [(msg & ? & ->)|[Hr ->]]; try done.
  injection Hr as ->. apply outcome_ret in Hk as [-> ->]. split; [done|]. intros o [= <-].
  destruct (select_where (live_of id) (spawn_containers d)) as [|[[k g] c] rows] eqn:Hsel; cbn.
  - intros g (c & Hc & Hl). apply (proj1 (select_where_nil _ _) Hsel) in Hc. unfold live_of in Hc. cbn in Hc.
    by rewrite String.eqb_refl, Hl in Hc.
  - assert (((k, g), c) ∈ select_where (live_of id) (spawn_containers d)) as Hin by (rewrite Hsel; left).
    apply elem_of_select_where in Hin as [Hc Hp]. unfold live_of in Hp. cbn in Hp. brefl. by destruct Hp as [-> ?].
Qed.
Lemma known_dead d id g : known d id g -> ~ live_in d id g -> dead d id g.
Proof.
  intros [c Hc] Hl. exists c. split; [done|]. destruct (is_live c) eqn:E; [|done]. destruct Hl. by exists c.
Qed.
Lemma outcome_Adopt id g d r d' :
  outcome (Adopt id nodeID g) d r d' -> r = Err ErrConflict -> d' = d /\ ~ live_in d id g.
Proof.
  intros Ho ->. apply outcome_exec_one in Ho as [(msg & ? & _)|Hr]; [done| |apply expect_one_cases].
  pose proof (run_exec_live id g (fun c => c <| NodeID := nodeID |>) d) as E. unfold exec_containers in E. rewrite E in Hr.
  destruct (spawn_containers d !! (id, g)) as [c|] eqn:Hc.
  - destruct (is_live c) eqn:Hl; [done|]. injection Hr as <-. split; [done|].
    intros (c' & Hc' & Hl'). rewrite Hc in Hc'. injection Hc' as <-. by rewrite Hl in Hl'.
  - injection Hr as <-. split; [done|]. intros (c' & Hc' & _). by rewrite Hc in Hc'.
Qed.

Definition tidy (d : Tables) (l : trace) : Prop := ledger_wf d /\ only_orphans l.
Lemma tidy_moves d d' l k :
  moves d d' -> Forall (event_asks (fun q => spares q = true)) k -> tidy d l -> tidy d' (l ++ k).
Proof. intros Hm Hk [Hwf Hl]. split; [by apply Hm|by apply spares_trace]. Qed.
Lemma wp_spare {A B} (p : saga A) (f : A -> saga B) P d l :
  tidy d l -> quietly p -> sparing p ->
  (forall a d' k, moves d d' -> tidy d' (l ++ k) -> wp (f a) P d' (l ++ k)) -> wp (p ≫= f) P d l.
Proof.
  intros Ht Hc Ha Hf. eapply wp_seq.
  - apply (wp_asks is_fault moves (fun _ _ _ => True) (fun q => spares q = true)); [exact Ha|].
    eapply wp_calm; [apply _|done|exact Hc].
  - intros a d' l' [[Hd _] (k & -> & Hall)]. apply Hf; [done|]. by eapply tidy_moves.
Qed.

Definition reported_known (d : Tables) (rs : RunningSpawn) : Prop := known d (rs_SpawnId rs) (i64 (rs_Generation rs)).
Abbreviation settles d := (fun (_ : unit) d' l' => moves d d' /\ tidy d' l').

Lemma wp_orphan rs d0 d l :
  moves d0 d -> tidy d l -> seen_dead l (rs_SpawnId rs) (i64 (rs_Generation rs)) ->
  wp (stop_orphan nodeID rs) (settles d0) d l.
Proof.
  intros Hm [Hwf Hl] Hd. unfold stop_orphan. apply wp_bind, wp_ask. intros a. apply wp_ret. split; [done|].
  split; [done|]. apply each_snoc; [done|]. intros id gen (n & b & Heq).
  assert (rs_SpawnId rs = id /\ rs_Generation rs = gen) as [<- <-]; [|done].
  by injection Heq as _ -> ->.
Qed.
Lemma wp_bound rs d0 d l :
  moves d0 d -> tidy d l -> wp (bind rs) (settles d0) d l.
Proof.
  intros Hm Ht.
  eapply wp_mono; [|apply (wp_asks is_fault moves (fun _ _ _ => True) (fun q => spares q = true)); [apply spare_bind|];
    eapply wp_calm; [apply _|done|apply quiet_bind]].
  intros a d' l' [[Hd _] (k & -> & Hall)]. split; [by etransitivity|]. by eapply tidy_moves.
Qed.

Abbreviation adopt_or_stop :=
  (adoptOrStop evaluatorEnabled quotaSuspendMB idleDetachedTimeout idleAttachedTimeout nodeID).
Lemma wp_adopt_or_stop rs d l :
  tidy d l -> reported_known d rs -> wp (adopt_or_stop rs) (settles d) d l.
Proof.
  intros Ht Hkn. unfold adoptOrStop. apply wp_bind, wp_store. intros d1 r d2 Hd1 Ho. split; [done|].
  apply outcome_live in Ho as [-> Hlive].
  assert (tidy d1 (l ++ [Did d1 d1 (faulty is_fault r)])) as H1 by (eapply tidy_moves; [done|by repeat constructor|done]).
  pose proof (moves_known _ _ _ _ Hd1 Hkn) as Hkn1.
  assert (forall d', d' = d1 -> ~ live_in d' (rs_SpawnId rs) (i64 (rs_Generation rs)) ->
    seen_dead (l ++ [Did d1 d1 (faulty is_fault r)]) (rs_SpawnId rs) (i64 (rs_Generation rs))) as Hseen.
  { intros ? -> Hl. exists d1, d1, (faulty is_fault r). split; [apply elem_of_app; right; by left|].
    by apply known_dead. }
  destruct r as [e|[[[k g] c]|]]; [apply wp_ret; by split| |].
  2: { apply wp_orphan; [done|done|]. apply (Hseen d1); [done|apply (Hlive _ eq_refl)]. }
  destruct (Hlive _ eq_refl) as (-> & Hc & Hl).
  destruct (Z.eqb_spec g (i64 (rs_Generation rs))) as [->|Hg]; cbn [negb].
  2: { apply wp_orphan; [done|done|]. apply (Hseen d1); [done|]. intros Hl'. apply Hg.
       eapply (wf_unique d1); [apply H1| |exact Hl']. by exists c. }
  case_match; [|by apply wp_bound].
  apply wp_bind, wp_store. intros d3 r d4 Hd3 Ho. split; [done|].
  assert (moves d1 d4) as Hd4.
  { etransitivity; [exact Hd3|]. eapply always_outcome; [apply moves_adopt|exact Ho]. }
  assert (moves d d4) as Hm by (by etransitivity).
  assert (tidy d4 ((l ++ [Did d1 d1 (faulty is_fault (Ok (Some (rs_SpawnId rs, i64 (rs_Generation rs), c))))])
    ++ [Did d3 d4 (faulty is_fault r)])) as H4 by (eapply tidy_moves; [exact Hd4|by repeat constructor|exact H1]).
  destruct r as [e|[]]; [|by apply wp_bound]. destruct e; try (apply wp_ret; by split).
  destruct (outcome_Adopt _ _ _ _ _ Ho eq_refl) as [-> Hdead]. apply wp_orphan; [done|done|].
  eexists d3, d3, _. split; [apply elem_of_app; right; by left|].
  apply known_dead; [|done]. by eapply moves_known.
Qed.
Lemma wp_adopt_all running d l :
  tidy d l -> Forall (reported_known d) running ->
  wp (adopt_all evaluatorEnabled quotaSuspendMB idleDetachedTimeout idleAttachedTimeout nodeID running) (settles d) d l.
Proof.
  revert d l. induction running as [|rs running IH]; intros d l Ht Hk; cbn [adopt_all]; [apply wp_ret; by split|].
  apply Forall_cons in Hk as [Hrs Hk]. eapply wp_seq; [by apply wp_adopt_or_stop|].
  intros ? d1 l1 [Hm H1]. eapply wp_mono; [|apply IH; [done|]].
  - intros ? d2 l2 [Hm2 H2]. split; [by etransitivity|done].
  - eapply Forall_impl; [exact Hk|]. intros x. by apply moves_known.
Qed.
Lemma wp_inventory running d l :
  tidy d l -> Forall (reported_known d) running ->
  wp (reconcileInventory evaluatorEnabled quotaSuspendMB idleDetachedTimeout idleAttachedTimeout nodeID running)
    (settles d) d l.
Proof.
  intros Ht Hk. unfold reconcileInventory. case_match; [apply wp_ret; by split|].
  eapply wp_seq; [by apply wp_adopt_all|]. intros ? d1 l1 [Hm1 H1].
  apply wp_spare; [done|calm_walk|asks_walk|]. intros [e|live] d2 k2 Hm2 H2; [apply wp_ret; split; [by etransitivity|done]|].
  apply wp_spare; [done|calm_walk|asks_walk|]. intros now d3 k3 Hm3 H3.
  apply wp_spare; [done|calm_walk|asks_walk|]. intros lost d4 k4 Hm4 H4.
  assert (moves d d4) as Hm by (do 3 (etransitivity; [eassumption|]); done).
  destruct lost as [|id lost]; [apply wp_ret; by split|].
  apply wp_spare; [done|calm_walk|asks_walk|]. intros ? d5 k5 Hm5 H5.
  apply wp_spare; [done|calm_walk|asks_walk|]. intros ? d6 k6 Hm6 H6.
  apply wp_ret. split; [|done]. by do 2 (etransitivity; [eassumption|]).
Qed.

(** ** What the control plane has reaped *)

Definition seen_live (l : trace) (id : string) (g : Z) : Prop := exists d d' f, Did d d' f ∈ l /\ live_in d' id g.
Definition seen_deleted (l : trace) (id : string) : Prop :=
  exists d d' f s, Did d d' f ∈ l /\ spawns d' !! id = Some s /\ SpawnStatus s = Deleted.
(** No live episode of that generation was found, and the episode was over if [d0] knew it. *)
Definition seen_gone (d0 : Tables) (l : trace) (id : string) (g : Z) : Prop :=
  exists d d' f, Did d d' f ∈ l /\ ~ live_in d' id g /\ (known d0 id g -> dead d' id g).
(** A verdict rests on what was read: REAP on an episode that is not live, or a spawn that is deleted,
    ADOPT on a live episode. *)
Definition founded (d0 : Tables) (l : trace) (dec : ReadoptDecision) : Prop :=
  (rd_Verdict dec = REAP ->
     seen_gone d0 l (rd_SpawnId dec) (i64 (rd_Generation dec)) \/ seen_deleted l (rd_SpawnId dec)) /\
  (rd_Verdict dec = ADOPT -> is_Some (rd_Adopt dec) /\ seen_live l (rd_SpawnId dec) (i64 (rd_Generation dec))).
Lemma founded_app d0 l k dec : founded d0 l dec -> founded d0 (l ++ k) dec.
Proof.
  intros [Hr Ha]. split.
  - intros Hv. destruct (Hr Hv) as [(d & d' & f & Hin & ?)|(d & d' & f & s & Hin & ?)].
    + left. exists d, d', f. split; [apply elem_of_app; by left|done].
    + right. exists d, d', f, s. split; [apply elem_of_app; by left|done].
  - intros Hv. destruct (Ha Hv) as (Hs & d & d' & f & Hin & ?). split; [exact Hs|]. exists d, d', f. split; [apply elem_of_app; by left|done].
Qed.

Lemma outcome_not_found id d d' :
  outcome (Get id) d (Err ErrNotFound) d' -> d' = d /\ forall s, spawns d !! id = Some s -> SpawnStatus s = Deleted.
Proof.
  unfold Get. intros [(e & ? & Ho)|(rows & d1 & Ho & Hk)]%outcome_bind;
    apply outcome_select in Ho as [(msg & ? & ->)|[Hr ->]]; simplify_eq; try done.
  destruct (select_where _ (spawns d)) as [|[k s] l] eqn:Hsel; [|by apply outcome_ret in Hk as [? _]].
  apply outcome_throw in Hk as [_ ->]. split; [done|]. intros s Hs.
  apply (proj1 (select_where_nil _ _) Hsel) in Hs. cbn in Hs. rewrite String.eqb_refl in Hs.
  unfold not_deleted in Hs. cbn in Hs. by apply bool_decide_eq_false, dec_stable in Hs.
Qed.

Lemma quiet_adopt_for id sp gen : quietly (adoptSpawnFor id sp gen).
Proof.
  unfold adoptSpawnFor, classifyMounts.
  assert (forall md rows res, quietly (classify id md rows res)) as Hc.
  { intros md rows. induction rows as [|[[a b] m] rows IH]; intros res; cbn [classify]; calm_walk. }
  calm_walk.
Qed.
#[local] Hint Resolve quiet_adopt_for : calm.
Abbreviation decided d0 id gen d :=
  (fun dec (d' : Tables) (l' : trace) =>
     moves d d' /\ ledger_wf d' /\ rd_SpawnId dec = id /\ rd_Generation dec = gen /\ founded d0 l' dec).
Lemma wp_decided d0 id gen v d1 d l :
  moves d1 d -> ledger_wf d -> founded d0 l (mkDecision id gen v None) ->
  wp (mret (mkDecision id gen v None)) (decided d0 id gen d1) d l.
Proof. intros Hm Hwf Hf. apply wp_ret. by split_and!. Qed.
Lemma founded_defer d0 l id gen : founded d0 l (mkDecision id gen DEFER None).
Proof. by split. Qed.
#[local] Hint Resolve founded_defer : core.

Lemma wp_decision d0 id gen d l :
  ledger_wf d -> moves d0 d -> wp (readoptDecision id gen) (decided d0 id gen d) d l.
Proof.
  intros Hwf H0. unfold readoptDecision. case_match; [by apply wp_decided|].
  apply wp_bind, wp_store. intros d1 r d2 Hd1 Ho. split; [done|]. apply outcome_live in Ho as [-> Hlive].
  pose proof (mv_wf _ _ Hd1 Hwf) as Hwf1. assert (moves d0 d1) as H01 by (by etransitivity).
  assert (~ live_in d1 id (i64 gen) -> founded d0 (l ++ [Did d1 d1 (faulty is_fault r)]) (mkDecision id gen REAP None)) as Hreap.
  { intros Hl. split; [|done]. intros _. left. eexists d1, d1, _. split; [apply elem_of_app; right; by left|].
    split; [done|]. intros Hkn. apply known_dead; [|done]. by eapply moves_known. }
  destruct r as [e|[[[k g] c]|]]; [by apply wp_decided| |apply wp_decided; [done|done|apply Hreap, (Hlive _ eq_refl)]].
  destruct (Hlive _ eq_refl) as (-> & Hc & Hl).
  destruct (Z.eqb_spec g (i64 gen)) as [->|Hg]; cbn [negb].
  2: { apply wp_decided; [done|done|]. apply Hreap. intros Hl'. apply Hg. eapply wf_unique; [exact Hwf1| |exact Hl'].
       by exists c. }
  assert (forall k, seen_live ((l ++ [Did d1 d1 (faulty is_fault (Ok (Some (id, i64 gen, c))))]) ++ k) id (i64 gen)) as Hseen.
  { intros k. eexists d1, d1, _. rewrite <- (assoc_L (++)). split; [apply elem_of_app; right; by left|]. by exists c. }
  apply wp_bind, wp_store. intros d2 r d3 Hd2 Ho. split; [done|].
  assert (moves d d2) as Hm by (by etransitivity). pose proof (mv_wf _ _ Hm Hwf) as Hwf2.
  destruct r as [e|sp].
  - assert (d3 = d2) as -> by (by apply outcome_Get in Ho as [-> _]).
    destruct e; try (by apply wp_decided). apply outcome_not_found in Ho as [_ Hdel].
    apply wp_decided; [done|done|]. split; [|done]. intros _. right.
    destruct (moves_known _ _ id (i64 gen) Hd2 ltac:(by eexists)) as [c' Hc']. destruct (wf_spawn _ Hwf2 _ _ _ Hc') as [s Hs].
    eexists d2, d2, _, s. split; [apply elem_of_app; right; by left|]. auto.
  - apply outcome_Get in Ho as [-> _]. case_match; [by apply wp_decided|].
    apply wp_bind, wp_ask. intros now. case_match; [by apply wp_decided|].
    eapply wp_seq; [apply wp_calm; [apply _|done|apply quiet_adopt_for]|].
    intros a d4 l4 [Hd4 [k ->]]. assert (moves d d4) as Hm4 by (by etransitivity).
    pose proof (mv_wf _ _ Hm4 Hwf). destruct a as [e|spec]; [by apply wp_decided|].
    apply wp_ret. split_and!; [done|done|done|done|]. split; [done|]. intros _. split; [by eexists|].
    cbn [rd_SpawnId rd_Generation]. rewrite <- !(assoc_L (++)). rewrite (assoc_L (++) l). apply Hseen.
Qed.

Lemma wp_decide_pods d0 pods d l :
  ledger_wf d -> moves d0 d ->
  wp (decide_pods pods) (fun ds d' l' => moves d d' /\ ledger_wf d' /\ Forall (founded d0 l') ds /\
       (fun dec => (rd_SpawnId dec, rd_Generation dec)) <$> ds = pods) d l.
Proof.
  revert d l. induction pods as [|[id gen] pods IH]; intros d l Hwf Hk; cbn [decide_pods]; [by apply wp_ret|].
  eapply wp_seq; [by apply (wp_decision d0)|].
  intros dec d1 l1 (Hm & Hwf1 & Hid & Hgen & Hf).
  eapply wp_seq; [apply wp_grows, IH; [done|]|].
  - by etransitivity.
  - intros ds d2 l2 ((Hm2 & Hwf2 & Hall & Hds) & k & ->). apply wp_ret. split_and!; [by etransitivity|done| |].
    + constructor; [by apply founded_app|done].
    + cbn. by rewrite Hid, Hgen, Hds.
Qed.
Definition answers (e : event) (ds : ManagedPodsDecisions) : Prop := exists n a, e = Answered (Send_decisions n ds) a.
Definition all_founded (d0 : Tables) (pods : list (string * Z)) (l : trace) : Prop :=
  each (fun l1 e => forall ds, answers e ds ->
    Forall (fun dec => founded d0 l1 dec /\ (rd_SpawnId dec, rd_Generation dec) ∈ pods) (md_Decisions ds)) l.

(** Questions that answer no report. *)
Definition silent (q : question) : bool := match q with Send_decisions _ _ => false | _ => true end.
Lemma silent_pods pods : asks (fun q => silent q = true) (decide_pods pods).
Proof.
  assert (forall id md rows res, asks (fun q => silent q = true) (classify id md rows res)) as Hc.
  { intros id md rows. induction rows as [|[[a b] m] rows IH]; intros res; cbn [classify]; asks_walk. }
  assert (forall id gen, asks (fun q => silent q = true) (readoptDecision id gen)) as Hd.
  { intros id gen. unfold readoptDecision, adoptSpawnFor, classifyMounts. asks_walk. }
  induction pods as [|[id gen] pods IH]; cbn [decide_pods]; asks_walk.
Qed.
Lemma silent_founded d0 pods l k :
  all_founded d0 pods l -> Forall (event_asks (fun q => silent q = true)) k -> all_founded d0 pods (l ++ k).
Proof.
  intros Hl Hk. apply each_app; [done|]. eapply Forall_impl; [exact Hk|]. intros e He l1 ds (n & a & ->). done.
Qed.
Lemma wp_report reportNode reqID pods d l :
  ledger_wf d -> all_founded d pods l ->
  wp (handleManagedPodsReport nodeID reportNode reqID pods)
    (fun _ d' l' => moves d d' /\ all_founded d pods l') d l.
Proof.
  intros Hwf Hl. unfold handleManagedPodsReport. case_match; [by apply wp_ret|]. case_match; [by apply wp_ret|].
  eapply wp_seq; [apply (wp_asks is_fault moves (fun _ _ _ => True) (fun q => silent q = true)); [apply silent_pods|];
    by apply wp_decide_pods|].
  intros ds d1 l1 [(Hm & _ & Hall & Hds) (k & -> & Hsil)]. apply wp_bind, wp_ask. intros a. apply wp_ret. split; [done|].
  apply each_snoc; [by apply silent_founded|]. intros ds' (n & b & Heq).
  assert (ds' = mkDecisions reqID ds) as -> by (by injection Heq as _ ->).
  cbn [md_Decisions]. apply Forall_forall. intros dec Hin. split; [by eapply Forall_forall in Hall|].
  rewrite <- Hds. by apply (list_elem_of_fmap_2 (fun dec => (rd_SpawnId dec, rd_Generation dec))).
Qed.

(** Nothing of it but moves the ledger. *)
Lemma quiet_inventory running :
  quietly (reconcileInventory evaluatorEnabled quotaSuspendMB idleDetachedTimeout idleAttachedTimeout nodeID running).
Proof.
  assert (forall rs, quietly (adopt_or_stop rs)) as Ha by (intros rs; unfold adoptOrStop, stop_orphan; calm_walk).
  assert (quietly (adopt_all evaluatorEnabled quotaSuspendMB idleDetachedTimeout idleAttachedTimeout nodeID running)) as Hall
    by (induction running; cbn [adopt_all]; calm_walk).
  unfold reconcileInventory. calm_walk.
Qed.
Lemma quiet_report reportNode reqID pods : quietly (handleManagedPodsReport nodeID reportNode reqID pods).
Proof.
  assert (forall id gen, quietly (readoptDecision id gen)) as Hd by (intros id gen; unfold readoptDecision; calm_walk).
  assert (quietly (decide_pods pods)) as Hp by (induction pods as [|[id gen] pods IH]; cbn [decide_pods]; calm_walk).
  unfold handleManagedPodsReport. calm_walk.
Qed.
End Reported.
