(* ===== verification/InventoryContract.v ===== *)
(** * The inventory: what it stops and what it reaps is over

    A node that reports what it runs is told to stop an episode, or to reap its pod, only after
    the control plane has seen that episode over; an episode that is over stays over, so the
    order is right whenever it arrives. *)

From S2P Require Import Prelude GoLib Database Sagas SpawnStore SpawnLifecycle.
From S2P Require Import Transitions TransitionContract CpEnv Durability ForkCleanup ForkSpawn ForkContract.
From S2P Require Import Inventory.
Open Scope Z_scope.

Section Contract.
Context (evaluatorEnabled : bool) (quotaSuspendMB idleDetachedTimeout idleAttachedTimeout : Z) (nodeID : string).

(** Over now, and for good. *)
Definition over (d : Tables) (id : string) (g : Z) : Prop := forall d', history d d' -> dead d' id g.
Lemma seen_over {A} (p : saga A) d0 p' d l l1 l2 id g :
  calm moves p -> runs is_fault history (p, d0, []) (p', d, l) -> l = l1 ++ l2 ->
  seen_dead l1 id g -> over d id g.
Proof.
  intros Hc Hr -> (d1 & d2 & f & Hin & Hd) d' Hd'. eapply moves_dead; [|exact Hd].
  etransitivity; [|by apply history_moves].
  apply (runs_calm is_fault moves p d0 (p', d, l1 ++ l2) d1 d2 f); [exact Hc| |apply elem_of_app; by left].
  eapply runs_mono; [|exact Hr]. apply history_moves.
Qed.

(** C34: whatever a node reports running, whatever other handlers write meanwhile and whichever
    statements fail, an episode the control plane orders stopped was seen over by a transaction
    before the order was sent, and it is over for good; this holds at every point of the
    inventory's run, of episodes the ledger knew when the report arrived. *)
Theorem inventory_stops_only_orphans running d0 p d l1 l2 n id gen a :
  ledger_wf d0 -> Forall (reported_known d0) running ->
  runs is_fault history
    (reconcileInventory evaluatorEnabled quotaSuspendMB idleDetachedTimeout idleAttachedTimeout nodeID running, d0, [])
    (p, d, l1 ++ Answered (Send n (StopSpawn id gen)) a :: l2) ->
  seen_dead l1 id (i64 gen) /\ over d id (i64 gen).
Proof.
  intros Hwf Hk Hr. assert (seen_dead l1 id (i64 gen)) as Hs; [|split; [done|]].
  - destruct (runs_finish is_fault demo_answer (fun _ => []) history p _ _ _ Hr) as (x & d' & k & Hr').
    eapply runs_mono in Hr'; [|apply history_moves].
    assert (tidy d0 []) as Ht by (split; [done|apply each_nil]).
    pose proof (wp_inventory evaluatorEnabled quotaSuspendMB idleDetachedTimeout idleAttachedTimeout nodeID
      running _ _ Ht Hk) as Hw.
    destruct (runs_wp _ _ _ _ _ _ _ _ _ Hw Hr') as (d1 & _ & _ & _ & Hl).
    eapply (Hl l1); [by rewrite <- (assoc_L (++))|]. by exists n, a.
  - eapply seen_over; [apply quiet_inventory|exact Hr|done|done].
Qed.

Lemma byDecision_elem ds id dec : byDecision ds !! id = Some dec -> dec ∈ ds /\ rd_SpawnId dec = id.
Proof.
  unfold byDecision. rewrite <- (reverse_involutive ds). set (rs := reverse ds). rewrite elem_of_reverse.
  induction rs as [|x rs IH]; [by cbn|]. rewrite reverse_cons, foldl_app. cbn.
  intros [[<- <-]|[_ Hl]]%lookup_insert_Some; [split; [left|done]|].
  destruct (IH Hl). split; [by right|done].
Qed.

(** A transaction found no live episode of the generation. *)
Definition seen_unlive (l : trace) (id : string) (g : Z) : Prop :=
  exists d d' f, Did d d' f ∈ l /\ ~ live_in d' id g.

(** C35: a restarted node that reports the pods it finds, and applies the decisions it is sent then
    or later, reaps a pod it reported for one of three reasons.  A transaction of the control plane
    had found no live episode of the pod's generation; if the ledger knew that episode when the
    report arrived, it is then over for good (it need not know it: a pod of a spawn that never
    existed is reaped too).  Or the control plane had seen the spawn deleted.  Or the pod was to be
    adopted and rebuilding it failed.  A pod it did not report, or of another generation than the
    decision's, is left running.  Other handlers write meanwhile by the store's operations, and any
    statement may fail. *)
Theorem reaped_pods_are_over reportNode reqID pods d0 p d l n ds a rebuilt pod :
  ledger_wf d0 ->
  runs is_fault history (handleManagedPodsReport nodeID reportNode reqID pods, d0, []) (p, d, l) ->
  Answered (Send_decisions n ds) a ∈ l ->
  applyReadopt rebuilt pod (byDecision (md_Decisions ds) !! pod.1) = Reaped ->
  pod ∈ pods /\
  ((seen_unlive l pod.1 (i64 pod.2) /\ (known d0 pod.1 (i64 pod.2) -> over d pod.1 (i64 pod.2))) \/
   seen_deleted l pod.1 \/
   exists spec, mkDecision pod.1 pod.2 ADOPT (Some spec) ∈ md_Decisions ds /\ rebuilt spec = false).
Proof.
  intros Hwf Hr Hin Hreap. apply list_elem_of_split in Hin as (l1 & l2 & ->).
  assert (Forall (fun dec => founded d0 l1 dec /\ (rd_SpawnId dec, rd_Generation dec) ∈ pods) (md_Decisions ds)) as Hall.
  { destruct (runs_finish is_fault demo_answer (fun _ => []) history p _ _ _ Hr) as (x & d' & k & Hr').
    eapply runs_mono in Hr'; [|apply history_moves].
    pose proof (wp_report nodeID reportNode reqID pods _ _ Hwf (each_nil _)) as Hw.
    destruct (runs_wp _ _ _ _ _ _ _ _ _ Hw Hr') as (d1 & _ & _ & Hl).
    eapply (Hl l1); [by rewrite <- (assoc_L (++))|]. by exists n, a. }
  destruct (byDecision (md_Decisions ds) !! pod.1) as [[id gen v sp]|] eqn:Hdec; [|done].
  apply byDecision_elem in Hdec as [Hds Hid]. cbn in Hid. subst id.
  pose proof (proj1 (Forall_forall _ _) Hall _ Hds) as [[Hrp Had] Hpod]. cbn in *.
  destruct (Z.eqb_spec gen pod.2) as [->|]; [|done]. cbn in Hreap. split; [by destruct pod|].
  destruct v; try done.
  - destruct (Had eq_refl) as [[spec ->] _]. right. right. exists spec. split; [done|].
    by destruct (rebuilt spec).
  - destruct (Hrp eq_refl) as [(d1 & d2 & f & Hin & Hl & Hd)|(d1 & d2 & f & s & Hin & Hs)].
    + left. split; [exists d1, d2, f; split; [apply elem_of_app; by left|done]|]. intros Hkn.
      eapply seen_over; [apply quiet_report|exact Hr|done|]. exists d1, d2, f. split; [done|by apply Hd].
    + right. left. exists d1, d2, f, s. split; [apply elem_of_app; by left|done].
Qed.
End Contract.

(** ** Examples *)

(** A node reports a spawn at an episode that has been replaced, next to the live one. *)
Definition demo_twice : Tables := demo_ledger <|
  spawn_containers := {[("sp", 1) := mkContainer "n1" PhaseStopped 1 (Some 2); ("sp", 2) := mkContainer "n1" PhaseActive 2 None]} |>.
Definition demo_report : list RunningSpawn := [mkRunning "sp" 1 0 0; mkRunning "sp" 2 0 0].
Definition demo_inventory := play is_fault demo_answer (fun _ => [])
  (reconcileInventory false 0 0 0 "n1" demo_report) demo_twice [].
Definition sent (l : trace) : list (string * command) :=
  omap (fun e => match e with Answered (Send n c) _ => Some (n, c) | _ => None end) l.
Example demo_inventory_stops : sent demo_inventory.2 = [("n1", StopSpawn "sp" 1)].
Proof. vm_compute. reflexivity. Qed.
Lemma demo_twice_wf : ledger_wf demo_twice.
Proof.
  unfold demo_twice, demo_ledger. split; cbn.
  - intros id g g' c' (c & Hc & Hl) Hc'. cbn in Hc.
    apply lookup_insert_Some in Hc as [[[= <- <-] <-]|[? [[= <- <-] <-]%lookup_singleton_Some]]; [done|].
    apply lookup_insert_Some in Hc' as [[[= <- ] _]|[? [[= <-] _]%lookup_singleton_Some]]; lia.
  - intros id g c [[[= <- <-] _]|[? [[= <- <-] _]%lookup_singleton_Some]]%lookup_insert_Some; lia.
  - intros id g c [[[= <- <-] _]|[? [[= <- <-] _]%lookup_singleton_Some]]%lookup_insert_Some; by eexists.
Qed.
Lemma inventory_stops_only_orphans_witness :
  seen_dead (take 1 demo_inventory.2) "sp" 1 /\ over demo_inventory.1.2 "sp" 1.
Proof.
  apply (inventory_stops_only_orphans false 0 0 0 "n1" demo_report demo_twice (Ret demo_inventory.1.1)
    demo_inventory.1.2 (take 1 demo_inventory.2) (drop 2 demo_inventory.2) "n1" "sp" 1 true).
  - apply demo_twice_wf.
  - repeat constructor; by eexists.
  - assert (demo_inventory.2 !! 1%nat = Some (Answered (Send "n1" (StopSpawn "sp" 1)) true)) as Hl
      by (vm_compute; reflexivity).
    apply take_drop_middle in Hl. rewrite Hl.
    pose proof (play_runs is_fault demo_answer (fun _ => []) history
      (reconcileInventory false 0 0 0 "n1" demo_report) demo_twice []) as Hr.
    fold demo_inventory in Hr. by destruct demo_inventory as [[r d] l].
Defined.

(** The same two pods after a restart of the node: the old one is reaped, the live one adopted. *)
Definition demo_readopt := play is_fault demo_answer (fun _ => [])
  (handleManagedPodsReport "n1" "n1" "r1" [("sp", 1)]) demo_twice [].
Definition demo_reap : ManagedPodsDecisions := mkDecisions "r1" [mkDecision "sp" 1 REAP None].
Lemma reaped_pods_are_over_witness :
  ("sp", 1) ∈ [("sp", 1)] /\
  ((seen_unlive demo_readopt.2 "sp" 1 /\ (known demo_twice "sp" 1 -> over demo_readopt.1.2 "sp" 1)) \/ seen_deleted demo_readopt.2 "sp" \/
   exists spec, mkDecision "sp" 1 ADOPT (Some spec) ∈ md_Decisions demo_reap /\ true = false).
Proof.
  apply (reaped_pods_are_over "n1" "n1" "r1" [("sp", 1)] demo_twice (Ret demo_readopt.1.1) demo_readopt.1.2
    demo_readopt.2 "n1" demo_reap true (fun _ => true) ("sp", 1)).
  - apply demo_twice_wf.
  - pose proof (play_runs is_fault demo_answer (fun _ => []) history
      (handleManagedPodsReport "n1" "n1" "r1" [("sp", 1)]) demo_twice []) as Hr.
    fold demo_readopt in Hr. by destruct demo_readopt as [[r d] l].
  - apply (list_elem_of_lookup_2 _ 1). vm_compute. reflexivity.
  - vm_compute. reflexivity.
Defined.

(** An answer that arrives when its attempt has timed out is kept, and the next attempt takes it
    for its own: a pod listed only now is left running, and no further attempt is made. *)
Example late_answer_ends_the_next_attempt :
  let r1 := begin_attempt "r1" Report_sent newReadoptState in
  exists r2 r3, end_attempt (fun _ => true) [("a", 1)] Attempt_timed_out r1 = Some ([], r2) /\
    let r2 := deliver_decisions (mkDecisions "r1" [mkDecision "a" 1 DEFER None]) r2 in
    end_attempt (fun _ => true) [("a", 1); ("b", 1)] Attempt_answered (begin_attempt "r2" Report_sent r2)
      = Some ([(("a", 1), Left_running); (("b", 1), Left_running)], r3) /\ ro_done r3 = true.
Proof. do 2 eexists. split; [reflexivity|]. split; reflexivity. Qed.
