(* ===== verification/RevocationStore.v ===== *)
(** * The node's durable user revocations (src/internal/node/revocation_store.go)

    Pages of verified revocations are applied in one SQLite transaction and published as an
    immutable in-memory snapshot, which is what a lookup reads.  The clock is the Unix second a
    call is made at.  A statement can fail (the transaction rolls back) and a commit can report
    an error although it is durable: [apply_result] is what SQLite does with a page.  The file's
    lock, its permissions and the test seams between the steps are left out. *)

From S2P Require Import Prelude GoLib.
Open Scope Z_scope.

Record VerifiedRevokedToken := { TokenID : string; RetainUntil : Z }.

Record VerifiedUserRevocation := {
  Seq : Z;
  AccountID : string;
  FamilyID : string;
  RevokedAt : Z;
  RevokedTokens : list VerifiedRevokedToken;
  RevokeTokensIssuedBefore : Z
}.

Record userRevocationSnapshot := {
  checkpoint : Z;
  tokens : gmap string Z;
  accounts : gmap string Z
}.
#[export] Instance eta_userRevocationSnapshot : Eta userRevocationSnapshot :=
  fun s => {| checkpoint := checkpoint s; tokens := tokens s; accounts := accounts s |}.

(** The tables revocation_meta (its one row), revoked_tokens and account_cutoffs. *)
Record revocation_tables := {
  meta_checkpoint : Z;
  revoked_tokens : gmap string Z;
  account_cutoffs : gmap string Z
}.
#[export] Instance eta_revocation_tables : Eta revocation_tables :=
  fun d => {| meta_checkpoint := meta_checkpoint d; revoked_tokens := revoked_tokens d;
              account_cutoffs := account_cutoffs d |}.

Inductive revocation_error :=
| ErrStoreClosed
| ErrStorePoisoned
| ErrInvalidPage (what : string)
| ErrSql.

Record UserRevocationStore := {
  db : revocation_tables;
  snapshot : userRevocationSnapshot;
  closed : bool;
  poisoned : option revocation_error
}.
#[export] Instance eta_UserRevocationStore : Eta UserRevocationStore :=
  fun s => {| db := db s; snapshot := snapshot s; closed := closed s; poisoned := poisoned s |}.

(** ** Lookups *)

Definition Checkpoint (s : UserRevocationStore) : Z := checkpoint (snapshot s).

Definition IsRevoked_in (n : userRevocationSnapshot) (now : Z) (tokenID accountID : string)
    (issuedAt : Z) : bool :=
  match tokens n !! tokenID with Some retainUntil => now <? retainUntil | None => false end
  || match accounts n !! accountID with Some cutoff => issuedAt <? cutoff | None => false end.
Definition IsRevoked (s : UserRevocationStore) (now : Z) (tokenID accountID : string)
    (issuedAt : Z) : bool := IsRevoked_in (snapshot s) now tokenID accountID issuedAt.

(** ** Validation *)

Fixpoint valid_tokens (revokedAt : Z) (seen : gset string) (l : list VerifiedRevokedToken)
    : result revocation_error unit :=
  match l with
  | [] => Ok tt
  | t :: l =>
      if String.eqb (TokenID t) "" || (RetainUntil t <=? revokedAt)
      then Err (ErrInvalidPage "invalid revoked token")
      else if bool_decide (TokenID t ∈ seen) then Err (ErrInvalidPage "duplicate revoked token")
      else valid_tokens revokedAt ({[TokenID t]} ∪ seen) l
  end.

Definition valid_entry (previous : Z) (entry : VerifiedUserRevocation)
    : result revocation_error unit :=
  if (Seq entry <=? previous) || String.eqb (AccountID entry) "" || (RevokedAt entry <=? 0)
  then Err (ErrInvalidPage "invalid user revocation sequence or identity")
  else
    let tokens := valid_tokens (RevokedAt entry) ∅ (RevokedTokens entry) in
    if String.eqb (FamilyID entry) "" then
      if RevokeTokensIssuedBefore entry <=? 0
      then Err (ErrInvalidPage "account revocation cutoff required") else tokens
    else if negb (RevokeTokensIssuedBefore entry =? 0) || bool_decide (RevokedTokens entry = [])
    then Err (ErrInvalidPage "invalid family revocation") else tokens.

Fixpoint validateUserRevocationPage (page : list VerifiedUserRevocation) (previous : Z)
    : result revocation_error unit :=
  match page with
  | [] => Ok tt
  | entry :: page =>
      match valid_entry previous entry with
      | Err e => Err e
      | Ok _ => validateUserRevocationPage page (Seq entry)
      end
  end.

(** ** The page in memory *)

Definition zero_if_none (o : option Z) : Z := default 0 o.

Definition apply_token (now : Z) (next : userRevocationSnapshot) (t : VerifiedRevokedToken)
    : userRevocationSnapshot :=
  if (now <? RetainUntil t) && (zero_if_none (tokens next !! TokenID t) <? RetainUntil t)
  then next <| tokens ::= <[TokenID t := RetainUntil t]> |> else next.

Definition apply_entry (now : Z) (next : userRevocationSnapshot) (entry : VerifiedUserRevocation)
    : userRevocationSnapshot :=
  let next := foldl (apply_token now) next (RevokedTokens entry) in
  let next :=
    if zero_if_none (accounts next !! AccountID entry) <? RevokeTokensIssuedBefore entry
    then next <| accounts ::= <[AccountID entry := RevokeTokensIssuedBefore entry]> |>
    else next in
  next <| checkpoint := Seq entry |>.

Definition applyUserRevocationPage (current : userRevocationSnapshot)
    (page : list VerifiedUserRevocation) (now : Z) : userRevocationSnapshot :=
  foldl (apply_entry now)
    (current <| tokens ::= filter (fun kv => now < kv.2) |>) page.

(** ** The page in SQL *)

(** [INSERT ... ON CONFLICT DO UPDATE SET v = MAX(old, new)] *)
Definition upsert_max (k : string) (v : Z) (m : gmap string Z) : gmap string Z :=
  match m !! k with
  | Some old => <[k := Z.max old v]> m
  | None => <[k := v]> m
  end.

Definition sql_token (d : revocation_tables) (t : VerifiedRevokedToken) : revocation_tables :=
  d <| revoked_tokens ::= upsert_max (TokenID t) (RetainUntil t) |>.
Definition sql_entry (d : revocation_tables) (entry : VerifiedUserRevocation)
    : revocation_tables :=
  let d := foldl sql_token d (RevokedTokens entry) in
  if 0 <? RevokeTokensIssuedBefore entry
  then d <| account_cutoffs ::= upsert_max (AccountID entry) (RevokeTokensIssuedBefore entry) |>
  else d.

(** [DELETE FROM revoked_tokens WHERE retain_until <= ?] *)
Definition delete_expired (now : Z) (d : revocation_tables) : revocation_tables :=
  d <| revoked_tokens ::= filter (fun kv => now < kv.2) |>.

(** The transaction's statements. *)
Definition apply_tx (page : list VerifiedUserRevocation) (now : Z) (d : revocation_tables)
    : revocation_tables :=
  let d := foldl sql_entry d page in
  let d := match last page with
           | Some entry => d <| meta_checkpoint := Seq entry |>
           | None => d
           end in
  delete_expired now d.

(** ** The store *)

Definition loadUserRevocationSnapshot (d : revocation_tables) : userRevocationSnapshot :=
  {| checkpoint := meta_checkpoint d; tokens := revoked_tokens d; accounts := account_cutoffs d |}.

(** A statement of the transaction failed; or it was committed; or the commit reported an error,
    and is durable or not. *)
Inductive apply_result := Statement_failed | Committed | Commit_failed (durable : bool).

Definition ApplyPage (page : list VerifiedUserRevocation) (now : Z) (sql : apply_result)
    (s : UserRevocationStore) : result revocation_error unit * UserRevocationStore :=
  if closed s then (Err ErrStoreClosed, s)
  else match poisoned s with
  | Some e => (Err e, s)
  | None =>
      match validateUserRevocationPage page (Checkpoint s) with
      | Err e => (Err e, s)
      | Ok _ =>
          let candidate := applyUserRevocationPage (snapshot s) page now in
          match sql with
          | Statement_failed => (Err ErrSql, s)
          | Committed => (Ok tt, s <| db := apply_tx page now (db s) |> <| snapshot := candidate |>)
          | Commit_failed durable =>
              (Err ErrStorePoisoned,
               s <| db := if durable then apply_tx page now (db s) else db s |>
                 <| snapshot := candidate |> <| poisoned := Some ErrStorePoisoned |>)
          end
      end
  end.

Definition Close (s : UserRevocationStore) : UserRevocationStore := s <| closed := true |>.

(** [ensureUserRevocationSchema] on an empty file. *)
Definition empty_tables : revocation_tables :=
  {| meta_checkpoint := 0; revoked_tokens := ∅; account_cutoffs := ∅ |}.

(** [pruneAndLoad], and [OpenUserRevocationStore] on the tables the file holds. *)
Definition pruneAndLoad (now : Z) (d : revocation_tables)
    : revocation_tables * userRevocationSnapshot :=
  let d := delete_expired now d in (d, loadUserRevocationSnapshot d).
Definition OpenUserRevocationStore (now : Z) (d : revocation_tables) : UserRevocationStore :=
  let '(d, n) := pruneAndLoad now d in
  {| db := d; snapshot := n; closed := false; poisoned := None |}.

(** ** Runs *)

(** Pages applied (at the time they were verified, which is not after the call); a crash or a
    close, and the next start on the same file. *)
Inductive store_event :=
| Ev_apply (page : list VerifiedUserRevocation) (verifiedAt : Z) (sql : apply_result)
| Ev_close
| Ev_reopen.
Definition store_step (ev : store_event) (now : Z) (s : UserRevocationStore)
    : UserRevocationStore :=
  match ev with
  | Ev_apply page verifiedAt sql => snd (ApplyPage page verifiedAt sql s)
  | Ev_close => Close s
  | Ev_reopen => OpenUserRevocationStore now (db s)
  end.
Definition in_time (now : Z) (ev : store_event) : Prop :=
  match ev with Ev_apply _ verifiedAt _ => verifiedAt <= now | _ => True end.

(** Events at non-decreasing times, from [s] at time [t]. *)
Inductive store_run (t : Z) (s : UserRevocationStore) : Z -> UserRevocationStore -> Prop :=
| store_here : store_run t s t s
| store_stepped t1 now s1 ev : store_run t s t1 s1 -> t1 <= now -> in_time now ev ->
    store_run t s now (store_step ev now s1).

(** * Laws of the revocation store: memory against tables *)

Definition positive (m : gmap string Z) : Prop := forall k v, m !! k = Some v -> 0 < v.
Abbreviation after t := (filter (fun kv : string * Z => t < kv.2)).

Lemma lookup_after (t : Z) (m : gmap string Z) k :
  after t m !! k = match m !! k with Some v => if decide (t < v) then Some v else None | None => None end.
Proof.
  destruct (m !! k) as [v|] eqn:Hk.
  - destruct (decide (t < v)); [by apply map_lookup_filter_Some|].
    apply map_lookup_filter_None. right. intros v' Hv'. by simplify_eq.
  - apply map_lookup_filter_None. by left.
Qed.

(** *** One token, one cutoff *)

Lemma positive_upsert k v m : positive m -> 0 < v -> positive (upsert_max k v m).
Proof.
  intros Hm Hv k' v'. unfold upsert_max. destruct (m !! k) as [old|] eqn:Hk;
    intros [[_ <-]|[_ Hk']]%lookup_insert_Some; eauto. apply Hm in Hk. lia.
Qed.

Lemma lookup_upsert k v m k' :
  upsert_max k v m !! k' =
    if decide (k = k') then Some (match m !! k with Some old => Z.max old v | None => v end)
    else m !! k'.
Proof.
  unfold upsert_max. destruct (decide (k = k')) as [<-|Hne];
    destruct (m !! k); rewrite ?lookup_insert_eq, ?lookup_insert_ne by done; done.
Qed.

(** The in-memory update of a token follows the table's, pruned. *)
Lemma apply_token_after now (n : userRevocationSnapshot) m t :
  0 < RetainUntil t -> tokens n = after now m ->
  tokens (apply_token now n t) = after now (upsert_max (TokenID t) (RetainUntil t) m).
Proof.
  intros Hpos Hn. apply map_eq. intros k. rewrite lookup_after, lookup_upsert.
  unfold apply_token, zero_if_none. rewrite Hn, lookup_after.
  destruct (Z.ltb_spec now (RetainUntil t)) as [Hlive|Hlive]; cbn [andb].
  - set (o := match m !! TokenID t with Some v => _ | None => _ end).
    destruct (Z.ltb_spec (default 0 o) (RetainUntil t)) as [Hlt|Hlt]; cbn;
      rewrite ?lookup_insert, ?Hn, ?lookup_after; destruct (decide (TokenID t = k)) as [<-|];
      try done; unfold o in *; destruct (m !! TokenID t) as [old|]; repeat case_decide; cbn in *; try lia; f_equal; lia.
  - cbn. rewrite Hn, lookup_after. destruct (decide (TokenID t = k)) as [<-|]; [|done].
    destruct (m !! TokenID t) as [old|]; repeat case_decide; try lia; try done. f_equal; lia.
Qed.
Lemma apply_token_other now n t :
  accounts (apply_token now n t) = accounts n /\ checkpoint (apply_token now n t) = checkpoint n.
Proof. unfold apply_token. by case_match. Qed.

(** *** Entries and pages *)

(** What validation guarantees of an entry. *)
Definition entry_ok (e : VerifiedUserRevocation) : Prop :=
  0 <= RevokeTokensIssuedBefore e /\ Forall (fun t => 0 < RetainUntil t) (RevokedTokens e).

Lemma valid_tokens_ok at_ seen l :
  0 < at_ -> valid_tokens at_ seen l = Ok tt -> Forall (fun t => 0 < RetainUntil t) l.
Proof.
  intros Hat. revert seen. induction l as [|t l IH]; intros seen; cbn; [constructor|].
  destruct (_ || _) eqn:Hb; [done|]. case_bool_decide; [done|]. intros Hv. brefl.
  constructor; [lia|by eapply IH].
Qed.

Lemma valid_entry_ok previous e :
  valid_entry previous e = Ok tt -> entry_ok e /\ previous < Seq e.
Proof.
  unfold valid_entry. destruct (_ || _ || _) eqn:Hb; [done|]. brefl. destruct Hb as [[Hs _] Hat].
  destruct (String.eqb (FamilyID e) "").
  - destruct (Z.leb_spec (RevokeTokensIssuedBefore e) 0); [done|].
    intros Hv%valid_tokens_ok; [|lia]. split; [split; [lia|done]|lia].
  - destruct (_ || _) eqn:Hc; [done|]. brefl. destruct Hc as [Hc _].
    intros Hv%valid_tokens_ok; [|lia]. split; [split; [lia|done]|lia].
Qed.

Lemma valid_page_ok page previous :
  validateUserRevocationPage page previous = Ok tt ->
  Forall entry_ok page /\ Forall (fun e => previous < Seq e) page /\
  (forall e, last page = Some e -> previous < Seq e).
Proof.
  revert previous. induction page as [|e page IH]; intros previous; cbn [validateUserRevocationPage].
  { intros _. split_and!; constructor || done. }
  destruct (valid_entry previous e) as [|[]] eqn:He; [done|]. apply valid_entry_ok in He as [Hok Hlt].
  intros (H1 & H2 & H3)%IH. split_and!; [by constructor|constructor; [done|]|].
  - eapply Forall_impl; [exact H2|]. cbn. lia.
  - intros x. destruct page as [|y page]; [by intros [= <-]|]. intros Hx. specialize (H3 x Hx). lia.
Qed.

(** Memory [n] is the tables [d], pruned at [now]. *)
Definition mirrors (now : Z) (n : userRevocationSnapshot) (d : revocation_tables) : Prop :=
  tokens n = after now (revoked_tokens d) /\ accounts n = account_cutoffs d /\
  positive (account_cutoffs d).

Lemma apply_tokens_mirror now l n d :
  Forall (fun t => 0 < RetainUntil t) l -> mirrors now n d ->
  mirrors now (foldl (apply_token now) n l) (foldl sql_token d l) /\
  account_cutoffs (foldl sql_token d l) = account_cutoffs d /\
  meta_checkpoint (foldl sql_token d l) = meta_checkpoint d.
Proof.
  intros Hl. revert n d. induction Hl as [|t l Ht _ IH]; intros n d Hm; [done|]. cbn.
  destruct (IH (apply_token now n t) (sql_token d t)) as (H1 & H2 & H3); [|done].
  destruct Hm as (Ht' & Ha & Hp). split_and!; [by apply apply_token_after| |done].
  by rewrite (proj1 (apply_token_other now n t)).
Qed.

(** The cutoff written in memory is the one the table's upsert leaves. *)
Lemma cutoff_mirror k v m :
  positive m -> 0 <= v ->
  (if zero_if_none (m !! k) <? v then <[k := v]> m else m) =
  (if 0 <? v then upsert_max k v m else m).
Proof.
  intros Hm Hv. unfold upsert_max, zero_if_none. destruct (m !! k) as [old|] eqn:Ho; cbn [from_option]; unfold id.
  - pose proof (Hm _ _ Ho). destruct (Z.ltb_spec old v), (Z.ltb_spec 0 v); try lia; try done.
    + f_equal. lia.
    + rewrite Z.max_l by lia. by rewrite insert_id.
  - done.
Qed.

Lemma apply_entry_mirror now n d e :
  entry_ok e -> mirrors now n d -> mirrors now (apply_entry now n e) (sql_entry d e).
Proof.
  intros [Hc Hl] Hm. unfold apply_entry, sql_entry.
  destruct (apply_tokens_mirror now (RevokedTokens e) n d Hl Hm) as ((H1 & H2 & H3) & _ & _).
  set (n1 := foldl (apply_token now) n _) in *. set (d1 := foldl sql_token d _) in *.
  pose proof (cutoff_mirror (AccountID e) _ _ H3 Hc) as Hcut. rewrite H2.
  destruct (Z.ltb_spec 0 (RevokeTokensIssuedBefore e)) as [Hpos|Hpos].
  - split_and!; [by case_match| |by apply positive_upsert].
    cbn. rewrite <- Hcut. by case_match; cbn; rewrite ?H2.
  - split_and!; [by case_match| |done]. rewrite <- Hcut at 2. by case_match; cbn; rewrite ?H2.
Qed.

Lemma apply_entries_mirror now page n d :
  Forall entry_ok page -> mirrors now n d ->
  mirrors now (foldl (apply_entry now) n page) (foldl sql_entry d page).
Proof.
  intros Hp. revert n d. induction Hp as [|e page He _ IH]; intros n d Hm; [done|].
  cbn. by apply IH, apply_entry_mirror.
Qed.

Lemma checkpoint_page now page n :
  checkpoint (foldl (apply_entry now) n page) =
    match last page with Some e => Seq e | None => checkpoint n end.
Proof.
  revert n. induction page as [|e page IH]; intros n; [done|]. cbn [foldl]. rewrite IH.
  destruct page as [|x page]; [done|]. cbn [last]. by destruct (last (x :: page)) eqn:Hl; [|by apply last_None in Hl].
Qed.

Lemma after_after t (m : gmap string Z) : after t (after t m) = after t m.
Proof. apply map_eq. intros k. rewrite !lookup_after. destruct (m !! k); repeat case_decide; done. Qed.

(** A store whose memory is its tables. *)
Definition in_sync (s : UserRevocationStore) : Prop :=
  snapshot s = loadUserRevocationSnapshot (db s) /\ positive (account_cutoffs (db s)).

(** The page applied in memory is the page applied in SQL. *)
Lemma apply_page_sync page now n d :
  n = loadUserRevocationSnapshot d -> positive (account_cutoffs d) -> Forall entry_ok page ->
  applyUserRevocationPage n page now = loadUserRevocationSnapshot (apply_tx page now d) /\
  positive (account_cutoffs (apply_tx page now d)).
Proof.
  intros -> Hp Hpage. unfold applyUserRevocationPage, apply_tx.
  set (n0 := set_field tokens _ _).
  assert (mirrors now n0 d) as Hm by done.
  pose proof (apply_entries_mirror now page n0 d Hpage Hm) as (H1 & H2 & H3).
  pose proof (checkpoint_page now page n0) as Hc.
  set (n1 := foldl (apply_entry now) n0 page) in *. set (d1 := foldl sql_entry d page) in *.
  assert (meta_checkpoint d1 = meta_checkpoint d) as Hd.
  { subst d1. clear. revert d. induction page as [|e page IH]; intros d; [done|]. cbn. rewrite IH.
    unfold sql_entry. assert (forall l d, meta_checkpoint (foldl sql_token d l) = meta_checkpoint d) as Hl.
    { clear. induction l as [|t l IHl]; intros d; [done|]. cbn. by rewrite IHl. }
    case_match; cbn; by rewrite Hl. }
  destruct n1 as [c1 t1 a1]. cbn in *. subst t1 a1. unfold loadUserRevocationSnapshot, delete_expired.
  destruct (last page); cbn; (split; [f_equal; congruence|done]).
Qed.

(** *** What a later lookup still finds *)

(** At time [t] and after, a lookup in [n] finds what a lookup in [n0] found. *)
Definition covers (t : Z) (n0 n : userRevocationSnapshot) : Prop :=
  (forall k v, tokens n0 !! k = Some v -> t < v -> exists v', tokens n !! k = Some v' /\ v <= v') /\
  (forall k c, accounts n0 !! k = Some c -> exists c', accounts n !! k = Some c' /\ c <= c').

Lemma covers_refl t n : covers t n n.
Proof. split; eauto with lia. Qed.
Lemma covers_trans t t' n1 n2 n3 : covers t n1 n2 -> covers t' n2 n3 -> t <= t' -> covers t' n1 n3.
Proof.
  intros [Ht1 Ha1] [Ht2 Ha2] Hle. split.
  - intros k v Hv Hlt. destruct (Ht1 _ _ Hv) as (v' & Hv' & ?); [lia|]. destruct (Ht2 _ _ Hv') as (v'' & ? & ?); [lia|].
    exists v''. split; [done|lia].
  - intros k c (c' & Hc' & ?)%Ha1. destruct (Ha2 _ _ Hc') as (c'' & ? & ?). exists c''. split; [done|lia].
Qed.
Lemma covers_revoked t n0 n now tok acct iat :
  covers t n0 n -> t <= now -> IsRevoked_in n0 now tok acct iat = true ->
  IsRevoked_in n now tok acct iat = true.
Proof.
  intros [Ht Ha] Hle. unfold IsRevoked_in. rewrite !orb_true_iff. intros [H|H]; [left|right].
  - destruct (tokens n0 !! tok) as [v|] eqn:Hv; [|done]. brefl.
    destruct (Ht _ _ Hv) as (v' & -> & ?); [lia|]. apply Z.ltb_lt. lia.
  - destruct (accounts n0 !! acct) as [c|] eqn:Hc; [|done]. brefl.
    destruct (Ha _ _ Hc) as (c' & -> & ?). apply Z.ltb_lt. lia.
Qed.

Lemma covers_prune t n : covers t n (n <| tokens ::= after t |>).
Proof.
  split; cbn; [|eauto with lia]. intros k v Hk Hlt. exists v. split; [|lia].
  apply map_lookup_filter_Some. by split.
Qed.

Lemma covers_apply_token now t' n t : covers t' n (apply_token now n t).
Proof.
  unfold apply_token. destruct (_ && _) eqn:Hb; [|apply covers_refl]. brefl. destruct Hb as [_ Hlt].
  split; cbn; [|eauto with lia]. intros k v Hk _. rewrite lookup_insert. case_decide as Hd; [|eauto with lia].
  subst k. rewrite Hk in Hlt. unfold zero_if_none in Hlt. cbn [from_option] in Hlt. unfold id in Hlt.
  eexists. split; [done|]. lia.
Qed.
Lemma covers_apply_tokens now t' l n : covers t' n (foldl (apply_token now) n l).
Proof.
  revert n. induction l as [|t l IH]; intros n; [apply covers_refl|].
  eapply covers_trans; [apply covers_apply_token|apply IH|done].
Qed.
Lemma covers_apply_entry now t' n e : covers t' n (apply_entry now n e).
Proof.
  unfold apply_entry. set (n1 := foldl _ n _).
  eapply covers_trans; [exact (covers_apply_tokens now t' (RevokedTokens e) n)| |done]. fold n1.
  destruct (Z.ltb_spec (zero_if_none (accounts n1 !! AccountID e)) (RevokeTokensIssuedBefore e)) as [Hlt|_];
    [|split; cbn; eauto with lia].
  split; cbn; [eauto with lia|]. intros k c Hk. rewrite lookup_insert. case_decide as Hd; [|eauto with lia].
  subst k. rewrite Hk in Hlt. unfold zero_if_none in Hlt. cbn [from_option] in Hlt. unfold id in Hlt.
  eexists. split; [done|]. lia.
Qed.
Lemma covers_apply_entries now t' page n : covers t' n (foldl (apply_entry now) n page).
Proof.
  revert n. induction page as [|e page IH]; intros n; [apply covers_refl|].
  eapply covers_trans; [apply covers_apply_entry|apply IH|done].
Qed.
Lemma covers_page page now n : covers now n (applyUserRevocationPage n page now).
Proof.
  eapply covers_trans; [apply covers_prune|apply covers_apply_entries|done].
Qed.

(** *** The store's invariant *)

(** The tables' cutoffs are positive; unless the store is poisoned, memory is the tables; and in
    every case memory finds what the tables hold. *)
Definition store_inv (t : Z) (s : UserRevocationStore) : Prop :=
  positive (account_cutoffs (db s)) /\
  (poisoned s = None -> snapshot s = loadUserRevocationSnapshot (db s)) /\
  covers t (loadUserRevocationSnapshot (db s)) (snapshot s) /\
  meta_checkpoint (db s) <= Checkpoint s.

Lemma store_inv_sync t s :
  positive (account_cutoffs (db s)) -> snapshot s = loadUserRevocationSnapshot (db s) ->
  store_inv t s.
Proof. intros Hp Hs. unfold store_inv, Checkpoint. rewrite Hs. split_and!; try done. apply covers_refl. Qed.

Lemma open_inv t now d : positive (account_cutoffs d) -> store_inv t (OpenUserRevocationStore now d).
Proof. intros Hp. by apply store_inv_sync. Qed.

Lemma covers_later t t' n0 n : covers t n0 n -> t <= t' -> covers t' n0 n.
Proof. intros [Ht Ha] Hle. split; [|done]. intros k v Hk Hlt. apply Ht; [done|lia]. Qed.

Lemma store_inv_later t t' s : store_inv t s -> t <= t' -> store_inv t' s.
Proof.
  intros (Hp & Hs & Hc & Hm) Hle. split; [done|]. split; [done|]. split; [by eapply covers_later|done].
Qed.

(** The checkpoint a valid page leaves. *)
Lemma checkpoint_after page now n :
  validateUserRevocationPage page (checkpoint n) = Ok tt ->
  checkpoint n <= checkpoint (applyUserRevocationPage n page now) /\
  Forall (fun e => Seq e <= checkpoint (applyUserRevocationPage n page now)) page.
Proof.
  unfold applyUserRevocationPage. rewrite checkpoint_page. cbn [checkpoint set_field]. intros Hv.
  change (checkpoint (set_field tokens _ n)) with (checkpoint n).
  generalize dependent (checkpoint n). clear. induction page as [|e page IH]; intros c; cbn.
  { by split. }
  destruct (valid_entry c e) as [|[]] eqn:He; [done|]. apply valid_entry_ok in He as [_ Hlt].
  intros Hv. specialize (IH _ Hv) as [H1 H2]. destruct page as [|x page].
  { cbn. split; [lia|by constructor; [lia|]]. }
  change (last (e :: x :: page)) with (last (x :: page)).
  destruct (last (x :: page)) eqn:Hl; [|by apply last_None in Hl]. split; [lia|]. by constructor.
Qed.

(** One call, on a store in its invariant: refused and unchanged, or the page is applied. *)
Lemma apply_cases page now sql s t r s' :
  ApplyPage page now sql s = (r, s') -> store_inv t s ->
  (s' = s /\ r <> Ok tt) \/
  (poisoned s = None /\ (r = Ok tt \/ r = Err ErrStorePoisoned) /\ Forall entry_ok page /\
   validateUserRevocationPage page (checkpoint (snapshot s)) = Ok tt /\
   snapshot s' = applyUserRevocationPage (snapshot s) page now /\
   ((db s' = db s /\ poisoned s' <> None /\ r <> Ok tt) \/
    (db s' = apply_tx page now (db s) /\ snapshot s' = loadUserRevocationSnapshot (db s') /\
     positive (account_cutoffs (db s'))))).
Proof.
  intros Hap (Hp & Hs & _). unfold ApplyPage in Hap.
  destruct (closed s); [left; by simplify_eq|]. destruct (poisoned s) as [e|] eqn:Hpo; [left; by simplify_eq|].
  destruct (validateUserRevocationPage page (Checkpoint s)) as [|[]] eqn:Hv; [left; by simplify_eq|].
  specialize (Hs eq_refl). pose proof (valid_page_ok _ _ Hv) as (Hok & _).
  destruct (apply_page_sync page now _ _ Hs Hp Hok) as [H1 H2].
  destruct sql as [| |[]]; simplify_eq; [left; by split|right..]; cbn; split_and!; try done; auto 6.
Qed.

(** *** Steps *)

(** What the tables gain by a page they keep covering. *)
Lemma covers_tx page now d :
  positive (account_cutoffs d) -> Forall entry_ok page ->
  covers now (loadUserRevocationSnapshot d) (loadUserRevocationSnapshot (apply_tx page now d)).
Proof.
  intros Hp Hok. destruct (apply_page_sync page now _ d eq_refl Hp Hok) as [<- _]. apply covers_page.
Qed.

Lemma covers_open now d :
  covers now (loadUserRevocationSnapshot d) (loadUserRevocationSnapshot (delete_expired now d)).
Proof. apply covers_prune. Qed.

(** A step keeps the invariant, and both memory and tables keep covering what the tables held;
    the tables' checkpoint does not go back. *)
Lemma step_inv ev now t s :
  store_inv t s -> t <= now -> in_time now ev ->
  let s' := store_step ev now s in
  store_inv now s' /\
  covers now (loadUserRevocationSnapshot (db s)) (loadUserRevocationSnapshot (db s')) /\
  covers now (loadUserRevocationSnapshot (db s)) (snapshot s') /\
  meta_checkpoint (db s) <= meta_checkpoint (db s').
Proof.
  intros Hinv Hle Hin. pose proof Hinv as (Hp & Hs & Hc & Hm). destruct ev as [page at_ sql| |]; cbn [store_step].
  - cbn in Hin. destruct (ApplyPage page at_ sql s) as [r s'] eqn:Ha. cbn [snd].
    destruct (apply_cases _ _ _ _ _ _ _ Ha Hinv)
      as [[-> _]|(Hpo & _ & Hok & Hv & Hsn & [(Hdb & Hbad & _)|(Hdb & Hsync & Hpos)])].
    + split; [by eapply store_inv_later|]. split; [apply covers_refl|].
      split; [by eapply covers_later|done].
    + specialize (Hs Hpo). destruct (checkpoint_after page at_ _ Hv) as [Hck _].
      pose proof (covers_later _ now _ _ (covers_page page at_ (snapshot s)) Hin) as Hcov.
      rewrite <- Hsn in Hcov, Hck. rewrite Hs in Hcov, Hck. rewrite Hdb.
      split; [|split; [apply covers_refl|done]].
      unfold store_inv, Checkpoint. rewrite Hdb. split; [done|]. split; [by intros H|done].
    + specialize (Hs Hpo). destruct (checkpoint_after page at_ _ Hv) as [Hck _].
      pose proof (covers_later _ now _ _ (covers_page page at_ (snapshot s)) Hin) as Hcov.
      rewrite <- Hsn in Hcov, Hck. rewrite Hs in Hcov, Hck.
      split; [by apply store_inv_sync|]. rewrite Hsync in Hcov, Hck |- *. done.
  - split; [by apply (store_inv_later t)|]. split; [apply covers_refl|].
    split; [by eapply covers_later|done].
  - pose proof (covers_open now (db s)) as Hcov.
    split; [by apply open_inv|]. split; [exact Hcov|]. split; [exact Hcov|done].
Qed.

Lemma store_run_inv t s now s' : store_run t s now s' -> store_inv t s -> store_inv now s' /\ t <= now.
Proof.
  induction 1 as [|t1 now s1 ev _ IH Hle Hin]; intros H0; [done|]. destruct (IH H0) as [H1 ?].
  split; [by eapply step_inv|lia].
Qed.

(** What the tables held at [t] is still found at any later point, in memory and in the tables. *)
Lemma store_run_covers t s now s' :
  store_run t s now s' -> store_inv t s ->
  covers now (loadUserRevocationSnapshot (db s)) (loadUserRevocationSnapshot (db s')) /\
  covers now (loadUserRevocationSnapshot (db s)) (snapshot s') /\
  meta_checkpoint (db s) <= meta_checkpoint (db s').
Proof.
  induction 1 as [|t1 now s1 ev Hr IH Hle Hin]; intros H0.
  { destruct H0 as (_ & _ & H2 & _). split_and!; [apply covers_refl|done|done]. }
  destruct (IH H0) as (H1 & _ & H3). destruct (store_run_inv _ _ _ _ Hr H0) as [Hinv _].
  destruct (step_inv ev now t1 s1 Hinv Hle Hin) as (_ & Hc1 & Hc2 & Hm).
  pose proof (covers_later _ now _ _ H1 Hle) as H1'. split_and!; [| |lia].
  - by eapply covers_trans.
  - by eapply covers_trans.
Qed.

(** *** What a committed page leaves in the tables *)

(** [n] holds what the entry [e] revokes, at [t] and after. *)
Definition carries (t : Z) (n : userRevocationSnapshot) (e : VerifiedUserRevocation) : Prop :=
  (forall tok, tok ∈ RevokedTokens e -> t < RetainUntil tok ->
    exists v, tokens n !! TokenID tok = Some v /\ RetainUntil tok <= v) /\
  (0 < RevokeTokensIssuedBefore e ->
    exists c, accounts n !! AccountID e = Some c /\ RevokeTokensIssuedBefore e <= c).

Lemma carries_covers t t' n n' e :
  carries t n e -> covers t' n n' -> t <= t' -> carries t' n' e.
Proof.
  intros [Ht Ha] [Hc1 Hc2] Hle. split.
  - intros tok Htok Hlt. destruct (Ht tok Htok) as (v & Hv & ?); [lia|].
    destruct (Hc1 _ _ Hv) as (v' & ? & ?); [lia|]. exists v'. split; [done|lia].
  - intros (c & Hc & ?)%Ha. destruct (Hc2 _ _ Hc) as (c' & ? & ?). exists c'. split; [done|lia].
Qed.

Lemma apply_token_carried now n tok :
  0 < RetainUntil tok -> now < RetainUntil tok ->
  exists v, tokens (apply_token now n tok) !! TokenID tok = Some v /\ RetainUntil tok <= v.
Proof.
  intros Hpos Hlt. unfold apply_token, zero_if_none. rewrite (proj2 (Z.ltb_lt _ _) Hlt). cbn [andb].
  destruct (tokens n !! TokenID tok) as [v|] eqn:Hv; cbn [from_option]; unfold id.
  - destruct (Z.ltb_spec v (RetainUntil tok)); [|by exists v].
    eexists. cbn. rewrite lookup_insert_eq. split; [done|lia].
  - rewrite (proj2 (Z.ltb_lt _ _) Hpos). eexists. cbn. rewrite lookup_insert_eq. split; [done|lia].
Qed.

Lemma apply_entry_carried now n e : entry_ok e -> carries now (apply_entry now n e) e.
Proof.
  intros [_ Hl]. rewrite Forall_forall in Hl. split.
  - intros tok Htok Hlt. pose proof (Hl tok Htok) as Hpos.
    apply list_elem_of_split in Htok as (l1 & l2 & Hsplit).
    destruct (apply_token_carried now (foldl (apply_token now) n l1) tok Hpos Hlt) as (v & Hv & Hge).
    destruct (covers_apply_tokens now now l2 (apply_token now (foldl (apply_token now) n l1) tok))
      as [Hc _]. destruct (Hc _ _ Hv) as (v' & Hv' & ?); [lia|].
    exists v'. split; [|lia]. rewrite <- Hv'. unfold apply_entry. rewrite Hsplit, foldl_app. by case_match.
  - intros Hpos. unfold apply_entry, zero_if_none. set (n1 := foldl _ n _).
    destruct (accounts n1 !! AccountID e) as [c|] eqn:Hc; cbn [from_option]; unfold id.
    + destruct (Z.ltb_spec c (RevokeTokensIssuedBefore e)); [|by exists c].
      eexists. cbn. rewrite lookup_insert_eq. split; [done|lia].
    + rewrite (proj2 (Z.ltb_lt _ _) Hpos). eexists. cbn. rewrite lookup_insert_eq. split; [done|lia].
Qed.

Lemma page_carried now n page e :
  Forall entry_ok page -> e ∈ page -> carries now (applyUserRevocationPage n page now) e.
Proof.
  intros Hok He. rewrite Forall_forall in Hok. pose proof (Hok e He) as Hoke.
  apply list_elem_of_split in He as (p1 & p2 & ->). unfold applyUserRevocationPage.
  rewrite foldl_app. cbn [foldl].
  eapply carries_covers; [by apply apply_entry_carried|apply covers_apply_entries|done].
Qed.

Lemma carries_revoked t n e tok now acct iat :
  carries t n e -> tok ∈ RevokedTokens e -> t <= now < RetainUntil tok ->
  IsRevoked_in n now (TokenID tok) acct iat = true.
Proof.
  intros [Ht _] Htok Hlt. destruct (Ht tok Htok) as (v & Hv & ?); [lia|].
  unfold IsRevoked_in. rewrite Hv. apply orb_true_iff. left. apply Z.ltb_lt. lia.
Qed.
Lemma carries_cutoff t n e now tok iat :
  carries t n e -> iat < RevokeTokensIssuedBefore e -> 0 < RevokeTokensIssuedBefore e ->
  IsRevoked_in n now tok (AccountID e) iat = true.
Proof.
  intros [_ Ha] Hlt Hpos. destruct (Ha Hpos) as (c & Hc & ?).
  unfold IsRevoked_in. rewrite Hc. apply orb_true_iff. right. apply Z.ltb_lt. lia.
Qed.
