(* ===== verification/SessionAuth.v ===== *)
(** * Live session authorisations on a node (src/internal/node/sessionauth.go)

    One record per attached client: the token it came with, its expiry, the attachment it
    belongs to.  Every method holds the registry's mutex, except for the close functions, which
    are called after it; they are identified by numbers here, and [closing] lists the calls.
    Records are objects (an expiry timer only removes the record it was armed for), so each has
    an identity, [live].  Timers fire at any time after their deadline, also one that was stopped
    too late: [expire] compares identities.  The clock and the revocation lookup are arguments. *)

From S2P Require Import Prelude GoLib RevocationStore.
Open Scope Z_scope.

Record sessionAuthKey := mkKey { key_spawnID : string; key_sessionID : string; key_clientID : string }.
#[export] Instance sessionAuthKey_eq_dec : EqDecision sessionAuthKey.
Proof. solve_decision. Defined.
#[export] Program Instance sessionAuthKey_countable : Countable sessionAuthKey :=
  inj_countable' (fun k => (key_spawnID k, key_sessionID k, key_clientID k))
    (fun '(a, b, c) => mkKey a b c) _.
Next Obligation. by intros []. Qed.

Record sessionAuthRecord := {
  accountID : string;
  tokenID : string;
  issuedAt : Z;
  expiresAt : Z;
  sessionKeyHash : bytes;
  generation : Z;
  nodeID : string;
  attachmentID : string;
  attachmentSequence : Z
}.
#[export] Instance eta_sessionAuthRecord : Eta sessionAuthRecord :=
  fun r => {| accountID := accountID r; tokenID := tokenID r; issuedAt := issuedAt r;
              expiresAt := expiresAt r; sessionKeyHash := sessionKeyHash r;
              generation := generation r; nodeID := nodeID r; attachmentID := attachmentID r;
              attachmentSequence := attachmentSequence r |}.

(** [liveSessionAuth]: its identity, the record, the close function. *)
Record liveSessionAuth := { live : nat; record : sessionAuthRecord; closeFn : nat }.

Record sessionAuthRegistry := {
  records : gmap sessionAuthKey liveSessionAuth;
  (** the next fresh identity *)
  next_live : nat;
  (** armed timers: what they expire, and when *)
  timers : gmap nat (sessionAuthKey * Z);
  (** close functions called, with the reason, oldest first *)
  closing : list (nat * string)
}.
#[export] Instance eta_sessionAuthRegistry : Eta sessionAuthRegistry :=
  fun r => {| records := records r; next_live := next_live r; timers := timers r;
              closing := closing r |}.

Definition newSessionAuthRegistry : sessionAuthRegistry :=
  {| records := ∅; next_live := 0; timers := ∅; closing := [] |}.

(** [r.revocations.IsRevoked], false without a lookup. *)
Definition lookup_revoked := string -> string -> Z -> bool.
Definition revoked (lk : lookup_revoked) (r : sessionAuthRecord) : bool :=
  lk (tokenID r) (accountID r) (issuedAt r).

(** [removeLocked]: the registry without the record, and its close function. *)
Definition removeLocked (key : sessionAuthKey) (r : sessionAuthRegistry)
    : sessionAuthRegistry * option nat :=
  match records r !! key with
  | None => (r, None)
  | Some current =>
      (r <| records ::= delete key |> <| timers ::= delete (live current) |>,
       Some (closeFn current))
  end.

Definition call_close (f : option nat) (reason : string) (r : sessionAuthRegistry)
    : sessionAuthRegistry :=
  match f with Some f => r <| closing ::= (fun l => l ++ [(f, reason)]) |> | None => r end.

(** A new record in place, with its timer. *)
Definition install (key : sessionAuthKey) (rec : sessionAuthRecord) (f : nat)
    (r : sessionAuthRegistry) : sessionAuthRegistry :=
  let n := next_live r in
  r <| records ::= <[key := {| live := n; record := rec; closeFn := f |}]> |>
    <| next_live ::= S |>
    <| timers ::= <[n := (key, expiresAt rec)]> |>.

Definition stop_timer (n : nat) (r : sessionAuthRegistry) : sessionAuthRegistry :=
  r <| timers ::= delete n |>.

Definition registerRecord (lk : lookup_revoked) (key : sessionAuthKey) (rec : sessionAuthRecord)
    (f : nat) (requireNewer : bool) (r : sessionAuthRegistry) : sessionAuthRegistry * bool :=
  if revoked lk rec then (r, false)
  else
    match records r !! key with
    | Some old =>
        if requireNewer && (attachmentSequence rec <=? attachmentSequence (record old))
        then (r, false)
        else (install key rec f (stop_timer (live old) r), true)
    | None => (install key rec f r, true)
    end.

Definition register (lk : lookup_revoked) key rec f r : sessionAuthRegistry :=
  fst (registerRecord lk key rec f false r).
Definition registerIfNewer (lk : lookup_revoked) key rec f r : sessionAuthRegistry * bool :=
  registerRecord lk key rec f true r.

Definition acceptsOpen (key : sessionAuthKey) (seq : Z) (r : sessionAuthRegistry) : bool :=
  match records r !! key with
  | None => true
  | Some current => attachmentSequence (record current) <? seq
  end.

(** [bindAttachment]: the registry, and whether [bind] was called. *)
Definition bindAttachment (lk : lookup_revoked) (now : Z) (key : sessionAuthKey)
    (attachment : string) (r : sessionAuthRegistry) : sessionAuthRegistry * bool :=
  match records r !! key with
  | None => (r, false)
  | Some current =>
      if String.eqb attachment "" || negb (String.eqb (attachmentID (record current)) attachment)
      then (r, false)
      else if negb (now <? expiresAt (record current)) || revoked lk (record current)
      then (fst (removeLocked key r), false)
      else (r, true)
  end.

Definition reauth_valid (lk : lookup_revoked) (now : Z) (cur next : sessionAuthRecord)
    (liveOwner : string) : bool :=
  (now <? expiresAt cur) && (now <? expiresAt next) && negb (revoked lk next)
  && String.eqb (accountID cur) (accountID next) && String.eqb (accountID next) liveOwner
  && bool_decide (sessionKeyHash cur = sessionKeyHash next)
  && (generation cur =? generation next) && String.eqb (nodeID cur) (nodeID next)
  && String.eqb (attachmentID cur) (attachmentID next).

(** [replace]: the answer is [(replaced, found)]. *)
Definition replace (lk : lookup_revoked) (now : Z) (key : sessionAuthKey)
    (next : sessionAuthRecord) (liveOwner : string) (r : sessionAuthRegistry)
    : sessionAuthRegistry * (bool * bool) :=
  match records r !! key with
  | Some current =>
      if reauth_valid lk now (record current) next liveOwner
      then
        let next := next <| attachmentSequence := attachmentSequence (record current) |> in
        (install key next (closeFn current) (stop_timer (live current) r), (true, true))
      else
        let '(r, f) := removeLocked key r in
        (call_close f "session reauthentication rejected" r, (false, true))
  | None => (r, (false, false))
  end.

(** What a batch of revocations matches. *)
Definition batch_tokens (batch : list VerifiedUserRevocation) : gset string :=
  list_to_set (flat_map (fun e => map TokenID (RevokedTokens e)) batch).
(** [accountCutoffs]: the largest cutoff of each account, above 0. *)
Definition batch_cutoffs (batch : list VerifiedUserRevocation) : gmap string Z :=
  foldl (fun m e => if zero_if_none (m !! AccountID e) <? RevokeTokensIssuedBefore e
                    then <[AccountID e := RevokeTokensIssuedBefore e]> m else m) ∅ batch.
Definition batch_matches (batch : list VerifiedUserRevocation) (r : sessionAuthRecord) : bool :=
  let cutoff := zero_if_none (batch_cutoffs batch !! accountID r) in
  bool_decide (tokenID r ∈ batch_tokens batch) || ((0 <? cutoff) && (issuedAt r <? cutoff)).

(** [revoke]: the map's order is that of [map_to_list]. *)
Definition revoke (batch : list VerifiedUserRevocation) (r : sessionAuthRegistry)
    : sessionAuthRegistry :=
  let hit := filter (fun kv => batch_matches batch (record kv.2) = true) (records r) in
  r <| records ::= filter (fun kv => batch_matches batch (record kv.2) <> true) |>
    <| timers ::= (fun t => foldr delete t (map (fun kv => live kv.2) (map_to_list hit))) |>
    <| closing ::= (fun l => l ++ map (fun kv => (closeFn kv.2, "node authorization revoked"))
                                    (map_to_list hit)) |>.

Definition close (key : sessionAuthKey) (reason : string) (r : sessionAuthRegistry)
    : sessionAuthRegistry := let '(r, f) := removeLocked key r in call_close f reason r.

Definition remove (key : sessionAuthKey) (r : sessionAuthRegistry) : sessionAuthRegistry :=
  fst (removeLocked key r).

Definition is_attachment (attachment : string) (current : liveSessionAuth) : bool :=
  negb (String.eqb attachment "") && String.eqb (attachmentID (record current)) attachment.

Definition removeIfAttachment (key : sessionAuthKey) (attachment : string)
    (r : sessionAuthRegistry) : sessionAuthRegistry * bool :=
  match records r !! key with
  | None => (r, false)
  | Some current => if is_attachment attachment current then (remove key r, true) else (r, false)
  end.

(** [closeAttachment]: the registry, and whether [detach] was called. *)
Definition closeAttachment (key : sessionAuthKey) (attachment : string) (r : sessionAuthRegistry)
    : sessionAuthRegistry * bool :=
  match records r !! key with
  | None => (r, true)
  | Some current => if is_attachment attachment current then (remove key r, true) else (r, false)
  end.

(** Removing every record whose key satisfies [p]. *)
Definition remove_where (p : sessionAuthKey -> bool) (r : sessionAuthRegistry)
    : sessionAuthRegistry :=
  foldr remove r (filter (fun k => p k = true) (map fst (map_to_list (records r)))).
Definition removeSpawn (spawnID : string) : sessionAuthRegistry -> sessionAuthRegistry :=
  remove_where (fun k => String.eqb (key_spawnID k) spawnID).
Definition removeSession (spawnID sessionID : string)
    : sessionAuthRegistry -> sessionAuthRegistry :=
  remove_where (fun k => String.eqb (key_spawnID k) spawnID && String.eqb (key_sessionID k) sessionID).
Definition clear : sessionAuthRegistry -> sessionAuthRegistry := remove_where (fun _ => true).

Definition contains (key : sessionAuthKey) (r : sessionAuthRegistry) : bool :=
  bool_decide (is_Some (records r !! key)).
Definition attachment (key : sessionAuthKey) (r : sessionAuthRegistry) : option string :=
  (fun current => attachmentID (record current)) <$> records r !! key.

(** The callback of the timer armed for the record [expected]. *)
Definition expire (key : sessionAuthKey) (expected : nat) (r : sessionAuthRegistry)
    : sessionAuthRegistry :=
  match records r !! key with
  | Some current =>
      if (live current =? expected)%nat then close key "node authorization expired" r else r
  | None => r
  end.
