(* ===== verification/RevocationSystem.v ===== *)
(** * A node's revocations and its live sessions together (src/internal/node/revocation.go)

    The poller applies a verified page to the store ([pollOnce]) and then hands the entries to
    [sessionAuthRegistry.revoke] (attach.go starts it with that callback).  In between, other
    goroutines use the registry, whose lookups read the store's snapshot: the pages applied and
    not yet handed over are [inflight].  The verification of the feed's signatures, the HTTP
    request and the backoff's waiting are left out: a page is what [fetchPage] returned. *)

From S2P Require Import Prelude GoLib RevocationStore SessionAuth.
Open Scope Z_scope.

(** [doubledDuration] *)
Definition doubledDuration (current maximum : Z) : Z :=
  if maximum - current <=? current then maximum
  else let current := current * 2 in if maximum <? current then maximum else current.

(** One round of [pollOnce]'s loop on a fetched page: the store, and the entries it passes to
    [onApplied], if it does. *)
Definition pollOnce_page (page : list VerifiedUserRevocation) (hasMore : bool) (verifiedAt : Z)
    (sql : apply_result) (s : UserRevocationStore)
    : UserRevocationStore * option (list VerifiedUserRevocation) :=
  if bool_decide (page = []) && hasMore then (s, None)
  else
    match ApplyPage page verifiedAt sql s with
    | (Ok _, s) => (s, if bool_decide (page = []) then None else Some page)
    | (Err e, s) =>
        (s, match e, last page with
            | ErrStorePoisoned, Some l => if Checkpoint s =? Seq l then Some page else None
            | _, _ => None
            end)
    end.

Record node_state := {
  store : UserRevocationStore;
  registry : sessionAuthRegistry;
  (** pages applied, whose callback has not run yet *)
  inflight : list (list VerifiedUserRevocation)
}.

(** The lookup the registry is made with. *)
Definition lookup (s : UserRevocationStore) (now : Z) : lookup_revoked :=
  fun tok acct iat => IsRevoked s now tok acct iat.

(** What happens on a node; [Auth_other] is any removal. *)
Inductive auth_event :=
| Auth_poll (page : list VerifiedUserRevocation) (hasMore : bool) (verifiedAt : Z) (sql : apply_result)
| Auth_applied
| Auth_register (key : sessionAuthKey) (rec : sessionAuthRecord) (f : nat) (requireNewer : bool)
| Auth_bind (key : sessionAuthKey) (attachment : string)
| Auth_replace (key : sessionAuthKey) (next : sessionAuthRecord) (liveOwner : string)
| Auth_close (key : sessionAuthKey) (reason : string)
| Auth_remove (key : sessionAuthKey)
| Auth_removeIfAttachment (key : sessionAuthKey) (attachment : string)
| Auth_closeAttachment (key : sessionAuthKey) (attachment : string)
| Auth_removeSpawn (spawnID : string)
| Auth_removeSession (spawnID sessionID : string)
| Auth_clear
| Auth_expire (key : sessionAuthKey) (expected : nat)
| Auth_restart.

Definition on_registry (f : sessionAuthRegistry -> sessionAuthRegistry) (n : node_state) : node_state :=
  {| store := store n; registry := f (registry n); inflight := inflight n |}.

Definition auth_step (ev : auth_event) (now : Z) (n : node_state) : node_state :=
  let lk := lookup (store n) now in
  match ev with
  | Auth_poll page hasMore verifiedAt sql =>
      let '(s, handed) := pollOnce_page page hasMore verifiedAt sql (store n) in
      {| store := s; registry := registry n;
         inflight := inflight n ++ match handed with Some b => [b] | None => [] end |}
  | Auth_applied =>
      match inflight n with
      | b :: bs => {| store := store n; registry := revoke b (registry n); inflight := bs |}
      | [] => n
      end
  | Auth_register key rec f requireNewer =>
      on_registry (fun r => fst (registerRecord lk key rec f requireNewer r)) n
  | Auth_bind key a => on_registry (fun r => fst (bindAttachment lk now key a r)) n
  | Auth_replace key next owner => on_registry (fun r => fst (replace lk now key next owner r)) n
  | Auth_close key reason => on_registry (close key reason) n
  | Auth_remove key => on_registry (remove key) n
  | Auth_removeIfAttachment key a => on_registry (fun r => fst (removeIfAttachment key a r)) n
  | Auth_closeAttachment key a => on_registry (fun r => fst (closeAttachment key a r)) n
  | Auth_removeSpawn spawnID => on_registry (removeSpawn spawnID) n
  | Auth_removeSession spawnID sessionID => on_registry (removeSession spawnID sessionID) n
  | Auth_clear => on_registry clear n
  | Auth_expire key expected => on_registry (expire key expected) n
  | Auth_restart =>
      {| store := OpenUserRevocationStore now (db (store n));
         registry := newSessionAuthRegistry; inflight := [] |}
  end.

(** A page is applied after it was verified. *)
Definition auth_in_time (now : Z) (ev : auth_event) : Prop :=
  match ev with Auth_poll _ _ verifiedAt _ => verifiedAt <= now | _ => True end.

(** The start of a node whose file holds [d], and its runs. *)
Inductive node_runs (t0 : Z) (d : revocation_tables) : Z -> node_state -> Prop :=
| node_starts :
    node_runs t0 d t0 {| store := OpenUserRevocationStore t0 d;
                         registry := newSessionAuthRegistry; inflight := [] |}
| node_steps t now n ev : node_runs t0 d t n -> t <= now -> auth_in_time now ev ->
    node_runs t0 d now (auth_step ev now n).

(** ** The registry's laws *)

(** The timers armed are those of the live records, at their expiry, and identities are fresh. *)
Definition timers_ok (r : sessionAuthRegistry) : Prop :=
  (forall n key at_, timers r !! n = Some (key, at_) ->
     exists c, records r !! key = Some c /\ live c = n /\ at_ = expiresAt (record c)) /\
  (forall key c, records r !! key = Some c ->
     timers r !! live c = Some (key, expiresAt (record c)) /\ (live c < next_live r)%nat).

(** Removing records, with their timers. *)
Definition shrinks (r r' : sessionAuthRegistry) : Prop :=
  (forall key c, records r' !! key = Some c -> records r !! key = Some c) /\
  (timers_ok r -> timers_ok r').

Lemma shrinks_refl r : shrinks r r.
Proof. by split. Qed.
Lemma shrinks_trans r1 r2 r3 : shrinks r1 r2 -> shrinks r2 r3 -> shrinks r1 r3.
Proof. intros [H1 H2] [H3 H4]. split; auto. Qed.

Lemma timers_live_inj r k1 k2 c1 c2 :
  timers_ok r -> records r !! k1 = Some c1 -> records r !! k2 = Some c2 -> live c1 = live c2 -> k1 = k2.
Proof.
  intros [_ H] [H1 _]%H [H2 _]%H Heq. rewrite Heq in H1. rewrite H1 in H2. by simplify_eq.
Qed.

(** Deleting a record with the timer of its identity. *)
Lemma delete_record_timers key c r :
  records r !! key = Some c -> timers_ok r ->
  timers_ok (r <| records ::= delete key |> <| timers ::= delete (live c) |>).
Proof.
  intros Hc Hok. pose proof Hok as [Ht Hr]. split; cbn.
  - intros n k at_ [Hne Hn]%lookup_delete_Some. destruct (Ht _ _ _ Hn) as (c' & Hc' & Hl & ->).
    exists c'. split; [|done]. rewrite lookup_delete_ne; [done|]. intros <-. by simplify_eq.
  - intros k c' [Hne Hk]%lookup_delete_Some. destruct (Hr _ _ Hk) as [Hn Hlt]. split; [|done].
    rewrite lookup_delete_ne; [done|]. intros Heq. apply Hne. by eapply timers_live_inj.
Qed.

Lemma removeLocked_shrinks key r : shrinks r (fst (removeLocked key r)).
Proof.
  unfold removeLocked. destruct (records r !! key) as [c|] eqn:Hc; [|apply shrinks_refl]. split; cbn.
  - by intros k c' [_ Hk]%lookup_delete_Some.
  - intros Hok. by apply (delete_record_timers key c r).
Qed.

Lemma removeLocked_gone key r : records (fst (removeLocked key r)) !! key = None.
Proof.
  unfold removeLocked. destruct (records r !! key) as [c|] eqn:Hc; [|done]. cbn. apply lookup_delete_eq.
Qed.

Lemma call_close_shrinks f reason r : shrinks r (call_close f reason r).
Proof. destruct f; by split. Qed.

Lemma close_shrinks key reason r : shrinks r (close key reason r).
Proof.
  unfold close. pose proof (removeLocked_shrinks key r) as H. destruct (removeLocked key r) as [r' f].
  eapply shrinks_trans; [exact H|apply call_close_shrinks].
Qed.

Lemma remove_where_shrinks p r : shrinks r (remove_where p r).
Proof.
  unfold remove_where. generalize (filter (fun k => p k = true) (map fst (map_to_list (records r)))) as l.
  intros l. induction l as [|k l IH]; [apply shrinks_refl|]. cbn [foldr].
  eapply shrinks_trans; [exact IH|apply removeLocked_shrinks].
Qed.

(** A new record: over a free key, or over a record whose timer is stopped. *)
Lemma install_timers key rec f r :
  timers_ok r -> timers_ok (install key rec f
    (match records r !! key with Some old => stop_timer (live old) r | None => r end)).
Proof.
  intros Hok. pose proof Hok as [Ht Hr].
  set (r0 := match records r !! key with Some old => _ | None => _ end).
  assert (records r0 = records r /\ next_live r0 = next_live r /\
    (forall n k at_, timers r0 !! n = Some (k, at_) -> timers r !! n = Some (k, at_) /\ k <> key) /\
    (forall k c, k <> key -> records r !! k = Some c -> timers r0 !! live c = Some (k, expiresAt (record c))))
    as (Hrec & Hn & Hsub & Hkeep).
  { subst r0. destruct (records r !! key) as [old|] eqn:Ho; cbn; (split; [done|]; split; [done|]; split).
    - intros n k at_ [Hne Hn]%lookup_delete_Some. split; [done|]. intros ->.
      destruct (Ht _ _ _ Hn) as (c & Hc & ? & _). by simplify_eq.
    - intros k c Hne Hk. rewrite lookup_delete_ne; [by apply Hr|].
      intros Heq. apply Hne. by eapply timers_live_inj.
    - intros n k at_ Hn. split; [done|]. intros ->. destruct (Ht _ _ _ Hn) as (c & Hc & _). by simplify_eq.
    - intros k c _ Hk. by apply Hr. }
  unfold install, timers_ok. cbn. rewrite Hrec, Hn. split.
  - intros n k at_ [[<- [= <- <-]]|[Hne Hn']]%lookup_insert_Some.
    + eexists. rewrite lookup_insert_eq. by split.
    + destruct (Hsub _ _ _ Hn') as [Hin Hk]. destruct (Ht _ _ _ Hin) as (c & Hc & ? & ?).
      exists c. by rewrite lookup_insert_ne.
  - intros k c [[<- <-]|[Hne Hk]]%lookup_insert_Some; cbn.
    + rewrite lookup_insert_eq. split; [done|lia].
    + destruct (Hr _ _ Hk) as [_ Hlt]. split; [|lia]. rewrite lookup_insert_ne by lia. by apply Hkeep.
Qed.

Lemma install_records key rec f r k c :
  records (install key rec f (match records r !! key with Some old => stop_timer (live old) r | None => r end)) !! k
    = Some c ->
  (k = key /\ record c = rec) \/ records r !! k = Some c.
Proof.
  unfold install. cbn. intros [[<- <-]|[_ Hk]]%lookup_insert_Some; [by left|right].
  by destruct (records r !! key).
Qed.

(** [revoke] removes exactly the records its batch matches. *)
Lemma lookup_revoke batch r key :
  records (revoke batch r) !! key =
    match records r !! key with
    | Some c => if batch_matches batch (record c) then None else Some c
    | None => None
    end.
Proof.
  unfold revoke. cbn. destruct (records r !! key) as [c|] eqn:Hk.
  - destruct (batch_matches batch (record c)) eqn:Hb.
    + apply map_lookup_filter_None. right. intros c' Hc'. simplify_eq. cbn. by intros [].
    + apply map_lookup_filter_Some. split; [done|]. cbn. by rewrite Hb.
  - apply map_lookup_filter_None. by left.
Qed.

Lemma foldr_delete_lookup (l : list nat) (t : gmap nat (sessionAuthKey * Z)) n :
  foldr delete t l !! n = if decide (n ∈ l) then None else t !! n.
Proof.
  induction l as [|x l IH]; cbn; [done|]. destruct (decide (x = n)) as [<-|Hne].
  - rewrite lookup_delete_eq, decide_True; [done|]. left.
  - rewrite lookup_delete_ne, IH by done. repeat case_decide; try done; set_solver.
Qed.

Definition hits (batch : list VerifiedUserRevocation) (r : sessionAuthRegistry)
    : gmap sessionAuthKey liveSessionAuth :=
  filter (fun kv => batch_matches batch (record kv.2) = true) (records r).

Lemma hit_ids batch r n :
  n ∈ map (fun kv : sessionAuthKey * liveSessionAuth => live kv.2) (map_to_list (hits batch r)) <->
  exists k c, records r !! k = Some c /\ live c = n /\ batch_matches batch (record c) = true.
Proof.
  rewrite list_elem_of_fmap. split.
  - intros ([k c] & -> & Hin). apply elem_of_map_to_list, map_lookup_filter_Some in Hin as [Hk Hb].
    by exists k, c.
  - intros (k & c & Hk & <- & Hb). exists (k, c). split; [done|].
    apply elem_of_map_to_list, map_lookup_filter_Some. by split.
Qed.

Lemma revoke_timers batch r n :
  timers (revoke batch r) !! n =
    if decide (n ∈ map (fun kv : sessionAuthKey * liveSessionAuth => live kv.2)
                     (map_to_list (hits batch r)))
    then None else timers r !! n.
Proof. apply foldr_delete_lookup. Qed.

Lemma revoke_shrinks batch r : shrinks r (revoke batch r).
Proof.
  split.
  - intros key c. rewrite lookup_revoke. destruct (records r !! key); [|done]. by case_match.
  - intros Hok. pose proof Hok as [Ht Hr]. split.
    + intros n k at_.
      rewrite revoke_timers. case_decide as Hd; [done|]. intros Hn.
      destruct (Ht _ _ _ Hn) as (c & Hc & Hl & Hat). exists c. split; [|done].
      rewrite lookup_revoke, Hc.
      destruct (batch_matches batch (record c)) eqn:Hb; [|done]. destruct Hd. apply hit_ids. by exists k, c.
    + intros k c. rewrite lookup_revoke. destruct (records r !! k) as [c'|] eqn:Hc; [|done].
      destruct (batch_matches batch (record c')) eqn:Hb; [done|]. intros [= <-].
      destruct (Hr _ _ Hc) as [Hn Hlt]. split; [|done].
      rewrite revoke_timers, decide_False; [done|]. intros Hin.
      apply hit_ids in Hin as (k' & c2 & Hk' & Hl & Hb').
      assert (k' = k) as -> by (by eapply timers_live_inj). simplify_eq; congruence.
Qed.

(** ** The page against the batch *)

Lemma batch_cutoff_le batch (m : gmap string Z) e :
  (e ∈ batch \/ (exists c, m !! AccountID e = Some c /\ RevokeTokensIssuedBefore e <= c)) ->
  0 < RevokeTokensIssuedBefore e ->
  exists c, foldl (fun m e => if zero_if_none (m !! AccountID e) <? RevokeTokensIssuedBefore e
                    then <[AccountID e := RevokeTokensIssuedBefore e]> m else m) m batch
            !! AccountID e = Some c /\ RevokeTokensIssuedBefore e <= c.
Proof.
  intros Hin Hpos. revert m Hin. induction batch as [|x batch IH]; intros m Hin; cbn [foldl].
  { destruct Hin as [Hin|Hin]; [by apply elem_of_nil in Hin|done]. }
  apply IH. destruct Hin as [[->|Hin]%elem_of_cons|(c & Hc & Hle)]; [right|by left|right].
  - unfold zero_if_none. destruct (m !! AccountID x) as [old|] eqn:Ho; cbn [from_option]; unfold id.
    + destruct (Z.ltb_spec old (RevokeTokensIssuedBefore x)); [|by exists old].
      eexists. rewrite lookup_insert_eq. split; [done|lia].
    + rewrite (proj2 (Z.ltb_lt _ _) Hpos). eexists. rewrite lookup_insert_eq. split; [done|lia].
  - destruct (Z.ltb_spec (zero_if_none (m !! AccountID x)) (RevokeTokensIssuedBefore x)) as [Hlt|]; [|by exists c].
    rewrite lookup_insert. case_decide as Hd; [|by exists c]. rewrite Hd, Hc in Hlt. unfold zero_if_none in Hlt.
    cbn [from_option] in Hlt. unfold id in Hlt. eexists. split; [done|lia].
Qed.

(** The token or the cutoff of an entry of the batch matches the records it is about. *)
Lemma batch_matches_token batch e t r :
  e ∈ batch -> t ∈ RevokedTokens e -> tokenID r = TokenID t -> batch_matches batch r = true.
Proof.
  intros He Ht Heq. unfold batch_matches. apply orb_true_iff. left. apply bool_decide_eq_true.
  unfold batch_tokens. apply elem_of_list_to_set. rewrite Heq. apply list_elem_of_In, in_flat_map.
  exists e. split; [by apply list_elem_of_In|]. by apply in_map, list_elem_of_In.
Qed.
Lemma batch_matches_cutoff batch e r :
  e ∈ batch -> accountID r = AccountID e -> issuedAt r < RevokeTokensIssuedBefore e ->
  0 < RevokeTokensIssuedBefore e -> batch_matches batch r = true.
Proof.
  intros He Heq Hlt Hpos. unfold batch_matches. cbv zeta. apply orb_true_iff. right. rewrite Heq.
  destruct (batch_cutoff_le batch ∅ e (or_introl He) Hpos) as (c & Hc & Hle).
  change (foldl _ ∅ batch) with (batch_cutoffs batch) in Hc. rewrite Hc.
  unfold zero_if_none. cbn [from_option]. unfold id. apply andb_true_iff. rewrite !Z.ltb_lt. lia.
Qed.

(** Where an entry of memory comes from: what was there, or an entry of the page. *)
Lemma apply_token_source now n t k v :
  tokens (apply_token now n t) !! k = Some v -> tokens n !! k = Some v \/ k = TokenID t.
Proof.
  unfold apply_token. case_match; [|by left]. cbn. intros [[<- _]|[_ Hk]]%lookup_insert_Some; auto.
Qed.
Lemma apply_tokens_source now l n k v :
  tokens (foldl (apply_token now) n l) !! k = Some v ->
  tokens n !! k = Some v \/ exists t, t ∈ l /\ k = TokenID t.
Proof.
  revert n. induction l as [|t l IH]; intros n; [by left|]. cbn. intros [Hk|(t' & Ht & ->)]%IH.
  - apply apply_token_source in Hk as [Hk| ->]; [by left|right]. exists t. split; [left|done].
  - right. exists t'. split; [by right|done].
Qed.
Lemma apply_tokens_other now l n : accounts (foldl (apply_token now) n l) = accounts n.
Proof.
  revert n. induction l as [|t l IH]; intros n; [done|]. cbn. rewrite IH.
  apply (apply_token_other now n t).
Qed.
Lemma apply_entry_source now n e :
  positive (accounts n) -> entry_ok e ->
  positive (accounts (apply_entry now n e)) /\
  (forall k v, tokens (apply_entry now n e) !! k = Some v ->
    tokens n !! k = Some v \/ exists t, t ∈ RevokedTokens e /\ k = TokenID t) /\
  (forall k c, accounts (apply_entry now n e) !! k = Some c ->
    accounts n !! k = Some c \/ (k = AccountID e /\ c = RevokeTokensIssuedBefore e)).
Proof.
  intros Hp [Hc _]. unfold apply_entry. split_and!.
  - pose proof (cutoff_mirror (AccountID e) _ _ Hp Hc) as Hcut. rewrite apply_tokens_other.
    case_match; cbn; rewrite apply_tokens_other; [|done]. rewrite Hcut.
    case_match; [|done]. apply positive_upsert; [done|lia].
  - intros k v Hk. apply (apply_tokens_source now _ n k v). revert Hk. by case_match.
  - intros k v Hk. revert Hk. case_match; cbn; [|rewrite apply_tokens_other; by left].
    intros [[<- <-]|[_ Hk]]%lookup_insert_Some; [by right|]. rewrite apply_tokens_other in Hk. by left.
Qed.
Lemma page_source now page n :
  positive (accounts n) -> Forall entry_ok page ->
  positive (accounts (foldl (apply_entry now) n page)) /\
  (forall k v, tokens (foldl (apply_entry now) n page) !! k = Some v ->
    tokens n !! k = Some v \/ exists e t, e ∈ page /\ t ∈ RevokedTokens e /\ k = TokenID t) /\
  (forall k c, accounts (foldl (apply_entry now) n page) !! k = Some c ->
    accounts n !! k = Some c \/ exists e, e ∈ page /\ k = AccountID e /\ c = RevokeTokensIssuedBefore e).
Proof.
  intros Hp Hok. revert n Hp. induction Hok as [|e page He _ IH]; intros n Hp; [by split_and!; auto|].
  cbn [foldl]. destruct (apply_entry_source now n e Hp He) as (Hp' & H3 & H4).
  destruct (IH _ Hp') as (Hp'' & H1 & H2). split_and!; [done| |]; intros k v Hk.
  - apply H1 in Hk as [[Hk|(t & ? & ?)]%H3|(e' & t & ? & ? & ?)]; [by left|right..].
    + exists e, t. split_and!; [by left|done..].
    + exists e', t. split_and!; [by right|done..].
  - apply H2 in Hk as [[Hk|[? ?]]%H4|(e' & ? & ? & ?)]; [by left|right..].
    + exists e. split_and!; [by left|done..].
    + exists e'. split_and!; [by right|done..].
Qed.

(** A lookup that changes with a page is answered by the page. *)
Lemma page_revokes now at_ page n r :
  positive (accounts n) -> Forall entry_ok page ->
  IsRevoked_in (applyUserRevocationPage n page at_) now (tokenID r) (accountID r) (issuedAt r) = true ->
  IsRevoked_in n now (tokenID r) (accountID r) (issuedAt r) = true \/ batch_matches page r = true.
Proof.
  intros Hp Hok. unfold applyUserRevocationPage. set (n0 := set_field tokens _ n).
  destruct (page_source at_ page n0 Hp Hok) as (Hp1 & H1 & H2). set (n1 := foldl _ n0 page) in *.
  unfold IsRevoked_in. rewrite !orb_true_iff. intros [H|H].
  - destruct (tokens n1 !! tokenID r) as [v|] eqn:Hv; [|done].
    apply H1 in Hv as [Hv|(e & t & He & Ht & Heq)].
    + left. left. apply map_lookup_filter_Some in Hv as [Hv _]. by rewrite Hv.
    + right. by eapply batch_matches_token.
  - destruct (accounts n1 !! accountID r) as [c|] eqn:Hc; [|done]. pose proof (Hp1 _ _ Hc) as Hpos.
    apply H2 in Hc as [Hc|(e & He & Heq & ->)]; [left; right; cbn in Hc; by rewrite Hc|]. brefl.
    right. by eapply batch_matches_cutoff.
Qed.

(** Time alone revokes nothing. *)
Lemma revoked_earlier n t now tok acct iat :
  IsRevoked_in n now tok acct iat = true -> t <= now -> IsRevoked_in n t tok acct iat = true.
Proof.
  intros H Hle. revert H. unfold IsRevoked_in. rewrite !orb_true_iff. intros [H|H]; [left|by right].
  destruct (tokens n !! tok); [|done]. brefl. apply Z.ltb_lt. lia.
Qed.
Lemma revoked_prune n t now tok acct iat :
  IsRevoked_in (n <| tokens ::= after t |>) now tok acct iat = true -> IsRevoked_in n now tok acct iat = true.
Proof.
  unfold IsRevoked_in. cbn. rewrite !orb_true_iff. intros [H|H]; [left|by right].
  destruct (after t (tokens n) !! tok) as [v|] eqn:Hv; [|done].
  apply map_lookup_filter_Some in Hv as [-> _]. done.
Qed.
