(* ===== verification/RevocationContract.v ===== *)
(** * Contract of a node's revocations and live sessions

    The store: memory is the database, or strictly more of it while a commit is ambiguous; what
    an accepted page revokes stays revoked through crashes; a page is applied once.  With the
    live sessions: once the poller's callbacks have run, no live session is revoked, although
    sessions are opened and reauthorised concurrently; and every live session has one armed
    timer. *)

From S2P Require Import Prelude GoLib RevocationStore SessionAuth RevocationSystem.
Open Scope Z_scope.

(** ** The store *)

(** At every point of a run (pages applied, failing or ambiguous commits, closes, crashes
    and restarts) the snapshot a lookup reads is the one a restart would load, unless a commit
    was ambiguous; and in every case a token or account the database revokes is revoked by the
    lookup. *)
Theorem snapshot_is_the_database t0 d now s :
  positive (account_cutoffs d) ->
  store_run t0 (OpenUserRevocationStore t0 d) now s ->
  (poisoned s = None -> snapshot s = loadUserRevocationSnapshot (db s)) /\
  (forall later tok acct iat, now <= later ->
    IsRevoked_in (loadUserRevocationSnapshot (db s)) later tok acct iat = true ->
    IsRevoked s later tok acct iat = true).
Proof.
  intros Hp Hrun. destruct (store_run_inv _ _ _ _ Hrun (open_inv t0 t0 d Hp)) as [(_ & Hs & Hc & _) _].
  split; [done|]. intros later tok acct iat Hle. by apply covers_revoked with now.
Qed.

(** Once a page is accepted, its tokens stay revoked until their retention ends and its
    accounts' earlier tokens stay revoked for good, whatever pages, failures, ambiguous commits,
    closes and restarts follow. *)
Theorem accepted_revocation_sticks t0 d t s page verifiedAt sql s1 now s2 e :
  positive (account_cutoffs d) ->
  store_run t0 (OpenUserRevocationStore t0 d) t s ->
  ApplyPage page verifiedAt sql s = (Ok tt, s1) -> verifiedAt <= t ->
  store_run t s1 now s2 -> e ∈ page ->
  (forall tok acct iat, tok ∈ RevokedTokens e -> now < RetainUntil tok ->
    IsRevoked s2 now (TokenID tok) acct iat = true) /\
  (forall tok iat, iat < RevokeTokensIssuedBefore e -> 0 < RevokeTokensIssuedBefore e ->
    IsRevoked s2 now tok (AccountID e) iat = true).
Proof.
  intros Hp Hrun Hap Hat Hrun2 He. destruct (store_run_inv _ _ _ _ Hrun (open_inv t0 t0 d Hp)) as [Hinv _].
  pose proof (step_inv (Ev_apply page verifiedAt sql) t t s Hinv (Z.le_refl t) Hat) as (Hinv1 & _).
  cbn [store_step] in Hinv1. rewrite Hap in Hinv1.
  destruct (apply_cases _ _ _ _ _ _ _ Hap Hinv) as [[_ []]|(_ & _ & Hok & _ & Hsn & Hcase)]; [done|].
  destruct Hcase as [(_ & _ & [])|(_ & Hsync & _)]; [done|].
  destruct (store_run_covers _ _ _ _ Hrun2 Hinv1) as (_ & Hc & _). rewrite <- Hsync, Hsn in Hc.
  pose proof (store_run_inv _ _ _ _ Hrun2 Hinv1) as [_ Hle].
  assert (carries now (snapshot s2) e) as Hcar.
  { eapply carries_covers; [by apply page_carried|exact Hc|lia]. }
  split; intros *; [intros Htok Hlt; by eapply carries_revoked|intros; by eapply carries_cutoff].
Qed.

(** An accepted page is not applied a second time: at any later point, also after restarts,
    a replay of it (or of any page that does not advance) is refused and changes nothing. *)
Theorem replayed_page_rejected t0 d t s page verifiedAt sql s1 now s2 again sql' :
  positive (account_cutoffs d) ->
  store_run t0 (OpenUserRevocationStore t0 d) t s ->
  ApplyPage page verifiedAt sql s = (Ok tt, s1) -> verifiedAt <= t ->
  store_run t s1 now s2 -> page <> [] ->
  snd (ApplyPage page again sql' s2) = s2 /\ fst (ApplyPage page again sql' s2) <> Ok tt.
Proof.
  intros Hp Hrun Hap Hat Hrun2 Hne. destruct (store_run_inv _ _ _ _ Hrun (open_inv t0 t0 d Hp)) as [Hinv _].
  pose proof (step_inv (Ev_apply page verifiedAt sql) t t s Hinv (Z.le_refl t) Hat) as (Hinv1 & _).
  cbn [store_step] in Hinv1. rewrite Hap in Hinv1.
  destruct (apply_cases _ _ _ _ _ _ _ Hap Hinv) as [[_ []]|(_ & _ & _ & Hv & Hsn & Hcase)]; [done|].
  destruct Hcase as [(_ & _ & [])|(_ & Hsync & _)]; [done|].
  destruct (checkpoint_after page verifiedAt _ Hv) as [_ Hck]. rewrite <- Hsn, Hsync in Hck.
  destruct (store_run_covers _ _ _ _ Hrun2 Hinv1) as (_ & _ & Hmeta).
  destruct (store_run_inv _ _ _ _ Hrun2 Hinv1) as [(_ & _ & _ & Hge) _].
  destruct page as [|e page]; [done|]. inversion Hck as [|? ? He _]. cbn in He.
  unfold ApplyPage. destruct (closed s2); [done|]. destruct (poisoned s2); [done|].
  cbn [validateUserRevocationPage]. unfold valid_entry. rewrite (proj2 (Z.leb_le _ _)) by lia. done.
Qed.

(** ** With the live sessions *)

(** Every live record has its timer; one that is revoked is in a batch on its way. *)
Definition node_inv (t : Z) (n : node_state) : Prop :=
  store_inv t (store n) /\ timers_ok (registry n) /\
  forall key c, records (registry n) !! key = Some c ->
    revoked (lookup (store n) t) (record c) = true ->
    exists b, b ∈ inflight n /\ batch_matches b (record c) = true.

Lemma node_inv_later t t' n : node_inv t n -> t <= t' -> node_inv t' n.
Proof.
  intros (H1 & H2 & H3) Hle. split; [by eapply store_inv_later|]. split; [done|].
  intros key c Hc Hr. apply (H3 key c Hc). by apply (revoked_earlier _ t t').
Qed.

(** A step that only removes records keeps the invariant. *)
Lemma shrinks_inv t n f :
  node_inv t n -> (forall r, shrinks r (f r)) -> node_inv t (on_registry f n).
Proof.
  intros (H1 & H2 & H3) Hf. destruct (Hf (registry n)) as [Hsub Hok]. split; [done|].
  split; [by apply Hok|]. intros key c Hc. cbn in Hc. by apply (H3 key c), Hsub.
Qed.

(** So does one that adds an authorisation that is not revoked. *)
Lemma install_inv t n key rec f :
  node_inv t n -> revoked (lookup (store n) t) rec = false ->
  node_inv t (on_registry (fun r => install key rec f
    (match records r !! key with Some old => stop_timer (live old) r | None => r end)) n).
Proof.
  intros (H1 & H2 & H3) Hrev. split; [done|]. split; [by apply install_timers|].
  intros k c Hc Hr. cbn in Hr. apply install_records in Hc as [[_ Heq]|Hc]; [congruence|]. by apply (H3 k c).
Qed.

Lemma empty_batch_matches r : batch_matches [] r = false.
Proof. unfold batch_matches. cbn. by rewrite bool_decide_eq_false_2 by set_solver. Qed.

(** What [pollOnce] hands over when a page was applied. *)
Lemma poll_hands_over page hasMore verifiedAt sql s r s1 :
  ApplyPage page verifiedAt sql s = (r, s1) -> (r = Ok tt \/ r = Err ErrStorePoisoned) ->
  snapshot s1 = applyUserRevocationPage (snapshot s) page verifiedAt -> page <> [] ->
  pollOnce_page page hasMore verifiedAt sql s = (s1, Some page).
Proof.
  intros Hap Hr Hsn Hne. unfold pollOnce_page. rewrite Hap, !bool_decide_eq_false_2 by done. cbn [andb].
  destruct Hr as [-> | ->]; [done|]. destruct (last page) as [l|] eqn:Hl; [|by apply last_None in Hl].
  unfold Checkpoint. rewrite Hsn. unfold applyUserRevocationPage.
  by rewrite checkpoint_page, Hl, Z.eqb_refl.
Qed.

Lemma poll_store page hasMore verifiedAt sql s :
  fst (pollOnce_page page hasMore verifiedAt sql s) = s \/
  fst (pollOnce_page page hasMore verifiedAt sql s) = snd (ApplyPage page verifiedAt sql s).
Proof.
  unfold pollOnce_page. destruct (_ && _); [by left|right]. by destruct (ApplyPage _ _ _ _) as [[e|u] s1].
Qed.

Lemma poll_inv page hasMore verifiedAt sql t n :
  node_inv t n -> verifiedAt <= t -> node_inv t (auth_step (Auth_poll page hasMore verifiedAt sql) t n).
Proof.
  intros (Hinv & Htm & Hrev) Hat. cbn [auth_step].
  pose proof (step_inv (Ev_apply page verifiedAt sql) t t _ Hinv (Z.le_refl t) Hat) as (Hinv1 & _).
  cbn [store_step] in Hinv1. pose proof (poll_store page hasMore verifiedAt sql (store n)) as Hst.
  destruct (pollOnce_page page hasMore verifiedAt sql (store n)) as [s' handed] eqn:Hpoll. cbn [fst] in Hst.
  assert (store_inv t s') as Hinv' by (by destruct Hst as [-> | ->]).
  split; [done|]. split; [done|]. cbn. intros key c Hc Hrc.
  enough ((exists b, b ∈ inflight n /\ batch_matches b (record c) = true) \/
          (handed = Some page /\ batch_matches page (record c) = true)) as [(b & Hb & ?)|[-> ?]].
  { exists b. split; [|done]. apply elem_of_app. by left. }
  { exists page. split; [|done]. apply elem_of_app. right. by left. }
  destruct Hst as [-> | Hst]; [left; by apply (Hrev key)|].
  destruct (ApplyPage page verifiedAt sql (store n)) as [r s1] eqn:Hap. cbn [snd] in Hst. subst s'.
  destruct (apply_cases _ _ _ _ _ _ _ Hap Hinv) as [[-> Hr]|(Hpo & Hr & Hok & Hv & Hsn & _)];
    [left; by apply (Hrev key)|].
  unfold revoked, lookup, IsRevoked in Hrc. rewrite Hsn in Hrc. pose proof Hinv as (Hp & Hs & _).
  apply page_revokes in Hrc as [Hrc|Hb]; [left; by apply (Hrev key)| | |done];
    [|by rewrite (Hs Hpo)]. right.
  destruct page as [|e page]; [by rewrite empty_batch_matches in Hb|].
  rewrite (poll_hands_over _ _ _ _ _ _ _ Hap Hr Hsn) in Hpoll by done. by simplify_eq.
Qed.

Lemma applied_inv t n : node_inv t n -> node_inv t (auth_step Auth_applied t n).
Proof.
  intros (H1 & H2 & H3). cbn [auth_step]. destruct (inflight n) as [|b bs] eqn:Hb;
    [by split_and!; rewrite ?Hb|].
  split; [done|]. split; [by apply revoke_shrinks|]. cbn [store registry inflight]. intros key c Hc Hr.
  rewrite lookup_revoke in Hc. destruct (records (registry n) !! key) as [c'|] eqn:Hc'; [|done].
  destruct (batch_matches b (record c')) eqn:Hm; [done|]. simplify_eq.
  destruct (H3 key c Hc' Hr) as (b' & Hin & Hm'). rewrite ?Hb in Hin.
  apply elem_of_cons in Hin as [->|Hin]; [congruence|]. by exists b'.
Qed.

Lemma if_shrinks {A} (b : bool) (f : sessionAuthRegistry -> sessionAuthRegistry) (x y : A) r :
  shrinks r (f r) -> shrinks r (fst (if b then (f r, x) else (r, y))).
Proof. intros H. destruct b; [done|apply shrinks_refl]. Qed.

Lemma registerRecord_inv t n key rec f newer :
  node_inv t n ->
  node_inv t (on_registry (fun r => fst (registerRecord (lookup (store n) t) key rec f newer r)) n).
Proof.
  intros Hinv. pose proof (install_inv t n key rec f Hinv) as Hins. revert Hins.
  unfold on_registry, registerRecord. intros Hins.
  destruct (revoked (lookup (store n) t) rec); [by destruct n|]. specialize (Hins eq_refl).
  destruct (records (registry n) !! key); [|done].
  destruct (_ && _); [by destruct n|done].
Qed.

Lemma replace_inv t n key next owner :
  node_inv t n ->
  node_inv t (on_registry (fun r => fst (replace (lookup (store n) t) t key next owner r)) n).
Proof.
  intros Hinv. destruct (records (registry n) !! key) as [c|] eqn:Hc.
  - unfold on_registry, replace. rewrite Hc. destruct (reauth_valid _ t (record c) next owner) eqn:Hv; cbn [fst].
    + pose proof (install_inv t n key (next <| attachmentSequence := attachmentSequence (record c) |>)
        (closeFn c) Hinv) as Hins. unfold on_registry in Hins. rewrite Hc in Hins. apply Hins.
      unfold reauth_valid in Hv. brefl. naive_solver.
    + pose proof (shrinks_inv t n (close key "session reauthentication rejected") Hinv
        (close_shrinks key _)) as Hcl. unfold on_registry, close in Hcl.
      by destruct (removeLocked key (registry n)).
  - unfold on_registry, replace. rewrite Hc. by destruct n.
Qed.

Lemma node_step_inv ev now t n :
  node_inv t n -> t <= now -> auth_in_time now ev -> node_inv now (auth_step ev now n).
Proof.
  intros Hinv Hle Hin. apply (node_inv_later t now) in Hinv; [|done].
  destruct ev; cbn [auth_step].
  - by apply poll_inv.
  - by apply applied_inv.
  - by apply registerRecord_inv.
  - apply shrinks_inv; [done|]. intros r. unfold bindAttachment.
    destruct (records r !! key); [|apply shrinks_refl]. case_match; [apply shrinks_refl|].
    case_match; [apply removeLocked_shrinks|apply shrinks_refl].
  - by apply replace_inv.
  - apply shrinks_inv; [done|]. intros r. apply close_shrinks.
  - apply shrinks_inv; [done|]. intros r. apply removeLocked_shrinks.
  - apply shrinks_inv; [done|]. intros r. unfold removeIfAttachment.
    destruct (records r !! key); [|apply shrinks_refl]. apply if_shrinks, removeLocked_shrinks.
  - apply shrinks_inv; [done|]. intros r. unfold closeAttachment.
    destruct (records r !! key); [|apply shrinks_refl]. apply if_shrinks, removeLocked_shrinks.
  - apply shrinks_inv; [done|]. intros r. apply remove_where_shrinks.
  - apply shrinks_inv; [done|]. intros r. apply remove_where_shrinks.
  - apply shrinks_inv; [done|]. intros r. apply remove_where_shrinks.
  - apply shrinks_inv; [done|]. intros r. unfold expire. destruct (records r !! key); [|apply shrinks_refl].
    case_match; [apply close_shrinks|apply shrinks_refl].
  - split; [apply open_inv, Hinv|]. split; [by split|done].
Qed.

Lemma node_runs_inv t0 d t n :
  positive (account_cutoffs d) -> node_runs t0 d t n -> node_inv t n.
Proof.
  intros Hp. induction 1 as [|t now n ev _ IH Hle Hin]; [|by eapply node_step_inv].
  split; [by apply open_inv|]. split; [by split|done].
Qed.

(** The pending callbacks, run. *)
Definition callbacks (now : Z) (n : node_state) : node_state :=
  Nat.iter (length (inflight n)) (auth_step Auth_applied now) n.

Lemma callbacks_inv now k n :
  node_inv now n -> node_inv now (Nat.iter k (auth_step Auth_applied now) n) /\
  length (inflight (Nat.iter k (auth_step Auth_applied now) n)) = (length (inflight n) - k)%nat /\
  store (Nat.iter k (auth_step Auth_applied now) n) = store n.
Proof.
  intros Hinv. induction k as [|k (IH1 & IH2 & IH3)]; [by rewrite Nat.sub_0_r|]. cbn [Nat.iter nat_rect].
  set (n' := Nat.iter k _ n) in *. split_and!; [by apply applied_inv| |].
  - change (length (inflight (auth_step Auth_applied now n')) = (length (inflight n) - S k)%nat).
    cbn [auth_step]. destruct (inflight n') as [|b bs] eqn:Hb; cbn [inflight length] in *; rewrite ?Hb; cbn; lia.
  - change (store (auth_step Auth_applied now n') = store n). cbn [auth_step].
    by destruct (inflight n').
Qed.

(** C23: whatever pages are applied, sessions opened, reauthorised, bound, closed or expired and
    restarts happen, in any order: a live session whose token the node's store revokes is in a
    batch whose callback has not run; once the pending callbacks have run, no live session is
    revoked. *)
Theorem revoked_sessions_are_closed t0 d now n :
  positive (account_cutoffs d) -> node_runs t0 d now n ->
  (forall key c, records (registry n) !! key = Some c ->
    revoked (lookup (store n) now) (record c) = true ->
    exists b, b ∈ inflight n /\ batch_matches b (record c) = true) /\
  (forall key c, records (registry (callbacks now n)) !! key = Some c ->
    revoked (lookup (store n) now) (record c) = false).
Proof.
  intros Hp Hrun%node_runs_inv; [|done]. split; [apply Hrun|]. intros key c Hc.
  destruct (callbacks_inv now (length (inflight n)) n Hrun) as ((_ & _ & H) & Hlen & Hst).
  fold (callbacks now n) in *. destruct (revoked _ (record c)) eqn:Hr; [|done].
  rewrite <- Hst in Hr. destruct (H key c Hc Hr) as (b & Hb & _).
  rewrite Nat.sub_diag in Hlen.
  apply length_zero_iff_nil in Hlen. rewrite Hlen in Hb. by apply elem_of_nil in Hb.
Qed.

(** In every run each live session has exactly one armed timer, at its own expiry; when that
    timer fires the session is removed and its close function is called; a timer that was
    stopped too late (after a reauthorisation, a new attachment or a removal) changes nothing. *)
Theorem sessions_expire_once t0 d now n :
  positive (account_cutoffs d) -> node_runs t0 d now n ->
  (forall key c, records (registry n) !! key = Some c ->
    timers (registry n) !! live c = Some (key, expiresAt (record c)) /\
    (forall id at_, timers (registry n) !! id = Some (key, at_) -> id = live c) /\
    records (expire key (live c) (registry n)) !! key = None /\
    closing (expire key (live c) (registry n)) =
      closing (registry n) ++ [(closeFn c, "node authorization expired")]) /\
  (forall key id, timers (registry n) !! id = None -> expire key id (registry n) = registry n).
Proof.
  intros Hp (_ & [Ht Hr] & _)%node_runs_inv; [|done]. split.
  - intros key c Hc. destruct (Hr _ _ Hc) as [Htc _]. split; [done|]. split.
    { intros id at_ (c' & Hc' & <- & _)%Ht. by simplify_eq. }
    unfold expire. rewrite Hc, Nat.eqb_refl. unfold close, removeLocked. rewrite Hc. cbn.
    by rewrite lookup_delete_eq.
  - intros key id Hid. unfold expire. destruct (records (registry n) !! key) as [c|] eqn:Hc; [|done].
    destruct (Nat.eqb_spec (live c) id) as [<-|]; [|done]. destruct (Hr _ _ Hc) as [Htc _]. congruence.
Qed.

(** ** On a concrete node *)

Definition ex_family : VerifiedUserRevocation :=
  {| Seq := 1; AccountID := "alice"; FamilyID := "laptop"; RevokedAt := 5;
     RevokedTokens := [{| TokenID := "t1"; RetainUntil := 1000 |}]; RevokeTokensIssuedBefore := 0 |}.
Definition ex_account : VerifiedUserRevocation :=
  {| Seq := 3; AccountID := "bob"; FamilyID := ""; RevokedAt := 6; RevokedTokens := [];
     RevokeTokensIssuedBefore := 50 |}.
Definition ex_page : list VerifiedUserRevocation := [ex_family; ex_account].

Definition ex_open : UserRevocationStore := OpenUserRevocationStore 10 empty_tables.
Definition ex_applied : UserRevocationStore := snd (ApplyPage ex_page 10 Committed ex_open).
Definition ex_reopened : UserRevocationStore := store_step Ev_reopen 20 ex_applied.

Lemma ex_reopens : store_run 10 ex_applied 20 ex_reopened.
Proof.
  refine (store_stepped 10 ex_applied 10 20 ex_applied Ev_reopen (store_here 10 ex_applied) _ I). lia.
Qed.
Lemma empty_positive : positive (account_cutoffs empty_tables).
Proof. intros k v Hk. cbn in Hk. by rewrite lookup_empty in Hk. Qed.

Lemma snapshot_is_the_database_witness :
  let s := snd (ApplyPage ex_page 10 (Commit_failed false) ex_open) in
  poisoned s = Some ErrStorePoisoned /\
  (forall later tok acct iat, 10 <= later ->
    IsRevoked_in (loadUserRevocationSnapshot (db s)) later tok acct iat = true ->
    IsRevoked s later tok acct iat = true) /\
  IsRevoked s 10 "t1" "alice" 7 = true.
Proof.
  split; [reflexivity|]. split; [|vm_compute; reflexivity].
  eapply (snapshot_is_the_database 10 empty_tables 10).
  - exact empty_positive.
  - exact (store_stepped 10 ex_open 10 10 ex_open (Ev_apply ex_page 10 (Commit_failed false))
      (store_here 10 ex_open) (Z.le_refl 10) (Z.le_refl 10)).
Defined.

Lemma accepted_revocation_sticks_witness :
  IsRevoked ex_reopened 20 "t1" "alice" 7 = true /\ IsRevoked ex_reopened 20 "t9" "bob" 49 = true.
Proof.
  pose proof (fun e => accepted_revocation_sticks 10 empty_tables 10 ex_open ex_page 10 Committed
      ex_applied 20 ex_reopened e empty_positive (store_here 10 ex_open) eq_refl (Z.le_refl 10)
      ex_reopens) as H.
  split.
  - refine (proj1 (H ex_family _) {| TokenID := "t1"; RetainUntil := 1000 |} "alice" 7 _ _).
    + left.
    + left.
    + vm_compute. reflexivity.
  - refine (proj2 (H ex_account _) "t9" 49 _ _).
    + right. left.
    + vm_compute. reflexivity.
    + vm_compute. reflexivity.
Defined.

Lemma replayed_page_rejected_witness :
  snd (ApplyPage ex_page 21 Committed ex_reopened) = ex_reopened /\
  fst (ApplyPage ex_page 21 Committed ex_reopened) <> Ok tt.
Proof.
  refine (replayed_page_rejected 10 empty_tables 10 ex_open ex_page 10 Committed ex_applied 20
    ex_reopened 21 Committed empty_positive (store_here 10 ex_open) eq_refl (Z.le_refl 10)
    ex_reopens _).
  discriminate.
Defined.

Definition ex_key : sessionAuthKey := mkKey "sp" "0" "c1".
Definition ex_record : sessionAuthRecord :=
  {| accountID := "alice"; tokenID := "t1"; issuedAt := 7; expiresAt := 500; sessionKeyHash := [];
     generation := 1; nodeID := "n"; attachmentID := "a1"; attachmentSequence := 1 |}.

(** A session is opened, then the page arrives. *)
Definition ex_events : list auth_event :=
  [Auth_register ex_key ex_record 4 true; Auth_poll ex_page false 10 Committed].
Definition ex_start : node_state :=
  {| store := ex_open; registry := newSessionAuthRegistry; inflight := [] |}.
Definition ex_node : node_state := foldl (fun n ev => auth_step ev 10 n) ex_start ex_events.

Lemma revoked_sessions_are_closed_witness :
  (exists c, records (registry ex_node) !! ex_key = Some c /\
     revoked (lookup (store ex_node) 10) (record c) = true) /\
  (forall key c, records (registry (callbacks 10 ex_node)) !! key = Some c ->
     revoked (lookup (store ex_node) 10) (record c) = false) /\
  closing (registry (callbacks 10 ex_node)) = [(4%nat, "node authorization revoked")].
Proof.
  split; [eexists; split; [vm_compute; reflexivity|vm_compute; reflexivity]|].
  split; [|vm_compute; reflexivity].
  eapply (revoked_sessions_are_closed 10 empty_tables 10 ex_node).
  - exact empty_positive.
  - unfold ex_node, ex_events. cbn [foldl].
    refine (node_steps 10 empty_tables 10 10 _ (Auth_poll ex_page false 10 Committed) _
      (Z.le_refl 10) (Z.le_refl 10)).
    exact (node_steps 10 empty_tables 10 10 _ (Auth_register ex_key ex_record 4 true) (node_starts 10 empty_tables) (Z.le_refl 10) I).
Defined.

Lemma sessions_expire_once_witness :
  let n := auth_step (Auth_register ex_key ex_record 4 true) 10 ex_start in
  records (expire ex_key 0 (registry n)) !! ex_key = None /\
  expire ex_key 1 (registry n) = registry n.
Proof.
  cbv zeta.
  destruct (sessions_expire_once 10 empty_tables 10 (auth_step (Auth_register ex_key ex_record 4 true) 10 ex_start))
    as [H1 H2].
  - exact empty_positive.
  - exact (node_steps 10 empty_tables 10 10 _ (Auth_register ex_key ex_record 4 true) (node_starts 10 empty_tables) (Z.le_refl 10) I).
  - split.
    + refine (proj1 (proj2 (proj2 (H1 ex_key {| live := 0; record := ex_record; closeFn := 4 |} _)))).
      vm_compute. reflexivity.
    + apply H2. vm_compute. reflexivity.
Defined.
