(* ===== verification/AuthStore.v ===== *)
(** * The authorization service's durable state (src/internal/authsvc/store)

    The tables of the refresh sessions, the revocation feed and the device grants, and the
    methods of their repositories, statement by statement.  Columns that may be NULL are
    options.  The cached successor pair, JSON text in the table, is kept as the pair.  The size
    of an encoded feed entry is a parameter (protobuf). *)

From S2P Require Import Prelude GoLib Database.
Open Scope Z_scope.

(** ** Rows *)

(** A row of [users]; the primary key is the account's id. *)
Record User := { GithubSub : Z; Handle : string; UserStatus : string; UserCreatedAt : Z }.

Record successorPair := { CPAccessToken : string; NodeAccessToken : string; RefreshToken : string }.

(** A row of [refresh_sessions]; the primary key is the token's hash. *)
Record RefreshSession := {
  AccountID : string;
  FamilyID : string;
  ClientKind : string;
  SessionPubkeySPKI : bytes;
  CPAccessTokenID : string;
  NodeAccessTokenID : string;
  AccessExpiresAt : Z;
  CreatedAt : Z;
  LastUsedAt : Z;
  ExpiresAt : Z;
  FamilyCreatedAt : Z;
  SupersededBy : option string;
  SupersededAt : option Z;
  SuccessorCache : option successorPair;
  Revoked : bool
}.
#[export] Instance eta_RefreshSession : Eta RefreshSession := fun s =>
  {| AccountID := AccountID s; FamilyID := FamilyID s; ClientKind := ClientKind s;
     SessionPubkeySPKI := SessionPubkeySPKI s; CPAccessTokenID := CPAccessTokenID s;
     NodeAccessTokenID := NodeAccessTokenID s; AccessExpiresAt := AccessExpiresAt s;
     CreatedAt := CreatedAt s; LastUsedAt := LastUsedAt s; ExpiresAt := ExpiresAt s;
     FamilyCreatedAt := FamilyCreatedAt s; SupersededBy := SupersededBy s;
     SupersededAt := SupersededAt s; SuccessorCache := SuccessorCache s; Revoked := Revoked s |}.

Record RevokedToken := { TokenID : string; RetainUntil : Z }.

(** A row of [revocation_events], and the event with its tokens. *)
Record event_row := {
  ev_AccountID : string;
  ev_FamilyID : string;
  ev_RevokedAt : Z;
  RevokeTokensIssuedBefore : Z
}.
Record RevocationEvent := { ev_Seq : Z; ev_row : event_row; ev_RevokedTokens : list RevokedToken }.

Inductive GrantStatus := GrantPending | GrantApproved | GrantDenied | GrantRedeemed | GrantExpired.
#[export] Instance GrantStatus_eq_dec : EqDecision GrantStatus.
Proof. solve_decision. Defined.

(** A row of [device_grants]; the primary key is the device code's hash. *)
Record DeviceGrant := {
  UserCode : string;
  dg_SessionPubkeySPKI : bytes;
  dg_ClientKind : string;
  Status : GrantStatus;
  dg_AccountID : string;
  AttemptCount : Z;
  dg_CreatedAt : Z;
  dg_ExpiresAt : Z;
  LastPolledAt : Z
}.
#[export] Instance eta_DeviceGrant : Eta DeviceGrant := fun g =>
  {| UserCode := UserCode g; dg_SessionPubkeySPKI := dg_SessionPubkeySPKI g;
     dg_ClientKind := dg_ClientKind g; Status := Status g; dg_AccountID := dg_AccountID g;
     AttemptCount := AttemptCount g; dg_CreatedAt := dg_CreatedAt g;
     dg_ExpiresAt := dg_ExpiresAt g; LastPolledAt := LastPolledAt g |}.

(** The tables; [event_seq] is the high-water mark of AUTOINCREMENT. *)
Record auth_tables := {
  users : gmap string User;
  refresh_sessions : gmap string RefreshSession;
  device_grants : gmap string DeviceGrant;
  revocation_events : gmap Z event_row;
  event_tokens : gmap (Z * string) Z;
  event_seq : Z
}.
#[export] Instance eta_auth_tables : Eta auth_tables := fun d =>
  {| users := users d; refresh_sessions := refresh_sessions d; device_grants := device_grants d;
     revocation_events := revocation_events d; event_tokens := event_tokens d;
     event_seq := event_seq d |}.

Inductive auth_error :=
| ErrConflict
| ErrNotFound
| ErrFamilyRevoked
| ErrInvalid (what : string)
| ErrConstraint (what : string)
| ErrDriver (msg : string).

Abbreviation DB := (SQL auth_tables auth_error).
Abbreviation stmt := (Database.stmt ErrDriver).
Abbreviation run_in_tx := (Database.run_in_tx ErrDriver).

Definition query {A} (q : auth_tables -> A) : DB A := stmt (fun d => (Ok (q d), d)).
(** [UPDATE refresh_sessions SET f WHERE p], with the number of rows. *)
Definition exec_sessions (p : string -> RefreshSession -> bool)
    (f : RefreshSession -> RefreshSession) : DB Z :=
  stmt (fun d => (Ok (count_where p (refresh_sessions d)),
                  d <| refresh_sessions ::= update_where p f |>)).
Definition exec_grants (p : string -> DeviceGrant -> bool) (f : DeviceGrant -> DeviceGrant) : DB Z :=
  stmt (fun d => (Ok (count_where p (device_grants d)), d <| device_grants ::= update_where p f |>)).

(** [WithTx]; a method that opens a transaction of its own runs inline within one. *)
Definition in_tx {A} (top : bool) (m : DB A) : DB A := if top then run_in_tx m else m.

(** ** Refresh sessions (sessions.go) *)

Definition maxExplicitRevocationTokenIDs : Z := 1024.
Definition explicitRevocationTokenIDMargin : Z := 256.
Definition accessTokenIDsPerGeneration : Z := 2.
Definition maxRetainedAccessGenerationsPerScope : Z :=
  (maxExplicitRevocationTokenIDs - explicitRevocationTokenIDMargin) / accessTokenIDsPerGeneration.
Definition maxAccessTokenIDBytes : Z := 64.

Definition Get (tokenHash : string) : DB RefreshSession :=
  r ← query (fun d => refresh_sessions d !! tokenHash);
  match r with Some s => mret s | None => throw ErrNotFound end.

(** The row itself: the keys and checks of the table. *)
Definition insert_row (tokenHash : string) (s : RefreshSession) : DB unit :=
  stmt (fun d =>
    if bool_decide (is_Some (refresh_sessions d !! tokenHash)) then (Err (ErrConstraint "token_hash"), d)
    else if bool_decide (users d !! AccountID s = None) then (Err (ErrConstraint "account_id"), d)
    else if negb (String.eqb (ClientKind s) "web" || String.eqb (ClientKind s) "cli")
    then (Err (ErrConstraint "client_kind"), d)
    else (Ok tt, d <| refresh_sessions ::= <[tokenHash := s]> |>)).

Definition insert (tokenHash : string) (s : RefreshSession) : DB unit :=
  if (AccessExpiresAt s <=? 0) || String.eqb (CPAccessTokenID s) ""
     || String.eqb (NodeAccessTokenID s) "" || (maxAccessTokenIDBytes <? blen (CPAccessTokenID s))
     || (maxAccessTokenIDBytes <? blen (NodeAccessTokenID s))
  then throw (ErrInvalid "invalid paired access token")
  else
    retainableGenerations ← query (fun d =>
      count_where (fun _ r => String.eqb (FamilyID r) (FamilyID s) && (CreatedAt s <? AccessExpiresAt r))
        (refresh_sessions d));
    if maxRetainedAccessGenerationsPerScope <=? retainableGenerations
    then throw (ErrInvalid "refresh family has too many retained access generations")
    else
      accountSecondGenerations ← query (fun d =>
        count_where (fun _ r => String.eqb (AccountID r) (AccountID s) && (CreatedAt r =? CreatedAt s))
          (refresh_sessions d));
      if maxRetainedAccessGenerationsPerScope <=? accountSecondGenerations
      then throw (ErrInvalid "account has too many access generations in one second")
      else insert_row tokenHash s.

Definition Insert (top : bool) (tokenHash : string) (s : RefreshSession) : DB unit :=
  in_tx top (insert tokenHash s).

(** [r.Insert] at its end runs inline: [Supersede] is called inside [WithTx]. *)
Definition Supersede (predecessorHash successorHash : string) (successor : RefreshSession)
    (successorCache : successorPair) (now : Z) : DB unit :=
  exec_sessions (fun k s => String.eqb (FamilyID s) (FamilyID successor) && negb (String.eqb k predecessorHash))
    (fun s => s <| SuccessorCache := None |>);;
  n ← exec_sessions (fun k s => String.eqb k predecessorHash && negb (Revoked s) && is_none (SupersededBy s))
    (fun s => s <| SupersededBy := Some successorHash |> <| SupersededAt := Some now |>
                <| SuccessorCache := Some successorCache |> <| LastUsedAt := now |>);
  if n =? 0 then throw ErrConflict else Insert false successorHash successor.

Definition by_created (x y : string * RefreshSession) : Prop :=
  CreatedAt x.2 < CreatedAt y.2 \/ (CreatedAt x.2 = CreatedAt y.2 /\ String.le x.1 y.1).
#[export] Instance by_created_dec x y : Decision (by_created x y).
Proof. unfold by_created. apply _. Defined.

Definition access_tokens (s : RefreshSession) : list RevokedToken :=
  [{| TokenID := CPAccessTokenID s; RetainUntil := AccessExpiresAt s |};
   {| TokenID := NodeAccessTokenID s; RetainUntil := AccessExpiresAt s |}].

(** [column] is a column and [value] what it must hold. *)
Definition revoke (column : RefreshSession -> string) (value : string) (now : Z) (cutoffEvent : bool)
    : DB (list RevokedToken) :=
  live ← query (fun d => merge_sort by_created (select_where (fun _ s =>
    String.eqb (column s) value && negb (Revoked s) && (now <? AccessExpiresAt s)
    && (negb cutoffEvent || (now <=? CreatedAt s))) (refresh_sessions d)));
  exec_sessions (fun _ s => String.eqb (column s) value)
    (fun s => s <| Revoked := true |> <| SuccessorCache := None |>);;
  mret (flat_map (fun kv => access_tokens kv.2) live).

Definition RevokeFamily (familyID : string) (now : Z) : DB (list RevokedToken) :=
  revoke FamilyID familyID now false.
Definition RevokeAccount (accountID : string) (now : Z) : DB (list RevokedToken) :=
  revoke AccountID accountID now true.

Definition live_of_account (accountID : string) (_ : string) (s : RefreshSession) : bool :=
  String.eqb (AccountID s) accountID && negb (Revoked s).

(** [COUNT(DISTINCT family_id)] *)
Definition CountFamilies (accountID : string) : DB Z :=
  query (fun d => Z.of_nat (size (list_to_set (C := gset string)
    (map (fun kv => FamilyID kv.2) (select_where (live_of_account accountID) (refresh_sessions d)))))).

Definition by_family_age (x y : string * RefreshSession) : Prop :=
  FamilyCreatedAt x.2 <= FamilyCreatedAt y.2.
#[export] Instance by_family_age_dec x y : Decision (by_family_age x y).
Proof. unfold by_family_age. apply _. Defined.

(** Ties come in the order of the table. *)
Definition OldestFamily (accountID : string) : DB string :=
  r ← query (fun d => head (merge_sort by_family_age
    (select_where (live_of_account accountID) (refresh_sessions d))));
  match r with Some (_, s) => mret (FamilyID s) | None => throw ErrNotFound end.

Definition DeleteExpired (now : Z) : DB Z :=
  stmt (fun d => (Ok (count_where (fun _ s => ExpiresAt s <? now) (refresh_sessions d)),
    d <| refresh_sessions ::= filter (fun kv => ~ ExpiresAt kv.2 < now) |>)).

(** ** The revocation feed (revocations.go) *)

Definition maxRevokedTokensPerEvent : Z := 1024.
Definition maxRevocationPayloadBytes : Z := 60 * 1024.

Fixpoint valid_event_tokens (revokedAt : Z) (seen : gset string) (l : list RevokedToken)
    : option string :=
  match l with
  | [] => None
  | t :: l =>
      if String.eqb (TokenID t) "" || (RetainUntil t <=? revokedAt) then Some "invalid revoked token"
      else if bool_decide (TokenID t ∈ seen) then Some "duplicate revoked token"
      else valid_event_tokens revokedAt ({[TokenID t]} ∪ seen) l
  end.

(** [(account_id, family_id)] of the account-wide events of an account *)
Definition account_wide (accountID : string) (_ : Z) (e : event_row) : bool :=
  String.eqb (ev_AccountID e) accountID && String.eqb (ev_FamilyID e) "".

Definition by_cutoff (x y : Z * event_row) : Prop :=
  RevokeTokensIssuedBefore y.2 < RevokeTokensIssuedBefore x.2
  \/ (RevokeTokensIssuedBefore x.2 = RevokeTokensIssuedBefore y.2 /\ y.1 <= x.1).
#[export] Instance by_cutoff_dec x y : Decision (by_cutoff x y).
Proof. unfold by_cutoff. apply _. Defined.
Definition by_seq (x y : Z * event_row) : Prop := x.1 <= y.1.
#[export] Instance by_seq_dec x y : Decision (by_seq x y).
Proof. unfold by_seq. apply _. Defined.
Definition by_token (x y : RevokedToken) : Prop := String.le (TokenID x) (TokenID y).
#[export] Instance by_token_dec x y : Decision (by_token x y).
Proof. unfold by_token. apply _. Defined.

(** [SELECT * FROM revocation_event_tokens WHERE event_seq = ? ORDER BY token_id ASC] *)
Definition tokens_of (d : auth_tables) (seq : Z) : list RevokedToken :=
  merge_sort by_token
    (map (fun kv => {| TokenID := kv.1.2; RetainUntil := kv.2 |})
       (select_where (fun k _ => k.1 =? seq) (event_tokens d))).

(** [ON CONFLICT DO UPDATE SET retain_until = MAX(...)] *)
Definition upsert_token (k : Z * string) (v : Z) (m : gmap (Z * string) Z) : gmap (Z * string) Z :=
  match m !! k with
  | Some old => <[k := Z.max old v]> m
  | None => <[k := v]> m
  end.

Section Feed.
(** [proto.Size] of the feed entry of an event with the largest sequence number. *)
Context (proto_Size : event_row -> list RevokedToken -> Z).

Definition validateRevocationEvent (e : event_row) (l : list RevokedToken) : option string :=
  if String.eqb (ev_AccountID e) "" || (ev_RevokedAt e <=? 0) then Some "invalid revocation event"
  else if String.eqb (ev_FamilyID e) "" && (RevokeTokensIssuedBefore e <=? 0)
  then Some "account revocation cutoff required"
  else if negb (String.eqb (ev_FamilyID e) "")
          && (negb (RevokeTokensIssuedBefore e =? 0) || bool_decide (l = []))
  then Some "invalid family revocation"
  else if maxRevokedTokensPerEvent <? Z.of_nat (length l)
  then Some "revocation event has too many tokens"
  else
    match valid_event_tokens (ev_RevokedAt e) ∅ l with
    | Some what => Some what
    | None => if maxRevocationPayloadBytes <? proto_Size e l
              then Some "revocation event payload is too large" else None
    end.

Definition check_event (e : event_row) (l : list RevokedToken) : DB unit :=
  match validateRevocationEvent e l with Some what => throw (ErrInvalid what) | None => mret tt end.

(** The tokens of the account's events with the cutoff [cutoff] go to the event [keep]; each
    event's rows are distinct, so that inserting them one by one takes their maximum. *)
Definition merge_tokens (accountID : string) (keep cutoff : Z) (d : auth_tables) : auth_tables :=
  let sources := select_where (fun k _ =>
    match revocation_events d !! k.1 with
    | Some e => account_wide accountID k.1 e && (RevokeTokensIssuedBefore e =? cutoff)
    | None => false
    end) (event_tokens d) in
  d <| event_tokens ::= (fun t => foldr (fun kv t => upsert_token (keep, kv.1.2) kv.2 t) t sources) |>.

(** [DELETE FROM revocation_events WHERE ...]; their tokens go with them. *)
Definition delete_events (p : Z -> event_row -> bool) (d : auth_tables) : auth_tables :=
  let gone := select_where p (revocation_events d) in
  d <| revocation_events ::= filter (fun kv => p kv.1 kv.2 = false) |>
    <| event_tokens ::= filter (fun kv => (kv.1.1 ∉ map fst gone)) |>.

Definition compactAccountRevocations (accountID : string) : DB unit :=
  r ← query (fun d => head (merge_sort by_cutoff (select_where (account_wide accountID) (revocation_events d))));
  match r with
  | None => throw (ErrInvalid "select account revocation keeper: no rows")
  | Some (seq, keep) =>
      stmt (fun d => (Ok tt, merge_tokens accountID seq (RevokeTokensIssuedBefore keep) d));;
      l ← query (fun d => tokens_of d seq);
      check_event keep l;;
      stmt (fun d => (Ok tt, delete_events (fun k e => account_wide accountID k e && negb (k =? seq)) d))
  end.

(** [append]: the new event's sequence number. *)
Definition append (e : event_row) (l : list RevokedToken) : DB Z :=
  check_event e l;;
  seq ← stmt (fun d =>
    let seq := event_seq d + 1 in
    (Ok seq, d <| revocation_events ::= <[seq := e]> |> <| event_seq := seq |>));
  (if bool_decide (l = []) then mret tt
   else stmt (fun d => (Ok tt, d <| event_tokens ::=
          (fun t => foldr (fun x t => <[(seq, TokenID x) := RetainUntil x]> t) t l) |>)));;
  (if String.eqb (ev_FamilyID e) "" then compactAccountRevocations (ev_AccountID e) else mret tt);;
  mret seq.
Definition Append (top : bool) (e : event_row) (l : list RevokedToken) : DB Z := in_tx top (append e l).

Definition has_tokens (d : auth_tables) (seq : Z) : bool :=
  negb (bool_decide (select_where (fun k _ => k.1 =? seq) (event_tokens d) = [])).

Fixpoint compact_all (accounts : list string) : DB unit :=
  match accounts with
  | [] => mret tt
  | a :: l => compactAccountRevocations a;; compact_all l
  end.

Fixpoint read_events (l : list (Z * event_row)) : DB (list RevocationEvent) :=
  match l with
  | [] => mret []
  | (k, e) :: l =>
      ts ← query (fun d => tokens_of d k);
      rest ← read_events l;
      mret ({| ev_Seq := k; ev_row := e; ev_RevokedTokens := ts |} :: rest)
  end.

Definition pageAfter (seq limit now : Z) : DB (list RevocationEvent * bool) :=
  stmt (fun d => (Ok tt, d <| event_tokens ::= filter (fun kv => now < kv.2) |>));;
  stmt (fun d => (Ok tt, delete_events (fun k e =>
    negb (String.eqb (ev_FamilyID e) "") && negb (has_tokens d k)) d));;
  accounts ← query (fun d => elements (list_to_set (C := gset string)
    (map (fun kv => ev_AccountID kv.2)
      (select_where (fun _ e => String.eqb (ev_FamilyID e) "") (revocation_events d)))));
  compact_all accounts;;
  events ← query (fun d => take (Z.to_nat (limit + 1))
    (merge_sort by_seq (select_where (fun k _ => seq <? k) (revocation_events d))));
  let hasMore := limit <? Z.of_nat (length events) in
  let events := if hasMore then take (Z.to_nat limit) events else events in
  evs ← read_events events;
  mret (evs, hasMore).

Definition PageAfter (seq limit now : Z) : DB (list RevocationEvent * bool) :=
  if (seq <? 0) || (limit <=? 0) || (now <? 0) then throw (ErrInvalid "invalid revocation page request")
  else run_in_tx (pageAfter seq limit now).
End Feed.

(** ** Device grants (devicegrants.go) *)

(** [user_code] is unique. *)
Definition grant_Create (hash : string) (g : DeviceGrant) : DB unit :=
  stmt (fun d =>
    if bool_decide (is_Some (device_grants d !! hash)) then (Err (ErrConstraint "device_code_hash"), d)
    else if 0 <? count_where (fun _ x => String.eqb (UserCode x) (UserCode g)) (device_grants d)
    then (Err (ErrConstraint "user_code"), d)
    else if negb (String.eqb (dg_ClientKind g) "web" || String.eqb (dg_ClientKind g) "cli")
    then (Err (ErrConstraint "client_kind"), d)
    else (Ok tt, d <| device_grants ::= <[hash := g]> |>)).

Definition GetByUserCode (userCode : string) : DB (string * DeviceGrant) :=
  r ← query (fun d => head (select_where (fun _ g => String.eqb (UserCode g) userCode) (device_grants d)));
  match r with Some kv => mret kv | None => throw ErrNotFound end.

Definition grant_Get (hash : string) : DB DeviceGrant :=
  r ← query (fun d => device_grants d !! hash);
  match r with Some g => mret g | None => throw ErrNotFound end.

Definition SetDecision (userCode accountID : string) (status : GrantStatus) : DB unit :=
  n ← exec_grants (fun _ g => String.eqb (UserCode g) userCode && bool_decide (Status g = GrantPending))
        (fun g => g <| Status := status |> <| dg_AccountID := accountID |>);
  if n =? 0 then throw ErrConflict else mret tt.

(** [UPDATE ... RETURNING *] *)
Definition update_grant (hash : string) (p : DeviceGrant -> bool) (f : DeviceGrant -> DeviceGrant)
    (missing : auth_error) : DB DeviceGrant :=
  stmt (fun d =>
    match device_grants d !! hash with
    | Some g => if p g then (Ok (f g), d <| device_grants ::= <[hash := f g]> |>) else (Err missing, d)
    | None => (Err missing, d)
    end).

Definition Redeem (hash : string) : DB DeviceGrant :=
  update_grant hash (fun g => bool_decide (Status g = GrantApproved))
    (fun g => g <| Status := GrantRedeemed |>) ErrConflict.
Definition BumpAttempt (hash : string) : DB Z :=
  g ← update_grant hash (fun _ => true) (fun g => g <| AttemptCount ::= Z.succ |>) ErrNotFound;
  mret (AttemptCount g).
Definition SetLastPolled (hash : string) (now : Z) : DB unit :=
  exec_grants (fun k _ => String.eqb k hash) (fun g => g <| LastPolledAt := now |>);; mret tt.
Definition SetStatus (hash : string) (status : GrantStatus) : DB unit :=
  exec_grants (fun k _ => String.eqb k hash) (fun g => g <| Status := status |>);; mret tt.

(** ** Users (users.go) *)

(** [github_sub] is unique too. *)
Definition user_Create (accountID : string) (u : User) : DB unit :=
  stmt (fun d =>
    if bool_decide (is_Some (users d !! accountID)) then (Err ErrConflict, d)
    else if 0 <? count_where (fun _ x => GithubSub x =? GithubSub u) (users d) then (Err ErrConflict, d)
    else if negb (String.eqb (UserStatus u) "active" || String.eqb (UserStatus u) "disabled")
    then (Err (ErrConstraint "status"), d)
    else (Ok tt, d <| users ::= <[accountID := u]> |>)).

Definition GetByID (accountID : string) : DB User :=
  r ← query (fun d => users d !! accountID);
  match r with Some u => mret u | None => throw ErrNotFound end.
Definition GetBySub (githubSub : Z) : DB (string * User) :=
  r ← query (fun d => head (select_where (fun _ u => GithubSub u =? githubSub) (users d)));
  match r with Some kv => mret kv | None => throw ErrNotFound end.

Definition updateOne (accountID : string) (f : User -> User) : DB unit :=
  n ← stmt (fun d => (Ok (count_where (fun k _ => String.eqb k accountID) (users d)),
                      d <| users ::= update_where (fun k _ => String.eqb k accountID) f |>));
  if n =? 0 then throw ErrNotFound else mret tt.
Definition user_SetStatus (accountID status : string) : DB unit :=
  updateOne accountID (fun u => {| GithubSub := GithubSub u; Handle := Handle u; UserStatus := status;
                                   UserCreatedAt := UserCreatedAt u |}).
Definition user_SetHandle (accountID handle : string) : DB unit :=
  updateOne accountID (fun u => {| GithubSub := GithubSub u; Handle := handle; UserStatus := UserStatus u;
                                   UserCreatedAt := UserCreatedAt u |}).
