(* ===== verification/AuthFlow.v ===== *)
(** * Refresh families and their revocation (src/internal/authsvc)

    Logging in, refreshing with a proof of possession, logging out, the cap on families and the
    device grant, over the tables of AuthStore.v.  A handler gets the request's parsed fields,
    the clock and the random values it draws ([fresh]); rate limits, cookies and HTTP are left
    out.  The signer of session tokens and the size of a feed entry are parameters; SHA-256,
    ECDSA and PKIX are those of Intent.v. *)

From S2P Require Import Prelude GoLib Database Intent AuthStore.
From Stdlib Require Import Ascii.
Open Scope Z_scope.

(** ** Constants (idp.go, device.go) *)

Definition Minute : Z := 60 * Second.
Definition Hour : Z := 60 * Minute.
Definition accessTokenTTL : Z := 15 * Minute.
Definition refreshSliding : Z := 30 * 24 * Hour.
Definition familyMaxAge : Z := 90 * 24 * Hour.
Definition replayGrace : Z := 45 * Second.
Definition popSkew : Z := 90 * Second.
Definition deviceCodeTTL : Z := 15 * Minute.
Definition maxDeviceAttempt : Z := 10.
Definition refreshPoPDomain : string := "spawnery/refresh-pop/v1".

(** [t.Unix()], and [int64(d.Seconds())] of a whole number of seconds. *)
Definition unix (t : Z) : Z := t / Second.
Definition seconds (d : Z) : Z := d / Second.

(** [d.Abs()]: the opposite of the least duration is the largest. *)
Definition Abs (d : Z) : Z :=
  if 0 <=? d then d else if d =? minDuration then maxDuration else - d.

Definition hex_digit (n : Z) : ascii := ascii_of_N (Z.to_N (if n <? 10 then 48 + n else 87 + n)).
(** [hex.EncodeToString] *)
Definition hex (l : bytes) : string :=
  of_bytes (flat_map (fun a => [hex_digit (byte_of a / 16); hex_digit (byte_of a mod 16)]) l).

(** ** Proof of possession (pop.go) *)

Record PoPProof := {
  RefreshTokenHash : bytes;
  Timestamp : Z;
  Nonce : bytes;
  (** [None]: nil *)
  PoPSig : option bytes
}.

Record fresh := {
  f_cp : string;      (** the token ids, [uuid.NewString] *)
  f_node : string;
  f_refresh : string; (** [randOpaque] *)
  f_family : string
}.

(** [authv1.SessionTokenBody] as it is minted. *)
Record SessionBody := {
  sb_AccountId : string; sb_Handle : string; sb_TokenId : string; sb_Audience : string;
  sb_IssuedAt : Z; sb_ExpiresAt : Z; sb_SessionKeyHash : bytes; sb_KeyId : string;
  sb_FamilyId : string
}.
Definition AudienceCP : string := "cp".
Definition AudienceNode : string := "node".

Record accessPair := {
  CPWire : string; NodeWire : string; CPTokenID : string; NodeTokenID : string;
  pair_IssuedAt : Z; pair_ExpiresAt : Z
}.

Section Flow.
Context `{IntentCrypto}.
Context (proto_Size : event_row -> list RevokedToken -> Z).
(** The current signer: its key id, and what it makes of a body. *)
Context (keyID : string) (Sign : SessionBody -> option string).
Context (MaxFamilies : Z).

Definition sha256Hex (s : string) : string := hex (Sum256 (bytes_of s)).
Definition sha256sum (b : bytes) : bytes := Sum256 b.

Definition pop_message (proof : PoPProof) : bytes :=
  bytes_of refreshPoPDomain ++ RefreshTokenHash proof ++ big_endian 8 (u64 (Timestamp proof)) ++ Nonce proof.

Definition VerifyPoP (spkiDER : bytes) (proof : PoPProof) (now : Z) : result auth_error unit :=
  match PoPSig proof with
  | None => Err (ErrInvalid "pop: proof-of-possession required")
  | Some sig =>
      if (length (Nonce proof) <? 16)%nat then Err (ErrInvalid "pop: nonce too short")
      else if popSkew <? Abs (Sub now (Unix (Timestamp proof)))
      then Err (ErrInvalid "pop: timestamp out of window")
      else
        match ParsePKIXPublicKey spkiDER with
        | Some (Some ec) =>
            if negb (length sig =? 64)%nat then Err (ErrInvalid "pop: signature invalid")
            else if ecdsa_Verify ec (Sum256 (pop_message proof)) (SetBytes (take 32 sig)) (SetBytes (drop 32 sig))
            then Ok tt else Err (ErrInvalid "pop: signature invalid")
        | _ => Err (ErrInvalid "pop: session key not P-256")
        end
  end.

(** ** Minting (idp.go) *)

Definition mintAccessPair (accountID : string) (u : User) (familyID : string) (spkiDER : bytes)
    (now : Z) (f : fresh) : result auth_error accessPair :=
  let iat := unix now in
  let exp := unix (now + accessTokenTTL) in
  let body tokenID audience :=
    {| sb_AccountId := accountID; sb_Handle := Handle u; sb_TokenId := tokenID;
       sb_Audience := audience; sb_IssuedAt := iat; sb_ExpiresAt := exp;
       sb_SessionKeyHash := SessionKeyHash spkiDER; sb_KeyId := keyID; sb_FamilyId := familyID |} in
  match Sign (body (f_cp f) AudienceCP), Sign (body (f_node f) AudienceNode) with
  | Some cp, Some node =>
      Ok {| CPWire := cp; NodeWire := node; CPTokenID := f_cp f; NodeTokenID := f_node f;
            pair_IssuedAt := iat; pair_ExpiresAt := exp |}
  | _, _ => Err (ErrInvalid "sign")
  end.

Definition lift {A} (r : result auth_error A) : DB A :=
  match r with Ok a => mret a | Err e => throw e end.

(** The row of a pair minted with [f]. *)
Definition session_row (accountID familyID kind : string) (spki : bytes) (pair : accessPair)
    (now familyCreatedAt : Z) : RefreshSession :=
  {| AccountID := accountID; FamilyID := familyID; ClientKind := kind; SessionPubkeySPKI := spki;
     CPAccessTokenID := CPTokenID pair; NodeAccessTokenID := NodeTokenID pair;
     AccessExpiresAt := pair_ExpiresAt pair; CreatedAt := unix now; LastUsedAt := unix now;
     ExpiresAt := unix (now + refreshSliding); FamilyCreatedAt := familyCreatedAt;
     SupersededBy := None; SupersededAt := None; SuccessorCache := None; Revoked := false |}.

(** ** Revocation events (idp.go) *)

Definition appendFamilyRevocation (accountID familyID : string) (tokens : list RevokedToken)
    (now : Z) : DB unit :=
  if bool_decide (tokens = []) then mret tt
  else
    Append proto_Size false
      {| ev_AccountID := accountID; ev_FamilyID := familyID; ev_RevokedAt := unix now;
         RevokeTokensIssuedBefore := 0 |} tokens;; mret tt.

Definition appendAccountRevocation (accountID : string) (tokens : list RevokedToken) (now : Z)
    : DB unit :=
  Append proto_Size false
    {| ev_AccountID := accountID; ev_FamilyID := ""; ev_RevokedAt := unix now;
       RevokeTokensIssuedBefore := unix now |} tokens;; mret tt.

(** A family revoked and its event, in the caller's transaction. *)
Definition revoke_family (accountID familyID : string) (now : Z) : DB unit :=
  liveIDs ← RevokeFamily familyID (unix now);
  appendFamilyRevocation accountID familyID liveIDs now.

(** ** Refreshing (refresh.go) *)

Definition rotateSession (tokenHash : string) (row : RefreshSession) (now : Z) (f : fresh)
    : DB successorPair :=
  u ← GetByID (AccountID row);
  pair ← lift (mintAccessPair (AccountID row) u (FamilyID row) (SessionPubkeySPKI row) now f);
  let successor := session_row (AccountID row) (FamilyID row) (ClientKind row)
                     (SessionPubkeySPKI row) pair now (FamilyCreatedAt row) in
  let cache := {| CPAccessToken := CPWire pair; NodeAccessToken := NodeWire pair;
                  RefreshToken := f_refresh f |} in
  Supersede tokenHash (sha256Hex (f_refresh f)) successor cache (unix now);;
  mret cache.

Inductive refresh_answer := Refreshed (pair : successorPair) | Reuse_revoked.

(** The transaction's body; a row whose [superseded_by] is NULL reads as [""]. *)
Definition refresh_tx (rawToken : string) (proof : PoPProof) (now : Z) (f : fresh)
    : DB refresh_answer :=
  let tokenHash := sha256Hex rawToken in
  r ← try (Get tokenHash);
  match r with
  | Err ErrNotFound => throw (ErrInvalid "refresh: token not found")
  | Err e => throw e
  | Ok row =>
      if Revoked row then throw ErrFamilyRevoked
      else if FamilyCreatedAt row + seconds familyMaxAge <=? unix now
      then throw (ErrInvalid "refresh: family max age exceeded")
      else if ExpiresAt row <=? unix now then throw (ErrInvalid "refresh: token expired")
      else
        let proof := {| RefreshTokenHash := sha256sum (bytes_of rawToken);
                        Timestamp := Timestamp proof; Nonce := Nonce proof; PoPSig := PoPSig proof |} in
        lift (VerifyPoP (SessionPubkeySPKI row) proof now);;
        match SupersededBy row with
        | Some _ =>
            let age := unix now - default 0 (SupersededAt row) in
            match SuccessorCache row with
            | Some cached =>
                if age <=? seconds replayGrace then mret (Refreshed cached)
                else revoke_family (AccountID row) (FamilyID row) now;; mret Reuse_revoked
            | None => revoke_family (AccountID row) (FamilyID row) now;; mret Reuse_revoked
            end
        | None =>
            pair ← rotateSession tokenHash row now f;
            mret (Refreshed pair)
        end
  end.

Definition handleRefresh (rawToken : string) (proof : PoPProof) (now : Z) (f : fresh)
    : DB successorPair :=
  a ← run_in_tx (refresh_tx rawToken proof now f);
  match a with Refreshed p => mret p | Reuse_revoked => throw ErrFamilyRevoked end.

(** ** Logging out (logout.go) *)

Definition logoutEverywhere (accountID : string) (now : Z) : DB unit :=
  run_in_tx (
    liveTokens ← RevokeAccount accountID (unix now);
    appendAccountRevocation accountID liveTokens now).

Definition serveLogout (rawToken : string) (everywhere : bool) (now : Z) : DB unit :=
  row ← Get (sha256Hex rawToken);
  if everywhere then logoutEverywhere (AccountID row) now
  else run_in_tx (revoke_family (AccountID row) (FamilyID row) now).

(** ** Logging in (oauth.go) *)

Definition enforceCapOrEvict (accountID : string) (now : Z) : DB unit :=
  n ← CountFamilies accountID;
  if n <? MaxFamilies then mret tt
  else
    oldest ← OldestFamily accountID;
    run_in_tx (revoke_family accountID oldest now).

(** A new family: its pair, and its first row. *)
Definition open_family (top : bool) (accountID : string) (u : User) (kind : string)
    (spkiDER : bytes) (now : Z) (f : fresh) : DB (accessPair * string) :=
  minted ← lift (mintAccessPair accountID u (f_family f) spkiDER now f);
  Insert top (sha256Hex (f_refresh f))
    (session_row accountID (f_family f) kind spkiDER minted now (unix now));;
  mret (minted, f_refresh f).

(** The end of [serveCallback], once the user and the session key are known. *)
Definition callback_session (accountID : string) (u : User) (spkiDER : bytes) (loopback : bool)
    (now : Z) (f : fresh) : DB (accessPair * string) :=
  enforceCapOrEvict accountID now;;
  open_family true accountID u (if loopback then "cli" else "web") spkiDER now f.

(** ** Device grants (device.go) *)

Inductive device_reply :=
| Authorization_pending | Access_denied | Invalid_grant | Expired_token | Server_error
| Session_required | Invalid_user_code
| Grant_created (deviceCode userCode : string)
| Device_approved
| Issued (pair : accessPair) (rawRefresh : string).

Definition serveDeviceAuthorize (spkiDER : bytes) (clientKind deviceCode userCode : string) (now : Z)
    : DB device_reply :=
  let grant :=
    {| UserCode := userCode; dg_SessionPubkeySPKI := spkiDER;
       dg_ClientKind := if String.eqb clientKind "" then "cli" else clientKind;
       Status := GrantPending; dg_AccountID := ""; AttemptCount := 0;
       dg_CreatedAt := unix now; dg_ExpiresAt := unix (now + deviceCodeTTL); LastPolledAt := 0 |} in
  r ← try (grant_Create (sha256Hex deviceCode) grant);
  mret (match r with Ok _ => Grant_created deviceCode userCode | Err _ => Server_error end).

(** [requireRefreshCookieSession]: the account of the browser's session. *)
Definition requireRefreshCookieSession (cookie : string) (now : Z) : DB (option string) :=
  r ← try (Get (sha256Hex cookie));
  mret (match r with
        | Ok row => if Revoked row || (ExpiresAt row <=? unix now) then None else Some (AccountID row)
        | Err _ => None
        end).

Definition serveDeviceVerifyPost (cookie userCode : string) (now : Z) : DB device_reply :=
  session ← requireRefreshCookieSession cookie now;
  match session with
  | None => mret Session_required
  | Some accountID =>
      g ← try (GetByUserCode userCode);
      match g with
      | Err ErrNotFound => mret Invalid_user_code
      | Err _ => mret Server_error
      | Ok (hash, grant) =>
          count ← try (BumpAttempt hash);
          match count with
          | Err _ => mret Server_error
          | Ok count =>
              if maxDeviceAttempt <? count then mret Access_denied
              else if dg_ExpiresAt grant <=? unix now then mret Expired_token
              else if negb (bool_decide (Status grant = GrantPending)) then mret Invalid_grant
              else
                r ← try (SetDecision userCode accountID GrantApproved);
                mret (match r with Ok _ => Device_approved | Err _ => Server_error end)
          end
      end
  end.

(** The transaction of [serveDeviceToken]. *)
Definition redeem_tx (codeHash : string) (now : Z) (f : fresh) : DB (accessPair * string) :=
  redeemed ← Redeem codeHash;
  txUser ← GetByID (dg_AccountID redeemed);
  open_family false (dg_AccountID redeemed) txUser "cli" (dg_SessionPubkeySPKI redeemed) now f.

Definition serveDeviceToken (rawDeviceCode : string) (now : Z) (f : fresh) : DB device_reply :=
  let codeHash := sha256Hex rawDeviceCode in
  g ← try (grant_Get codeHash);
  match g with
  | Err ErrNotFound => mret Invalid_grant
  | Err _ => mret Server_error
  | Ok grant =>
      try (SetLastPolled codeHash (unix now));;
      if dg_ExpiresAt grant <=? unix now then mret Expired_token
      else
        match Status grant with
        | GrantPending => mret Authorization_pending
        | GrantDenied => mret Access_denied
        | GrantRedeemed => mret Invalid_grant
        | GrantExpired => mret Expired_token
        | GrantApproved =>
            u ← try (GetByID (dg_AccountID grant));
            match u with
            | Err _ => mret Server_error
            | Ok _ =>
                cap ← try (enforceCapOrEvict (dg_AccountID grant) now);
                match cap with
                | Err _ => mret Server_error
                | Ok _ =>
                    r ← try (run_in_tx (redeem_tx codeHash now f));
                    mret (match r with
                          | Ok (p, rawRefresh) => Issued p rawRefresh
                          | Err ErrConflict => Invalid_grant
                          | Err _ => Server_error
                          end)
                end
            end
        end
  end.
End Flow.
