(* ===== verification/AuthLaws.v ===== *)
(** * What the repositories of the authorization service leave in the tables *)

From S2P Require Import Prelude GoLib Database AuthStore.
Open Scope Z_scope.

(** Inversion of outcomes along a program. *)
Ltac inv_ret H := apply outcome_ret in H as [H ?]; simplify_eq.
Ltac inv_throw H := apply outcome_throw in H as [H ?]; simplify_eq.
Tactic Notation "inv_bind" hyp(H) "as" simple_intropattern(p) :=
  apply outcome_bind in H as [(? & H & ?)|p]; [by simplify_eq|].

Lemma outcome_query {A} (q : auth_tables -> A) d r d' :
  outcome (query q) d r d' -> d' = d /\ (r = Ok (q d) \/ exists msg, r = Err (ErrDriver msg)).
Proof.
  intros [(msg & -> & ->)|Hq]%outcome_stmt; [split; eauto|]. simplify_eq. split; auto.
Qed.
Lemma outcome_query_ok {A} (q : auth_tables -> A) d a d' :
  outcome (query q) d (Ok a) d' -> d' = d /\ a = q d.
Proof. intros [-> [[= ->]|[? [=]]]]%outcome_query. done. Qed.
Lemma outcome_stmt_ok {A} (q : auth_tables -> result auth_error A * auth_tables) d a d' :
  outcome (stmt q) d (Ok a) d' -> q d = (Ok a, d').
Proof. by intros [(? & [=] & _)|Hq]%outcome_stmt. Qed.

(** ** Refresh sessions *)

Lemma Get_outcome h d r d' :
  outcome (Get h) d r d' ->
  d' = d /\ match r with
             | Ok s => refresh_sessions d !! h = Some s
             | Err e => e = ErrNotFound \/ exists msg, e = ErrDriver msg
             end.
Proof.
  unfold Get. intros [(e & -> & Hm)|(o & d1 & [-> ->]%outcome_query_ok & Hm)]%outcome_bind.
  - apply outcome_query in Hm as [-> [[=]|[msg [= ->]]]]. split; [done|]. right. by exists msg.
  - destruct (refresh_sessions d !! h) as [s|].
    + inv_ret Hm. done.
    + inv_throw Hm. auto.
Qed.
Lemma GetByID_outcome a d u d' :
  outcome (GetByID a) d (Ok u) d' -> d' = d /\ users d !! a = Some u.
Proof.
  unfold GetByID. intros Hm. inv_bind Hm as (o & d1 & [-> ->]%outcome_query_ok & Hm).
  destruct (users d !! a); [inv_ret Hm; done|inv_throw Hm].
Qed.

(** What [insert] checked of a row. *)
Definition row_ok (s : RefreshSession) : Prop :=
  0 < AccessExpiresAt s /\ CPAccessTokenID s <> "" /\ NodeAccessTokenID s <> "" /\
  blen (CPAccessTokenID s) <= maxAccessTokenIDBytes /\ blen (NodeAccessTokenID s) <= maxAccessTokenIDBytes.

Definition family_generations (family : string) (at_ : Z) (d : auth_tables) : Z :=
  count_where (fun _ r => String.eqb (FamilyID r) family && (at_ <? AccessExpiresAt r)) (refresh_sessions d).
Definition second_generations (account : string) (at_ : Z) (d : auth_tables) : Z :=
  count_where (fun _ r => String.eqb (AccountID r) account && (CreatedAt r =? at_)) (refresh_sessions d).

Lemma insert_outcome h s d d' :
  outcome (insert h s) d (Ok tt) d' ->
  row_ok s /\ family_generations (FamilyID s) (CreatedAt s) d < maxRetainedAccessGenerationsPerScope /\
  second_generations (AccountID s) (CreatedAt s) d < maxRetainedAccessGenerationsPerScope /\
  refresh_sessions d !! h = None /\ is_Some (users d !! AccountID s) /\
  d' = d <| refresh_sessions ::= <[h := s]> |>.
Proof.
  unfold insert. destruct (_ || _) eqn:Hrow; [intros Hm; inv_throw Hm|]. intros Hm.
  inv_bind Hm as (n & d1 & [-> ->]%outcome_query_ok & Hm).
  destruct (_ <=? _) eqn:Hn in Hm; [inv_throw Hm|].
  inv_bind Hm as (n & d1 & [-> ->]%outcome_query_ok & Hm).
  destruct (_ <=? _) eqn:Hn2 in Hm; [inv_throw Hm|].
  unfold insert_row in Hm. apply outcome_stmt_ok in Hm.
  case_bool_decide as Hk; [done|]. case_bool_decide as Hu; [done|]. destruct (negb _); [done|]. simplify_eq.
  brefl. destruct Hrow as [[[[H1 H2] H3] H4] H5].
  unfold row_ok. split; [split_and!; [lia|done|done|lia|lia]|].
  split_and!; [exact Hn|exact Hn2|by apply eq_None_not_Some|by apply not_eq_None_Some|done].
Qed.

Lemma Insert_false h s d r d' : outcome (Insert false h s) d r d' -> outcome (insert h s) d r d'.
Proof. done. Qed.

(** The two updates of [Supersede]. *)
Definition clear_cache (s : RefreshSession) : RefreshSession := s <| SuccessorCache := None |>.
Definition stamp (successor : string) (cache : successorPair) (now : Z) (s : RefreshSession)
    : RefreshSession :=
  s <| SupersededBy := Some successor |> <| SupersededAt := Some now |>
    <| SuccessorCache := Some cache |> <| LastUsedAt := now |>.
Definition superseded (pred succ family : string) (cache : successorPair) (now : Z)
    (t : gmap string RefreshSession) : gmap string RefreshSession :=
  map_imap (fun k s => Some (
    if String.eqb k pred then stamp succ cache now s
    else if String.eqb (FamilyID s) family then clear_cache s else s)) t.

Lemma lookup_superseded pred succ family cache now t k :
  superseded pred succ family cache now t !! k =
    (fun s => if String.eqb k pred then stamp succ cache now s
              else if String.eqb (FamilyID s) family then clear_cache s else s) <$> t !! k.
Proof. unfold superseded. rewrite map_lookup_imap. by destruct (t !! k). Qed.

Lemma count_where_pos {V} (p : string -> V -> bool) (t : gmap string V) :
  count_where p t <> 0 -> exists k v, t !! k = Some v /\ p k v = true.
Proof.
  unfold count_where. destruct (select_where p t) as [|[k v] l] eqn:Hs; [done|]. intros _.
  exists k, v. apply elem_of_select_where. rewrite Hs. left.
Qed.

Lemma Supersede_outcome pred succ s cache now d d' :
  outcome (Supersede pred succ s cache now) d (Ok tt) d' ->
  exists old d1,
    refresh_sessions d !! pred = Some old /\ Revoked old = false /\ SupersededBy old = None /\
    d1 = d <| refresh_sessions ::= superseded pred succ (FamilyID s) cache now |> /\
    outcome (insert succ s) d1 (Ok tt) d'.
Proof.
  unfold Supersede, exec_sessions. intros Hm.
  inv_bind Hm as (n1 & d1 & Hm1 & Hm). apply outcome_stmt_ok in Hm1. injection Hm1 as <- <-.
  inv_bind Hm as (n2 & d2 & Hm2 & Hm). apply outcome_stmt_ok in Hm2. injection Hm2 as <- <-.
  set (t1 := update_where _ _ (refresh_sessions d)) in *. cbn [refresh_sessions set_field] in Hm.
  change (refresh_sessions (set_field refresh_sessions _ d)) with t1 in Hm.
  destruct (Z.eqb_spec (count_where (fun k r => String.eqb k pred && negb (Revoked r) && is_none (SupersededBy r)) t1) 0)
    as [_|Hne]; [inv_throw Hm|]. apply count_where_pos in Hne as (k & old1 & Hk & Hp). brefl.
  destruct Hp as [[-> Hrev] Hsup].
  subst t1. rewrite lookup_update_where in Hk. destruct (refresh_sessions d !! pred) as [old|] eqn:Hold; [|done].
  cbn in Hk. rewrite String.eqb_refl, andb_false_r in Hk. injection Hk as <-.
  exists old. eexists. split; [done|]. split; [by destruct (Revoked old)|].
  split; [by destruct (SupersededBy old)|]. split; [reflexivity|].
  match goal with |- outcome _ ?x _ _ => match type of Hm with outcome _ ?y _ _ => assert (x = y) as ->; [|exact Hm] end end.
  unfold set_field. cbn. f_equal. apply map_eq. intros k. rewrite lookup_superseded, !lookup_update_where.
  destruct (refresh_sessions d !! k) as [x|] eqn:Hx; [|done]. cbn. f_equal.
  destruct (String.eqb_spec k pred) as [->|Hne]; cbn.
  - simplify_eq. rewrite andb_false_r. unfold stamp. destruct old as [? ? ? ? ? ? ? ? ? ? ? [?|] ? ? ?]; cbn in *; by simplify_eq.
  - rewrite andb_true_r. by destruct (String.eqb (FamilyID x) (FamilyID s)).
Qed.

(** The rows a [revoke] selects and the update it makes. *)
Definition revocable (column : RefreshSession -> string) (value : string) (now : Z) (cutoffEvent : bool)
    (_ : string) (s : RefreshSession) : bool :=
  String.eqb (column s) value && negb (Revoked s) && (now <? AccessExpiresAt s)
  && (negb cutoffEvent || (now <=? CreatedAt s)).
Definition revoke_row (s : RefreshSession) : RefreshSession :=
  s <| Revoked := true |> <| SuccessorCache := None |>.
Definition revoked_rows (column : RefreshSession -> string) (value : string)
    : gmap string RefreshSession -> gmap string RefreshSession :=
  update_where (fun _ s => String.eqb (column s) value) revoke_row.

Lemma revoke_outcome column value now cutoffEvent d l d' :
  outcome (revoke column value now cutoffEvent) d (Ok l) d' ->
  d' = d <| refresh_sessions ::= revoked_rows column value |> /\
  l = flat_map (fun kv => access_tokens kv.2)
        (merge_sort by_created (select_where (revocable column value now cutoffEvent) (refresh_sessions d))).
Proof.
  unfold revoke, exec_sessions. intros Hm.
  inv_bind Hm as (live & d1 & [-> ->]%outcome_query_ok & Hm).
  inv_bind Hm as (n & d2 & Hm2 & Hm). apply outcome_stmt_ok in Hm2. injection Hm2 as <- <-.
  inv_ret Hm. done.
Qed.

(** The tokens of the revocable rows, in any order. *)
Lemma elem_of_revoked column value now cutoffEvent d (t : RevokedToken) :
  t ∈ flat_map (fun kv => access_tokens kv.2)
        (merge_sort by_created (select_where (revocable column value now cutoffEvent) (refresh_sessions d))) <->
  exists h s, refresh_sessions d !! h = Some s /\ revocable column value now cutoffEvent h s = true /\
    t ∈ access_tokens s.
Proof.
  rewrite list_elem_of_In, in_flat_map. split.
  - intros ([h s] & Hin & Ht). apply list_elem_of_In in Hin, Ht.
    rewrite (merge_sort_Permutation by_created) in Hin. apply elem_of_select_where in Hin as [Hs Hr].
    by exists h, s.
  - intros (h & s & Hs & Hr & Ht). exists (h, s). split; [|by apply list_elem_of_In].
    apply list_elem_of_In. rewrite (merge_sort_Permutation by_created). by apply elem_of_select_where.
Qed.

(** ** The feed *)

Section FeedLaws.
Context (proto_Size : event_row -> list RevokedToken -> Z).

Lemma check_event_outcome e l d r d' :
  outcome (check_event proto_Size e l) d r d' ->
  d' = d /\ (r = Ok tt -> validateRevocationEvent proto_Size e l = None).
Proof.
  unfold check_event. destruct (validateRevocationEvent proto_Size e l); intros Hm; [inv_throw Hm|inv_ret Hm]; done.
Qed.

(** What validation guarantees. *)
Record event_valid (e : event_row) (l : list RevokedToken) : Prop := {
  ev_account : ev_AccountID e <> "";
  ev_at : 0 < ev_RevokedAt e;
  ev_cutoff : ev_FamilyID e = "" -> 0 < RevokeTokensIssuedBefore e;
  ev_family : ev_FamilyID e <> "" -> RevokeTokensIssuedBefore e = 0 /\ l <> [];
  ev_tokens : Forall (fun t => TokenID t <> "" /\ ev_RevokedAt e < RetainUntil t) l;
  ev_nodup : NoDup (map TokenID l)
}.

Lemma valid_event_tokens_None at_ seen l :
  valid_event_tokens at_ seen l = None ->
  Forall (fun t => TokenID t <> "" /\ at_ < RetainUntil t) l /\
  NoDup (map TokenID l) /\ (forall t, t ∈ l -> TokenID t ∉ seen).
Proof.
  revert seen. induction l as [|t l IH]; intros seen; cbn.
  { intros _. split_and!; [constructor|constructor|by intros ? ?%elem_of_nil]. }
  destruct (_ || _) eqn:Hb; [done|]. case_bool_decide as Hs; [done|]. intros (H1 & H2 & H3)%IH.
  brefl. destruct Hb as [Hne Hlt]. split_and!.
  - constructor; [by split; [|lia]|done].
  - cbn. constructor; [|done]. intros Hin. apply list_elem_of_fmap in Hin as (t' & Heq & Ht').
    specialize (H3 _ Ht'). rewrite <- Heq in H3. set_solver.
  - intros t' [->|Ht']%elem_of_cons; [done|]. specialize (H3 _ Ht'). set_solver.
Qed.

Lemma validate_valid e l : validateRevocationEvent proto_Size e l = None -> event_valid e l.
Proof.
  unfold validateRevocationEvent. destruct (_ || _) eqn:H1; [done|]. destruct (_ && _) eqn:H2; [done|].
  destruct (negb (String.eqb (ev_FamilyID e) "") && _) eqn:H3; [done|].
  destruct (_ <? _); [done|]. destruct (valid_event_tokens _ _ _) eqn:H4; [done|]. intros _.
  apply valid_event_tokens_None in H4 as (H5 & H6 & _). brefl. destruct H1 as [Ha Hat].
  split; try done; tauto.
Qed.

(** *** Compaction *)

Definition keeper (accountID : string) (d : auth_tables) : option (Z * event_row) :=
  head (merge_sort by_cutoff (select_where (account_wide accountID) (revocation_events d))).
Definition not_keeper (accountID : string) (seq : Z) (k : Z) (e : event_row) : bool :=
  account_wide accountID k e && negb (k =? seq).

#[local] Instance by_cutoff_total : Total by_cutoff.
Proof. intros [k1 e1] [k2 e2]. unfold by_cutoff. cbn. lia. Qed.
#[local] Instance by_cutoff_trans : Transitive by_cutoff.
Proof. intros [k1 e1] [k2 e2] [k3 e3]. unfold by_cutoff. cbn. lia. Qed.

(** The keeper has the largest cutoff, and the largest number among those. *)
Lemma keeper_spec accountID d seq keep :
  keeper accountID d = Some (seq, keep) ->
  revocation_events d !! seq = Some keep /\ account_wide accountID seq keep = true /\
  forall k e, revocation_events d !! k = Some e -> account_wide accountID k e = true ->
    by_cutoff (seq, keep) (k, e).
Proof.
  unfold keeper. intros Hhead.
  assert (StronglySorted by_cutoff (merge_sort by_cutoff (select_where (account_wide accountID) (revocation_events d))))
    as Hsorted by apply (StronglySorted_merge_sort by_cutoff).
  pose proof (merge_sort_Permutation by_cutoff (select_where (account_wide accountID) (revocation_events d))) as Hperm.
  destruct (merge_sort by_cutoff _) as [|x l]; [done|]. injection Hhead as ->.
  assert ((seq, keep) ∈ select_where (account_wide accountID) (revocation_events d)) as Hin
    by (rewrite <- Hperm; left).
  apply elem_of_select_where in Hin as [H1 H2]. split_and!; [done..|]. intros k e Hk He.
  assert ((k, e) ∈ (seq, keep) :: l) as Hke by (rewrite Hperm; by apply elem_of_select_where).
  apply StronglySorted_inv in Hsorted as [_ Hall]. apply elem_of_cons in Hke as [[= -> ->]|Hke].
  - unfold by_cutoff. cbn. lia.
  - rewrite Forall_forall in Hall. by apply Hall.
Qed.

Lemma compact_outcome accountID d d' :
  outcome (compactAccountRevocations proto_Size accountID) d (Ok tt) d' ->
  exists seq keep d1,
    keeper accountID d = Some (seq, keep) /\
    d1 = merge_tokens accountID seq (RevokeTokensIssuedBefore keep) d /\
    validateRevocationEvent proto_Size keep (tokens_of d1 seq) = None /\
    d' = delete_events (not_keeper accountID seq) d1.
Proof.
  unfold compactAccountRevocations. intros Hm.
  inv_bind Hm as (o & d1 & [-> ->]%outcome_query_ok & Hm). fold (keeper accountID d) in Hm.
  destruct (keeper accountID d) as [[seq keep]|] eqn:Hk; [|inv_throw Hm].
  inv_bind Hm as (u & d1 & Hm1 & Hm). apply outcome_stmt_ok in Hm1. injection Hm1 as _ <-.
  inv_bind Hm as (l & d2 & [-> ->]%outcome_query_ok & Hm).
  inv_bind Hm as (u2 & d2 & [-> Hv]%check_event_outcome & Hm).
  apply outcome_stmt_ok in Hm. injection Hm as <-.
  exists seq, keep, (merge_tokens accountID seq (RevokeTokensIssuedBefore keep) d).
  destruct u2. split_and!; try done. by apply Hv.
Qed.

(** *** Appending *)

Definition add_tokens (seq : Z) (l : list RevokedToken) (t : gmap (Z * string) Z) : gmap (Z * string) Z :=
  foldr (fun x t => <[(seq, TokenID x) := RetainUntil x]> t) t l.
Definition add_event (e : event_row) (l : list RevokedToken) (d : auth_tables) : auth_tables :=
  let seq := event_seq d + 1 in
  d <| revocation_events ::= <[seq := e]> |> <| event_seq := seq |> <| event_tokens ::= add_tokens seq l |>.

Lemma append_outcome e l d seq d' :
  outcome (append proto_Size e l) d (Ok seq) d' ->
  seq = event_seq d + 1 /\ validateRevocationEvent proto_Size e l = None /\
  (if String.eqb (ev_FamilyID e) ""
   then outcome (compactAccountRevocations proto_Size (ev_AccountID e)) (add_event e l d) (Ok tt) d'
   else d' = add_event e l d).
Proof.
  unfold append. intros Hm. inv_bind Hm as (u & d1 & [-> Hv]%check_event_outcome & Hm). destruct u.
  inv_bind Hm as (seq1 & d1 & Hm1 & Hm). apply outcome_stmt_ok in Hm1. injection Hm1 as <- <-.
  inv_bind Hm as (u & d2 & Hm2 & Hm). inv_bind Hm as (u2 & d3 & Hm3 & Hm). inv_ret Hm.
  assert (d2 = add_event e l d) as ->.
  { case_bool_decide as Hl.
    - inv_ret Hm2. by destruct d.
    - apply outcome_stmt_ok in Hm2. injection Hm2 as _ <-. done. }
  split; [done|]. split; [by apply Hv|].
  destruct (String.eqb (ev_FamilyID e) ""); [by destruct u2|]. by inv_ret Hm3.
Qed.

(** *** Reading a page *)

Definition prune_tokens (now : Z) (d : auth_tables) : auth_tables :=
  d <| event_tokens ::= filter (fun kv => now < kv.2) |>.
Definition empty_family (d : auth_tables) (k : Z) (e : event_row) : bool :=
  negb (String.eqb (ev_FamilyID e) "") && negb (has_tokens d k).
Definition event_of (d : auth_tables) (kv : Z * event_row) : RevocationEvent :=
  {| ev_Seq := kv.1; ev_row := kv.2; ev_RevokedTokens := tokens_of d kv.1 |}.
Definition events_after (seq : Z) (d : auth_tables) : list (Z * event_row) :=
  merge_sort by_seq (select_where (fun k _ => seq <? k) (revocation_events d)).

Lemma read_events_outcome l d evs d' :
  outcome (read_events l) d (Ok evs) d' -> d' = d /\ evs = map (event_of d) l.
Proof.
  revert evs d'. induction l as [|[k e] l IH]; intros evs d'; cbn [read_events]; intros Hm.
  { by inv_ret Hm. }
  inv_bind Hm as (ts & d1 & [-> ->]%outcome_query_ok & Hm).
  inv_bind Hm as (rest & d1 & [-> ->]%IH & Hm). by inv_ret Hm.
Qed.

(** Compactions one after the other. *)
Inductive compacted : auth_tables -> auth_tables -> Prop :=
| compacted_here d : compacted d d
| compacted_step d d1 d2 a :
    outcome (compactAccountRevocations proto_Size a) d (Ok tt) d1 -> compacted d1 d2 -> compacted d d2.

Lemma compact_all_outcome l d d' : outcome (compact_all proto_Size l) d (Ok tt) d' -> compacted d d'.
Proof.
  revert d. induction l as [|a l IH]; intros d Hm; cbn [compact_all] in Hm.
  { inv_ret Hm. constructor. }
  inv_bind Hm as (u & d1 & H1 & Hm). destruct u. econstructor; [exact H1|by apply IH].
Qed.

Lemma PageAfter_outcome seq limit now d evs more d' :
  outcome (PageAfter proto_Size seq limit now) d (Ok (evs, more)) d' ->
  0 <= seq /\ 0 < limit /\ 0 <= now /\
  compacted (delete_events (empty_family (prune_tokens now d)) (prune_tokens now d)) d' /\
  more = (limit <? Z.of_nat (length (take (Z.to_nat (limit + 1)) (events_after seq d')))) /\
  evs = map (event_of d')
          (if more then take (Z.to_nat limit) (take (Z.to_nat (limit + 1)) (events_after seq d'))
           else take (Z.to_nat (limit + 1)) (events_after seq d')).
Proof.
  unfold PageAfter. destruct (_ || _) eqn:Hb; [intros Hm; inv_throw Hm|].
  intros [(a & [= <-] & Hm)|(? & [=] & _)]%outcome_tx. unfold pageAfter in Hm.
  inv_bind Hm as (u & d1 & Hm1 & Hm). apply outcome_stmt_ok in Hm1. injection Hm1 as _ <-.
  inv_bind Hm as (u2 & d2 & Hm2 & Hm). apply outcome_stmt_ok in Hm2. injection Hm2 as _ <-.
  inv_bind Hm as (accounts & d3 & [-> ->]%outcome_query_ok & Hm).
  inv_bind Hm as (u3 & d3 & Hm3 & Hm). destruct u3. apply compact_all_outcome in Hm3.
  inv_bind Hm as (events & d4 & [-> ->]%outcome_query_ok & Hm).
  inv_bind Hm as (evs' & d4 & [-> ->]%read_events_outcome & Hm). inv_ret Hm.
  brefl. split_and!; [lia..|exact Hm3|done|done].
Qed.
Lemma PageAfter_error seq limit now d e d' :
  outcome (PageAfter proto_Size seq limit now) d (Err e) d' -> d' = d.
Proof.
  unfold PageAfter. destruct (_ || _); [by intros [_ ->]%outcome_throw|].
  by intros [(a & [=] & _)|(? & _ & ->)]%outcome_tx.
Qed.
End FeedLaws.
