(* ===== verification/AuthFeed.v ===== *)
(** * The revocation feed: well-formed, and never forgetting *)

From S2P Require Import Prelude GoLib Database AuthStore AuthLaws.
Open Scope Z_scope.

Definition event_ok (e : event_row) : Prop :=
  ev_AccountID e <> "" /\ 0 < ev_RevokedAt e /\
  (ev_FamilyID e = "" -> 0 < RevokeTokensIssuedBefore e) /\
  (ev_FamilyID e <> "" -> RevokeTokensIssuedBefore e = 0).

Record feed_wf (d : auth_tables) : Prop := {
  fw_pos : 0 <= event_seq d;
  fw_seq k e : revocation_events d !! k = Some e -> 1 <= k <= event_seq d;
  fw_event k e : revocation_events d !! k = Some e -> event_ok e;
  fw_token k tok v : event_tokens d !! (k, tok) = Some v ->
    exists e, revocation_events d !! k = Some e /\ tok <> "" /\ ev_RevokedAt e < v
}.

(** The feed denies an access token of [acct] issued at [iat] and expiring at [exp]: an event
    lists it for long enough, or a cutoff of the account is past it.  An account-wide event lists
    only tokens that existed when it was recorded. *)
Definition covers (d : auth_tables) (tok acct : string) (exp iat : Z) : Prop :=
  exists k e, revocation_events d !! k = Some e /\
    ((exists v, event_tokens d !! (k, tok) = Some v /\ exp <= v /\
        (ev_FamilyID e = "" -> ev_AccountID e = acct /\ iat <= RevokeTokensIssuedBefore e)) \/
     (ev_FamilyID e = "" /\ ev_AccountID e = acct /\ iat < RevokeTokensIssuedBefore e)).

(** [d'] says nothing new under the numbers [d] has given out. *)
Definition feed_le (d d' : auth_tables) : Prop :=
  event_seq d <= event_seq d' /\
  (forall k e, k <= event_seq d -> revocation_events d' !! k = Some e -> revocation_events d !! k = Some e) /\
  (forall k tok v, k <= event_seq d -> event_tokens d' !! (k, tok) = Some v ->
     exists k', k' <= k /\ event_tokens d !! (k', tok) = Some v).

Lemma feed_le_refl d : feed_le d d.
Proof. split; [lia|]. split; [done|]. intros k tok v _ Hv. exists k. split; [lia|done]. Qed.
Lemma feed_le_trans d1 d2 d3 : feed_le d1 d2 -> feed_le d2 d3 -> feed_le d1 d3.
Proof.
  intros (H1 & H2 & H3) (H4 & H5 & H6). split; [lia|]. split.
  - intros k e Hk He. apply H2; [done|]. apply H5; [lia|done].
  - intros k tok v Hk Hv. apply H6 in Hv as (k' & Hle & Hv); [|lia].
    apply H3 in Hv as (k2 & Hle2 & Hv); [|lia]. exists k2. split; [lia|done].
Qed.

(** ** Merging tokens *)

Definition merged (keep : Z) (sources : list ((Z * string) * Z)) (t : gmap (Z * string) Z)
    : gmap (Z * string) Z :=
  foldr (fun kv t => upsert_token (keep, kv.1.2) kv.2 t) t sources.

Lemma upsert_token_ge k v m k' old :
  m !! k' = Some old -> exists v', upsert_token k v m !! k' = Some v' /\ old <= v'.
Proof.
  intros Hk'. unfold upsert_token. destruct (decide (k = k')) as [<-|Hne].
  - rewrite Hk', lookup_insert_eq. eexists. split; [done|lia].
  - exists old. split; [|lia]. destruct (m !! k); by rewrite lookup_insert_ne.
Qed.
Lemma upsert_token_new k v m : exists v', upsert_token k v m !! k = Some v' /\ v <= v'.
Proof.
  unfold upsert_token. destruct (m !! k); rewrite lookup_insert_eq; eexists; (split; [done|lia]).
Qed.
Lemma upsert_token_inv k v m k' v' :
  upsert_token k v m !! k' = Some v' -> m !! k' = Some v' \/ (k' = k /\ v' = v).
Proof.
  unfold upsert_token. destruct (m !! k) as [old|] eqn:Hk;
    intros [[<- <-]|[_ Hk']]%lookup_insert_Some; auto.
  destruct (Z.max_spec old v) as [[_ ->]|[_ ->]]; auto.
Qed.

Lemma merged_ge keep l t k old : t !! k = Some old -> exists v, merged keep l t !! k = Some v /\ old <= v.
Proof.
  intros Hk. induction l as [|x l (v & Hv & Hle)]; [exists old; split; [done|lia]|].
  cbn. destruct (upsert_token_ge (keep, x.1.2) x.2 _ _ _ Hv) as (v' & ? & ?). exists v'. split; [done|lia].
Qed.
Lemma merged_new keep l t k tok v :
  ((k, tok), v) ∈ l -> exists v', merged keep l t !! (keep, tok) = Some v' /\ v <= v'.
Proof.
  induction l as [|x l IH]; [by intros ?%elem_of_nil|]. intros [<-|Hin]%elem_of_cons; cbn.
  - apply upsert_token_new.
  - destruct (IH Hin) as (v' & Hv' & Hle).
    destruct (upsert_token_ge (keep, x.1.2) x.2 _ _ _ Hv') as (v2 & ? & ?). exists v2. split; [done|lia].
Qed.
Lemma merged_inv keep l t k tok v :
  merged keep l t !! (k, tok) = Some v ->
  t !! (k, tok) = Some v \/ (k = keep /\ exists k', ((k', tok), v) ∈ l).
Proof.
  induction l as [|x l IH]; [by left|]. cbn. intros [H|[[= -> ->] ->]]%upsert_token_inv.
  - destruct (IH H) as [|(-> & k' & Hk')]; [by left|right]. split; [done|]. exists k'. by right.
  - right. split; [done|]. exists x.1.1. destruct x as [[? ?] ?]. left.
Qed.

(** ** Deleting events *)

Lemma lookup_delete_events_event p d k e :
  revocation_events (delete_events p d) !! k = Some e <-> revocation_events d !! k = Some e /\ p k e = false.
Proof. unfold delete_events. cbn. by rewrite map_lookup_filter_Some. Qed.
Lemma lookup_delete_events_token p d k tok v :
  event_tokens (delete_events p d) !! (k, tok) = Some v <->
  event_tokens d !! (k, tok) = Some v /\
  (forall e, revocation_events d !! k = Some e -> p k e = false).
Proof.
  unfold delete_events. cbn. rewrite map_lookup_filter_Some. cbn. split; intros [Hv Hk]; (split; [done|]).
  - intros e He. destruct (p k e) eqn:Hp; [|done]. destruct Hk. apply list_elem_of_fmap.
    exists (k, e). split; [done|]. by apply elem_of_select_where.
  - intros Hin. apply list_elem_of_fmap in Hin as ([k' e] & -> & Hin). cbn in *.
    apply elem_of_select_where in Hin as [He Hp]. by rewrite (Hk _ He) in Hp.
Qed.

Lemma delete_events_wf p d : feed_wf d -> feed_wf (delete_events p d).
Proof.
  intros [Hpos Hseq Hev Htok]. split; [done| | |].
  - intros k e [He _]%lookup_delete_events_event. by eapply Hseq.
  - intros k e [He _]%lookup_delete_events_event. by eapply Hev.
  - intros k tok v [Hv Hp]%lookup_delete_events_token. destruct (Htok _ _ _ Hv) as (e & He & ? & ?).
    exists e. split_and!; [|done..]. apply lookup_delete_events_event. split; [done|by apply Hp].
Qed.
Lemma delete_events_le p d : feed_le d (delete_events p d).
Proof.
  split; [done|]. split.
  - by intros k e _ [He _]%lookup_delete_events_event.
  - intros k tok v _ [Hv _]%lookup_delete_events_token. exists k. split; [lia|done].
Qed.

(** ** Compaction *)

Section Compaction.
Context (proto_Size : event_row -> list RevokedToken -> Z).
Context (accountID : string) (seq : Z) (keep : event_row) (d : auth_tables).
Let d1 := merge_tokens accountID seq (RevokeTokensIssuedBefore keep) d.
Context (Hk : keeper accountID d = Some (seq, keep)).
Context (Hv : validateRevocationEvent proto_Size keep (tokens_of d1 seq) = None).
Context (Hwf : feed_wf d).

Lemma merge_events : revocation_events d1 = revocation_events d.
Proof. done. Qed.

(** A merged token comes from the account's event with the keeper's cutoff. *)
Lemma merge_token_inv k tok v :
  event_tokens d1 !! (k, tok) = Some v ->
  event_tokens d !! (k, tok) = Some v \/
  (k = seq /\ exists k' e, event_tokens d !! (k', tok) = Some v /\ revocation_events d !! k' = Some e /\
     account_wide accountID k' e = true /\ RevokeTokensIssuedBefore e = RevokeTokensIssuedBefore keep).
Proof.
  intros [H|(-> & k' & Hin)]%merged_inv; [by left|right]. split; [done|].
  apply elem_of_select_where in Hin as [Ht Hp]. cbn in Hp.
  destruct (revocation_events d !! k') as [e|] eqn:He; [|done]. brefl. exists k', e. by destruct Hp.
Qed.

Lemma compact_event_valid : event_valid keep (tokens_of d1 seq).
Proof. by eapply validate_valid. Qed.

Lemma elem_of_tokens_of d0 k t : t ∈ tokens_of d0 k <-> event_tokens d0 !! (k, TokenID t) = Some (RetainUntil t).
Proof.
  unfold tokens_of. rewrite (merge_sort_Permutation by_token), list_elem_of_fmap. split.
  - intros ([[k' tok] v] & -> & Hin). apply elem_of_select_where in Hin as [Ht Hp]. cbn in *. brefl. by subst.
  - intros Ht. exists ((k, TokenID t), RetainUntil t). split; [by destruct t|].
    apply elem_of_select_where. split; [done|]. cbn. apply Z.eqb_refl.
Qed.

Lemma merge_wf : feed_wf d1.
Proof.
  pose proof Hwf as [Hpos Hseq Hev Htok]. split; [done|done|done|]. intros k tok v Ht.
  pose proof Ht as [H|[-> (k' & e & H & He & _)]]%merge_token_inv; [by apply Htok|].
  destruct (keeper_spec _ _ _ _ Hk) as (Hkeep & _). exists keep. split; [exact Hkeep|].
  destruct compact_event_valid as [_ _ _ _ Hall _]. rewrite Forall_forall in Hall.
  apply (Hall {| TokenID := tok; RetainUntil := v |}). by apply elem_of_tokens_of.
Qed.

Lemma keeper_max k e :
  revocation_events d !! k = Some e -> account_wide accountID k e = true -> by_cutoff (seq, keep) (k, e).
Proof. by apply keeper_spec. Qed.

Lemma merge_le : feed_le d d1.
Proof.
  split; [done|]. split; [done|]. intros k tok v _ [H|[-> (k' & e & H & He & Ha & Hc)]]%merge_token_inv.
  - exists k. split; [lia|done].
  - exists k'. split; [|done]. pose proof (keeper_max _ _ He Ha) as Hmax. unfold by_cutoff in Hmax. cbn in Hmax. lia.
Qed.

Lemma compact_covers tok acct exp iat :
  covers d tok acct exp iat -> covers (delete_events (not_keeper accountID seq) d1) tok acct exp iat.
Proof.
  destruct (keeper_spec _ _ _ _ Hk) as (Hkeep & Hwide & Hmax). intros (k & e & He & Hcov).
  assert (revocation_events (delete_events (not_keeper accountID seq) d1) !! seq = Some keep) as Hkeep'.
  { apply lookup_delete_events_event. split; [exact Hkeep|]. unfold not_keeper. by rewrite Z.eqb_refl, andb_false_r. }
  assert (forall v, event_tokens d1 !! (seq, tok) = Some v ->
    event_tokens (delete_events (not_keeper accountID seq) d1) !! (seq, tok) = Some v) as Htok'.
  { intros v Ht. apply lookup_delete_events_token. split; [done|]. intros e' He'.
    unfold not_keeper. by rewrite Z.eqb_refl, andb_false_r. }
  destruct (not_keeper accountID seq k e) eqn:Hgone.
  - unfold not_keeper in Hgone. apply andb_true_iff in Hgone as [Ha _].
    specialize (Hmax _ _ He Ha). unfold by_cutoff in Hmax. cbn in Hmax.
    unfold account_wide in Hwide, Ha. brefl. destruct Hwide as [Hw1 Hw2], Ha as [Ha1 Ha2].
    exists seq, keep. split; [done|]. destruct Hcov as [(v & Ht & Hle & Hf)|(Hf & Hacct & Hlt)].
    + destruct (Hf Ha2) as [Hacct Hiat].
      destruct (decide (RevokeTokensIssuedBefore e = RevokeTokensIssuedBefore keep)) as [Heq|Hne].
      * left. destruct (merged_new seq (select_where (fun k _ =>
          match revocation_events d !! k.1 with
          | Some e => account_wide accountID k.1 e && (RevokeTokensIssuedBefore e =? RevokeTokensIssuedBefore keep)
          | None => false end) (event_tokens d)) (event_tokens d) k tok v) as (v' & Hv' & Hge).
        { apply elem_of_select_where. split; [done|]. cbn. rewrite He. unfold account_wide.
          rewrite Ha1, Ha2, Heq. by rewrite !String.eqb_refl, Z.eqb_refl. }
        exists v'. split; [by apply Htok'|]. split; [lia|]. intros _. split; [congruence|lia].
      * right. split_and!; [done|congruence|lia].
    + right. split_and!; [done|congruence|lia].
  - assert (revocation_events (delete_events (not_keeper accountID seq) d1) !! k = Some e) as He'
      by (by apply lookup_delete_events_event).
    exists k, e. split; [done|]. destruct Hcov as [(v & Ht & Hle & Hf)|Hcut]; [left|by right].
    destruct (merged_ge seq (select_where (fun k _ =>
          match revocation_events d !! k.1 with
          | Some e => account_wide accountID k.1 e && (RevokeTokensIssuedBefore e =? RevokeTokensIssuedBefore keep)
          | None => false end) (event_tokens d)) _ _ _ Ht) as (v' & Hv' & Hge).
    exists v'. split; [|split; [lia|done]]. apply lookup_delete_events_token. split; [exact Hv'|].
    intros e2 He2. assert (e2 = e) as -> by (rewrite merge_events in He2; congruence). done.
Qed.
End Compaction.

(** One compaction, and several. *)
Lemma compact_feed proto_Size accountID d d' :
  outcome (compactAccountRevocations proto_Size accountID) d (Ok tt) d' -> feed_wf d ->
  feed_wf d' /\ feed_le d d' /\ (forall tok acct exp iat, covers d tok acct exp iat -> covers d' tok acct exp iat) /\
  refresh_sessions d' = refresh_sessions d /\ users d' = users d /\ device_grants d' = device_grants d.
Proof.
  intros (seq & keep & d1 & Hk & -> & Hv & ->)%compact_outcome Hwf. split.
  { apply delete_events_wf. by eapply merge_wf. }
  split. { eapply feed_le_trans; [by apply merge_le|apply delete_events_le]. }
  split; [|done]. intros *. by eapply compact_covers.
Qed.
Lemma compacted_feed proto_Size d d' :
  compacted proto_Size d d' -> feed_wf d ->
  feed_wf d' /\ feed_le d d' /\ (forall tok acct exp iat, covers d tok acct exp iat -> covers d' tok acct exp iat) /\
  refresh_sessions d' = refresh_sessions d /\ users d' = users d /\ device_grants d' = device_grants d.
Proof.
  induction 1 as [d|d d1 d2 a Hc _ IH]; intros Hwf.
  { split; [done|]. split; [apply feed_le_refl|done]. }
  destruct (compact_feed _ _ _ _ Hc Hwf) as (H1 & H2 & H3 & H4 & H5 & H6).
  destruct (IH H1) as (G1 & G2 & G3 & G4 & G5 & G6). split; [done|]. split; [by eapply feed_le_trans|].
  split; [intros; by apply G3, H3|]. split_and!; congruence.
Qed.

(** ** Appending *)

Lemma add_tokens_other seq l t k : k.1 <> seq -> add_tokens seq l t !! k = t !! k.
Proof.
  intros Hk. induction l as [|x l IH]; [done|]. cbn. rewrite lookup_insert_ne; [done|].
  intros <-. by cbn in Hk.
Qed.
Lemma add_tokens_inv seq l t tok v :
  add_tokens seq l t !! (seq, tok) = Some v ->
  t !! (seq, tok) = Some v \/ exists x, x ∈ l /\ TokenID x = tok /\ RetainUntil x = v.
Proof.
  induction l as [|x l IH]; [by left|]. cbn. intros [[[= <-] <-]|[_ H]]%lookup_insert_Some.
  - right. exists x. split; [left|done].
  - destruct (IH H) as [|(y & ? & ?)]; [by left|right]. exists y. split; [by right|done].
Qed.
Lemma add_tokens_new seq l t x :
  NoDup (map TokenID l) -> x ∈ l -> add_tokens seq l t !! (seq, TokenID x) = Some (RetainUntil x).
Proof.
  induction l as [|y l IH]; [by intros _ ?%elem_of_nil|]. intros [Hy Hl]%NoDup_cons. cbn.
  intros [->|Hx]%elem_of_cons; [apply lookup_insert_eq|]. rewrite lookup_insert_ne; [by apply IH|].
  intros [= Heq]. destruct Hy. rewrite Heq. by apply list_elem_of_fmap_2.
Qed.

Lemma add_event_wf e l d : feed_wf d -> event_valid e l -> feed_wf (add_event e l d).
Proof.
  intros [Hpos Hseq Hev Htok] [Ha Hat Hcut Hfam Hl Hnd]. split; cbn.
  - lia.
  - intros k e' [[<- <-]|[_ Hk]]%lookup_insert_Some; [lia|]. apply Hseq in Hk. lia.
  - intros k e' [[<- <-]|[_ Hk]]%lookup_insert_Some; [|by eapply Hev]. unfold event_ok. split_and!; try done.
    intros H. by destruct (Hfam H).
  - intros k tok v. destruct (decide (k = event_seq d + 1)) as [->|Hne].
    + intros [Hv|(x & Hx & <- & <-)]%add_tokens_inv.
      * apply Htok in Hv as (e' & He' & _). apply Hseq in He'. lia.
      * exists e. rewrite lookup_insert_eq. rewrite Forall_forall in Hl. by destruct (Hl x Hx).
    + rewrite add_tokens_other by done. intros Hv. destruct (Htok _ _ _ Hv) as (e' & He' & ? & ?).
      exists e'. by rewrite lookup_insert_ne.
Qed.
Lemma add_event_le e l d : feed_le d (add_event e l d).
Proof.
  split; [cbn; lia|]. split; cbn.
  - intros k e' Hk. rewrite lookup_insert_ne by lia. done.
  - intros k tok v Hk. rewrite add_tokens_other by (cbn; lia). intros Hv. exists k. split; [lia|done].
Qed.
Lemma add_event_covers e l d tok acct exp iat :
  feed_wf d -> covers d tok acct exp iat -> covers (add_event e l d) tok acct exp iat.
Proof.
  intros Hwf (k & e' & He' & Hcov). pose proof (fw_seq _ Hwf _ _ He') as Hk. exists k, e'. cbn.
  rewrite lookup_insert_ne by lia. split; [done|].
  destruct Hcov as [(v & Hv & ?)|Hcut]; [left|by right]. exists v.
  rewrite add_tokens_other by (cbn; lia). done.
Qed.
Lemma add_event_new e l d x acct iat :
  NoDup (map TokenID l) -> x ∈ l ->
  (ev_FamilyID e = "" -> ev_AccountID e = acct /\ iat <= RevokeTokensIssuedBefore e) ->
  covers (add_event e l d) (TokenID x) acct (RetainUntil x) iat.
Proof.
  intros Hnd Hx He. exists (event_seq d + 1), e. cbn. rewrite lookup_insert_eq. split; [done|]. left.
  exists (RetainUntil x). rewrite add_tokens_new by done. split_and!; [done|lia|exact He].
Qed.
Lemma add_event_cutoff e l d tok exp iat :
  ev_FamilyID e = "" -> iat < RevokeTokensIssuedBefore e ->
  covers (add_event e l d) tok (ev_AccountID e) exp iat.
Proof.
  intros Hf Hlt. exists (event_seq d + 1), e. cbn. rewrite lookup_insert_eq. split; [done|]. by right.
Qed.

Lemma append_feed proto_Size e l d seq d' :
  outcome (append proto_Size e l) d (Ok seq) d' -> feed_wf d ->
  feed_wf d' /\ feed_le d d' /\
  (forall tok acct exp iat, covers d tok acct exp iat -> covers d' tok acct exp iat) /\
  (forall x acct iat, x ∈ l ->
     (ev_FamilyID e = "" -> ev_AccountID e = acct /\ iat <= RevokeTokensIssuedBefore e) ->
     covers d' (TokenID x) acct (RetainUntil x) iat) /\
  (forall tok exp iat, ev_FamilyID e = "" -> iat < RevokeTokensIssuedBefore e ->
     covers d' tok (ev_AccountID e) exp iat) /\
  refresh_sessions d' = refresh_sessions d /\ users d' = users d /\ device_grants d' = device_grants d.
Proof.
  intros (-> & Hvalid%validate_valid & Hout)%append_outcome Hwf.
  pose proof (add_event_wf e l d Hwf Hvalid) as Hwf1. pose proof (add_event_le e l d) as Hle1.
  pose proof (ev_nodup _ _ Hvalid) as Hnd.
  destruct (String.eqb_spec (ev_FamilyID e) "") as [Hf|Hf].
  - destruct (compact_feed _ _ _ _ Hout Hwf1) as (G1 & G2 & G3 & G4 & G5 & G6).
    split; [done|]. split; [by eapply feed_le_trans|]. split; [|split; [|split; [|exact (conj G4 (conj G5 G6))]]].
    + intros. by apply G3, add_event_covers.
    + intros. apply G3. by apply add_event_new.
    + intros. apply G3. by apply add_event_cutoff.
  - subst d'. split; [done|]. split; [done|]. split; [|split; [|split; [|done]]].
    + intros. by apply add_event_covers.
    + intros. by apply add_event_new.
    + intros. by apply add_event_cutoff.
Qed.

(** ** A page *)

Lemma prune_tokens_wf now d : feed_wf d -> feed_wf (prune_tokens now d).
Proof.
  intros [Hpos Hseq Hev Htok]. split; [done|done|done|].
  intros k tok v [Hv _]%map_lookup_filter_Some. by apply Htok in Hv.
Qed.
Lemma prune_tokens_le now d : feed_le d (prune_tokens now d).
Proof.
  split; [done|]. split; [done|]. intros k tok v _ [Hv _]%map_lookup_filter_Some. exists k. split; [lia|done].
Qed.
Lemma has_tokens_true d k tok v : event_tokens d !! (k, tok) = Some v -> has_tokens d k = true.
Proof.
  intros Hv. unfold has_tokens. apply negb_true_iff, bool_decide_eq_false. intros Hnil.
  rewrite select_where_nil in Hnil. specialize (Hnil _ _ Hv). cbn in Hnil. by rewrite Z.eqb_refl in Hnil.
Qed.
Lemma empty_family_covers d tok acct exp iat :
  covers d tok acct exp iat -> covers (delete_events (empty_family d) d) tok acct exp iat.
Proof.
  intros (k & e & He & Hcov).
  assert (empty_family d k e = false) as Hkeep.
  { unfold empty_family. destruct Hcov as [(v & Hv & _)|(Hf & _)].
    - rewrite (has_tokens_true _ _ _ _ Hv). apply andb_false_r.
    - by rewrite Hf. }
  exists k, e. split; [by apply lookup_delete_events_event|].
  destruct Hcov as [(v & Hv & ?)|Hcut]; [left|by right]. exists v. split; [|done].
  apply lookup_delete_events_token. split; [done|]. intros e' He'. by simplify_eq.
Qed.
Lemma prune_covers now d tok acct exp iat :
  now < exp -> covers d tok acct exp iat -> covers (prune_tokens now d) tok acct exp iat.
Proof.
  intros Hlt (k & e & He & Hcov). exists k, e. split; [done|].
  destruct Hcov as [(v & Hv & Hle & ?)|Hcut]; [left|by right]. exists v. split; [|done].
  apply map_lookup_filter_Some. split; [done|]. cbn. lia.
Qed.

(** What a page leaves, and what it lists. *)
Lemma page_feed proto_Size seq limit now d evs more d' :
  outcome (PageAfter proto_Size seq limit now) d (Ok (evs, more)) d' -> feed_wf d ->
  feed_wf d' /\ feed_le d d' /\
  (forall tok acct exp iat, now < exp -> covers d tok acct exp iat -> covers d' tok acct exp iat) /\
  refresh_sessions d' = refresh_sessions d /\ users d' = users d /\ device_grants d' = device_grants d.
Proof.
  intros (_ & _ & _ & Hc & _ & _)%PageAfter_outcome Hwf.
  set (d1 := prune_tokens now d) in *. set (d2 := delete_events (empty_family d1) d1) in *.
  pose proof (prune_tokens_wf now d Hwf) as Hwf1. fold d1 in Hwf1.
  destruct (compacted_feed _ _ _ Hc) as (G1 & G2 & G3 & G4 & G5 & G6); [by apply delete_events_wf|].
  split; [done|]. split.
  { eapply feed_le_trans; [apply (prune_tokens_le now)|]. eapply feed_le_trans; [apply delete_events_le|exact G2]. }
  split; [|exact (conj G4 (conj G5 G6))]. intros tok acct exp iat Hlt Hcov.
  apply G3, empty_family_covers. by apply prune_covers.
Qed.
