(* ===== verification/AuthRuns.v ===== *)
(** * Runs of the authorization service

    SQLite serialises transactions, not handlers: a step is one transaction of a handler of
    AuthFlow.v (or one statement outside of any), at the clock's time, with statements and
    commits failing at will; the handlers are sequences of such steps, in any interleaving.
    [op_ok] says what a step is made with.

    One thing is assumed of the interleavings: the clock readings that transactions carry do not
    decrease from one to the next.  The handlers (logout.go, oauth.go, refresh.go, device.go) read
    [i.now()] before their transaction, so two that overlap may commit in the other order; the
    theorems that rest on the assumption say so, and AuthExamples.v shows what breaks without it
    ([late_commit_hides_a_revocation]). *)

From S2P Require Import Prelude GoLib Database Intent AuthStore AuthFlow AuthLaws AuthFeed.
Open Scope Z_scope.

Section Runs.
Context `{IntentCrypto}.
Context (proto_Size : event_row -> list RevokedToken -> Z).
Context (keyID : string) (Sign : SessionBody -> option string).

Inductive auth_op :=
| Op_user (accountID : string) (u : User)
| Op_login (accountID : string) (u : User) (kind : string) (spki : bytes) (f : fresh)
| Op_refresh (rawToken : string) (proof : PoPProof) (f : fresh)
| Op_revoke_family (accountID familyID : string)
| Op_logout_everywhere (accountID : string)
| Op_grant (hash : string) (g : DeviceGrant)
| Op_attempt (hash : string)
| Op_decide (userCode accountID : string) (status : GrantStatus)
| Op_polled (hash : string)
| Op_redeem (hash : string) (f : fresh)
| Op_page (seq limit : Z).

Definition ignore {A} (m : DB A) : DB unit := m ≫= fun _ => mret tt.

Definition auth_prog (op : auth_op) (now : Z) : DB unit :=
  match op with
  | Op_user a u => user_Create a u
  | Op_login a u kind spki f => ignore (open_family keyID Sign true a u kind spki now f)
  | Op_refresh raw proof f => ignore (run_in_tx (refresh_tx proto_Size keyID Sign raw proof now f))
  | Op_revoke_family a fam => run_in_tx (revoke_family proto_Size a fam now)
  | Op_logout_everywhere a => logoutEverywhere proto_Size a now
  | Op_grant h g => grant_Create h g
  | Op_attempt h => ignore (BumpAttempt h)
  | Op_decide code a status => SetDecision code a status
  | Op_polled h => SetLastPolled h (unix now)
  | Op_redeem h f => ignore (run_in_tx (redeem_tx keyID Sign h now f))
  | Op_page seq limit => ignore (PageAfter proto_Size seq limit (unix now))
  end.

(** An identifier, as the service makes them. *)
Definition ident (id : string) : Prop := id <> "" /\ blen id <= 64.

(** The ids of a pair are new. *)
Definition ids_fresh (f : fresh) (d : auth_tables) : Prop :=
  f_cp f <> f_node f /\
  forall h s, refresh_sessions d !! h = Some s ->
    CPAccessTokenID s <> f_cp f /\ CPAccessTokenID s <> f_node f /\
    NodeAccessTokenID s <> f_cp f /\ NodeAccessTokenID s <> f_node f.
Definition family_fresh (f : fresh) (d : auth_tables) : Prop :=
  ident (f_family f) /\ forall h s, refresh_sessions d !! h = Some s -> FamilyID s <> f_family f.

(** What a step is made with: fresh values, and the account and family of a row that was read. *)
Definition op_ok (op : auth_op) (d : auth_tables) : Prop :=
  match op with
  | Op_user a _ => ident a
  | Op_login _ _ _ _ f | Op_redeem _ f => ids_fresh f d /\ family_fresh f d
  | Op_refresh _ _ f => ids_fresh f d
  | Op_revoke_family a fam =>
      exists h s, refresh_sessions d !! h = Some s /\ AccountID s = a /\ FamilyID s = fam
  | Op_logout_everywhere a => exists h s, refresh_sessions d !! h = Some s /\ AccountID s = a
  | _ => True
  end.

Definition empty_auth : auth_tables :=
  {| users := ∅; refresh_sessions := ∅; device_grants := ∅; revocation_events := ∅;
     event_tokens := ∅; event_seq := 0 |}.

(** From [d0] at [t0], by steps whose clock readings do not decrease. *)
Inductive auth_runs (t0 : Z) (d0 : auth_tables) : Z -> auth_tables -> Prop :=
| auth_here : auth_runs t0 d0 t0 d0
| auth_stepped t d now op r d' : auth_runs t0 d0 t d -> t <= now -> op_ok op d ->
    outcome (auth_prog op now) d r d' -> auth_runs t0 d0 now d'.

(** ** The state's invariant *)

Definition ids_of (s : RefreshSession) : list string := [CPAccessTokenID s; NodeAccessTokenID s].

(** What the rows of a family share for good. *)
Definition birth (s : RefreshSession) : bytes * Z * string := (SessionPubkeySPKI s, FamilyCreatedAt s, ClientKind s).

(** Rows of a family belong to one account and are revoked together; they are bound to one session
    key and one birth; one of them is not
    superseded; at most one holds a cached pair, whose refresh token is that row's; it is the row
    that superseded the one with the cache. *)
Record families_ok (t : gmap string RefreshSession) : Prop := {
  fi_head h1 s1 h2 s2 : t !! h1 = Some s1 -> t !! h2 = Some s2 ->
    FamilyID s1 = FamilyID s2 -> SupersededBy s1 = None -> SupersededBy s2 = None -> h1 = h2;
  fi_same h1 s1 h2 s2 : t !! h1 = Some s1 -> t !! h2 = Some s2 ->
    FamilyID s1 = FamilyID s2 -> AccountID s1 = AccountID s2 /\ Revoked s1 = Revoked s2;
  fi_birth h1 s1 h2 s2 : t !! h1 = Some s1 -> t !! h2 = Some s2 ->
    FamilyID s1 = FamilyID s2 -> birth s1 = birth s2;
  fi_cache h s p : t !! h = Some s -> SuccessorCache s = Some p ->
    Revoked s = false /\ SupersededBy s = Some (sha256Hex (RefreshToken p)) /\ is_Some (SupersededAt s) /\
    exists s', t !! sha256Hex (RefreshToken p) = Some s' /\
      FamilyID s' = FamilyID s /\ SupersededBy s' = None;
  fi_one_cache h1 s1 h2 s2 : t !! h1 = Some s1 -> t !! h2 = Some s2 ->
    FamilyID s1 = FamilyID s2 -> is_Some (SuccessorCache s1) -> is_Some (SuccessorCache s2) -> h1 = h2
}.

(** The rows' ids and times, and how many there are, at the Unix second [n]. *)
Record rows_ok (n : Z) (d : auth_tables) : Prop := {
  ri_row h s : refresh_sessions d !! h = Some s ->
    row_ok s /\ ident (AccountID s) /\ ident (FamilyID s) /\ CreatedAt s <= n;
  ri_ids h1 s1 h2 s2 id : refresh_sessions d !! h1 = Some s1 -> refresh_sessions d !! h2 = Some s2 ->
    id ∈ ids_of s1 -> id ∈ ids_of s2 -> h1 = h2;
  ri_pair h s : refresh_sessions d !! h = Some s -> CPAccessTokenID s <> NodeAccessTokenID s;
  ri_family fam m : n <= m -> family_generations fam m d <= maxRetainedAccessGenerationsPerScope;
  ri_second a m : second_generations a m d <= maxRetainedAccessGenerationsPerScope
}.

(** What events are about, and where the tokens of an account-wide one come from. *)
Record listed_ok (d : auth_tables) : Prop := {
  li_event k e : revocation_events d !! k = Some e ->
    blen (ev_AccountID e) <= 64 /\ blen (ev_FamilyID e) <= 64 /\
    (ev_FamilyID e = "" -> ev_RevokedAt e = RevokeTokensIssuedBefore e);
  li_token k tok v : event_tokens d !! (k, tok) = Some v -> blen tok <= maxAccessTokenIDBytes;
  li_wide k e tok v : revocation_events d !! k = Some e -> ev_FamilyID e = "" ->
    event_tokens d !! (k, tok) = Some v ->
    exists h s, refresh_sessions d !! h = Some s /\ tok ∈ ids_of s /\
      AccountID s = ev_AccountID e /\ CreatedAt s = RevokeTokensIssuedBefore e
}.

Record auth_inv (n : Z) (d : auth_tables) : Prop := {
  ai_now : 0 < n;
  ai_families : families_ok (refresh_sessions d);
  ai_rows : rows_ok n d;
  ai_users a u : users d !! a = Some u -> ident a;
  ai_feed : feed_wf d;
  ai_listed : listed_ok d;
  ai_revoked h s : refresh_sessions d !! h = Some s -> Revoked s = true -> n < AccessExpiresAt s ->
    forall id, id ∈ ids_of s -> covers d id (AccountID s) (AccessExpiresAt s) (CreatedAt s)
}.
End Runs.

(** ** Counting rows *)

Section Counting.
Context {V : Type}.
Implicit Types (p : string -> V -> bool) (t : gmap string V).

Lemma count_where_empty p : count_where p (∅ : gmap string V) = 0.
Proof. unfold count_where, select_where. by rewrite map_to_list_empty. Qed.
Lemma count_where_insert p k v t :
  t !! k = None -> count_where p (<[k := v]> t) = (if p k v then 1 else 0) + count_where p t.
Proof.
  intros Hk. unfold count_where, select_where. rewrite (map_to_list_insert t k v Hk), filter_cons. cbn.
  destruct (p k v); [rewrite decide_True by done|rewrite decide_False by done]; cbn; lia.
Qed.
Lemma count_where_le p q t : (forall k v, t !! k = Some v -> p k v = true -> q k v = true) -> count_where p t <= count_where q t.
Proof.
  induction t as [|k v t Hk IH] using map_ind; intros Hpq; [by rewrite !count_where_empty|].
  rewrite !count_where_insert by done. specialize (Hpq k v) as Hkv. rewrite lookup_insert_eq in Hkv.
  specialize (Hkv eq_refl).
  assert (count_where p t <= count_where q t).
  { apply IH. intros k' v' Hk'. apply Hpq. rewrite lookup_insert_ne; [done|]. intros ->. congruence. }
  destruct (p k v); [rewrite Hkv by done; lia|]. destruct (q k v); lia.
Qed.
(** A row-wise update of the rows leaves the count of what it does not touch. *)
Lemma count_where_imap p (f : string -> V -> V) t :
  (forall k v, p k (f k v) = p k v) -> count_where p (map_imap (fun k v => Some (f k v)) t) = count_where p t.
Proof.
  intros Hp. induction t as [|k v t Hk IH] using map_ind; [by rewrite map_imap_empty|].
  rewrite (map_imap_insert_Some _ _ _ _ (f k v)) by done.
  rewrite !count_where_insert by (rewrite ?map_lookup_imap, ?Hk; done). by rewrite Hp, IH.
Qed.
Lemma count_where_update p q (f : V -> V) t :
  (forall k v, p k (f v) = p k v) -> count_where p (update_where q f t) = count_where p t.
Proof. intros Hp. apply count_where_imap. intros k v. by destruct (q k v). Qed.
End Counting.

(** * What revocation events list: never more than an event holds

    Tokens of an account-wide event are those of the rows the account got in the second of its
    cutoff, so that the events compaction merges list no more than that second's rows. *)

(** ** The lists' origin is kept *)

(** Rows keep their ids, their account and their time. *)
Definition rows_le (t t' : gmap string RefreshSession) : Prop :=
  forall h s, t !! h = Some s -> exists s', t' !! h = Some s' /\ ids_of s' = ids_of s /\
    AccountID s' = AccountID s /\ CreatedAt s' = CreatedAt s.
Lemma rows_le_refl t : rows_le t t.
Proof. intros h s Hs. by exists s. Qed.
Lemma rows_le_insert t h s : t !! h = None -> rows_le t (<[h := s]> t).
Proof. intros Hh k x Hx. exists x. rewrite lookup_insert_ne; [done|]. congruence. Qed.
Lemma rows_le_trans t1 t2 t3 : rows_le t1 t2 -> rows_le t2 t3 -> rows_le t1 t3.
Proof.
  intros H1 H2 h s Hs. destruct (H1 _ _ Hs) as (s' & Hs' & I1 & A1 & C1).
  destruct (H2 _ _ Hs') as (s2 & Hs2 & I2 & A2 & C2). exists s2. split_and!; congruence.
Qed.

Lemma listed_rows d d' :
  listed_ok d -> rows_le (refresh_sessions d) (refresh_sessions d') ->
  revocation_events d' = revocation_events d -> event_tokens d' = event_tokens d -> listed_ok d'.
Proof.
  intros [He Ht Hw] Hle Hev Htok. split; rewrite ?Hev, ?Htok; [done|done|].
  intros k e tok v Hk Hf Hv. destruct (Hw _ _ _ _ Hk Hf Hv) as (h & s & Hs & Hin & Ha & Hc).
  destruct (Hle _ _ Hs) as (s' & Hs' & I & A & C). exists h, s'. split_and!; [done|by rewrite I|congruence..].
Qed.

Lemma listed_delete p d : listed_ok d -> listed_ok (delete_events p d).
Proof.
  intros [He Ht Hw]. split.
  - intros k e [Hk _]%lookup_delete_events_event. by eapply He.
  - intros k tok v [Hv _]%lookup_delete_events_token. by eapply Ht.
  - intros k e tok v [Hk _]%lookup_delete_events_event Hf [Hv _]%lookup_delete_events_token. by eapply Hw.
Qed.
Lemma listed_prune now d : listed_ok d -> listed_ok (prune_tokens now d).
Proof.
  intros [He Ht Hw]. split; [done| |].
  - intros k tok v [Hv _]%map_lookup_filter_Some. by eapply Ht.
  - intros k e tok v Hk Hf [Hv _]%map_lookup_filter_Some. by eapply Hw.
Qed.
Lemma listed_merge a seq keep d :
  keeper a d = Some (seq, keep) -> listed_ok d -> listed_ok (merge_tokens a seq (RevokeTokensIssuedBefore keep) d).
Proof.
  intros Hk [He Ht Hw]. destruct (keeper_spec _ _ _ _ Hk) as (Hkeep & Hwide & _). split; [done| |].
  - intros k tok v [Hv|(-> & k' & e & Hv & _)]%merge_token_inv; by eapply Ht.
  - intros k e tok v Hke Hf [Hv|(-> & k' & e' & Hv & He' & Ha & Hc)]%merge_token_inv; [by eapply Hw|].
    change (revocation_events d !! seq = Some e) in Hke. assert (e = keep) as -> by congruence.
    unfold account_wide in Ha, Hwide. brefl. destruct Ha as [Ha1 Ha2], Hwide as [Hw1 _].
    rewrite <- Hc, Hw1, <- Ha1. by eapply Hw.
Qed.
Lemma listed_add_event e l d :
  feed_wf d -> listed_ok d -> blen (ev_AccountID e) <= 64 -> blen (ev_FamilyID e) <= 64 ->
  (ev_FamilyID e = "" -> ev_RevokedAt e = RevokeTokensIssuedBefore e) ->
  (forall x, x ∈ l -> blen (TokenID x) <= maxAccessTokenIDBytes /\
     (ev_FamilyID e = "" -> exists h s, refresh_sessions d !! h = Some s /\ TokenID x ∈ ids_of s /\
        AccountID s = ev_AccountID e /\ CreatedAt s = RevokeTokensIssuedBefore e)) ->
  listed_ok (add_event e l d).
Proof.
  intros Hwf [He Ht Hw] Ha Hf Hat Hl.
  assert (forall k tok v, event_tokens d !! (k, tok) = Some v -> k <> event_seq d + 1) as Hnew.
  { intros k tok v Hv ->. apply (fw_token _ Hwf) in Hv as (e' & Hk & _). apply (fw_seq _ Hwf) in Hk. lia. }
  split; cbn.
  - intros k e' [[<- <-]|[_ Hk]]%lookup_insert_Some; [done|by eapply He].
  - intros k tok v. destruct (decide (k = event_seq d + 1)) as [->|Hne].
    + intros [Hv|(x & Hx & <- & _)]%add_tokens_inv; [by destruct (Hnew _ _ _ Hv)|by apply Hl].
    + rewrite add_tokens_other by done. apply Ht.
  - intros k e' tok v [[<- <-]|[Hne Hk]]%lookup_insert_Some Hf' Hv.
    + apply add_tokens_inv in Hv as [Hv|(x & Hx & <- & _)]; [by destruct (Hnew _ _ _ Hv)|]. by apply Hl.
    + rewrite add_tokens_other in Hv by done. by eapply Hw.
Qed.

Section Listed.
Context (proto_Size : event_row -> list RevokedToken -> Z).

Lemma listed_compact a d d' :
  outcome (compactAccountRevocations proto_Size a) d (Ok tt) d' -> listed_ok d -> listed_ok d'.
Proof. intros (seq & keep & d1 & Hk & -> & _ & ->)%compact_outcome Hl. by apply listed_delete, listed_merge. Qed.
Lemma listed_compacted d d' : compacted proto_Size d d' -> listed_ok d -> listed_ok d'.
Proof. induction 1 as [|d d1 d2 a Hc _ IH]; [done|]. intros Hl. by eapply IH, listed_compact. Qed.
Lemma listed_append e l d seq d' :
  outcome (append proto_Size e l) d (Ok seq) d' -> listed_ok (add_event e l d) -> listed_ok d'.
Proof.
  intros (_ & _ & Hm)%append_outcome Hl. destruct (String.eqb (ev_FamilyID e) ""); [by eapply listed_compact|by subst].
Qed.
Lemma listed_page seq limit now d evs more d' :
  outcome (PageAfter proto_Size seq limit now) d (Ok (evs, more)) d' -> listed_ok d -> listed_ok d'.
Proof. intros (_ & _ & _ & Hc & _)%PageAfter_outcome Hl. by eapply listed_compacted, listed_delete, listed_prune. Qed.
End Listed.

(** ** How much an event lists *)

Lemma tokens_of_nodup d seq : NoDup (map TokenID (tokens_of d seq)).
Proof.
  unfold tokens_of. rewrite (merge_sort_Permutation by_token). rewrite map_map. cbn.
  apply NoDup_fmap_2_strong; [|apply NoDup_filter, NoDup_map_to_list].
  intros [[k1 t1] v1] [[k2 t2] v2] [H1 E1]%elem_of_select_where [H2 E2]%elem_of_select_where Heq. cbn in *.
  apply Z.eqb_eq in E1, E2. by simplify_eq.
Qed.

Lemma length_ids (l : list (string * RefreshSession)) :
  length (flat_map (fun kv => ids_of kv.2) l) = (2 * length l)%nat.
Proof. induction l as [|x l IH]; cbn; [done|]. rewrite IH. lia. Qed.

Lemma wide_tokens_bound d seq e :
  listed_ok d -> revocation_events d !! seq = Some e -> ev_FamilyID e = "" ->
  Z.of_nat (length (tokens_of d seq)) <= 2 * second_generations (ev_AccountID e) (RevokeTokensIssuedBefore e) d.
Proof.
  intros Hl He Hf. unfold second_generations, count_where. set (rows := select_where _ _).
  assert (length (map TokenID (tokens_of d seq)) <= length (flat_map (fun kv => ids_of kv.2) rows))%nat as Hle.
  { apply NoDup_incl_length; [by apply NoDup_ListNoDup, tokens_of_nodup|]. intros tok Htok.
    apply list_elem_of_In, list_elem_of_fmap in Htok as (x & -> & Hx). apply elem_of_tokens_of in Hx.
    destruct (li_wide _ Hl _ _ _ _ He Hf Hx) as (h & s & Hs & Hid & Ha & Hc). apply in_flat_map. exists (h, s).
    split; [|by apply list_elem_of_In]. apply list_elem_of_In, elem_of_select_where. split; [done|]. cbn.
    by rewrite Ha, Hc, String.eqb_refl, Z.eqb_refl. }
  rewrite length_map, length_ids in Hle. lia.
Qed.

(** ** Events that validate *)

(** An event and its list of that many tokens fit an entry's payload. *)
Definition fits (proto_Size : event_row -> list RevokedToken -> Z) : Prop :=
  forall e l, blen (ev_AccountID e) <= 64 -> blen (ev_FamilyID e) <= 64 -> (length l <= 768)%nat ->
    Forall (fun x => blen (TokenID x) <= maxAccessTokenIDBytes) l ->
    proto_Size e l <= maxRevocationPayloadBytes.

Lemma valid_event_tokens_ok at_ l : forall seen,
  Forall (fun t => TokenID t <> "" /\ at_ < RetainUntil t) l -> NoDup (map TokenID l) ->
  (forall t, t ∈ l -> TokenID t ∉ seen) -> valid_event_tokens at_ seen l = None.
Proof.
  induction l as [|t l IH]; intros seen; [done|]. cbn. intros [[Hne Hlt] Hl]%Forall_cons [Hin Hnd]%NoDup_cons Hseen.
  apply String.eqb_neq in Hne. rewrite Hne. destruct (Z.leb_spec (RetainUntil t) at_); [lia|]. cbn.
  rewrite bool_decide_eq_false_2 by (apply Hseen; left). apply IH; [done..|].
  intros t' Ht'. apply not_elem_of_union. split; [|apply Hseen; by right].
  intros Heq%elem_of_singleton. destruct Hin. rewrite <- Heq. by apply list_elem_of_fmap_2.
Qed.

Lemma validate_ok proto_Size e l :
  fits proto_Size -> event_ok e -> blen (ev_AccountID e) <= 64 -> blen (ev_FamilyID e) <= 64 ->
  (ev_FamilyID e = "" \/ l <> []) -> Z.of_nat (length l) <= 768 ->
  Forall (fun x => TokenID x <> "" /\ ev_RevokedAt e < RetainUntil x) l ->
  Forall (fun x => blen (TokenID x) <= maxAccessTokenIDBytes) l ->
  NoDup (map TokenID l) -> validateRevocationEvent proto_Size e l = None.
Proof.
  intros Hfits (Ha & Hat & Hcut & Hfam) Hba Hbf Hne Hlen Hl Hids Hnd. unfold validateRevocationEvent.
  apply String.eqb_neq in Ha as ->. destruct (Z.leb_spec (ev_RevokedAt e) 0); [lia|]. cbn [orb].
  assert ((maxRevokedTokensPerEvent <? Z.of_nat (length l)) = false) as -> by (apply Z.ltb_ge; unfold maxRevokedTokensPerEvent; lia).
  rewrite (valid_event_tokens_ok _ _ ∅) by (done || set_solver).
  assert ((maxRevocationPayloadBytes <? proto_Size e l) = false) as -> by (apply Z.ltb_ge, Hfits; [done..|lia|done]).
  destruct (String.eqb_spec (ev_FamilyID e) "") as [Hf|Hf]; cbn [andb negb].
  - specialize (Hcut Hf). destruct (Z.leb_spec (RevokeTokensIssuedBefore e) 0); [lia|done].
  - rewrite (Hfam Hf). cbn. destruct Hne as [|Hne]; [done|]. by rewrite bool_decide_eq_false_2.
Qed.

(** The merged event of a compaction. *)
Lemma merged_valid proto_Size a seq keep d n :
  fits proto_Size -> feed_wf d -> listed_ok d -> rows_ok n d ->
  keeper a d = Some (seq, keep) ->
  validateRevocationEvent proto_Size keep (tokens_of (merge_tokens a seq (RevokeTokensIssuedBefore keep) d) seq) = None.
Proof.
  intros Hfits Hwf Hl Hrows Hk. pose proof (listed_merge _ _ _ _ Hk Hl) as Hl1. set (d1 := merge_tokens _ _ _ d) in *.
  destruct (keeper_spec _ _ _ _ Hk) as (Hkeep & Hwide & _). change (revocation_events d1 !! seq = Some keep) in Hkeep.
  unfold account_wide in Hwide. apply andb_true_iff in Hwide as [_ Hwide]. apply String.eqb_eq in Hwide.
  destruct (li_event _ Hl1 _ _ Hkeep) as (? & ? & Hat). specialize (Hat Hwide).
  apply validate_ok; [done|by eapply (fw_event d)|done|done|by left| | | |apply tokens_of_nodup].
  - pose proof (wide_tokens_bound _ _ _ Hl1 Hkeep Hwide) as Hb.
    change (second_generations ?x ?y d1) with (second_generations x y d) in Hb.
    pose proof (ri_second _ _ Hrows (ev_AccountID keep) (RevokeTokensIssuedBefore keep)) as Hs.
    change maxRetainedAccessGenerationsPerScope with 384 in Hs. lia.
  - apply Forall_forall. intros x [Hx|(_ & k' & e & Hx & He & Ha & Hc)]%elem_of_tokens_of%merge_token_inv.
    + destruct (fw_token _ Hwf _ _ _ Hx) as (e & He & ? & ?). change (revocation_events d !! seq = Some keep) in Hkeep.
      rewrite Hkeep in He. by simplify_eq.
    + destruct (fw_token _ Hwf _ _ _ Hx) as (e' & He' & ? & ?). assert (e' = e) as -> by congruence.
      destruct (li_event _ Hl _ _ He) as (_ & _ & Hat'). unfold account_wide in Ha. apply andb_true_iff in Ha as [_ Hw].
      apply String.eqb_eq in Hw. specialize (Hat' Hw). split; [done|lia].
  - apply Forall_forall. intros x Hx%elem_of_tokens_of. by eapply li_token.
Qed.
