(* ===== verification/AuthSteps.v ===== *)
(** * What the authorization service's updates keep of its invariant *)

From S2P Require Import Prelude GoLib Database Intent AuthStore AuthFlow AuthLaws AuthFeed AuthRuns.
From S2P Require Import AuthRuns.
Open Scope Z_scope.

Ltac inserted H := apply lookup_insert_Some in H as [[<- <-]|[? H]].

Section Steps.
Context `{IntentCrypto}.

(** ** Frames *)

Lemma rows_later n m d : rows_ok n d -> n <= m -> rows_ok m d.
Proof.
  intros [] Hle. split; try done.
  - intros h s Hs. destruct (ri_row h s Hs) as (? & ? & ? & ?). split_and!; [done..|lia].
  - intros fam k Hk. apply ri_family. lia.
Qed.
Lemma inv_later n m d : auth_inv n d -> n <= m -> auth_inv m d.
Proof.
  intros [] Hle. split; try done; [lia|by eapply rows_later|].
  intros h s Hs Hr Hlt. apply (ai_revoked h s Hs Hr). lia.
Qed.

(** The sessions stay, the feed goes on denying what is not expired. *)
Lemma inv_frame n d d' :
  auth_inv n d -> refresh_sessions d' = refresh_sessions d ->
  (forall a u, users d' !! a = Some u -> ident a) -> feed_wf d' -> listed_ok d' ->
  (forall tok acct exp iat, n < exp -> covers d tok acct exp iat -> covers d' tok acct exp iat) ->
  auth_inv n d'.
Proof.
  intros [? ? [] ? ? ? Hrev] Hs Hu Hf Hl Hc. split; rewrite ?Hs; try done.
  - split; unfold family_generations, second_generations; rewrite ?Hs; done.
  - intros h s Hh Hr Hlt id Hid. apply Hc; [done|]. by eapply Hrev.
Qed.

(** The sessions change, the feed and the users stay. *)
Lemma feed_wf_sessions f d : feed_wf d -> feed_wf (d <| refresh_sessions ::= f |>).
Proof. by intros []. Qed.
Lemma covers_sessions f d tok acct exp iat :
  covers (d <| refresh_sessions ::= f |>) tok acct exp iat <-> covers d tok acct exp iat.
Proof. done. Qed.
Lemma family_generations_sessions f fam m d :
  family_generations fam m (d <| refresh_sessions ::= f |>) =
  count_where (fun _ r => String.eqb (FamilyID r) fam && (m <? AccessExpiresAt r)) (f (refresh_sessions d)).
Proof. done. Qed.
Lemma second_generations_sessions f a m d :
  second_generations a m (d <| refresh_sessions ::= f |>) =
  count_where (fun _ r => String.eqb (AccountID r) a && (CreatedAt r =? m)) (f (refresh_sessions d)).
Proof. done. Qed.

(** ** Inserting a row *)

Definition fresh_ids (s : RefreshSession) (d : auth_tables) : Prop :=
  CPAccessTokenID s <> NodeAccessTokenID s /\
  forall h x id, refresh_sessions d !! h = Some x -> id ∈ ids_of x -> id ∉ ids_of s.

Lemma ids_fresh_row a fam kind spki pair now fca f d :
  ids_fresh f d -> CPTokenID pair = f_cp f -> NodeTokenID pair = f_node f ->
  fresh_ids (session_row a fam kind spki pair now fca) d.
Proof.
  intros [Hne Hd] Hcp Hnode. unfold fresh_ids, ids_of. cbn. rewrite Hcp, Hnode. split; [done|].
  intros h x id Hx Hid Hin. destruct (Hd _ _ Hx) as (? & ? & ? & ?).
  rewrite elem_of_cons, list_elem_of_singleton in Hid. rewrite elem_of_cons, list_elem_of_singleton in Hin.
  naive_solver congruence.
Qed.

Definition room (s : RefreshSession) (d : auth_tables) : Prop :=
  family_generations (FamilyID s) (CreatedAt s) d < maxRetainedAccessGenerationsPerScope /\
  second_generations (AccountID s) (CreatedAt s) d < maxRetainedAccessGenerationsPerScope.

Lemma rows_insert n h s d :
  rows_ok n d -> refresh_sessions d !! h = None -> row_ok s -> ident (AccountID s) -> ident (FamilyID s) ->
  CreatedAt s = n -> fresh_ids s d -> room s d -> rows_ok n (d <| refresh_sessions ::= <[h := s]> |>).
Proof.
  intros [] Hh Hrow Ha Hfam Hcr [Hids1 Hids2] [Hgen Hsec].
  split; [cbn [refresh_sessions set_field eta_auth_tables]..| |].
  - intros k x Hk. inserted Hk; [|by eapply ri_row]. split_and!; [done..|lia].
  - intros h1 s1 h2 s2 id H1 H2 Hi1 Hi2. inserted H1; inserted H2; [done| | |by eapply ri_ids].
    + exfalso. by eapply Hids2.
    + exfalso. by eapply Hids2.
  - intros k x Hk. inserted Hk; [done|by eapply ri_pair].
  - intros fam m Hm. rewrite family_generations_sessions, count_where_insert by done.
    fold (family_generations fam m d). pose proof (ri_family fam m Hm).
    destruct (String.eqb_spec (FamilyID s) fam) as [<-|]; cbn [andb]; [|lia].
    assert (family_generations (FamilyID s) m d <= family_generations (FamilyID s) (CreatedAt s) d).
    { apply count_where_le. intros k v _. rewrite !andb_true_iff, !Z.ltb_lt. intros [? ?]. split; [done|lia]. }
    destruct (_ <? _); lia.
  - intros a m. rewrite second_generations_sessions, count_where_insert by done.
    fold (second_generations a m d). pose proof (ri_second a m).
    destruct (String.eqb_spec (AccountID s) a) as [<-|]; cbn [andb]; [|lia].
    destruct (Z.eqb_spec (CreatedAt s) m) as [<-|]; lia.
Qed.

Lemma revoked_insert n h s d :
  auth_inv n d -> Revoked s = false -> forall k x, <[h := s]> (refresh_sessions d) !! k = Some x ->
  Revoked x = true -> n < AccessExpiresAt x ->
  forall id, id ∈ ids_of x -> covers (d <| refresh_sessions ::= <[h := s]> |>) id (AccountID x) (AccessExpiresAt x) (CreatedAt x).
Proof.
  intros Hinv Hs k x Hk Hr Hlt id Hid. inserted Hk; [congruence|]. apply covers_sessions. by eapply ai_revoked.
Qed.

(** The first row of a new family. *)
Lemma families_insert t h s :
  families_ok t -> t !! h = None -> SuccessorCache s = None ->
  (forall k x, t !! k = Some x -> FamilyID x <> FamilyID s) -> families_ok (<[h := s]> t).
Proof.
  intros [] Hh Hc Hfresh. split.
  - intros h1 s1 h2 s2 H1 H2 Heq ? ?. inserted H1; inserted H2; [done| | |by eapply fi_head]; exfalso; by eapply Hfresh.
  - intros h1 s1 h2 s2 H1 H2 Heq. inserted H1; inserted H2; [done| | |by eapply fi_same]; exfalso; by eapply Hfresh.
  - intros h1 s1 h2 s2 H1 H2 Heq. inserted H1; inserted H2; [done| | |by eapply fi_birth]; exfalso; by eapply Hfresh.
  - intros k x p Hk Hp. inserted Hk; [congruence|]. destruct (fi_cache _ _ _ Hk Hp) as (? & ? & ? & s' & Hs' & ?).
    split_and!; [done..|]. exists s'. split; [|done]. rewrite lookup_insert_ne; [done|]. congruence.
  - intros h1 s1 h2 s2 H1 H2 Heq ? ?. inserted H1; inserted H2; [done| | |by eapply fi_one_cache]; exfalso; by eapply Hfresh.
Qed.

Lemma inv_insert n h s d :
  auth_inv n d -> refresh_sessions d !! h = None -> row_ok s -> ident (AccountID s) -> ident (FamilyID s) ->
  CreatedAt s = n -> SuccessorCache s = None -> Revoked s = false ->
  (forall k x, refresh_sessions d !! k = Some x -> FamilyID x <> FamilyID s) ->
  fresh_ids s d -> room s d -> auth_inv n (d <| refresh_sessions ::= <[h := s]> |>).
Proof.
  intros Hinv. intros. pose proof Hinv as []. split; [done|by apply families_insert|by apply rows_insert|done| | |].
  - by apply feed_wf_sessions.
  - eapply listed_rows; [done|by apply rows_le_insert|done..].
  - by apply revoked_insert.
Qed.

(** ** Rotating *)

(** A row after the updates of [Supersede], and the row it comes from. *)
Record supersedes (pred succ fam : string) (cache : successorPair) (now : Z) (k : string)
    (x x' : RefreshSession) : Prop := {
  su_same : FamilyID x' = FamilyID x /\ AccountID x' = AccountID x /\ Revoked x' = Revoked x;
  su_birth : birth x' = birth x;
  su_row : ids_of x' = ids_of x /\ CPAccessTokenID x' = CPAccessTokenID x /\
    NodeAccessTokenID x' = NodeAccessTokenID x /\ AccessExpiresAt x' = AccessExpiresAt x /\ CreatedAt x' = CreatedAt x;
  su_other : k <> pred -> SupersededBy x' = SupersededBy x /\ SupersededAt x' = SupersededAt x /\
    SuccessorCache x' = if String.eqb (FamilyID x) fam then None else SuccessorCache x;
  su_pred : k = pred -> SupersededBy x' = Some succ /\ SupersededAt x' = Some now /\ SuccessorCache x' = Some cache
}.

Lemma superseded_row pred succ fam cache now t k x' :
  superseded pred succ fam cache now t !! k = Some x' ->
  exists x, t !! k = Some x /\ supersedes pred succ fam cache now k x x'.
Proof.
  rewrite lookup_superseded. intros (x & Hx & ->)%fmap_Some. exists x. split; [done|].
  split; destruct (String.eqb_spec k pred); try destruct (String.eqb (FamilyID x) fam) eqn:?; cbn; done.
Qed.

Lemma superseded_rows_le pred succ fam cache now t : rows_le t (superseded pred succ fam cache now t).
Proof.
  intros h s Hs. eexists. rewrite lookup_superseded, Hs. split; [done|].
  destruct (String.eqb h pred), (String.eqb (FamilyID s) fam); done.
Qed.
Lemma count_superseded p pred succ fam cache now t :
  (forall k s, p k (stamp succ cache now s) = p k s) -> (forall k s, p k (clear_cache s) = p k s) ->
  count_where p (superseded pred succ fam cache now t) = count_where p t.
Proof.
  intros H1 H2. apply count_where_imap. intros k v. by destruct (String.eqb k pred), (String.eqb (FamilyID v) fam).
Qed.

Lemma rows_superseded n pred succ fam cache now d :
  rows_ok n d -> rows_ok n (d <| refresh_sessions ::= superseded pred succ fam cache now |>).
Proof.
  intros []. split; [cbn [refresh_sessions set_field eta_auth_tables]..| |].
  - intros k x' (x & Hx & [(F & A & R) B (I & C1 & C2 & E & C) _ _])%superseded_row.
    unfold row_ok. rewrite F, A, C1, C2, E, C. by apply (ri_row k).
  - intros h1 s1 h2 s2 id (x1 & Hx1 & [_ _ (I1 & _) _ _])%superseded_row (x2 & Hx2 & [_ _ (I2 & _) _ _])%superseded_row.
    rewrite I1, I2. by eapply ri_ids.
  - intros k x' (x & Hx & [_ _ (I & C1 & C2 & _) _ _])%superseded_row. rewrite C1, C2. by apply (ri_pair k).
  - intros f m Hm. rewrite family_generations_sessions, count_superseded by done. by apply ri_family.
  - intros a m. rewrite second_generations_sessions, count_superseded by done. by apply ri_second.
Qed.

(** The head [pred], alive, gives way to the new head [s]. *)
Section Rotate.
Context (pred : string) (old s : RefreshSession) (cache : successorPair) (now : Z).
Context (t : gmap string RefreshSession) (Hok : families_ok t).
Context (Hpred : t !! pred = Some old) (Hrev : Revoked old = false) (Hsup : SupersededBy old = None).
Context (Ha : AccountID s = AccountID old) (Hfam : FamilyID s = FamilyID old) (Hbirth : birth s = birth old).
Context (Hs : SupersededBy s = None /\ SuccessorCache s = None /\ Revoked s = false).
Let succ := sha256Hex (RefreshToken cache).
Let t1 := superseded pred succ (FamilyID s) cache now t.
Context (Hsucc : t1 !! succ = None).

Lemma rotate_alive k x : t !! k = Some x -> FamilyID x = FamilyID s -> AccountID x = AccountID s /\ Revoked x = false.
Proof. intros Hx Hf. destruct (fi_same _ Hok _ _ _ _ Hx Hpred); [congruence|]. split; congruence. Qed.
Lemma rotate_no_head k x : t1 !! k = Some x -> SupersededBy x = None -> FamilyID x <> FamilyID s.
Proof.
  intros (x0 & Hx0 & [(F & _) _ _ O P])%superseded_row Hn Hfs.
  destruct (decide (k = pred)) as [->|Hne]; [destruct P; [done|congruence]|]. destruct (O Hne) as [O1 _].
  apply Hne. eapply (fi_head _ Hok); [exact Hx0|exact Hpred|congruence..].
Qed.
Lemma rotate_head h1 s1 h2 s2 : t1 !! h1 = Some s1 -> t1 !! h2 = Some s2 ->
  FamilyID s1 = FamilyID s2 -> SupersededBy s1 = None -> SupersededBy s2 = None -> h1 = h2.
Proof.
  intros (x1 & Hx1 & [(F1 & _) _ _ O1 P1])%superseded_row (x2 & Hx2 & [(F2 & _) _ _ O2 P2])%superseded_row Heq Hn1 Hn2.
  destruct (decide (h1 = pred)) as [->|N1]; [destruct P1; [done|congruence]|].
  destruct (decide (h2 = pred)) as [->|N2]; [destruct P2; [done|congruence]|].
  destruct (O1 N1), (O2 N2). eapply (fi_head _ Hok); [exact Hx1|exact Hx2|congruence..].
Qed.
(** A pair that is still cached. *)
Lemma rotate_cache k x p : t1 !! k = Some x -> SuccessorCache x = Some p ->
  (k = pred /\ x = stamp succ cache now old /\ p = cache) \/
  (k <> pred /\ FamilyID x <> FamilyID s /\ t !! k = Some x).
Proof.
  unfold t1. rewrite lookup_superseded. intros (x0 & Hx0 & ->)%fmap_Some Hp.
  destruct (String.eqb k pred) eqn:Hk; [apply String.eqb_eq in Hk as ->; left|right].
  { rewrite Hpred in Hx0. injection Hx0 as <-. by injection Hp as <-. }
  apply String.eqb_neq in Hk. split; [done|].
  destruct (String.eqb_spec (FamilyID x0) (FamilyID s)); [done|]. done.
Qed.

Lemma families_rotate : families_ok (<[succ := s]> t1).
Proof.
  destruct Hs as (HsupS & HcacheS & HrevS). split.
  - intros h1 s1 h2 s2 H1 H2 Heq Hn1 Hn2. inserted H1; inserted H2; [done| | |by eapply rotate_head].
    + by destruct (rotate_no_head _ _ H2 Hn2).
    + by destruct (rotate_no_head _ _ H1 Hn1).
  - intros h1 s1 h2 s2 H1 H2 Heq. inserted H1; inserted H2; [done| | |].
    + apply superseded_row in H2 as (x2 & Hx2 & [(F2 & A2 & R2) B2 _ _ _]).
      destruct (rotate_alive _ _ Hx2); [congruence|]. split; congruence.
    + apply superseded_row in H1 as (x2 & Hx2 & [(F2 & A2 & R2) B2 _ _ _]).
      destruct (rotate_alive _ _ Hx2); [congruence|]. split; congruence.
    + apply superseded_row in H1 as (x1 & Hx1 & [(F1 & A1 & R1) B1 _ _ _]), H2 as (x2 & Hx2 & [(F2 & A2 & R2) B2 _ _ _]).
      destruct (fi_same _ Hok _ _ _ _ Hx1 Hx2); [congruence|]. split; congruence.
  - intros h1 s1 h2 s2 H1 H2 Heq. inserted H1; inserted H2; [done| | |].
    + apply superseded_row in H2 as (x2 & Hx2 & [(F2 & A2 & R2) B2 _ _ _]).
      rewrite B2, Hbirth. eapply (fi_birth _ Hok); [exact Hpred|exact Hx2|congruence].
    + apply superseded_row in H1 as (x2 & Hx2 & [(F2 & A2 & R2) B2 _ _ _]).
      rewrite B2, Hbirth. eapply (fi_birth _ Hok); [exact Hx2|exact Hpred|congruence].
    + apply superseded_row in H1 as (x1 & Hx1 & [(F1 & A1 & R1) B1 _ _ _]), H2 as (x2 & Hx2 & [(F2 & A2 & R2) B2 _ _ _]).
      rewrite B1, B2. eapply (fi_birth _ Hok); [exact Hx1|exact Hx2|congruence].
  - intros k x p Hk Hp. inserted Hk; [congruence|]. destruct (rotate_cache _ _ _ Hk Hp) as [(-> & -> & ->)|(Hne & Hf & Hk0)].
    + split_and!; [done|eauto..|]. exists s. by rewrite lookup_insert_eq.
    + destruct (fi_cache _ Hok _ _ _ Hk0 Hp) as (C1 & C2 & C3 & s' & C4 & C5 & C6). split_and!; [done..|].
      exists s'. split; [|done]. assert (t1 !! sha256Hex (RefreshToken p) = Some s') as Ht1.
      { unfold t1. rewrite lookup_superseded, C4. cbn [fmap option_fmap option_map].
        destruct (String.eqb_spec (sha256Hex (RefreshToken p)) pred) as [Heq|]; [exfalso; congruence|].
        destruct (String.eqb_spec (FamilyID s') (FamilyID s)); [exfalso; congruence|done]. }
      rewrite lookup_insert_ne; [done|]. congruence.
  - intros h1 s1 h2 s2 H1 H2 Heq [c1 Hc1] [c2 Hc2]. inserted H1; inserted H2; [done|congruence|congruence|].
    destruct (rotate_cache _ _ _ H1 Hc1) as [(-> & -> & ->)|(N1 & F1 & K1)],
      (rotate_cache _ _ _ H2 Hc2) as [(-> & -> & ->)|(N2 & F2 & K2)]; [done| | |].
    + destruct F2. rewrite <- Heq. cbn. congruence.
    + destruct F1. rewrite Heq. cbn. congruence.
    + by eapply (fi_one_cache _ Hok).
Qed.
End Rotate.

Lemma inv_rotate n pred old cache s d :
  auth_inv n d -> refresh_sessions d !! pred = Some old -> Revoked old = false -> SupersededBy old = None ->
  AccountID s = AccountID old -> FamilyID s = FamilyID old -> birth s = birth old -> CreatedAt s = n ->
  SupersededBy s = None /\ SuccessorCache s = None /\ Revoked s = false -> fresh_ids s d -> row_ok s ->
  let succ := sha256Hex (RefreshToken cache) in
  let d1 := d <| refresh_sessions ::= superseded pred succ (FamilyID s) cache n |> in
  refresh_sessions d1 !! succ = None -> room s d1 ->
  auth_inv n (d1 <| refresh_sessions ::= <[succ := s]> |>).
Proof.
  intros Hinv Hpred Hrev Hsup Ha Hfam Hbirth Hcr Hs Hids Hrow succ d1 Hsucc Hroom. pose proof Hinv as [].
  destruct (ri_row _ _ ai_rows _ _ Hpred) as (_ & HaO & HfO & _).
  split; [done|by eapply families_rotate| |done| | |].
  - apply rows_insert; try done; [by apply rows_superseded|congruence|congruence|].
    destruct Hids as [I1 I2]. split; [done|]. intros h x' id (x & Hx & [_ _ (I & _) _ _])%superseded_row. rewrite I. by eapply I2.
  - by do 2 apply feed_wf_sessions.
  - apply (listed_rows d); [done| |done..].
    eapply rows_le_trans; [apply superseded_rows_le|by apply rows_le_insert].
  - intros k x Hk Hr Hlt id Hid. change (<[succ := s]> (refresh_sessions d1) !! k = Some x) in Hk.
    inserted Hk; [destruct Hs; intuition congruence|].
    apply superseded_row in Hk as (x0 & Hx0 & [(F & A & R) B (I & C1 & C2 & E & C) _ _]).
    do 2 apply covers_sessions. rewrite A, E, C. eapply ai_revoked; [exact Hx0|congruence|congruence|congruence].
Qed.

(** ** Revoking *)

Section Revoke.
Context (column : RefreshSession -> string) (value : string).
Let upd (s : RefreshSession) := if String.eqb (column s) value then revoke_row s else s.

Lemma lookup_revoked_rows t k x' :
  revoked_rows column value t !! k = Some x' <-> exists x, t !! k = Some x /\ x' = upd x.
Proof.
  unfold revoked_rows. rewrite lookup_update_where. split.
  - intros (x & Hx & ->)%fmap_Some. by exists x.
  - intros (x & -> & ->). done.
Qed.
Lemma revoke_row_same x :
  FamilyID (upd x) = FamilyID x /\ AccountID (upd x) = AccountID x /\ ids_of (upd x) = ids_of x /\
  AccessExpiresAt (upd x) = AccessExpiresAt x /\ CreatedAt (upd x) = CreatedAt x /\
  SupersededBy (upd x) = SupersededBy x /\ SupersededAt (upd x) = SupersededAt x /\
  Revoked (upd x) = Revoked x || String.eqb (column x) value /\
  SuccessorCache (upd x) = (if String.eqb (column x) value then None else SuccessorCache x) /\
  (row_ok x -> row_ok (upd x)) /\ birth (upd x) = birth x.
Proof.
  unfold upd, row_ok, ids_of. destruct (String.eqb (column x) value); cbn; rewrite ?orb_true_r, ?orb_false_r; split_and!; try done; tauto.
Qed.

Lemma families_revoke t :
  families_ok t ->
  (forall h1 s1 h2 s2, t !! h1 = Some s1 -> t !! h2 = Some s2 -> FamilyID s1 = FamilyID s2 -> column s1 = column s2) ->
  families_ok (revoked_rows column value t).
Proof.
  intros Hok Hcol. split.
  - intros h1 s1 h2 s2 (x1 & H1 & ->)%lookup_revoked_rows (x2 & H2 & ->)%lookup_revoked_rows.
    destruct (revoke_row_same x1) as (-> & _ & _ & _ & _ & -> & _), (revoke_row_same x2) as (-> & _ & _ & _ & _ & -> & _).
    by eapply fi_head.
  - intros h1 s1 h2 s2 (x1 & H1 & ->)%lookup_revoked_rows (x2 & H2 & ->)%lookup_revoked_rows.
    destruct (revoke_row_same x1) as (-> & -> & _ & _ & _ & _ & _ & -> & _), (revoke_row_same x2) as (-> & -> & _ & _ & _ & _ & _ & -> & _).
    intros Heq. destruct (fi_same _ Hok _ _ _ _ H1 H2 Heq) as [? ->]. by rewrite (Hcol _ _ _ _ H1 H2 Heq).
  - intros h1 s1 h2 s2 (x1 & H1 & ->)%lookup_revoked_rows (x2 & H2 & ->)%lookup_revoked_rows.
    destruct (revoke_row_same x1) as (-> & _ & _ & _ & _ & _ & _ & _ & _ & _ & ->), (revoke_row_same x2) as (-> & _ & _ & _ & _ & _ & _ & _ & _ & _ & ->).
    by eapply fi_birth.
  - intros k x' p (x & Hx & ->)%lookup_revoked_rows. destruct (revoke_row_same x) as (-> & _ & _ & _ & _ & -> & -> & -> & -> & _).
    destruct (String.eqb (column x) value); [done|]. intros Hp.
    destruct (fi_cache _ Hok _ _ _ Hx Hp) as (-> & ? & ? & s' & Hs' & ? & ?). split_and!; [done..|].
    exists (upd s'). destruct (revoke_row_same s') as (-> & _ & _ & _ & _ & -> & _). split; [|done].
    apply lookup_revoked_rows. by exists s'.
  - intros h1 s1 h2 s2 (x1 & H1 & ->)%lookup_revoked_rows (x2 & H2 & ->)%lookup_revoked_rows.
    destruct (revoke_row_same x1) as (-> & _ & _ & _ & _ & _ & _ & _ & -> & _), (revoke_row_same x2) as (-> & _ & _ & _ & _ & _ & _ & _ & -> & _).
    intros Heq [? ?] [? ?]. destruct (String.eqb (column x1) value); [done|]. destruct (String.eqb (column x2) value); [done|].
    by eapply fi_one_cache.
Qed.

Lemma rows_revoke n d : (forall s, column (revoke_row s) = column s) ->
  rows_ok n d -> rows_ok n (d <| refresh_sessions ::= revoked_rows column value |>).
Proof.
  intros Hcol []. split; [cbn [refresh_sessions set_field eta_auth_tables]..| |].
  - intros k x' (x & Hx & ->)%lookup_revoked_rows. destruct (revoke_row_same x) as (-> & -> & _ & _ & -> & _ & _ & _ & _ & Hr & _).
    destruct (ri_row _ _ Hx) as (? & ? & ? & ?). by split_and!; [apply Hr| | |].
  - intros h1 s1 h2 s2 id (x1 & H1 & ->)%lookup_revoked_rows (x2 & H2 & ->)%lookup_revoked_rows.
    destruct (revoke_row_same x1) as (_ & _ & -> & _), (revoke_row_same x2) as (_ & _ & -> & _). by eapply ri_ids.
  - intros k x' (x & Hx & ->)%lookup_revoked_rows. pose proof (ri_pair _ _ Hx). unfold upd. by destruct (String.eqb (column x) value).
  - intros fam m Hm. rewrite family_generations_sessions. unfold revoked_rows. rewrite count_where_update; [by apply ri_family|done].
  - intros a m. rewrite second_generations_sessions. unfold revoked_rows. rewrite count_where_update; [by apply ri_second|done].
Qed.

Lemma revoked_rows_le t : rows_le t (revoked_rows column value t).
Proof.
  intros h s Hs. exists (upd s). destruct (revoke_row_same s) as (_ & A & I & _ & C & _).
  split_and!; [|done..]. apply lookup_revoked_rows. by exists s.
Qed.

Lemma inv_revoke n d d' :
  auth_inv n d -> (forall s, column (revoke_row s) = column s) ->
  (forall h1 s1 h2 s2, refresh_sessions d !! h1 = Some s1 -> refresh_sessions d !! h2 = Some s2 ->
     FamilyID s1 = FamilyID s2 -> column s1 = column s2) ->
  refresh_sessions d' = revoked_rows column value (refresh_sessions d) -> users d' = users d -> feed_wf d' -> listed_ok d' ->
  (forall tok acct exp iat, covers d tok acct exp iat -> covers d' tok acct exp iat) ->
  (forall h s id, refresh_sessions d !! h = Some s -> column s = value -> Revoked s = false -> n < AccessExpiresAt s ->
     id ∈ ids_of s -> covers d' id (AccountID s) (AccessExpiresAt s) (CreatedAt s)) ->
  auth_inv n d'.
Proof.
  intros Hinv Hcol Hcompat Hs Hu Hwf Hlist Hmono Hnew. pose proof Hinv as [].
  pose proof (rows_revoke n d Hcol ai_rows) as [].
  split; rewrite ?Hs, ?Hu; [done|by apply families_revoke| |done|done|done|].
  - split; unfold family_generations, second_generations; rewrite ?Hs; done.
  - intros k x' (x & Hx & ->)%lookup_revoked_rows. destruct (revoke_row_same x) as (_ & -> & -> & -> & -> & _ & _ & -> & _).
    destruct (Revoked x) eqn:Hrev; cbn; intros Hr Hlt id Hid.
    + apply Hmono. by eapply ai_revoked.
    + apply String.eqb_eq in Hr. by eapply Hnew.
Qed.
End Revoke.

(** *** How much a revocation lists *)

Lemma length_access_tokens (l : list (string * RefreshSession)) :
  length (flat_map (fun kv => access_tokens kv.2) l) = (2 * length l)%nat.
Proof. induction l as [|x l IH]; cbn; [done|]. rewrite IH. lia. Qed.

Definition revoked_list column value now cutoffEvent (d : auth_tables) : list RevokedToken :=
  flat_map (fun kv => access_tokens kv.2)
    (merge_sort by_created (select_where (revocable column value now cutoffEvent) (refresh_sessions d))).

Lemma length_revoked column value now cutoffEvent d :
  Z.of_nat (length (revoked_list column value now cutoffEvent d)) =
  2 * count_where (revocable column value now cutoffEvent) (refresh_sessions d).
Proof.
  unfold revoked_list. rewrite length_access_tokens, (merge_sort_Permutation by_created). unfold count_where. lia.
Qed.
Lemma family_list_bound n fam d :
  rows_ok n d -> Z.of_nat (length (revoked_list FamilyID fam n false d)) <= 768.
Proof.
  intros Hrows. rewrite length_revoked. pose proof (ri_family _ _ Hrows fam n ltac:(lia)) as Hle.
  assert (count_where (revocable FamilyID fam n false) (refresh_sessions d) <= family_generations fam n d).
  { apply count_where_le. intros k v _. unfold revocable. rewrite !andb_true_iff. tauto. }
  change maxRetainedAccessGenerationsPerScope with 384 in Hle. lia.
Qed.
Lemma account_list_bound n a d :
  rows_ok n d -> Z.of_nat (length (revoked_list AccountID a n true d)) <= 768.
Proof.
  intros Hrows. rewrite length_revoked. pose proof (ri_second _ _ Hrows a n) as Hle.
  assert (count_where (revocable AccountID a n true) (refresh_sessions d) <= second_generations a n d).
  { apply count_where_le. intros k v Hk. unfold revocable. rewrite !andb_true_iff. intros [[[? _] _] Hc].
    apply (ri_row _ _ Hrows) in Hk as (_ & _ & _ & Hn). split; [done|]. cbn [negb orb] in Hc. lia. }
  change maxRetainedAccessGenerationsPerScope with 384 in Hle. lia.
Qed.
End Steps.
