(* ===== verification/AuthTransactions.v ===== *)
(** * Every transaction of the authorization service keeps its invariant

    What the transactions of AuthRuns.v can commit, by inversion along their code, and the
    invariant along every run. *)

From S2P Require Import Prelude GoLib Database Intent AuthStore AuthFlow AuthLaws AuthFeed AuthRuns.
From S2P Require Import AuthRuns AuthSteps.
Open Scope Z_scope.

Section Transactions.
Context `{IntentCrypto}.
Context (proto_Size : event_row -> list RevokedToken -> Z).
Context (keyID : string) (Sign : SessionBody -> option string).

Lemma lift_outcome {A} (r : result auth_error A) d a d' : outcome (lift r) d (Ok a) d' -> r = Ok a /\ d' = d.
Proof. destruct r; intros Hm; [inv_throw Hm|inv_ret Hm]; done. Qed.

Lemma mint_ok a u fam spki now f pair :
  mintAccessPair keyID Sign a u fam spki now f = Ok pair ->
  CPTokenID pair = f_cp f /\ NodeTokenID pair = f_node f /\ pair_IssuedAt pair = unix now /\
  pair_ExpiresAt pair = unix (now + accessTokenTTL).
Proof. unfold mintAccessPair. destruct (Sign _); [|done]. destruct (Sign _); [|done]. by intros [= <-]. Qed.

(** *** Revoking a family or an account *)

Definition family_event (a fam : string) (now : Z) : event_row :=
  {| ev_AccountID := a; ev_FamilyID := fam; ev_RevokedAt := unix now; RevokeTokensIssuedBefore := 0 |}.
Definition account_event (a : string) (now : Z) : event_row :=
  {| ev_AccountID := a; ev_FamilyID := ""; ev_RevokedAt := unix now; RevokeTokensIssuedBefore := unix now |}.

Lemma revoke_family_outcome a fam now d d' :
  outcome (revoke_family proto_Size a fam now) d (Ok tt) d' ->
  let d1 := d <| refresh_sessions ::= revoked_rows FamilyID fam |> in
  let l := revoked_list FamilyID fam (unix now) false d in
  (l = [] /\ d' = d1) \/
  (l <> [] /\ exists seq, outcome (append proto_Size (family_event a fam now) l) d1 (Ok seq) d').
Proof.
  unfold revoke_family. intros Hm. inv_bind Hm as (l & d1 & [-> ->]%revoke_outcome & Hm).
  fold (revoked_list FamilyID fam (unix now) false d) in Hm. unfold appendFamilyRevocation in Hm.
  case_bool_decide as Hl; [left; by inv_ret Hm|right]. split; [done|].
  inv_bind Hm as (seq & d2 & Hap & Hm). inv_ret Hm. by exists seq.
Qed.
Lemma revoke_account_outcome a now d d' :
  outcome (liveTokens ← RevokeAccount a (unix now); appendAccountRevocation proto_Size a liveTokens now) d (Ok tt) d' ->
  exists seq, outcome (append proto_Size (account_event a now) (revoked_list AccountID a (unix now) true d))
    (d <| refresh_sessions ::= revoked_rows AccountID a |>) (Ok seq) d'.
Proof.
  intros Hm. inv_bind Hm as (l & d1 & [-> ->]%revoke_outcome & Hm). unfold appendAccountRevocation in Hm.
  inv_bind Hm as (seq & d2 & Hap & Hm). inv_ret Hm. by exists seq.
Qed.

Lemma elem_of_revoked_list column value now cutoffEvent d t :
  t ∈ revoked_list column value now cutoffEvent d <->
  exists h s, refresh_sessions d !! h = Some s /\ revocable column value now cutoffEvent h s = true /\ t ∈ access_tokens s.
Proof. apply elem_of_revoked. Qed.

(** The ids of a row are listed. *)
Lemma ids_listed column value now cutoffEvent d h s id :
  refresh_sessions d !! h = Some s -> revocable column value now cutoffEvent h s = true -> id ∈ ids_of s ->
  {| TokenID := id; RetainUntil := AccessExpiresAt s |} ∈ revoked_list column value now cutoffEvent d.
Proof.
  intros Hs Hr Hid. apply elem_of_revoked_list. exists h, s. split; [done|]. split; [done|].
  unfold ids_of in Hid. unfold access_tokens. rewrite elem_of_cons, list_elem_of_singleton in Hid.
  destruct Hid as [->| ->]; [left|right; left].
Qed.

(** A listed token is one of a row. *)
Lemma revoked_list_source column value n now cutoffEvent d x :
  rows_ok n d -> x ∈ revoked_list column value now cutoffEvent d ->
  blen (TokenID x) <= maxAccessTokenIDBytes /\
  exists h s s', refresh_sessions d !! h = Some s /\ revocable column value now cutoffEvent h s = true /\
    revoked_rows column value (refresh_sessions d) !! h = Some s' /\ TokenID x ∈ ids_of s' /\
    AccountID s' = AccountID s /\ CreatedAt s' = CreatedAt s /\ CreatedAt s <= n.
Proof.
  intros Hrows (h & s & Hs & Hr & Hx)%elem_of_revoked_list.
  destruct (ri_row _ _ Hrows _ _ Hs) as ((_ & _ & _ & Hb1 & Hb2) & _ & _ & Hle).
  assert (TokenID x ∈ ids_of s /\ blen (TokenID x) <= maxAccessTokenIDBytes) as [Hid Hb].
  { unfold access_tokens in Hx. rewrite elem_of_cons, list_elem_of_singleton in Hx.
    destruct Hx as [->| ->]; (split; [unfold ids_of|done]); [left|right; left]. }
  split; [done|]. destruct (revoked_rows_le column value _ _ _ Hs) as (s' & Hs' & I & A & C).
  exists h, s, s'. split_and!; [done..|by rewrite I|done|done|done].
Qed.

Lemma inv_revoke_family a fam now d d' :
  auth_inv (unix now) d ->
  (exists h s, refresh_sessions d !! h = Some s /\ AccountID s = a /\ FamilyID s = fam) ->
  outcome (revoke_family proto_Size a fam now) d (Ok tt) d' -> auth_inv (unix now) d'.
Proof.
  intros Hinv (h0 & s0 & Hs0 & <- & <-) Hm%revoke_family_outcome. set (fam := FamilyID s0) in *.
  destruct (ri_row _ _ (ai_rows _ _ Hinv) _ _ Hs0) as (_ & Hia & Hif & _). fold fam in Hif.
  cbn zeta in Hm. set (d1 := d <| refresh_sessions ::= _ |>) in *.
  pose proof (feed_wf_sessions (revoked_rows FamilyID fam) d (ai_feed _ _ Hinv)) as Hwf1.
  assert (listed_ok d1) as Hl1 by (eapply listed_rows; [apply (ai_listed _ _ Hinv)|apply revoked_rows_le|done..]).
  assert (forall h s id, refresh_sessions d !! h = Some s -> FamilyID s = fam -> Revoked s = false ->
    unix now < AccessExpiresAt s -> id ∈ ids_of s ->
    {| TokenID := id; RetainUntil := AccessExpiresAt s |} ∈ revoked_list FamilyID fam (unix now) false d) as Hin.
  { intros h s id Hs Hf Hr Hlt Hid. apply (ids_listed _ _ _ _ _ h); [done| |done]. unfold revocable.
    rewrite Hf, Hr, String.eqb_refl. cbn. by apply andb_true_iff; split; [apply Z.ltb_lt|]. }
  destruct Hm as [[Hl ->]|(Hl & seq & Hm)].
  - apply (inv_revoke FamilyID fam _ d); try done. intros h s id Hs Hf Hr Hlt Hid.
    specialize (Hin _ _ _ Hs Hf Hr Hlt Hid). rewrite Hl in Hin. by apply elem_of_nil in Hin.
  - destruct (append_feed _ _ _ _ _ _ Hm Hwf1) as (F1 & _ & F3 & F4 & _ & F6 & F7 & F8).
    apply (inv_revoke FamilyID fam _ d); try done.
    + eapply listed_append; [exact Hm|]. apply listed_add_event; [done|done|apply Hia|apply Hif|cbn; by destruct Hif|].
      intros x Hx. destruct (revoked_list_source _ _ _ _ _ _ _ (ai_rows _ _ Hinv) Hx) as [Hb _].
      split; [done|]. cbn. by destruct Hif.
    + intros h s id Hs Hf Hr Hlt Hid. apply (F4 {| TokenID := id; RetainUntil := AccessExpiresAt s |}); [by apply (Hin h)|].
      cbn. by destruct Hif.
Qed.

Lemma account_listed a now d :
  auth_inv (unix now) d -> blen a <= 64 ->
  listed_ok (add_event (account_event a now) (revoked_list AccountID a (unix now) true d)
    (d <| refresh_sessions ::= revoked_rows AccountID a |>)).
Proof.
  intros Hinv Ha. apply listed_add_event; [by apply feed_wf_sessions, Hinv| |done|done|done|].
  { eapply listed_rows; [apply (ai_listed _ _ Hinv)|apply revoked_rows_le|done..]. }
  intros x Hx. destruct (revoked_list_source _ _ _ _ _ _ _ (ai_rows _ _ Hinv) Hx)
    as (Hb & h & s & s' & Hs & Hr & Hs' & Hid & A & C & Hle). split; [done|]. intros _. exists h, s'.
  unfold revocable in Hr. apply andb_true_iff in Hr as [[[Hr _]%andb_true_iff _]%andb_true_iff Hc].
  apply String.eqb_eq in Hr. apply Z.leb_le in Hc. split_and!; [done|done|cbn; congruence|cbn; lia].
Qed.

Lemma inv_revoke_account a now d d' :
  auth_inv (unix now) d -> (exists h s, refresh_sessions d !! h = Some s /\ AccountID s = a) ->
  outcome (liveTokens ← RevokeAccount a (unix now); appendAccountRevocation proto_Size a liveTokens now) d (Ok tt) d' ->
  auth_inv (unix now) d'.
Proof.
  intros Hinv (h0 & s0 & Hs0 & Ha0) (seq & Hm)%revoke_account_outcome.
  destruct (ri_row _ _ (ai_rows _ _ Hinv) _ _ Hs0) as (_ & Hia & _). rewrite Ha0 in Hia.
  pose proof (feed_wf_sessions (revoked_rows AccountID a) d (ai_feed _ _ Hinv)) as Hwf1.
  destruct (append_feed _ _ _ _ _ _ Hm Hwf1) as (F1 & _ & F3 & F4 & F5 & F6 & F7 & F8).
  apply (inv_revoke AccountID a _ d); try done.
  - intros h1 s1 h2 s2 H1 H2 Heq. by destruct (fi_same _ (ai_families _ _ Hinv) _ _ _ _ H1 H2 Heq).
  - eapply listed_append; [exact Hm|]. by apply account_listed; [|apply Hia].
  - intros h s id Hs Ha Hr Hlt Hid. destruct (ri_row _ _ (ai_rows _ _ Hinv) _ _ Hs) as (_ & _ & _ & Hle).
    destruct (decide (CreatedAt s = unix now)) as [Heq|Hne]; [|rewrite Ha; apply (F5 id); [done|cbn; lia]].
    apply (F4 {| TokenID := id; RetainUntil := AccessExpiresAt s |}); [|cbn; split; [done|lia]].
    apply (ids_listed _ _ _ _ _ h); [done| |done]. unfold revocable. rewrite Ha, Hr, Heq, String.eqb_refl. cbn.
    rewrite Z.leb_refl. by apply andb_true_iff; split; [apply Z.ltb_lt|].
Qed.

(** *** Refreshing *)

(** What the transaction of a refresh can commit. *)
Variant refreshed (rawToken : string) (proof : PoPProof) (now : Z) (f : fresh) (d : auth_tables)
    : refresh_answer -> auth_tables -> Prop :=
| refreshed_replay row by_ p :
    refresh_sessions d !! sha256Hex rawToken = Some row -> Revoked row = false ->
    SupersededBy row = Some by_ -> SuccessorCache row = Some p ->
    unix now - default 0 (SupersededAt row) <= seconds replayGrace ->
    refreshed rawToken proof now f d (Refreshed p) d
| refreshed_reuse row by_ d' :
    refresh_sessions d !! sha256Hex rawToken = Some row -> Revoked row = false -> SupersededBy row = Some by_ ->
    SuccessorCache row = None \/ seconds replayGrace < unix now - default 0 (SupersededAt row) ->
    outcome (revoke_family proto_Size (AccountID row) (FamilyID row) now) d (Ok tt) d' ->
    refreshed rawToken proof now f d Reuse_revoked d'
| refreshed_rotate row u pair d' :
    let cache := {| CPAccessToken := CPWire pair; NodeAccessToken := NodeWire pair; RefreshToken := f_refresh f |} in
    let s := session_row (AccountID row) (FamilyID row) (ClientKind row) (SessionPubkeySPKI row) pair now (FamilyCreatedAt row) in
    let d1 := d <| refresh_sessions ::= superseded (sha256Hex rawToken) (sha256Hex (f_refresh f)) (FamilyID s) cache (unix now) |> in
    refresh_sessions d !! sha256Hex rawToken = Some row -> Revoked row = false -> SupersededBy row = None ->
    users d !! AccountID row = Some u ->
    mintAccessPair keyID Sign (AccountID row) u (FamilyID row) (SessionPubkeySPKI row) now f = Ok pair ->
    outcome (insert (sha256Hex (f_refresh f)) s) d1 (Ok tt) d' ->
    refreshed rawToken proof now f d (Refreshed cache) d'.

Lemma rotate_outcome tokenHash row now f d p d' :
  outcome (rotateSession keyID Sign tokenHash row now f) d (Ok p) d' ->
  exists u pair,
    let cache := {| CPAccessToken := CPWire pair; NodeAccessToken := NodeWire pair; RefreshToken := f_refresh f |} in
    let s := session_row (AccountID row) (FamilyID row) (ClientKind row) (SessionPubkeySPKI row) pair now (FamilyCreatedAt row) in
    p = cache /\ users d !! AccountID row = Some u /\
    mintAccessPair keyID Sign (AccountID row) u (FamilyID row) (SessionPubkeySPKI row) now f = Ok pair /\
    exists old, refresh_sessions d !! tokenHash = Some old /\ Revoked old = false /\ SupersededBy old = None /\
    outcome (insert (sha256Hex (f_refresh f)) s)
      (d <| refresh_sessions ::= superseded tokenHash (sha256Hex (f_refresh f)) (FamilyID s) cache (unix now) |>) (Ok tt) d'.
Proof.
  unfold rotateSession. intros Hm. inv_bind Hm as (u & d1 & [-> Hu]%GetByID_outcome & Hm).
  inv_bind Hm as (pair & d1 & [Hmint ->]%lift_outcome & Hm). inv_bind Hm as (u2 & d2 & Hs & Hm). destruct u2.
  inv_ret Hm. apply Supersede_outcome in Hs as (old & d1 & Ho & Hr & Hsup & -> & Hins).
  exists u, pair. cbn zeta. split_and!; [done..|]. by exists old.
Qed.

Lemma Reuse_outcome a fam now d r d' :
  outcome (revoke_family proto_Size a fam now;; mret Reuse_revoked) d (Ok r) d' ->
  r = Reuse_revoked /\ outcome (revoke_family proto_Size a fam now) d (Ok tt) d'.
Proof. intros Hm. inv_bind Hm as (u & d1 & Hr & Hm). destruct u. by inv_ret Hm. Qed.

Lemma refresh_outcome rawToken proof now f d a d' :
  outcome (refresh_tx proto_Size keyID Sign rawToken proof now f) d (Ok a) d' ->
  refreshed rawToken proof now f d a d'.
Proof.
  unfold refresh_tx. cbn zeta. intros Hm. inv_bind Hm as (r & d1 & (r' & [= <-] & [-> Hrow]%Get_outcome)%outcome_try & Hm).
  destruct r as [e|row]; [destruct e; inv_throw Hm|]. destruct (Revoked row) eqn:Hrev; [inv_throw Hm|].
  destruct (_ <=? _) in Hm; [inv_throw Hm|]. destruct (_ <=? _) in Hm; [inv_throw Hm|].
  inv_bind Hm as (u & d1 & [_ ->]%lift_outcome & Hm). destruct (SupersededBy row) as [by_|] eqn:Hsup.
  - destruct (SuccessorCache row) as [p|] eqn:Hc.
    + destruct (Z.leb_spec (unix now - default 0 (SupersededAt row)) (seconds replayGrace)) as [Hle|Hlt].
      * inv_ret Hm. by econstructor.
      * apply Reuse_outcome in Hm as [-> Hm]. econstructor; eauto.
    + apply Reuse_outcome in Hm as [-> Hm]. econstructor; eauto.
  - inv_bind Hm as (p & d1 & (u1 & pair & Hp & Hu & Hmint & old & Hold & _ & _ & Hins)%rotate_outcome & Hm). inv_ret Hm.
    by econstructor.
Qed.

Lemma inv_refresh rawToken proof now f d a d' :
  auth_inv (unix now) d -> ids_fresh f d -> refreshed rawToken proof now f d a d' -> auth_inv (unix now) d'.
Proof.
  intros Hinv Hfresh Hr. destruct Hr as [row by_ p|row by_ d' Hrow ? ? ? Hm|row u pair d' cache s d1 Hrow Hrev Hsup Hu Hmint Hins]; [done| |].
  - eapply inv_revoke_family; [done| |exact Hm]. by exists (sha256Hex rawToken), row.
  - apply mint_ok in Hmint as (Hcp & Hnode & _ & _).
    apply insert_outcome in Hins as (Hok & Hg1 & Hg2 & Hsucc & _ & ->).
    apply (inv_rotate (unix now) (sha256Hex rawToken) row cache s d); try done. by eapply ids_fresh_row.
Qed.

(** *** Opening a family *)

Lemma inv_open_family top a u kind spki now f d r d' :
  auth_inv (unix now) d -> ids_fresh f d -> family_fresh f d ->
  outcome (open_family keyID Sign top a u kind spki now f) d (Ok r) d' -> auth_inv (unix now) d'.
Proof.
  intros Hinv Hids [Hne Hfam] Hm. unfold open_family in Hm.
  inv_bind Hm as (pair & d1 & [Hmint ->]%lift_outcome & Hm). inv_bind Hm as (u2 & d2 & Hins & Hm). destruct u2.
  inv_ret Hm. apply mint_ok in Hmint as (Hcp & Hnode & _ & _).
  assert (outcome (insert (sha256Hex (f_refresh f)) (session_row a (f_family f) kind spki pair now (unix now))) d (Ok tt) d2) as Hins'.
  { destruct top; [|exact Hins]. by apply outcome_tx in Hins as [(x & [= <-] & Hi)|(? & [=] & _)]. }
  apply insert_outcome in Hins' as (Hok & Hg1 & Hg2 & Hsucc & [u1 Hu1] & ->).
  apply inv_insert; try done; [by eapply (ai_users _ _ Hinv)|by eapply ids_fresh_row].
Qed.

(** *** Device grants *)

Definition only_grants (d d' : auth_tables) : Prop :=
  d' = d <| device_grants := device_grants d' |>.
Lemma only_grants_refl d : only_grants d d.
Proof. by destruct d. Qed.
Lemma only_grants_trans d1 d2 d3 : only_grants d1 d2 -> only_grants d2 d3 -> only_grants d1 d3.
Proof. unfold only_grants. destruct d1, d2, d3; cbn. intros; simplify_eq. done. Qed.
Lemma inv_grants n d d' : auth_inv n d -> only_grants d d' -> auth_inv n d'.
Proof. intros Hinv ->. by destruct Hinv as [? ? [] ? [] [] ?]. Qed.

(** Statements on the grants change nothing else. *)
Lemma exec_grants_outcome p g d r d' :
  outcome (exec_grants p g) d r d' -> only_grants d d' /\
  (forall n, r = Ok n -> n = count_where p (device_grants d) /\ device_grants d' = update_where p g (device_grants d)).
Proof.
  intros [(msg & -> & ->)|Hq]%outcome_stmt; [split; [apply only_grants_refl|done]|].
  injection Hq as <- <-. split; [done|]. by intros n [= <-].
Qed.
Lemma grant_Create_outcome h g d r d' :
  outcome (grant_Create h g) d r d' -> only_grants d d' /\
  (r = Ok tt -> device_grants d !! h = None /\ device_grants d' = <[h := g]> (device_grants d)).
Proof.
  intros [(msg & -> & ->)|Hq]%outcome_stmt; [split; [apply only_grants_refl|done]|].
  case_bool_decide as Hh; [by simplify_eq; split; [apply only_grants_refl|]|].
  destruct (0 <? _); [by simplify_eq; split; [apply only_grants_refl|]|].
  destruct (negb _); simplify_eq; (split; [done || apply only_grants_refl|]); [done|].
  intros _. split; [by apply eq_None_not_Some|done].
Qed.
Lemma update_grant_outcome h p g miss d r d' :
  outcome (update_grant h p g miss) d r d' -> only_grants d d' /\
  (forall x, r = Ok x -> exists old, device_grants d !! h = Some old /\ p old = true /\ x = g old /\
     device_grants d' = <[h := g old]> (device_grants d)).
Proof.
  intros [(msg & -> & ->)|Hq]%outcome_stmt; [split; [apply only_grants_refl|done]|].
  destruct (device_grants d !! h) as [old|]; [destruct (p old) eqn:Hp|]; simplify_eq;
    (split; [done || apply only_grants_refl|]); try done.
  intros x [= <-]. by exists old.
Qed.
Lemma BumpAttempt_only h d r d' : outcome (BumpAttempt h) d r d' -> only_grants d d'.
Proof.
  unfold BumpAttempt. intros [(e & -> & Hm)|(x & d1 & Hm & Hr)]%outcome_bind.
  - by apply update_grant_outcome in Hm as [? _].
  - apply update_grant_outcome in Hm as [? _]. by inv_ret Hr.
Qed.
Lemma SetDecision_outcome code a st d r d' : outcome (SetDecision code a st) d r d' ->
  only_grants d d' /\
  (d' = d \/ device_grants d' = update_where
     (fun _ g => String.eqb (UserCode g) code && bool_decide (Status g = GrantPending))
     (fun g => g <| Status := st |> <| dg_AccountID := a |>) (device_grants d)).
Proof.
  unfold SetDecision. intros [(e & -> & Hm)|(x & d1 & Hm & Hr)]%outcome_bind.
  - apply outcome_stmt in Hm as [(msg & _ & ->)|[=]]. split; [apply only_grants_refl|by left].
  - apply exec_grants_outcome in Hm as [? Hx]. destruct (Hx x eq_refl) as [_ Hg].
    destruct (x =? 0); [apply outcome_throw in Hr as [_ ->]|apply outcome_ret in Hr as [_ ->]]; auto.
Qed.
Lemma SetLastPolled_outcome h now d r d' : outcome (SetLastPolled h now) d r d' ->
  only_grants d d' /\
  (d' = d \/ device_grants d' = update_where (fun k _ => String.eqb k h) (fun g => g <| LastPolledAt := now |>) (device_grants d)).
Proof.
  unfold SetLastPolled. intros [(e & -> & Hm)|(x & d1 & Hm & Hr)]%outcome_bind.
  - apply outcome_stmt in Hm as [(msg & _ & ->)|[=]]. split; [apply only_grants_refl|by left].
  - apply exec_grants_outcome in Hm as [? Hx]. destruct (Hx x eq_refl) as [_ Hg]. apply outcome_ret in Hr as [_ ->]. auto.
Qed.

(** A redemption: the grant's one step to redeemed, and a family bound to what it says. *)
Lemma redeem_outcome h now f d r d' :
  outcome (redeem_tx keyID Sign h now f) d (Ok r) d' ->
  exists g u d1, device_grants d !! h = Some g /\ Status g = GrantApproved /\
    users d !! dg_AccountID g = Some u /\ only_grants d d1 /\
    device_grants d1 = <[h := g <| Status := GrantRedeemed |>]> (device_grants d) /\
    outcome (open_family keyID Sign false (dg_AccountID g) u "cli" (dg_SessionPubkeySPKI g) now f) d1 (Ok r) d'.
Proof.
  unfold redeem_tx. intros Hm. inv_bind Hm as (x & d1 & [Hon Hx]%update_grant_outcome & Hm).
  destruct (Hx x eq_refl) as (g & Hg & Hst & -> & Hd1). apply bool_decide_eq_true in Hst.
  inv_bind Hm as (u & d2 & [-> Hu]%GetByID_outcome & Hm). cbn in Hu, Hm.
  rewrite Hon in Hu. by exists g, u, d1.
Qed.
Lemma inv_redeem h now f d r d' :
  auth_inv (unix now) d -> ids_fresh f d -> family_fresh f d ->
  outcome (redeem_tx keyID Sign h now f) d (Ok r) d' -> auth_inv (unix now) d'.
Proof.
  intros Hinv Hids Hfam (g & u & d1 & _ & _ & _ & Hon & _ & Hm)%redeem_outcome.
  assert (refresh_sessions d1 = refresh_sessions d) as Hs by (by rewrite Hon).
  eapply inv_open_family; [by eapply inv_grants| | |exact Hm];
    [unfold ids_fresh in *|unfold family_fresh in *]; by rewrite Hs.
Qed.

(** ** Every step *)

Lemma ignore_outcome {A} (m : DB A) d r d' : outcome (ignore m) d r d' -> exists r', outcome m d r' d'.
Proof. intros [(e & -> & Hm)|(a & d1 & Hm & Hr)]%outcome_bind; [eauto|]. apply outcome_ret in Hr as [_ ->]. eauto. Qed.

Lemma user_Create_outcome a u d r d' : outcome (user_Create a u) d r d' ->
  d' = d \/ d' = d <| users ::= <[a := u]> |>.
Proof.
  intros [(msg & -> & ->)|Hq]%outcome_stmt; [by left|]. case_bool_decide; [simplify_eq; by left|].
  destruct (0 <? _); [simplify_eq; by left|]. destruct (negb _); simplify_eq; auto.
Qed.
Lemma open_family_error a u kind spki now f d e d' :
  outcome (open_family keyID Sign true a u kind spki now f) d (Err e) d' -> d' = d.
Proof.
  unfold open_family. intros [(? & _ & Hm)|(pair & d1 & [_ ->]%lift_outcome & Hm)]%outcome_bind.
  - destruct (mintAccessPair _ _ _ _ _ _ _); [by apply outcome_throw in Hm as [_ ->]|by apply outcome_ret in Hm as [[=] _]].
  - apply outcome_bind in Hm as [(? & _ & Hm)|(x & d1 & _ & [[=] _]%outcome_ret)].
    by apply outcome_tx in Hm as [(? & [=] & _)|(? & _ & ->)].
Qed.

Lemma auth_step_inv op n now d r d' :
  auth_inv n d -> n <= unix now -> op_ok op d -> outcome (auth_prog proto_Size keyID Sign op now) d r d' ->
  auth_inv (unix now) d'.
Proof.
  intros Hinv0 Hle Hfresh Hm. pose proof (inv_later _ _ _ Hinv0 Hle) as Hinv.
  destruct op as [a u|a u kind spki f|raw proof f|a fam|a|h g|h|code a st|h|h f|seq limit]; cbn [auth_prog op_ok] in *.
  - apply user_Create_outcome in Hm as [->| ->]; [done|]. apply (inv_frame _ d); try done; [|by destruct (ai_feed _ _ Hinv)|by destruct (ai_listed _ _ Hinv)].
    intros a' u' Ha. cbn in Ha. inserted Ha; [done|by eapply ai_users].
  - apply ignore_outcome in Hm as [[e|x] Hm]; [by apply open_family_error in Hm as ->|].
    destruct Hfresh. by eapply inv_open_family.
  - apply ignore_outcome in Hm as [r' [(x & -> & Hm%refresh_outcome)|(e & -> & ->)]%outcome_tx]; [|done]. by eapply inv_refresh.
  - apply outcome_tx in Hm as [([] & -> & Hm)|(e & -> & ->)]; [|done]. by eapply inv_revoke_family.
  - apply outcome_tx in Hm as [([] & -> & Hm)|(e & -> & ->)]; [|done]. by eapply inv_revoke_account.
  - apply grant_Create_outcome in Hm as [Hon _]. by eapply inv_grants.
  - apply ignore_outcome in Hm as [r' Hm%BumpAttempt_only]. by eapply inv_grants.
  - apply SetDecision_outcome in Hm as [Hon _]. by eapply inv_grants.
  - apply SetLastPolled_outcome in Hm as [Hon _]. by eapply inv_grants.
  - apply ignore_outcome in Hm as [r' [(x & -> & Hm)|(e & -> & ->)]%outcome_tx]; [|done]. destruct Hfresh. by eapply inv_redeem.
  - apply ignore_outcome in Hm as [[e|[evs more]] Hm].
    + by apply PageAfter_error in Hm as ->.
    + destruct (page_feed _ _ _ _ _ _ _ _ Hm (ai_feed _ _ Hinv)) as (G1 & _ & G3 & G4 & G5 & _).
      apply (inv_frame _ d); try done; [rewrite G5; by destruct Hinv|]. eapply listed_page; [exact Hm|apply Hinv].
Qed.

(** A step says nothing new under the feed's old numbers. *)
Lemma feed_le_same d d' :
  event_seq d' = event_seq d -> revocation_events d' = revocation_events d -> event_tokens d' = event_tokens d ->
  feed_le d d'.
Proof.
  intros Hs He Ht. unfold feed_le. rewrite Hs, He, Ht. split; [done|]. split; [done|]. intros k tok v _ Hv.
  exists k. split; [lia|done].
Qed.
Lemma feed_le_grants d d' : only_grants d d' -> feed_le d d'.
Proof. intros Hon. apply feed_le_same; by rewrite Hon. Qed.
Lemma open_family_feed top a u kind spki now f d r d' :
  outcome (open_family keyID Sign top a u kind spki now f) d (Ok r) d' -> feed_le d d'.
Proof.
  unfold open_family. intros Hm. inv_bind Hm as (pair & d1 & [Hmint ->]%lift_outcome & Hm).
  inv_bind Hm as ([] & d2 & Hins & Hm). inv_ret Hm. destruct top.
  - apply outcome_tx in Hins as [(x & [= <-] & Hins)|(? & [=] & _)].
    by apply insert_outcome in Hins as (_ & _ & _ & _ & _ & ->); apply feed_le_same.
  - by apply insert_outcome in Hins as (_ & _ & _ & _ & _ & ->); apply feed_le_same.
Qed.
Lemma revoke_family_feed a fam now d d' :
  feed_wf d -> outcome (revoke_family proto_Size a fam now) d (Ok tt) d' -> feed_le d d'.
Proof.
  intros Hwf [[_ ->]|(_ & seq & Hm)]%revoke_family_outcome; [by apply feed_le_same|].
  apply append_feed in Hm as (_ & Hle & _); [|by apply feed_wf_sessions]. exact Hle.
Qed.
Lemma auth_step_feed op now d r d' :
  feed_wf d -> outcome (auth_prog proto_Size keyID Sign op now) d r d' -> feed_le d d'.
Proof.
  intros Hwf Hm. destruct op as [a u|a u kind spki f|raw proof f|a fam|a|h g|h|code a st|h|h f|seq limit]; cbn [auth_prog] in *.
  - by apply user_Create_outcome in Hm as [->| ->]; apply feed_le_same.
  - apply ignore_outcome in Hm as [[e|x] Hm]; [by apply open_family_error in Hm as ->; apply feed_le_same|].
    by eapply open_family_feed.
  - apply ignore_outcome in Hm as [r' [(x & -> & Hm%refresh_outcome)|(e & -> & ->)]%outcome_tx]; [|by apply feed_le_same].
    destruct Hm as [|row by_ d' _ _ _ _ Hm|row u pair d' cache s d1 _ _ _ _ _ Hins]; [by apply feed_le_same|by eapply revoke_family_feed|].
    by apply insert_outcome in Hins as (_ & _ & _ & _ & _ & ->); apply feed_le_same.
  - apply outcome_tx in Hm as [([] & -> & Hm)|(e & -> & ->)]; [by eapply revoke_family_feed|by apply feed_le_same].
  - apply outcome_tx in Hm as [([] & -> & (seq & Hm)%revoke_account_outcome)|(e & -> & ->)]; [|by apply feed_le_same].
    apply append_feed in Hm as (_ & Hle & _); [|by apply feed_wf_sessions]. exact Hle.
  - apply grant_Create_outcome in Hm as [Hon _]. by apply feed_le_grants.
  - apply ignore_outcome in Hm as [r' Hm%BumpAttempt_only]. by apply feed_le_grants.
  - apply SetDecision_outcome in Hm as [Hon _]. by apply feed_le_grants.
  - apply SetLastPolled_outcome in Hm as [Hon _]. by apply feed_le_grants.
  - apply ignore_outcome in Hm as [r' [(x & -> & Hm)|(e & -> & ->)]%outcome_tx]; [|by apply feed_le_same].
    apply redeem_outcome in Hm as (g & u & d1 & _ & _ & _ & Hon & _ & Hm).
    eapply feed_le_trans; [by apply feed_le_grants|by eapply open_family_feed].
  - apply ignore_outcome in Hm as [[e|[evs more]] Hm]; [by apply PageAfter_error in Hm as ->; apply feed_le_same|].
    by apply page_feed in Hm as (_ & Hle & _).
Qed.

Lemma empty_auth_inv n : 0 < n -> auth_inv n empty_auth.
Proof.
  intros Hn. by split.
Qed.

Lemma auth_runs_inv t0 t d :
  0 < unix t0 -> auth_runs proto_Size keyID Sign t0 empty_auth t d -> auth_inv (unix t) d.
Proof.
  intros Ht0. induction 1 as [|t d now op r d' _ IH Hle Hf Hm]; [by apply empty_auth_inv|].
  eapply auth_step_inv; [exact IH| |exact Hf|exact Hm]. unfold unix. by apply Z.div_le_mono.
Qed.
End Transactions.
