(* ===== verification/AuthProgress.v ===== *)
(** * Revocations and pages that no limit refuses

    Without failing statements, a revocation and a page of the feed commit in every state the
    service can reach: what they record validates. *)

From S2P Require Import Prelude GoLib Database Intent AuthStore AuthFlow AuthLaws AuthFeed AuthRuns AuthSteps AuthTransactions.
Open Scope Z_scope.

(** [m], with no failing statement, on [d], answers [r] and leaves [d']. *)
Definition yields {A} (m : DB A) (d : auth_tables) (r : result auth_error A) (d' : auth_tables) : Prop :=
  m (mkSession d []) = (r, mkSession d' []).

Lemma yields_outcome {A} (m : DB A) d r d' : yields m d r d' -> outcome m d r d'.
Proof. intros Hm. by exists [], []. Qed.
Lemma yields_ret {A} (a : A) d : yields (mret a) d (Ok a) d.
Proof. done. Qed.
Lemma yields_throw {A} e d : yields (throw (A := A) e) d (Err e) d.
Proof. done. Qed.
Lemma yields_bind {A B} (m : DB A) (k : A -> DB B) d a d1 r d' :
  yields m d (Ok a) d1 -> yields (k a) d1 r d' -> yields (mbind k m) d r d'.
Proof. unfold yields, mbind, sql_bind. by intros ->. Qed.
Lemma yields_try {A} (m : DB A) d r d' : yields m d r d' -> yields (try m) d (Ok r) d'.
Proof. unfold yields, try. by intros ->. Qed.
Lemma yields_stmt {A} (q : auth_tables -> result auth_error A * auth_tables) d r d' :
  q d = (r, d') -> yields (stmt q) d r d'.
Proof. unfold yields, stmt, Database.stmt. cbn. by intros ->. Qed.
Lemma yields_query {A} (q : auth_tables -> A) d : yields (query q) d (Ok (q d)) d.
Proof. by apply yields_stmt. Qed.
Lemma yields_tx {A} (m : DB A) d a d' : yields m d (Ok a) d' -> yields (run_in_tx m) d (Ok a) d'.
Proof. unfold yields, Database.run_in_tx. by intros ->. Qed.

(** Run the next statement. *)
Ltac yield_query := eapply yields_bind; [apply yields_query|].
Ltac yield_stmt := eapply yields_bind; [apply yields_stmt; reflexivity|].

Section Progress.
Context `{IntentCrypto}.
Context (proto_Size : event_row -> list RevokedToken -> Z) (Hfits : fits proto_Size).

Lemma check_yields e l d : validateRevocationEvent proto_Size e l = None -> yields (check_event proto_Size e l) d (Ok tt) d.
Proof. unfold check_event. by intros ->. Qed.

Lemma keeper_exists a d k e :
  revocation_events d !! k = Some e -> account_wide a k e = true -> exists kv, keeper a d = Some kv.
Proof.
  intros Hk Ha. unfold keeper. pose proof (merge_sort_Permutation by_cutoff (select_where (account_wide a) (revocation_events d))) as Hp.
  assert ((k, e) ∈ merge_sort by_cutoff (select_where (account_wide a) (revocation_events d))) as Hin.
  { rewrite Hp. by apply elem_of_select_where. }
  destruct (merge_sort _ _) as [|kv l]; [by apply elem_of_nil in Hin|]. by exists kv.
Qed.

Lemma compact_yields a d n k e :
  feed_wf d -> listed_ok d -> rows_ok n d -> revocation_events d !! k = Some e -> account_wide a k e = true ->
  exists d', yields (compactAccountRevocations proto_Size a) d (Ok tt) d'.
Proof.
  intros Hwf Hl Hrows Hk Ha. destruct (keeper_exists _ _ _ _ Hk Ha) as [[seq keep] Hkeep].
  eexists. unfold compactAccountRevocations. yield_query. fold (keeper a d). rewrite Hkeep.
  yield_stmt. yield_query. eapply yields_bind; [by eapply check_yields, merged_valid|]. by apply yields_stmt.
Qed.

Lemma append_yields e l d n :
  feed_wf d -> listed_ok (add_event e l d) -> rows_ok n d -> validateRevocationEvent proto_Size e l = None ->
  exists seq d', yields (append proto_Size e l) d (Ok seq) d'.
Proof.
  intros Hwf Hl Hrows Hv. pose proof (validate_valid _ _ _ Hv) as Hvalid. pose proof (add_event_wf _ _ _ Hwf Hvalid) as Hwf1.
  assert (exists d', yields (if String.eqb (ev_FamilyID e) "" then compactAccountRevocations proto_Size (ev_AccountID e) else mret tt)
    (add_event e l d) (Ok tt) d') as [d' Hd'].
  { destruct (String.eqb (ev_FamilyID e) "") eqn:Hf; [|by eexists].
    apply (compact_yields _ _ n (event_seq d + 1) e Hwf1 Hl).
    - destruct Hrows as []. by split.
    - cbn. apply lookup_insert_eq.
    - unfold account_wide. by rewrite String.eqb_refl. }
  exists (event_seq d + 1), d'. unfold append. eapply yields_bind; [by apply check_yields|]. yield_stmt.
  eapply (yields_bind _ _ _ tt (add_event e l d)).
  { case_bool_decide as Hn; [subst l; by destruct d|]. by apply yields_stmt. }
  eapply yields_bind; [exact Hd'|]. apply yields_ret.
Qed.

(** ** The revocations *)

Lemma revoke_yields column value now ce d :
  yields (revoke column value now ce) d (Ok (revoked_list column value now ce d))
    (d <| refresh_sessions ::= revoked_rows column value |>).
Proof. unfold revoke. yield_query. unfold exec_sessions. yield_stmt. apply yields_ret. Qed.

(** What a revocation lists, in a reachable state. *)
Lemma revoked_tokens_valid column value now ce n d :
  rows_ok n d -> Forall (fun x => TokenID x <> "" /\ now < RetainUntil x) (revoked_list column value now ce d) /\
    Forall (fun x => blen (TokenID x) <= maxAccessTokenIDBytes) (revoked_list column value now ce d).
Proof.
  intros Hrows. split; apply Forall_forall; intros x Hx; [|by eapply revoked_list_source].
  apply elem_of_revoked_list in Hx as (h & s & Hs & Hr & Hx).
  destruct (ri_row _ _ Hrows _ _ Hs) as ((_ & H1 & H2 & _) & _). unfold revocable in Hr.
  apply andb_true_iff in Hr as [[_ Hlt]%andb_true_iff _]. apply Z.ltb_lt in Hlt.
  unfold access_tokens in Hx. rewrite elem_of_cons, list_elem_of_singleton in Hx. by destruct Hx as [->| ->].
Qed.
Lemma flat_access_ids (l : list (string * RefreshSession)) :
  map TokenID (flat_map (fun kv => access_tokens kv.2) l) = flat_map (fun kv => ids_of kv.2) l.
Proof. induction l as [|x l IH]; cbn; [done|]. by rewrite IH. Qed.
Lemma revoked_nodup column value now ce n d :
  rows_ok n d -> NoDup (map TokenID (revoked_list column value now ce d)).
Proof.
  intros Hrows. unfold revoked_list. rewrite flat_access_ids. set (l := merge_sort _ _).
  assert (NoDup l /\ forall h s, (h, s) ∈ l -> refresh_sessions d !! h = Some s) as [Hnd Hl].
  { unfold l. split; [rewrite (merge_sort_Permutation by_created); apply NoDup_filter, NoDup_map_to_list|].
    intros h s. rewrite (merge_sort_Permutation by_created). by intros [? _]%elem_of_select_where. }
  clearbody l. induction l as [|[h s] l IH]; cbn; [constructor|]. apply NoDup_cons in Hnd as [Hin Hnd].
  assert (forall id, id ∈ ids_of s -> id ∉ flat_map (fun kv => ids_of kv.2) l) as Hnew.
  { intros id Hid Hin'. apply list_elem_of_In, in_flat_map in Hin' as ([h' s'] & Hin' & Hid').
    apply list_elem_of_In in Hin', Hid'. assert (h = h') as <-.
    { eapply (ri_ids _ _ Hrows); [apply Hl; left|apply Hl; by right|exact Hid|exact Hid']. }
    assert (s' = s) as ->; [|done]. pose proof (Hl h s ltac:(left)) as H1. pose proof (Hl h s' ltac:(by right)) as H2. congruence. }
  apply NoDup_cons. split; [|apply NoDup_cons; split].
  - rewrite elem_of_cons. intros [Heq|Hin']; [|by destruct (Hnew (CPAccessTokenID s)); [left|]].
    by eapply (ri_pair _ _ Hrows h s); [apply Hl; left|].
  - intros Hin'. by destruct (Hnew (NodeAccessTokenID s)); [right; left|].
  - apply IH; [done|]. intros. apply Hl. by right.
Qed.

Lemma revoke_family_yields a fam now d :
  auth_inv (unix now) d ->
  (exists h s, refresh_sessions d !! h = Some s /\ AccountID s = a /\ FamilyID s = fam) ->
  exists d', yields (revoke_family proto_Size a fam now) d (Ok tt) d'.
Proof.
  intros Hinv (h & s & Hs & <- & <-). set (fam := FamilyID s). pose proof (ai_rows _ _ Hinv) as Hrows.
  destruct (ri_row _ _ Hrows _ _ Hs) as (_ & [Ha Hba] & [Hf Hbf] & _). fold fam in Hf, Hbf.
  unfold revoke_family, appendFamilyRevocation. set (l := revoked_list FamilyID fam (unix now) false d).
  set (d1 := d <| refresh_sessions ::= revoked_rows FamilyID fam |>).
  destruct (decide (l = [])) as [Hl|Hl].
  { exists d1. eapply yields_bind; [apply revoke_yields|]. fold l. by rewrite bool_decide_eq_true_2. }
  destruct (revoked_tokens_valid FamilyID fam (unix now) false _ _ Hrows) as [Hv1 Hv2].
  destruct (append_yields (family_event (AccountID s) fam now) l d1 (unix now)) as (seq & d' & Hap).
  - by apply feed_wf_sessions, Hinv.
  - apply listed_add_event; [by apply feed_wf_sessions, Hinv| |done|done|cbn; by intros ?%Hf|].
    { eapply listed_rows; [apply (ai_listed _ _ Hinv)|apply revoked_rows_le|done..]. }
    intros x Hx. split; [by eapply revoked_list_source|]. cbn. by intros ?%Hf.
  - by apply rows_revoke.
  - apply validate_ok; try done; [|by right|by apply family_list_bound|by eapply revoked_nodup].
    unfold event_ok. cbn. split_and!; [done|apply Hinv|by intros ?%Hf|done].
  - exists d'. eapply yields_bind; [apply revoke_yields|]. fold l. rewrite bool_decide_eq_false_2 by done.
    eapply yields_bind; [exact Hap|]. apply yields_ret.
Qed.

Lemma revoke_account_yields a now d :
  auth_inv (unix now) d -> (exists h s, refresh_sessions d !! h = Some s /\ AccountID s = a) ->
  exists d', yields (logoutEverywhere proto_Size a now) d (Ok tt) d'.
Proof.
  intros Hinv (h & s & Hs & <-). set (a := AccountID s). pose proof (ai_rows _ _ Hinv) as Hrows.
  destruct (ri_row _ _ Hrows _ _ Hs) as (_ & [Ha Hba] & _). fold a in Ha, Hba.
  set (l := revoked_list AccountID a (unix now) true d). set (d1 := d <| refresh_sessions ::= revoked_rows AccountID a |>).
  destruct (revoked_tokens_valid AccountID a (unix now) true _ _ Hrows) as [Hv1 Hv2].
  destruct (append_yields (account_event a now) l d1 (unix now)) as (seq & d' & Hap).
  - by apply feed_wf_sessions, Hinv.
  - by apply account_listed.
  - by apply rows_revoke.
  - apply validate_ok; try done; [|by left|by apply account_list_bound|by eapply revoked_nodup].
    unfold event_ok. cbn. split_and!; [done|apply Hinv|intros _; apply Hinv|done].
  - exists d'. unfold logoutEverywhere, appendAccountRevocation. apply yields_tx.
    eapply yields_bind; [apply revoke_yields|]. eapply yields_bind; [exact Hap|]. apply yields_ret.
Qed.

(** ** Pages *)

(** An account-wide event of the account, still there after another account's compaction. *)
Definition has_wide (d : auth_tables) (a : string) : Prop :=
  exists k e, revocation_events d !! k = Some e /\ account_wide a k e = true.
Lemma compact_wide a d d' b :
  outcome (compactAccountRevocations proto_Size a) d (Ok tt) d' -> has_wide d b -> has_wide d' b.
Proof.
  intros (seq & keep & d1 & Hk & -> & _ & ->)%compact_outcome (k & e & He & Hb).
  destruct (keeper_spec _ _ _ _ Hk) as (Hkeep & Hwide & _).
  destruct (not_keeper a seq k e) eqn:Hn.
  - exists seq, keep. unfold not_keeper, account_wide in *. brefl. destruct Hn as [[Ha _] _], Hb as [Hb1 Hb2], Hwide as [Hw1 Hw2].
    assert (a = b) as <- by congruence. split; [|by rewrite Hw1, Hw2].
    apply lookup_delete_events_event. split; [exact Hkeep|]. unfold not_keeper. by rewrite Z.eqb_refl, andb_false_r.
  - exists k, e. split; [|done]. apply lookup_delete_events_event. split; [exact He|done].
Qed.

Lemma compact_all_yields l d n :
  feed_wf d -> listed_ok d -> rows_ok n d -> (forall a, a ∈ l -> has_wide d a) ->
  exists d', yields (compact_all proto_Size l) d (Ok tt) d'.
Proof.
  revert d. induction l as [|a l IH]; intros d Hwf Hl Hrows Hw; [by exists d|].
  destruct (Hw a ltac:(left)) as (k & e & Hk & Ha). destruct (compact_yields _ _ _ _ _ Hwf Hl Hrows Hk Ha) as [d1 Hd1].
  pose proof (yields_outcome _ _ _ _ Hd1) as Ho. destruct (compact_feed _ _ _ _ Ho Hwf) as (W & _ & _ & S & _).
  destruct (IH d1) as [d' Hd']; [done|by eapply listed_compact| | |].
  - destruct Hrows as []. split; unfold family_generations, second_generations in *; rewrite ?S; done.
  - intros b Hb. eapply compact_wide; [exact Ho|]. apply Hw. by right.
  - exists d'. cbn. by eapply yields_bind.
Qed.

Lemma read_events_yields l d : yields (read_events l) d (Ok (map (event_of d) l)) d.
Proof.
  induction l as [|[k e] l IH]; [done|]. cbn [read_events]. yield_query. eapply yields_bind; [exact IH|]. done.
Qed.

Lemma page_yields seq limit now d :
  auth_inv now d -> 0 <= seq -> 0 < limit -> exists r d', yields (PageAfter proto_Size seq limit now) d (Ok r) d'.
Proof.
  intros Hinv Hseq Hlimit. pose proof (ai_now _ _ Hinv). set (d1 := prune_tokens now d).
  set (d2 := delete_events (empty_family d1) d1).
  assert (feed_wf d2) as Hwf by (apply delete_events_wf, prune_tokens_wf, Hinv).
  assert (listed_ok d2) as Hl by (apply listed_delete, listed_prune, Hinv).
  assert (rows_ok now d2) as Hrows by (destruct Hinv as [_ _ [] _ _ _ _]; by split).
  set (accounts := elements (list_to_set (C := gset string) (map (fun kv => ev_AccountID kv.2)
      (select_where (fun _ e => String.eqb (ev_FamilyID e) "") (revocation_events d2))))).
  destruct (compact_all_yields accounts d2 now) as [d3 Hd3]; [done..| |].
  { intros a Ha. apply elem_of_elements, elem_of_list_to_set, list_elem_of_fmap in Ha as ([k e] & -> & He).
    apply elem_of_select_where in He as [He Hf]. exists k, e. split; [done|]. unfold account_wide. cbn. by rewrite Hf, String.eqb_refl. }
  eexists _, d3. unfold PageAfter. destruct (_ || _) eqn:Hb; [brefl; lia|]. apply yields_tx. unfold pageAfter.
  yield_stmt. yield_stmt. yield_query. eapply yields_bind; [exact Hd3|]. yield_query.
  eapply yields_bind; [apply read_events_yields|]. apply yields_ret.
Qed.
End Progress.

(** * The device codes of the authorization service

    Which steps touch the grants, and that a redeemed code stays redeemed. *)

Section Device.
Context `{IntentCrypto}.
Context (proto_Size : event_row -> list RevokedToken -> Z).
Context (keyID : string) (Sign : SessionBody -> option string).

(** ** Steps that leave the grants alone *)

Lemma append_grants e l d seq d' :
  outcome (append proto_Size e l) d (Ok seq) d' -> device_grants d' = device_grants d.
Proof.
  intros (_ & _ & Hm)%append_outcome. destruct (String.eqb (ev_FamilyID e) ""); [|by subst].
  by apply compact_outcome in Hm as (seq' & keep & d1 & _ & -> & _ & ->).
Qed.
Lemma revoke_family_grants a fam now d d' :
  outcome (revoke_family proto_Size a fam now) d (Ok tt) d' -> device_grants d' = device_grants d.
Proof. by intros [[_ ->]|(_ & seq & ->%append_grants)]%revoke_family_outcome. Qed.
Lemma family_grants a fam now d r d' :
  outcome (run_in_tx (revoke_family proto_Size a fam now)) d r d' -> device_grants d' = device_grants d.
Proof. by intros [([] & _ & Hm%revoke_family_grants)|(? & _ & ->)]%outcome_tx. Qed.
Lemma account_grants a now d r d' :
  outcome (logoutEverywhere proto_Size a now) d r d' -> device_grants d' = device_grants d.
Proof. by intros [([] & _ & (seq & ->%append_grants)%revoke_account_outcome)|(? & _ & ->)]%outcome_tx. Qed.
Lemma open_family_grants top a u kind spki now f d r d' :
  outcome (open_family keyID Sign top a u kind spki now f) d (Ok r) d' ->
  device_grants d' = device_grants d /\ users d' = users d /\
  exists s, refresh_sessions d' = <[sha256Hex r.2 := s]> (refresh_sessions d) /\ r.2 = f_refresh f /\
    AccountID s = a /\ FamilyID s = f_family f /\ SessionPubkeySPKI s = spki /\ ClientKind s = kind /\
    Revoked s = false /\ SupersededBy s = None.
Proof.
  unfold open_family. intros Hm. inv_bind Hm as (pair & d1 & [Hmint ->]%lift_outcome & Hm).
  inv_bind Hm as ([] & d2 & Hins & Hm). inv_ret Hm. set (s := session_row _ _ _ _ _ _ _) in *.
  assert (outcome (insert (sha256Hex (f_refresh f)) s) d (Ok tt) d2) as Hins'.
  { destruct top; [|exact Hins]. by apply outcome_tx in Hins as [(x & [= <-] & Hi)|(? & [=] & _)]. }
  apply insert_outcome in Hins' as (_ & _ & _ & _ & _ & ->). split_and!; [done..|]. by exists s.
Qed.
Lemma login_grants a u kind spki now f d r d' :
  outcome (ignore (open_family keyID Sign true a u kind spki now f)) d r d' -> device_grants d' = device_grants d.
Proof.
  intros [[e|x] Hm]%ignore_outcome; [by apply open_family_error in Hm as ->|]. by apply open_family_grants in Hm as [-> _].
Qed.
Lemma refresh_grants raw proof now f d r d' :
  outcome (ignore (run_in_tx (refresh_tx proto_Size keyID Sign raw proof now f))) d r d' ->
  device_grants d' = device_grants d.
Proof.
  intros [r' [(x & -> & Hm%refresh_outcome)|(e & -> & ->)]%outcome_tx]%ignore_outcome; [|done].
  destruct Hm as [|row by_ d' _ _ _ _ Hm|row u pair d' cache s d1 _ _ _ _ _ Hins]; [done|by eapply revoke_family_grants|].
  by apply insert_outcome in Hins as (_ & _ & _ & _ & _ & ->).
Qed.
Lemma page_grants seq limit now d r d' :
  outcome (ignore (PageAfter proto_Size seq limit now)) d r d' -> feed_wf d -> device_grants d' = device_grants d.
Proof.
  intros [[e|[evs more]] Hm]%ignore_outcome Hwf; [by apply PageAfter_error in Hm as ->|].
  by apply page_feed in Hm as (_ & _ & _ & _ & _ & ->).
Qed.

(** ** Steps on the grants *)

Lemma grant_Create_lookup k g d r d' h :
  outcome (grant_Create k g) d r d' ->
  device_grants d' !! h = device_grants d !! h \/ device_grants d !! h = None.
Proof.
  intros [(msg & -> & ->)|Hq]%outcome_stmt; [by left|]. case_bool_decide as Hk; [simplify_eq; by left|].
  destruct (0 <? _); [simplify_eq; by left|]. destruct (negb _); simplify_eq; [by left|]. cbn.
  destruct (decide (k = h)) as [->|Hne]; [right; by apply eq_None_not_Some|left; by rewrite lookup_insert_ne].
Qed.
Lemma BumpAttempt_status k d r d' h g :
  outcome (BumpAttempt k) d r d' -> device_grants d !! h = Some g ->
  exists g', device_grants d' !! h = Some g' /\ Status g' = Status g.
Proof.
  intros Hm Hg. assert (exists r' d1, outcome (update_grant k (fun _ => true) (fun g => g <| AttemptCount ::= Z.succ |>) ErrNotFound) d r' d1 /\ d1 = d') as (r' & d1 & Hu & <-).
  { unfold BumpAttempt in Hm. apply outcome_bind in Hm as [(e & _ & Hm)|(x & d1 & Hm & [_ ->]%outcome_ret)]; eauto. }
  destruct r' as [e|x].
  - apply outcome_stmt in Hu as [(msg & _ & ->)|Hq]; [by exists g|]. destruct (device_grants d !! k); [done|].
    injection Hq as _ <-. by exists g.
  - apply update_grant_outcome in Hu as [_ Hx]. destruct (Hx x eq_refl) as (old & Ho & _ & _ & ->).
    destruct (decide (k = h)) as [->|Hne]; [|exists g; by rewrite lookup_insert_ne].
    rewrite lookup_insert_eq. eexists. split; [done|]. cbn. congruence.
Qed.
Lemma redeem_grants k now f d r d' :
  outcome (redeem_tx keyID Sign k now f) d (Ok r) d' ->
  exists g, device_grants d !! k = Some g /\ Status g = GrantApproved /\
    device_grants d' = <[k := g <| Status := GrantRedeemed |>]> (device_grants d) /\
    exists s, refresh_sessions d' = <[sha256Hex r.2 := s]> (refresh_sessions d) /\ r.2 = f_refresh f /\
      AccountID s = dg_AccountID g /\ FamilyID s = f_family f /\ SessionPubkeySPKI s = dg_SessionPubkeySPKI g /\
      ClientKind s = "cli" /\ Revoked s = false /\ SupersededBy s = None.
Proof.
  intros (g & u & d1 & Hg & Hst & _ & Hon & Hd1 & Hm)%redeem_outcome. exists g. split_and!; [done..| |].
  - apply open_family_grants in Hm as [-> _]. done.
  - apply open_family_grants in Hm as (_ & _ & s & -> & ? & ? & ? & ? & ? & ? & ?). exists s.
    rewrite Hon. split_and!; done.
Qed.

(** ** Device codes *)

Definition redeemed_at (h : string) (d : auth_tables) : Prop :=
  exists g, device_grants d !! h = Some g /\ Status g = GrantRedeemed.

Lemma redeemed_update h (p : string -> DeviceGrant -> bool) (g : DeviceGrant -> DeviceGrant) d :
  redeemed_at h d -> (forall k x, p k x = true -> Status x = GrantRedeemed -> Status (g x) = GrantRedeemed) ->
  exists x, update_where p g (device_grants d) !! h = Some x /\ Status x = GrantRedeemed.
Proof.
  intros (x & Hx & Hst) Hg. eexists. rewrite lookup_update_where, Hx. split; [done|].
  cbn. destruct (p h x) eqn:Hp; [by eapply Hg|done].
Qed.

(** No step takes it back. *)
Lemma redeemed_stays h op now d r d' :
  feed_wf d -> redeemed_at h d -> outcome (auth_prog proto_Size keyID Sign op now) d r d' -> redeemed_at h d'.
Proof.
  intros Hwf Hr Hm. assert (device_grants d' = device_grants d -> redeemed_at h d') as Hsame.
  { intros Heq. unfold redeemed_at. by rewrite Heq. }
  destruct op as [a u|a u kind spki f|raw proof f|a fam|a|h' g|h'|code a st|h'|h' f|seq limit]; cbn [auth_prog] in Hm.
  - apply Hsame. by apply user_Create_outcome in Hm as [->| ->].
  - apply Hsame. by eapply login_grants.
  - apply Hsame. by eapply refresh_grants.
  - apply Hsame. by eapply family_grants.
  - apply Hsame. by eapply account_grants.
  - destruct (grant_Create_lookup _ _ _ _ _ h Hm) as [Hl|Hnone]; [|destruct Hr as (x & Hx & _); congruence].
    unfold redeemed_at. by rewrite Hl.
  - apply ignore_outcome in Hm as [r' Hm]. destruct Hr as (x & Hx & Hst).
    destruct (BumpAttempt_status _ _ _ _ _ _ Hm Hx) as (g' & Hg' & Hst'). exists g'. split; [done|congruence].
  - apply SetDecision_outcome in Hm as [_ [->|Heq]]; [done|]. unfold redeemed_at. rewrite Heq.
    apply redeemed_update; [done|]. intros k x Hp Hst. by rewrite Hst, andb_false_r in Hp.
  - apply SetLastPolled_outcome in Hm as [_ [->|Heq]]; [done|]. unfold redeemed_at. rewrite Heq. by apply redeemed_update.
  - apply ignore_outcome in Hm as [r' [(x & -> & Hm)|(e & -> & ->)]%outcome_tx]; [|done].
    apply redeem_grants in Hm as (g & _ & _ & Hg & _). unfold redeemed_at. rewrite Hg. destruct (decide (h' = h)) as [->|Hne].
    + eexists. by rewrite lookup_insert_eq.
    + by rewrite lookup_insert_ne.
  - apply Hsame. by eapply page_grants.
Qed.
End Device.
