(* ===== verification/AuthContract.v ===== *)
(** * The handlers are sequences of the transactions of AuthRuns.v *)

From S2P Require Import Prelude GoLib Database Intent AuthStore AuthFlow AuthLaws AuthFeed AuthRuns AuthSteps.
From S2P Require Import AuthTransactions AuthProgress.
Open Scope Z_scope.

Section Handlers.
Context `{IntentCrypto}.
Context (proto_Size : event_row -> list RevokedToken -> Z).
Context (keyID : string) (Sign : SessionBody -> option string) (MaxFamilies : Z).

Abbreviation steps := (auth_runs proto_Size keyID Sign).

Lemma steps_trans t0 d0 t1 d1 t2 d2 : steps t0 d0 t1 d1 -> steps t1 d1 t2 d2 -> steps t0 d0 t2 d2.
Proof. intros H1. induction 1; [done|]. by econstructor. Qed.
Lemma one_step op now d r d' :
  op_ok op d -> outcome (auth_prog proto_Size keyID Sign op now) d r d' -> steps now d now d'.
Proof. intros Hok Hm. by eapply auth_stepped; [apply auth_here| |exact Hok|exact Hm]. Qed.

Lemma ignored {A} (m : DB A) d r d' : outcome m d r d' -> exists r', outcome (ignore m) d r' d'.
Proof.
  intros (fs & fs' & Hm). exists (match r with Ok _ => Ok tt | Err e => Err e end), fs, fs'.
  unfold ignore, mbind, sql_bind. rewrite Hm. by destruct r.
Qed.
Lemma query_outcome_any {A} (q : auth_tables -> A) d r d' : outcome (query q) d r d' -> d' = d.
Proof. by intros [-> _]%outcome_query. Qed.

(** A step whose program is [ignore m]. *)
Lemma step_of {A} op (m : DB A) now d r d' :
  auth_prog proto_Size keyID Sign op now = ignore m -> op_ok op d -> outcome m d r d' -> steps now d now d'.
Proof. intros Heq Hok [r' Hm]%ignored. rewrite <- Heq in Hm. by eapply one_step. Qed.

Lemma run_in_tx_refresh rawToken proof now f d r d' :
  ids_fresh f d -> outcome (handleRefresh proto_Size keyID Sign rawToken proof now f) d r d' -> steps now d now d'.
Proof.
  unfold handleRefresh. intros Hf [(e & _ & Hm)|(a & d1 & Hm & Hr)]%outcome_bind.
  - by eapply (step_of (Op_refresh rawToken proof f)).
  - assert (d' = d1) as -> by (destruct a; [by apply outcome_ret in Hr as [_ ->]|by apply outcome_throw in Hr as [_ ->]]).
    by eapply (step_of (Op_refresh rawToken proof f)).
Qed.

Lemma logout_steps rawToken everywhere now d r d' :
  outcome (serveLogout proto_Size rawToken everywhere now) d r d' -> steps now d now d'.
Proof.
  unfold serveLogout. intros [(e & _ & [-> _]%Get_outcome)|(row & d1 & [-> Hrow]%Get_outcome & Hm)]%outcome_bind; [apply auth_here|].
  destruct everywhere.
  - eapply (one_step (Op_logout_everywhere (AccountID row))); [|exact Hm]. cbn. by eauto.
  - eapply (one_step (Op_revoke_family (AccountID row) (FamilyID row))); [|exact Hm]. cbn. by eauto.
Qed.

(** Making room does not touch what is fresh. *)
Definition fresh_for (f : fresh) (d : auth_tables) : Prop := ids_fresh f d /\ family_fresh f d.
Lemma fresh_kept a fam now f d r d' :
  feed_wf d -> fresh_for f d -> outcome (run_in_tx (revoke_family proto_Size a fam now)) d r d' -> fresh_for f d'.
Proof.
  intros Hwf Hf [([] & _ & Hm)|(? & _ & ->)]%outcome_tx; [|done].
  assert (refresh_sessions d' = revoked_rows FamilyID fam (refresh_sessions d)) as Hs.
  { apply revoke_family_outcome in Hm as [[_ ->]|(_ & seq & Hm)]; [done|].
    by apply append_feed in Hm as (_ & _ & _ & _ & _ & -> & _); [|apply feed_wf_sessions]. }
  destruct Hf as [[Hne Hids] [Hfam Hfams]]. unfold fresh_for, ids_fresh, family_fresh. rewrite Hs. split; (split; [done|]).
  - intros h s (x & Hx & ->)%lookup_revoked_rows. specialize (Hids _ _ Hx). by destruct (String.eqb (FamilyID x) fam).
  - intros h s (x & Hx & ->)%lookup_revoked_rows. specialize (Hfams _ _ Hx). by destruct (String.eqb (FamilyID x) fam).
Qed.

Lemma OldestFamily_outcome a d fam d' :
  outcome (OldestFamily a) d (Ok fam) d' ->
  d' = d /\ exists h s, refresh_sessions d !! h = Some s /\ AccountID s = a /\ FamilyID s = fam /\ Revoked s = false.
Proof.
  unfold OldestFamily. intros Hm. inv_bind Hm as (o & d1 & [-> ->]%outcome_query_ok & Hm).
  destruct (head _) as [[h s]|] eqn:Hh; [|inv_throw Hm]. inv_ret Hm. split; [done|]. exists h, s.
  assert ((h, s) ∈ merge_sort by_family_age (select_where (live_of_account a) (refresh_sessions d))) as Hin.
  { destruct (merge_sort _ _); [done|]. injection Hh as ->. left. }
  rewrite (merge_sort_Permutation by_family_age) in Hin. apply elem_of_select_where in Hin as [Hs Hl].
  unfold live_of_account in Hl. brefl. destruct Hl as [Ha Hr]. by destruct (Revoked s).
Qed.
Lemma cap_steps a now f d r d' :
  feed_wf d -> fresh_for f d -> outcome (enforceCapOrEvict proto_Size MaxFamilies a now) d r d' ->
  steps now d now d' /\ fresh_for f d'.
Proof.
  unfold enforceCapOrEvict. intros Hwf Hf Hm.
  apply outcome_bind in Hm as [(e & _ & Hq)|(n & d1 & Hq & Hm)]; apply query_outcome_any in Hq as ->; [by split; [apply auth_here|]|].
  destruct (_ <? _); [apply outcome_ret in Hm as [_ ->]; by split; [apply auth_here|]|].
  apply outcome_bind in Hm as [(e & _ & Hq)|(fam & d1 & [-> (h & s & Hs & Ha & Hfam & _)]%OldestFamily_outcome & Hm)].
  - apply outcome_bind in Hq as [(e' & _ & Hq)|(o & d1 & Hq & Hr)]; apply query_outcome_any in Hq as ->; [by split; [apply auth_here|]|].
    destruct o as [[? ?]|]; [apply outcome_ret in Hr as [_ ->]|apply outcome_throw in Hr as [_ ->]]; by split; [apply auth_here|].
  - split; [|by eapply fresh_kept]. eapply (one_step (Op_revoke_family a fam)); [|exact Hm]. cbn. by eauto.
Qed.

Lemma callback_steps a u spki loopback now f d r d' :
  feed_wf d -> fresh_for f d -> outcome (callback_session proto_Size keyID Sign MaxFamilies a u spki loopback now f) d r d' ->
  steps now d now d'.
Proof.
  unfold callback_session. intros Hwf Hf [(e & _ & Hm)|(x & d1 & Hm & Hr)]%outcome_bind.
  - by eapply cap_steps in Hm as [? _].
  - eapply cap_steps in Hm as [Hs Hf1]; [|done|exact Hf]. eapply steps_trans; [exact Hs|].
    by eapply (step_of (Op_login a u _ spki f)); [done| |exact Hr].
Qed.

(** *** Device codes *)

Lemma authorize_steps spki kind code user now d r d' :
  outcome (serveDeviceAuthorize spki kind code user now) d r d' -> steps now d now d'.
Proof.
  unfold serveDeviceAuthorize. intros [(e & _ & (r' & [=] & _)%outcome_try)|(x & d1 & (r' & [= ->] & Hm)%outcome_try & Hr)]%outcome_bind.
  apply outcome_ret in Hr as [_ ->]. by eapply (one_step (Op_grant _ _)).
Qed.
Lemma cookie_session_outcome cookie now d o d' :
  outcome (requireRefreshCookieSession cookie now) d (Ok o) d' ->
  d' = d /\ forall a, o = Some a -> exists s, refresh_sessions d !! sha256Hex cookie = Some s /\ Revoked s = false /\
    unix now < ExpiresAt s /\ AccountID s = a.
Proof.
  unfold requireRefreshCookieSession. intros Hm. inv_bind Hm as (r & d1 & (r' & [= <-] & [-> Hr]%Get_outcome)%outcome_try & Hm).
  inv_ret Hm. split; [done|]. intros a Ha. destruct r as [e|s]; [done|]. destruct (_ || _) eqn:Hb; [done|]. exists s.
  brefl. destruct Hb as [Hrev Hexp]. injection Ha as <-. by destruct (Revoked s).
Qed.
Lemma GetByUserCode_outcome code d r d' :
  outcome (GetByUserCode code) d r d' -> d' = d /\ forall h g, r = Ok (h, g) -> device_grants d !! h = Some g /\ UserCode g = code.
Proof.
  unfold GetByUserCode. intros [(e & -> & ->%query_outcome_any)|(o & d1 & [-> ->]%outcome_query_ok & Hm)]%outcome_bind; [done|].
  destruct (head _) as [[h g]|] eqn:Hh; [|by apply outcome_throw in Hm as [-> ->]]. apply outcome_ret in Hm as [-> ->].
  split; [done|]. intros h' g' [= <- <-].
  destruct (select_where _ _) as [|y l] eqn:Hs; [done|]. injection Hh as ->.
  assert ((h, g) ∈ select_where (fun (_ : string) x => String.eqb (UserCode x) code) (device_grants d)) as [Hg Hc]%elem_of_select_where by (rewrite Hs; left).
  by apply String.eqb_eq in Hc.
Qed.
Lemma verify_steps cookie code now d r d' :
  outcome (serveDeviceVerifyPost cookie code now) d r d' -> steps now d now d'.
Proof.
  unfold serveDeviceVerifyPost. intros [(e & -> & Hm)|(o & d1 & [-> _]%cookie_session_outcome & Hm)]%outcome_bind.
  { unfold requireRefreshCookieSession in Hm. apply outcome_bind in Hm as [(e' & _ & (? & [=] & _)%outcome_try)|(x & d1 & (? & _ & [-> _]%Get_outcome)%outcome_try & [[=] _]%outcome_ret)]. }
  destruct o as [a|]; [|apply outcome_ret in Hm as [_ ->]; apply auth_here].
  apply outcome_bind in Hm as [(e & _ & (? & [=] & _)%outcome_try)|(g & d1 & (? & [= <-] & [-> _]%GetByUserCode_outcome)%outcome_try & Hm)].
  destruct g as [[]|[h g]]; try (apply outcome_ret in Hm as [_ ->]; apply auth_here).
  apply outcome_bind in Hm as [(e & _ & (? & [=] & _)%outcome_try)|(n & d1 & (r' & [= <-] & Hb)%outcome_try & Hm)].
  eapply steps_trans; [by eapply (step_of (Op_attempt h))|]. destruct n as [|n]; [apply outcome_ret in Hm as [_ ->]; apply auth_here|].
  destruct (_ <? _); [apply outcome_ret in Hm as [_ ->]; apply auth_here|]. destruct (_ <=? _); [apply outcome_ret in Hm as [_ ->]; apply auth_here|].
  destruct (negb _); [apply outcome_ret in Hm as [_ ->]; apply auth_here|].
  apply outcome_bind in Hm as [(e & _ & (? & [=] & _)%outcome_try)|(x & d2 & (r' & [= <-] & Hd)%outcome_try & [_ ->]%outcome_ret)].
  by eapply (one_step (Op_decide code a GrantApproved)).
Qed.

Lemma polled_fresh h now f d r d' : fresh_for f d -> outcome (SetLastPolled h now) d r d' -> fresh_for f d' /\ refresh_sessions d' = refresh_sessions d.
Proof.
  intros Hf [Hon _]%SetLastPolled_outcome. assert (refresh_sessions d' = refresh_sessions d) as Hs by (by rewrite Hon).
  split; [|done]. unfold fresh_for, ids_fresh, family_fresh in *. by rewrite Hs.
Qed.
Lemma token_steps code now f d r d' :
  feed_wf d -> fresh_for f d -> outcome (serveDeviceToken proto_Size keyID Sign MaxFamilies code now f) d r d' -> steps now d now d'.
Proof.
  unfold serveDeviceToken. cbn zeta. intros Hwf Hf Hm.
  apply outcome_bind in Hm as [(e & _ & (? & [=] & _)%outcome_try)|(g & d1 & (r' & [= <-] & Hg)%outcome_try & Hm)].
  assert (d1 = d) as ->.
  { apply outcome_bind in Hg as [(? & _ & ->%query_outcome_any)|(o & d2 & [-> ->]%outcome_query_ok & Hr)]; [done|].
    destruct (device_grants d !! _); [by apply outcome_ret in Hr as [_ ->]|by apply outcome_throw in Hr as [_ ->]]. }
  destruct g as [[]|g]; try (apply outcome_ret in Hm as [_ ->]; apply auth_here).
  apply outcome_bind in Hm as [(e & _ & (? & [=] & _)%outcome_try)|(x & d1 & (r' & [= <-] & Hp)%outcome_try & Hm)].
  pose proof (polled_fresh _ _ _ _ _ _ Hf Hp) as [Hf1 _].
  assert (feed_wf d1) as Hwf1 by (apply SetLastPolled_outcome in Hp as [-> _]; by destruct Hwf).
  eapply steps_trans; [by eapply (one_step (Op_polled (sha256Hex code)))|]. clear Hp.
  destruct (_ <=? _); [apply outcome_ret in Hm as [_ ->]; apply auth_here|].
  destruct (Status g); try (apply outcome_ret in Hm as [_ ->]; apply auth_here).
  apply outcome_bind in Hm as [(e & _ & (? & [=] & _)%outcome_try)|(u & d2 & (r' & [= <-] & Hu)%outcome_try & Hm)].
  assert (d2 = d1) as ->.
  { apply outcome_bind in Hu as [(? & _ & ->%query_outcome_any)|(o & d3 & [-> ->]%outcome_query_ok & Hr)]; [done|].
    destruct (users d1 !! _); [by apply outcome_ret in Hr as [_ ->]|by apply outcome_throw in Hr as [_ ->]]. }
  destruct u as [|u]; [apply outcome_ret in Hm as [_ ->]; apply auth_here|].
  apply outcome_bind in Hm as [(e & _ & (? & [=] & _)%outcome_try)|(c & d2 & (r' & [= <-] & Hcap)%outcome_try & Hm)].
  eapply cap_steps in Hcap as [Hs Hf2]; [|exact Hwf1|exact Hf1]. eapply steps_trans; [exact Hs|].
  destruct c as [|c]; [apply outcome_ret in Hm as [_ ->]; apply auth_here|].
  apply outcome_bind in Hm as [(e & _ & (? & [=] & _)%outcome_try)|(x2 & d3 & (r' & [= <-] & Hr)%outcome_try & [_ ->]%outcome_ret)].
  by eapply (step_of (Op_redeem (sha256Hex code) f)).
Qed.
End Handlers.

(** * What the authorization service promises

    Over every interleaving of its transactions (AuthRuns.v): families with one head, refreshes
    that hand it out, reuse that ends the family, device codes that are redeemed once, and a feed
    that publishes what was revoked and never refuses to. *)

Section Contract.
Context `{IntentCrypto}.
Context (proto_Size : event_row -> list RevokedToken -> Z).
Context (keyID : string) (Sign : SessionBody -> option string).

Lemma runs_inv t0 t now d :
  0 < unix t0 -> auth_runs proto_Size keyID Sign t0 empty_auth t d -> t <= now -> auth_inv (unix now) d.
Proof.
  intros Ht0 Hr Hle. eapply inv_later; [by eapply auth_runs_inv|]. unfold unix. by apply Z.div_le_mono.
Qed.

(** What every refresh that reaches the tokens has checked. *)
Lemma refresh_checks rawToken proof now f d a d' :
  outcome (refresh_tx proto_Size keyID Sign rawToken proof now f) d (Ok a) d' ->
  exists row, refresh_sessions d !! sha256Hex rawToken = Some row /\ Revoked row = false /\
    unix now < FamilyCreatedAt row + seconds familyMaxAge /\ unix now < ExpiresAt row /\
    VerifyPoP (SessionPubkeySPKI row)
      {| RefreshTokenHash := sha256sum (bytes_of rawToken); Timestamp := Timestamp proof;
         Nonce := Nonce proof; PoPSig := PoPSig proof |} now = Ok tt.
Proof.
  unfold refresh_tx. cbn zeta. intros Hm. inv_bind Hm as (r & d1 & (r' & [= <-] & [-> Hrow]%Get_outcome)%outcome_try & Hm).
  destruct r as [e|row]; [destruct e; inv_throw Hm|]. destruct (Revoked row) eqn:Hrev; [inv_throw Hm|].
  destruct (Z.leb_spec (FamilyCreatedAt row + seconds familyMaxAge) (unix now)); [inv_throw Hm|].
  destruct (Z.leb_spec (ExpiresAt row) (unix now)); [inv_throw Hm|].
  inv_bind Hm as (u & d1 & [Hp ->]%lift_outcome & Hm). destruct u. by exists row.
Qed.

Lemma handleRefresh_ok rawToken proof now f d p d' :
  outcome (handleRefresh proto_Size keyID Sign rawToken proof now f) d (Ok p) d' ->
  outcome (refresh_tx proto_Size keyID Sign rawToken proof now f) d (Ok (Refreshed p)) d'.
Proof.
  unfold handleRefresh. intros Hm. inv_bind Hm as (a & d1 & Hm1 & Hm).
  apply outcome_tx in Hm1 as [(a' & [= <-] & Hm1)|(? & [=] & _)]. destruct a; [inv_ret Hm|inv_throw Hm]. done.
Qed.
Lemma handleRefresh_err rawToken proof now f d e d' :
  outcome (handleRefresh proto_Size keyID Sign rawToken proof now f) d (Err e) d' ->
  d' = d \/ (e = ErrFamilyRevoked /\ outcome (refresh_tx proto_Size keyID Sign rawToken proof now f) d (Ok Reuse_revoked) d').
Proof.
  unfold handleRefresh. intros [(e' & _ & Hm)|(a & d1 & Hm1 & Hm)]%outcome_bind.
  - apply outcome_tx in Hm as [(? & [=] & _)|(? & _ & ->)]. by left.
  - apply outcome_tx in Hm1 as [(a' & [= <-] & Hm1)|(? & [=] & _)]. destruct a; [inv_ret Hm|inv_throw Hm]. by right.
Qed.

(** In every reachable state, the rows of a refresh family belong to one account and are
    revoked together, only one of them is not superseded, and at most one, of a live family,
    caches a successor pair: the one whose refresh token is the family's head. *)
Theorem refresh_families_have_one_head t0 t d :
  0 < unix t0 -> auth_runs proto_Size keyID Sign t0 empty_auth t d -> families_ok (refresh_sessions d).
Proof. intros Ht0 Hr. apply (ai_families (unix t)). by eapply runs_inv. Qed.

(** C24: a refresh that succeeds was proved by the family's session key, in time, on a live family;
    the refresh token it answers is the head of that family, live, whether the pair was just
    minted or replayed from the cache, and the head keeps the account, the session key, the client kind
    and the birth of the session that was shown. *)
Theorem refresh_answers_the_head t0 t d now rawToken proof f p d' :
  0 < unix t0 -> auth_runs proto_Size keyID Sign t0 empty_auth t d -> t <= now -> ids_fresh f d ->
  outcome (handleRefresh proto_Size keyID Sign rawToken proof now f) d (Ok p) d' ->
  exists old head,
    refresh_sessions d !! sha256Hex rawToken = Some old /\ Revoked old = false /\
    unix now < FamilyCreatedAt old + seconds familyMaxAge /\ unix now < ExpiresAt old /\
    VerifyPoP (SessionPubkeySPKI old)
      {| RefreshTokenHash := sha256sum (bytes_of rawToken); Timestamp := Timestamp proof;
         Nonce := Nonce proof; PoPSig := PoPSig proof |} now = Ok tt /\
    refresh_sessions d' !! sha256Hex (RefreshToken p) = Some head /\
    FamilyID head = FamilyID old /\ AccountID head = AccountID old /\ birth head = birth old /\
    Revoked head = false /\ SupersededBy head = None.
Proof.
  intros Ht0 Hr Hle Hfresh Hm%handleRefresh_ok. pose proof (runs_inv _ _ _ _ Ht0 Hr Hle) as Hinv.
  destruct (refresh_checks _ _ _ _ _ _ _ Hm) as (old & Hold & Hrev & Hage & Hexp & Hpop).
  apply refresh_outcome in Hm. pose proof (inv_refresh _ _ _ _ _ _ _ _ _ _ Hinv Hfresh Hm) as Hinv'.
  exists old. inversion Hm as [row by_ p' Hrow _ Hsup Hc _|row by_ d2|row u pair d2 cache s d1 Hrow _ Hsup Hu Hmint Hins]; subst.
  - assert (row = old) as -> by congruence.
    destruct (fi_cache _ (ai_families _ _ Hinv) _ _ _ Hrow Hc) as (_ & _ & _ & head & Hh & Hf & Hs).
    destruct (fi_same _ (ai_families _ _ Hinv) _ _ _ _ Hh Hrow Hf) as [Ha Hrv].
    pose proof (fi_birth _ (ai_families _ _ Hinv) _ _ _ _ Hh Hrow Hf). exists head. split_and!; try done; congruence.
  - assert (row = old) as -> by congruence. apply mint_ok in Hmint as (_ & _ & _ & He).
    apply insert_outcome in Hins as (_ & _ & _ & _ & _ & ->). exists s. split_and!; try done. cbn. apply lookup_insert_eq.
Qed.

(** The rows of a family, after its revocation. *)
Lemma family_revoked a fam now d d' h s :
  feed_wf d -> outcome (revoke_family proto_Size a fam now) d (Ok tt) d' ->
  refresh_sessions d' !! h = Some s -> FamilyID s = fam -> Revoked s = true.
Proof.
  intros Hwf Hm Hs Hf. assert (refresh_sessions d' = revoked_rows FamilyID fam (refresh_sessions d)) as Heq.
  { apply revoke_family_outcome in Hm as [[_ ->]|(_ & seq & Hm)]; [done|].
    by apply append_feed in Hm as (_ & _ & _ & _ & _ & -> & _); [|apply feed_wf_sessions]. }
  rewrite Heq in Hs. apply lookup_revoked_rows in Hs as (x & _ & ->).
  destruct (String.eqb_spec (FamilyID x) fam) as [|Hne]; [done|]. done.
Qed.

(** C25: a refresh token that was already exchanged, shown again once the row that superseded it was
    itself superseded, or after its grace, never gets a pair; when the proof of possession and the
    times are right and no statement fails, the answer is that the family is revoked, and the commit
    revokes every row of the family and publishes every access token of it that has not expired: no
    limit on the feed's events stops it.  The state is one the service reaches when its
    transactions commit in the order of the clock readings they carry. *)
Theorem reused_token_ends_the_family t0 t d now rawToken proof f row by_ :
  fits proto_Size -> 0 < unix t0 -> auth_runs proto_Size keyID Sign t0 empty_auth t d -> t <= now ->
  refresh_sessions d !! sha256Hex rawToken = Some row -> SupersededBy row = Some by_ ->
  (exists next, refresh_sessions d !! by_ = Some next /\ is_Some (SupersededBy next)) \/
    seconds replayGrace < unix now - default 0 (SupersededAt row) ->
  (forall p d', ~ outcome (handleRefresh proto_Size keyID Sign rawToken proof now f) d (Ok p) d') /\
  (Revoked row = false -> unix now < FamilyCreatedAt row + seconds familyMaxAge -> unix now < ExpiresAt row ->
   VerifyPoP (SessionPubkeySPKI row)
      {| RefreshTokenHash := sha256sum (bytes_of rawToken); Timestamp := Timestamp proof;
         Nonce := Nonce proof; PoPSig := PoPSig proof |} now = Ok tt ->
   exists d', yields (handleRefresh proto_Size keyID Sign rawToken proof now f) d (Err ErrFamilyRevoked) d' /\
     forall h s, refresh_sessions d' !! h = Some s -> FamilyID s = FamilyID row ->
       Revoked s = true /\ forall id, id ∈ ids_of s -> unix now < AccessExpiresAt s ->
         covers d' id (AccountID s) (AccessExpiresAt s) (CreatedAt s)).
Proof.
  intros Hfits Ht0 Hr Hle Hrow Hsup Hnext. pose proof (runs_inv _ _ _ _ Ht0 Hr Hle) as Hinv.
  assert (SuccessorCache row = None \/ seconds replayGrace < unix now - default 0 (SupersededAt row)) as Hold.
  { destruct Hnext as [(next & Hn & [x Hx])|?]; [left|by right]. destruct (SuccessorCache row) as [p|] eqn:Hp; [|done].
    destruct (fi_cache _ (ai_families _ _ Hinv) _ _ _ Hrow Hp) as (_ & Hby & _ & s' & Hs' & _ & Hnone). congruence. }
  split.
  - intros p d' Hm%handleRefresh_ok%refresh_outcome.
    inversion Hm as [row' by' p' Hrow' _ Hsup' Hc' Hgrace|row' by' d2|row' u pair d2 cache s d1 Hrow' _ Hsup' Hu Hmint Hins]; subst;
      assert (row' = row) as -> by congruence; [|congruence]. destruct Hold; [congruence|lia].
  - intros Hrev Hage Hexp Hpop. assert (exists h s, refresh_sessions d !! h = Some s /\ AccountID s = AccountID row /\ FamilyID s = FamilyID row) as Hfam
      by (by exists (sha256Hex rawToken), row).
    destruct (revoke_family_yields _ Hfits _ _ _ _ Hinv Hfam) as [d' Hd'].
    pose proof (inv_revoke_family _ _ _ _ _ _ Hinv Hfam (yields_outcome _ _ _ _ Hd')) as Hinv'.
    exists d'. split; [|intros h s Hs Hf].
    + eapply (yields_bind _ _ _ Reuse_revoked d'); [|apply yields_throw]. apply yields_tx. unfold refresh_tx. cbn zeta.
      eapply yields_bind; [apply yields_try; eapply yields_bind; [apply yields_query|rewrite Hrow; apply yields_ret]|].
      cbn beta iota. rewrite Hrev, (proj2 (Z.leb_gt _ _) Hage), (proj2 (Z.leb_gt _ _) Hexp), Hpop, Hsup.
      eapply yields_bind; [apply yields_ret|]. destruct (SuccessorCache row) as [c|].
      * destruct Hold as [[=]|Hold]. rewrite (proj2 (Z.leb_gt _ _) Hold). eapply yields_bind; [exact Hd'|apply yields_ret].
      * eapply yields_bind; [exact Hd'|apply yields_ret].
    + assert (Revoked s = true) as Hrs by (eapply family_revoked; [apply Hinv|by apply yields_outcome|done|done]).
      split; [done|]. intros id Hid Hlt. by eapply ai_revoked.
Qed.

(** An exchange can be retried: when the answer to a refresh is lost and the same token is
    shown within the grace, before anything else happens to the family, the answer is the same
    pair and nothing changes; it is never taken for a reuse. *)
Theorem refresh_retry_is_idempotent t0 t d now rawToken proof f p d' now' proof' f' r d2 :
  0 < unix t0 -> auth_runs proto_Size keyID Sign t0 empty_auth t d -> t <= now -> ids_fresh f d ->
  (forall old, refresh_sessions d !! sha256Hex rawToken = Some old -> SupersededBy old = None) ->
  outcome (handleRefresh proto_Size keyID Sign rawToken proof now f) d (Ok p) d' ->
  unix now' - unix now <= seconds replayGrace ->
  outcome (handleRefresh proto_Size keyID Sign rawToken proof' now' f') d' r d2 ->
  d2 = d' /\ r <> Err ErrFamilyRevoked /\ forall p', r = Ok p' -> p' = p.
Proof.
  intros Ht0 Hr Hle Hfresh Hnew Hm Hgrace Hagain. apply handleRefresh_ok, refresh_outcome in Hm.
  assert (exists row', refresh_sessions d' !! sha256Hex rawToken = Some row' /\ Revoked row' = false /\
    is_Some (SupersededBy row') /\ SuccessorCache row' = Some p /\ default 0 (SupersededAt row') = unix now) as
    (row' & Hrow' & Hrev' & [by_ Hsup'] & Hc' & Hat').
  { inversion Hm as [row by' p' Hrow _ Hsup _ _|row by' d3|row u pair d3 cache s d1 Hrow Hrev Hsup Hu Hmint Hins]; subst.
    - specialize (Hnew _ Hrow). congruence.
    - apply insert_outcome in Hins as (_ & _ & _ & Hn & _ & ->). exists (stamp (sha256Hex (f_refresh f)) cache (unix now) row).
      cbn [refresh_sessions set_field eta_auth_tables]. assert (refresh_sessions d1 !! sha256Hex rawToken =
        Some (stamp (sha256Hex (f_refresh f)) cache (unix now) row)) as Hst.
      { unfold d1. cbn [refresh_sessions set_field eta_auth_tables]. rewrite lookup_superseded, Hrow. cbn [fmap option_fmap option_map].
        by rewrite String.eqb_refl. }
      rewrite lookup_insert_ne by congruence. split_and!; [exact Hst|done|by eexists|done|done]. }
  assert (forall a d3, outcome (refresh_tx proto_Size keyID Sign rawToken proof' now' f') d' (Ok a) d3 -> a = Refreshed p /\ d3 = d') as Hreplay.
  { intros a d3 Hx%refresh_outcome. inversion Hx as [row by' p' Hrow _ Hsup Hc _|row by' d4 Hrow _ Hsup Hor|row u pair d4 cache s d1 Hrow Hrev Hsup]; subst;
      assert (row = row') as -> by congruence; [split; congruence| |congruence].
    destruct Hor; [congruence|lia]. }
  destruct r as [e|p']; [|apply handleRefresh_ok, Hreplay in Hagain as [[= ->] ->]; split_and!; [done|done|congruence]].
  destruct (handleRefresh_err _ _ _ _ _ _ _ Hagain) as [->|[_ [[=] _]%Hreplay]]. split_and!; [done| |done].
  intros [= ->]. unfold handleRefresh in Hagain.
  apply outcome_bind in Hagain as [(e' & [= <-] & Hx)|(a & d3 & Hx & Hy)].
  - apply outcome_tx_err in Hx as [[d1 Hx]|[msg [=]]]. unfold refresh_tx in Hx. cbn zeta in Hx.
    apply outcome_bind in Hx as [(e' & [= <-] & (r' & [=] & _)%outcome_try)|(o & d3 & (r' & [= <-] & [-> Ho]%Get_outcome)%outcome_try & Hx)].
    destruct o as [e|row]; [by destruct Ho as [->|[msg ->]]; inv_throw Hx|].
    assert (row = row') as -> by congruence. rewrite Hrev' in Hx.
    destruct (_ <=? _) in Hx; [inv_throw Hx|]. destruct (_ <=? _) in Hx; [inv_throw Hx|].
    apply outcome_bind in Hx as [(e' & [= <-] & Hx)|(u & d3 & [_ ->]%lift_outcome & Hx)].
    + unfold VerifyPoP in Hx. repeat case_match; cbn in Hx; (inv_throw Hx || inv_ret Hx).
    + rewrite Hsup', Hc', Hat' in Hx. rewrite (proj2 (Z.leb_le _ _) Hgrace) in Hx. inv_ret Hx.
  - apply outcome_tx in Hx as [(? & [= <-] & [-> _]%Hreplay)|(? & [=] & _)]. inv_ret Hy.
Qed.

(** C26: in every state the service reaches by transactions that commit in the order of the clock
    readings they carry, after any compaction and pruning of the feed and with any statements and
    commits failing, every access token of a revoked session that has not expired is denied by an
    event of the feed: the event lists it until its expiry, or a cutoff of its account is later
    than its issue.  The handlers read their clock before the transaction, so the order is an
    assumption: an account-wide logout that commits after a newer one can leave a session revoked
    that no event denies. *)
Theorem revoked_tokens_are_published t0 t d h s id :
  0 < unix t0 -> auth_runs proto_Size keyID Sign t0 empty_auth t d ->
  refresh_sessions d !! h = Some s -> Revoked s = true -> unix t < AccessExpiresAt s -> id ∈ ids_of s ->
  covers d id (AccountID s) (AccessExpiresAt s) (CreatedAt s).
Proof.
  intros Ht0 Hr Hs Hrev Hlt Hid. pose proof (runs_inv _ _ _ _ Ht0 Hr (Z.le_refl t)) as Hinv. by eapply ai_revoked.
Qed.

(** The rows an account-wide logout leaves. *)
Lemma account_revoked a now d d' h s :
  feed_wf d -> outcome (logoutEverywhere proto_Size a now) d (Ok tt) d' ->
  refresh_sessions d' !! h = Some s -> AccountID s = a -> Revoked s = true.
Proof.
  intros Hwf Hm Hs Ha. apply outcome_tx in Hm as [([] & _ & (seq & Hm)%revoke_account_outcome)|(? & [=] & _)].
  apply append_feed in Hm as (_ & _ & _ & _ & _ & Heq & _); [|by apply feed_wf_sessions].
  rewrite Heq in Hs. apply lookup_revoked_rows in Hs as (x & _ & ->).
  destruct (String.eqb_spec (AccountID x) a); done.
Qed.

(** C27: the limits on an event's tokens and size never stop a revocation or the feed.  In every
    state the service reaches by transactions that commit in the order of the clock readings they
    carry, a request whose own reading is not before them, and whose statements do not fail, goes
    through: logging out with any session's refresh token commits and revokes the whole family
    (or, everywhere, the whole account), and any valid request for a page of the feed is answered,
    compactions included.  The order is an assumption: the handlers read their clock before the
    transaction, and with an older reading the account-wide logout can be refused. *)
Theorem logouts_and_pages_always_commit t0 t d now :
  fits proto_Size -> 0 < unix t0 -> auth_runs proto_Size keyID Sign t0 empty_auth t d -> t <= now ->
  (forall rawToken row, refresh_sessions d !! sha256Hex rawToken = Some row ->
     (exists d', yields (serveLogout proto_Size rawToken false now) d (Ok tt) d' /\
        forall h s, refresh_sessions d' !! h = Some s -> FamilyID s = FamilyID row -> Revoked s = true) /\
     (exists d', yields (serveLogout proto_Size rawToken true now) d (Ok tt) d' /\
        forall h s, refresh_sessions d' !! h = Some s -> AccountID s = AccountID row -> Revoked s = true)) /\
  (forall since limit, 0 <= since -> 0 < limit ->
     exists r d', yields (PageAfter proto_Size since limit (unix now)) d (Ok r) d').
Proof.
  intros Hfits Ht0 Hr Hle. pose proof (runs_inv _ _ _ _ Ht0 Hr Hle) as Hinv. split; [|by intros; apply page_yields].
  intros rawToken row Hrow.
  assert (forall (everywhere : bool) d', yields (if everywhere then logoutEverywhere proto_Size (AccountID row) now
      else run_in_tx (revoke_family proto_Size (AccountID row) (FamilyID row) now)) d (Ok tt) d' ->
    yields (serveLogout proto_Size rawToken everywhere now) d (Ok tt) d') as Hserve.
  { intros everywhere d' Hy. unfold serveLogout. eapply yields_bind; [|exact Hy].
    eapply yields_bind; [apply yields_query|]. by rewrite Hrow. }
  split.
  - destruct (revoke_family_yields _ Hfits (AccountID row) (FamilyID row) now d Hinv) as [d' Hd']; [by eauto|].
    exists d'. split; [by apply (Hserve false), yields_tx|]. intros h s Hs Hf.
    eapply family_revoked; [apply Hinv|by apply yields_outcome|done|done].
  - destruct (revoke_account_yields _ Hfits (AccountID row) now d Hinv) as [d' Hd']; [by eauto|].
    exists d'. split; [by apply (Hserve true)|]. intros h s Hs Ha.
    eapply account_revoked; [apply Hinv|by apply yields_outcome|done|done].
Qed.

(** ** Device codes *)

Lemma redeemed_runs h t d t' d' :
  auth_inv (unix t) d -> redeemed_at h d -> auth_runs proto_Size keyID Sign t d t' d' ->
  auth_inv (unix t') d' /\ redeemed_at h d'.
Proof.
  intros Hinv Hr. induction 1 as [|t1 d1 now op r d2 _ [IH1 IH2] Hle Hok Hm]; [done|]. split.
  - eapply auth_step_inv; [exact IH1|unfold unix; by apply Z.div_le_mono|exact Hok|exact Hm].
  - eapply redeemed_stays; [apply IH1|exact IH2|exact Hm].
Qed.

(** C28: a device code pays out once, to whom approved it: the redemption that commits finds the
    grant approved, and opens a new, live family of the approving account, bound to the key the
    device posted; after it, however the service goes on, no redemption of that code commits. *)
Theorem device_code_redeemed_once t0 t1 d1 now h f pair_ raw d2 t3 d3 now' f' r d4 :
  0 < unix t0 -> auth_runs proto_Size keyID Sign t0 empty_auth t1 d1 -> t1 <= now ->
  ids_fresh f d1 -> family_fresh f d1 ->
  outcome (run_in_tx (redeem_tx keyID Sign h now f)) d1 (Ok (pair_, raw)) d2 ->
  auth_runs proto_Size keyID Sign now d2 t3 d3 ->
  outcome (run_in_tx (redeem_tx keyID Sign h now' f')) d3 r d4 ->
  (exists g s, device_grants d1 !! h = Some g /\ Status g = GrantApproved /\
     refresh_sessions d2 !! sha256Hex raw = Some s /\ AccountID s = dg_AccountID g /\
     SessionPubkeySPKI s = dg_SessionPubkeySPKI g /\ Revoked s = false /\
     (forall k x, refresh_sessions d1 !! k = Some x -> FamilyID x <> FamilyID s)) /\
  (exists e, r = Err e) /\ d4 = d3.
Proof.
  intros Ht0 Hr Hle Hids Hfam Hm Hr2 Hm2. pose proof (runs_inv _ _ _ _ Ht0 Hr Hle) as Hinv.
  apply outcome_tx in Hm as [(x & [= <-] & Hm)|(? & [=] & _)].
  pose proof (inv_redeem _ _ _ _ _ _ _ _ Hinv Hids Hfam Hm) as Hinv2.
  apply redeem_grants in Hm as (g & Hg & Hst & Hd2 & s & Hs & Hraw & Ha & Hf & Hk & _ & Hrv & _). split.
  - exists g, s. cbn in Hs. rewrite Hs, lookup_insert_eq. split_and!; try done.
    intros k x Hx. rewrite Hf. by eapply Hfam.
  - destruct (redeemed_runs h now d2 t3 d3) as [_ (g' & Hg' & Hst')]; [done| |done|].
    { eexists. by rewrite Hd2, lookup_insert_eq. }
    apply outcome_tx in Hm2 as [(x & -> & Hm2)|(e & -> & ->)]; [|by eauto].
    apply redeem_grants in Hm2 as (g2 & Hg2 & Hst2 & _). congruence.
Qed.
End Contract.
