(* ===== verification/RevocationFeed.v ===== *)
(** * The revocation feed from the service to a node
    (src/internal/authsvc/revocation.go, src/internal/node/revocation.go)

    The page the service serves, what the node makes of it, and the two running together: the
    service's transactions, requests, answers that are lost, pages applied, the node's store
    closed and opened again, in any order at non-decreasing times, both sides on one clock.  A
    page that arrives is the page that was served: its entries' signatures, JSON and TLS are not
    modelled, only the length of an entry's JSON (a parameter, [None] when signing fails). *)

From S2P Require Import Prelude GoLib Database Intent RevocationStore AuthStore AuthFlow AuthLaws AuthFeed AuthRuns.
From S2P Require Import AuthSteps AuthTransactions AuthProgress.
Open Scope Z_scope.

Definition maxRevocationPageEntries : Z := 256.
(** Of the page the service writes, [{"entries":[],"has_more":false}] empty. *)
Definition maxRevocationPageBytes : Z := 3 * 2 ^ 20.
Definition emptyPageBytes : Z := 31.

(** [signRevocationEntry]'s body, and what [fetchPage] decodes from it. *)
Definition wire (ev : RevocationEvent) : VerifiedUserRevocation :=
  {| Seq := ev_Seq ev; RevocationStore.AccountID := ev_AccountID (ev_row ev);
     RevocationStore.FamilyID := ev_FamilyID (ev_row ev); RevokedAt := ev_RevokedAt (ev_row ev);
     RevokedTokens := map (fun t => {| RevocationStore.TokenID := TokenID t;
                                       RevocationStore.RetainUntil := RetainUntil t |}) (ev_RevokedTokens ev);
     RevocationStore.RevokeTokensIssuedBefore := RevokeTokensIssuedBefore (ev_row ev) |}.

Section Serve.
Context (proto_Size : event_row -> list RevokedToken -> Z).
(** [len(json.Marshal(entry))] of the signed entry *)
Context (entry_len : RevocationEvent -> option Z).

(** The loop of [serveRevocations]: the entries of the page, and whether it was cut short. *)
Fixpoint pack (events : list RevocationEvent) (entries : list RevocationEvent) (pageBytes : Z)
    : result auth_error (list RevocationEvent * bool) :=
  match events with
  | [] => Ok (entries, false)
  | event :: events =>
      match entry_len event with
      | None => Err (ErrInvalid "signing failed")
      | Some n =>
          let separatorBytes := if bool_decide (entries = []) then 0 else 1 in
          if maxRevocationPageBytes <? pageBytes + separatorBytes + n then
            if bool_decide (entries = []) then Err (ErrInvalid "revocation entry exceeds page limit")
            else Ok (entries, true)
          else pack events (entries ++ [event]) (pageBytes + separatorBytes + n)
      end
  end.

(** A valid request's answer. *)
Definition serveRevocations (since limit now : Z) : DB (list RevocationEvent * bool) :=
  if (since <? 0) || (limit <? 1) || (maxRevocationPageEntries <? limit)
  then throw (ErrInvalid "invalid_request")
  else
    page ← PageAfter proto_Size since limit (unix now);
    packed ← lift (pack page.1 [] emptyPageBytes);
    mret (packed.1, page.2 || packed.2).
End Serve.

(** ** The node's checks of a page it received *)

Fixpoint advancing (previous : Z) (entries : list VerifiedUserRevocation) : bool :=
  match entries with
  | [] => true
  | e :: entries => (previous <? Seq e) && advancing (Seq e) entries
  end.

Definition fetchPage (checkpoint : Z) (entries : list VerifiedUserRevocation)
    : result revocation_error (list VerifiedUserRevocation) :=
  if maxRevocationPageEntries <? Z.of_nat (length entries)
  then Err (ErrInvalidPage "revocation page has too many entries")
  else if negb (advancing checkpoint entries)
  then Err (ErrInvalidPage "revocation sequence did not advance")
  else match validateUserRevocationPage entries checkpoint with
       | Err e => Err e
       | Ok _ => Ok entries
       end.

(** ** The service and a node *)

Record feed_state := {
  auth : auth_tables;
  node : UserRevocationStore;
  (** the answer on its way to the node, or being applied: [has_more] with it *)
  answer : option (list VerifiedUserRevocation * bool)
}.

Section System.
Context `{IntentCrypto}.
Context (proto_Size : event_row -> list RevokedToken -> Z).
Context (entry_len : RevocationEvent -> option Z).
Context (keyID : string) (Sign : SessionBody -> option string).

Inductive feed_step (now : Z) : feed_state -> feed_state -> Prop :=
| step_auth op r a a' n p : op_ok op a -> outcome (auth_prog proto_Size keyID Sign op now) a r a' ->
    feed_step now {| auth := a; node := n; answer := p |} {| auth := a'; node := n; answer := p |}
| step_serve a r a' n : outcome (serveRevocations proto_Size entry_len (Checkpoint n) maxRevocationPageEntries now) a r a' ->
    feed_step now {| auth := a; node := n; answer := None |}
      {| auth := a'; node := n;
         answer := match r with Ok (evs, more) => Some (map wire evs, more) | Err _ => None end |}
| step_lost a n p : feed_step now {| auth := a; node := n; answer := p |} {| auth := a; node := n; answer := None |}
| step_apply a n p more verifiedAt sql entries : fetchPage (Checkpoint n) p = Ok entries -> verifiedAt <= unix now ->
    feed_step now {| auth := a; node := n; answer := Some (p, more) |}
      {| auth := a; node := store_step (Ev_apply entries verifiedAt sql) (unix now) n; answer := None |}
| step_close a n p : feed_step now {| auth := a; node := n; answer := p |}
    {| auth := a; node := store_step Ev_close (unix now) n; answer := None |}
| step_open a n p : feed_step now {| auth := a; node := n; answer := p |}
    {| auth := a; node := store_step Ev_reopen (unix now) n; answer := None |}.

(** Both start empty at [t0]. *)
Inductive feed_runs (t0 : Z) : Z -> feed_state -> Prop :=
| feed_start : feed_runs t0 t0
    {| auth := empty_auth; node := OpenUserRevocationStore (unix t0) empty_tables; answer := None |}
| feed_stepped t st now st' : feed_runs t0 t st -> t <= now -> feed_step now st st' -> feed_runs t0 now st'.
End System.

(** ** A poll with no failure (revocation.go, [pollOnce])

    Pages are asked for, applied and, as long as more follow, asked for again; [None] when the
    fuel is out.  The callback's part is in RevocationSystem.v. *)
Section Poll.
Context (proto_Size : event_row -> list RevokedToken -> Z).
Context (entry_len : RevocationEvent -> option Z).

Fixpoint pollOnce (fuel : nat) (now : Z) (a : auth_tables) (n : UserRevocationStore)
    : option (bool * auth_tables * UserRevocationStore) :=
  match fuel with
  | O => None
  | S fuel =>
      match serveRevocations proto_Size entry_len (Checkpoint n) maxRevocationPageEntries now (mkSession a []) with
      | (Err _, s) => Some (false, tables s, n)
      | (Ok (evs, hasMore), s) =>
          match fetchPage (Checkpoint n) (map wire evs) with
          | Err _ => Some (false, tables s, n)
          | Ok entries =>
              if bool_decide (entries = []) && hasMore then Some (false, tables s, n)
              else
                match ApplyPage entries (unix now) Committed n with
                | (Err _, n) => Some (false, tables s, n)
                | (Ok _, n) => if hasMore then pollOnce fuel now (tables s) n else Some (true, tables s, n)
                end
          end
      end
  end.
End Poll.

(** * What a node knows of the revocation feed *)

(** ** Pages in sequence *)

#[local] Instance by_seq_total : Total by_seq.
Proof. intros [k1 e1] [k2 e2]. unfold by_seq. cbn. lia. Qed.
#[local] Instance by_seq_trans : Transitive by_seq.
Proof. intros [k1 e1] [k2 e2] [k3 e3]. unfold by_seq. cbn. lia. Qed.

Lemma elem_of_events_after c d k e :
  (k, e) ∈ events_after c d <-> revocation_events d !! k = Some e /\ c < k.
Proof.
  unfold events_after. rewrite (merge_sort_Permutation by_seq), elem_of_select_where, Z.ltb_lt. done.
Qed.

(** Strictly increasing, above [c]. *)
Fixpoint increasing (c : Z) (l : list (Z * event_row)) : Prop :=
  match l with [] => True | x :: l => c < x.1 /\ increasing x.1 l end.
Lemma increasing_all c l x : increasing c l -> x ∈ l -> c < x.1.
Proof.
  revert c. induction l as [|y l IH]; intros c; [by intros _ ?%elem_of_nil|]. intros [Hc Hl] [->|Hx]%elem_of_cons; [done|].
  specialize (IH _ Hl Hx). lia.
Qed.
Lemma increasing_sorted c l :
  StronglySorted by_seq l -> NoDup (map fst l) -> Forall (fun x => c < x.1) l -> increasing c l.
Proof.
  revert c. induction l as [|x l IH]; intros c; [done|].
  intros [Hs Hx]%StronglySorted_inv [Hn Hnd]%NoDup_cons [Hc Hl]%Forall_cons. split; [done|]. apply IH; [done..|].
  apply Forall_forall. intros y Hy. rewrite Forall_forall in Hx. specialize (Hx y Hy). unfold by_seq in Hx.
  destruct (decide (x.1 = y.1)) as [Heq|]; [|lia]. destruct Hn. rewrite Heq. by apply list_elem_of_fmap_2.
Qed.
Lemma events_after_increasing c d : increasing c (events_after c d).
Proof.
  apply increasing_sorted.
  - apply (StronglySorted_merge_sort by_seq).
  - unfold events_after. rewrite (merge_sort_Permutation by_seq).
    apply NoDup_fmap_2_strong; [|apply NoDup_filter, NoDup_map_to_list].
    intros [k1 e1] [k2 e2] [H1 _]%elem_of_select_where [H2 _]%elem_of_select_where Heq. cbn in Heq. by simplify_eq.
  - apply Forall_forall. intros [k e] Hin. by apply elem_of_events_after in Hin as [_ ?].
Qed.
Lemma increasing_prefix c l1 l2 : increasing c (l1 ++ l2) -> increasing c l1.
Proof. revert c. induction l1 as [|x l1 IH]; intros c; [done|]. cbn. intros [? ?]. split; [done|by apply IH with (c := x.1)]. Qed.

(** The last number of a prefix. *)
Definition last_seq (c : Z) (l : list (Z * event_row)) : Z :=
  match last l with Some x => x.1 | None => c end.
Lemma last_seq_cons c x l : last_seq c (x :: l) = last_seq x.1 l.
Proof. unfold last_seq. destruct l as [|y l]; [done|]. change (last (x :: y :: l)) with (last (y :: l)).
  by destruct (last (y :: l)) eqn:Hl; [|apply last_None in Hl]. Qed.
Lemma last_seq_ge c l : increasing c l -> c <= last_seq c l.
Proof.
  revert c. induction l as [|x l IH]; intros c; [unfold last_seq; cbn; lia|]. rewrite last_seq_cons. intros [? Hl%IH]. lia.
Qed.
(** What is not above the last of a prefix is in it. *)
Lemma prefix_elem c l1 l2 x : increasing c (l1 ++ l2) -> x ∈ l1 ++ l2 -> x.1 <= last_seq c l1 -> x ∈ l1.
Proof.
  revert c. induction l1 as [|y l1 IH]; intros c; cbn [app increasing].
  - intros Hl Hx Hle. pose proof (increasing_all _ _ _ Hl Hx). unfold last_seq in Hle. cbn in Hle. lia.
  - rewrite last_seq_cons. intros [Hc Hl] [->|Hx]%elem_of_cons Hle; [left|right; by eapply IH].
Qed.

(** ** Knowing *)

(** The snapshot [n] or the page [p] revokes the token until [v], the account's tokens before [c]. *)
Definition token_known (n : userRevocationSnapshot) (p : list VerifiedUserRevocation) (tok : string) (v : Z) : Prop :=
  (exists v', tokens n !! tok = Some v' /\ v <= v') \/
  (exists e x, e ∈ p /\ x ∈ RevokedTokens e /\ RevocationStore.TokenID x = tok /\ v <= RevocationStore.RetainUntil x).
Definition cutoff_known (n : userRevocationSnapshot) (p : list VerifiedUserRevocation) (a : string) (c : Z) : Prop :=
  (exists c', accounts n !! a = Some c' /\ c <= c') \/
  (exists e, e ∈ p /\ RevocationStore.AccountID e = a /\ c <= RevocationStore.RevokeTokensIssuedBefore e).

(** Of the feed [d], the events up to [c], at [t]. *)
Record knows (t : Z) (n : userRevocationSnapshot) (p : list VerifiedUserRevocation) (c : Z) (d : auth_tables) : Prop := {
  kn_token k tok v : k <= c -> event_tokens d !! (k, tok) = Some v -> t < v -> token_known n p tok v;
  kn_cutoff k e : k <= c -> revocation_events d !! k = Some e -> ev_FamilyID e = "" ->
    cutoff_known n p (ev_AccountID e) (RevokeTokensIssuedBefore e)
}.

Lemma knows_later t t' n p c d : knows t n p c d -> t <= t' -> knows t' n p c d.
Proof. intros [Ht Hc] Hle. split; [|done]. intros k tok v Hk Hv Hlt. eapply Ht; [done..|lia]. Qed.
Lemma knows_feed t n p c d d' : feed_le d d' -> c <= event_seq d -> knows t n p c d -> knows t n p c d'.
Proof.
  intros (_ & Hev & Htok) Hc [Ht Hcut]. split.
  - intros k tok v Hk Hv Hlt. apply Htok in Hv as (k' & Hk' & Hv); [|lia]. eapply Ht; [|exact Hv|done]. lia.
  - intros k e Hk He. apply Hcut with (k := k); [done|]. apply Hev; [lia|done].
Qed.
Lemma knows_covers t n n' p c d : RevocationStore.covers t n n' -> knows t n p c d -> knows t n' p c d.
Proof.
  intros [Hct Hcc] [Ht Hcut]. split.
  - intros k tok v Hk Hv Hlt. destruct (Ht _ _ _ Hk Hv Hlt) as [(v' & Hv' & Hge)|Hp]; [left|by right].
    destruct (Hct _ _ Hv') as (v2 & ? & ?); [lia|]. exists v2. split; [done|lia].
  - intros k e Hk He Hf. destruct (Hcut _ _ Hk He Hf) as [(c' & Hc' & Hge)|Hp]; [left|by right].
    destruct (Hcc _ _ Hc') as (c2 & ? & ?). exists c2. split; [done|lia].
Qed.
(** The page applied. *)
Lemma knows_apply t n p c d at_ :
  feed_wf d -> knows t n p c d -> at_ <= t -> Forall entry_ok p -> knows t (applyUserRevocationPage n p at_) [] c d.
Proof.
  intros Hwf [Ht Hcut] Hle Hok. pose proof (covers_page p at_ n) as [Hct Hcc]. split.
  - intros k tok v Hk Hv Hlt. left. destruct (Ht _ _ _ Hk Hv Hlt) as [(v' & Hv' & Hge)|(e & x & He & Hx & <- & Hge)].
    + destruct (Hct _ _ Hv') as (v2 & ? & ?); [lia|]. exists v2. split; [done|lia].
    + destruct (page_carried at_ n p e Hok He) as [Hcar _]. destruct (Hcar x Hx) as (v2 & ? & ?); [lia|].
      exists v2. split; [done|lia].
  - intros k e Hk He Hf. left. destruct (Hcut _ _ Hk He Hf) as [(c' & Hc' & Hge)|(x & Hx & <- & Hge)].
    + destruct (Hcc _ _ Hc') as (c2 & ? & ?). exists c2. split; [done|lia].
    + destruct (page_carried at_ n p x Hok Hx) as [_ Hcar]. destruct (fw_event _ Hwf _ _ He) as (_ & _ & Hpos & _).
      specialize (Hpos Hf). destruct Hcar as (c2 & ? & ?); [lia|]. exists c2. split; [done|lia].
Qed.
(** A page read after [c]. *)
Lemma knows_page t n c d l l2 :
  feed_wf d -> knows t n [] c d -> events_after c d = l ++ l2 ->
  knows t n (map wire (map (event_of d) l)) (last_seq c l) d.
Proof.
  intros Hwf [Ht Hcut] Hl. pose proof (events_after_increasing c d) as Hinc. rewrite Hl in Hinc.
  assert (forall k e, revocation_events d !! k = Some e -> c < k -> k <= last_seq c l -> (k, e) ∈ l) as Hin.
  { intros k e He Hck Hk. eapply prefix_elem; [exact Hinc| |done]. rewrite <- Hl. by apply elem_of_events_after. }
  split.
  - intros k tok v Hk Hv Hlt. destruct (Z.le_gt_cases k c) as [Hle|Hgt].
    { destruct (Ht _ _ _ Hle Hv Hlt) as [?|(e & x & He%elem_of_nil & _)]; [by left|done]. }
    destruct (fw_token _ Hwf _ _ _ Hv) as (e & He & _). right.
    exists (wire (event_of d (k, e))), {| RevocationStore.TokenID := tok; RevocationStore.RetainUntil := v |}.
    split; [by apply list_elem_of_fmap_2, list_elem_of_fmap_2, Hin|]. split; [|done].
    cbn. apply list_elem_of_fmap. exists {| TokenID := tok; RetainUntil := v |}. split; [done|]. by apply elem_of_tokens_of.
  - intros k e Hk He Hf. destruct (Z.le_gt_cases k c) as [Hle|Hgt].
    { destruct (Hcut _ _ Hle He Hf) as [?|(x & Hx%elem_of_nil & _)]; [by left|done]. }
    right. exists (wire (event_of d (k, e))). split; [by apply list_elem_of_fmap_2, list_elem_of_fmap_2, Hin|done].
Qed.
(** ... to its end. *)
Lemma knows_all t n p c d : feed_wf d -> knows t n p c d -> (forall k e, revocation_events d !! k = Some e -> k <= c) ->
  knows t n p (event_seq d) d.
Proof.
  intros Hwf [Ht Hcut] Hall. split.
  - intros k tok v _ Hv. destruct (fw_token _ Hwf _ _ _ Hv) as (e & He & _). eapply Ht; [by eapply Hall|exact Hv].
  - intros k e _ He. eapply Hcut; [by eapply Hall|exact He].
Qed.
(** Knowing the whole feed, a lookup denies what the feed denies. *)
Lemma knows_denied t n d now tok acct exp iat :
  feed_wf d -> knows t n [] (event_seq d) d -> AuthFeed.covers d tok acct exp iat -> t <= now < exp ->
  IsRevoked_in n now tok acct iat = true.
Proof.
  intros Hwf [Ht Hcut] (k & e & He & Hcov) Hlt. pose proof (fw_seq _ Hwf _ _ He) as Hk.
  unfold IsRevoked_in. apply orb_true_iff. destruct Hcov as [(v & Hv & Hge & _)|(Hf & <- & Hiat)]; [left|right].
  - destruct (Ht k tok v) as [(v' & -> & ?)|(x & y & Hx%elem_of_nil & _)]; [lia|done|lia| |done]. apply Z.ltb_lt. lia.
  - destruct (Hcut k e) as [(c' & -> & ?)|(x & Hx%elem_of_nil & _)]; [lia|done|done| |done]. apply Z.ltb_lt. lia.
Qed.

(** ** Pages that are served *)

Section Served.
Context `{IntentCrypto}.
Context (proto_Size : event_row -> list RevokedToken -> Z).
Context (entry_len : RevocationEvent -> option Z).

Lemma pack_prefix events entries bytes r cut :
  pack entry_len events entries bytes = Ok (r, cut) ->
  exists l l2, events = l ++ l2 /\ r = entries ++ l /\ (cut = false -> l2 = []) /\ (cut = true -> r <> []).
Proof.
  revert entries bytes. induction events as [|ev events IH]; intros entries bytes; cbn [pack].
  { intros [= <- <-]. exists [], []. by rewrite !app_nil_r. }
  destruct (entry_len ev) as [m|]; [|done]. destruct (_ <? _).
  - case_bool_decide; [done|]. intros [= <- <-]. exists [], (ev :: events). by rewrite !app_nil_r.
  - intros (l & l2 & -> & -> & Hcut & Hne)%IH. exists (ev :: l), l2.
    rewrite <- app_assoc in Hne |- *. done.
Qed.

(** Every family event lists a token, once the emptied ones are deleted. *)
Definition families_full (d : auth_tables) : Prop :=
  forall k e, revocation_events d !! k = Some e -> ev_FamilyID e <> "" -> exists tok v, event_tokens d !! (k, tok) = Some v.
Lemma full_deleted d : families_full (delete_events (empty_family d) d).
Proof.
  intros k e [He Hp]%lookup_delete_events_event Hf. unfold empty_family in Hp. apply String.eqb_neq in Hf. rewrite Hf in Hp. cbn in Hp.
  apply negb_false_iff in Hp. unfold has_tokens in Hp. apply negb_true_iff, bool_decide_eq_false in Hp.
  destruct (select_where _ _) as [|[[k' tok] v] l] eqn:Hs; [done|].
  assert ((k', tok, v) ∈ select_where (fun (k0 : Z * string) (_ : Z) => k0.1 =? k) (event_tokens d)) as Hin by (rewrite Hs; left).
  apply elem_of_select_where in Hin as [Hv Hk]. cbn in Hk. apply Z.eqb_eq in Hk as ->. exists tok, v.
  apply lookup_delete_events_token. split; [done|]. intros e' He'. simplify_eq. unfold empty_family.
  by rewrite (has_tokens_true _ _ _ _ Hv), andb_false_r.
Qed.
Lemma full_compact a d d' :
  outcome (compactAccountRevocations proto_Size a) d (Ok tt) d' -> families_full d -> families_full d'.
Proof.
  intros (seq & keep & d1 & Hk & -> & _ & ->)%compact_outcome Hfull k e [He Hp]%lookup_delete_events_event Hf.
  destruct (Hfull k e He Hf) as (tok & v & Hv).
  destruct (merged_ge seq (select_where (fun k0 _ => match revocation_events d !! k0.1 with
      | Some e0 => account_wide a k0.1 e0 && (RevokeTokensIssuedBefore e0 =? RevokeTokensIssuedBefore keep) | None => false end)
      (event_tokens d)) _ _ _ Hv) as (v' & Hv' & _).
  exists tok, v'. apply lookup_delete_events_token. split; [exact Hv'|]. intros e' He'.
  change (revocation_events d !! k = Some e') in He'. change (revocation_events d !! k = Some e) in He. congruence.
Qed.
Lemma full_compacted d d' : compacted proto_Size d d' -> families_full d -> families_full d'.
Proof. induction 1 as [|d d1 d2 a Hc _ IH]; [done|]. intros Hf. by eapply IH, full_compact. Qed.

(** What an answered request read. *)
Lemma serve_outcome since limit now d evs more d' :
  outcome (serveRevocations proto_Size entry_len since limit now) d (Ok (evs, more)) d' -> feed_wf d ->
  exists l l2, events_after since d' = l ++ l2 /\ evs = map (event_of d') l /\ 0 <= since /\
    Z.of_nat (length l) <= maxRevocationPageEntries /\ (more = false -> l2 = []) /\ (more = true -> l <> []) /\
    families_full d' /\ exists r, outcome (PageAfter proto_Size since limit (unix now)) d (Ok r) d'.
Proof.
  unfold serveRevocations. destruct (_ || _) eqn:Hb; [intros Hm; inv_throw Hm|]. intros Hm Hwf.
  inv_bind Hm as ([page hasMore] & d1 & Hpage & Hm). inv_bind Hm as ([packed cut] & d2 & [Hpack ->]%lift_outcome & Hm).
  inv_ret Hm. cbn [fst snd] in *.
  pose proof Hpage as (Hs & Hl & _ & Hc & Hmore & Hevs)%PageAfter_outcome.
  brefl. destruct Hb as [[_ _] Hlim].
  set (all := events_after since d1) in *.
  assert (exists p q, all = p ++ q /\ page = map (event_of d1) p /\ Z.of_nat (length p) <= limit /\
    (hasMore = false -> q = []) /\ (hasMore = true -> p <> [])) as (p & q & Hall & -> & Hlen & Hq & Hp).
  { destruct hasMore.
    - exists (take (Z.to_nat limit) all), (drop (Z.to_nat limit) all). rewrite take_drop. rewrite take_take, Nat.min_l in Hevs by lia.
      symmetry in Hmore. apply Z.ltb_lt in Hmore. rewrite length_take in Hmore. rewrite length_take. split_and!; try done; [lia|].
      intros _ Hnil. apply (f_equal length) in Hnil. rewrite length_take in Hnil. cbn in Hnil. lia.
    - symmetry in Hmore. apply Z.ltb_ge in Hmore. rewrite length_take in Hmore.
      rewrite take_ge in Hevs by lia. exists all, []. rewrite app_nil_r. split_and!; try done. lia. }
  destruct (pack_prefix _ _ _ _ _ Hpack) as (l & l2 & Hsplit & -> & Hcut & Hne). cbn [app] in *.
  apply map_eq_app in Hsplit as (p1 & p2 & -> & <- & <-). exists p1, (p2 ++ q). rewrite app_assoc.
  rewrite length_app in Hlen. split_and!; [done|done|done|lia| | | |by eauto].
  - intros [Hh Hct]%orb_false_iff. specialize (Hcut Hct). apply map_eq_nil in Hcut as ->. by rewrite (Hq Hh).
  - intros [Hh|Hct]%orb_true_iff.
    + intros ->. destruct cut; [by apply (Hne eq_refl)|]. specialize (Hcut eq_refl). apply map_eq_nil in Hcut as ->. by apply (Hp Hh).
    + intros ->. by apply (Hne Hct).
  - eapply full_compacted; [exact Hc|apply full_deleted].
Qed.
End Served.

(** ** Pages that are accepted *)

Lemma valid_tokens_wire at_ l : forall seen,
  Forall (fun t => TokenID t <> "" /\ at_ < RetainUntil t) l -> NoDup (map TokenID l) ->
  (forall t, t ∈ l -> TokenID t ∉ seen) ->
  valid_tokens at_ seen (map (fun t => {| RevocationStore.TokenID := TokenID t; RevocationStore.RetainUntil := RetainUntil t |}) l) = Ok tt.
Proof.
  induction l as [|t l IH]; intros seen; [done|]. cbn. intros [[Hne Hlt] Hl]%Forall_cons [Hin Hnd]%NoDup_cons Hseen.
  apply String.eqb_neq in Hne. rewrite Hne. destruct (Z.leb_spec (RetainUntil t) at_); [lia|]. cbn.
  rewrite bool_decide_eq_false_2 by (apply Hseen; left). apply IH; [done..|].
  intros t' Ht'. apply not_elem_of_union. split; [|apply Hseen; by right].
  intros Heq%elem_of_singleton. destruct Hin. rewrite <- Heq. by apply list_elem_of_fmap_2.
Qed.

Lemma valid_entry_wire d c k e :
  feed_wf d -> families_full d -> revocation_events d !! k = Some e -> c < k ->
  valid_entry c (wire (event_of d (k, e))) = Ok tt.
Proof.
  intros Hwf Hfull He Hc. destruct (fw_event _ Hwf _ _ He) as (Ha & Hat & Hcut & Hfam).
  unfold valid_entry, wire. cbn [Seq RevocationStore.AccountID RevocationStore.FamilyID RevokedAt RevokedTokens
    RevocationStore.RevokeTokensIssuedBefore event_of ev_Seq ev_row ev_RevokedTokens fst snd].
  apply String.eqb_neq in Ha as ->. destruct (Z.leb_spec k c); [lia|]. destruct (Z.leb_spec (ev_RevokedAt e) 0); [lia|]. cbn [orb].
  rewrite valid_tokens_wire; [| |apply tokens_of_nodup|done].
  - destruct (String.eqb_spec (ev_FamilyID e) "") as [Hf|Hf].
    + specialize (Hcut Hf). destruct (Z.leb_spec (RevokeTokensIssuedBefore e) 0); [lia|done].
    + rewrite (Hfam Hf). cbn. destruct (Hfull _ _ He Hf) as (tok & v & Hv). rewrite bool_decide_eq_false_2; [done|].
      intros Hnil. apply map_eq_nil in Hnil.
      assert ({| TokenID := tok; RetainUntil := v |} ∈ tokens_of d k) as Hin by (by apply elem_of_tokens_of).
      rewrite Hnil in Hin. by apply elem_of_nil in Hin.
  - apply Forall_forall. intros x Hx%elem_of_tokens_of. destruct (fw_token _ Hwf _ _ _ Hx) as (e' & He' & ? & ?). by simplify_eq.
Qed.

Lemma valid_page_wire d l : forall c,
  feed_wf d -> families_full d -> increasing c l -> (forall k e, (k, e) ∈ l -> revocation_events d !! k = Some e) ->
  validateUserRevocationPage (map wire (map (event_of d) l)) c = Ok tt /\
  advancing c (map wire (map (event_of d) l)) = true.
Proof.
  induction l as [|[k e] l IH]; intros c Hwf Hfull; [done|]. intros [Hc Hinc] Hl. cbn [map validateUserRevocationPage advancing].
  cbn in Hc. rewrite valid_entry_wire; [|done|done|apply Hl; left|done].
  cbn [Seq wire event_of ev_Seq fst] in *. destruct (IH k Hwf Hfull Hinc) as [-> Hadv]; [intros; apply Hl; by right|].
  rewrite Hadv, andb_true_r. split; [done|]. by apply Z.ltb_lt.
Qed.

Lemma last_wire c d l :
  match last (map wire (map (event_of d) l)) with Some e => Seq e | None => c end = last_seq c l.
Proof.
  unfold last_seq. destruct (last l) as [x|] eqn:Hl.
  - apply last_Some in Hl as [l' ->]. rewrite !map_app. cbn. by rewrite last_snoc.
  - apply last_None in Hl as ->. done.
Qed.

(** ** The service and the node together *)

Section Together.
Context `{IntentCrypto}.
Context (proto_Size : event_row -> list RevokedToken -> Z).
Context (entry_len : RevocationEvent -> option Z).
Context (keyID : string) (Sign : SessionBody -> option string).

Record sys_inv (t : Z) (st : feed_state) : Prop := {
  sy_auth : auth_inv (unix t) (auth st);
  sy_store : store_inv (unix t) (node st);
  sy_nonneg : 0 <= meta_checkpoint (db (node st));
  sy_checkpoint : Checkpoint (node st) <= event_seq (auth st);
  sy_knows : knows (unix t) (snapshot (node st)) [] (Checkpoint (node st)) (auth st);
  sy_durable : knows (unix t) (loadUserRevocationSnapshot (db (node st))) [] (meta_checkpoint (db (node st))) (auth st);
  sy_answer p more : answer st = Some (p, more) ->
    let c := match last p with Some e => Seq e | None => Checkpoint (node st) end in
    Forall entry_ok p /\ c <= event_seq (auth st) /\ knows (unix t) (snapshot (node st)) p c (auth st)
}.

Lemma sys_later t now st : sys_inv t st -> t <= now -> sys_inv now st.
Proof.
  intros [H1 H2 H0' H3 H4 H5 H6] Hle. assert (unix t <= unix now) by (unfold unix; by apply Z.div_le_mono).
  split; [by eapply inv_later|by eapply store_inv_later|done|done|by eapply knows_later|by eapply knows_later|].
  intros p more Hp. destruct (H6 _ _ Hp) as (? & ? & ?). split_and!; [done..|]. by eapply knows_later.
Qed.

(** The feed moves on. *)
Lemma sys_feed t a a' n p :
  sys_inv t {| auth := a; node := n; answer := p |} -> auth_inv (unix t) a' -> feed_le a a' ->
  sys_inv t {| auth := a'; node := n; answer := p |}.
Proof.
  intros [H1 H2 H0' H3 H4 H5 H6] Ha Hle. pose proof Hle as (Hseq & _). cbn [auth node answer] in *.
  pose proof H2 as (_ & _ & _ & Hmeta). split; cbn [auth node answer]; try done; [lia|by eapply knows_feed| |].
  - eapply knows_feed; [done| |done]. lia.
  - intros q more Hq. destruct (H6 _ _ Hq) as (? & ? & ?). split_and!; [done|lia|by eapply knows_feed].
Qed.
Lemma sys_lost t a n p :
  sys_inv t {| auth := a; node := n; answer := p |} -> sys_inv t {| auth := a; node := n; answer := None |}.
Proof. intros []. by split. Qed.

Lemma serve_error since limit now d e d' :
  outcome (serveRevocations proto_Size entry_len since limit now) d (Err e) d' ->
  d' = d \/ exists r, outcome (PageAfter proto_Size since limit (unix now)) d (Ok r) d'.
Proof.
  unfold serveRevocations. destruct (_ || _); [by intros [_ ->]%outcome_throw; left|].
  intros [(e' & _ & Hm%PageAfter_error)|(page & d1 & Hm & Hr)]%outcome_bind; [by left|]. right.
  exists page. apply outcome_bind in Hr as [(e' & _ & Hr)|(x & d2 & _ & [[=] _]%outcome_ret)].
  destruct (pack _ _ _ _); [by apply outcome_throw in Hr as [_ ->]|by apply outcome_ret in Hr as [_ ->]].
Qed.
Lemma page_inv since limit now d r d' :
  auth_inv (unix now) d -> outcome (PageAfter proto_Size since limit (unix now)) d (Ok r) d' ->
  auth_inv (unix now) d' /\ feed_le d d'.
Proof.
  intros Hinv Hm. destruct r as [evs more].
  destruct (page_feed _ _ _ _ _ _ _ _ Hm (ai_feed _ _ Hinv)) as (G1 & Hle & G3 & G4 & G5 & _). split; [|done].
  apply (inv_frame _ d); try done; [rewrite G5; by destruct Hinv|]. eapply listed_page; [exact Hm|apply Hinv].
Qed.

(** A page is answered. *)
Lemma sys_serve now a n evs more a' :
  sys_inv now {| auth := a; node := n; answer := None |} ->
  outcome (serveRevocations proto_Size entry_len (Checkpoint n) maxRevocationPageEntries now) a (Ok (evs, more)) a' ->
  sys_inv now {| auth := a'; node := n; answer := Some (map wire evs, more) |} /\
  fetchPage (Checkpoint n) (map wire evs) = Ok (map wire evs) /\ (more = true -> evs <> []) /\
  (more = false -> knows (unix now) (snapshot n) (map wire evs) (event_seq a') a').
Proof.
  intros Hsys Hm. pose proof (serve_outcome _ _ _ _ _ _ _ _ _ Hm (ai_feed _ _ (sy_auth _ _ Hsys)))
    as (l & l2 & Hl & -> & Hc & Hlen & Hmore & Hne & Hfull & page & Hpage).
  destruct (page_inv _ _ _ _ _ _ (sy_auth _ _ Hsys) Hpage) as [Hinv' Hle].
  pose proof (sys_feed _ _ _ _ _ Hsys Hinv' Hle) as [H1 H2 H0' H3 H4 H5 _]. cbn [auth node answer] in *.
  pose proof (events_after_increasing (Checkpoint n) a') as Hinc. rewrite Hl in Hinc.
  assert (forall k e, (k, e) ∈ l -> revocation_events a' !! k = Some e) as Hin.
  { intros k e Hk. eapply elem_of_events_after. rewrite Hl. apply elem_of_app. by left. }
  destruct (valid_page_wire a' l (Checkpoint n)) as [Hvalid Hadv]; [apply Hinv'|done|by eapply increasing_prefix|done|].
  assert (last_seq (Checkpoint n) l <= event_seq a') as Hlast.
  { unfold last_seq. destruct (last l) as [[k e]|] eqn:Hx; [|done]. apply last_Some in Hx as [l' ->].
    eapply (fw_seq _ (ai_feed _ _ Hinv')). apply Hin, elem_of_app. right. left. }
  pose proof (knows_page _ _ _ _ _ _ (ai_feed _ _ Hinv') H4 Hl) as Hknows.
  split; [split; cbn [auth node answer]; try done|split_and!].
  - intros p m [= <- <-]. cbn zeta. rewrite last_wire. split_and!; [by eapply valid_page_ok|done|done].
  - unfold fetchPage. rewrite !length_map. destruct (Z.ltb_spec maxRevocationPageEntries (Z.of_nat (length l))); [lia|].
    by rewrite Hadv, Hvalid.
  - intros Ht Hnil. apply map_eq_nil in Hnil. by apply (Hne Ht).
  - intros Hf. specialize (Hmore Hf) as ->. rewrite app_nil_r in Hl. eapply knows_all; [apply Hinv'|exact Hknows|].
    intros k e He. destruct (Z.le_gt_cases k (Checkpoint n)) as [Hle1|Hgt].
    + pose proof (last_seq_ge (Checkpoint n) l). rewrite app_nil_r in Hinc. specialize (H0 Hinc). lia.
    + assert ((k, e) ∈ l) as Hkl by (rewrite <- Hl; by apply elem_of_events_after).
      apply list_elem_of_split in Hkl as (p1 & p2 & ->). rewrite app_nil_r in Hinc. clear -Hinc. revert Hinc.
      generalize (Checkpoint n). induction p1 as [|x p1 IH]; intros c; cbn [app]; rewrite last_seq_cons; intros [_ Hi]; [by apply last_seq_ge in Hi|by apply IH].
Qed.

(** A page is applied. *)
Lemma sys_apply now a n p more verifiedAt sql :
  sys_inv now {| auth := a; node := n; answer := Some (p, more) |} -> verifiedAt <= unix now ->
  sys_inv now {| auth := a; node := store_step (Ev_apply p verifiedAt sql) (unix now) n; answer := None |}.
Proof.
  intros [H1 H2 H0' H3 H4 H5 H6] Hat. destruct (H6 _ _ eq_refl) as (Hok & Hc & Hk). cbn [auth node answer] in *.
  destruct (step_inv (Ev_apply p verifiedAt sql) (unix now) (unix now) n H2 (Z.le_refl _) Hat) as (S1 & S2 & S3 & S4).
  cbn [store_step] in *. destruct (ApplyPage p verifiedAt sql n) as [r n'] eqn:Hap. cbn [snd] in *.
  destruct (apply_cases _ _ _ _ _ _ _ Hap H2) as [[-> _]|(Hpo & _ & _ & Hv & Hsn & Hcase)]; [by split|].
  set (c := match last p with Some e => Seq e | None => Checkpoint n end) in *.
  assert (Checkpoint n' = c) as Hcheck.
  { unfold Checkpoint. rewrite Hsn. unfold applyUserRevocationPage. by rewrite checkpoint_page. }
  assert (knows (unix now) (snapshot n') [] (Checkpoint n') a) as Hk'.
  { rewrite Hsn, Hcheck. eapply knows_apply; [apply H1|exact Hk|done|done]. }
  split; cbn [auth node answer]; [done|exact S1|lia|by rewrite Hcheck|exact Hk'| |done].
  destruct Hcase as [(Hdb & _)|(Hdb & Hsync & _)]; [by rewrite Hdb|].
  unfold Checkpoint in Hk'. by rewrite Hsync in Hk'.
Qed.

Lemma sys_step now st st' :
  feed_step proto_Size entry_len keyID Sign now st st' -> sys_inv now st -> sys_inv now st'.
Proof.
  intros Hstep Hsys. destruct Hstep as [op r a a' n p Hok Hm|a r a' n Hm|a n p|a n p more v sql entries Hf Hv|a n p|a n p].
  - apply (sys_feed _ a); [done| |].
    + eapply auth_step_inv; [apply Hsys|done|exact Hok|exact Hm].
    + eapply auth_step_feed; [apply Hsys|exact Hm].
  - destruct r as [e|[evs more]]; [|by destruct (sys_serve _ _ _ _ _ _ Hsys Hm)].
    apply serve_error in Hm as [->|(r & Hm)]; [done|]. destruct (page_inv _ _ _ _ _ _ (sy_auth _ _ Hsys) Hm) as [? ?].
    by eapply sys_feed.
  - by eapply sys_lost.
  - unfold fetchPage in Hf. destruct (_ <? _); [done|]. destruct (negb _); [done|].
    destruct (validateUserRevocationPage _ _); [done|]. injection Hf as <-. by eapply sys_apply.
  - apply sys_lost in Hsys. by destruct Hsys.
  - apply sys_lost in Hsys as [H1 H2 H0' H3 H4 H5 _]. cbn [auth node] in *.
    destruct (step_inv Ev_reopen (unix now) (unix now) n H2 (Z.le_refl _) I) as (S1 & S2 & S3 & S4).
    pose proof H2 as (_ & _ & _ & Hmeta).
    assert (knows (unix now) (loadUserRevocationSnapshot (delete_expired (unix now) (db n))) [] (meta_checkpoint (db n)) a) as Hk
      by (eapply knows_covers; [apply covers_open|done]).
    split; cbn [auth node answer store_step]; try done. unfold Checkpoint in *. cbn. lia.
Qed.

Lemma feed_runs_inv t0 t st :
  0 < unix t0 -> feed_runs proto_Size entry_len keyID Sign t0 t st -> sys_inv t st.
Proof.
  intros Ht0. induction 1 as [|t st now st' _ IH Hle Hstep].
  - by split.
  - eapply sys_step; [exact Hstep|]. by eapply sys_later.
Qed.
End Together.

(** * From a revocation at the service to a refusal at the node *)

Section Contract.
Context `{IntentCrypto}.
Context (proto_Size : event_row -> list RevokedToken -> Z).
Context (entry_len : RevocationEvent -> option Z).
Context (keyID : string) (Sign : SessionBody -> option string).

Lemma feed_inv t0 t st now :
  0 < unix t0 -> feed_runs proto_Size entry_len keyID Sign t0 t st -> t <= now -> sys_inv now st.
Proof. intros Ht0 Hr Hle. eapply sys_later; [by eapply feed_runs_inv|done]. Qed.

(** A page the service serves is never refused by the node that asked for it: its entries are
    in sequence after the node's checkpoint, each one valid, whatever was revoked, compacted or
    pruned meanwhile; it is not empty when it says that more follows; and a node whose store is
    open and sound commits it and moves its checkpoint past every entry. *)
Theorem served_page_is_accepted t0 t a n now evs more a' verifiedAt :
  0 < unix t0 -> feed_runs proto_Size entry_len keyID Sign t0 t {| auth := a; node := n; answer := None |} -> t <= now ->
  outcome (serveRevocations proto_Size entry_len (Checkpoint n) maxRevocationPageEntries now) a (Ok (evs, more)) a' ->
  fetchPage (Checkpoint n) (map wire evs) = Ok (map wire evs) /\ (more = true -> evs <> []) /\
  (closed n = false -> poisoned n = None ->
   exists n', ApplyPage (map wire evs) verifiedAt Committed n = (Ok tt, n') /\
     Checkpoint n <= Checkpoint n' /\ Forall (fun e => Seq e <= Checkpoint n') (map wire evs)).
Proof.
  intros Ht0 Hr Hle Hm. pose proof (feed_inv _ _ _ _ Ht0 Hr Hle) as Hsys.
  destruct (sys_serve _ _ _ _ _ _ _ _ Hsys Hm) as (_ & Hfetch & Hne & _). split; [done|]. split; [done|].
  intros Hcl Hpo. unfold ApplyPage. rewrite Hcl, Hpo.
  assert (validateUserRevocationPage (map wire evs) (Checkpoint n) = Ok tt) as Hv.
  { unfold fetchPage in Hfetch. destruct (_ <? _); [done|]. destruct (negb _); [done|].
    by destruct (validateUserRevocationPage _ _) as [|[]]. }
  rewrite Hv. eexists. split; [done|]. by apply checkpoint_after.
Qed.

(** C29: a revocation reaches the node.  Take a state that the service and the node reach together
    on one clock, the service's transactions committing in the order of the clock readings they carry (an
    assumption: the handlers read their clock before the transaction), and a session that is
    revoked when the node asks for a page.  If the service's answer says that nothing follows, and
    the node applies it, then from that moment on, whatever pages, failed statements, ambiguous
    commits, closes and restarts follow at the node, its clock not going back, the node answers that
    the access tokens of that session are revoked, until they expire. *)
Theorem revocation_reaches_the_node t0 t a n now evs a' later verifiedAt sql n1 now2 n2 h s id :
  0 < unix t0 -> feed_runs proto_Size entry_len keyID Sign t0 t {| auth := a; node := n; answer := None |} -> t <= now ->
  refresh_sessions a !! h = Some s -> Revoked s = true -> id ∈ ids_of s ->
  outcome (serveRevocations proto_Size entry_len (Checkpoint n) maxRevocationPageEntries now) a (Ok (evs, false)) a' ->
  now <= later -> verifiedAt <= unix later -> ApplyPage (map wire evs) verifiedAt sql n = (Ok tt, n1) ->
  store_run (unix later) n1 now2 n2 -> now2 < AccessExpiresAt s ->
  IsRevoked n2 now2 id (AccountID s) (CreatedAt s) = true.
Proof.
  intros Ht0 Hr Hle Hs Hrev Hid Hm Hle2 Hat Hap Hrun Hlt. pose proof (feed_inv _ _ _ _ Ht0 Hr Hle) as Hsys.
  pose proof (sy_auth _ _ Hsys) as Hinv. cbn [auth] in Hinv.
  assert (unix now <= unix later) as Hul by (unfold unix; by apply Z.div_le_mono).
  destruct (sys_serve _ _ _ _ _ _ _ _ Hsys Hm) as (Hsys' & _ & _ & Hall). specialize (Hall eq_refl).
  pose proof (sy_store _ _ (sys_later _ later _ Hsys Hle2)) as Hstore. cbn [node] in Hstore.
  pose proof (step_inv (Ev_apply (map wire evs) verifiedAt sql) _ _ n Hstore (Z.le_refl _) Hat) as (Hstore1 & _).
  cbn [store_step] in Hstore1. rewrite Hap in Hstore1. cbn [snd] in Hstore1.
  pose proof (store_run_inv _ _ _ _ Hrun Hstore1) as [_ Hle3].
  destruct (store_run_covers _ _ _ _ Hrun Hstore1) as (_ & Hcov & _).
  destruct (apply_cases _ _ _ _ _ _ _ Hap Hstore) as [[_ []]|(_ & _ & Hok & _ & Hsn & Hcase)]; [done|].
  destruct Hcase as [(_ & _ & [])|(_ & Hsync & _)]; [done|]. rewrite <- Hsync, Hsn in Hcov.
  pose proof (serve_outcome _ _ _ _ _ _ _ _ _ Hm (ai_feed _ _ Hinv)) as (_ & _ & _ & _ & _ & _ & _ & _ & _ & page & Hpage).
  pose proof (page_inv _ _ _ _ _ _ _ Hinv Hpage) as [Hinv' _]. destruct page as [pevs pmore].
  destruct (page_feed _ _ _ _ _ _ _ _ Hpage (ai_feed _ _ Hinv)) as (_ & _ & Hkeep & _).
  assert (AuthFeed.covers a' id (AccountID s) (AccessExpiresAt s) (CreatedAt s)) as Hden.
  { apply Hkeep; [lia|]. eapply ai_revoked; [exact Hinv|exact Hs|done|lia|done]. }
  unfold IsRevoked. eapply (knows_denied now2); [apply Hinv'| |exact Hden|lia].
  eapply knows_covers; [exact Hcov|]. eapply (knows_apply _ _ _ _ _ verifiedAt); [apply Hinv'| |lia|done].
  eapply knows_later; [exact Hall|lia].
Qed.

(** ** Polling to the end *)

(** Reading a page adds no event. *)
Lemma compacted_events d d' k e :
  compacted proto_Size d d' -> revocation_events d' !! k = Some e -> revocation_events d !! k = Some e.
Proof.
  induction 1 as [|d d1 d2 a Hc _ IH]; [done|]. intros He%IH.
  apply compact_outcome in Hc as (seq & keep & d0 & _ & -> & _ & ->). by apply lookup_delete_events_event in He as [He _].
Qed.
Lemma page_events since limit now d r d' k e :
  outcome (PageAfter proto_Size since limit now) d (Ok r) d' -> revocation_events d' !! k = Some e ->
  revocation_events d !! k = Some e.
Proof.
  destruct r. intros (_ & _ & _ & Hc & _)%PageAfter_outcome He. eapply compacted_events in He; [|exact Hc].
  by apply lookup_delete_events_event in He as [He _].
Qed.

Lemma events_after_nodup c d : NoDup (events_after c d).
Proof. unfold events_after. rewrite (merge_sort_Permutation by_seq). apply NoDup_filter, NoDup_map_to_list. Qed.
Lemma events_after_le c d d' :
  (forall k e, revocation_events d' !! k = Some e -> revocation_events d !! k = Some e) ->
  (length (events_after c d') <= length (events_after c d))%nat.
Proof.
  intros Hle. apply NoDup_incl_length; [apply NoDup_ListNoDup, events_after_nodup|]. intros [k e].
  rewrite <- !list_elem_of_In, !elem_of_events_after. intros [He Hc]. split; [by apply Hle|done].
Qed.
Lemma events_after_less c d l l2 :
  events_after c d = l ++ l2 -> l <> [] -> (length (events_after (last_seq c l) d) < length (events_after c d))%nat.
Proof.
  intros Hl Hne. pose proof (events_after_increasing c d) as Hinc. rewrite Hl in Hinc.
  assert (length (events_after (last_seq c l) d) <= length l2)%nat as Hle.
  { apply NoDup_incl_length; [apply NoDup_ListNoDup, events_after_nodup|]. intros [k e].
    rewrite <- !list_elem_of_In, elem_of_events_after. intros [He Hk].
    pose proof (last_seq_ge _ _ (increasing_prefix _ _ _ Hinc)).
    assert ((k, e) ∈ l ++ l2) as [Hin|Hin]%elem_of_app by (rewrite <- Hl; apply elem_of_events_after; split; [done|lia]); [|done].
    exfalso. apply list_elem_of_split in Hin as (p1 & p2 & ->). apply increasing_prefix in Hinc.
    clear -Hinc Hk. revert c Hinc Hk. induction p1 as [|x p1 IH]; intros c; cbn [app]; rewrite last_seq_cons; intros [_ Hi].
    - apply last_seq_ge in Hi. cbn in Hi. cbn. lia.
    - by apply IH. }
  rewrite Hl, length_app. destruct l; [done|]. cbn. lia.
Qed.

(** No entry is too long for a page. *)
Definition entries_fit : Prop :=
  forall ev, exists len, entry_len ev = Some len /\ 0 <= len /\ emptyPageBytes + len <= maxRevocationPageBytes.

Lemma pack_ok events entries bytes :
  entries_fit -> (entries = [] -> bytes = emptyPageBytes) -> exists r, pack entry_len events entries bytes = Ok r.
Proof.
  intros Hfit. revert entries bytes. induction events as [|ev events IH]; intros entries bytes Hb; cbn [pack]; [by eexists|].
  destruct (Hfit ev) as (len & -> & Hlen & Hle). case_bool_decide as Hn.
  - rewrite (Hb Hn), (proj2 (Z.ltb_ge _ _)) by lia. apply IH. intros Hx. by apply app_nil in Hx as [_ ?].
  - destruct (_ <? _); [by eexists|]. apply IH. intros Hx. by apply app_nil in Hx as [_ ?].
Qed.

Lemma serve_yields since now a :
  fits proto_Size -> entries_fit -> auth_inv (unix now) a -> 0 <= since ->
  exists r a', yields (serveRevocations proto_Size entry_len since maxRevocationPageEntries now) a (Ok r) a'.
Proof.
  intros Hfits Hfit Hinv Hs. destruct (page_yields _ Hfits since maxRevocationPageEntries (unix now) a Hinv Hs ltac:(done)) as ([page more] & a' & Hp).
  destruct (pack_ok page [] emptyPageBytes Hfit (fun _ => eq_refl)) as [[r cut] Hr].
  exists (r, more || cut), a'. unfold serveRevocations. destruct (Z.ltb_spec since 0); [lia|]. cbn [orb].
  change ((maxRevocationPageEntries <? 1) || (maxRevocationPageEntries <? maxRevocationPageEntries)) with false.
  cbn iota. eapply yields_bind; [exact Hp|]. cbn [fst snd]. rewrite Hr. eapply yields_bind; [apply yields_ret|]. done.
Qed.

(** C30: a poll ends, and catches up.  Take any state that the service and the node reach together
    on one clock, the service's transactions committing in the order of the clock readings they carry (an
    assumption: the handlers read their clock before the transaction), with a store that is open
    and sound.  When no statement fails, as many rounds as there are events after the node's
    checkpoint, and one, are enough for [pollOnce] to return without an error, and then the node
    refuses every unexpired access token of every session that is revoked. *)
Theorem poll_catches_up t0 t a n now fuel :
  fits proto_Size -> entries_fit -> 0 < unix t0 ->
  feed_runs proto_Size entry_len keyID Sign t0 t {| auth := a; node := n; answer := None |} -> t <= now ->
  closed n = false -> poisoned n = None ->
  (length (events_after (Checkpoint n) a) < fuel)%nat ->
  exists a' n', pollOnce proto_Size entry_len fuel now a n = Some (true, a', n') /\
    refresh_sessions a' = refresh_sessions a /\
    forall h s id, refresh_sessions a !! h = Some s -> Revoked s = true -> id ∈ ids_of s ->
      unix now < AccessExpiresAt s -> IsRevoked n' (unix now) id (AccountID s) (CreatedAt s) = true.
Proof.
  intros Hfits Hfit Ht0 Hr Hle. pose proof (feed_inv _ _ _ _ Ht0 Hr Hle) as Hsys. clear Hr Hle t t0 Ht0.
  revert a n Hsys. induction fuel as [|fuel IH]; intros a n Hsys Hcl Hpo Hfuel; [lia|].
  assert (0 <= Checkpoint n) as Hc.
  { pose proof (sy_nonneg _ _ Hsys). destruct (sy_store _ _ Hsys) as (_ & _ & _ & ?). cbn [node] in *. lia. }
  destruct (serve_yields (Checkpoint n) now a Hfits Hfit (sy_auth _ _ Hsys) Hc) as ([evs more] & a1 & Hy).
  pose proof (yields_outcome _ _ _ _ Hy) as Hm.
  destruct (sys_serve _ _ _ _ _ _ _ _ Hsys Hm) as (Hsys1 & Hfetch & Hne & Hall).
  pose proof (serve_outcome _ _ _ _ _ _ _ _ _ Hm (ai_feed _ _ (sy_auth _ _ Hsys)))
    as (l & l2 & Hl & Hevs & _ & _ & Hmore & Hne2 & _ & page & Hpage).
  assert (refresh_sessions a1 = refresh_sessions a) as Hsess.
  { destruct page. by destruct (page_feed _ _ _ _ _ _ _ _ Hpage (ai_feed _ _ (sy_auth _ _ Hsys))) as (_ & _ & _ & -> & _). }
  cbn [pollOnce]. rewrite Hy, Hfetch. cbn [tables].
  assert (bool_decide (map wire evs = []) && more = false) as ->.
  { destruct more; [|apply andb_false_r]. rewrite andb_true_r. apply bool_decide_eq_false. intros Hx%map_eq_nil. by apply (Hne eq_refl). }
  pose proof (sys_apply _ _ _ _ _ (unix now) Committed Hsys1 (Z.le_refl _)) as Hsys2. cbn [store_step] in Hsys2.
  assert (exists n1, ApplyPage (map wire evs) (unix now) Committed n = (Ok tt, n1) /\ closed n1 = false /\ poisoned n1 = None /\
    Checkpoint n1 = last_seq (Checkpoint n) l /\ snapshot n1 = applyUserRevocationPage (snapshot n) (map wire evs) (unix now)) as (n1 & Hap & Hcl1 & Hpo1 & Hc1 & Hsn1).
  { unfold ApplyPage. rewrite Hcl, Hpo. unfold fetchPage in Hfetch. destruct (_ <? _); [done|]. destruct (negb _); [done|].
    destruct (validateUserRevocationPage _ _) as [|[]]; [done|]. eexists. split; [done|]. split; [exact Hcl|]. split; [exact Hpo|]. split; [|done].
    unfold Checkpoint. cbn. unfold applyUserRevocationPage. rewrite checkpoint_page. rewrite Hevs. apply last_wire. }
  rewrite Hap in Hsys2 |- *. cbn [snd] in Hsys2.
  assert (Checkpoint n <= last_seq (Checkpoint n) l) as Hge.
  { apply last_seq_ge, (increasing_prefix _ _ l2). rewrite <- Hl. apply events_after_increasing. }
  destruct more.
  - destruct (IH a1 n1 Hsys2 Hcl1 Hpo1) as (a' & n' & Hpoll & Hsess' & Hrev).
    + rewrite Hc1. pose proof (events_after_less _ _ _ _ Hl (Hne2 eq_refl)).
      pose proof (events_after_le (Checkpoint n) a a1 ltac:(intros; by eapply page_events)). lia.
    + exists a', n'. rewrite Hsess in Hsess', Hrev. done.
  - exists a1, n1. split; [done|]. split; [done|]. intros h s id Hs Hrv Hid Hlt. specialize (Hall eq_refl).
    eapply (knows_denied (unix now)); [apply (sy_auth _ _ Hsys2)| |eapply (ai_revoked _ _ (sy_auth _ _ Hsys2));
      [cbn; by rewrite Hsess|done|done|done]|lia].
    rewrite Hsn1. eapply knows_apply; [apply (sy_auth _ _ Hsys2)|exact Hall|lia|].
    by destruct (sy_answer _ _ Hsys1 _ _ eq_refl).
Qed.
End Contract.
