(* ===== verification/AuthExamples.v ===== *)
(** * Concrete runs of the authorization service

    A hash, a signature check, a signer and entry sizes to run the model with, a checker of runs,
    and the theorems of AuthContract.v and RevocationFeed.v at concrete states. *)

From S2P Require Import Prelude GoLib Database RevocationStore Intent.
From S2P Require Import AuthStore AuthFlow AuthLaws AuthFeed AuthRuns AuthSteps AuthTransactions AuthProgress.
From S2P Require Import AuthProgress AuthContract RevocationFeed.
From Stdlib Require Import Ascii.
Open Scope Z_scope.

(** ** Instances *)

Definition ex_sum (x : bytes) : bytes := take 32 (x ++ replicate 32 "000"%char).

#[export] Instance ex_crypto : IntentCrypto := {|
  EcPriv := unit; EcPub := unit; EcPublic k := k; EcRand := unit;
  Sum256 := ex_sum;
  ecdsa_Sign _ _ d := Some (SetBytes d, 7);
  ecdsa_Verify _ d r s := (r =? SetBytes d) && (s =? 7);
  ParsePKIXPublicKey _ := Some (Some tt);
  MarshalPKIXPublicKey _ := Some ["k"%char];
  on_P256 _ := true;
  Marshal_IntentBody _ := None;
  Unmarshal_IntentBody _ := None;
  Unmarshal_SessionTokenBody _ := None
|}.

(** Protobuf's size of an entry, every varint at its longest. *)
Definition ex_size (e : event_row) (l : list RevokedToken) : Z :=
  100 + blen (ev_AccountID e) + blen (ev_FamilyID e) + fold_right (fun x n => 15 + blen (TokenID x) + n) 0 l.
Lemma ex_fits : fits ex_size.
Proof.
  intros e l Ha Hf Hl Hall. unfold ex_size, maxRevocationPayloadBytes.
  assert (fold_right (fun x n => 15 + blen (TokenID x) + n) 0 l <= 79 * Z.of_nat (length l)).
  { clear Hl. unfold maxAccessTokenIDBytes in Hall. induction Hall; cbn [fold_right length]; lia. }
  lia.
Qed.
Definition ex_len (ev : RevocationEvent) : option Z := Some 100000.
Lemma ex_entries_fit : entries_fit ex_len.
Proof. intros ev. exists 100000. by split. Qed.

Definition ex_Sign (b : SessionBody) : option string := Some (String.append (sb_Audience b) (sb_TokenId b)).

(** ** Runs by computation *)

Definition ident_b (id : string) : bool := negb (String.eqb id "") && (blen id <=? 64).
Definition all_rows (p : RefreshSession -> bool) (d : auth_tables) : bool :=
  forallb (fun kv => p kv.2) (map_to_list (refresh_sessions d)).
Definition ids_fresh_b (f : fresh) (d : auth_tables) : bool :=
  negb (String.eqb (f_cp f) (f_node f)) &&
  all_rows (fun s => negb (String.eqb (CPAccessTokenID s) (f_cp f)) && negb (String.eqb (CPAccessTokenID s) (f_node f))
    && negb (String.eqb (NodeAccessTokenID s) (f_cp f)) && negb (String.eqb (NodeAccessTokenID s) (f_node f))) d.
Definition family_fresh_b (f : fresh) (d : auth_tables) : bool :=
  ident_b (f_family f) && all_rows (fun s => negb (String.eqb (FamilyID s) (f_family f))) d.
Definition some_row (p : RefreshSession -> bool) (d : auth_tables) : bool :=
  existsb (fun kv => p kv.2) (map_to_list (refresh_sessions d)).
Definition op_ok_b (op : auth_op) (d : auth_tables) : bool :=
  match op with
  | Op_user a _ => ident_b a
  | Op_login _ _ _ _ f | Op_redeem _ f => ids_fresh_b f d && family_fresh_b f d
  | Op_refresh _ _ f => ids_fresh_b f d
  | Op_revoke_family a fam => some_row (fun s => String.eqb (AccountID s) a && String.eqb (FamilyID s) fam) d
  | Op_logout_everywhere a => some_row (fun s => String.eqb (AccountID s) a) d
  | _ => true
  end.

Lemma ident_b_ok id : ident_b id = true -> ident id.
Proof. unfold ident_b, ident. rewrite andb_true_iff, negb_true_iff, String.eqb_neq, Z.leb_le. done. Qed.
Lemma all_rows_ok p d h s : all_rows p d = true -> refresh_sessions d !! h = Some s -> p s = true.
Proof.
  unfold all_rows. rewrite forallb_forall. intros Hall Hs. apply (Hall (h, s)).
  by apply list_elem_of_In, elem_of_map_to_list.
Qed.
Lemma some_row_ok p d : some_row p d = true -> exists h s, refresh_sessions d !! h = Some s /\ p s = true.
Proof.
  unfold some_row. rewrite existsb_exists. intros ([h s] & Hin & Hp). exists h, s. split; [|done].
  by apply elem_of_map_to_list, list_elem_of_In.
Qed.
Lemma ids_fresh_ok f d : ids_fresh_b f d = true -> ids_fresh f d.
Proof.
  unfold ids_fresh_b. intros [Hne Hall]%andb_true_iff. apply negb_true_iff, String.eqb_neq in Hne. split; [done|].
  intros h s Hs. pose proof (all_rows_ok _ _ _ _ Hall Hs) as Hp. cbn in Hp.
  by rewrite !andb_true_iff, !negb_true_iff, !String.eqb_neq in Hp; destruct Hp as [[[? ?] ?] ?].
Qed.
Lemma family_fresh_ok f d : family_fresh_b f d = true -> family_fresh f d.
Proof.
  unfold family_fresh_b. intros [Hid%ident_b_ok Hall]%andb_true_iff. split; [done|]. intros h s Hs.
  pose proof (all_rows_ok _ _ _ _ Hall Hs) as Hp. cbn in Hp. by apply negb_true_iff, String.eqb_neq in Hp.
Qed.
Lemma op_ok_b_ok op d : op_ok_b op d = true -> op_ok op d.
Proof.
  destruct op; cbn [op_ok_b op_ok]; try done.
  - apply ident_b_ok.
  - intros [Hi Hf]%andb_true_iff. split; [by apply ids_fresh_ok|by apply family_fresh_ok].
  - apply ids_fresh_ok.
  - intros (h & s & Hs & Hp)%some_row_ok. exists h, s. by apply andb_true_iff in Hp as [->%String.eqb_eq ->%String.eqb_eq].
  - intros (h & s & Hs & Hp%String.eqb_eq)%some_row_ok. by exists h, s.
  - intros [Hi Hf]%andb_true_iff. split; [by apply ids_fresh_ok|by apply family_fresh_ok].
Qed.

Abbreviation ex_prog := (auth_prog ex_size "k" ex_Sign).

Fixpoint run_ops (t : Z) (d : auth_tables) (l : list (Z * auth_op)) : option (Z * auth_tables) :=
  match l with
  | [] => Some (t, d)
  | (now, op) :: l =>
      if (t <=? now) && op_ok_b op d then run_ops now (tables (ex_prog op now (mkSession d [])).2) l else None
  end.
Lemma run_ops_ok l : forall t0 d0 t d t' d',
  auth_runs ex_size "k" ex_Sign t0 d0 t d -> run_ops t d l = Some (t', d') -> auth_runs ex_size "k" ex_Sign t0 d0 t' d'.
Proof.
  induction l as [|[now op] l IH]; intros t0 d0 t d t' d' Hr; cbn [run_ops]; [by intros [= <- <-]|].
  destruct (_ && _) eqn:Hb; [|done]. apply andb_true_iff in Hb as [Hle%Z.leb_le Hok%op_ok_b_ok]. apply IH.
  destruct (ex_prog op now (mkSession d [])) as [r [d1 fs]] eqn:Hm. cbn [snd tables].
  eapply auth_stepped; [exact Hr|exact Hle|exact Hok|]. by exists [], fs.
Qed.

(** ** A service's life *)

(** A proof of possession of the token [raw] at the time [now]. *)
Definition ex_proof (raw : string) (now : Z) : PoPProof :=
  let unsigned := {| RefreshTokenHash := sha256sum (bytes_of raw); Timestamp := unix now;
                     Nonce := replicate 16 "n"%char; PoPSig := None |} in
  {| RefreshTokenHash := []; Timestamp := unix now; Nonce := replicate 16 "n"%char;
     PoPSig := Some (ex_sum (pop_message unsigned) ++ replicate 31 "000"%char ++ ["007"%char]) |}.

Definition at_second (n : Z) : Z := n * Second.
Definition ex_fresh (n : string) : fresh :=
  {| f_cp := String.append "cp" n; f_node := String.append "node" n; f_refresh := String.append "r" n; f_family := String.append "fam" n |}.
Definition ex_user : User := {| GithubSub := 7; Handle := "h"; UserStatus := "active"; UserCreatedAt := 1000 |}.

(** Sign in, exchange [r1] for [r2], and [r2] for [r3]. *)
Definition ex_login : list (Z * auth_op) :=
  [(at_second 1000, Op_user "u" ex_user);
   (at_second 1001, Op_login "u" ex_user "web" ["k"%char] (ex_fresh "1"))].
Definition ex_rotated : list (Z * auth_op) :=
  ex_login ++ [(at_second 1010, Op_refresh "r1" (ex_proof "r1" (at_second 1010)) (ex_fresh "2"));
               (at_second 1020, Op_refresh "r2" (ex_proof "r2" (at_second 1020)) (ex_fresh "3"))].
(** Then [r1] is shown again, and another family is opened and left by logging out everywhere. *)
Definition ex_revoked : list (Z * auth_op) :=
  ex_rotated ++ [(at_second 1030, Op_refresh "r1" (ex_proof "r1" (at_second 1030)) (ex_fresh "4"));
                 (at_second 1040, Op_login "u" ex_user "cli" ["k"%char] (ex_fresh "5"));
                 (at_second 1050, Op_logout_everywhere "u");
                 (at_second 1060, Op_page 0 256)].
(** A device code, approved. *)
Definition ex_grant : DeviceGrant :=
  {| UserCode := "ABCD"; dg_SessionPubkeySPKI := ["d"%char]; dg_ClientKind := "cli"; Status := GrantPending;
     dg_AccountID := ""; AttemptCount := 0; dg_CreatedAt := 1002; dg_ExpiresAt := 1902; LastPolledAt := 0 |}.
Definition ex_approved : list (Z * auth_op) :=
  ex_login ++ [(at_second 1002, Op_grant "dev" ex_grant); (at_second 1003, Op_decide "ABCD" "u" GrantApproved)].

Definition ex_state (l : list (Z * auth_op)) : auth_tables :=
  match run_ops (at_second 999) empty_auth l with Some (_, d) => d | None => empty_auth end.
Definition ex_time (l : list (Z * auth_op)) : Z :=
  match run_ops (at_second 999) empty_auth l with Some (t, _) => t | None => 0 end.

Lemma ex_runs l :
  bool_decide (is_Some (run_ops (at_second 999) empty_auth l)) = true ->
  auth_runs ex_size "k" ex_Sign (at_second 999) empty_auth (ex_time l) (ex_state l).
Proof.
  unfold ex_state, ex_time. destruct (run_ops _ _ _) as [[t d]|] eqn:Hr; [|done]. intros _.
  eapply run_ops_ok; [apply auth_here|exact Hr].
Qed.

(** A program's result and tables, with no failing statement. *)
Definition ex_result {A} (m : DB A) (d : auth_tables) : option (A * auth_tables) :=
  match m (mkSession d []) with (Ok a, s) => Some (a, tables s) | _ => None end.
Lemma ex_outcome {A} (m : DB A) d a d' : ex_result m d = Some (a, d') -> outcome m d (Ok a) d'.
Proof.
  unfold ex_result. destruct (m (mkSession d [])) as [[e|x] [d1 fs]] eqn:Hm; [done|]. intros [= <- <-]. by exists [], fs.
Qed.

Definition ex_row (raw : string) (l : list (Z * auth_op)) : RefreshSession :=
  default {| AccountID := ""; FamilyID := ""; ClientKind := ""; SessionPubkeySPKI := []; CPAccessTokenID := "";
             NodeAccessTokenID := ""; AccessExpiresAt := 0; CreatedAt := 0; LastUsedAt := 0; ExpiresAt := 0;
             FamilyCreatedAt := 0; SupersededBy := None; SupersededAt := None; SuccessorCache := None; Revoked := false |}
    (refresh_sessions (ex_state l) !! sha256Hex raw).
Lemma ex_row_ok raw l :
  is_none (refresh_sessions (ex_state l) !! sha256Hex raw) = false ->
  refresh_sessions (ex_state l) !! sha256Hex raw = Some (ex_row raw l).
Proof. unfold ex_row. by destruct (_ !! _). Qed.

Lemma ex_row_unique raw l s : refresh_sessions (ex_state l) !! sha256Hex raw = Some s -> s = ex_row raw l.
Proof. unfold ex_row. by intros ->. Qed.

Lemma feed_of_auth t0 t a :
  auth_runs ex_size "k" ex_Sign t0 empty_auth t a ->
  feed_runs ex_size ex_len "k" ex_Sign t0 t
    {| auth := a; node := OpenUserRevocationStore (unix t0) empty_tables; answer := None |}.
Proof.
  induction 1 as [|t d now op r d' _ IH Hle Hok Hm]; [constructor|].
  eapply feed_stepped; [exact IH|done|]. by eapply step_auth.
Qed.
Definition ex_node : UserRevocationStore := OpenUserRevocationStore 999 empty_tables.

(** ** Clocks out of order

    The handlers read the clock before their transaction.  When one that read it earlier commits
    later, the order of clocks that [auth_runs] asks for is broken, and with it what depends on it:
    everywhere is logged out at second 1010, a session is opened in the same second, and a second
    logout, which read its clock at 1009, commits: the session is revoked and no event says so. *)
Definition ex_any (l : list (Z * auth_op)) : auth_tables :=
  foldl (fun d no => tables (ex_prog no.2 no.1 (mkSession d [])).2) empty_auth l.
Definition ex_late : list (Z * auth_op) :=
  ex_login ++ [(at_second 1010, Op_logout_everywhere "u");
               (at_second 1010, Op_login "u" ex_user "web" ["k"%char] (ex_fresh "2"));
               (at_second 1009, Op_logout_everywhere "u")].

Lemma late_commit_hides_a_revocation :
  exists s, refresh_sessions (ex_any ex_late) !! sha256Hex "r2" = Some s /\ Revoked s = true /\
    1010 < AccessExpiresAt s /\ "cp2" ∈ ids_of s /\
    ~ AuthFeed.covers (ex_any ex_late) "cp2" "u" (AccessExpiresAt s) (CreatedAt s).
Proof.
  destruct (refresh_sessions (ex_any ex_late) !! sha256Hex "r2") as [s|] eqn:Hs.
  2: { apply (f_equal is_none) in Hs. vm_compute in Hs. discriminate. }
  exists s. apply (f_equal (option_map (fun s => (Revoked s, AccessExpiresAt s, CreatedAt s, ids_of s)))) in Hs.
  cbn [option_map] in Hs.
  assert (option_map (fun s => (Revoked s, AccessExpiresAt s, CreatedAt s, ids_of s))
    (refresh_sessions (ex_any ex_late) !! sha256Hex "r2") = Some (true, 1910, 1010, ["cp2"; "node2"])) as Hc
    by (vm_compute; reflexivity).
  rewrite Hc in Hs. injection Hs as HR HA HC H1 H2. rewrite <- HA, <- HC.
  split_and!; [done|done|lia|unfold ids_of; rewrite <- H1; left|].
  assert (map_to_list (revocation_events (ex_any ex_late)) =
    [(1, {| ev_AccountID := "u"; ev_FamilyID := ""; ev_RevokedAt := 1010; RevokeTokensIssuedBefore := 1010 |})]) as He
    by (vm_compute; reflexivity).
  intros (k & e & Hk & [(v & Hv & _)|(_ & _ & Hlt)]).
  - assert (map_to_list (event_tokens (ex_any ex_late)) = []) as Ht by (vm_compute; reflexivity).
    apply elem_of_map_to_list in Hv. rewrite Ht in Hv. inversion Hv.
  - apply elem_of_map_to_list in Hk. rewrite He in Hk. apply list_elem_of_singleton in Hk. injection Hk as -> ->.
    cbn in Hlt. lia.
Qed.

(** ** The theorems at these states *)

Definition ex_refresh (raw : string) (n : Z) (f : string) : DB successorPair :=
  handleRefresh ex_size "k" ex_Sign raw (ex_proof raw (at_second n)) (at_second n) (ex_fresh f).

Lemma refresh_answers_the_head_witness :
  exists p d' head, outcome (ex_refresh "r3" 1025 "9") (ex_state ex_rotated) (Ok p) d' /\
    refresh_sessions d' !! sha256Hex (RefreshToken p) = Some head /\ FamilyID head = "fam1" /\
    Revoked head = false /\ SupersededBy head = None.
Proof.
  assert (is_none (ex_result (ex_refresh "r3" 1025 "9") (ex_state ex_rotated)) = false) as Hn by (vm_compute; reflexivity).
  destruct (ex_result (ex_refresh "r3" 1025 "9") (ex_state ex_rotated)) as [[p d']|] eqn:Hr; [|done].
  apply ex_outcome in Hr.
  destruct (refresh_answers_the_head ex_size "k" ex_Sign (at_second 999) (ex_time ex_rotated) (ex_state ex_rotated) (at_second 1025) "r3"
    (ex_proof "r3" (at_second 1025)) (ex_fresh "9") p d') as (old & head & Hold & _ & _ & _ & _ & Hhead & Hf & _ & _ & Hrev & Hsup).
  - vm_compute. reflexivity.
  - apply ex_runs. vm_compute. reflexivity.
  - vm_compute. discriminate.
  - apply ids_fresh_ok. vm_compute. reflexivity.
  - exact Hr.
  - exists p, d', head. apply ex_row_unique in Hold.
    split; [exact Hr|]. split; [exact Hhead|]. split; [rewrite Hf, Hold; vm_compute; reflexivity|]. by split.
Defined.

Lemma reused_token_ends_the_family_witness :
  exists d', yields (ex_refresh "r1" 1030 "9") (ex_state ex_rotated) (Err ErrFamilyRevoked) d' /\
    (forall h s, refresh_sessions d' !! h = Some s -> FamilyID s = "fam1" -> Revoked s = true).
Proof.
  destruct (reused_token_ends_the_family ex_size "k" ex_Sign (at_second 999) (ex_time ex_rotated) (ex_state ex_rotated)
    (at_second 1030) "r1" (ex_proof "r1" (at_second 1030)) (ex_fresh "9") (ex_row "r1" ex_rotated) (sha256Hex "r2")) as [_ Hyes].
  - exact ex_fits.
  - vm_compute. reflexivity.
  - apply ex_runs. vm_compute. reflexivity.
  - vm_compute. discriminate.
  - apply ex_row_ok. vm_compute. reflexivity.
  - vm_compute. reflexivity.
  - left. exists (ex_row "r2" ex_rotated). split; [apply ex_row_ok; vm_compute; reflexivity|].
    exists (sha256Hex "r3"). vm_compute. reflexivity.
  - destruct Hyes as (d' & Hd' & Hall); [vm_compute; reflexivity..|]. exists d'. split; [exact Hd'|].
    intros h s Hs Hf. apply (Hall h s Hs). rewrite Hf. vm_compute. reflexivity.
Defined.

Lemma refresh_retry_is_idempotent_witness :
  exists p d', outcome (ex_refresh "r1" 1010 "2") (ex_state ex_login) (Ok p) d' /\
    forall r d2, outcome (ex_refresh "r1" 1055 "9") d' r d2 -> d2 = d' /\ (forall p', r = Ok p' -> p' = p).
Proof.
  assert (is_none (ex_result (ex_refresh "r1" 1010 "2") (ex_state ex_login)) = false) as Hn by (vm_compute; reflexivity).
  destruct (ex_result (ex_refresh "r1" 1010 "2") (ex_state ex_login)) as [[p d']|] eqn:Hr; [|done].
  apply ex_outcome in Hr. exists p, d'. split; [exact Hr|]. intros r d2 Hagain.
  destruct (refresh_retry_is_idempotent ex_size "k" ex_Sign (at_second 999) (ex_time ex_login) (ex_state ex_login) (at_second 1010) "r1"
    (ex_proof "r1" (at_second 1010)) (ex_fresh "2") p d' (at_second 1055) (ex_proof "r1" (at_second 1055)) (ex_fresh "9") r d2)
    as (H1 & _ & H2); [| | | | | | | |by split].
  - vm_compute. reflexivity.
  - apply ex_runs. vm_compute. reflexivity.
  - vm_compute. discriminate.
  - apply ids_fresh_ok. vm_compute. reflexivity.
  - intros old ->%ex_row_unique. vm_compute. reflexivity.
  - exact Hr.
  - vm_compute. discriminate.
  - exact Hagain.
Defined.

Lemma revoked_tokens_are_published_witness : AuthFeed.covers (ex_state ex_revoked) "cp3" "u" 1920 1020.
Proof.
  refine (revoked_tokens_are_published ex_size "k" ex_Sign (at_second 999) (ex_time ex_revoked) (ex_state ex_revoked)
    (sha256Hex "r3") (ex_row "r3" ex_revoked) "cp3" _ _ _ _ _ _).
  - vm_compute. reflexivity.
  - apply ex_runs. vm_compute. reflexivity.
  - apply ex_row_ok. vm_compute. reflexivity.
  - vm_compute. reflexivity.
  - vm_compute. reflexivity.
  - vm_compute. left.
Defined.

Lemma logouts_and_pages_always_commit_witness :
  (exists d', yields (serveLogout ex_size "r3" true (at_second 1030)) (ex_state ex_rotated) (Ok tt) d' /\
     forall h s, refresh_sessions d' !! h = Some s -> AccountID s = "u" -> Revoked s = true) /\
  (exists r d', yields (PageAfter ex_size 0 256 1061) (ex_state ex_revoked) (Ok r) d').
Proof.
  split.
  - destruct (logouts_and_pages_always_commit ex_size "k" ex_Sign (at_second 999) (ex_time ex_rotated) (ex_state ex_rotated)
      (at_second 1030)) as [Hlogout _].
    + exact ex_fits.
    + vm_compute. reflexivity.
    + apply ex_runs. vm_compute. reflexivity.
    + vm_compute. discriminate.
    + destruct (Hlogout "r3" (ex_row "r3" ex_rotated)) as [_ (d' & Hd' & Hall)]; [apply ex_row_ok; vm_compute; reflexivity|].
      exists d'. split; [exact Hd'|]. intros h s Hs Ha. apply (Hall h s Hs). rewrite Ha. vm_compute. reflexivity.
  - destruct (logouts_and_pages_always_commit ex_size "k" ex_Sign (at_second 999) (ex_time ex_revoked) (ex_state ex_revoked)
      (at_second 1061)) as [_ Hpage].
    + exact ex_fits.
    + vm_compute. reflexivity.
    + apply ex_runs. vm_compute. reflexivity.
    + vm_compute. discriminate.
    + exact (Hpage 0 256 ltac:(lia) ltac:(lia)).
Defined.

Definition ex_redeem (n : Z) (f : string) : DB (accessPair * string) :=
  run_in_tx (redeem_tx "k" ex_Sign "dev" (at_second n) (ex_fresh f)).

Lemma device_code_redeemed_once_witness :
  exists r d2, outcome (ex_redeem 1010 "7") (ex_state ex_approved) (Ok r) d2 /\
    (exists s, refresh_sessions d2 !! sha256Hex r.2 = Some s /\ AccountID s = "u" /\ SessionPubkeySPKI s = ["d"%char]) /\
    forall r' d4, outcome (ex_redeem 1020 "8") d2 r' d4 -> exists e, r' = Err e.
Proof.
  assert (is_none (ex_result (ex_redeem 1010 "7") (ex_state ex_approved)) = false) as Hn by (vm_compute; reflexivity).
  destruct (ex_result (ex_redeem 1010 "7") (ex_state ex_approved)) as [[[p raw] d2]|] eqn:Hr; [|done].
  apply ex_outcome in Hr. exists (p, raw), d2. split; [exact Hr|].
  assert (forall now' f' r' d4, outcome (run_in_tx (redeem_tx "k" ex_Sign "dev" now' f')) d2 r' d4 ->
    (exists g s, device_grants (ex_state ex_approved) !! "dev" = Some g /\ Status g = GrantApproved /\
       refresh_sessions d2 !! sha256Hex raw = Some s /\ AccountID s = dg_AccountID g /\
       SessionPubkeySPKI s = dg_SessionPubkeySPKI g /\ Revoked s = false /\
       (forall k x, refresh_sessions (ex_state ex_approved) !! k = Some x -> FamilyID x <> FamilyID s)) /\
    (exists e, r' = Err e) /\ d4 = d2) as Hall.
  { intros now' f' r' d4 Hm.
    refine (device_code_redeemed_once ex_size "k" ex_Sign (at_second 999) (ex_time ex_approved) (ex_state ex_approved) (at_second 1010)
      "dev" (ex_fresh "7") p raw d2 (at_second 1010) d2 now' f' r' d4 _ _ _ _ _ Hr _ Hm).
    - vm_compute. reflexivity.
    - apply ex_runs. vm_compute. reflexivity.
    - vm_compute. discriminate.
    - apply ids_fresh_ok. vm_compute. reflexivity.
    - apply family_fresh_ok. vm_compute. reflexivity.
    - apply auth_here. }
  split; [|intros r' d4 Hm; by destruct (Hall _ _ _ _ Hm) as (_ & He & _)].
  destruct (ex_redeem 1020 "8" (mkSession d2 [])) as [r' [d4 fs]] eqn:Hagain.
  destruct (Hall (at_second 1020) (ex_fresh "8") r' d4) as [(g & s & Hg & _ & Hs & Ha & Hk & _) _]; [by exists [], fs|].
  exists s. split; [exact Hs|]. rewrite Ha, Hk.
  assert (option_map (fun g => (dg_AccountID g, dg_SessionPubkeySPKI g)) (device_grants (ex_state ex_approved) !! "dev") = Some ("u", ["d"%char]))
    as Hc by (vm_compute; reflexivity).
  rewrite Hg in Hc. cbn [option_map] in Hc. apply (inj Some), pair_equal_spec in Hc. exact Hc.
Defined.

(** *** A node *)

Definition ex_served : option (list RevocationEvent * bool * auth_tables) :=
  ex_result (serveRevocations ex_size ex_len (Checkpoint ex_node) maxRevocationPageEntries (at_second 1061)) (ex_state ex_revoked).

Lemma served_page_is_accepted_witness :
  exists evs more a', ex_served = Some (evs, more, a') /\ evs <> [] /\
    fetchPage (Checkpoint ex_node) (map wire evs) = Ok (map wire evs) /\
    exists n', ApplyPage (map wire evs) 1061 Committed ex_node = (Ok tt, n').
Proof.
  assert (match ex_served with Some (evs, _, _) => bool_decide (evs = []) | None => true end = false) as Hn by (vm_compute; reflexivity).
  destruct ex_served as [[[evs more] a']|] eqn:Hr; [|done].
  destruct (served_page_is_accepted ex_size ex_len "k" ex_Sign (at_second 999) (ex_time ex_revoked) (ex_state ex_revoked) ex_node
    (at_second 1061) evs more a' 1061) as (Hf & _ & Hap).
  - vm_compute. reflexivity.
  - apply (feed_of_auth (at_second 999)), ex_runs. vm_compute. reflexivity.
  - vm_compute. discriminate.
  - apply ex_outcome. exact Hr.
  - exists evs, more, a'. split; [reflexivity|]. split; [by apply bool_decide_eq_false in Hn|]. split; [exact Hf|].
    destruct Hap as (n' & Hn' & _); [reflexivity..|]. by exists n'.
Defined.

Lemma revocation_reaches_the_node_witness :
  exists n1, IsRevoked n1 1062 "cp3" "u" 1020 = true /\ IsRevoked ex_node 1062 "cp3" "u" 1020 = false.
Proof.
  assert (match ex_served with Some (evs, more, _) =>
      negb more && match ApplyPage (map wire evs) 1061 Committed ex_node with (Ok _, _) => true | _ => false end
    | None => false end = true) as Hn by (vm_compute; reflexivity).
  destruct ex_served as [[[evs more] a']|] eqn:Hr; [|done]. apply andb_true_iff in Hn as [Hmore Hap].
  apply negb_true_iff in Hmore as ->. destruct (ApplyPage (map wire evs) 1061 Committed ex_node) as [[|[]] n1] eqn:Hn1; [done|].
  exists n1. split; [|vm_compute; reflexivity].
  refine (revocation_reaches_the_node ex_size ex_len "k" ex_Sign (at_second 999) (ex_time ex_revoked) (ex_state ex_revoked) ex_node
    (at_second 1061) evs a' (at_second 1062) 1061 Committed n1 1062 n1 (sha256Hex "r3") (ex_row "r3" ex_revoked) "cp3" _ _ _ _ _ _ _ _ _ Hn1 _ _).
  - vm_compute. reflexivity.
  - apply (feed_of_auth (at_second 999)), ex_runs. vm_compute. reflexivity.
  - vm_compute. discriminate.
  - apply ex_row_ok. vm_compute. reflexivity.
  - vm_compute. reflexivity.
  - vm_compute. left.
  - apply ex_outcome. exact Hr.
  - vm_compute. discriminate.
  - vm_compute. discriminate.
  - replace (unix (at_second 1062)) with 1062 by (vm_compute; reflexivity). apply store_here.
  - vm_compute. reflexivity.
Defined.

Lemma poll_catches_up_witness :
  exists a' n', pollOnce ex_size ex_len 3 (at_second 1061) (ex_state ex_revoked) ex_node = Some (true, a', n') /\
    IsRevoked n' 1061 "cp3" "u" 1020 = true.
Proof.
  destruct (poll_catches_up ex_size ex_len "k" ex_Sign (at_second 999) (ex_time ex_revoked) (ex_state ex_revoked) ex_node (at_second 1061) 3)
    as (a' & n' & Hp & _ & Hrev).
  - exact ex_fits.
  - exact ex_entries_fit.
  - vm_compute. reflexivity.
  - apply (feed_of_auth (at_second 999)), ex_runs. vm_compute. reflexivity.
  - vm_compute. discriminate.
  - reflexivity.
  - reflexivity.
  - apply Nat.ltb_lt. vm_compute. reflexivity.
  - exists a', n'. split; [exact Hp|].
    refine (Hrev (sha256Hex "r3") (ex_row "r3" ex_revoked) "cp3" _ _ _ _).
    + apply ex_row_ok. vm_compute. reflexivity.
    + vm_compute. reflexivity.
    + vm_compute. left.
    + vm_compute. reflexivity.
Defined.
