(* ===== verification/AcpMux.v ===== *)
(** * The in-container ACP multiplexer (src/internal/acpmux/acpmux.go)

    One upstream agent session, any number of downstream clients.  [Mux] is the state behind
    [m.mu].  As in Pump.v, a Go method is a sequence of critical sections with unlocked work
    between them: each definition below is one critical section, and returns the state with the
    work its goroutine still has to do as a list of [action]s that AcpMux.v interleaves.

    A client is known by its id, which is never reused; its Go pointer is its key in [heap].  JSON
    is decoded by the operations of the class [AcpJson]; what is written is kept as a term, one
    constructor per message the code builds. *)

From Stdlib Require Import Ascii.
From S2P Require Import Prelude GoLib.
(** ** Messages (src/internal/acp/codec.go) *)

(** The JSON text of a request id. *)
Abbreviation RawID := string.

Definition AsInt (r : option RawID) : option Z :=
  match r with
  | None => None
  | Some s => let '(n, ok) := Atoi (TrimSpace s) in if ok then Some n else None
  end.
(** [IntID] *)
Definition IntID (n : Z) : RawID := Itoa n.

Record Message := mkMessage {
  ID : option RawID; Method : string; Params : string; Result : option string; mError : option string }.

(** [json.Unmarshal] into the structs of the code; [None] for an error. *)
Class AcpJson := {
  (** the (type, text) pairs of a prompt *)
  decode_prompt : string -> option (list (string * string));
  (** the outcome and the option id of a permission answer *)
  decode_outcome : string -> option (string * string);
  decode_mode : string -> option string;
  (** the options and the tool title of a permission request, empty when absent *)
  decode_permission : string -> string * string;
  (** the (optionId, kind) pairs of an options array *)
  decode_options : string -> list (string * string);
  (** the session id and the modes of a session/new result *)
  decode_session : string -> option (string * string)
}.

(** What is sent downstream. *)
Inductive Body :=
| Raw (json : string)
| Session (sid modes : string)
| StopReason (reason : string).
Inductive OutMsg :=
| OUpdate (params : string)
| OResult (id : RawID) (body : Body)
| OPermission (id : RawID) (params : string).
#[export] Instance Body_dec : EqDecision Body.
Proof. solve_decision. Defined.
#[export] Instance OutMsg_dec : EqDecision OutMsg.
Proof. solve_decision. Defined.

(** What is written to the agent's stdin. *)
Inductive AgentLine :=
| LCall (id : Z) (method : string)
| LPrompt (id : Z) (sid text : string)
| LCancel (sid : string)
| LSetMode (id : Z) (sid modeID : string)
| LPermission (upstreamID : Z) (optionID : string).

(** ** State *)

Definition defaultMaxLog : Z := 2000.
Definition maxQueued : Z := 50.

(** [target]: the client a targeted item is for, [None] for a broadcast. *)
Record logItem := mkItem { iseq : Z; raw : OutMsg; target : option string }.

Record pendingPerm := mkPerm { upstreamID : Z; options : string; title : string; ptimer : Z }.

Record queuedPrompt := mkPrompt { clientID : string; clientReq : RawID; text : string }.

(** [notify] is a channel with a buffer of one, [cdone] a channel that is closed once. *)
Record dsClient := mkClient { cursor : Z; notify : bool; cdone : bool; hasSession : bool }.
#[export] Instance eta_dsClient : Eta dsClient := fun c =>
  mkClient (cursor c) (notify c) (cdone c) (hasSession c).

Record Mux := mkMux {
  log : list logItem;
  base : Z;
  seq : Z;
  maxLog : Z;
  clients : gset string;
  heap : gmap string dsClient;
  stopped : bool;
  sessionID : string;
  initResult : option string;
  newModes : string;
  toAgent : list AgentLine;
  waiters : gmap Z (option Message);
  nextID : Z;
  busy : bool;
  queue : list queuedPrompt;
  inflightPromptID : Z;
  inflightClient : string;
  inflightReq : option RawID;
  inflightHasClient : bool;
  pending : gmap string pendingPerm;
  timers : gmap Z string;
  clientSeq : Z
}.
#[export] Instance eta_Mux : Eta Mux := fun m =>
  mkMux (log m) (base m) (seq m) (maxLog m) (clients m) (heap m) (stopped m) (sessionID m)
    (initResult m) (newModes m) (toAgent m) (waiters m) (nextID m) (busy m) (queue m)
    (inflightPromptID m) (inflightClient m) (inflightReq m) (inflightHasClient m) (pending m)
    (timers m) (clientSeq m).

Definition New : Mux :=
  mkMux [] 0 0 defaultMaxLog ∅ ∅ false "" None "" [] ∅ 0 false [] 0 "" None false ∅ ∅ 0.

(** The work a goroutine still has to do. *)
Inductive action :=
| DoAppend (tgt : option string) (msg : OutMsg)
| DoSendPrompt (sid : string) (q : queuedPrompt)
| DoSendLine (line : AgentLine)
| DoTurnEnd (failed : bool)
| DoWrite (c : string) (msg : OutMsg)
| DoWake (c : string)
| DoResolve (reqID : string).

(** ** The replay log *)

Definition wake (c : string) (m : Mux) : Mux :=
  m <| heap ::= alter (fun cl => cl <| notify := true |>) c |>.
Definition wake_all (m : Mux) : Mux :=
  m <| heap ::= map_imap (fun c cl =>
         Some (if bool_decide (c ∈ clients m) then cl <| notify := true |> else cl)) |>.

Definition appendItem (tgt : option string) (msg : OutMsg) (m : Mux) : Mux :=
  let m := m <| seq ::= Z.add 1 |> in
  let l := log m ++ [mkItem (seq m) msg tgt] in
  let over := Z.of_nat (length l) - maxLog m in
  wake_all (if 0 <? over
            then m <| base ::= Z.add over |> <| log := drop (Z.to_nat over) l |>
            else m <| log := l |>).

(** What a client is sent of an item. *)
Definition for_client (c : string) (it : logItem) : option OutMsg :=
  if is_none (target it) || opt_eqb (target it) c then Some (raw it) else None.

(** The critical section of [clientReplayLoop]: the next batch, [None] without a session. *)
Definition catch_up (c : string) (m : Mux) : option (list OutMsg) * Mux :=
  match heap m !! c with
  | None => (None, m)
  | Some cl =>
    if negb (hasSession cl) then (None, m)
    else
      let cur := if cursor cl <? base m then base m else cursor cl in
      if cur <? seq m
      then (Some (omap (for_client c) (drop (Z.to_nat (cur - base m)) (log m))),
            m <| heap ::= <[c := cl <| cursor := seq m |>]> |>)
      else (Some [], m <| heap ::= <[c := cl <| cursor := cur |>]> |>)
  end.

(** ** Prompts and turns *)

Definition sendPrompt (sid : string) (q : queuedPrompt) (hasClient : bool) (m : Mux) : Mux * list action :=
  let id := nextID m + 1 in
  (m <| nextID := id |> <| inflightPromptID := id |> <| inflightClient := clientID q |>
     <| inflightReq := Some (clientReq q) |> <| inflightHasClient := hasClient |>,
   [DoSendLine (LPrompt id sid (text q))]).

Definition appendResultFor (c : string) (req : RawID) (reason : string) : action :=
  DoAppend (Some c) (OResult req (StopReason reason)).

(** A turn in flight with a client always has that client's request id. *)
Definition handleTurnEnd (failed : bool) (m : Mux) : Mux * list action :=
  let endedClient := inflightClient m in
  let endedReq := inflightReq m in
  let endedHasClient := inflightHasClient m in
  let m := m <| busy := false |> <| inflightPromptID := 0 |> <| inflightClient := "" |>
             <| inflightReq := None |> <| inflightHasClient := false |> in
  let '(m, next) :=
    match queue m with
    | next :: q => (m <| queue := q |> <| busy := true |>, [DoSendPrompt (sessionID m) next])
    | [] => (m, [])
    end in
  let answer :=
    match endedReq with
    | Some req =>
        if endedHasClient && bool_decide (endedClient ∈ clients m)
        then [appendResultFor endedClient req (if failed then "refusal" else "end_turn")] else []
    | None => []
    end in
  (m, answer ++ next).

Definition fromClientPrompt (c : string) (req : RawID) (txt : string) (m : Mux) : Mux * list action :=
  let q := mkPrompt c req txt in
  if negb (busy m) then (m <| busy := true |>, [DoSendPrompt (sessionID m) q])
  else if Z.of_nat (length (queue m)) <? maxQueued then (m <| queue ::= fun l => l ++ [q] |>, [])
  else (m, [appendResultFor c req "refusal"]).

(** ** Permissions *)

Definition selectedOptionID `{AcpJson} (result : string) : string :=
  match decode_outcome result with
  | Some (outcome, opt) => if String.eqb outcome "selected" then opt else ""
  | None => ""
  end.

Definition rejectOptionID `{AcpJson} (opts : string) : string :=
  let l := decode_options opts in
  match List.find (fun o => Contains (snd o) "reject" || Contains (snd o) "deny") l with
  | Some o => fst o
  | None => match l with o :: _ => fst o | [] => "" end
  end.

Definition resolvePermission `{AcpJson} (reqID optID : string) (m : Mux) : Mux * list action :=
  match pending m !! reqID with
  | None => (m, [])
  | Some pp =>
    let optID := if String.eqb optID "" then rejectOptionID (options pp) else optID in
    (m <| pending ::= delete reqID |> <| timers ::= delete (ptimer pp) |>,
     [DoSendLine (LPermission (upstreamID pp) optID)])
  end.

(** [t] is the fresh timer; the clients are written to in the order of the map's range, [order]. *)
Definition onPermissionRequest `{AcpJson} (id : RawID) (params : string) (t : Z) (order : list string)
    (m : Mux) : Mux * list action :=
  match AsInt (Some id) with
  | None => (m, [])
  | Some upID =>
    let reqID := Itoa upID in
    let '(opts, ttl) := decode_permission params in
    let ttl := if String.eqb ttl "" then "permission requested" else ttl in
    if stopped m then (m, [])
    else (m <| pending ::= <[reqID := mkPerm upID opts ttl t]> |> <| timers ::= <[t := reqID]> |>,
          (fun c => DoWrite c (OPermission id params)) <$> order)
  end.

(** The timer runs [resolvePermission] in a goroutine of its own: once it has fired, stopping it
    is too late. *)
Definition timerFires (t : Z) (m : Mux) : Mux * list action :=
  match timers m !! t with
  | None => (m, [])
  | Some reqID => (m <| timers ::= delete t |>, [DoResolve reqID])
  end.

Definition onClientPermResponse `{AcpJson} (id : Z) (result : string) (m : Mux) : Mux * list action :=
  resolvePermission (Itoa id) (selectedOptionID result) m.

(** ** The upstream reader *)

Definition onUpstreamNotification (msg : Message) : list action :=
  if String.eqb (Method msg) "session/update" then [DoAppend None (OUpdate (Params msg))] else [].

(** One message of [readLoop]. *)
Definition onAgent `{AcpJson} (msg : Message) (t : Z) (order : list string) (m : Mux) : Mux * list action :=
  match AsInt (ID msg), negb (is_none (Result msg)) || negb (is_none (mError msg)) with
  | Some idn, true =>
    match waiters m !! idn with
    | Some _ => (m <| waiters ::= <[idn := Some msg]> |>, [])
    | None =>
      if negb (inflightPromptID m =? 0) && (idn =? inflightPromptID m)
      then (m, [DoTurnEnd (negb (is_none (mError msg)))]) else (m, [])
    end
  | _, _ =>
    match ID msg with
    | Some id =>
      if String.eqb (Method msg) "session/request_permission"
      then onPermissionRequest id (Params msg) t order m
      else (m, onUpstreamNotification msg)
    | None => (m, onUpstreamNotification msg)
    end
  end.

(** ** Downstream clients *)

(** [handleClient] registers a client under a fresh id. *)
Definition nextClientID (m : Mux) : string := "c" +:+ Itoa (clientSeq m + 1).
Definition registerClient (m : Mux) : Mux :=
  let id := nextClientID m in
  m <| clientSeq ::= Z.add 1 |> <| heap ::= <[id := mkClient (base m) false false false]> |>
    <| clients ::= union {[id]} |>.
(** The deferred cleanup of [handleClient]. *)
Definition unregisterClient (c : string) (m : Mux) : Mux :=
  if bool_decide (c ∈ clients m)
  then m <| clients ::= fun s => s ∖ {[c]} |> <| heap ::= alter (fun cl => cl <| cdone := true |>) c |>
  else m.

Definition promptText `{AcpJson} (params : string) : string :=
  match decode_prompt params with
  | None => ""
  | Some l => foldl (fun out b => if String.eqb (fst b) "text" then out +:+ snd b else out) "" l
  end.

Definition forwardCancel (m : Mux) : Mux * list action := (m, [DoSendLine (LCancel (sessionID m))]).

Definition forwardSetMode `{AcpJson} (params : string) (m : Mux) : Mux * list action :=
  match decode_mode params with
  | None => (m, [])
  | Some mode =>
    if String.eqb mode "" then (m, [])
    else let id := nextID m + 1 in
         (m <| nextID := id |>, [DoSendLine (LSetMode id (sessionID m) mode)])
  end.

(** A response is written by the client's own goroutine, outside the log. *)
Definition respondToClient (c : string) (id : option RawID) (b : Body) : list action :=
  match id with Some id => [DoWrite c (OResult id b)] | None => [] end.

(** The JSON text of the code, without its quotes. *)
Definition defaultInit : string := "{protocolVersion:1,agentCapabilities:{}}".

Definition onClientMessage `{AcpJson} (c : string) (msg : Message) (m : Mux) : Mux * list action :=
  match AsInt (ID msg), String.eqb (Method msg) "" && (negb (is_none (Result msg)) || negb (is_none (mError msg))) with
  | Some idn, true => onClientPermResponse idn (default "" (Result msg)) m
  | _, _ =>
    if String.eqb (Method msg) "initialize"
    then (m, respondToClient c (ID msg) (Raw (default defaultInit (initResult m))))
    else if String.eqb (Method msg) "session/new" || String.eqb (Method msg) "session/load"
    then (m <| heap ::= alter (fun cl => cl <| hasSession := true |>) c |>,
          respondToClient c (ID msg) (Session (sessionID m) (newModes m)) ++ [DoWake c])
    else if String.eqb (Method msg) "session/prompt"
    then match ID msg with
         | Some id => fromClientPrompt c id (promptText (Params msg)) m
         | None => (m, [])
         end
    else if String.eqb (Method msg) "session/set_mode" then forwardSetMode (Params msg) m
    else if String.eqb (Method msg) "session/cancel" then forwardCancel m
    else (m, [])
  end.

(** ** The handshake and the end *)

(** [call] registers its waiter before sending. *)
Definition call (method : string) (m : Mux) : Mux * list action :=
  let id := nextID m + 1 in
  (m <| nextID := id |> <| waiters ::= <[id := None]> |>, [DoSendLine (LCall id method)]).
Definition forget_waiter (id : Z) (m : Mux) : Mux := m <| waiters ::= delete id |>.

(** [Start], after [initialize] and after [session/new]. *)
Definition start_init (init : string) (m : Mux) : Mux := m <| initResult := Some init |>.
Definition start_session `{AcpJson} (res : string) (m : Mux) : option Mux :=
  match decode_session res with
  | None => None
  | Some (sid, modes) =>
    if String.eqb sid "" then None
    else
      let m := m <| sessionID := sid |> in
      Some (if String.eqb modes "" then m else m <| newModes := modes |>)
  end.

Definition Stop (m : Mux) : Mux :=
  if stopped m then m
  else m <| stopped := true |>
         <| heap ::= map_imap (fun c cl =>
              Some (if bool_decide (c ∈ clients m) then cl <| cdone := true |> else cl)) |>
         <| clients := ∅ |> <| pending := ∅ |> <| timers := ∅ |>.

(** * The multiplexer in motion

    The goroutines that work on one [Mux]: the reader of the agent's stdout, one read loop per
    client, the fired permission timers, the handshake's caller, one replay loop per client.  A
    thread is the list of actions its goroutine has still to do; the reader and the read loops
    take their next message only when they have done the last one's.  The other fields only
    record what happened.  Taken from the messages that came in: [said], the updates and the ends
    of turns the agent sent, [asked], the prompts, those there was room for ([accepted]) and the
    others ([refused]), and [opened], the requests that open a connection or a session.  Taken from
    what was done: [hist], the items ever logged with the thread that logged them, [upstream], the
    updates that came and the turns that were ended, [started], the prompts sent, [sent], what each
    replay loop wrote, [written], what the other goroutines wrote to each client, and [lost], the
    clients whose replay skipped trimmed items. *)

Inductive tid := TReader | TClient (c : string) | TOther (n : Z).
#[export] Instance tid_dec : EqDecision tid.
Proof. solve_decision. Defined.
#[export] Instance tid_countable : Countable tid.
Proof.
  refine (inj_countable'
    (fun t => match t with TReader => inl (inl tt) | TClient c => inl (inr c) | TOther n => inr n end)
    (fun x => match x with inl (inl _) => TReader | inl (inr c) => TClient c | inr n => TOther n end) _).
  by intros [].
Defined.

(** Who asked, under which request id. *)
Definition key (q : queuedPrompt) : string * RawID := (clientID q, clientReq q).

(** What the agent says of the conversation. *)
Inductive Saying :=
| SUpdate (params : string)
| SEnd (failed : bool).

(** What became of it: an update came, or the turn of a prompt was ended, [answered] when its
    client was still there. *)
Inductive UpEvent :=
| UUpdate (params : string)
| UEnd (k : string * RawID) (failed answered : bool).

Inductive loopPC :=
| LoopWait
| LoopCheck
| LoopSend (l : list OutMsg)
| LoopExit.

Record System := mkSystem {
  mux : Mux;
  threads : gmap tid (list action);
  loops : gmap string loopPC;
  hist : list (tid * logItem);
  upstream : list UpEvent;
  asked : list queuedPrompt;
  accepted : list queuedPrompt;
  refused : list queuedPrompt;
  started : list queuedPrompt;
  sent : gmap string (list OutMsg);
  lost : gset string;
  said : list Saying;
  opened : list (string * RawID);
  written : gmap string (list OutMsg)
}.
#[export] Instance eta_System : Eta System := fun s =>
  mkSystem (mux s) (threads s) (loops s) (hist s) (upstream s) (asked s) (accepted s) (refused s)
    (started s) (sent s) (lost s) (said s) (opened s) (written s).

Definition new_system : System := mkSystem New {[TReader := []]} ∅ [] [] [] [] [] [] ∅ ∅ [] [] ∅.

Section Steps.
Context `{AcpJson}.

(** Run a critical section and leave its follow-up to thread [t], before what it still had. *)
Definition then_do (t : tid) (rest : list action) (ma : Mux * list action) (s : System) : System :=
  s <| mux := ma.1 |> <| threads ::= <[t := ma.2 ++ rest]> |>.

(** Whose turn is in flight. *)
Definition current (m : Mux) : string * RawID := (inflightClient m, default "" (inflightReq m)).

Definition is_answered (m : Mux) : bool :=
  inflightHasClient m && bool_decide (inflightClient m ∈ clients m).

(** One action of a thread. *)
Definition perform (t : tid) (a : action) (rest : list action) (s : System) : System :=
  match a with
  | DoAppend tgt msg =>
      then_do t rest (appendItem tgt msg (mux s), []) s
        <| hist ::= (fun h => h ++ [(t, mkItem (seq (mux s) + 1) msg tgt)]) |>
  | DoSendPrompt sid q =>
      then_do t rest (sendPrompt sid q true (mux s)) s <| started ::= (fun l => l ++ [q]) |>
  | DoSendLine line => then_do t rest ((mux s) <| toAgent ::= (fun l => l ++ [line]) |>, []) s
  | DoTurnEnd failed =>
      then_do t rest (handleTurnEnd failed (mux s)) s
        <| upstream ::= (fun l => l ++ [UEnd (current (mux s)) failed (is_answered (mux s))]) |>
  | DoWrite c msg =>
      then_do t rest (mux s, []) s <| written ::= (fun w => <[c := default [] (w !! c) ++ [msg]]> w) |>
  | DoWake c => then_do t rest (wake c (mux s), []) s
  | DoResolve reqID => then_do t rest (resolvePermission reqID "" (mux s)) s
  end.

(** A line is dropped only once the multiplexer has stopped ([sendLine] sees [writerDone]). *)
Definition drop_line (t : tid) (rest : list action) (s : System) : System :=
  s <| threads ::= <[t := rest]> |>.

Definition set_loop (c : string) (pc : loopPC) (s : System) : System := s <| loops ::= <[c := pc]> |>.

(** The replay skips items that were trimmed. *)
Definition skips (c : string) (m : Mux) : bool :=
  match heap m !! c with Some cl => hasSession cl && (cursor cl <? base m) | None => false end.

Inductive loop_step (c : string) (s : System) : System -> Prop :=
| loop_done cl :
    loops s !! c = Some LoopWait -> heap (mux s) !! c = Some cl -> cdone cl = true ->
    loop_step c s (set_loop c LoopExit s)
| loop_wake cl :
    loops s !! c = Some LoopWait -> heap (mux s) !! c = Some cl -> notify cl = true ->
    loop_step c s (set_loop c LoopCheck
      (s <| mux := (mux s) <| heap ::= <[c := cl <| notify := false |>]> |> |>))
| loop_check batch m :
    loops s !! c = Some LoopCheck -> catch_up c (mux s) = (batch, m) ->
    loop_step c s (set_loop c (match default [] batch with [] => LoopWait | l => LoopSend l end)
      (s <| mux := m |> <| lost ::= (fun l => if skips c (mux s) then {[c]} ∪ l else l) |>))
| loop_send msg l :
    loops s !! c = Some (LoopSend (msg :: l)) ->
    loop_step c s (set_loop c (LoopSend l) (s <| sent ::= <[c := default [] (sent s !! c) ++ [msg]]> |>))
| loop_fail msg l :
    loops s !! c = Some (LoopSend (msg :: l)) -> loop_step c s (set_loop c LoopExit s)
| loop_again : loops s !! c = Some (LoopSend []) -> loop_step c s (set_loop c LoopCheck s).

(** The prompt a client's message asks for. *)
Definition prompt_in (c : string) (msg : Message) : option queuedPrompt :=
  if String.eqb (Method msg) "session/prompt"
  then match ID msg with Some id => Some (mkPrompt c id (promptText (Params msg))) | None => None end
  else None.
Definition has_room (m : Mux) : bool := negb (busy m) || (Z.of_nat (length (queue m)) <? maxQueued).

Definition note_prompt (o : option queuedPrompt) (room : bool) (s : System) : System :=
  match o with
  | None => s
  | Some q =>
    let s := s <| asked ::= (fun l => l ++ [q]) |> in
    if room then s <| accepted ::= (fun l => l ++ [q]) |> else s <| refused ::= (fun l => l ++ [q]) |>
  end.

(** The request that opens a connection or a session in a client's message. *)
Definition opening_in (c : string) (msg : Message) : option (string * RawID) :=
  match ID msg with
  | Some id =>
      if bool_decide (Method msg ∈ ["initialize"; "session/new"; "session/load"]) then Some (c, id) else None
  | None => None
  end.
Definition note_opening (o : option (string * RawID)) (s : System) : System :=
  s <| opened ::= (fun l => l ++ option_list o) |>.

(** What the agent's message says: the end of the turn in flight, in a response nothing else waits
    for, or an update. *)
Definition said_in (m : Mux) (msg : Message) : option Saying :=
  match AsInt (ID msg), negb (is_none (Result msg)) || negb (is_none (mError msg)) with
  | Some id, true =>
      if bool_decide (id = inflightPromptID m /\ id <> 0 /\ waiters m !! id = None)
      then Some (SEnd (negb (is_none (mError msg)))) else None
  | _, _ => if bool_decide (Method msg = "session/update") then Some (SUpdate (Params msg)) else None
  end.
Definition note_saying (o : option Saying) (s : System) : System :=
  match o with
  | None => s
  | Some (SEnd failed) => s <| said ::= (fun l => l ++ [SEnd failed]) |>
  | Some (SUpdate params) =>
      s <| said ::= (fun l => l ++ [SUpdate params]) |> <| upstream ::= (fun l => l ++ [UUpdate params]) |>
  end.

Inductive step (s : System) : System -> Prop :=
| step_perform t a rest : threads s !! t = Some (a :: rest) -> step s (perform t a rest s)
| step_drop t line rest :
    threads s !! t = Some (DoSendLine line :: rest) -> stopped (mux s) = true -> step s (drop_line t rest s)
| step_loop c s' : loop_step c s s' -> step s s'
| step_agent msg t order :
    threads s !! TReader = Some [] -> timers (mux s) !! t = None -> order ≡ₚ elements (clients (mux s)) ->
    (forall id m, AsInt (ID msg) = Some id -> waiters (mux s) !! id <> Some (Some m)) ->
    let ma := onAgent msg t order (mux s) in
    step s (note_saying (said_in (mux s) msg) (then_do TReader [] ma s))
| step_connect :
    let c := nextClientID (mux s) in
    step s (s <| mux ::= registerClient |> <| threads ::= <[TClient c := []]> |> <| loops ::= <[c := LoopWait]> |>)
| step_client c msg :
    threads s !! TClient c = Some [] ->
    step s (note_opening (opening_in c msg) (note_prompt (prompt_in c msg) (has_room (mux s))
              (then_do (TClient c) [] (onClientMessage c msg (mux s)) s)))
| step_disconnect c :
    threads s !! TClient c = Some [] ->
    step s (s <| mux ::= unregisterClient c |> <| threads ::= delete (TClient c) |>)
| step_timer n t :
    threads s !! TOther n = None -> step s (then_do (TOther n) [] (timerFires t (mux s)) s)
| step_call n method :
    threads s !! TOther n = None -> step s (then_do (TOther n) [] (call method (mux s)) s)
| step_called id : step s (s <| mux ::= forget_waiter id |>)
| step_init init : step s (s <| mux ::= start_init init |>)
| step_session res m : start_session res (mux s) = Some m -> step s (s <| mux := m |>)
| step_stop : step s (s <| mux ::= Stop |>).

Inductive reachable : System -> Prop :=
| reach_new : reachable new_system
| reach_step s s' : reachable s -> step s s' -> reachable s'.
End Steps.
