(* ===== verification/AcpMuxLaws.v ===== *)
(** * The multiplexer's steps, by what they touch

    Most steps leave the log, the clients and the turns alone ([calm]) and start nothing that
    touches them ([quiet]).  [mstep] sorts the steps of AcpMux.v by their effect on those;
    the invariants are proved on it. *)

From S2P Require Import Prelude GoLib AcpMux.
#[global] Arguments appendItem : simpl never.
#[global] Arguments handleTurnEnd : simpl never.
#[global] Arguments fromClientPrompt : simpl never.

Record calm (m m' : Mux) : Prop := {
  c_log : log m' = log m; c_base : base m' = base m; c_seq : seq m' = seq m; c_max : maxLog m' = maxLog m;
  c_clients : clients m' = clients m; c_heap : heap m' = heap m; c_cseq : clientSeq m' = clientSeq m;
  c_busy : busy m' = busy m; c_queue : queue m' = queue m;
  c_id : inflightPromptID m' = inflightPromptID m; c_client : inflightClient m' = inflightClient m;
  c_req : inflightReq m' = inflightReq m; c_has : inflightHasClient m' = inflightHasClient m;
  c_next : nextID m <= nextID m'
}.

Lemma calm_refl m : calm m m.
Proof. by split. Qed.

(** Actions that touch neither the log nor the turns nor a client's wake-up. *)
Definition quiet (a : action) : bool :=
  match a with DoSendLine _ | DoWrite _ _ | DoResolve _ => true | _ => false end.

(** Thread [t] gives up a quiet action, or has nothing to do or does not exist yet, and goes on
    with [rest]. *)
Definition resumes (s : System) (t : tid) (rest : list action) : Prop :=
  (threads s !! t = None /\ rest = [] /\ exists n, t = TOther n) \/
  (threads s !! t = Some [] /\ rest = []) \/
  (exists a, threads s !! t = Some (a :: rest) /\ quiet a = true).

Record same_notes (s s' : System) : Prop := {
  n_hist : hist s' = hist s; n_up : upstream s' = upstream s; n_asked : asked s' = asked s;
  n_acc : accepted s' = accepted s; n_ref : refused s' = refused s; n_started : started s' = started s;
  n_sent : sent s' = sent s; n_lost : lost s' = lost s; n_loops : loops s' = loops s;
  n_said : said s' = said s
}.

Section Steps.
Context `{AcpJson}.

Inductive mstep (s : System) : System -> Prop :=
| m_calm s' t rest acts :
    resumes s t rest -> calm (mux s) (mux s') -> forallb quiet acts = true ->
    threads s' = <[t := acts ++ rest]> (threads s) -> same_notes s s' -> mstep s s'
| m_still s' :
    calm (mux s) (mux s') -> threads s' = threads s -> same_notes s s' -> mstep s s'
| m_append t tgt msg rest :
    threads s !! t = Some (DoAppend tgt msg :: rest) -> mstep s (perform t (DoAppend tgt msg) rest s)
| m_send t sid q rest :
    threads s !! t = Some (DoSendPrompt sid q :: rest) -> mstep s (perform t (DoSendPrompt sid q) rest s)
| m_end t failed rest :
    threads s !! t = Some (DoTurnEnd failed :: rest) -> mstep s (perform t (DoTurnEnd failed) rest s)
| m_wake t c rest :
    threads s !! t = Some (DoWake c :: rest) -> mstep s (perform t (DoWake c) rest s)
| m_update params :
    threads s !! TReader = Some [] ->
    mstep s (then_do TReader [] (mux s, [DoAppend None (OUpdate params)]) s
               <| said ::= (fun l => l ++ [SUpdate params]) |>
               <| upstream ::= (fun l => l ++ [UUpdate params]) |>)
| m_result failed :
    threads s !! TReader = Some [] -> inflightPromptID (mux s) <> 0 ->
    mstep s (then_do TReader [] (mux s, [DoTurnEnd failed]) s <| said ::= (fun l => l ++ [SEnd failed]) |>)
| m_prompt c req txt o :
    threads s !! TClient c = Some [] ->
    mstep s (note_opening o (note_prompt (Some (mkPrompt c req txt)) (has_room (mux s))
               (then_do (TClient c) [] (fromClientPrompt c req txt (mux s)) s)))
| m_session c acts o :
    threads s !! TClient c = Some [] -> forallb quiet acts = true ->
    mstep s (note_opening o (then_do (TClient c) []
      ((mux s) <| heap ::= alter (fun cl => cl <| hasSession := true |>) c |>, acts ++ [DoWake c]) s))
| m_connect :
    mstep s (s <| mux ::= registerClient |> <| threads ::= <[TClient (nextClientID (mux s)) := []]> |>
               <| loops ::= <[nextClientID (mux s) := LoopWait]> |>)
| m_disconnect c :
    threads s !! TClient c = Some [] ->
    mstep s (s <| mux ::= unregisterClient c |> <| threads ::= delete (TClient c) |>)
| m_stop : mstep s (s <| mux ::= Stop |>)
| m_loop c s' : loop_step c s s' -> mstep s s'.

Lemma resolve_calm reqID optID m m' acts :
  resolvePermission reqID optID m = (m', acts) -> calm m m' /\ forallb quiet acts = true.
Proof.
  unfold resolvePermission. destruct (pending m !! reqID); intros [= <- <-]; (split; [by split|done]).
Qed.

Lemma permission_calm id params t order m m' acts :
  onPermissionRequest id params t order m = (m', acts) -> calm m m' /\ forallb quiet acts = true.
Proof.
  unfold onPermissionRequest. destruct (AsInt _); [|intros [= <- <-]; split; [by split|done]].
  destruct (decode_permission params). destruct (stopped m); intros [= <- <-]; (split; [by split|]); [done|].
  by induction order.
Qed.

Lemma agent_cases msg t order m m' acts :
  onAgent msg t order m = (m', acts) ->
  match said_in m msg with
  | None => calm m m' /\ forallb quiet acts = true
  | Some (SUpdate params) => m' = m /\ acts = [DoAppend None (OUpdate params)]
  | Some (SEnd failed) => m' = m /\ acts = [DoTurnEnd failed] /\ inflightPromptID m <> 0
  end.
Proof.
  assert (forall m' acts, (m', acts) = (m, onUpstreamNotification msg) ->
    match (if bool_decide (Method msg = "session/update") then Some (SUpdate (Params msg)) else None) with
    | None => calm m m' /\ forallb quiet acts = true
    | Some (SUpdate params) => m' = m /\ acts = [DoAppend None (OUpdate params)]
    | Some (SEnd failed) => m' = m /\ acts = [DoTurnEnd failed] /\ inflightPromptID m <> 0
    end) as Hnotif.
  { intros m0 acts0 [= -> ->]. unfold onUpstreamNotification.
    destruct (String.eqb_spec (Method msg) "session/update") as [He|He].
    - by rewrite bool_decide_true.
    - rewrite bool_decide_false by done. by split; [apply calm_refl|]. }
  assert (forall m' acts, match ID msg with
    | Some id => if String.eqb (Method msg) "session/request_permission"
                 then onPermissionRequest id (Params msg) t order m else (m, onUpstreamNotification msg)
    | None => (m, onUpstreamNotification msg) end = (m', acts) ->
    match (if bool_decide (Method msg = "session/update") then Some (SUpdate (Params msg)) else None) with
    | None => calm m m' /\ forallb quiet acts = true
    | Some (SUpdate params) => m' = m /\ acts = [DoAppend None (OUpdate params)]
    | Some (SEnd failed) => m' = m /\ acts = [DoTurnEnd failed] /\ inflightPromptID m <> 0
    end) as Hrest.
  { intros m0 acts0. destruct (ID msg) as [id|]; [|by intros H1; apply Hnotif].
    destruct (String.eqb_spec (Method msg) "session/request_permission") as [He|_]; [|by intros H1; apply Hnotif].
    rewrite bool_decide_false by by rewrite He. apply permission_calm. }
  unfold onAgent, said_in. destruct (AsInt (ID msg)) as [idn|]; [|by apply Hrest].
  destruct (negb _ || negb _); [|by apply Hrest].
  destruct (waiters m !! idn).
  { intros [= <- <-]. rewrite bool_decide_false by naive_solver. by split; [split|]. }
  destruct (Z.eqb_spec (inflightPromptID m) 0) as [Hz|Hz]; simpl.
  { intros [= <- <-]. rewrite bool_decide_false by (intros (-> & ? & _); done). by split; [split|]. }
  destruct (Z.eqb_spec idn (inflightPromptID m)) as [->|Hne]; intros [= <- <-].
  - by rewrite bool_decide_true.
  - rewrite bool_decide_false by naive_solver. by split; [split|].
Qed.

Lemma client_cases c msg m :
  (exists req txt, prompt_in c msg = Some (mkPrompt c req txt) /\
     onClientMessage c msg m = fromClientPrompt c req txt m) \/
  prompt_in c msg = None /\
  ((exists acts, forallb quiet acts = true /\
     onClientMessage c msg m =
       (m <| heap ::= alter (fun cl => cl <| hasSession := true |>) c |>, acts ++ [DoWake c])) \/
   (calm m (onClientMessage c msg m).1 /\ forallb quiet (onClientMessage c msg m).2 = true)).
Proof.
  assert (forall id b, forallb quiet (respondToClient c id b) = true) as Hresp by (by intros []).
  unfold prompt_in, onClientMessage.
  destruct (AsInt (ID msg)) as [idn|] eqn:Hint,
    (String.eqb (Method msg) "" && (negb (is_none (Result msg)) || negb (is_none (mError msg)))) eqn:Hr.
  1: { right. apply andb_prop in Hr as [He%String.eqb_eq _]. rewrite He. split; [done|]. right.
       unfold onClientPermResponse. destruct (resolvePermission _ _ m) as [m' acts] eqn:Hres.
       by apply resolve_calm in Hres. }
  all: destruct (String.eqb_spec (Method msg) "session/prompt") as [->|_].
  all: simpl; try (destruct (ID msg) as [id|]; [left; by exists id, (promptText (Params msg))|];
    right; split; [done|]; right; split; [apply calm_refl|done]).
  all: right; split; [done|].
  all: destruct (String.eqb (Method msg) "initialize"); [right; split; [apply calm_refl|apply Hresp]|].
  all: destruct (String.eqb (Method msg) "session/new" || String.eqb (Method msg) "session/load");
    [left; eexists; by split; [apply Hresp|]|].
  all: right; destruct (String.eqb (Method msg) "session/set_mode");
    [|destruct (String.eqb (Method msg) "session/cancel"); (split; [apply calm_refl|done])].
  all: unfold forwardSetMode; destruct (decode_mode _) as [mode|]; [|split; [apply calm_refl|done]].
  all: destruct (String.eqb mode ""); (split; [|done]); [apply calm_refl|]; split; simpl; done || lia.
Qed.

Lemma step_mstep s s' : step s s' -> mstep s s'.
Proof.
  assert (forall t a rest ma, threads s !! t = Some (a :: rest) -> quiet a = true ->
    calm (mux s) ma.1 -> forallb quiet ma.2 = true -> mstep s (then_do t rest ma s)) as Hcalm.
  { intros t a rest ma Ht Ha Hm Hq. apply (m_calm s _ t rest ma.2); [|done..|by split].
    right; right. by exists a. }
  destruct 1 as [t a rest Ht|t line rest Ht Hst|c s' Hl|msg t order Ht Htm Hord Hw ma| |c msg Ht|c Ht|n t Ht
    |n method Ht|id|init|res m Hs| ].
  - destruct a.
    + by apply m_append.
    + by apply m_send.
    + eapply Hcalm; [done..|by split|done].
    + by apply m_end.
    + apply (m_calm s _ t rest []); [|by split|done|done|by split]. right; right. by eexists.
    + by apply m_wake.
    + simpl. destruct (resolvePermission _ _ _) as [m' acts] eqn:Hr.
      apply resolve_calm in Hr as [? ?]. by eapply Hcalm.
  - apply (m_calm s _ t rest []); [|by split|done|done|by split]. right; right. by eexists.
  - by apply m_loop with c.
  - destruct (onAgent _ _ _ _) as [m' acts] eqn:Ha. subst ma. simpl.
    apply agent_cases in Ha. destruct (said_in (mux s) msg) as [[params|failed]|].
    + destruct Ha as [-> ->]. by apply m_update.
    + destruct Ha as (-> & -> & Hi). by apply m_result.
    + destruct Ha as [Hc Hq]. apply (m_calm s _ TReader [] acts); [|done..|by split]. right; left; by split.
  - apply m_connect.
  - destruct (client_cases c msg (mux s)) as [(req & txt & -> & ->)|(-> & [(acts & Hq & ->)|[Hc Hq]])].
    + by apply m_prompt.
    + by apply m_session.
    + apply (m_calm s _ (TClient c) [] (onClientMessage c msg (mux s)).2); [|done..|by split]. right; left; by split.
  - by apply m_disconnect.
  - apply (m_calm s _ (TOther n) [] (timerFires t (mux s)).2); [|..|done|by split].
    + left. split_and!; [done..|by exists n].
    + unfold timerFires. simpl. destruct (timers (mux s) !! t); by split.
    + unfold timerFires. by destruct (timers (mux s) !! t).
  - apply (m_calm s _ (TOther n) [] (call method (mux s)).2); [|..|done|by split].
    + left. split_and!; [done..|by exists n].
    + split; simpl; done || lia.
    + done.
  - by apply m_still; [split|..|split].
  - by apply m_still; [split|..|split].
  - apply m_still; [|done|by split]. unfold start_session in Hs.
    destruct (decode_session res) as [[sid modes]|]; [|done].
    destruct (String.eqb sid ""); [done|]. injection Hs as <-. simpl.
    by destruct (String.eqb modes ""); split.
  - apply m_stop.
Qed.

End Steps.

(** * The multiplexer's clients, turns and answers

    Client ids are fresh ([ids_inv]); while the multiplexer is busy, one thread is about to send
    the turn's prompt or its result is awaited ([turn_inv]); what a thread has logged and has
    still to log is what the agent said, or the refusals of its client's prompts ([out_inv]). *)

(** ** What a thread has still to do *)

Definition prompts_of (l : list action) : list queuedPrompt :=
  omap (fun a => match a with DoSendPrompt _ q => Some q | _ => None end) l.
Definition ends_of (l : list action) : list bool :=
  omap (fun a => match a with DoTurnEnd failed => Some failed | _ => None end) l.
Definition appends_of (l : list action) : list (option string * OutMsg) :=
  omap (fun a => match a with DoAppend tgt msg => Some (tgt, msg) | _ => None end) l.
Definition wakes_of (l : list action) : list string :=
  omap (fun a => match a with DoWake c => Some c | _ => None end) l.

Lemma quiet_nothing acts :
  forallb quiet acts = true ->
  prompts_of acts = [] /\ ends_of acts = [] /\ appends_of acts = [] /\ wakes_of acts = [].
Proof. induction acts as [|a l IH]; [done|]. simpl. intros [Ha Hl]%andb_prop. by destruct a; try apply IH. Qed.

Lemma mux_prompts_of_app l l' : prompts_of (l ++ l') = prompts_of l ++ prompts_of l'.
Proof. apply omap_app. Qed.
Lemma mux_ends_of_app l l' : ends_of (l ++ l') = ends_of l ++ ends_of l'.
Proof. apply omap_app. Qed.
Lemma appends_of_app l l' : appends_of (l ++ l') = appends_of l ++ appends_of l'.
Proof. apply omap_app. Qed.
Lemma wakes_of_app l l' : wakes_of (l ++ l') = wakes_of l ++ wakes_of l'.
Proof. apply omap_app. Qed.

(** The work a thread has left, [[]] when it does not exist. *)
Definition todo (s : System) (t : tid) : list action := default [] (threads s !! t).

Lemma todo_insert s s' t l t' :
  threads s' = <[t := l]> (threads s) -> todo s' t' = if decide (t = t') then l else todo s t'.
Proof.
  intros Ht. unfold todo. rewrite Ht.
  destruct (decide _) as [->|]; [by rewrite lookup_insert_eq|by rewrite lookup_insert_ne].
Qed.

Lemma resumes_todo s t rest :
  resumes s t rest ->
  prompts_of rest = prompts_of (todo s t) /\ ends_of rest = ends_of (todo s t) /\
  appends_of rest = appends_of (todo s t) /\ wakes_of rest = wakes_of (todo s t).
Proof.
  unfold todo. intros [(-> & -> & _)|[(-> & ->)|(a & -> & Ha)]]; [done..|]. by destruct a.
Qed.

(** ** Client ids *)

Record ids_inv (s : System) : Prop := {
  k_seq : 0 <= clientSeq (mux s);
  k_heap : forall c, is_Some (heap (mux s) !! c) ->
             exists k, c = "c" +:+ Itoa k /\ 1 <= k <= clientSeq (mux s);
  k_threads : forall c, is_Some (threads s !! TClient c) -> is_Some (heap (mux s) !! c);
  k_clients : forall c, c ∈ clients (mux s) -> is_Some (heap (mux s) !! c);
  k_loops : forall c, is_Some (loops s !! c) <-> is_Some (heap (mux s) !! c);
  k_asked : forall q, q ∈ asked s -> is_Some (heap (mux s) !! clientID q)
}.

Lemma ids_new : ids_inv new_system.
Proof.
  assert (forall A (c : string), ~ is_Some ((∅ : gmap string A) !! c)) as Hno.
  { intros A c. rewrite lookup_empty. by intros [? ?]. }
  split; simpl.
  - done.
  - intros c Hc. by apply Hno in Hc.
  - intros c [l Hl]. by apply lookup_singleton_Some in Hl as [? _].
  - set_solver.
  - intros c. split; intros Hc; by apply Hno in Hc.
  - set_solver.
Qed.

Lemma next_fresh s : ids_inv s -> heap (mux s) !! nextClientID (mux s) = None.
Proof.
  intros [Hs Hh _ _ _ _]. destruct (heap (mux s) !! _) eqn:He; [|done]. exfalso.
  destruct (Hh (nextClientID (mux s))) as (k & Hk & Hle); [by eexists|].
  apply (inj (String.app "c")), (inj Itoa) in Hk. lia.
Qed.
Lemma next_no_thread s : ids_inv s -> threads s !! TClient (nextClientID (mux s)) = None.
Proof.
  intros Hinv. pose proof (next_fresh s Hinv). destruct (threads s !! _) eqn:He; [|done].
  destruct (k_threads s Hinv (nextClientID (mux s))) as [? ?]; [by eexists|congruence].
Qed.

(** The heap only gains clients. *)
Lemma alter_known {A} (f : A -> A) (m : gmap string A) c c' : is_Some (alter f c m !! c') <-> is_Some (m !! c').
Proof.
  rewrite !is_Some_alt. destruct (decide (c = c')) as [->|Hne];
    [rewrite lookup_alter_eq; by destruct (m !! c')|by rewrite lookup_alter_ne].
Qed.
Lemma imap_known {A} (f : string -> A -> A) (m : gmap string A) c :
  is_Some (map_imap (fun k x => Some (f k x)) m !! c) <-> is_Some (m !! c).
Proof. rewrite map_lookup_imap, !is_Some_alt. by destruct (m !! c). Qed.

Lemma append_frame tgt msg m :
  let m' := appendItem tgt msg m in
  clients m' = clients m /\ clientSeq m' = clientSeq m /\ busy m' = busy m /\ queue m' = queue m /\
  inflightPromptID m' = inflightPromptID m /\ inflightClient m' = inflightClient m /\
  inflightReq m' = inflightReq m /\ inflightHasClient m' = inflightHasClient m /\ nextID m' = nextID m /\
  (forall c, heap m' !! c =
     (fun cl => if bool_decide (c ∈ clients m) then cl <| notify := true |> else cl) <$> heap m !! c).
Proof.
  unfold appendItem, wake_all. destruct (0 <? _); simpl; split_and!; try done;
    intros c; rewrite map_lookup_imap; by destruct (heap m !! c).
Qed.

(** The fields of the log and of the clients. *)
Definition same_log (m m' : Mux) : Prop :=
  log m' = log m /\ base m' = base m /\ seq m' = seq m /\ maxLog m' = maxLog m.
Definition same_clients (m m' : Mux) : Prop :=
  clients m' = clients m /\ heap m' = heap m /\ clientSeq m' = clientSeq m.

Lemma turn_end_frame failed m :
  same_log m (handleTurnEnd failed m).1 /\ same_clients m (handleTurnEnd failed m).1 /\
  nextID (handleTurnEnd failed m).1 = nextID m.
Proof. unfold handleTurnEnd. simpl. by destruct (queue m). Qed.
Lemma prompt_frame c req txt m :
  same_log m (fromClientPrompt c req txt m).1 /\ same_clients m (fromClientPrompt c req txt m).1 /\
  nextID (fromClientPrompt c req txt m).1 = nextID m.
Proof. unfold fromClientPrompt. destruct (negb _); [done|]. by destruct (_ <? _). Qed.

Section Invariants.
Context `{AcpJson}.

(** A step that only rewrites threads that exist, or starts an internal one. *)
Lemma ids_same s s' :
  ids_inv s -> clientSeq (mux s') = clientSeq (mux s) ->
  (forall c, is_Some (heap (mux s') !! c) <-> is_Some (heap (mux s) !! c)) ->
  (forall c, is_Some (threads s' !! TClient c) -> is_Some (threads s !! TClient c)) ->
  (forall c, c ∈ clients (mux s') -> c ∈ clients (mux s)) ->
  (forall c, is_Some (loops s' !! c) <-> is_Some (loops s !! c)) ->
  (forall q, q ∈ asked s' -> q ∈ asked s \/ is_Some (threads s !! TClient (clientID q))) ->
  ids_inv s'.
Proof.
  intros [H1 H2 H3 H4 H5 H6] Es Eh Et Ec El Ea. split.
  - by rewrite Es.
  - intros c. rewrite Eh, Es. apply H2.
  - intros c Hc. by apply Eh, H3, Et.
  - intros c Hc. by apply Eh, H4, Ec.
  - intros c. by rewrite El, Eh.
  - intros q Hq. apply Eh. by destruct (Ea q Hq); [apply H6|apply H3].
Qed.

Lemma thread_insert s t l (th : gmap tid (list action)) c :
  (is_Some (threads s !! t) \/ exists n, t = TOther n) -> th = <[t := l]> (threads s) ->
  is_Some (th !! TClient c) -> is_Some (threads s !! TClient c).
Proof.
  intros Ht -> [l' Hl]. apply lookup_insert_Some in Hl as [[-> _]|[_ Hl]]; [|by eexists].
  by destruct Ht as [?|[n ?]].
Qed.

Lemma resumes_exists s t rest : resumes s t rest -> is_Some (threads s !! t) \/ exists n, t = TOther n.
Proof. intros [(_ & _ & ?)|[(-> & _)|(a & -> & _)]]; [by right|left; by eexists..]. Qed.

Lemma ids_step s s' : mstep s s' -> ids_inv s -> ids_inv s'.
Proof.
  intros Hstep Hinv. destruct Hstep as [s' t rest acts Hr Hc Hq Ht Hn|s' Hc Ht Hn|t tgt msg rest Ht
    |t sid q rest Ht|t failed rest Ht|t c rest Ht|params Ht|failed Ht Hi|c req txt o Ht|c acts o Ht Hq| |c Ht| |c s' Hl].
  - apply (ids_same s); [done|apply Hc|intros c; by rewrite (c_heap _ _ Hc)| |intros c; by rewrite (c_clients _ _ Hc)
      |intros c; by rewrite (n_loops _ _ Hn)|intros q; rewrite (n_asked _ _ Hn); by left].
    intros c. by apply (thread_insert s t (acts ++ rest)), Ht; apply resumes_exists with rest.
  - apply (ids_same s); [done|apply Hc|intros c; by rewrite (c_heap _ _ Hc)|intros c; by rewrite Ht
      |intros c; by rewrite (c_clients _ _ Hc)|intros c; by rewrite (n_loops _ _ Hn)
      |intros q; rewrite (n_asked _ _ Hn); by left].
  - destruct (append_frame tgt msg (mux s)) as (Ec & Es & _ & _ & _ & _ & _ & _ & _ & Eh).
    apply (ids_same s); [done|exact Es| | | |done|by left].
    1: { intros c. change (is_Some (heap (appendItem tgt msg (mux s)) !! c) <-> is_Some (heap (mux s) !! c)).
         by rewrite Eh, fmap_is_Some. }
    2: { intros c. change (c ∈ clients (appendItem tgt msg (mux s)) -> c ∈ clients (mux s)). by rewrite Ec. }
    intros c. apply (thread_insert s t rest); [left; by eexists|done].
  - apply (ids_same s); simpl; try done; [|by left].
    intros c. eapply (thread_insert s t); [left; by eexists|done].
  - destruct (turn_end_frame failed (mux s)) as (_ & (Ec & Eh & Es) & _).
    apply (ids_same s); [done|exact Es| | | |done|by left].
    + intros c. change (is_Some (heap (handleTurnEnd failed (mux s)).1 !! c) <-> is_Some (heap (mux s) !! c)).
      by rewrite Eh.
    + intros c. eapply (thread_insert s t); [left; by eexists|done].
    + intros c. change (c ∈ clients (handleTurnEnd failed (mux s)).1 -> c ∈ clients (mux s)). by rewrite Ec.
  - apply (ids_same s); simpl; try done; [intros c'; apply alter_known| |by left].
    intros c'. eapply (thread_insert s t); [left; by eexists|done].
  - apply (ids_same s); simpl; try done; [|by left].
    intros c. eapply (thread_insert s TReader); [left; by eexists|done].
  - apply (ids_same s); simpl; try done; [|by left].
    intros c. eapply (thread_insert s TReader); [left; by eexists|done].
  - destruct (prompt_frame c req txt (mux s)) as (_ & (Ec & Eh & Es) & _).
    assert (forall s0, ids_inv s0 -> is_Some (heap (mux s0) !! c) ->
      ids_inv (note_opening o (note_prompt (Some (mkPrompt c req txt)) (has_room (mux s)) s0))) as Hnote.
    { intros s0 [H1 H2 H3 H4 H5 H6] Hk. unfold note_opening, note_prompt.
      destruct (has_room (mux s)); split; simpl; try done; set_solver. }
    apply Hnote.
    + apply (ids_same s); [done|exact Es| | | |done|by left].
      * intros c'. change (is_Some (heap (fromClientPrompt c req txt (mux s)).1 !! c') <-> is_Some (heap (mux s) !! c')).
        by rewrite Eh.
      * intros c'. eapply (thread_insert s (TClient c)); [left; by eexists|done].
      * intros c'. change (c' ∈ clients (fromClientPrompt c req txt (mux s)).1 -> c' ∈ clients (mux s)). by rewrite Ec.
    + change (is_Some (heap (fromClientPrompt c req txt (mux s)).1 !! c)). rewrite Eh.
      apply (k_threads s Hinv). by eexists.
  - apply (ids_same s); simpl; try done; [intros c'; apply alter_known| |by left].
    intros c'. eapply (thread_insert s (TClient c)); [left; by eexists|done].
  - pose proof (next_fresh s Hinv) as Hfresh. destruct Hinv as [H1 H2 H3 H4 H5 H6].
    unfold registerClient. split; simpl.
    + lia.
    + intros c [cl Hcl]. apply lookup_insert_Some in Hcl as [[<- _]|[_ Hcl]].
      * exists (clientSeq (mux s) + 1). split; [done|lia].
      * destruct (H2 c) as (k & ? & ?); [by eexists|]. exists k. split; [done|lia].
    + intros c [l Hl]. rewrite lookup_insert_is_Some. apply lookup_insert_Some in Hl as [[[= <-] _]|[_ Hl]]; [by left|].
      destruct (decide (nextClientID (mux s) = c)); [by left|right]. split; [done|]. apply H3. by eexists.
    + intros c Hc. rewrite lookup_insert_is_Some.
      destruct (decide (nextClientID (mux s) = c)); [by left|right]. split; [done|]. apply H4. set_solver.
    + intros c. rewrite !lookup_insert_is_Some. by rewrite H5.
    + intros q Hq. rewrite lookup_insert_is_Some.
      destruct (decide (nextClientID (mux s) = clientID q)); [by left|right; by auto].
  - apply (ids_same s); simpl; try done; unfold unregisterClient.
    + by destruct (bool_decide _).
    + intros c'. destruct (bool_decide _); [|done]. simpl. apply alter_known.
    + intros c' [l Hl]. apply lookup_delete_Some in Hl as [_ Hl]. by eexists.
    + intros c'. destruct (bool_decide _); [|done]. simpl. set_solver.
    + by left.
  - apply (ids_same s); simpl; try done; unfold Stop.
    + by destruct (stopped _).
    + intros c. destruct (stopped _); [done|]. 
      exact (imap_known (fun c cl => if bool_decide (c ∈ clients (mux s)) then cl <| cdone := true |> else cl) _ _).
    + intros c. destruct (stopped _); [done|]. simpl. set_solver.
    + by left.
  - assert (forall c' pc (m : gmap string loopPC), is_Some (m !! c) -> is_Some (<[c := pc]> m !! c') <-> is_Some (m !! c')) as Hins.
    { intros c' pc m Hm. rewrite lookup_insert_is_Some. destruct (decide (c = c')) as [->|]; tauto. }
    assert (forall c' cl cl', heap (mux s) !! c = Some cl' -> is_Some (<[c := cl]> (heap (mux s)) !! c') <-> is_Some (heap (mux s) !! c')) as Hheap.
    { intros c' cl cl' Hm. rewrite lookup_insert_is_Some. destruct (decide (c = c')) as [->|]; [|tauto].
      rewrite Hm. split; [by eexists|by left]. }
    destruct Hl as [cl Hl Hcl Hd|cl Hl Hcl Hn|batch m Hl Hc|msg l Hl|msg l Hl|Hl];
      (apply (ids_same s); simpl; [done|..|by left]); try done;
      try (intros c'; apply Hins; by eexists).
    + intros c'. by apply (Hheap _ _ cl).
    + unfold catch_up in Hc. destruct (heap (mux s) !! c); [|by injection Hc as _ <-].
      repeat case_match; by injection Hc as _ <-.
    + intros c'. unfold catch_up in Hc. destruct (heap (mux s) !! c) eqn:Hcl; [|by injection Hc as _ <-].
      repeat case_match; injection Hc as _ <-; try done; simpl; by eapply Hheap.
    + unfold catch_up in Hc. destruct (heap (mux s) !! c); [|by injection Hc as _ <-].
      repeat case_match; by injection Hc as _ <-.
Qed.
End Invariants.
