(* ===== verification/AcpMuxTranscript.v ===== *)
(** * The multiplexer's turns, and what answers them *)

From S2P Require Import Prelude GoLib AcpMux AcpMuxLaws.
(** ** One turn at a time, in order *)

Definition hand_in (hand : option (tid * queuedPrompt)) (t : tid) : list queuedPrompt :=
  match hand with Some (t', q) => if decide (t' = t) then [q] else [] | None => [] end.

(** Whose turns have ended, in order. *)
Definition ended (l : list UpEvent) : list (string * RawID) :=
  omap (fun e => match e with UEnd k _ _ => Some k | UUpdate _ => None end) l.

Definition in_flight (s : System) : Prop :=
  if decide (inflightPromptID (mux s) = 0) then key <$> started s = ended (upstream s)
  else exists l q, started s = l ++ [q] /\ key <$> l = ended (upstream s) /\
         inflightClient (mux s) = clientID q /\ inflightReq (mux s) = Some (clientReq q) /\
         inflightHasClient (mux s) = true.

Record turn_inv (hand : option (tid * queuedPrompt)) (s : System) : Prop := {
  t_hand : forall t, prompts_of (todo s t) = hand_in hand t;
  t_ends : forall t, ends_of (todo s t) = [] \/
     t = TReader /\ (exists f, ends_of (todo s t) = [f]) /\ inflightPromptID (mux s) <> 0;
  t_busy : if busy (mux s) then hand = None <-> inflightPromptID (mux s) <> 0
           else hand = None /\ inflightPromptID (mux s) = 0;
  t_fifo : accepted s = started s ++ option_list (snd <$> hand) ++ queue (mux s);
  t_cur : in_flight s;
  t_queue : Z.of_nat (length (queue (mux s))) <= maxQueued;
  t_strand : busy (mux s) = false -> queue (mux s) = [];
  t_next : 0 <= nextID (mux s);
  t_asked : asked s ≡ₚ accepted s ++ refused s
}.

Lemma mux_turn_new : turn_inv None new_system.
Proof.
  assert (forall t, todo new_system t = []) as Htodo.
  { intros t. unfold todo, new_system. simpl. destruct (decide (t = TReader)) as [->|Hne]; [done|].
    by rewrite lookup_singleton_ne. }
  split; try done; intros t; rewrite Htodo; [done|by left].
Qed.

Lemma turn_same hand s s' :
  turn_inv hand s ->
  (forall t, prompts_of (todo s' t) = prompts_of (todo s t) /\ ends_of (todo s' t) = ends_of (todo s t)) ->
  busy (mux s') = busy (mux s) -> queue (mux s') = queue (mux s) ->
  inflightPromptID (mux s') = inflightPromptID (mux s) -> inflightClient (mux s') = inflightClient (mux s) ->
  inflightReq (mux s') = inflightReq (mux s) -> inflightHasClient (mux s') = inflightHasClient (mux s) ->
  nextID (mux s) <= nextID (mux s') -> accepted s' = accepted s -> started s' = started s ->
  asked s' = asked s -> refused s' = refused s -> ended (upstream s') = ended (upstream s) ->
  turn_inv hand s'.
Proof.
  intros [H1 H2 H3 H4 H5 H6 H7 H8 H9] Hw Eb Eq Ei Ec Er Eh En Ea Es Eas Ere Eu.
  unfold in_flight in H5.
  split; unfold in_flight; rewrite ?Eb, ?Eq, ?Ei, ?Ec, ?Er, ?Eh, ?Ea, ?Es, ?Eas, ?Ere, ?Eu; try done.
  - intros t. by rewrite (proj1 (Hw t)).
  - intros t. by rewrite (proj2 (Hw t)).
  - lia.
Qed.

(** A thread gives up one action that is neither a prompt nor a turn's end. *)
Lemma todo_perform s s' t a rest t' :
  threads s !! t = Some (a :: rest) -> threads s' = <[t := rest]> (threads s) ->
  prompts_of [a] = [] -> ends_of [a] = [] ->
  prompts_of (todo s' t') = prompts_of (todo s t') /\ ends_of (todo s' t') = ends_of (todo s t').
Proof.
  intros Ht Ht' Hp He. rewrite (todo_insert s s' t rest) by done.
  destruct (decide (t = t')) as [<-|]; [|done]. unfold todo. rewrite Ht.
  change (prompts_of rest = prompts_of ([a] ++ rest) /\ ends_of rest = ends_of ([a] ++ rest)).
  by rewrite mux_prompts_of_app, mux_ends_of_app, Hp, He.
Qed.

(** A thread that was free gets work that is neither. *)
Lemma todo_free s s' t acts t' :
  threads s !! t = Some [] -> threads s' = <[t := acts]> (threads s) ->
  prompts_of acts = [] -> ends_of acts = [] ->
  prompts_of (todo s' t') = prompts_of (todo s t') /\ ends_of (todo s' t') = ends_of (todo s t').
Proof.
  intros Ht Ht' Hp He. rewrite (todo_insert s s' t acts) by done.
  destruct (decide (t = t')) as [<-|]; [|done]. unfold todo. rewrite Ht. simpl. by rewrite Hp, He.
Qed.

Lemma ended_app l l' : ended (l ++ l') = ended l ++ ended l'.
Proof. apply omap_app. Qed.

Section Invariants.
Context `{AcpJson}.

Lemma turn_send hand s t sid q rest :
  turn_inv hand s -> threads s !! t = Some (DoSendPrompt sid q :: rest) ->
  turn_inv None (perform t (DoSendPrompt sid q) rest s).
Proof.
  intros Hinv Ht. pose proof Hinv as [H1 H2 H3 H4 H5 H6 H7 H8 H9].
  assert (hand = Some (t, q) /\ prompts_of rest = []) as [-> Hrest].
  { specialize (H1 t). unfold todo in H1. rewrite Ht in H1. simpl in H1. unfold hand_in in H1.
    destruct hand as [[t' q']|]; [|done]. destruct (decide (t' = t)) as [->|]; [|done].
    change (prompts_of (DoSendPrompt sid q :: rest)) with (q :: prompts_of rest) in H1. by injection H1 as -> ->. }
  assert (busy (mux s) = true /\ inflightPromptID (mux s) = 0) as [Hb Hi].
  { destruct (busy (mux s)); [|by destruct H3]. split; [done|].
    destruct (decide (inflightPromptID (mux s) = 0)); [done|]. by apply H3 in n. }
  set (s' := perform t (DoSendPrompt sid q) rest s).
  assert (forall t', todo s' t' = if decide (t = t') then DoSendLine (LPrompt (nextID (mux s) + 1) sid (text q)) :: rest else todo s t') as Htodo by (intros; by eapply todo_insert).
  unfold in_flight in H5. rewrite decide_True in H5 by done.
  split; unfold in_flight; simpl.
  - intros t'. rewrite Htodo. destruct (decide (t = t')) as [<-|Hne]; [done|].
    rewrite H1. simpl. by rewrite decide_False.
  - intros t'. rewrite Htodo. left. destruct (decide (t = t')) as [<-|Hne].
    + destruct (H2 t) as [He|(_ & _ & ?)]; [|done]. unfold todo in He. rewrite Ht in He. exact He.
    + by destruct (H2 t') as [?|(_ & _ & ?)].
  - rewrite Hb. split; [|done]. lia.
  - rewrite H4. simpl. by rewrite <-app_assoc.
  - rewrite decide_False by lia. exists (started s), q. done.
  - done.
  - by rewrite Hb.
  - lia.
  - done.
Qed.

Lemma turn_result s failed hand :
  turn_inv hand s -> threads s !! TReader = Some [] -> inflightPromptID (mux s) <> 0 ->
  turn_inv hand (then_do TReader [] (mux s, [DoTurnEnd failed]) s <| said ::= (fun l => l ++ [SEnd failed]) |>).
Proof.
  intros Hinv Ht Hi. match goal with |- turn_inv _ ?x => set (s' := x) end.
  assert (forall t', todo s' t' = if decide (TReader = t') then [DoTurnEnd failed] else todo s t') as Htodo
    by (intros; by eapply todo_insert).
  destruct Hinv as [H1 H2 H3 H4 H5 H6 H7 H8 H9]. split; try done.
  - intros t'. rewrite Htodo. destruct (decide _) as [<-|]; [|done].
    rewrite <-H1. unfold todo. by rewrite Ht.
  - intros t'. rewrite Htodo. destruct (decide _) as [<-|]; [|apply H2]. right. split_and!; [done|by exists failed|done].
Qed.

(** The turn ends, and the head of the queue is next. *)
Definition answer_of (failed : bool) (m : Mux) : list action :=
  match inflightReq m with
  | Some req =>
      if is_answered m
      then [appendResultFor (inflightClient m) req (if failed then "refusal" else "end_turn")] else []
  | None => []
  end.
Definition next_of (m : Mux) : list action :=
  match queue m with next :: _ => [DoSendPrompt (sessionID m) next] | [] => [] end.

Lemma turn_end_spec failed m :
  let m' := (handleTurnEnd failed m).1 in
  (handleTurnEnd failed m).2 = answer_of failed m ++ next_of m /\
  queue m' = tail (queue m) /\ inflightPromptID m' = 0 /\ nextID m' = nextID m /\
  busy m' = match queue m with [] => false | _ => true end.
Proof.
  unfold handleTurnEnd, answer_of, is_answered, next_of. simpl.
  destruct (queue m), (inflightReq m); done.
Qed.

Lemma answer_of_work failed m : prompts_of (answer_of failed m) = [] /\ ends_of (answer_of failed m) = [].
Proof. unfold answer_of. destruct (inflightReq m); [|done]. by destruct (is_answered m). Qed.

Lemma turn_end hand s t failed rest :
  turn_inv hand s -> threads s !! t = Some (DoTurnEnd failed :: rest) ->
  exists hand', turn_inv hand' (perform t (DoTurnEnd failed) rest s).
Proof.
  intros Hinv Ht. pose proof Hinv as [H1 H2 H3 H4 H5 H6 H7 H8 H9].
  assert (Htodo0 : todo s t = DoTurnEnd failed :: rest) by (unfold todo; by rewrite Ht).
  destruct (H2 t) as [He|(-> & (f & He) & Hi)]; [by rewrite Htodo0 in He|]. rewrite Htodo0 in He.
  assert (ends_of rest = []) as Hrest by (by injection He).
  assert (hand = None) as -> by (destruct (busy (mux s)); [by apply H3|by destruct H3]).
  assert (prompts_of rest = []) as Hprest.
  { specialize (H1 TReader). rewrite Htodo0 in H1. exact H1. }
  unfold in_flight in H5. rewrite decide_False in H5 by done.
  destruct H5 as (l & q & Hst & Hl & Hc & Hr & Hh).
  destruct (turn_end_spec failed (mux s)) as (Hacts & Hq & Hid & Hn & Hb).
  destruct (answer_of_work failed (mux s)) as [Hap Hae].
  exists (q0 ← head (queue (mux s)); Some (TReader, q0)).
  set (s' := perform TReader (DoTurnEnd failed) rest s).
  assert (mux s' = (handleTurnEnd failed (mux s)).1) as Hm by done.
  assert (forall t', todo s' t' = if decide (TReader = t') then (answer_of failed (mux s) ++ next_of (mux s)) ++ rest else todo s t') as Htodo.
  { rewrite <-Hacts. intros t'. by apply todo_insert. }
  assert (key <$> started s = ended (upstream s')) as Hend.
  { change (upstream s') with (upstream s ++ [UEnd (current (mux s)) failed (is_answered (mux s))]). rewrite ended_app, Hst, fmap_app, Hl.
    simpl. unfold current. by rewrite Hc, Hr. }
  split; unfold in_flight; rewrite ?Hm, ?Hq, ?Hid, ?Hn, ?Hb.
  - intros t'. rewrite Htodo. destruct (decide _) as [<-|Hne].
    + rewrite !mux_prompts_of_app, Hap, Hprest, app_nil_r. unfold next_of.
      destruct (queue (mux s)) as [|a qs]; [done|].
      change ([a] = if decide (TReader = TReader) then [a] else []). by rewrite decide_True.
    + rewrite H1. destruct (queue (mux s)) as [|a qs]; [done|].
      change ([] = if decide (TReader = t') then [a] else []). by rewrite decide_False.
  - intros t'. rewrite Htodo. left. destruct (decide _) as [<-|Hne].
    + rewrite !mux_ends_of_app, Hae, Hrest, app_nil_r. unfold next_of. by destruct (queue (mux s)).
    + by destruct (H2 t') as [?|(? & _)].
  - destruct (queue (mux s)); simpl; [done|]. by split.
  - change (accepted s') with (accepted s). change (started s') with (started s).
    rewrite H4. simpl. by destruct (queue (mux s)).
  - by rewrite decide_True.
  - destruct (queue (mux s)); simpl in *; lia.
  - by destruct (queue (mux s)).
  - done.
  - done.
Qed.

Lemma prompt_spec c req txt m :
  fromClientPrompt c req txt m =
  if has_room m then
    if busy m then (m <| queue ::= fun l => l ++ [mkPrompt c req txt] |>, [])
    else (m <| busy := true |>, [DoSendPrompt (sessionID m) (mkPrompt c req txt)])
  else (m, [appendResultFor c req "refusal"]).
Proof. unfold fromClientPrompt, has_room. destruct (busy m); [|done]. simpl. by destruct (_ <? _). Qed.

Lemma note_prompt_notes o q room s s' :
  s' = note_opening o (note_prompt (Some q) room s) ->
  mux s' = mux s /\ threads s' = threads s /\ hist s' = hist s /\ sent s' = sent s /\ lost s' = lost s /\
  loops s' = loops s /\ asked s' = asked s ++ [q] /\ started s' = started s /\ upstream s' = upstream s /\
  accepted s' = accepted s ++ (if room then [q] else []) /\
  refused s' = refused s ++ (if room then [] else [q]).
Proof. intros ->. unfold note_opening, note_prompt. destruct room; simpl; rewrite ?app_nil_r; done. Qed.

Lemma turn_prompt hand s c req txt o :
  turn_inv hand s -> threads s !! TClient c = Some [] ->
  exists hand', turn_inv hand' (note_opening o (note_prompt (Some (mkPrompt c req txt)) (has_room (mux s))
    (then_do (TClient c) [] (fromClientPrompt c req txt (mux s)) s))).
Proof.
  intros [H1 H2 H3 H4 H5 H6 H7 H8 H9] Ht.
  remember (note_opening _ _) as s' eqn:Hs'.
  apply note_prompt_notes in Hs' as (Hm & Hth & _ & _ & _ & _ & Ea & Es & Eu & Eac & Er).
  set (q := mkPrompt c req txt) in *. simpl in *. rewrite app_nil_r in Hth.
  assert (forall t', todo s' t' = if decide (TClient c = t') then (fromClientPrompt c req txt (mux s)).2 else todo s t') as Htodo.
  { intros t'. by apply todo_insert. }
  assert (todo s (TClient c) = []) as Hno by (unfold todo; by rewrite Ht).
  assert (asked s' ≡ₚ accepted s' ++ refused s') as Hperm.
  { rewrite Ea, Eac, Er, H9. destruct (has_room _); rewrite ?app_nil_r; [|by rewrite app_assoc].
    rewrite <-!app_assoc. apply Permutation_app_head, Permutation_app_comm. }
  assert (forall t', ends_of (todo s' t') = ends_of (todo s t')) as Hends.
  { intros t'. rewrite Htodo. destruct (decide (TClient c = t')) as [<-|]; [|done].
    rewrite Hno, prompt_spec. destruct (has_room _); [|done]. by destruct (busy _). }
  clear Hth. rewrite prompt_spec in Hm, Htodo. unfold has_room in *. unfold in_flight in H5.
  destruct (busy (mux s)) eqn:Hb.
  - exists hand. simpl in *. assert (forall t', prompts_of (todo s' t') = hand_in hand t') as Hhand.
    { intros t'. rewrite Htodo. destruct (decide (TClient c = t')) as [<-|]; [|done].
      rewrite <-H1, Hno. by destruct (_ <? _). }
    destruct (_ <? _) eqn:Hlt; simpl in Hm.
    + apply Z.ltb_lt in Hlt.
      split; unfold in_flight; rewrite ?Hm, ?Es, ?Eu; simpl; rewrite ?Hb; try done.
      * intros t'. by rewrite Hends.
      * by rewrite Eac, H4, <-!app_assoc.
      * rewrite length_app. simpl. lia.
    + split; unfold in_flight; rewrite ?Hm, ?Es, ?Eu; rewrite ?Hb; try done.
      * intros t'. by rewrite Hends.
      * by rewrite Eac, app_nil_r.
  - destruct H3 as [-> Hi]. exists (Some (TClient c, q)). simpl in *.
    split; unfold in_flight; rewrite ?Hm, ?Es, ?Eu; try done.
    + intros t'. rewrite Htodo. unfold hand_in. destruct (decide (TClient c = t')) as [<-|Hne]; [done|].
      by rewrite H1.
    + intros t'. rewrite Hends. left. by destruct (H2 t') as [?|(_ & _ & ?)].
    + by rewrite Eac, H4, (H7 eq_refl), app_nil_r.
Qed.

Lemma mux_turn_step s s' hand : mstep s s' -> ids_inv s -> turn_inv hand s -> exists hand', turn_inv hand' s'.
Proof.
  intros Hstep Hids Hinv. destruct Hstep as [s' t rest acts Hr Hc Hq Ht Hn|s' Hc Ht Hn|t tgt msg rest Ht
    |t sid q rest Ht|t failed rest Ht|t c rest Ht|params Ht|failed Ht Hi|c req txt o Ht|c acts o Ht Hq| |c Ht| |c s' Hl].
  - exists hand. destruct (quiet_nothing _ Hq) as (Hqp & Hqe & _). destruct (resumes_todo _ _ _ Hr) as (Hp & He & _).
    apply (turn_same hand s); [done| |apply Hc..|apply Hn|apply Hn|apply Hn|apply Hn|by rewrite (n_up _ _ Hn)].
    intros t'. rewrite (todo_insert _ _ _ _ _ Ht). destruct (decide _) as [<-|]; [|done].
    by rewrite mux_prompts_of_app, mux_ends_of_app, Hqp, Hqe, Hp, He.
  - exists hand. apply (turn_same hand s); [done| |apply Hc..|apply Hn|apply Hn|apply Hn|apply Hn|by rewrite (n_up _ _ Hn)].
    intros t'. unfold todo. by rewrite Ht.
  - exists hand. destruct (append_frame tgt msg (mux s)) as (_ & _ & Eb & Eq & Ei & Ec & Er & Eh & En & _).
    apply (turn_same hand s); [done| |exact Eb|exact Eq|exact Ei|exact Ec|exact Er|exact Eh| |done..].
    + intros t'. by apply (todo_perform s _ t (DoAppend tgt msg) rest).
    + change (nextID (mux s) <= nextID (appendItem tgt msg (mux s))). lia.
  - exists None. by apply (turn_send hand).
  - by apply (turn_end hand).
  - exists hand. apply (turn_same hand s); try done.
    intros t'. by apply (todo_perform s _ t (DoWake c) rest).
  - exists hand. apply (turn_same hand s); try done.
    + intros t'. by apply (todo_free s _ TReader [DoAppend None (OUpdate params)]).
    + simpl. by rewrite ended_app, app_nil_r.
  - exists hand. by apply turn_result.
  - by apply (turn_prompt hand).
  - exists hand. destruct (quiet_nothing _ Hq) as (Hqp & Hqe & _). apply (turn_same hand s); try done.
    intros t'. apply (todo_free s _ (TClient c) (acts ++ [DoWake c])); [done|simpl; by rewrite app_nil_r|..].
    + by rewrite mux_prompts_of_app, Hqp.
    + by rewrite mux_ends_of_app, Hqe.
  - exists hand. apply (turn_same hand s); try done.
    intros t'. rewrite (todo_insert s _ (TClient (nextClientID (mux s))) []) by done.
    destruct (decide _) as [<-|]; [|done]. unfold todo. by rewrite (next_no_thread s Hids).
  - exists hand. apply (turn_same hand s); try done; unfold unregisterClient; simpl; try (by destruct (bool_decide _)).
    intros t'. unfold todo. simpl. destruct (decide (t' = TClient c)) as [->|Hne].
    + by rewrite lookup_delete_eq, Ht.
    + by rewrite lookup_delete_ne.
  - exists hand. apply (turn_same hand s); try done; unfold Stop; simpl; by destruct (stopped _).
  - exists hand.
    assert (forall b m, catch_up c (mux s) = (b, m) -> busy m = busy (mux s) /\ queue m = queue (mux s) /\
      inflightPromptID m = inflightPromptID (mux s) /\ inflightClient m = inflightClient (mux s) /\
      inflightReq m = inflightReq (mux s) /\ inflightHasClient m = inflightHasClient (mux s) /\
      nextID m = nextID (mux s)) as Hcu.
    { intros b m. unfold catch_up. destruct (heap (mux s) !! c); [|by intros [= _ <-]].
      by repeat case_match; intros [= _ <-]. }
    destruct Hl as [cl Hl Hcl Hd|cl Hl Hcl Hn|batch m Hl Hc|msg l Hl|msg l Hl|Hl]; try by apply (turn_same hand s).
    destruct (Hcu _ _ Hc) as (? & ? & ? & ? & ? & ? & Hn).
    apply (turn_same hand s); try done. simpl. lia.
Qed.
End Invariants.

(** * The multiplexer's log is the agent's transcript

    What a thread has logged, followed by what it has still to log, is what it ought to log: the
    reader's is the transcript of what the agent said, a client's thread's the refusals of that
    client's prompts. *)

(** ** What ought to be logged *)

(** An update goes to everyone; the end of a turn to whoever asked, if still there. *)
Definition render (e : UpEvent) : list (option string * OutMsg) :=
  match e with
  | UUpdate params => [(None, OUpdate params)]
  | UEnd k failed answered =>
      if answered
      then [(Some (fst k), OResult (snd k) (StopReason (if failed then "refusal" else "end_turn")))]
      else []
  end.
Definition transcript (l : list UpEvent) : list (option string * OutMsg) := flat_map render l.

Definition refusal (q : queuedPrompt) : option string * OutMsg :=
  (Some (clientID q), OResult (clientReq q) (StopReason "refusal")).
Definition refusals_of (c : string) (l : list queuedPrompt) : list (option string * OutMsg) :=
  omap (fun q => if decide (clientID q = c) then Some (refusal q) else None) l.

Definition produced (s : System) (t : tid) : list (option string * OutMsg) :=
  match t with
  | TReader => transcript (upstream s)
  | TClient c => refusals_of c (refused s)
  | TOther _ => []
  end.

(** What thread [t] logged. *)
Definition logged (t : tid) (h : list (tid * logItem)) : list (option string * OutMsg) :=
  omap (fun ti => if decide (fst ti = t) then Some (target (snd ti), raw (snd ti)) else None) h.

Record out_inv (s : System) : Prop := {
  o_out : forall t, logged t (hist s) ++ appends_of (todo s t) = produced s t;
  o_end : forall t, ends_of (todo s t) = [] \/ exists f, todo s t = [DoTurnEnd f];
  o_ans : forall k f a, UEnd k f a ∈ upstream s -> fst k ∈ clients (mux s) -> a = true
}.

Lemma transcript_app l l' : transcript (l ++ l') = transcript l ++ transcript l'.
Proof. apply flat_map_app. Qed.
Lemma refusals_app c l l' : refusals_of c (l ++ l') = refusals_of c l ++ refusals_of c l'.
Proof. apply omap_app. Qed.
Lemma logged_app t l l' : logged t (l ++ l') = logged t l ++ logged t l'.
Proof. apply omap_app. Qed.

Lemma out_new : out_inv new_system.
Proof.
  assert (forall t, todo new_system t = []) as Htodo.
  { intros t. unfold todo, new_system. simpl. destruct (decide (t = TReader)) as [->|Hne]; [done|].
    by rewrite lookup_singleton_ne. }
  split; simpl.
  - intros t. rewrite Htodo. by destruct t.
  - intros t. rewrite Htodo. by left.
  - set_solver.
Qed.

(** The clients an ended turn names have asked. *)
Lemma ended_asked hand s k f a :
  turn_inv hand s -> UEnd k f a ∈ upstream s -> exists q, q ∈ asked s /\ key q = k.
Proof.
  intros Hinv Hin.
  assert (k ∈ ended (upstream s)) as Hk by (apply list_elem_of_omap; by exists (UEnd k f a)).
  assert (exists q, q ∈ started s /\ key q = k) as (q & Hq & <-).
  { pose proof (t_cur _ _ Hinv) as Hc. unfold in_flight in Hc. destruct (decide _).
    - rewrite <-Hc in Hk. apply list_elem_of_fmap in Hk as (q & -> & Hq). by exists q.
    - destruct Hc as (l & q & Hs & Hl & _). rewrite <-Hl in Hk.
      apply list_elem_of_fmap in Hk as (q' & -> & Hq). exists q'. rewrite Hs. set_solver. }
  exists q. split; [|done]. rewrite (t_asked _ _ Hinv), (t_fifo _ _ Hinv). set_solver.
Qed.

Lemma produced_asked hand s t c msg :
  turn_inv hand s -> (Some c, msg) ∈ produced s t -> exists q, q ∈ asked s /\ clientID q = c.
Proof.
  intros Hinv. destruct t as [|c'|n]; simpl; [| |set_solver].
  - unfold transcript. intros Hin. apply list_elem_of_In, in_flat_map in Hin as (e & He & Hin).
    apply list_elem_of_In in He. destruct e as [params|k f a]; simpl in Hin; [by destruct Hin as [?|[]]|].
    destruct a; [|done]. destruct Hin as [[= <- _]|[]].
    destruct (ended_asked hand s k f true Hinv He) as (q & Hq & <-). by exists q.
  - intros (q & Hq & Hr)%list_elem_of_omap. destruct (decide _) as [<-|]; [|done]. injection Hr as <- _.
    exists q. split; [|done]. rewrite (t_asked _ _ Hinv). set_solver.
Qed.

Lemma produced_known hand s t c msg :
  ids_inv s -> turn_inv hand s -> (Some c, msg) ∈ produced s t -> is_Some (heap (mux s) !! c).
Proof. intros Hids Hinv (q & Hq & <-)%(produced_asked hand); [|done]. by apply (k_asked s Hids). Qed.

(** The log and the pending appends name only clients that exist. *)
Lemma target_known hand s t it c :
  ids_inv s -> turn_inv hand s -> out_inv s -> (t, it) ∈ hist s -> target it = Some c ->
  is_Some (heap (mux s) !! c).
Proof.
  intros Hids Hturn Hout Hin Ht. apply (produced_known hand s t c (raw it)); [done..|].
  rewrite <-(o_out s Hout t). apply elem_of_app. left. apply list_elem_of_omap.
  exists (t, it). split; [done|]. simpl. by rewrite decide_True, Ht.
Qed.
Lemma append_known hand s t c msg rest :
  ids_inv s -> turn_inv hand s -> out_inv s -> threads s !! t = Some (DoAppend (Some c) msg :: rest) ->
  is_Some (heap (mux s) !! c).
Proof.
  intros Hids Hturn Hout Ht. apply (produced_known hand s t c msg); [done..|].
  rewrite <-(o_out s Hout t). apply elem_of_app. right. unfold todo. rewrite Ht. left.
Qed.

Lemma clients_shrink `{AcpJson} s s' c :
  mstep s s' -> ids_inv s -> c ∈ clients (mux s') -> c ∈ clients (mux s) \/ heap (mux s) !! c = None.
Proof.
  intros Hstep Hids. destruct Hstep as [s' t rest acts Hr Hc Hq Ht Hn|s' Hc Ht Hn|t tgt msg rest Ht
    |t sid q rest Ht|t failed rest Ht|t c' rest Ht|params Ht|failed Ht Hi|c' req txt o Ht|c' acts o Ht Hq| |c' Ht| |c' s' Hl];
    try (by left).
  - rewrite (c_clients _ _ Hc). by left.
  - rewrite (c_clients _ _ Hc). by left.
  - destruct (append_frame tgt msg (mux s)) as (Ec & _).
    change (c ∈ clients (appendItem tgt msg (mux s)) -> c ∈ clients (mux s) \/ heap (mux s) !! c = None).
    rewrite Ec. by left.
  - destruct (turn_end_frame failed (mux s)) as (_ & (Ec & _) & _).
    change (c ∈ clients (handleTurnEnd failed (mux s)).1 -> c ∈ clients (mux s) \/ heap (mux s) !! c = None).
    rewrite Ec. by left.
  - destruct (note_prompt_notes o (mkPrompt c' req txt) (has_room (mux s))
      (then_do (TClient c') [] (fromClientPrompt c' req txt (mux s)) s) _ eq_refl) as (-> & _).
    destruct (prompt_frame c' req txt (mux s)) as (_ & (Ec & _) & _).
    change (c ∈ clients (fromClientPrompt c' req txt (mux s)).1 -> c ∈ clients (mux s) \/ heap (mux s) !! c = None).
    rewrite Ec. by left.
  - unfold registerClient. simpl. intros [->%elem_of_singleton|?]%elem_of_union; [right|by left].
    by apply next_fresh.
  - simpl. unfold unregisterClient. destruct (bool_decide _); [|by left]. simpl. set_solver.
  - simpl. unfold Stop. destruct (stopped _); [by left|]. simpl. set_solver.
  - destruct Hl as [cl Hl Hcl Hd|cl Hl Hcl Hn|batch m Hl Hc|msg l Hl|msg l Hl|Hl]; try by left.
    simpl. unfold catch_up in Hc. destruct (heap (mux s) !! c'); [|by injection Hc as _ <-; left].
    repeat case_match; injection Hc as _ <-; by left.
Qed.

(** ** The invariant is kept *)

Lemma out_same `{AcpJson} hand s s' :
  mstep s s' -> ids_inv s -> turn_inv hand s -> out_inv s ->
  (forall t, appends_of (todo s' t) = appends_of (todo s t)) ->
  (forall t, todo s' t = todo s t \/ ends_of (todo s' t) = []) ->
  hist s' = hist s -> upstream s' = upstream s -> refused s' = refused s -> out_inv s'.
Proof.
  intros Hstep Hids Hturn [H1 H2 H3] Ha He Eh Eu Er. split.
  - intros t. rewrite Eh, Ha, H1. unfold produced. by rewrite Eu, Er.
  - intros t. destruct (He t) as [->|?]; [apply H2|by left].
  - rewrite Eu. intros k f a Hin Hk. destruct (clients_shrink s s' _ Hstep Hids Hk) as [?|Hn]; [by eapply H3|].
    destruct (ended_asked hand s k f a Hturn Hin) as (q & Hq & <-). simpl in Hn.
    destruct (k_asked s Hids q Hq). congruence.
Qed.

Lemma ends_perform s s' t a rest acts t' :
  out_inv s -> threads s !! t = Some (a :: rest) -> threads s' = <[t := acts ++ rest]> (threads s) ->
  ends_of acts = [] -> todo s' t' = todo s t' \/ ends_of (todo s' t') = [].
Proof.
  intros Hout Ht Ht' He. rewrite (todo_insert s s' t (acts ++ rest)) by done.
  destruct (decide (t = t')) as [<-|]; [right|by left].
  rewrite mux_ends_of_app, He. destruct (o_end s Hout t) as [Hn|(f & Hf)]; unfold todo in *; rewrite Ht in *.
  - change (ends_of ([a] ++ rest) = []) in Hn. rewrite mux_ends_of_app in Hn.
    by apply app_nil in Hn as [_ ->].
  - by injection Hf as _ ->.
Qed.

Lemma appends_perform s s' t a rest t' :
  threads s !! t = Some (a :: rest) -> threads s' = <[t := rest]> (threads s) -> appends_of [a] = [] ->
  appends_of (todo s' t') = appends_of (todo s t').
Proof.
  intros Ht Ht' Ha. rewrite (todo_insert s s' t rest) by done.
  destruct (decide (t = t')) as [<-|]; [|done]. unfold todo. rewrite Ht.
  change (appends_of rest = appends_of ([a] ++ rest)). by rewrite appends_of_app, Ha.
Qed.

Lemma logged_snoc t h t' it :
  logged t (h ++ [(t', it)]) = logged t h ++ (if decide (t' = t) then [(target it, raw it)] else []).
Proof. rewrite logged_app. unfold logged at 2. simpl. by destruct (decide _). Qed.

Section Invariants.
Context `{AcpJson}.

Lemma out_append hand s t tgt msg rest :
  ids_inv s -> turn_inv hand s -> out_inv s -> threads s !! t = Some (DoAppend tgt msg :: rest) ->
  out_inv (perform t (DoAppend tgt msg) rest s).
Proof.
  intros Hids Hturn Hout Ht. set (s' := perform _ _ _ _).
  assert (hist s' = hist s ++ [(t, mkItem (seq (mux s) + 1) msg tgt)]) as Hh by done.
  assert (threads s' = <[t := rest]> (threads s)) as Hth by done.
  pose proof Hout as [H1 H2 H3]. split.
  - intros t'. rewrite Hh, logged_snoc. simpl. rewrite (todo_insert s s' t rest) by done.
    change (produced s' t') with (produced s t'). rewrite <-(H1 t').
    destruct (decide (t = t')) as [<-|]; [|by rewrite app_nil_r].
    rewrite <-app_assoc. f_equal. unfold todo. by rewrite Ht.
  - intros t'. destruct (ends_perform s s' t _ rest [] t' Hout Ht Hth eq_refl) as [->|?]; [apply H2|by left].
  - intros k f a Hin Hk. apply (H3 k f a Hin).
    by destruct (append_frame tgt msg (mux s)) as (<- & _).
Qed.

Lemma answer_of_appends hand s t failed rest :
  turn_inv hand s -> threads s !! t = Some (DoTurnEnd failed :: rest) ->
  t = TReader /\
  appends_of (answer_of failed (mux s)) = render (UEnd (current (mux s)) failed (is_answered (mux s))).
Proof.
  intros Hinv Ht. destruct (t_ends _ _ Hinv t) as [He|(-> & _ & Hi)].
  { unfold todo in He. by rewrite Ht in He. }
  split; [done|]. pose proof (t_cur _ _ Hinv) as Hc. unfold in_flight in Hc. rewrite decide_False in Hc by done.
  destruct Hc as (l & q & _ & _ & Hc & Hr & _). unfold answer_of, current. rewrite Hr.
  by destruct (is_answered (mux s)).
Qed.

Lemma out_end hand s t failed rest :
  ids_inv s -> turn_inv hand s -> out_inv s -> threads s !! t = Some (DoTurnEnd failed :: rest) ->
  out_inv (perform t (DoTurnEnd failed) rest s).
Proof.
  intros Hids Hturn Hout Ht. destruct (answer_of_appends hand s t failed rest Hturn Ht) as [-> Hans].
  pose proof Hout as [H1 H2 H3].
  assert (rest = []) as ->.
  { destruct (H2 TReader) as [He|(f & Hf)]; unfold todo in *; rewrite Ht in *; [done|]. by injection Hf as _ ->. }
  set (s' := perform _ _ _ _).
  destruct (turn_end_spec failed (mux s)) as (Hacts & _).
  assert (forall t', todo s' t' = if decide (TReader = t') then answer_of failed (mux s) ++ next_of (mux s) else todo s t') as Htodo.
  { rewrite <-Hacts. intros t'. apply todo_insert. simpl. by rewrite app_nil_r. }
  assert (upstream s' = upstream s ++ [UEnd (current (mux s)) failed (is_answered (mux s))]) as Hu by done.
  assert (appends_of (next_of (mux s)) = [] /\ ends_of (next_of (mux s)) = []) as [Hna Hne]
    by (unfold next_of; by destruct (queue (mux s))).
  split.
  - intros t'. change (hist s') with (hist s). rewrite Htodo.
    destruct (decide (TReader = t')) as [<-|Hne'].
    + unfold produced. rewrite Hu, transcript_app, appends_of_app, Hna, app_nil_r, Hans.
      specialize (H1 TReader). unfold todo in H1. rewrite Ht in H1. simpl in H1. rewrite app_nil_r in H1.
      rewrite H1. unfold transcript at 3. cbn [flat_map]. by rewrite app_nil_r.
    + rewrite H1. by destruct t'.
  - intros t'. rewrite Htodo. destruct (decide (TReader = t')) as [<-|]; [|apply H2].
    left. by rewrite mux_ends_of_app, (proj2 (answer_of_work _ _)), Hne.
  - rewrite Hu. destruct (turn_end_frame failed (mux s)) as (_ & (Ec & _) & _).
    change (clients (mux s')) with (clients (handleTurnEnd failed (mux s)).1). rewrite Ec.
    intros k f a [Hin|Hin]%elem_of_app Hk; [by eapply H3|].
    apply list_elem_of_singleton in Hin. injection Hin as -> -> ->. unfold is_answered. simpl in Hk.
    pose proof (t_cur _ _ Hturn) as Hc. unfold in_flight in Hc.
    destruct (t_ends _ _ Hturn TReader) as [He|(_ & _ & Hi)]; [unfold todo in He; by rewrite Ht in He|].
    rewrite decide_False in Hc by done. destruct Hc as (l & q & _ & _ & _ & _ & ->).
    by rewrite bool_decide_true.
Qed.

Lemma refusals_note c req txt (room : bool) (s : System) c' :
  refusals_of c' (refused s ++ (if room then [] else [mkPrompt c req txt])) =
  refusals_of c' (refused s) ++
    (if room then [] else if decide (c = c') then [refusal (mkPrompt c req txt)] else []).
Proof.
  rewrite refusals_app. f_equal. destruct room; [done|]. unfold refusals_of. simpl. by destruct (decide _).
Qed.

Lemma out_prompt hand s c req txt o :
  ids_inv s -> turn_inv hand s -> out_inv s -> threads s !! TClient c = Some [] ->
  out_inv (note_opening o (note_prompt (Some (mkPrompt c req txt)) (has_room (mux s))
    (then_do (TClient c) [] (fromClientPrompt c req txt (mux s)) s))).
Proof.
  intros Hids Hturn [H1 H2 H3] Ht. remember (note_opening _ _) as s' eqn:Hs'.
  apply note_prompt_notes in Hs' as (Hm & Hth & Hh & _ & _ & _ & _ & _ & Eu & _ & Er).
  simpl in Hm, Hth, Hh, Eu, Er. rewrite app_nil_r in Hth.
  assert (forall t', todo s' t' = if decide (TClient c = t') then (fromClientPrompt c req txt (mux s)).2 else todo s t') as Htodo.
  { intros t'. by apply todo_insert. }
  assert (todo s (TClient c) = []) as Hno by (unfold todo; by rewrite Ht).
  assert (appends_of (fromClientPrompt c req txt (mux s)).2 =
          (if has_room (mux s) then [] else [refusal (mkPrompt c req txt)]) /\
          ends_of (fromClientPrompt c req txt (mux s)).2 = []) as [Hacts Hends].
  { rewrite prompt_spec. destruct (has_room (mux s)); [|done]. by destruct (busy (mux s)). }
  split.
  - intros t'. rewrite Hh, Htodo. destruct t' as [|c'|n]; simpl produced.
    + rewrite decide_False by done. by rewrite H1, Eu.
    + rewrite Er, refusals_note. change (refusals_of c' (refused s)) with (produced s (TClient c')).
      rewrite <-(H1 (TClient c')).
      destruct (decide (TClient c = TClient c')) as [[= <-]|Hne].
      * rewrite Hacts, Hno, app_nil_r. rewrite (decide_True (P := c = c)) by done. done.
      * rewrite (decide_False (P := c = c')) by congruence. by destruct (has_room _); rewrite app_nil_r.
    + rewrite decide_False by done. apply H1.
  - intros t'. rewrite Htodo. destruct (decide (TClient c = t')) as [<-|]; [by left|apply H2].
  - rewrite Eu, Hm. destruct (prompt_frame c req txt (mux s)) as (_ & (-> & _) & _). apply H3.
Qed.

Lemma out_update hand s params :
  out_inv s -> turn_inv hand s -> threads s !! TReader = Some [] ->
  out_inv (then_do TReader [] (mux s, [DoAppend None (OUpdate params)]) s
             <| said ::= (fun l => l ++ [SUpdate params]) |>
             <| upstream ::= (fun l => l ++ [UUpdate params]) |>).
Proof.
  intros [H1 H2 H3] Hturn Ht. match goal with |- out_inv ?x => set (s' := x) end.
  assert (forall t', todo s' t' = if decide (TReader = t') then [DoAppend None (OUpdate params)] else todo s t') as Htodo
    by (intros; by eapply todo_insert).
  split.
  - intros t'. change (hist s') with (hist s). rewrite Htodo.
    destruct (decide (TReader = t')) as [<-|Hne].
    + change (produced s' TReader) with (transcript (upstream s ++ [UUpdate params])).
      rewrite transcript_app. specialize (H1 TReader). unfold todo in H1. rewrite Ht in H1. simpl in H1.
      rewrite app_nil_r in H1. by rewrite H1.
    + rewrite H1. by destruct t'.
  - intros t'. rewrite Htodo. destruct (decide (TReader = t')); [by left|apply H2].
  - change (upstream s') with (upstream s ++ [UUpdate params]).
    intros k f a [Hin|Hin]%elem_of_app; [by eapply H3|set_solver].
Qed.

Lemma out_step hand s s' : mstep s s' -> ids_inv s -> turn_inv hand s -> out_inv s -> out_inv s'.
Proof.
  intros Hstep Hids Hturn Hout. pose proof Hstep as Hstep0.
  destruct Hstep as [s' t rest acts Hr Hc Hq Ht Hn|s' Hc Ht Hn|t tgt msg rest Ht
    |t sid q rest Ht|t failed rest Ht|t c rest Ht|params Ht|failed Ht Hi|c req txt o Ht|c acts o Ht Hq| |c Ht| |c s' Hl].
  - destruct (quiet_nothing _ Hq) as (_ & Hqe & Hqa & _). destruct (resumes_todo _ _ _ Hr) as (_ & He & Ha & _).
    apply (out_same hand s); [done..| | |apply Hn|apply Hn|apply Hn].
    + intros t'. rewrite (todo_insert _ _ _ _ _ Ht). destruct (decide (t = t')) as [<-|]; [|done].
      by rewrite appends_of_app, Hqa, Ha.
    + intros t'. destruct Hr as [(Ht0 & -> & _)|[(Ht0 & ->)|(a & Ht0 & Ha0)]].
      1, 2: rewrite (todo_insert _ _ _ _ _ Ht); destruct (decide (t = t')) as [<-|]; [right|by left];
        by rewrite app_nil_r.
      by apply (ends_perform s _ t a rest acts).
  - apply (out_same hand s); [done..| | |apply Hn|apply Hn|apply Hn]; unfold todo; rewrite Ht; [done|by left].
  - by apply (out_append hand).
  - apply (out_same hand s); [done..| | |done|done|done].
    + intros t'. rewrite (todo_insert s _ t (DoSendLine (LPrompt (nextID (mux s) + 1) sid (text q)) :: rest)) by done.
      destruct (decide (t = t')) as [<-|]; [|done]. unfold todo. by rewrite Ht.
    + intros t'. by apply (ends_perform s _ t (DoSendPrompt sid q) rest [DoSendLine (LPrompt (nextID (mux s) + 1) sid (text q))]).
  - by apply (out_end hand).
  - apply (out_same hand s); [done..| | |done|done|done]; intros t'.
    + by apply (appends_perform s _ t (DoWake c) rest).
    + by apply (ends_perform s _ t (DoWake c) rest []).
  - by apply (out_update hand).
  - pose proof Hout as [H1 H2 H3]. match goal with |- out_inv ?x => set (s' := x) end.
    assert (forall t', todo s' t' = if decide (TReader = t') then [DoTurnEnd failed] else todo s t') as Htodo
      by (intros; by eapply todo_insert).
    split; [| |done]; intros t'; rewrite Htodo; destruct (decide (TReader = t')) as [<-|].
    + change (hist s') with (hist s). change (produced s' TReader) with (produced s TReader).
      rewrite <-(H1 TReader). unfold todo. by rewrite Ht.
    + apply H1.
    + right. by exists failed.
    + apply H2.
  - by apply (out_prompt hand).
  - destruct (quiet_nothing _ Hq) as (_ & Hqe & Hqa & _).
    assert (forall s' t', threads s' = <[TClient c := acts ++ [DoWake c]]> (threads s) ->
      appends_of (todo s' t') = appends_of (todo s t') /\ (todo s' t' = todo s t' \/ ends_of (todo s' t') = [])) as Hw.
    { intros s' t' Hth. rewrite (todo_insert _ _ _ _ _ Hth). destruct (decide _) as [<-|]; [|by split; [|left]].
      split; [|right; by rewrite mux_ends_of_app, Hqe]. rewrite appends_of_app, Hqa. unfold todo. by rewrite Ht. }
    apply (out_same hand s); [done..| | |done|done|done]; intros t'; apply Hw; simpl; by rewrite app_nil_r.
  - assert (forall s' t', threads s' = <[TClient (nextClientID (mux s)) := []]> (threads s) -> todo s' t' = todo s t') as Hw.
    { intros s' t' Hth. rewrite (todo_insert _ _ _ _ _ Hth). destruct (decide _) as [<-|]; [|done].
      unfold todo. by rewrite (next_no_thread s Hids). }
    apply (out_same hand s); [done..| | |done|done|done]; intros t'; [|left]; by rewrite Hw.
  - assert (forall s' t', threads s' = delete (TClient c) (threads s) -> todo s' t' = todo s t') as Hw.
    { intros s' t' Hth. unfold todo. rewrite Hth. destruct (decide (TClient c = t')) as [<-|].
      - by rewrite lookup_delete_eq, Ht.
      - by rewrite lookup_delete_ne. }
    apply (out_same hand s); [done..| | |done|done|done]; intros t'; [|left]; by rewrite Hw.
  - apply (out_same hand s); [done|done|done|done|by intros|by left|done|done|done].
  - destruct Hl; (apply (out_same hand s); [done|done|done|done|by intros|by left|done|done|done]).
Qed.

(** ** What became of what the agent said

    The reader acts on all of it, in order. *)

Definition heard (e : UpEvent) : Saying :=
  match e with UUpdate params => SUpdate params | UEnd _ failed _ => SEnd failed end.

Definition said_inv (s : System) : Prop :=
  said s = (heard <$> upstream s) ++ (SEnd <$> ends_of (todo s TReader)).

Lemma said_same s s' :
  said_inv s -> said s' = said s -> upstream s' = upstream s ->
  ends_of (todo s' TReader) = ends_of (todo s TReader) -> said_inv s'.
Proof. unfold said_inv. by intros -> -> -> ->. Qed.

Lemma said_end hand s t failed rest :
  turn_inv hand s -> said_inv s -> threads s !! t = Some (DoTurnEnd failed :: rest) ->
  said_inv (perform t (DoTurnEnd failed) rest s).
Proof.
  intros Hturn Hinv Ht. assert (Htodo : todo s t = DoTurnEnd failed :: rest) by (unfold todo; by rewrite Ht).
  destruct (t_ends _ _ Hturn t) as [He|(-> & (f & He) & _)]; [by rewrite Htodo in He|].
  rewrite Htodo in He. change (failed :: ends_of rest = [f]) in He. injection He as -> Hrest.
  unfold said_inv in *. rewrite Htodo in Hinv. change (ends_of (DoTurnEnd f :: rest)) with (f :: ends_of rest) in Hinv.
  change (said (perform TReader (DoTurnEnd f) rest s)) with (said s).
  change (upstream (perform TReader (DoTurnEnd f) rest s)) with
    (upstream s ++ [UEnd (current (mux s)) f (is_answered (mux s))]).
  rewrite Hinv, Hrest, fmap_app, <-app_assoc.
  rewrite (todo_insert s _ TReader ((handleTurnEnd f (mux s)).2 ++ rest)), decide_True by done.
  destruct (turn_end_spec f (mux s)) as (-> & _). rewrite !mux_ends_of_app, Hrest.
  rewrite (proj2 (answer_of_work f (mux s))). unfold next_of. by destruct (queue (mux s)).
Qed.

Lemma said_step hand s s' : mstep s s' -> ids_inv s -> turn_inv hand s -> said_inv s -> said_inv s'.
Proof.
  intros Hstep Hids Hturn Hinv. destruct Hstep as [s' t rest acts Hr Hc Hq Ht Hn|s' Hc Ht Hn|t tgt msg rest Ht
    |t sid q rest Ht|t failed rest Ht|t c rest Ht|params Ht|failed Ht Hi|c req txt o Ht|c acts o Ht Hq| |c Ht| |c s' Hl].
  - apply (said_same s); [done|apply Hn|apply Hn|].
    destruct (quiet_nothing _ Hq) as (_ & Hqe & _). destruct (resumes_todo _ _ _ Hr) as (_ & He & _).
    rewrite (todo_insert _ _ _ _ _ Ht). destruct (decide _) as [<-|]; [|done].
    by rewrite mux_ends_of_app, Hqe, He.
  - apply (said_same s); [done|apply Hn|apply Hn|]. unfold todo. by rewrite Ht.
  - apply (said_same s); try done. by apply (todo_perform s _ t (DoAppend tgt msg) rest).
  - apply (said_same s); try done.
    rewrite (todo_insert s _ t (DoSendLine (LPrompt (nextID (mux s) + 1) sid (text q)) :: rest)) by done.
    destruct (decide (t = TReader)) as [->|]; [|done]. unfold todo. by rewrite Ht.
  - by apply (said_end hand).
  - apply (said_same s); try done. by apply (todo_perform s _ t (DoWake c) rest).
  - unfold said_inv in *. unfold todo in *. rewrite Ht in Hinv. simpl in *. rewrite lookup_insert_eq. simpl.
    by rewrite Hinv, !app_nil_r, fmap_app.
  - unfold said_inv in *. unfold todo in *. rewrite Ht in Hinv. simpl in *. rewrite lookup_insert_eq. simpl.
    by rewrite Hinv, !app_nil_r.
  - remember (note_opening _ _) as s' eqn:Hs'. pose proof Hs' as Hsd.
    apply note_prompt_notes in Hs' as (_ & Hth & _ & _ & _ & _ & _ & _ & Eu & _). simpl in Hth. rewrite app_nil_r in Hth.
    apply (said_same s); [done|subst s'; simpl; by destruct (has_room _)|done|].
    rewrite (todo_insert _ _ _ _ _ Hth). by rewrite decide_False.
  - apply (said_same s); try done.
    rewrite (todo_insert s _ (TClient c) (acts ++ [DoWake c])) by (simpl; by rewrite app_nil_r). by rewrite decide_False.
  - apply (said_same s); try done. rewrite (todo_insert s _ (TClient (nextClientID (mux s))) []) by done.
    by rewrite decide_False.
  - apply (said_same s); try done. unfold todo. simpl. by rewrite lookup_delete_ne.
  - by apply (said_same s).
  - destruct Hl; by apply (said_same s).
Qed.
End Invariants.
