(* ===== verification/AcpMuxReplay.v ===== *)
(** * The multiplexer's log and its replay

    The log is a window on the items ever appended; what a client's replay has written, and is
    writing, is the part of the history that is for it since it joined, up to its cursor, unless
    the window moved past the cursor. *)

From S2P Require Import Prelude GoLib AcpMux AcpMuxLaws AcpMuxTranscript.
Definition zlen {A} (l : list A) : Z := Z.of_nat (length l).
Definition items (s : System) : list logItem := snd <$> hist s.

(** ** The log *)

Record log_inv (m : Mux) (h : list logItem) : Prop := {
  l_seq : seq m = zlen h;
  l_base : 0 <= base m;
  l_log : log m = drop (Z.to_nat (base m)) h;
  l_len : base m + zlen (log m) = seq m;
  l_max : zlen (log m) <= defaultMaxLog;
  l_maxlog : maxLog m = defaultMaxLog;
  l_num : forall i it, h !! i = Some it -> iseq it = Z.of_nat i + 1
}.

Lemma log_same m m' h : same_log m m' -> log_inv m h -> log_inv m' h.
Proof. intros (Hl & Hb & Hs & Hm) [? ? ? ? ? ? ?]. by split; rewrite ?Hl, ?Hb, ?Hs, ?Hm. Qed.

Lemma append_log tgt msg m h :
  log_inv m h -> log_inv (appendItem tgt msg m) (h ++ [mkItem (seq m + 1) msg tgt]).
Proof.
  intros [Hs Hb Hl Hlen Hmax Hm Hn]. unfold zlen, defaultMaxLog in *. unfold appendItem.
  set (it := mkItem (seq m + 1) msg tgt).
  assert (length (log m ++ [it]) = S (length (log m))) as Hl1 by (rewrite length_app; simpl; lia).
  assert (length (h ++ [it]) = S (length h)) as Hl2 by (rewrite length_app; simpl; lia).
  assert (log m ++ [it] = drop (Z.to_nat (base m)) (h ++ [it])) as Hlog.
  { rewrite Hl, drop_app_le; [done|]. lia. }
  assert (forall i x, (h ++ [it]) !! i = Some x -> iseq x = Z.of_nat i + 1) as Hnum.
  { intros i x [Hi|[Hi Hx]]%lookup_app_Some; [by apply Hn|].
    apply list_lookup_singleton_Some in Hx as [? <-]. simpl. lia. }
  unfold wake_all. cbn [log seq maxLog set_field eta_Mux].
  replace (1 + seq m) with (seq m + 1) by lia. fold it.
  destruct (0 <? _) eqn:Hover.
  - apply Z.ltb_lt in Hover. rewrite Hl1, Hm in Hover. split; unfold zlen, defaultMaxLog; simpl.
    + rewrite Hl2. lia.
    + rewrite Hl1, Hm. lia.
    + rewrite Hlog at 2. rewrite drop_drop. f_equal. rewrite Hl1, Hm. lia.
    + rewrite length_drop, Hl1, Hm. lia.
    + rewrite length_drop, Hl1, Hm. lia.
    + done.
    + done.
  - apply Z.ltb_ge in Hover. rewrite Hl1, Hm in Hover. split; unfold zlen, defaultMaxLog; simpl; try done.
    + rewrite Hl2. lia.
    + rewrite Hl1. lia.
    + rewrite Hl1. lia.
Qed.

Lemma catch_up_log c m b m' : catch_up c m = (b, m') -> same_log m m' /\ clients m' = clients m.
Proof.
  unfold catch_up. destruct (heap m !! c); [|by intros [= _ <-]]. by repeat case_match; intros [= _ <-].
Qed.

Lemma log_step `{AcpJson} s s' : mstep s s' -> log_inv (mux s) (items s) -> log_inv (mux s') (items s').
Proof.
  intros Hstep Hinv. unfold items in *. destruct Hstep as [s' t rest acts Hr Hc Hq Ht Hn|s' Hc Ht Hn|t tgt msg rest Ht
    |t sid q rest Ht|t failed rest Ht|t c rest Ht|params Ht|failed Ht Hi|c req txt o Ht|c acts o Ht Hq| |c Ht| |c s' Hl].
  - rewrite (n_hist _ _ Hn). apply (log_same (mux s)); [|done]. split_and!; apply Hc.
  - rewrite (n_hist _ _ Hn). apply (log_same (mux s)); [|done]. split_and!; apply Hc.
  - change (snd <$> hist (perform t (DoAppend tgt msg) rest s)) with
      (snd <$> (hist s ++ [(t, mkItem (seq (mux s) + 1) msg tgt)])).
    rewrite fmap_app. by apply append_log.
  - apply (log_same (mux s)); [|done]. done.
  - apply (log_same (mux s)); [apply (turn_end_frame failed)|done].
  - apply (log_same (mux s)); [|done]. done.
  - done.
  - done.
  - destruct (note_prompt_notes o (mkPrompt c req txt) (has_room (mux s))
      (then_do (TClient c) [] (fromClientPrompt c req txt (mux s)) s) _ eq_refl) as (-> & _ & -> & _).
    apply (log_same (mux s)); [apply (prompt_frame c req txt)|done].
  - apply (log_same (mux s)); [|done]. done.
  - apply (log_same (mux s)); [|done]. done.
  - apply (log_same (mux s)); [|done]. simpl. unfold unregisterClient. by destruct (bool_decide _).
  - apply (log_same (mux s)); [|done]. simpl. unfold Stop. by destruct (stopped _).
  - destruct Hl as [cl Hl Hcl Hd|cl Hl Hcl Hn|batch m Hl Hc|msg l Hl|msg l Hl|Hl];
      try by apply (log_same (mux s)).
    apply catch_up_log in Hc as [Hc _]. by apply (log_same (mux s)).
Qed.

(** ** The replay *)

Definition visible (c : string) (l : list logItem) : list OutMsg := omap (for_client c) l.
(** The items after position [j] and up to [n]. *)
Definition between (j n : Z) (h : list logItem) : list logItem :=
  take (Z.to_nat (n - j)) (drop (Z.to_nat j) h).

Lemma between_app j n h l : 0 <= j -> n <= zlen h -> between j n (h ++ l) = between j n h.
Proof.
  unfold between, zlen. intros Hj Hn. destruct (decide (j <= n)).
  - rewrite drop_app, take_app_le; [done|]. rewrite length_drop. lia.
  - by replace (Z.to_nat (n - j)) with 0%nat by lia.
Qed.
Lemma between_rest j n h :
  0 <= j <= n -> n <= zlen h -> between j (zlen h) h = between j n h ++ drop (Z.to_nat n) h.
Proof.
  unfold between, zlen. intros Hj Hn.
  rewrite (take_ge _ (Z.to_nat (Z.of_nat (length h) - j))) by (rewrite length_drop; lia).
  rewrite <-(take_drop (Z.to_nat (n - j)) (drop (Z.to_nat j) h)) at 1. rewrite drop_drop. do 2 f_equal. lia.
Qed.

Definition pending_of (pc : loopPC) : list OutMsg := match pc with LoopSend l => l | _ => [] end.

Record replay_inv (joined : gmap string Z) (s : System) : Prop := {
  r_bounds : forall c cl, heap (mux s) !! c = Some cl ->
    exists j, joined !! c = Some j /\ 0 <= j <= cursor cl /\ cursor cl <= seq (mux s);
  r_copy : forall c cl pc j, heap (mux s) !! c = Some cl -> loops s !! c = Some pc -> joined !! c = Some j ->
    pc <> LoopExit -> c ∉ lost s ->
    default [] (sent s !! c) ++ pending_of pc = visible c (between j (cursor cl) (items s));
  r_sleep : forall c cl, heap (mux s) !! c = Some cl -> loops s !! c = Some LoopWait ->
    notify cl = false -> hasSession cl = true -> c ∈ clients (mux s) ->
    cursor cl = seq (mux s) \/ c ∈ wakes_of (todo s (TClient c));
  r_before : forall i it c j, items s !! i = Some it -> target it = Some c -> joined !! c = Some j ->
    j <= Z.of_nat i;
  r_fresh : forall c, heap (mux s) !! c = None -> joined !! c = None /\ sent s !! c = None
}.

Lemma replay_new : replay_inv ∅ new_system.
Proof. split; try done. Qed.

(** A step that keeps the history, the cursors and the loops. *)
Lemma replay_same joined s s' :
  replay_inv joined s -> seq (mux s') = seq (mux s) -> items s' = items s -> sent s' = sent s ->
  loops s' = loops s -> lost s' = lost s ->
  (forall c, heap (mux s') !! c = None -> heap (mux s) !! c = None) ->
  (forall c cl', heap (mux s') !! c = Some cl' -> exists cl, heap (mux s) !! c = Some cl /\
     cursor cl' = cursor cl /\
     (notify cl' = false -> hasSession cl' = true -> c ∈ clients (mux s') ->
      c ∈ wakes_of (todo s' (TClient c)) \/
      notify cl = false /\ hasSession cl = true /\ c ∈ clients (mux s) /\
        (c ∈ wakes_of (todo s (TClient c)) -> c ∈ wakes_of (todo s' (TClient c))))) ->
  replay_inv joined s'.
Proof.
  intros [H1 H2 H3 H4 H5] Es Ei Esn El Elo Hn Hs. split; rewrite ?Ei, ?Esn, ?Es, ?El, ?Elo.
  - intros c cl' Hcl. destruct (Hs c cl' Hcl) as (cl & Hc & -> & _). by apply H1.
  - intros c cl' pc j Hcl. destruct (Hs c cl' Hcl) as (cl & Hc & -> & _). by apply H2.
  - intros c cl' Hcl Hl Hno Hse Hin. destruct (Hs c cl' Hcl) as (cl & Hc & -> & Hw).
    destruct (Hw Hno Hse Hin) as [?|(? & ? & ? & Hww)]; [by right|].
    destruct (H3 c cl Hc Hl) as [?|?]; [done..|by left|right; by apply Hww].
  - done.
  - intros c Hc. by apply H5, Hn.
Qed.

(** The common case: the heap and the clients stay too. *)
Lemma replay_still joined s s' :
  replay_inv joined s -> seq (mux s') = seq (mux s) -> heap (mux s') = heap (mux s) ->
  clients (mux s') = clients (mux s) -> items s' = items s -> sent s' = sent s ->
  loops s' = loops s -> lost s' = lost s ->
  (forall c, c ∈ wakes_of (todo s (TClient c)) -> c ∈ wakes_of (todo s' (TClient c))) ->
  replay_inv joined s'.
Proof.
  intros Hinv Es Eh Ec Ei Esn El Elo Hw. apply (replay_same joined s); try done; rewrite Eh; [done|].
  intros c cl Hcl. exists cl. split_and!; [done..|]. rewrite Ec. intros ? ? ?. right. split_and!; [done..|apply Hw].
Qed.

Lemma quiet_wakes s s' t rest acts c :
  resumes s t rest -> forallb quiet acts = true -> threads s' = <[t := acts ++ rest]> (threads s) ->
  c ∈ wakes_of (todo s (TClient c)) -> c ∈ wakes_of (todo s' (TClient c)).
Proof.
  intros Hr Hq Ht. destruct (quiet_nothing _ Hq) as (_ & _ & _ & Hqw).
  destruct (resumes_todo _ _ _ Hr) as (_ & _ & _ & Hw).
  rewrite (todo_insert _ _ _ _ _ Ht). destruct (decide _) as [->|]; [|done].
  by rewrite wakes_of_app, Hqw, Hw.
Qed.

(** The wakes a thread has left when it gives up [a] for [acts]. *)
Lemma perform_wakes s s' t a rest acts c :
  threads s !! t = Some (a :: rest) -> threads s' = <[t := acts ++ rest]> (threads s) -> wakes_of [a] = [] ->
  c ∈ wakes_of (todo s (TClient c)) -> c ∈ wakes_of (todo s' (TClient c)).
Proof.
  intros Ht Ht' Ha. rewrite (todo_insert _ _ _ _ _ Ht'). destruct (decide (t = TClient c)) as [->|]; [|done].
  unfold todo. rewrite Ht. change ((c ∈ wakes_of ([a] ++ rest)) -> (c ∈ wakes_of (acts ++ rest))).
  rewrite !wakes_of_app, Ha. set_solver.
Qed.
Lemma wake_wakes s s' t c rest c' :
  threads s !! t = Some (DoWake c :: rest) -> threads s' = <[t := rest]> (threads s) -> c' <> c ->
  c' ∈ wakes_of (todo s (TClient c')) -> c' ∈ wakes_of (todo s' (TClient c')).
Proof.
  intros Ht Ht' Hne. rewrite (todo_insert s s' t rest) by done.
  destruct (decide (t = TClient c')) as [->|]; [|done]. unfold todo. rewrite Ht.
  change ((c' ∈ wakes_of ([DoWake c] ++ rest)) -> (c' ∈ wakes_of rest)).
  rewrite wakes_of_app. simpl. by intros [?|?]%elem_of_cons.
Qed.
Lemma free_wakes s s' t acts c :
  todo s t = [] -> threads s' = <[t := acts]> (threads s) ->
  c ∈ wakes_of (todo s (TClient c)) -> c ∈ wakes_of (todo s' (TClient c)).
Proof.
  intros Ht Ht'. rewrite (todo_insert _ _ _ _ _ Ht'). destruct (decide (t = TClient c)) as [->|]; [|done].
  rewrite Ht. set_solver.
Qed.

Section Invariants.
Context `{AcpJson}.

Lemma replay_append joined hand s t tgt msg rest :
  ids_inv s -> turn_inv hand s -> out_inv s -> log_inv (mux s) (items s) -> replay_inv joined s ->
  threads s !! t = Some (DoAppend tgt msg :: rest) ->
  replay_inv joined (perform t (DoAppend tgt msg) rest s).
Proof.
  intros Hids Hturn Hout Hlog [H1 H2 H3 H4 H5] Ht.
  set (s' := perform t (DoAppend tgt msg) rest s).
  destruct (append_frame tgt msg (mux s)) as (Ec & _ & _ & _ & _ & _ & _ & _ & _ & Eh).
  assert (seq (mux s') = seq (mux s) + 1) as Hseq.
  { change (seq (mux s')) with (seq (appendItem tgt msg (mux s))). unfold appendItem, wake_all.
    destruct (0 <? _); simpl; lia. }
  assert (items s' = items s ++ [mkItem (seq (mux s) + 1) msg tgt]) as Hitems.
  { unfold items. change (hist s') with (hist s ++ [(t, mkItem (seq (mux s) + 1) msg tgt)]). by rewrite fmap_app. }
  assert (forall c cl', heap (mux s') !! c = Some cl' -> exists cl, heap (mux s) !! c = Some cl /\
    cl' = if bool_decide (c ∈ clients (mux s)) then cl <| notify := true |> else cl) as Hheap.
  { intros c cl' Hcl. change (heap (mux s')) with (heap (appendItem tgt msg (mux s))) in Hcl.
    rewrite Eh in Hcl. apply fmap_Some in Hcl as (cl & ? & ->). by exists cl. }
  assert (forall c cl cl', heap (mux s) !! c = Some cl ->
    cl' = (if bool_decide (c ∈ clients (mux s)) then cl <| notify := true |> else cl) -> cursor cl' = cursor cl) as Hcur.
  { intros c cl cl' _ ->. by destruct (bool_decide _). }
  split; change (sent s') with (sent s); change (loops s') with (loops s); change (lost s') with (lost s);
    rewrite ?Hseq, ?Hitems.
  - intros c cl' Hcl. destruct (Hheap c cl' Hcl) as (cl & Hcl0 & He). rewrite (Hcur _ _ _ Hcl0 He).
    destruct (H1 c cl Hcl0) as (j & ? & ? & ?). exists j. split_and!; [done|lia..].
  - intros c cl' pc j Hcl Hpc Hj Hne Hlo. destruct (Hheap c cl' Hcl) as (cl & Hcl0 & He).
    rewrite (Hcur _ _ _ Hcl0 He). destruct (H1 c cl Hcl0) as (j' & Hj' & ? & ?).
    rewrite (H2 c cl pc j), between_app; [done| |rewrite <-(l_seq _ _ Hlog); lia|done..].
    rewrite Hj in Hj'. injection Hj' as ->. lia.
  - intros c cl' Hcl Hpc Hno Hse Hin. destruct (Hheap c cl' Hcl) as (cl & Hcl0 & ->).
    rewrite bool_decide_true in Hno; [done|]. by rewrite <-Ec.
  - intros i it c j [Hi|[Hi Hx]]%lookup_app_Some Htg Hj; [by eapply H4|].
    apply list_lookup_singleton_Some in Hx as [Hx <-]. simpl in Htg. subst tgt.
    destruct (append_known hand s t c msg rest Hids Hturn Hout Ht) as [cl Hcl].
    destruct (H1 c cl Hcl) as (j' & Hj' & ? & ?). rewrite Hj in Hj'. injection Hj' as <-.
    rewrite (l_seq _ _ Hlog) in *. unfold zlen in *. lia.
  - intros c Hc. apply H5. change (heap (mux s')) with (heap (appendItem tgt msg (mux s))) in Hc.
    rewrite Eh in Hc. by apply fmap_None in Hc.
Qed.

Lemma mux_catch_up_spec c m b m' h cl :
  log_inv m h -> heap m !! c = Some cl -> catch_up c m = (b, m') ->
  if hasSession cl then
    heap m' = <[c := cl <| cursor := Z.max (cursor cl) (seq m) |>]> (heap m) /\
    (0 <= cursor cl <= seq m -> base m <= cursor cl -> default [] b = visible c (drop (Z.to_nat (cursor cl)) h))
  else m' = m /\ b = None.
Proof.
  intros [Hs Hb Hl Hlen Hmax Hm Hn] Hcl. unfold catch_up. rewrite Hcl. destruct (hasSession cl); simpl; [|by intros [= <- <-]].
  assert (base m <= seq m) as Hbs by (unfold zlen in *; lia).
  destruct (Z.ltb_spec (cursor cl) (base m)) as [Hc|Hc].
  - destruct (Z.ltb_spec (base m) (seq m)); intros [= <- <-]; simpl; (split; [do 3 f_equal; lia|intros; lia]).
  - destruct (Z.ltb_spec (cursor cl) (seq m)); intros [= <- <-]; simpl; (split; [do 3 f_equal; lia|]); intros Hc0 _.
    + rewrite Hl, drop_drop. unfold visible. do 2 f_equal. lia.
    + rewrite drop_ge; [done|]. rewrite Hs in *. unfold zlen in *. lia.
Qed.

Lemma replay_check joined s c b m :
  log_inv (mux s) (items s) -> replay_inv joined s -> ids_inv s ->
  loops s !! c = Some LoopCheck -> catch_up c (mux s) = (b, m) ->
  replay_inv joined (set_loop c (match default [] b with [] => LoopWait | l => LoopSend l end)
    (s <| mux := m |> <| lost ::= (fun l => if skips c (mux s) then {[c]} ∪ l else l) |>)).
Proof.
  intros Hlog [H1 H2 H3 H4 H5] Hids Hpc Hcu. match goal with |- replay_inv _ ?x => set (s' := x) end.
  destruct (proj1 (k_loops s Hids c)) as [cl Hcl]; [by eexists|].
  pose proof (catch_up_log _ _ _ _ Hcu) as [(_ & _ & Es & _) Ec].
  pose proof (mux_catch_up_spec _ _ _ _ _ _ Hlog Hcl Hcu) as Hspec.
  destruct (H1 c cl Hcl) as (j & Hj & Hb1 & Hb2).
  set (pc' := match default [] b with [] => LoopWait | l => LoopSend l end) in *.
  assert (pending_of pc' = default [] b) as Hpend by (unfold pc'; by destruct (default [] b)).
  assert (pc' <> LoopExit) as Hne by (unfold pc'; by destruct (default [] b)).
  assert (forall c' pc, <[c := pc']> (loops s) !! c' = Some pc -> c' <> c -> loops s !! c' = Some pc) as Hloops.
  { intros c' pc Hl Hn. by rewrite lookup_insert_ne in Hl. }
  assert ((c ∉ lost s') -> (c ∉ lost s) /\ skips c (mux s) = false) as Hlost.
  { simpl. destruct (skips c (mux s)); [set_solver|done]. }
  assert (forall c', c' <> c -> c' ∉ lost s' -> c' ∉ lost s) as Hlost'.
  { intros c' Hn. simpl. destruct (skips c (mux s)); set_solver. }
  unfold skips in Hlost. rewrite Hcl in Hlost.
  destruct (hasSession cl) eqn:Hse; simpl in Hlost.
  - destruct Hspec as [Eh Hbatch]. replace (Z.max (cursor cl) (seq (mux s))) with (seq (mux s)) in Eh by lia.
    split; simpl; rewrite ?Es, ?Ec, ?Eh.
    + intros c' cl' [[<- <-]|[_ Hcl']]%lookup_insert_Some; [|by apply H1].
      exists j. simpl. split_and!; [done|lia..].
    + intros c' cl' pc j' [[<- <-]|[Hn Hcl']]%lookup_insert_Some.
      * rewrite lookup_insert_eq. intros [= <-] Hj' _ Hlo. rewrite Hj in Hj'. injection Hj' as <-.
        destruct (Hlost Hlo) as [Hlo' Hsk]. apply Z.ltb_ge in Hsk. simpl.
        rewrite Hpend, Hbatch by lia. specialize (H2 c cl LoopCheck j Hcl Hpc Hj). simpl in H2.
        rewrite app_nil_r in H2. rewrite H2 by done. rewrite (l_seq _ _ Hlog) in *.
        change (items s') with (items s). rewrite (between_rest j (cursor cl)) by lia. unfold visible. by rewrite omap_app.
      * intros Hpc' Hj' Hne' Hlo. apply (H2 c' cl' pc j'); auto.
    + intros c' cl' [[<- <-]|[Hn Hcl']]%lookup_insert_Some; [by left|].
      rewrite lookup_insert_ne by done. apply H3; done.
    + done.
    + intros c' [Hcl' _]%lookup_insert_None. by apply H5.
  - destruct Hspec as [-> ->]. split; simpl; try done.
    + intros c' cl' pc j' Hcl' Hpc' Hj' Hne' Hlo. destruct (decide (c' = c)) as [->|Hn].
      * rewrite lookup_insert_eq in Hpc'. injection Hpc' as <-. rewrite Hcl in Hcl'. injection Hcl' as <-.
        apply (H2 c cl LoopCheck j'); try done. by apply Hlost.
      * apply (H2 c' cl' pc j'); auto.
    + intros c' cl' Hcl' Hpc' Hno Hse'. destruct (decide (c' = c)) as [->|Hn]; [congruence|].
      apply H3; auto.
Qed.
Lemma replay_connect joined hand s :
  ids_inv s -> turn_inv hand s -> out_inv s -> log_inv (mux s) (items s) -> replay_inv joined s ->
  exists joined', replay_inv joined' (s <| mux ::= registerClient |>
    <| threads ::= <[TClient (nextClientID (mux s)) := []]> |> <| loops ::= <[nextClientID (mux s) := LoopWait]> |>).
Proof.
  intros Hids Hturn Hout Hlog [H1 H2 H3 H4 H5].
  pose proof (next_fresh s Hids) as Hfresh.
  destruct (H5 _ Hfresh) as [Hj0 Hs0].
  assert (0 <= base (mux s) <= seq (mux s)) as Hbase.
  { destruct Hlog as [_ Hb _ Hl _ _ _]. unfold zlen in Hl. lia. }
  assert (forall t, todo (s <| threads := <[TClient (nextClientID (mux s)) := []]> (threads s) |>) t = todo s t) as Htodo.
  { intros t. rewrite (todo_insert s _ (TClient (nextClientID (mux s))) []) by done.
    destruct (decide _) as [<-|]; [|done]. unfold todo.
    pose proof (next_no_thread s Hids) as Hnt.  by rewrite Hnt. }
  exists (<[(nextClientID (mux s)) := base (mux s)]> joined). unfold registerClient.  split; simpl.
  - intros c cl [[<- <-]|[Hne Hcl]]%lookup_insert_Some.
    + exists (base (mux s)). rewrite lookup_insert_eq. simpl. split_and!; [done|lia..].
    + rewrite lookup_insert_ne by done. by apply H1.
  - intros c cl pc j [[<- <-]|[Hne Hcl]]%lookup_insert_Some.
    + rewrite !lookup_insert_eq, Hs0. intros [= <-] [= <-] _ _. simpl.
      unfold between. by rewrite Z.sub_diag.
    + rewrite !lookup_insert_ne by done. by apply H2.
  - intros c cl [[<- <-]|[Hne Hcl]]%lookup_insert_Some; [done|].
    rewrite lookup_insert_ne by done. intros Hl Hno Hse Hin.
    destruct (H3 c cl Hcl Hl Hno Hse) as [?|Hw]; [set_solver|by left|right].
    specialize (Htodo (TClient c)). unfold todo in *. simpl in *. by rewrite Htodo.
  - intros i it c j Hi Htg [[<- <-]|[Hne Hj]]%lookup_insert_Some; [|by eapply H4].
    exfalso. apply list_elem_of_lookup_2 in Hi. apply list_elem_of_fmap in Hi as ([t it'] & -> & Hin).
    destruct (target_known hand s t it' (nextClientID (mux s)) Hids Hturn Hout Hin Htg). congruence.
  - intros c [Hc Hne]%lookup_insert_None. rewrite lookup_insert_ne by done. by apply H5.
Qed.

Lemma replay_step joined hand s s' :
  mstep s s' -> ids_inv s -> turn_inv hand s -> out_inv s -> log_inv (mux s) (items s) ->
  replay_inv joined s -> exists joined', replay_inv joined' s'.
Proof.
  intros Hstep Hids Hturn Hout Hlog Hinv.
  destruct Hstep as [s' t rest acts Hr Hc Hq Ht Hn|s' Hc Ht Hn|t tgt msg rest Ht
    |t sid q rest Ht|t failed rest Ht|t c rest Ht|params Ht|failed Ht Hi|c req txt o Ht|c acts o Ht Hq| |c Ht| |c s' Hl].
  - exists joined. apply (replay_still joined s); [done|apply Hc|apply Hc|apply Hc|unfold items; by rewrite (n_hist _ _ Hn)
      |apply Hn|apply Hn|apply Hn|]. intros c. by apply (quiet_wakes s s' t rest acts).
  - exists joined. apply (replay_still joined s); [done|apply Hc|apply Hc|apply Hc|unfold items; by rewrite (n_hist _ _ Hn)
      |apply Hn|apply Hn|apply Hn|]. intros c. unfold todo. by rewrite Ht.
  - exists joined. by apply (replay_append joined hand).
  - exists joined. apply (replay_still joined s); try done. intros c.
    by apply (perform_wakes s _ t (DoSendPrompt sid q) rest [DoSendLine (LPrompt (nextID (mux s) + 1) sid (text q))]).
  - exists joined. destruct (turn_end_frame failed (mux s)) as ((_ & _ & Es & _) & (Ec & Eh & _) & _).
    apply (replay_still joined s); [done|exact Es|exact Eh|exact Ec|done..|]. intros c.
    by apply (perform_wakes s _ t (DoTurnEnd failed) rest (handleTurnEnd failed (mux s)).2).
  - exists joined. apply (replay_same joined s); try done; simpl.
    + intros c'. rewrite !eq_None_not_Some, alter_known. done.
    + intros c' cl' Hcl'. apply lookup_alter_Some in Hcl' as [(-> & cl & Hcl & ->)|(Hne & Hcl)].
      * exists cl. split_and!; [done..|]. done.
      * exists cl'. split_and!; [done..|]. intros ? ? ?. right. split_and!; [done..|].
        by apply (wake_wakes s _ t c rest).
  - exists joined. apply (replay_still joined s); try done. intros c.
    apply (free_wakes s _ TReader [DoAppend None (OUpdate params)]); [|done]. unfold todo. by rewrite Ht.
  - exists joined. apply (replay_still joined s); try done. intros c.
    apply (free_wakes s _ TReader [DoTurnEnd failed]); [|done]. unfold todo. by rewrite Ht.
  - exists joined. destruct (prompt_frame c req txt (mux s)) as ((_ & _ & Es & _) & (Ec & Eh & _) & _).
    remember (note_opening _ _) as s' eqn:Hs'.
    apply note_prompt_notes in Hs' as (Hm & Hth & Hh & Hsn & Hlo & Hl & _).
    simpl in Hth. rewrite app_nil_r in Hth.
    apply (replay_still joined s); rewrite ?Hm; [done|exact Es|exact Eh|exact Ec|unfold items; by rewrite Hh|done..|].
    intros c'. apply (free_wakes s s' (TClient c) (fromClientPrompt c req txt (mux s)).2); [|done].
    unfold todo. by rewrite Ht.
  - exists joined. destruct (quiet_nothing _ Hq) as (_ & _ & _ & Hqw).
    apply (replay_same joined s); try done; simpl.
    + intros c'. rewrite !eq_None_not_Some, alter_known. done.
    + intros c' cl' Hcl'. apply lookup_alter_Some in Hcl' as [(-> & cl & Hcl & ->)|(Hne & Hcl)].
      * exists cl. split_and!; [done..|]. intros _ _ _. left.
        erewrite todo_insert; [|simpl; by rewrite app_nil_r].
        rewrite decide_True, wakes_of_app by done. set_solver.
      * exists cl'. split_and!; [done..|]. intros ? ? ?. right. split_and!; [done..|].
        apply (free_wakes s _ (TClient c) (acts ++ [DoWake c])); [unfold todo; by rewrite Ht|simpl; by rewrite app_nil_r].
  - by apply (replay_connect joined hand).
  - exists joined. assert (forall c', c' <> c -> todo (s <| threads := delete (TClient c) (threads s) |>) (TClient c') = todo s (TClient c')) as Htodo.
    { intros c' Hne. unfold todo. simpl. rewrite lookup_delete_ne; [done|congruence]. }
    unfold unregisterClient. apply (replay_same joined s); try done; simpl.
    + by destruct (bool_decide _).
    + intros c'. destruct (bool_decide _); [|done]. simpl. rewrite !eq_None_not_Some, alter_known. done.
    + intros c' cl' Hcl'.
      assert (exists cl, heap (mux s) !! c' = Some cl /\ cursor cl' = cursor cl /\ notify cl' = notify cl /\ hasSession cl' = hasSession cl)
        as (cl & Hcl & Ecur & Eno & Ese).
      { destruct (bool_decide _) in Hcl'; [|by exists cl']. simpl in Hcl'.
        apply lookup_alter_Some in Hcl' as [(-> & cl & Hcl & ->)|(Hne & Hcl)]; [by exists cl|by exists cl']. }
      exists cl. split_and!; [done..|]. rewrite Eno, Ese. intros Hno Hse Hin. right.
      assert (c' ∈ clients (mux s) /\ c' <> c) as [Hin' Hne].
      { destruct (bool_decide (c ∈ clients (mux s))) eqn:Hb; simpl in Hin; [set_solver|].
        apply bool_decide_eq_false in Hb. split; [done|]. intros ->. done. }
      split_and!; [done..|]. specialize (Htodo c' Hne). unfold todo in *. simpl in *. by rewrite Htodo.
  - exists joined. unfold Stop. apply (replay_same joined s); try done; simpl.
    + by destruct (stopped _).
    + intros c. destruct (stopped _); [done|]. simpl. rewrite map_lookup_imap. by destruct (heap (mux s) !! c).
    + intros c cl'. destruct (stopped (mux s)).
      * intros Hcl. exists cl'. split_and!; [done..|]. intros ? ? ?. by right.
      * simpl. rewrite map_lookup_imap. destruct (heap (mux s) !! c) as [cl|]; [|done]. simpl. intros [= <-].
        exists cl. split_and!; [done| |set_solver]. by destruct (bool_decide _).
  - exists joined. destruct Hl as [cl Hl Hcl Hd|cl Hl Hcl Hn|batch m Hl Hc|msg l Hl|msg l Hl|Hl].
    + destruct Hinv as [H1 H2 H3 H4 H5]. split; simpl; try done.
      * intros c' cl' pc j Hcl' [[<- <-]|[Hne Hpc]]%lookup_insert_Some; [done|by apply H2].
      * intros c' cl' Hcl' [[<- ?]|[Hne Hpc]]%lookup_insert_Some; [done|by apply H3].
    + destruct Hinv as [H1 H2 H3 H4 H5]. split; simpl; try done.
      * intros c' cl' [[<- <-]|[Hne Hcl']]%lookup_insert_Some; [by apply (H1 c cl)|by apply H1].
      * intros c' cl' pc j [[<- <-]|[Hne Hcl']]%lookup_insert_Some.
        { rewrite lookup_insert_eq. intros [= <-] Hj _ Hlo. by apply (H2 c cl LoopWait j). }
        { rewrite lookup_insert_ne by done. by apply H2. }
      * intros c' cl' [[<- <-]|[Hne Hcl']]%lookup_insert_Some.
        { by rewrite lookup_insert_eq. }
        { rewrite lookup_insert_ne by done. by apply H3. }
      * intros c' [Hc' _]%lookup_insert_None. by apply H5.
    + by apply replay_check.
    + destruct Hinv as [H1 H2 H3 H4 H5]. split; simpl; try done.
      * intros c' cl' pc j Hcl' [[<- <-]|[Hne Hpc]]%lookup_insert_Some Hj Hne' Hlo.
        { rewrite lookup_insert_eq. simpl. rewrite <-app_assoc. by apply (H2 c cl' (LoopSend (msg :: l)) j). }
        { rewrite lookup_insert_ne by done. by apply H2. }
      * intros c' cl' Hcl' [[<- ?]|[Hne Hpc]]%lookup_insert_Some; [done|by apply H3].
      * intros c' Hc'. destruct (H5 c' Hc') as [? ?]. split; [done|].
        rewrite lookup_insert_ne; [done|]. intros <-.
        destruct (proj1 (k_loops s Hids c)) as [? ?]; [by eexists|congruence].
    + destruct Hinv as [H1 H2 H3 H4 H5]. split; simpl; try done.
      * intros c' cl' pc j Hcl' [[<- <-]|[Hne Hpc]]%lookup_insert_Some; [done|by apply H2].
      * intros c' cl' Hcl' [[<- ?]|[Hne Hpc]]%lookup_insert_Some; [done|by apply H3].
    + destruct Hinv as [H1 H2 H3 H4 H5]. split; simpl; try done.
      * intros c' cl' pc j Hcl' [[<- <-]|[Hne Hpc]]%lookup_insert_Some Hj Hne' Hlo; [|by apply H2].
        by apply (H2 c cl' (LoopSend []) j).
      * intros c' cl' Hcl' [[<- ?]|[Hne Hpc]]%lookup_insert_Some; [done|by apply H3].
Qed.

(** ** All invariants, in every reachable state *)

Record mux_inv (s : System) : Prop := {
  i_ids : ids_inv s;
  i_turn : exists hand, turn_inv hand s;
  i_out : out_inv s;
  i_said : said_inv s;
  i_log : log_inv (mux s) (items s);
  i_replay : exists joined, replay_inv joined s
}.

Lemma reachable_inv s : reachable s -> mux_inv s.
Proof.
  induction 1 as [|s s' Hr [Hids [hand Hturn] Hout Hsaid Hlog [joined Hrep]] Hstep].
  - split; [apply ids_new|exists None; apply mux_turn_new|apply out_new|done|by split|exists ∅; apply replay_new].
  - apply step_mstep in Hstep. split.
    + by apply (ids_step s).
    + by apply (mux_turn_step s s' hand).
    + by apply (out_step hand s).
    + by apply (said_step hand s).
    + by apply (log_step s).
    + by apply (replay_step joined hand s).
Qed.
End Invariants.
