(* ===== verification/AcpMuxContract.v ===== *)
(** * What the multiplexer promises

    Over every interleaving of its goroutines, with any agent and any clients: the log is the
    agent's transcript, with each turn's result in its place and the prompts answered in the order
    they were accepted; and a client that keeps up gets exactly one answer to each of its
    prompts. *)

From S2P Require Import Prelude GoLib AcpMux AcpMuxLaws AcpMuxTranscript AcpMuxReplay.
Section Contract.
Context `{AcpJson}.

(** C32: the multiplexer's log is the agent's transcript.  The agent's messages, as they came from
    it, are session/update notifications and responses to the prompt in flight ([said]): each of
    them became, in order, an update or the end of the turn in flight, but for a response the
    reader is still busy with.  What the reader has logged, and is about to log, is in that order
    every update, as a broadcast, and for every turn that ended the result, addressed to the
    request it answers, unless that client had left: a client sees its result after the turn's
    updates and before the next turn's.  The turns ended so far, the one under way and the queue
    are the accepted prompts, in the order of acceptance; turns do not overlap.  The log holds the
    last 2000 items at most, without a gap. *)
Theorem log_is_the_transcript s :
  reachable s ->
  said s = (heard <$> upstream s) ++ (SEnd <$> ends_of (todo s TReader)) /\
  logged TReader (hist s) ++ appends_of (todo s TReader) = transcript (upstream s) /\
  (exists cur, key <$> accepted s = ended (upstream s) ++ cur ++ (key <$> queue (mux s)) /\
     length cur = if busy (mux s) then 1%nat else 0%nat) /\
  asked s ≡ₚ accepted s ++ refused s /\
  log (mux s) = drop (Z.to_nat (base (mux s))) (items s) /\ zlen (log (mux s)) <= defaultMaxLog.
Proof.
  intros [Hids [hand Hturn] Hout Hsaid Hlog _]%reachable_inv. split_and!.
  - exact Hsaid.
  - apply (o_out s Hout TReader).
  - rewrite (t_fifo _ _ Hturn). pose proof (t_cur _ _ Hturn) as Hc. pose proof (t_busy _ _ Hturn) as Hb.
    unfold in_flight in Hc. destruct (decide (inflightPromptID (mux s) = 0)) as [Hi|Hi].
    + exists (key <$> option_list (snd <$> hand)). rewrite !fmap_app, Hc. split; [done|].
      destruct (busy (mux s)); [|by destruct Hb as [-> _]].
      destruct hand; [done|]. by destruct (proj1 Hb eq_refl).
    + destruct Hc as (l & q & -> & Hl & _). exists [key q]. rewrite !fmap_app, Hl.
      destruct (busy (mux s)); [|by destruct Hb]. rewrite (proj2 Hb Hi). split; [|done].
      simpl. by rewrite <-app_assoc.
  - apply Hturn.
  - apply Hlog.
  - apply Hlog.
Qed.

(** ** One answer to each prompt *)

(** The ids of the prompt results in what a client was sent. *)
Definition answers_in (l : list OutMsg) : list RawID :=
  omap (fun m => match m with OResult id (StopReason _) => Some id | _ => None end) l.
Definition answer_to (c : string) (tm : option string * OutMsg) : option RawID :=
  match tm with
  | (Some c', OResult id (StopReason _)) => if decide (c' = c) then Some id else None
  | _ => None
  end.
(** The ids of the prompts a client asked. *)
Definition requests (c : string) (l : list queuedPrompt) : list RawID :=
  omap (fun q => if decide (clientID q = c) then Some (clientReq q) else None) l.

Definition pair_of (it : logItem) : option string * OutMsg := (target it, raw it).

Lemma omap_step {A B} (f : A -> option B) x l : omap f (x :: l) = option_list (f x) ++ omap f l.
Proof. simpl. by destruct (f x). Qed.

Lemma answers_app l l' : answers_in (l ++ l') = answers_in l ++ answers_in l'.
Proof. apply omap_app. Qed.
Lemma omap_none {A B} (f : A -> option B) l : (forall x, x ∈ l -> f x = None) -> omap f l = [].
Proof.
  induction l as [|x l IH]; [done|]. intros Hf. rewrite omap_step, Hf, IH; [done| |left].
  intros y Hy. apply Hf. by right.
Qed.

Lemma requests_app c l l' : requests c (l ++ l') = requests c l ++ requests c l'.
Proof. apply omap_app. Qed.

Lemma requests_perm c l l' : l ≡ₚ l' -> requests c l ≡ₚ requests c l'.
Proof. intros Hp. unfold requests. by rewrite Hp. Qed.

Lemma logged_in t h it : (t, it) ∈ h -> pair_of it ∈ logged t h.
Proof. intros Hin. apply list_elem_of_omap. exists (t, it). split; [done|]. simpl. by rewrite decide_True. Qed.

(** What an item is to a client, by the invariant of what the threads log. *)
Lemma answers_visible s c l :
  out_inv s -> (forall it, it ∈ l -> it ∈ items s) ->
  answers_in (visible c l) = omap (fun it => answer_to c (pair_of it)) l.
Proof.
  intros Hout. induction l as [|it l IH]; intros Hin; [done|].
  assert (answers_in (visible c l) = omap (fun it => answer_to c (pair_of it)) l) as Hl by (apply IH; set_solver).
  assert (answers_in (visible c (it :: l)) = answers_in (option_list (for_client c it)) ++ answers_in (visible c l)) as ->.
  { unfold visible, answers_in. by rewrite omap_step, omap_app. }
  rewrite omap_step, Hl. f_equal.
  destruct it as [n msg tg]. unfold for_client, answer_to, pair_of. simpl. destruct tg as [c'|]; simpl.
  - unfold opt_eqb. destruct (decide (c' = c)) as [->|Hne].
    + rewrite bool_decide_true by done. by destruct msg as [|id []|].
    + rewrite bool_decide_false by congruence. by destruct msg as [|id []|].
  - assert (exists params, msg = OUpdate params) as [params ->]; [|done].
    assert (mkItem n msg None ∈ items s) as Hit by (apply Hin; left).
    apply list_elem_of_fmap in Hit as ([t it] & He & Hit). simpl in He. subst it.
    apply logged_in in Hit. unfold pair_of in Hit. simpl in Hit.
    assert ((None, msg) ∈ produced s t) as Hp by (rewrite <-(o_out s Hout t); set_solver).
    destruct t as [|c'|k]; simpl in Hp; [| |set_solver].
    + unfold transcript in Hp. apply list_elem_of_In, in_flat_map in Hp as (e & _ & Hp).
      destruct e as [p|k f a]; simpl in Hp; [destruct Hp as [[= <-]|[]]; by exists p|].
      destruct a; [|done]. by destruct Hp as [?|[]].
    + apply list_elem_of_omap in Hp as (q & _ & Hp). destruct (decide _); done.
Qed.

(** Answers to [c] come from the reader or from [c]'s own thread. *)
Lemma answers_by_thread s c h :
  out_inv s -> (forall ti, ti ∈ h -> ti ∈ hist s) ->
  omap (fun it => answer_to c (pair_of it)) (snd <$> h) ≡ₚ
  omap (answer_to c) (logged TReader h) ++ omap (answer_to c) (logged (TClient c) h).
Proof.
  intros Hout. induction h as [|[t it] h IH]; intros Hin; [done|].
  assert (IH' := IH ltac:(set_solver)). clear IH.
  assert (pair_of it ∈ produced s t) as Hp.
  { rewrite <-(o_out s Hout t). apply elem_of_app. left. apply logged_in. apply Hin. left. }
  assert (forall t', logged t' ((t, it) :: h) = (if decide (t = t') then [pair_of it] else []) ++ logged t' h) as Hstep.
  { intros t'. unfold logged. rewrite omap_step. simpl. by destruct (decide (t = t')). }
  rewrite fmap_cons, omap_step, !Hstep, !omap_app, IH'. simpl snd.
  assert (omap (answer_to c) [pair_of it] = option_list (answer_to c (pair_of it))) as Hone
    by (rewrite omap_step; apply app_nil_r).
  destruct t as [|c'|k].
  - rewrite (decide_True (P := TReader = TReader)), (decide_False (P := TReader = TClient c)), Hone by done.
    by rewrite <-!app_assoc.
  - rewrite (decide_False (P := TClient c' = TReader)) by done.
    destruct (decide (TClient c' = TClient c)) as [[= ->]|Hne].
    + rewrite Hone. change (omap (answer_to c) []) with (@nil RawID). rewrite !app_nil_l, !app_assoc.
      by rewrite (Permutation_app_comm (option_list _)).
    + assert (answer_to c (pair_of it) = None) as ->; [|done].
      simpl in Hp. apply list_elem_of_omap in Hp as (q & _ & Hp). destruct (decide (clientID q = c')) as [Hq|]; [|done].
      apply (inj Some) in Hp. rewrite <-Hp. unfold refusal, answer_to. rewrite decide_False by congruence. done.
  - set_solver.
Qed.

Lemma transcript_answers s c :
  out_inv s -> c ∈ clients (mux s) -> forall l q, (forall e, e ∈ l -> e ∈ upstream s) -> key <$> q = ended l ->
  omap (answer_to c) (transcript l) = requests c q.
Proof.
  intros Hout Hc l. induction l as [|e l IH]; intros q Hin Hq; simpl in *.
  { by destruct q. }
  destruct e as [params|k f a]; [apply IH; set_solver|].
  destruct q as [|q0 q]; [done|]. injection Hq as Hk Hq.
  assert (omap (answer_to c) (transcript l) = requests c q) as Hl by (apply IH; [set_solver|exact Hq]).
  change (transcript (UEnd k f a :: l)) with (render (UEnd k f a) ++ transcript l).
  rewrite omap_app, Hl. change (requests c (q0 :: q)) with (requests c ([q0] ++ q)). rewrite requests_app. f_equal.
  unfold requests. simpl. destruct k as [c' r]. unfold key in Hk. injection Hk as Hk1 Hk2. rewrite Hk1, Hk2.
  destruct (decide (c' = c)) as [->|Hne].
  - rewrite (o_ans s Hout (c, r) f a); [|apply Hin; left|done]. simpl. by rewrite decide_True.
  - destruct a; simpl; [|done]. by rewrite decide_False.
Qed.

Lemma refusal_answers c l : omap (answer_to c) (refusals_of c l) = requests c l.
Proof.
  induction l as [|q l IH]; [done|].
  change (refusals_of c (q :: l)) with (refusals_of c ([q] ++ l)).
  change (requests c (q :: l)) with (requests c ([q] ++ l)).
  rewrite refusals_app, requests_app, omap_app, IH. f_equal. unfold refusals_of, requests. simpl.
  destruct (decide _) as [<-|]; [|done]. simpl. by rewrite decide_True.
Qed.

(** ** What is written outside the log

    The reader writes permission requests; a client's own goroutine answers its requests to open a
    connection or a session, in order, and no prompt. *)

Definition writes_of (l : list action) : list (string * OutMsg) :=
  omap (fun a => match a with DoWrite c msg => Some (c, msg) | _ => None end) l.
(** The ids of all results, and of those that are no prompt's. *)
Definition results_in (l : list OutMsg) : list RawID :=
  omap (fun m => match m with OResult id _ => Some id | _ => None end) l.
Definition greetings_in (l : list OutMsg) : list RawID :=
  omap (fun m => match m with OResult id (StopReason _) => None | OResult id _ => Some id | _ => None end) l.
Definition openings (c : string) (l : list (string * RawID)) : list RawID :=
  omap (fun ci => if decide (fst ci = c) then Some (snd ci) else None) l.

(** Neither an update nor a prompt's result. *)
Definition aside (msg : OutMsg) : Prop :=
  match msg with OUpdate _ | OResult _ (StopReason _) => False | _ => True end.
Definition may_write (t : tid) (cm : string * OutMsg) : Prop :=
  aside (snd cm) /\
  match t with
  | TReader => results_in [snd cm] = []
  | TClient c => fst cm = c
  | TOther _ => False
  end.

Record write_inv (s : System) : Prop := {
  w_todo : forall t cm, cm ∈ writes_of (todo s t) -> may_write t cm;
  w_done : forall c msg, msg ∈ default [] (written s !! c) -> aside msg;
  w_open : forall c, results_in (default [] (written s !! c)) ++ results_in (snd <$> writes_of (todo s (TClient c))) =
             openings c (opened s)
}.

Lemma writes_of_app l l' : writes_of (l ++ l') = writes_of l ++ writes_of l'.
Proof. apply omap_app. Qed.
Lemma results_in_app l l' : results_in (l ++ l') = results_in l ++ results_in l'.
Proof. apply omap_app. Qed.
Lemma greetings_app l l' : greetings_in (l ++ l') = greetings_in l ++ greetings_in l'.
Proof. apply omap_app. Qed.
Lemma openings_app c l l' : openings c (l ++ l') = openings c l ++ openings c l'.
Proof. apply omap_app. Qed.

Lemma write_new : write_inv new_system.
Proof.
  assert (forall t, todo new_system t = []) as Htodo.
  { intros t. unfold todo, new_system. simpl. destruct (decide (t = TReader)) as [->|Hne]; [done|].
    by rewrite lookup_singleton_ne. }
  split; intros *; rewrite ?Htodo; simpl; rewrite ?lookup_empty; set_solver.
Qed.

Lemma write_same s s' :
  write_inv s -> (forall t, writes_of (todo s' t) = writes_of (todo s t)) -> written s' = written s ->
  opened s' = opened s -> write_inv s'.
Proof.
  intros [H1 H2 H3] Ht Hw Ho. split; intros *; rewrite ?Ht, ?Hw, ?Ho; [apply H1|apply H2|apply H3].
Qed.

(** A thread goes on with work that writes what is left to write. *)
Lemma write_goes_on s s' t l :
  write_inv s -> threads s' = <[t := l]> (threads s) -> writes_of l = writes_of (todo s t) ->
  written s' = written s -> opened s' = opened s -> write_inv s'.
Proof.
  intros Hinv Ht Hl. apply write_same; [done|]. intros t'. rewrite (todo_insert _ _ _ _ _ Ht).
  by destruct (decide (t = t')) as [<-|].
Qed.

Lemma write_done s t c msg rest :
  write_inv s -> threads s !! t = Some (DoWrite c msg :: rest) -> write_inv (perform t (DoWrite c msg) rest s).
Proof.
  intros [H1 H2 H3] Ht. set (s' := perform _ _ _ _).
  assert (forall t', todo s' t' = if decide (t = t') then rest else todo s t') as Htodo by (intros; by apply todo_insert).
  assert (todo s t = DoWrite c msg :: rest) as Hno by (unfold todo; by rewrite Ht).
  assert (writes_of (todo s t) = (c, msg) :: writes_of rest) as Hwr by by rewrite Hno.
  assert (may_write t (c, msg)) as [Ha Hwho] by (apply H1; rewrite Hwr; left). simpl in Ha, Hwho.
  assert (forall c', default [] (written s' !! c') =
            default [] (written s !! c') ++ (if decide (c = c') then [msg] else [])) as Hw.
  { intros c'. unfold s'. simpl. destruct (decide (c = c')) as [<-|].
    - by rewrite lookup_insert_eq.
    - by rewrite lookup_insert_ne, app_nil_r. }
  split.
  - intros t' cm. rewrite Htodo. destruct (decide (t = t')) as [<-|]; [|apply H1].
    intros Hin. apply H1. rewrite Hwr. by right.
  - intros c' msg'. rewrite Hw, elem_of_app. intros [Hin|Hin]; [by eapply H2|].
    destruct (decide (c = c')); [|set_solver]. apply list_elem_of_singleton in Hin as ->. done.
  - intros c'. rewrite Hw, Htodo, results_in_app, <-app_assoc. change (opened s') with (opened s). rewrite <-H3. f_equal.
    destruct (decide (t = TClient c')) as [->|Hne].
    + simpl in Hwho. subst c'. rewrite (decide_True (P := c = c)), Hwr by done.
      by rewrite <-(results_in_app [msg]).
    + destruct (decide (c = c')) as [->|]; [|done]. destruct t as [|c0|n]; [|congruence|done].
      change (results_in [msg] = []) in Hwho. by rewrite Hwho.
Qed.

Lemma write_starts s s' t l o :
  write_inv s -> threads s !! t = Some [] -> threads s' = <[t := l]> (threads s) -> written s' = written s ->
  opened s' = opened s ++ option_list o -> (forall cm, cm ∈ writes_of l -> may_write t cm) ->
  (forall c, (if decide (t = TClient c) then results_in (snd <$> writes_of l) else []) = openings c (option_list o)) ->
  write_inv s'.
Proof.
  intros [H1 H2 H3] Hfree Ht Hw Ho Hmay Hopen. split.
  - intros t' cm. rewrite (todo_insert _ _ _ _ _ Ht). destruct (decide (t = t')) as [<-|]; [apply Hmay|apply H1].
  - rewrite Hw. apply H2.
  - intros c. rewrite Hw, Ho, openings_app, <-H3, <-Hopen, (todo_insert _ _ _ _ _ Ht).
    destruct (decide (t = TClient c)) as [->|]; [|by rewrite app_nil_r].
    assert (todo s (TClient c) = []) as -> by (unfold todo; by rewrite Hfree). simpl. by rewrite app_nil_r.
Qed.

Lemma agent_writes msg t order m cm :
  cm ∈ writes_of (onAgent msg t order m).2 -> may_write TReader cm.
Proof.
  assert (forall id params, cm ∈ writes_of (onPermissionRequest id params t order m).2 -> may_write TReader cm) as Hperm.
  { intros id params. unfold onPermissionRequest. destruct (AsInt _); [|set_solver].
    destruct (decode_permission params). destruct (stopped m); [set_solver|].
    intros (a & Ha & Hcm)%list_elem_of_omap. apply list_elem_of_fmap in Ha as (c & -> & _). by injection Hcm as <-. }
  assert (cm ∉ writes_of (onUpstreamNotification msg)) as Hn.
  { unfold onUpstreamNotification. destruct (String.eqb _ _); set_solver. }
  unfold onAgent. destruct (AsInt (ID msg)) as [idn|], (negb (is_none (Result msg)) || negb (is_none (mError msg))).
  1: { destruct (waiters m !! idn); [set_solver|]. destruct (_ && _); set_solver. }
  all: destruct (ID msg); [destruct (String.eqb (Method msg) _); [apply Hperm|done]|done].
Qed.

(** A client's message is answered at once when it opens a connection or a session. *)
Lemma client_writes c msg m :
  writes_of (onClientMessage c msg m).2 =
    match opening_in c msg with
    | Some (_, id) => [(c, OResult id (if String.eqb (Method msg) "initialize"
                                       then Raw (default defaultInit (initResult m))
                                       else Session (sessionID m) (newModes m)))]
    | None => []
    end.
Proof.
  unfold opening_in, onClientMessage.
  assert (forall id r, writes_of (onClientPermResponse id r m).2 = []) as Hperm.
  { intros id r. unfold onClientPermResponse, resolvePermission. by destruct (pending m !! _). }
  assert (forall id b, writes_of (respondToClient c id b) = match id with Some id => [(c, OResult id b)] | None => [] end) as Hresp
    by (by intros []).
  destruct (AsInt (ID msg)) as [idn|] eqn:Hint, (String.eqb (Method msg) "" && (negb (is_none (Result msg)) || negb (is_none (mError msg)))) eqn:Hr.
  1: { rewrite Hperm. apply andb_prop in Hr as [He%String.eqb_eq _]. rewrite He. by destruct (ID msg). }
  all: clear Hr Hint; destruct (String.eqb_spec (Method msg) "initialize") as [->|Hi];
    [simpl; rewrite Hresp; by destruct (ID msg)|].
  all: destruct (String.eqb_spec (Method msg) "session/new") as [->|Hne];
    [simpl; rewrite writes_of_app, Hresp; by destruct (ID msg)|].
  all: destruct (String.eqb_spec (Method msg) "session/load") as [->|Hl];
    [simpl; rewrite writes_of_app, Hresp; by destruct (ID msg)|].
  all: assert (bool_decide (Method msg ∈ ["initialize"; "session/new"; "session/load"]) = false) as ->
    by (apply bool_decide_false; set_solver); simpl.
  all: transitivity (@nil (string * OutMsg)); [|by destruct (ID msg)].
  all: destruct (String.eqb _ "session/prompt");
    [destruct (ID msg); [|done]; unfold fromClientPrompt; destruct (negb (busy m)); [done|]; by destruct (_ <? _)|].
  all: destruct (String.eqb _ "session/set_mode"); [|by destruct (String.eqb _ _)].
  all: unfold forwardSetMode; destruct (decode_mode _) as [mode|]; [|done]; by destruct (String.eqb mode "").
Qed.

Lemma write_step s s' : step s s' -> ids_inv s -> write_inv s -> write_inv s'.
Proof.
  intros Hstep Hids Hinv. destruct Hstep as [t a rest Ht|t line rest Ht Hst|c s' Hl|msg t order Ht Htm Hord Hw ma| |c msg Ht|c Ht
    |n t Ht|n method Ht|id|init|res m Hs| ].
  - assert (todo s t = a :: rest) as Htodo by (unfold todo; by rewrite Ht).
    destruct a; [..|by apply write_done| |]; (eapply (write_goes_on s _ t);
      [done|reflexivity| |done|done]); rewrite Htodo; try done.
    + change (writes_of ((handleTurnEnd failed (mux s)).2 ++ rest) = writes_of rest).
      destruct (turn_end_spec failed (mux s)) as (-> & _). rewrite !writes_of_app. unfold answer_of, next_of.
      destruct (queue _), (inflightReq _); simpl; try done; by destruct (is_answered _).
    + simpl. rewrite writes_of_app. unfold resolvePermission. by destruct (pending _ !! _).
  - apply (write_goes_on s _ t rest); try done. unfold todo. by rewrite Ht.
  - destruct Hl; by apply (write_same s).
  - assert (threads (note_saying (said_in (mux s) msg) (then_do TReader [] ma s)) = <[TReader := ma.2]> (threads s) /\
      written (note_saying (said_in (mux s) msg) (then_do TReader [] ma s)) = written s /\
      opened (note_saying (said_in (mux s) msg) (then_do TReader [] ma s)) = opened s ++ option_list None) as (Eth & Ew & Eo).
    { rewrite app_nil_r. unfold note_saying. destruct (said_in _ _) as [[]|]; simpl; by rewrite app_nil_r. }
    apply (write_starts s _ TReader ma.2 None); try done. intros cm. by apply agent_writes.
  - apply (write_same s); try done. intros t. rewrite (todo_insert s _ (TClient (nextClientID (mux s))) []) by done.
    destruct (decide _) as [<-|]; [|done]. unfold todo. by rewrite (next_no_thread s Hids).
  - set (s' := note_opening _ _).
    assert (threads s' = <[TClient c := (onClientMessage c msg (mux s)).2]> (threads s) /\ written s' = written s /\
      opened s' = opened s ++ option_list (opening_in c msg)) as (Eth & Ew & Eo).
    { subst s'. unfold note_prompt. simpl. destruct (prompt_in c msg); [destruct (has_room _)|]; simpl; by rewrite app_nil_r. }
    assert (forall ci, opening_in c msg = Some ci -> fst ci = c) as Hfst.
    { unfold opening_in. destruct (ID msg); [|done]. by destruct (bool_decide _); [intros ? [= <-]|]. }
    apply (write_starts s s' (TClient c) (onClientMessage c msg (mux s)).2 (opening_in c msg)); try done.
    + intros cm. rewrite client_writes. destruct (opening_in c msg) as [[c' id]|]; [|set_solver].
      intros ->%list_elem_of_singleton. split; [|done]. simpl. by destruct (String.eqb _ _).
    + intros c'. rewrite client_writes. destruct (opening_in c msg) as [[c0 id]|]; [|by destruct (decide _)].
      specialize (Hfst _ eq_refl). simpl in Hfst. subst c0. unfold openings. simpl.
      destruct (decide (c = c')) as [->|Hne]; [by rewrite decide_True|]. rewrite decide_False; [done|congruence].
  - apply (write_same s); try done. intros t. unfold todo. simpl. destruct (decide (t = TClient c)) as [->|Hne].
    + by rewrite lookup_delete_eq, Ht.
    + by rewrite lookup_delete_ne.
  - apply (write_goes_on s _ (TOther n) ((timerFires t (mux s)).2 ++ [])); try done.
    unfold todo. rewrite Ht, app_nil_r. unfold timerFires. by destruct (timers _ !! t).
  - apply (write_goes_on s _ (TOther n) ((call method (mux s)).2 ++ [])); try done. unfold todo. by rewrite Ht.
  - by apply (write_same s).
  - by apply (write_same s).
  - by apply (write_same s).
  - by apply (write_same s).
Qed.

Lemma reachable_writes s : reachable s -> write_inv s.
Proof.
  induction 1 as [|s s' Hr IH Hstep]; [apply write_new|].
  apply (write_step s s'); [done| |done]. by apply reachable_inv.
Qed.
(** The results and the rest of what a client's replay loop wrote. *)
Lemma visible_results s c l :
  out_inv s -> (forall it, it ∈ l -> it ∈ items s) -> greetings_in (visible c l) = [].
Proof.
  intros Hout Hin. unfold visible, greetings_in. apply omap_none. intros msg (it & Hit & Hmsg)%list_elem_of_omap.
  assert (msg = raw it) as -> by (unfold for_client in Hmsg; destruct (_ || _); congruence).
  apply Hin, list_elem_of_fmap in Hit as ([t it'] & -> & Hit).
  assert ((target it', raw it') ∈ produced s t) as Hp.
  { rewrite <-(o_out s Hout t). apply elem_of_app. left. by apply logged_in in Hit. }
  simpl. destruct t as [|c'|k]; simpl in Hp; [| |set_solver].
  - unfold transcript in Hp. apply list_elem_of_In, in_flat_map in Hp as (e & _ & Hp).
    destruct e as [p|k f a]; simpl in Hp; [by destruct Hp as [[= _ <-]|[]]|].
    destruct a; [|done]. by destruct Hp as [[= _ <-]|[]].
  - apply list_elem_of_omap in Hp as (q & _ & Hp). destruct (decide _); [|done]. by injection Hp as _ <-.
Qed.

(** All a client was written, by whichever goroutine. *)
Definition received (s : System) (c : string) : list OutMsg :=
  default [] (sent s !! c) ++ default [] (written s !! c).

Lemma answers_aside l : (forall msg, msg ∈ l -> aside msg) -> answers_in l = [] /\ greetings_in l = results_in l.
Proof.
  induction l as [|msg l IH]; [done|]. intros Hl. destruct (IH ltac:(set_solver)) as [IH1 IH2].
  specialize (Hl msg ltac:(left)). unfold answers_in, greetings_in, results_in in *.
  rewrite !omap_step, IH1, IH2. by destruct msg as [|id []|].
Qed.

(** C33: no prompt is left without its answer, and none gets two.  Take any moment when no
    goroutine has work left and no turn is under way, and a client that is connected, has opened
    its session, has never lagged behind the log's window and whose replay sleeps with no wake-up
    pending.  Of all that was ever written to it, by its replay loop or by another goroutine, the
    prompt results are exactly one for each prompt it asked, under that prompt's request id,
    whether its turn was run, failed or was refused; and every other response is, in order, the
    answer to one of its initialize, session/new and session/load requests. *)
Theorem one_answer_to_each_prompt s c cl :
  reachable s -> (forall t, todo s t = []) -> busy (mux s) = false ->
  c ∈ clients (mux s) -> heap (mux s) !! c = Some cl -> hasSession cl = true -> notify cl = false ->
  loops s !! c = Some LoopWait -> c ∉ lost s ->
  answers_in (received s c) ≡ₚ requests c (asked s) /\
  greetings_in (received s c) = openings c (opened s).
Proof.
  intros Hr Hidle Hbusy Hc Hcl Hses Hno Hloop Hlost.
  pose proof (reachable_writes s Hr) as [_ Haside Hopen].
  destruct (answers_aside _ (Haside c)) as [Hw1 Hw2]. specialize (Hopen c). rewrite Hidle, app_nil_r in Hopen.
  apply reachable_inv in Hr as [Hids [hand Hturn] Hout Hsaid Hlog [joined Hrep]].
  unfold received. rewrite answers_app, greetings_app, Hw1, Hw2, Hopen, app_nil_r.
  destruct (r_bounds _ _ Hrep c cl Hcl) as (j & Hj & Hb1 & Hb2).
  assert (cursor cl = seq (mux s)) as Hcur.
  { destruct (r_sleep _ _ Hrep c cl Hcl Hloop Hno Hses Hc) as [?|Hw]; [done|]. rewrite Hidle in Hw. set_solver. }
  pose proof (r_copy _ _ Hrep c cl LoopWait j Hcl Hloop Hj) as Hcopy. simpl in Hcopy. rewrite app_nil_r in Hcopy.
  rewrite Hcopy by done. clear Hcopy.
  split; [|by rewrite (visible_results s) by (done || (intros it Hit; by apply subseteq_take, subseteq_drop in Hit))].
  assert (between j (cursor cl) (items s) = drop (Z.to_nat j) (items s)) as ->.
  { unfold between. rewrite take_ge; [done|]. rewrite length_drop, Hcur, (l_seq _ _ Hlog).
    unfold zlen. lia. }
  rewrite (answers_visible s) by (done || (intros it Hit; by apply subseteq_drop in Hit)).
  assert (omap (fun it => answer_to c (pair_of it)) (drop (Z.to_nat j) (items s)) =
          omap (fun it => answer_to c (pair_of it)) (items s)) as ->.
  { rewrite <-(take_drop (Z.to_nat j) (items s)) at 2. rewrite omap_app.
    replace (omap (fun it => answer_to c (pair_of it)) (take (Z.to_nat j) (items s))) with (@nil RawID); [done|].
    symmetry. apply omap_none. intros it Hit.
    apply list_elem_of_lookup in Hit as (i & Hi). apply lookup_take_Some in Hi as [Hi Hlt].
    unfold answer_to, pair_of. destruct (target it) as [c'|] eqn:Htg; [|done].
    destruct (raw it) as [|id []|]; try done. destruct (decide (c' = c)) as [->|]; [|done].
    pose proof (r_before _ _ Hrep i it c j Hi Htg Hj). lia. }
  unfold items. rewrite (answers_by_thread s c (hist s)) by done.
  assert (forall t, logged t (hist s) = produced s t) as Hlogged.
  { intros t. rewrite <-(o_out s Hout t), Hidle. by rewrite app_nil_r. }
  rewrite !Hlogged. simpl. rewrite refusal_answers.
  assert (hand = None /\ inflightPromptID (mux s) = 0) as [-> Hi].
  { pose proof (t_busy _ _ Hturn) as Hb. by rewrite Hbusy in Hb. }
  pose proof (t_cur _ _ Hturn) as Hcu. unfold in_flight in Hcu. rewrite decide_True in Hcu by done.
  rewrite (transcript_answers s c Hout Hc (upstream s) (started s)) by done.
  rewrite (requests_perm c _ _ (t_asked _ _ Hturn)), requests_app, (t_fifo _ _ Hturn).
  rewrite (t_strand _ _ Hturn Hbusy). simpl. by rewrite app_nil_r.
Qed.
End Contract.

(** * A concrete run of the multiplexer

    A codec to run the model with, a checker of runs, and a run with two clients: one prompt is
    sent, two are queued, the agent answers the three turns, and the first client's replay
    catches up. *)

(** Texts instead of JSON. *)
#[local] Instance ex_json : AcpJson := {
  decode_prompt s := Some [("text", s)];
  decode_outcome s := Some ("selected", s);
  decode_mode s := Some s;
  decode_permission s := (s, "");
  decode_options s := [(s, "reject_once")];
  decode_session s := Some (s, "")
}.

(** ** Running *)

Inductive choice :=
| Perform (t : tid) | Connect | Says (c : string) (msg : Message) | Agent (msg : Message) | Replay (c : string).

Definition waiter_free (msg : Message) (s : System) : bool :=
  match AsInt (ID msg) with
  | Some id => match waiters (mux s) !! id with Some (Some _) => false | _ => true end
  | None => true
  end.

Definition run1 (s : System) (ch : choice) : option System :=
  match ch with
  | Perform t => match threads s !! t with Some (a :: rest) => Some (perform t a rest s) | _ => None end
  | Connect =>
      Some (s <| mux ::= registerClient |> <| threads ::= <[TClient (nextClientID (mux s)) := []]> |>
              <| loops ::= <[nextClientID (mux s) := LoopWait]> |>)
  | Says c msg =>
      match threads s !! TClient c with
      | Some [] => Some (note_opening (opening_in c msg) (note_prompt (prompt_in c msg) (has_room (mux s))
                           (then_do (TClient c) [] (onClientMessage c msg (mux s)) s)))
      | _ => None
      end
  | Agent msg =>
      match threads s !! TReader, timers (mux s) !! 0, waiter_free msg s with
      | Some [], None, true =>
          let ma := onAgent msg 0 (elements (clients (mux s))) (mux s) in
          Some (note_saying (said_in (mux s) msg) (then_do TReader [] ma s))
      | _, _, _ => None
      end
  | Replay c =>
      match loops s !! c with
      | Some LoopWait =>
          match heap (mux s) !! c with
          | Some cl => if notify cl then Some (set_loop c LoopCheck
              (s <| mux := (mux s) <| heap ::= <[c := cl <| notify := false |>]> |> |>)) else None
          | None => None
          end
      | Some LoopCheck =>
          let bm := catch_up c (mux s) in
          Some (set_loop c (match default [] bm.1 with [] => LoopWait | l => LoopSend l end)
            (s <| mux := bm.2 |> <| lost ::= (fun l => if skips c (mux s) then {[c]} ∪ l else l) |>))
      | Some (LoopSend (msg :: l)) =>
          Some (set_loop c (LoopSend l) (s <| sent ::= <[c := default [] (sent s !! c) ++ [msg]]> |>))
      | Some (LoopSend []) => Some (set_loop c LoopCheck s)
      | _ => None
      end
  end.

Lemma run1_step s ch s' : run1 s ch = Some s' -> step s s'.
Proof.
  destruct ch as [t| |c msg|msg|c]; simpl.
  - destruct (threads s !! t) as [[|a rest]|] eqn:Ht; [done| |done]. intros [= <-]. by apply step_perform.
  - intros [= <-]. apply step_connect.
  - destruct (threads s !! TClient c) as [[|]|] eqn:Ht; [|done..]. intros [= <-]. by apply step_client.
  - destruct (threads s !! TReader) as [[|]|] eqn:Ht; [|done..].
    destruct (timers (mux s) !! 0) eqn:Htm; [done|].
    destruct (waiter_free msg s) eqn:Hw; [|done]. intros [= <-]. apply step_agent; [done..|].
    unfold waiter_free in Hw. intros id m Hid. rewrite Hid in Hw.
    by destruct (waiters (mux s) !! id) as [[|]|].
  - destruct (loops s !! c) as [pc|] eqn:Hl; [|done]. destruct pc as [| |[|msg l]|].
    + destruct (heap (mux s) !! c) as [cl|] eqn:Hcl; [|done]. destruct (notify cl) eqn:Hn; [|done].
      intros [= <-]. apply step_loop with c. by apply loop_wake.
    + intros [= <-]. apply step_loop with c. apply loop_check; [done|by destruct (catch_up c (mux s))].
    + intros [= <-]. apply step_loop with c. by apply loop_again.
    + intros [= <-]. apply step_loop with c. by apply loop_send.
    + done.
Qed.

Fixpoint run (s : System) (l : list choice) : option System :=
  match l with
  | [] => Some s
  | ch :: l => match run1 s ch with Some s' => run s' l | None => None end
  end.

Lemma run_reachable l s s' : reachable s -> run s l = Some s' -> reachable s'.
Proof.
  revert s. induction l as [|ch l IH]; intros s Hr; simpl; [by intros [= <-]|].
  destruct (run1 s ch) as [s1|] eqn:H1; [|done]. apply IH. eapply reach_step; [done|by eapply run1_step].
Qed.

Definition idle_b (s : System) : bool :=
  forallb (fun kv => match snd kv with [] => true | _ => false end) (map_to_list (threads s)).
Lemma idle_b_ok s : idle_b s = true -> forall t, todo s t = [].
Proof.
  unfold idle_b. rewrite forallb_forall. intros Hi t. unfold todo.
  destruct (threads s !! t) as [l|] eqn:Ht; [|done]. simpl.
  apply elem_of_map_to_list, list_elem_of_In in Ht. specialize (Hi _ Ht). by destruct l.
Qed.

(** ** The run *)

Definition ask (id method params : string) : Message := mkMessage (Some id) method params None None.
Definition ends (id : string) : Message := mkMessage (Some id) "" "" (Some "ok") None.
Definition fails (id : string) : Message := mkMessage (Some id) "" "" None (Some "failed").
Definition says (text : string) : Message := mkMessage None "session/update" text None None.

Definition ex_choices : list choice :=
  [ Connect; Connect;
    Says "c1" (ask "1" "session/new" ""); Perform (TClient "c1"); Perform (TClient "c1");
    Says "c1" (ask "7" "session/prompt" "hello"); Perform (TClient "c1"); Perform (TClient "c1");
    Says "c2" (ask "u-1" "session/prompt" "me too");
    Says "c1" (ask "8" "session/prompt" "and then");
    Agent (says "thinking"); Perform TReader;
    Agent (ends "1"); Perform TReader; Perform TReader; Perform TReader; Perform TReader;
    Agent (ends "2"); Perform TReader; Perform TReader; Perform TReader; Perform TReader;
    Agent (says "more"); Perform TReader;
    Agent (fails "3"); Perform TReader; Perform TReader ]
  ++ repeat (Replay "c1") 8.
Definition ex_state : System := default new_system (run new_system ex_choices).

Lemma ex_reachable : reachable ex_state.
Proof.
  unfold ex_state. destruct (run new_system ex_choices) as [s|] eqn:Hr; simpl; [|apply reach_new].
  apply (run_reachable ex_choices new_system); [apply reach_new|done].
Qed.

Example ex_sent :
  sent ex_state !! "c1" =
  Some [OUpdate "thinking"; OResult "7" (StopReason "end_turn"); OUpdate "more"; OResult "8" (StopReason "refusal")].
Proof. vm_compute. reflexivity. Qed.

Lemma log_is_the_transcript_witness :
  reachable ex_state /\
  logged TReader (hist ex_state) ++ appends_of (todo ex_state TReader) = transcript (upstream ex_state) /\
  said ex_state = [SUpdate "thinking"; SEnd false; SEnd false; SUpdate "more"; SEnd true].
Proof.
  split; [exact ex_reachable|]. split; [exact (proj1 (proj2 (log_is_the_transcript ex_state ex_reachable)))|].
  vm_compute. reflexivity.
Defined.

Lemma one_answer_to_each_prompt_witness :
  (answers_in (received ex_state "c1") ≡ₚ requests "c1" (asked ex_state) /\
   greetings_in (received ex_state "c1") = openings "c1" (opened ex_state)) /\
  requests "c1" (asked ex_state) = ["7"; "8"] /\ openings "c1" (opened ex_state) = ["1"].
Proof.
  split.
  - destruct (heap (mux ex_state) !! "c1") as [cl|] eqn:Hcl.
    + refine (one_answer_to_each_prompt ex_state "c1" cl ex_reachable _ _ _ Hcl _ _ _ _).
      * apply idle_b_ok. vm_compute. reflexivity.
      * vm_compute. reflexivity.
      * apply (bool_decide_eq_true_1 ("c1" ∈ clients (mux ex_state))). vm_compute. reflexivity.
      * apply (inj Some). change (option_map hasSession (Some cl) = Some true). rewrite <-Hcl. vm_compute. reflexivity.
      * apply (inj Some). change (option_map notify (Some cl) = Some false). rewrite <-Hcl. vm_compute. reflexivity.
      * vm_compute. reflexivity.
      * apply (bool_decide_eq_true_1 ("c1" ∉ lost ex_state)). vm_compute. reflexivity.
    + apply (f_equal is_none) in Hcl. vm_compute in Hcl. discriminate Hcl.
  - vm_compute. split; reflexivity.
Defined.
