(* ===== verification/DeltaMerge.v ===== *)
(** * Merging delta layers (src/internal/deltamerge/merge.go)

    [Merge] squashes a chain of OCI layer archives into one.  A reader of an archive is the list
    of entries [tar.Reader] will deliver, then its end: [io.EOF] or an error; reading an entry's
    data may fail too.  The writer is [tar.Writer] over an [io.Writer] whose operations can fail
    as a list of outcomes says; it counts, as [tar.Writer] does, the bytes an entry's header
    announced and that are still to come.  Maps are ranged over only to delete or to test, so
    their order does not matter.  A nil map of base paths is the empty set. *)

From S2P Require Import Prelude GoLib Paths.
From Stdlib Require Import Ascii.

(** [tar.Header] *)
Record Header := {
  Typeflag : ascii; Name : string; Linkname : string; Size : Z; Mode : Z;
  Uid : Z; Gid : Z; Uname : string; Gname : string;
  ModTime : Z; AccessTime : Z; ChangeTime : Z;
  Devmajor : Z; Devminor : Z; PAXRecords : gmap string string; Format : Z
}.
#[export] Instance eta_Header : Eta Header := fun h =>
  {| Typeflag := Typeflag h; Name := Name h; Linkname := Linkname h; Size := Size h;
     Mode := Mode h; Uid := Uid h; Gid := Gid h; Uname := Uname h; Gname := Gname h;
     ModTime := ModTime h; AccessTime := AccessTime h; ChangeTime := ChangeTime h;
     Devmajor := Devmajor h; Devminor := Devminor h; PAXRecords := PAXRecords h;
     Format := Format h |}.

Definition TypeReg : ascii := "0"%char.
Definition TypeRegA : ascii := "000"%char.
Definition TypeDir : ascii := "5"%char.
(** The types whose entries carry no data, whatever their size says. *)
Definition isHeaderOnlyType (t : ascii) : bool := bool_decide (t ∈ ["1"; "2"; "3"; "4"; "5"; "6"]%char).

(** [time.Time{}] *)
Definition zeroTime : Z := - unixToInternal * Second.
Definition fixedMtime : Z := Unix 0.

Record Options := { ScrubPrefixes : list string; BasePaths : gset string }.

(** One collected entry; a nil header is never stored. *)
Record entry := { hdr : option Header; payload : bytes }.

(** An error of the reader or the writer. *)
Abbreviation IOErr := string.

Inductive MergeErr :=
  | ErrReadLayer (e : IOErr)
  | ErrReadPayload (name : string) (e : IOErr)
  | ErrWriteHeader (name : string) (e : IOErr)
  | ErrWritePayload (name : string) (e : IOErr)
  | ErrClose (e : IOErr).

(** What a [tar.Reader] delivers: headers with their data, then EOF ([None]) or an error. *)
Record Item := { item_hdr : Header; item_data : result IOErr bytes }.
Record Layer := { items : list Item; ending : option IOErr }.

(** ** Paths and options *)

Definition normalizePath (name : string) : string :=
  let name := TrimPrefix name "./" in
  let name := TrimPrefix name "/" in
  TrimSlashes name.

Definition isScrubbed (o : Options) (name : string) : bool :=
  existsb (fun pfx =>
             let pfx := TrimSlashes (TrimPrefix pfx "/") in
             String.eqb name pfx || HasPrefix name (pfx +:+ "/")) (ScrubPrefixes o).

Definition baseContains (o : Options) (name : string) : bool :=
  bool_decide ("/" +:+ name ∈ BasePaths o) || bool_decide (name ∈ BasePaths o).

Definition baseDirHasEntries (o : Options) (dir : string) : bool :=
  existsb (fun p =>
             let norm := TrimSlashes (TrimPrefix p "/") in
             if String.eqb dir "." || String.eqb dir "" then negb (String.eqb norm "")
             else HasPrefix norm (dir +:+ "/")) (elements (BasePaths o)).

Definition opaqueMarker : string := ".wh..wh..opq".
Definition whiteoutPrefix : string := ".wh.".

(** [ParseWhiteout]: (dir, target, opaque, ok) *)
Definition ParseWhiteout (name : string) : string * string * bool * bool :=
  let name := normalizePath name in
  let base := Base name in
  let d := Dir name in
  if String.eqb base opaqueMarker then (d, "", true, true)
  else if HasPrefix base whiteoutPrefix then
    (d, Join d (drop_string (String.length whiteoutPrefix) base), false, true)
  else ("", "", false, false).

(** ** Collecting the layers *)

(** One entry of a layer, applied to the accumulator. *)
Definition merge_item (o : Options) (acc : gmap string entry) (it : Item)
  : result MergeErr (gmap string entry) :=
  let hdr0 := item_hdr it in
  let name := normalizePath (Name hdr0) in
  let dir := Dir name in
  let base := Base name in
  if String.eqb base opaqueMarker then
    if isScrubbed o dir then Ok acc
    else
      let prefix := if String.eqb dir "." then "" else dir +:+ "/" in
      let acc := filter (fun kv => negb (String.eqb dir "." || HasPrefix (fst kv) prefix) = true) acc in
      if baseDirHasEntries o dir
      then Ok (<[name := {| hdr := Some (hdr0 <| Name := name |>); payload := [] |}]> acc)
      else Ok acc
  else if HasPrefix base whiteoutPrefix then
    let target := Join dir (drop_string (String.length whiteoutPrefix) base) in
    if isScrubbed o name then Ok acc
    else if isScrubbed o target then Ok acc
    else
      let targetPrefix := target +:+ "/" in
      let acc := filter (fun kv => negb (HasPrefix (fst kv) targetPrefix) = true) (delete target acc) in
      if baseContains o target || baseDirHasEntries o target
      then Ok (<[name := {| hdr := Some (hdr0 <| Name := name |>); payload := [] |}]> acc)
      else Ok acc
  else if isScrubbed o name then Ok acc
  else
    let read :=
      if Ascii.eqb (Typeflag hdr0) TypeReg || Ascii.eqb (Typeflag hdr0) TypeRegA
      then item_data it else Ok [] in
    match read with
    | Err e => Err (ErrReadPayload name e)
    | Ok payload => Ok (<[name := {| hdr := Some (hdr0 <| Name := name |>); payload := payload |}]> acc)
    end.

(** The loop on one reader. *)
Fixpoint merge_items (o : Options) (acc : gmap string entry) (l : list Item)
  : result MergeErr (gmap string entry) :=
  match l with
  | [] => Ok acc
  | it :: l' =>
      match merge_item o acc it with
      | Err e => Err e
      | Ok acc' => merge_items o acc' l'
      end
  end.

Fixpoint merge_layers (o : Options) (acc : gmap string entry) (ls : list Layer)
  : result MergeErr (gmap string entry) :=
  match ls with
  | [] => Ok acc
  | r :: ls' =>
      match merge_items o acc (items r) with
      | Err e => Err e
      | Ok acc' =>
          match ending r with
          | Some e => Err (ErrReadLayer e)
          | None => merge_layers o acc' ls'
          end
      end
  end.

(** ** Writing the result *)

(** A [tar.Writer]: the entries it has written, the bytes the last one still lacks, and the
    outcomes of the next operations on the underlying writer. *)
Record Writer := { written : list (Header * bytes); missing : Z; closed : bool; outcomes : list (option IOErr) }.
#[export] Instance eta_Writer : Eta Writer := fun w =>
  {| written := written w; missing := missing w; closed := closed w; outcomes := outcomes w |}.

(** The next operation on the underlying writer: its error, if it fails. *)
Definition out_op (w : Writer) : option IOErr * Writer :=
  match outcomes w with
  | [] => (None, w)
  | e :: r => (e, w <| outcomes := r |>)
  end.

Definition missedWriting : IOErr := "archive/tar: missed writing".
Definition ErrWriteTooLong : IOErr := "archive/tar: write too long".

(** [WriteHeader] refuses to start an entry while the last one lacks data. *)
Definition WriteHeader (w : Writer) (h : Header) : option IOErr * Writer :=
  if negb (missing w =? 0) then (Some missedWriting, w)
  else
    match out_op w with
    | (Some e, w) => (Some e, w)
    | (None, w) =>
        (None, w <| written := written w ++ [(h, [])] |>
                 <| missing := if isHeaderOnlyType (Typeflag h) then 0 else Size h |>)
    end.

(** [Write] of the entry's data, in one call. *)
Definition add_data (d : bytes) (l : list (Header * bytes)) : list (Header * bytes) :=
  match last l with
  | Some (h, b) => take (length l - 1) l ++ [(h, b ++ d)]
  | None => l
  end.
Definition WriteData (w : Writer) (d : bytes) : option IOErr * Writer :=
  if missing w <? Z.of_nat (length d) then (Some ErrWriteTooLong, w)
  else
    match out_op w with
    | (Some e, w) => (Some e, w)
    | (None, w) =>
        (None, w <| written := add_data d (written w) |>
                 <| missing := missing w - Z.of_nat (length d) |>)
    end.

Definition CloseTar (w : Writer) : option IOErr * Writer :=
  if negb (missing w =? 0) then (Some missedWriting, w)
  else
    match out_op w with
    | (Some e, w) => (Some e, w)
    | (None, w) => (None, w <| closed := true |>)
    end.

(** The times and the name an entry is written with. *)
Definition normalise (p : string) (h : Header) : Header :=
  h <| ModTime := fixedMtime |> <| AccessTime := zeroTime |> <| ChangeTime := zeroTime |> <| Name := p |>.

Fixpoint emit (acc : gmap string entry) (paths : list string) (w : Writer) : option MergeErr * Writer :=
  match paths with
  | [] => match CloseTar w with (Some e, w) => (Some (ErrClose e), w) | (None, w) => (None, w) end
  | p :: paths' =>
      match acc !! p with
      | Some {| hdr := Some h; payload := d |} =>
          match WriteHeader w (normalise p h) with
          | (Some e, w) => (Some (ErrWriteHeader p e), w)
          | (None, w) =>
              if (0 <? length d)%nat then
                match WriteData w d with
                | (Some e, w) => (Some (ErrWritePayload p e), w)
                | (None, w) => emit acc paths' w
                end
              else emit acc paths' w
          end
      | _ => emit acc paths' w
      end
  end.

(** [sort.Strings]: by bytes. *)
Definition sort_paths (l : list string) : list string := merge_sort String.le l.

(** [tar.NewWriter] over an output whose operations end as [outs] says. *)
Definition NewWriter (outs : list (option IOErr)) : Writer :=
  {| written := []; missing := 0; closed := false; outcomes := outs |}.

Definition Merge (layers : list Layer) (opts : Options) (outs : list (option IOErr)) : option MergeErr * Writer :=
  match merge_layers opts ∅ layers with
  | Err e => (Some e, NewWriter outs)
  | Ok acc => emit acc (sort_paths (fst <$> map_to_list acc)) (NewWriter outs)
  end.
