(* ===== verification/DeltaMergeLaws.v ===== *)
(** * What a layer does to a root file system, and what the merge keeps of it

    [apply_layer] is the OCI image specification's reading of a layer: its markers hide paths of
    the lower layers only, wherever they stand in the archive; an entry that is not a directory
    replaces what was below its path; the layer's own entries come on top.  The accumulator of
    [Merge], read over the base, is the file system the entries produce when they are applied one
    after the other ([view]). *)

From Stdlib Require Import Ascii.
From S2P Require Import Prelude GoLib Paths DeltaMerge.
(** ** The specification *)

Definition item_name (it : Item) : string := normalizePath (Name (item_hdr it)).
Definition is_reg (h : Header) : bool := Ascii.eqb (Typeflag h) TypeReg || Ascii.eqb (Typeflag h) TypeRegA.
Definition is_dir (h : Header) : bool := Ascii.eqb (Typeflag h) TypeDir.

(** The name a marker's last component hides, and whether the marker is opaque. *)
Definition hidden_name (b : string) : string := drop_string (String.length whiteoutPrefix) b.
Definition is_marker (n : string) : bool := HasPrefix (Base n) whiteoutPrefix.

(** The marker [n] hides the path [p] of the layers below. *)
Definition covers (n p : string) : bool :=
  if String.eqb (Base n) opaqueMarker then String.eqb (Dir n) "." || under (Dir n) p
  else if HasPrefix (Base n) whiteoutPrefix then
    let t := Join (Dir n) (hidden_name (Base n)) in String.eqb p t || under t p
  else false.

(** A root file system: what each path holds, up to timestamps. *)
Abbreviation fs := (gmap string (Header * bytes)).

Definition data_of (it : Item) : bytes :=
  if is_reg (item_hdr it) then match item_data it with Ok d => d | Err _ => [] end else [].
Definition node_of (it : Item) : Header * bytes := (normalise (item_name it) (item_hdr it), data_of it).

Definition layer_entries (l : list Item) : fs :=
  foldl (fun m it => if is_marker (item_name it) then m else <[item_name it := node_of it]> m) ∅ l.
(** [it] is not a directory, and stands where [p] would need one. *)
Definition replaces (it : Item) (p : string) : bool :=
  negb (is_marker (item_name it)) && negb (is_dir (item_hdr it)) && under (item_name it) p.
Definition layer_hides (l : list Item) (p : string) : bool :=
  existsb (fun it => covers (item_name it) p || replaces it p) l.
Definition apply_layer (S : fs) (l : list Item) : fs :=
  layer_entries l ∪ filter (fun kv => layer_hides l (fst kv) = false) S.

(** ** Layers a differ writes *)

(** A canonical name; a whiteout names a component, which is not itself a marker. *)
Definition name_ok (n : string) : bool :=
  canonical n &&
  (String.eqb (Base n) opaqueMarker || negb (is_marker n) ||
   good (hidden_name (Base n)) && negb (HasPrefix (hidden_name (Base n)) whiteoutPrefix)).
(** No marker follows an entry of its own layer that it would hide. *)
Fixpoint markers_first (l : list Item) : bool :=
  match l with
  | [] => true
  | it :: l' =>
      (is_marker (item_name it) || forallb (fun it' => negb (covers (item_name it') (item_name it))) l')
      && markers_first l'
  end.
(** A hard link stands for the file it names when it is unpacked; read as a header of its own, as
    here, it would count as kept although its target comes later or is hidden. *)
Definition TypeLink : ascii := "1"%char.
Definition no_hard_links (l : list Item) : bool :=
  forallb (fun it => negb (Ascii.eqb (Typeflag (item_hdr it)) TypeLink)) l.
(** Where a file replaces a directory, the layer hides what the directory held. *)
Definition explicit (S : fs) (l : list Item) : bool :=
  forallb (fun it =>
    forallb (fun kv => negb (replaces it (fst kv)) || existsb (fun it' => covers (item_name it') (fst kv)) l)
      (map_to_list S)) l.
Definition layer_ok (S : fs) (l : list Item) : bool :=
  forallb (fun it => name_ok (item_name it)) l && markers_first l && explicit S l && no_hard_links l.
(** Each layer of a chain is such a layer on the file system it is applied to. *)
Fixpoint chain_ok (S : fs) (ls : list Layer) : bool :=
  match ls with
  | [] => true
  | L :: ls' => layer_ok S (items L) && chain_ok (apply_layer S (items L)) ls'
  end.
Definition apply_layers (S : fs) (ls : list Layer) : fs := foldl (fun S L => apply_layer S (items L)) S ls.

(** Scrub prefixes are canonical paths with no marker among their components. *)
Definition prefix_ok (pfx : string) : bool :=
  canonical pfx && forallb (fun c => negb (HasPrefix c whiteoutPrefix)) (split pfx).
Definition trimmed (pfx : string) : string := TrimSlashes (TrimPrefix pfx "/").
Definition scrub_ok (o : Options) : bool := forallb (fun pfx => prefix_ok (trimmed pfx)) (ScrubPrefixes o).
(** The base paths list what the base image holds. *)
Definition base_listed (o : Options) (B : fs) : bool :=
  forallb (fun kv => canonical (fst kv) && baseContains o (fst kv)) (map_to_list B).

(** The paths a merge speaks about: canonical, not markers, not scrubbed. *)
Definition ordinary (o : Options) (p : string) : bool :=
  canonical p && negb (is_marker p) && negb (isScrubbed o p).

(** ** Entries one after the other *)

Definition seq_item (S : fs) (it : Item) : fs :=
  if is_marker (item_name it) then filter (fun kv => covers (item_name it) (fst kv) = false) S
  else <[item_name it := node_of it]> S.

(** Filtering a map by a test on its keys. *)
Lemma lookup_filter_key {A} (f : string -> bool) (b : bool) (m : gmap string A) p :
  filter (fun kv => f (fst kv) = b) m !! p = if Bool.eqb (f p) b then m !! p else None.
Proof.
  destruct (Bool.eqb (f p) b) eqn:Hb.
  - apply eqb_prop in Hb. destruct (m !! p) as [x|] eqn:Hp.
    + by apply map_lookup_filter_Some.
    + apply map_lookup_filter_None. by left.
  - apply eqb_false_iff in Hb. apply map_lookup_filter_None. right. naive_solver.
Qed.

Lemma covers_marker n p : covers n p = true -> is_marker n = true.
Proof.
  unfold covers, is_marker. destruct (String.eqb_spec (Base n) opaqueMarker) as [->|_]; [done|].
  by destruct (HasPrefix _ _).
Qed.

Lemma layer_entries_snoc l it :
  layer_entries (l ++ [it]) =
  if is_marker (item_name it) then layer_entries l else <[item_name it := node_of it]> (layer_entries l).
Proof. unfold layer_entries. by rewrite foldl_snoc. Qed.

Lemma layer_entries_name l p v :
  layer_entries l !! p = Some v -> exists it, it ∈ l /\ item_name it = p /\ is_marker p = false.
Proof.
  induction l as [|it l IH] using rev_ind; [done|]. rewrite layer_entries_snoc.
  destruct (is_marker (item_name it)) eqn:Hm.
  - intros (it' & ? & ?)%IH. exists it'. set_solver.
  - intros [[<- _]|[_ (it' & ? & ?)%IH]]%lookup_insert_Some; [exists it|exists it']; set_solver.
Qed.

Lemma markers_first_snoc l it :
  markers_first (l ++ [it]) = true <->
  markers_first l = true /\
  forall it', it' ∈ l -> is_marker (item_name it') = true \/ covers (item_name it) (item_name it') = false.
Proof.
  induction l as [|it0 l IH].
  - simpl. rewrite orb_true_r. split; [|done]. intros _. split; [done|]. set_solver.
  - simpl. rewrite forallb_app. simpl. rewrite andb_true_r, !andb_true_iff, !orb_true_iff, IH, andb_true_iff, negb_true_iff.
    setoid_rewrite elem_of_cons. naive_solver.
Qed.

(** With its markers first, a layer's entries applied in order are the layer. *)
Lemma seq_items S l p :
  markers_first l = true ->
  foldl seq_item S l !! p =
  match layer_entries l !! p with
  | Some v => Some v
  | None => if existsb (fun it => covers (item_name it) p) l then None else S !! p
  end.
Proof.
  induction l as [|it l IH] using rev_ind; [done|].
  rewrite markers_first_snoc. intros [Hl Hit]. specialize (IH Hl).
  rewrite foldl_snoc, layer_entries_snoc, existsb_app. simpl. rewrite orb_false_r.
  unfold seq_item at 1. destruct (is_marker (item_name it)) eqn:Hm.
  - rewrite (lookup_filter_key (covers (item_name it))), IH.
    destruct (layer_entries l !! p) as [v|] eqn:Hp.
    + apply layer_entries_name in Hp as (it' & Hin & <- & Hm').
      destruct (Hit it' Hin) as [?|Hc]; [congruence|]. by rewrite Hc.
    + by destruct (existsb _ l), (covers (item_name it) p).
  - assert (covers (item_name it) p = false) as ->.
    { apply not_true_is_false. intros ?%covers_marker. congruence. }
    rewrite orb_false_r. destruct (decide (item_name it = p)) as [->|Hne].
    + by rewrite !lookup_insert_eq.
    + by rewrite !lookup_insert_ne.
Qed.

Lemma apply_layer_lookup S l p :
  apply_layer S l !! p =
  match layer_entries l !! p with
  | Some v => Some v
  | None => if layer_hides l p then None else S !! p
  end.
Proof.
  unfold apply_layer. rewrite lookup_union, (lookup_filter_key (layer_hides l)).
  by destruct (layer_entries l !! p), (layer_hides l p), (S !! p).
Qed.

Lemma existsb_orb {A} (f g : A -> bool) l : existsb (fun x => f x || g x) l = existsb f l || existsb g l.
Proof.
  induction l as [|x l IH]; simpl; [done|]. rewrite IH.
  by destruct (f x), (g x), (existsb f l), (existsb g l).
Qed.

Lemma explicit_spec S l p v it :
  explicit S l = true -> it ∈ l -> S !! p = Some v -> replaces it p = true ->
  existsb (fun it' => covers (item_name it') p) l = true.
Proof.
  unfold explicit. rewrite forallb_forall. intros He Hit Hp Hr.
  apply list_elem_of_In in Hit. specialize (He it Hit).
  rewrite forallb_forall in He. specialize (He (p, v)).
  apply elem_of_map_to_list, list_elem_of_In in Hp. specialize (He Hp).
  simpl in He. by rewrite Hr in He.
Qed.

Lemma layer_hides_explicit S l p v :
  explicit S l = true -> S !! p = Some v ->
  layer_hides l p = existsb (fun it => covers (item_name it) p) l.
Proof.
  intros He Hp. unfold layer_hides. rewrite existsb_orb.
  destruct (existsb (fun it => replaces it p) l) eqn:Hr; [|by rewrite orb_false_r].
  apply existsb_exists in Hr as (it & Hin & Hr). apply list_elem_of_In in Hin.
  by rewrite (explicit_spec _ _ _ _ _ He Hin Hp Hr).
Qed.

Lemma seq_is_apply S l :
  markers_first l = true -> explicit S l = true -> foldl seq_item S l = apply_layer S l.
Proof.
  intros Hm He. apply map_eq. intros p. rewrite seq_items, apply_layer_lookup by done.
  destruct (layer_entries l !! p); [done|]. destruct (S !! p) as [v|] eqn:Hp.
  - by rewrite (layer_hides_explicit S l p v).
  - by destruct (existsb _ l), (layer_hides l p).
Qed.

(** ** What a marker hides, as component lists *)

Lemma marker_region n :
  name_ok n = true -> is_marker n = true ->
  exists D b, split n = D ++ [b] /\ Base n = b /\ Dir n = dir_of D /\ HasPrefix b whiteoutPrefix = true /\
    (D = [] \/ canonical (Dir n) = true /\ split (Dir n) = D /\ Dir n <> ".") /\
    (b = opaqueMarker /\ (forall p, covers n p = true <-> D = [] \/ exists l, l <> [] /\ split p = D ++ l) \/
     b <> opaqueMarker /\ HasPrefix (hidden_name b) whiteoutPrefix = false /\
     split (Join (Dir n) (hidden_name b)) = D ++ [hidden_name b] /\
     canonical (Join (Dir n) (hidden_name b)) = true /\
     (forall p, covers n p = true <-> exists l, split p = (D ++ [hidden_name b]) ++ l)).
Proof.
  unfold name_ok, is_marker. intros [Hc Hn]%andb_prop Hm.
  destruct (canonical_snoc n Hc) as (D & b & Hsp & Hb & Hsb & HD).
  pose proof (Base_canonical n D b Hc Hsp) as HB.
  pose proof (Dir_canonical n D b Hc Hsp) as Hdir.
  exists D, b. rewrite HB in *.
  assert (D = [] \/ canonical (Dir n) = true /\ split (Dir n) = D /\ Dir n <> ".") as Hdirs.
  { destruct HD as [(-> & _)|(HD & HcD & HsD & _)]; [by left|right].
    rewrite Hdir. destruct D as [|x D]; [done|]. cbn [dir_of]. split_and!; [done..|].
    intros He. by rewrite He in HcD. }
  split_and!; [done..|].
  destruct (String.eqb_spec b opaqueMarker) as [Hop|Hnop].
  - left. split; [done|]. intros p. unfold covers. rewrite HB, Hop, String.eqb_refl.
    destruct Hdirs as [->|(HcD & HsD & Hne)].
    + rewrite Hdir. simpl. naive_solver.
    + apply String.eqb_neq in Hne. rewrite Hne. simpl. rewrite under_split, HsD.
      split; [by right|]. intros [->|?]; [by apply split_ne in HsD|done].
  - right. rewrite Hm in Hn. simpl in Hn. apply andb_prop in Hn as [Hg Hnm]. apply negb_true_iff in Hnm.
    assert (slashless (hidden_name b) = true) as Hsx.
    { apply HasPrefix_spec in Hm as (r & ->). unfold whiteoutPrefix in *. exact Hsb. }
    destruct (Join_dir_of D (hidden_name b)) as [Hj Hcj]; [|done..|].
    { destruct HD as [(-> & _)|(HD & HcD & HsD & _)]; [by left|right].
      split; [done|]. unfold canonical in HcD. rewrite HsD in HcD. split; [done|].
      pose proof (split_components (join D)). by rewrite HsD in *. }
    rewrite <-Hdir in *. split_and!; [done..|].
    intros p. unfold covers. rewrite HB, Hm. apply String.eqb_neq in Hnop. rewrite Hnop.
    rewrite orb_true_iff, String.eqb_eq, under_split, Hj. split.
    + intros [->|(l & _ & Hl)]; [exists []; by rewrite app_nil_r|by exists l].
    + intros ([|c l] & Hl); [left|right; by exists (c :: l)].
      apply split_inj. by rewrite Hj, Hl, app_nil_r.
Qed.

(** The marker a marker hides hides nothing more. *)
Lemma marker_covers_trans n k p :
  name_ok n = true -> name_ok k = true -> covers n k = true -> covers k p = true -> covers n p = true.
Proof.
  intros Hn Hk Hnk Hkp. pose proof (covers_marker _ _ Hnk) as Hmn. pose proof (covers_marker _ _ Hkp) as Hmk.
  destruct (marker_region n Hn Hmn) as (D & b & _ & _ & _ & _ & _ & HR).
  destruct (marker_region k Hk Hmk) as (D' & b' & Hsk & _ & _ & Hwb & _ & HR').
  assert (forall q, covers k q = true -> D' = [] \/ exists l, l <> [] /\ split q = D' ++ l) as Hin.
  { intros q Hq. destruct HR' as [(_ & H)|(_ & _ & _ & _ & H)]; [by apply H|].
    apply H in Hq as (l & Hq). right. exists (hidden_name b' :: l). by rewrite Hq, <-app_assoc. }
  specialize (Hin p Hkp).
  destruct HR as [(_ & H)|(_ & Hx & _ & _ & H)]; rewrite H in Hnk |- *.
  - destruct Hnk as [->|(l & Hl & Hl')]; [by left|]. rewrite Hsk in Hl'.
    destruct (exists_last Hl) as (l0 & c & ->). rewrite app_assoc in Hl'.
    apply app_inj_tail in Hl' as [-> ->].
    destruct Hin as [Hnil|(l' & Hl' & ->)].
    + apply app_nil in Hnil as [-> _]. by left.
    + right. exists (l0 ++ l'). rewrite app_assoc. split; [|done]. by destruct l0.
  - destruct Hnk as (l & Hl'). rewrite Hsk in Hl'.
    destruct (decide (l = [])) as [->|Hl].
    { rewrite app_nil_r in Hl'. apply app_inj_tail in Hl' as [_ ->]. congruence. }
    destruct (exists_last Hl) as (l0 & c & ->). rewrite app_assoc in Hl'.
    apply app_inj_tail in Hl' as [-> ->].
    destruct Hin as [Hnil|(l' & Hl' & ->)].
    + apply app_nil in Hnil as [Hnil _]. by apply app_nil in Hnil as [_ ?].
    + exists (l0 ++ l'). by rewrite app_assoc.
Qed.

(** * The accumulator of the merge, read over the base image *)

(** ** One entry of a layer, by what it is *)

Definition marker_target (n : string) : string := Join (Dir n) (hidden_name (Base n)).
Definition marker_dropped (o : Options) (n : string) : bool :=
  if String.eqb (Base n) opaqueMarker then isScrubbed o (Dir n)
  else isScrubbed o n || isScrubbed o (marker_target n).
Definition marker_kept (o : Options) (n : string) : bool :=
  if String.eqb (Base n) opaqueMarker then baseDirHasEntries o (Dir n)
  else baseContains o (marker_target n) || baseDirHasEntries o (marker_target n).
Definition stored (it : Item) (d : bytes) : entry :=
  {| hdr := Some ((item_hdr it) <| Name := item_name it |>); payload := d |}.
(** The accumulator without what the marker [n] hides. *)
Definition uncovered (n : string) (acc : gmap string entry) : gmap string entry :=
  filter (fun kv => covers n (fst kv) = false) acc.

Lemma merge_item_marker o acc it :
  is_marker (item_name it) = true ->
  merge_item o acc it =
  Ok (if marker_dropped o (item_name it) then acc
      else if marker_kept o (item_name it)
           then <[item_name it := stored it []]> (uncovered (item_name it) acc)
           else uncovered (item_name it) acc).
Proof.
  unfold merge_item, is_marker, marker_dropped, marker_kept, stored, uncovered, marker_target, hidden_name.
  fold (item_name it). set (n := item_name it). intros Hm.
  destruct (String.eqb (Base n) opaqueMarker) eqn:Hop.
  - destruct (isScrubbed o (Dir n)); [done|].
    assert (filter (fun kv => negb (String.eqb (Dir n) "." || HasPrefix (fst kv)
              (if String.eqb (Dir n) "." then "" else Dir n +:+ "/")) = true) acc
            = filter (fun kv => covers n (fst kv) = false) acc) as ->; [|by destruct (baseDirHasEntries _ _)].
    apply map_filter_ext. intros k e _. unfold covers. cbn [fst]. rewrite Hop, negb_true_iff.
    by destruct (String.eqb (Dir n) ".").
  - rewrite Hm. destruct (isScrubbed o n); [done|]. cbn [orb].
    destruct (isScrubbed o (Join _ _)); [done|].
    set (t := Join _ _).
    assert (filter (fun kv => negb (HasPrefix (fst kv) (t +:+ "/")) = true) (delete t acc)
            = filter (fun kv => covers n (fst kv) = false) acc) as ->; [|by destruct (_ || _)].
    apply map_eq. intros k. rewrite (lookup_filter_key (covers n)),
      (lookup_filter_key (fun k => negb (HasPrefix k (t +:+ "/")))).
    unfold covers. rewrite Hop, Hm. change (Join (Dir n) (hidden_name (Base n))) with t. unfold under.
    destruct (String.eqb_spec k t) as [->|Hne].
    + rewrite lookup_delete_eq. by destruct (HasPrefix t _).
    + rewrite lookup_delete_ne by done. by destruct (HasPrefix k _).
Qed.

Lemma merge_item_entry o acc it acc' :
  is_marker (item_name it) = false -> merge_item o acc it = Ok acc' ->
  acc' = if isScrubbed o (item_name it) then acc else <[item_name it := stored it (data_of it)]> acc.
Proof.
  unfold merge_item, is_marker, data_of, stored. fold (item_name it). set (n := item_name it).
  intros Hm. rewrite Hm.
  destruct (String.eqb_spec (Base n) opaqueMarker) as [He|_]; [by rewrite He in Hm|].
  destruct (isScrubbed o n); [by intros [= ->]|]. fold (is_reg (item_hdr it)).
  destruct (is_reg (item_hdr it)); [destruct (item_data it)|]; by intros [= <-].
Qed.

(** ** Scrubbed paths and kept markers *)

Lemma isScrubbed_spec o q :
  isScrubbed o q = true <->
  exists pfx, pfx ∈ ScrubPrefixes o /\ (q = trimmed pfx \/ under (trimmed pfx) q = true).
Proof.
  unfold isScrubbed. rewrite existsb_exists. setoid_rewrite <-list_elem_of_In.
  by setoid_rewrite orb_true_iff; setoid_rewrite String.eqb_eq.
Qed.

Lemma isScrubbed_below o q p :
  isScrubbed o q = true -> p = q \/ under q p = true -> isScrubbed o p = true.
Proof.
  rewrite !isScrubbed_spec. intros (pfx & Hin & Hq) Hp. exists pfx. split; [done|].
  destruct Hp as [->|Hp], Hq as [->|Hq]; eauto using under_trans.
Qed.

Lemma scrub_ok_prefix o pfx :
  scrub_ok o = true -> pfx ∈ ScrubPrefixes o -> prefix_ok (trimmed pfx) = true.
Proof. unfold scrub_ok. rewrite forallb_forall. intros Ho Hin. apply Ho. by apply list_elem_of_In. Qed.

(** A dropped marker would only have hidden scrubbed paths. *)
Lemma dropped_scrubbed o n p :
  scrub_ok o = true -> name_ok n = true -> marker_dropped o n = true -> covers n p = true ->
  isScrubbed o p = true.
Proof.
  intros Ho Hn Hd Hc. pose proof (covers_marker _ _ Hc) as Hm. unfold marker_dropped in Hd.
  destruct (marker_region n Hn Hm) as (D & b & Hsn & HB & HD & Hwb & HDc & HR). rewrite HB in Hd.
  destruct HR as [(-> & HR)|(Hb & Hx & Hsj & Hcj & HR)].
  - rewrite String.eqb_refl in Hd. apply isScrubbed_below with (Dir n); [done|right].
    apply under_split. destruct HDc as [->|(HDc & HDs & _)].
    + exfalso. apply isScrubbed_spec in Hd as (pfx & Hin & Hpfx). rewrite HD in Hpfx. cbn [dir_of] in Hpfx.
      pose proof (scrub_ok_prefix _ _ Ho Hin) as [Hpc _]%andb_prop.
      destruct Hpfx as [Hpfx|(l & Hl & Hpfx)%under_split]; [by rewrite <-Hpfx in Hpc|].
      change (split ".") with ["."] in Hpfx. pose proof (split_ne (trimmed pfx)).
      destruct (split (trimmed pfx)) as [|? [|]], l; done.
    + apply HR in Hc as [->|(l & Hl & Hp)]; [by apply split_ne in HDs|].
      exists l. by rewrite HDs.
  - apply String.eqb_neq in Hb. rewrite Hb in Hd.
    apply isScrubbed_below with (marker_target n).
    + apply orb_true_iff in Hd as [Hd|Hd]; [|done]. unfold marker_target. rewrite HB.
      apply isScrubbed_spec in Hd as (pfx & Hin & Hpfx). apply isScrubbed_spec. exists pfx. split; [done|right].
      pose proof (scrub_ok_prefix _ _ Ho Hin) as [_ Hpm]%andb_prop.
      apply under_split. rewrite Hsj. destruct Hpfx as [Hpfx|(l & Hl & Hpfx)%under_split].
      * rewrite <-Hpfx, Hsn, forallb_app in Hpm. simpl in Hpm. by rewrite Hwb, andb_false_r in Hpm.
      * rewrite Hsn in Hpfx. destruct (exists_last Hl) as (l0 & c & ->). rewrite app_assoc in Hpfx.
        apply app_inj_tail in Hpfx as [-> _]. exists (l0 ++ [hidden_name b]).
        rewrite app_assoc. split; [|done]. by destruct l0.
    + unfold marker_target. rewrite HB.
      apply HR in Hc as (l & Hp). rewrite <-Hsj in Hp. destruct (decide (l = [])) as [->|Hl].
      * left. apply split_inj. by rewrite app_nil_r in Hp.
      * right. apply under_split. by exists l.
Qed.

Lemma base_listed_spec o B p v :
  base_listed o B = true -> B !! p = Some v -> canonical p = true /\ baseContains o p = true.
Proof.
  unfold base_listed. rewrite forallb_forall. intros Hl Hp.
  apply elem_of_map_to_list, list_elem_of_In in Hp. by apply Hl, andb_prop in Hp.
Qed.

Lemma trimmed_canonical p : canonical p = true -> trimmed p = p /\ trimmed ("/" +:+ p) = p.
Proof.
  intros Hp. unfold trimmed, TrimPrefix.
  pose proof (canonical_not_rooted p "" Hp) as Hr. rewrite append_nil in Hr. rewrite Hr.
  assert (HasPrefix ("/" +:+ p) "/" = true) as -> by (apply HasPrefix_spec; by exists p).
  change (drop_string (String.length "/") ("/" +:+ p)) with p.
  by rewrite TrimSlashes_canonical.
Qed.

Lemma baseDirHasEntries_below o d p :
  canonical p = true -> baseContains o p = true -> d = "." \/ under d p = true ->
  baseDirHasEntries o d = true.
Proof.
  intros Hp Hb Hd. unfold baseDirHasEntries. apply existsb_exists.
  assert (exists e, e ∈ BasePaths o /\ trimmed e = p) as (e & Hin & He).
  { destruct (trimmed_canonical p Hp).
    apply orb_true_iff in Hb as [Hb%bool_decide_eq_true|Hb%bool_decide_eq_true]; eauto. }
  exists e. rewrite <-list_elem_of_In, elem_of_elements. split; [done|]. fold (trimmed e). rewrite He.
  assert (String.eqb p "" = false) as -> by (apply String.eqb_neq; by apply canonical_ne).
  destruct Hd as [->|Hd]; [done|]. by destruct (_ || _).
Qed.

(** What hides a path of the base stays in the accumulator. *)
Lemma covers_kept o B n p v :
  base_listed o B = true -> name_ok n = true -> covers n p = true -> B !! p = Some v ->
  marker_kept o n = true.
Proof.
  intros HB Hn Hc Hp. destruct (base_listed_spec _ _ _ _ HB Hp) as [Hcp Hb].
  unfold covers in Hc. unfold marker_kept, marker_target. destruct (String.eqb (Base n) opaqueMarker).
  - apply baseDirHasEntries_below with p; [done..|].
    apply orb_true_iff in Hc as [Hc%String.eqb_eq|Hc]; auto.
  - destruct (HasPrefix _ _); [|done].
    apply orb_true_iff in Hc as [->%String.eqb_eq|Hc]; apply orb_true_iff; [by left|right].
    by apply baseDirHasEntries_below with p; [..|right].
Qed.

(** ** The view *)

(** Some marker of the accumulator hides [p]. *)
Definition masked (acc : gmap string entry) (p : string) : Prop :=
  exists k e, acc !! k = Some e /\ covers k p = true.
Definition entry_node (p : string) (e : entry) : option (Header * bytes) :=
  h ← hdr e; Some (normalise p h, payload e).

Definition view_at (acc : gmap string entry) (B : fs) (p : string) (v : option (Header * bytes)) : Prop :=
  match acc !! p with
  | Some e => v = entry_node p e
  | None => masked acc p /\ v = None \/ ~ masked acc p /\ v = B !! p
  end.
Definition view (o : Options) (acc : gmap string entry) (B S : fs) : Prop :=
  forall p, ordinary o p = true -> view_at acc B p (S !! p).

(** Every stored entry has a canonical key and a header, and data only if its type has data. *)
Definition acc_ok (acc : gmap string entry) : Prop :=
  map_Forall (fun k e => name_ok k = true /\
    exists h, hdr e = Some h /\ (is_reg h = false -> payload e = [])) acc.

(** What [p] was in the base is not what it is now, for the layers met so far. *)
Definition touched (acc : gmap string entry) (p : string) : Prop := is_Some (acc !! p) \/ masked acc p.

Lemma uncovered_lookup n acc k e :
  uncovered n acc !! k = Some e <-> acc !! k = Some e /\ covers n k = false.
Proof.
  unfold uncovered. rewrite (lookup_filter_key (covers n)).
  destruct (covers n k); simpl; naive_solver.
Qed.

Lemma ordinary_spec o p :
  ordinary o p = true <-> canonical p = true /\ is_marker p = false /\ isScrubbed o p = false.
Proof. unfold ordinary. rewrite !andb_true_iff, !negb_true_iff. tauto. Qed.

Lemma not_marker_covers n p : is_marker n = false -> covers n p = false.
Proof. intros Hn. apply not_true_is_false. intros ?%covers_marker. congruence. Qed.

Section Merging.
Context (o : Options) (B : fs).
Hypothesis Hscrub : scrub_ok o = true.
Hypothesis Hbase : base_listed o B = true.

(** The accumulator after a marker, on the ordinary paths. *)
Lemma marker_step acc it acc' p :
  acc_ok acc -> name_ok (item_name it) = true -> is_marker (item_name it) = true ->
  merge_item o acc it = Ok acc' -> ordinary o p = true ->
  acc' !! p = (if covers (item_name it) p then None else acc !! p) /\
  (covers (item_name it) p = false -> masked acc' p <-> masked acc p) /\
  (covers (item_name it) p = true -> is_Some (B !! p) -> masked acc' p).
Proof.
  intros Hok Hn Hm Hstep Hp. rewrite merge_item_marker in Hstep by done.
  apply (inj Ok) in Hstep. apply ordinary_spec in Hp as (Hcp & Hmp & Hsp).
  set (n := item_name it) in *.
  assert (p <> n) as Hpn by (intros ->; congruence).
  destruct (marker_dropped o n) eqn:Hd.
  { subst acc'. destruct (covers n p) eqn:Hc; [|done].
    rewrite (dropped_scrubbed o n p) in Hsp by done. done. }
  assert (forall q, uncovered n acc !! q = if covers n q then None else acc !! q) as Hunc.
  { intros q. unfold uncovered. rewrite (lookup_filter_key (covers n)). by destruct (covers n q). }
  assert (covers n p = false -> masked (uncovered n acc) p <-> masked acc p) as Hmask.
  { intros Hc. split; intros (k & e & Hk & Hkp); exists k, e.
    - by apply uncovered_lookup in Hk as [? _].
    - split; [|done]. apply uncovered_lookup. split; [done|].
      apply not_true_is_false. intros Hnk. destruct (Hok k e Hk) as (Hkn & _).
      rewrite (marker_covers_trans n k p) in Hc by done. done. }
  destruct (marker_kept o n) eqn:Hk; subst acc'; split_and!.
  - by rewrite lookup_insert_ne.
  - intros Hc. rewrite <-Hmask by done. split; intros (k & e & Hk' & Hkp).
    + apply lookup_insert_Some in Hk' as [[<- _]|[_ Hk']]; [congruence|]. by exists k, e.
    + exists k. destruct (decide (k = n)) as [->|]; [congruence|].
      exists e. by rewrite lookup_insert_ne.
  - intros Hc _. exists n. eexists. by rewrite lookup_insert_eq.
  - done.
  - done.
  - intros Hc [v Hv]. by rewrite (covers_kept o B n p v) in Hk.
Qed.

Lemma plain_entry_step acc it acc' p :
  is_marker (item_name it) = false ->
  merge_item o acc it = Ok acc' -> ordinary o p = true ->
  acc' !! p = (if decide (item_name it = p) then Some (stored it (data_of it)) else acc !! p) /\
  (masked acc p -> masked acc' p) /\ (masked acc' p -> masked acc p).
Proof.
  intros Hm Hstep Hp. apply merge_item_entry in Hstep; [|done].
  apply ordinary_spec in Hp as (Hcp & Hmp & Hsp).
  destruct (isScrubbed o (item_name it)) eqn:Hs; subst acc'.
  { destruct (decide _) as [<-|]; [congruence|]. done. }
  split_and!.
  - destruct (decide _) as [->|Hne]; [by rewrite lookup_insert_eq|by rewrite lookup_insert_ne].
  - intros (k & e & Hk & Hkp). exists k.
    destruct (decide (k = item_name it)) as [->|Hne].
    + by rewrite not_marker_covers in Hkp.
    + exists e. by rewrite lookup_insert_ne.
  - intros (k & e & Hk & Hkp). apply lookup_insert_Some in Hk as [[<- _]|[_ Hk]].
    + by rewrite not_marker_covers in Hkp.
    + by exists k, e.
Qed.

Lemma acc_ok_step acc it acc' :
  acc_ok acc -> name_ok (item_name it) = true -> merge_item o acc it = Ok acc' -> acc_ok acc'.
Proof.
  intros Hok Hn Hstep.
  assert (forall acc d, acc_ok acc -> (is_reg (item_hdr it) = false -> d = []) ->
            acc_ok (<[item_name it := stored it d]> acc)) as Hins.
  { intros acc0 d H0 Hd. apply map_Forall_insert_2; [|done]. split; [done|]. by eexists. }
  assert (forall n, acc_ok (uncovered n acc)) as Hunc.
  { intros n k e [Hk _]%uncovered_lookup. by apply (Hok k). }
  destruct (is_marker (item_name it)) eqn:Hm.
  - rewrite merge_item_marker in Hstep by done. apply (inj Ok) in Hstep. subst acc'.
    destruct (marker_dropped _ _); [done|]. destruct (marker_kept _ _); auto.
  - apply merge_item_entry in Hstep; [|done]. subst acc'.
    destruct (isScrubbed _ _); [done|]. apply Hins; [done|]. unfold data_of. by intros ->.
Qed.

Lemma view_step acc S it acc' :
  acc_ok acc -> view o acc B S -> name_ok (item_name it) = true ->
  merge_item o acc it = Ok acc' -> view o acc' B (seq_item S it).
Proof.
  intros Hok Hv Hn Hstep p Hp. specialize (Hv p Hp). unfold view_at, seq_item in *.
  destruct (is_marker (item_name it)) eqn:Hm.
  - destruct (marker_step acc it acc' p Hok Hn Hm Hstep Hp) as (-> & Hmask & Hnew).
    rewrite (lookup_filter_key (covers (item_name it))).
    destruct (covers (item_name it) p) eqn:Hc; cbn [Bool.eqb].
    + destruct (B !! p) as [v|] eqn:HB.
      * left. split; [by apply Hnew|done].
      * destruct (decide (map_Exists (fun k _ => covers k p = true) acc')) as [(k & e & Hk & Hkp)|Hno].
        { left. split; [by exists k, e|done]. }
        right. split; [|done]. intros (k & e & Hk & Hkp). apply Hno. by exists k, e.
    + destruct (acc !! p); [done|]. specialize (Hmask eq_refl). tauto.
  - destruct (plain_entry_step acc it acc' p Hm Hstep Hp) as (-> & Hmask & Hmask').
    destruct (decide (item_name it = p)) as [<-|Hne].
    + by rewrite lookup_insert_eq.
    + rewrite lookup_insert_ne by done. destruct (acc !! p); [done|]. tauto.
Qed.

Lemma touched_step acc it acc' p :
  acc_ok acc -> name_ok (item_name it) = true -> merge_item o acc it = Ok acc' ->
  ordinary o p = true -> is_Some (B !! p) ->
  touched acc p \/ covers (item_name it) p = true -> touched acc' p.
Proof.
  intros Hok Hn Hstep Hp HB Ht. unfold touched in *.
  destruct (is_marker (item_name it)) eqn:Hm.
  - destruct (marker_step acc it acc' p Hok Hn Hm Hstep Hp) as (-> & Hmask & Hnew).
    destruct (covers (item_name it) p); [by auto|]. rewrite (Hmask eq_refl). naive_solver.
  - rewrite (not_marker_covers _ p Hm) in Ht.
    destruct (plain_entry_step acc it acc' p Hm Hstep Hp) as (-> & Hmask & _).
    destruct (decide _); naive_solver.
Qed.

(** Where an entry of the accumulator comes from. *)
Lemma origin_step acc it acc' n e :
  is_marker n = false -> merge_item o acc it = Ok acc' -> acc' !! n = Some e ->
  acc !! n = Some e \/ item_name it = n /\ e = stored it (data_of it).
Proof.
  intros Hn Hstep He. destruct (is_marker (item_name it)) eqn:Hm.
  - rewrite merge_item_marker in Hstep by done. apply (inj Ok) in Hstep. subst acc'. left.
    destruct (marker_dropped _ _); [done|]. destruct (marker_kept _ _).
    + apply lookup_insert_Some in He as [[<- _]|[_ He]]; [congruence|].
      by apply uncovered_lookup in He as [? _].
    + by apply uncovered_lookup in He as [? _].
  - apply merge_item_entry in Hstep; [|done]. subst acc'.
    destruct (isScrubbed _ _); [by left|].
    apply lookup_insert_Some in He as [[<- <-]|[_ ?]]; [by right|by left].
Qed.

(** ** The whole of a layer *)

Lemma merge_items_ok l acc acc' S :
  acc_ok acc -> view o acc B S -> forallb (fun it => name_ok (item_name it)) l = true ->
  merge_items o acc l = Ok acc' ->
  acc_ok acc' /\ view o acc' B (foldl seq_item S l) /\
  (forall p, ordinary o p = true -> is_Some (B !! p) ->
     touched acc p \/ existsb (fun it => covers (item_name it) p) l = true -> touched acc' p) /\
  (forall n e, is_marker n = false -> acc' !! n = Some e ->
     acc !! n = Some e \/ exists it, it ∈ l /\ item_name it = n /\ e = stored it (data_of it)).
Proof.
  revert acc S. induction l as [|it l IH]; intros acc S Hok Hv Hn Hrun; simpl in *.
  { apply (inj Ok) in Hrun as ->. split_and!; [done..| |by auto]. intros p _ _ [?|?]; done. }
  apply andb_prop in Hn as [Hn Hl].
  destruct (merge_item o acc it) as [|acc1] eqn:Hstep; [done|].
  destruct (IH acc1 (seq_item S it)) as (Hok' & Hv' & Ht & Ho);
    eauto using acc_ok_step, view_step. split_and!; [done..| |].
  - intros p Hp HB Hor. apply Ht; [done..|]. rewrite orb_true_iff in Hor.
    destruct Hor as [?|[?|?]]; [left..|by right]; apply (touched_step acc it acc1 p); auto.
  - intros n e Hnm He. destruct (Ho n e Hnm He) as [He'|(it' & ? & ?)].
    + destruct (origin_step _ _ _ _ _ Hnm Hstep He') as [?|?]; [by left|right]. exists it. set_solver.
    + right. exists it'. set_solver.
Qed.
End Merging.
