(* ===== verification/DeltaMergeContract.v ===== *)
(** * What merging delta layers promises

    The merged layer, applied to the base image, gives what the layers gave one after the other,
    on every path that is not scrubbed; it is written in one canonical form; and merging it again
    changes nothing, as long as no file's name sorts before the markers that hide its siblings. *)

From Stdlib Require Import Ascii.
From S2P Require Import Prelude GoLib Paths DeltaMerge DeltaMergeLaws.
(** The layer a [tar.Reader] would deliver from what was written. *)
Definition as_item (hd : Header * bytes) : Item := {| item_hdr := fst hd; item_data := Ok (snd hd) |}.
Definition archive (w : Writer) : list Item := as_item <$> written w.

(** ** The accumulator after all layers *)

Section Chain.
Context (o : Options) (B : fs).
Hypothesis Hscrub : scrub_ok o = true.
Hypothesis Hbase : base_listed o B = true.

(** What the base has below an entry that is not a directory has been hidden or rewritten. *)
Definition settled (acc : gmap string entry) : Prop :=
  forall p n e h, ordinary o p = true -> is_Some (B !! p) -> is_marker n = false ->
    acc !! n = Some e -> hdr e = Some h -> is_dir h = false -> under n p = true -> touched acc p.

Lemma merge_layers_ok ls acc acc' S :
  acc_ok acc -> view o acc B S -> settled acc -> chain_ok S ls = true ->
  merge_layers o acc ls = Ok acc' ->
  acc_ok acc' /\ view o acc' B (apply_layers S ls) /\ settled acc'.
Proof.
  revert acc S. induction ls as [|L ls IH]; intros acc S Hok Hv Hs Hc Hrun; simpl in *.
  { by apply (inj Ok) in Hrun as ->. }
  apply andb_prop in Hc as [[[[Hn Hm]%andb_prop He]%andb_prop _]%andb_prop Hc].
  destruct (merge_items o acc (items L)) as [|acc1] eqn:Hitems; [done|].
  destruct (ending L); [done|].
  destruct (merge_items_ok o B Hscrub Hbase _ _ _ _ Hok Hv Hn Hitems) as (Hok1 & Hv1 & Ht & Ho).
  rewrite seq_is_apply in Hv1 by done.
  apply (IH acc1); [done..| |done|done].
  intros p n e h Hp HB Hnm Hacc Hh Hd Hu.
  apply Ht; [done..|]. destruct (Ho n e Hnm Hacc) as [Hold|(it & Hin & <- & ->)].
  { left. by apply (Hs p n e h). }
  injection Hh as <-. specialize (Hv p Hp). unfold view_at, touched in *.
  destruct (acc !! p) eqn:Hacp; [left; left; by eexists|].
  destruct Hv as [(? & _)|(_ & Hv)]; [by left; right|right].
  destruct HB as [v HB]. rewrite HB in Hv.
  apply (explicit_spec S (items L) p v it); [done..|].
  unfold replaces. rewrite Hnm, Hu. change (is_dir (item_hdr it) = false) in Hd. by rewrite Hd.
Qed.

Lemma merge_layers_start ls acc' :
  chain_ok B ls = true -> merge_layers o ∅ ls = Ok acc' ->
  acc_ok acc' /\ view o acc' B (apply_layers B ls) /\ settled acc'.
Proof.
  intros Hc Hrun. apply (merge_layers_ok ls ∅); [| | |done..].
  - by intros k e ?.
  - intros p Hp. unfold view_at. rewrite lookup_empty. right. split; [|done].
    by intros (k & e & ? & ?).
  - by intros p n e h _ _ _ ?.
Qed.
End Chain.

(** ** What is written *)

Definition out_entry (acc : gmap string entry) (p : string) : option (Header * bytes) :=
  acc !! p ≫= entry_node p.

Lemma out_op_written w w' : out_op w = (None, w') -> written w' = written w.
Proof. unfold out_op. by destruct (outcomes w) as [|[e|] r]; intros [= <-]. Qed.

Lemma emit_written acc paths w w' :
  emit acc paths w = (None, w') ->
  written w' = written w ++ omap (out_entry acc) paths /\ closed w' = true.
Proof.
  revert w. induction paths as [|p paths IH]; intros w; simpl.
  - unfold CloseTar, out_op. destruct (negb (missing w =? 0)); [done|].
    destruct (outcomes w) as [|[e|] r]; intros [= <-]; simpl; by rewrite app_nil_r.
  - unfold out_entry at 1. destruct (acc !! p) as [[[h|] d]|]; simpl; [|by apply IH..].
    unfold WriteHeader. destruct (negb (missing w =? 0)); [done|].
    destruct (out_op w) as [[e|] w1] eqn:Hop; [done|].
    apply out_op_written in Hop as Hw1. clear Hop.
    destruct (Nat.ltb_spec 0 (length d)) as [Hd|Hd].
    + unfold WriteData. cbn [missing set_field eta_Writer].
      destruct (_ <? _); [done|].
      destruct (out_op _) as [[e|] w3] eqn:Hop2; [done|].
      assert (written w3 = written w ++ [(normalise p h, [])]) as Hw3.
      { rewrite (out_op_written _ _ Hop2). simpl. by rewrite Hw1. }
      intros [Hw' Hcl]%IH. split; [|done]. rewrite Hw'. cbn [written set_field eta_Writer].
      rewrite Hw3. unfold add_data. rewrite last_snoc, length_app. simpl.
      rewrite Nat.add_sub, take_app_length. by rewrite <-app_assoc.
    + intros [Hw' Hcl]%IH. split; [|done]. rewrite Hw'. cbn [written set_field eta_Writer].
      rewrite Hw1. destruct d; [|simpl in *; lia]. by rewrite <-app_assoc.
Qed.

Lemma normalizePath_canonical p : canonical p = true -> normalizePath p = p.
Proof.
  intros Hp. unfold normalizePath, TrimPrefix at 2.
  assert (HasPrefix p "./" = false) as ->.
  { apply not_true_is_false. rewrite HasPrefix_spec. intros (r & ->). done. }
  by apply trimmed_canonical.
Qed.

Lemma canonical_of_name_ok n : name_ok n = true -> canonical n = true.
Proof. by intros [? _]%andb_prop. Qed.

(** The written entries, read back. *)
Lemma out_item acc p h d :
  acc_ok acc -> out_entry acc p = Some (h, d) ->
  name_ok p = true /\ item_name (as_item (h, d)) = p /\ node_of (as_item (h, d)) = (h, d) /\
  exists e h0, acc !! p = Some e /\ hdr e = Some h0 /\ h = normalise p h0 /\ d = payload e.
Proof.
  intros Hok. unfold out_entry. destruct (acc !! p) as [e|] eqn:He; [|done].
  destruct (Hok p e He) as (Hn & h0 & Hh & Hd). simpl. unfold entry_node. rewrite Hh. intros [= <- <-].
  assert (item_name (as_item (normalise p h0, payload e)) = p) as Hname.
  { apply normalizePath_canonical, canonical_of_name_ok, Hn. }
  split_and!; [done..| |by exists e, h0].
  unfold node_of. rewrite Hname. f_equal. unfold data_of. cbn [item_hdr as_item item_data fst snd].
  change (is_reg (normalise p h0)) with (is_reg h0).
  destruct (is_reg h0); [done|]. by rewrite Hd.
Qed.

Lemma out_lookup acc paths p :
  acc_ok acc -> NoDup paths ->
  layer_entries (as_item <$> omap (out_entry acc) paths) !! p =
  if is_marker p then None else if decide (p ∈ paths) then out_entry acc p else None.
Proof.
  intros Hok. induction paths as [|q paths IH] using rev_ind; intros Hnd.
  { by destruct (is_marker p). }
  apply NoDup_app in Hnd as (Hnd & Hq & _). specialize (IH Hnd).
  assert (q ∉ paths) as Hqn by (intros Hin; by apply (Hq q Hin), list_elem_of_singleton).
  rewrite omap_app, fmap_app. simpl.
  assert (p <> q -> p ∈ paths ++ [q] <-> p ∈ paths) as Hsnoc by set_solver.
  destruct (out_entry acc q) as [[h d]|] eqn:Hout; simpl.
  - rewrite layer_entries_snoc. destruct (out_item _ _ _ _ Hok Hout) as (_ & -> & -> & _).
    destruct (is_marker q) eqn:Hm.
    + rewrite IH. destruct (is_marker p) eqn:Hp; [done|].
      symmetry. apply decide_ext, Hsnoc. intros ->; congruence.
    + destruct (decide (q = p)) as [<-|Hne].
      * rewrite lookup_insert_eq, Hm, decide_True; [done|set_solver].
      * rewrite lookup_insert_ne, IH by done. destruct (is_marker p); [done|].
        symmetry. by apply decide_ext, Hsnoc.
  - rewrite app_nil_r, IH. destruct (is_marker p); [done|].
    destruct (decide (p = q)) as [->|Hne].
    + rewrite decide_False, decide_True by set_solver. done.
    + symmetry. by apply decide_ext, Hsnoc.
Qed.

Lemma sort_paths_perm l : sort_paths l ≡ₚ l.
Proof. apply merge_sort_Permutation. Qed.

Lemma sort_paths_keys (acc : gmap string entry) p :
  p ∈ sort_paths (fst <$> map_to_list acc) <-> is_Some (acc !! p).
Proof.
  rewrite sort_paths_perm, list_elem_of_fmap. split.
  - intros ([k e] & -> & Hk%elem_of_map_to_list). by exists e.
  - intros [e He]. exists (p, e). by rewrite elem_of_map_to_list.
Qed.
Lemma sort_paths_nodup (acc : gmap string entry) : NoDup (sort_paths (fst <$> map_to_list acc)).
Proof. rewrite sort_paths_perm. apply NoDup_fst_map_to_list. Qed.

(** What an archive holds, by membership. *)
Lemma archive_hides acc paths p :
  acc_ok acc ->
  existsb (fun it => covers (item_name it) p) (as_item <$> omap (out_entry acc) paths) = true <->
  exists k, k ∈ paths /\ is_Some (acc !! k) /\ covers k p = true.
Proof.
  intros Hok. rewrite existsb_exists. split.
  - intros (it & Hin & Hc). apply list_elem_of_In, list_elem_of_fmap in Hin as ([h d] & -> & Hin).
    apply list_elem_of_omap in Hin as (k & Hk & Hout).
    destruct (out_item _ _ _ _ Hok Hout) as (_ & Hn & _ & e & _ & He & _).
    rewrite Hn in Hc. exists k. split_and!; [done|by exists e|done].
  - intros (k & Hk & [e He] & Hc). destruct (Hok k e He) as (_ & h & Hh & _).
    assert (out_entry acc k = Some (normalise k h, payload e)) as Hout.
    { unfold out_entry. rewrite He. simpl. unfold entry_node. by rewrite Hh. }
    exists (as_item (normalise k h, payload e)). split.
    + apply list_elem_of_In, list_elem_of_fmap. eexists. split; [done|].
      apply list_elem_of_omap. by exists k.
    + by destruct (out_item _ _ _ _ Hok Hout) as (_ & -> & _).
Qed.

Lemma Merge_spec ls o outs w :
  Merge ls o outs = (None, w) ->
  exists acc, merge_layers o ∅ ls = Ok acc /\
    written w = omap (out_entry acc) (sort_paths (fst <$> map_to_list acc)) /\ closed w = true.
Proof.
  unfold Merge. destruct (merge_layers o ∅ ls) as [|acc]; [done|].
  intros [Hw Hc]%emit_written. by exists acc.
Qed.

(** ** The form of the merged layer *)

(** Every entry has a header, and was kept for a reason. *)
Definition wanted (o : Options) (n : string) : bool :=
  if is_marker n then negb (marker_dropped o n) && marker_kept o n else negb (isScrubbed o n).
Definition acc_plain (o : Options) (acc : gmap string entry) : Prop :=
  map_Forall (fun k e => wanted o k = true /\ is_Some (hdr e) /\ (is_marker k = true -> payload e = [])) acc.

Lemma acc_plain_step o acc it acc' :
  acc_plain o acc -> merge_item o acc it = Ok acc' -> acc_plain o acc'.
Proof.
  intros Hok Hstep.
  assert (acc_plain o (uncovered (item_name it) acc)) as Hunc.
  { intros k e [Hk _]%uncovered_lookup. by apply Hok. }
  destruct (is_marker (item_name it)) eqn:Hm.
  - rewrite merge_item_marker in Hstep by done. apply (inj Ok) in Hstep. subst acc'.
    destruct (marker_dropped _ _) eqn:Hd; [done|]. destruct (marker_kept _ _) eqn:Hk; [|done].
    apply map_Forall_insert_2; [|done]. split; [|done]. unfold wanted. by rewrite Hm, Hd, Hk.
  - apply merge_item_entry in Hstep; [|done]. subst acc'. destruct (isScrubbed _ _) eqn:Hs; [done|].
    apply map_Forall_insert_2; [|done]. unfold wanted. by rewrite Hm, Hs.
Qed.

Lemma acc_plain_layers o ls acc acc' :
  acc_plain o acc -> merge_layers o acc ls = Ok acc' -> acc_plain o acc'.
Proof.
  revert acc. induction ls as [|L ls IH]; intros acc Hok; simpl; [by intros [= <-]|].
  destruct (merge_items o acc (items L)) as [|acc1] eqn:Hi; [done|]. destruct (ending L); [done|].
  apply IH. revert acc Hok Hi. induction (items L) as [|it l IHl]; intros acc Hok; simpl; [by intros [= <-]|].
  destruct (merge_item o acc it) as [|acc2] eqn:Hstep; [done|]. eauto using acc_plain_step.
Qed.

Lemma out_names o acc (paths : list string) :
  acc_plain o acc -> (forall p, p ∈ paths -> is_Some (acc !! p)) ->
  (fun hd => Name (fst hd)) <$> omap (out_entry acc) paths = paths.
Proof.
  intros Hok Hin. induction paths as [|p paths IH]; [done|].
  destruct (Hin p) as [e He]; [set_solver|]. destruct (Hok p e He) as (_ & [h Hh] & _).
  assert (out_entry acc p = Some (normalise p h, payload e)) as Hout.
  { unfold out_entry. rewrite He. simpl. unfold entry_node. by rewrite Hh. }
  simpl. rewrite Hout. simpl. f_equal. apply IH. set_solver.
Qed.

(** The merged layer has one form: its names are distinct and sorted by bytes, its times are
    fixed, none of its entries or whiteouts is of a scrubbed path, and each of its markers hides
    something the base image lists. *)
Theorem merged_layer_form o ls outs w :
  Merge ls o outs = (None, w) ->
  let names := (fun hd => Name (fst hd)) <$> written w in
  closed w = true /\ NoDup names /\ Sorted String.le names /\
  (forall n, n ∈ names -> wanted o n = true) /\
  (forall h d, (h, d) ∈ written w -> ModTime h = 0 /\ AccessTime h = zeroTime /\ ChangeTime h = zeroTime).
Proof.
  intros (acc & Hrun & Hw & Hc)%Merge_spec. intros names.
  assert (acc_plain o acc) as Hok by (by apply (acc_plain_layers o ls ∅)).
  assert (names = sort_paths (fst <$> map_to_list acc)) as Hn.
  { unfold names. rewrite Hw. apply (out_names o); [done|]. intros p. by rewrite sort_paths_keys. }
  split_and!; [done| | | |].
  - rewrite Hn. apply sort_paths_nodup.
  - rewrite Hn. apply Sorted_merge_sort, _.
  - intros n. rewrite Hn, sort_paths_keys. intros [e He]. by apply (Hok n e).
  - intros h d. rewrite Hw. intros (p & _ & Hp)%list_elem_of_omap. unfold out_entry in Hp.
    destruct (acc !! p) as [e|]; [|done]. simpl in Hp. unfold entry_node in Hp.
    destruct (hdr e); [|done]. simpl in Hp. by injection Hp as <- <-.
Qed.

(** C31: squashing a chain of layers keeps what it does.  Assume that every layer of the chain is one
    a differ writes without hard links (canonical names, markers before the entries they would
    hide, what a file replaces hidden explicitly, no entry of type link), that scrub prefixes are
    plain paths, that the base paths list the base image, and that the merge ends without an error.
    Then applying the merged layer to the base gives, on every path that is not scrubbed, exactly
    the entry (header, times aside, and data) or the absence that applying the layers one after
    the other gives.  Hard links are left out because the merge does not keep them: it sorts a link
    before its target, and hides a target without the link. *)
Theorem merge_does_what_the_layers_did o B ls outs w p :
  scrub_ok o = true -> base_listed o B = true -> chain_ok B ls = true ->
  Merge ls o outs = (None, w) -> ordinary o p = true ->
  apply_layer B (archive w) !! p = apply_layers B ls !! p.
Proof.
  intros Hs Hb Hc (acc & Hrun & Hw & _)%Merge_spec Hp.
  destruct (merge_layers_start o B Hs Hb ls acc Hc Hrun) as (Hok & Hv & Hset).
  specialize (Hv p Hp). unfold archive. rewrite Hw.
  set (paths := sort_paths _). assert (NoDup paths) as Hnd by apply sort_paths_nodup.
  assert (forall k, k ∈ paths <-> is_Some (acc !! k)) as Hkeys by (intros; apply sort_paths_keys).
  rewrite apply_layer_lookup, out_lookup by done.
  apply ordinary_spec in Hp as Hp'. destruct Hp' as (Hcp & Hmp & _). rewrite Hmp.
  unfold view_at in Hv. destruct (acc !! p) as [e|] eqn:He.
  { rewrite decide_True by (apply Hkeys; rewrite He; by eexists).
    destruct (Hok p e He) as (_ & h & Hh & _). unfold out_entry, entry_node in *. rewrite He. simpl. by rewrite Hh in *. }
  rewrite decide_False by (rewrite Hkeys, He; by intros []).
  assert (masked acc p -> layer_hides (as_item <$> omap (out_entry acc) paths) p = true) as Hmask.
  { intros (k & ek & Hk & Hkp). unfold layer_hides. rewrite existsb_orb. apply orb_true_iff. left.
    apply archive_hides; [done|]. exists k. rewrite Hkeys. rewrite Hk. by split; [eexists|]. }
  destruct Hv as [(Hm & ->)|(Hm & ->)]; [by rewrite Hmask|].
  destruct (layer_hides _ p) eqn:Hh; [|done].
  destruct (B !! p) as [v|] eqn:HB; [|done]. exfalso. apply Hm.
  unfold layer_hides in Hh. rewrite existsb_orb in Hh. apply orb_true_iff in Hh as [Hh|Hh].
  - apply archive_hides in Hh as (k & _ & [ek Hk] & Hkp); [|done]. by exists k, ek.
  - apply existsb_exists in Hh as (it & Hin & Hr).
    apply list_elem_of_In, list_elem_of_fmap in Hin as ([h d] & -> & Hin).
    apply list_elem_of_omap in Hin as (k & Hk & Hout).
    destruct (out_item _ _ _ _ Hok Hout) as (_ & Hn & _ & ek & h0 & Hek & Hh0 & -> & _).
    unfold replaces in Hr. rewrite Hn in Hr. apply andb_prop in Hr as [[Hr1 Hr2]%andb_prop Hr3].
    apply negb_true_iff in Hr1, Hr2.
    destruct (Hset p k ek h0) as [[? ?]|?]; [done|by eexists|done..|congruence|done].
Qed.

(** * Merging a merged layer again *)

(** No marker hides an entry that precedes it. *)
Fixpoint in_order (l : list Item) : bool :=
  match l with
  | [] => true
  | it :: l' => forallb (fun it' => negb (covers (item_name it') (item_name it))) l' && in_order l'
  end.

Lemma in_order_snoc l it :
  in_order (l ++ [it]) = true <->
  in_order l = true /\ forall it', it' ∈ l -> covers (item_name it) (item_name it') = false.
Proof.
  induction l as [|it0 l IH]; [set_solver|].
  simpl. rewrite forallb_app. simpl. rewrite andb_true_r, !andb_true_iff, IH, negb_true_iff.
  setoid_rewrite elem_of_cons. naive_solver.
Qed.

Lemma merge_items_snoc o acc l it :
  merge_items o acc (l ++ [it]) =
  match merge_items o acc l with Err e => Err e | Ok acc' => merge_item o acc' it end.
Proof.
  revert acc. induction l as [|it0 l IH]; intros acc; simpl.
  - by destruct (merge_item o acc it).
  - by destruct (merge_item o acc it0).
Qed.

Lemma merge_item_succeeds o acc it d :
  item_data it = Ok d -> exists acc', merge_item o acc it = Ok acc'.
Proof.
  intros Hd. unfold merge_item.
  repeat match goal with |- context [if ?b then _ else _] => destruct b end; rewrite ?Hd; by eexists.
Qed.

(** The accumulator a merged layer is read back into. *)
Definition reread (acc : gmap string entry) (p : string) : option entry :=
  hd ← out_entry acc p; Some {| hdr := Some (fst hd); payload := snd hd |}.

Lemma out_reread acc acc2 p :
  acc2 !! p = reread acc p -> out_entry acc2 p = out_entry acc p.
Proof.
  unfold reread. intros H. unfold out_entry at 1. rewrite H.
  unfold out_entry, entry_node. destruct (acc !! p) as [[[h|] d]|]; done.
Qed.

Lemma reread_items o acc paths :
  acc_ok acc -> acc_plain o acc -> NoDup paths -> (forall p, p ∈ paths -> is_Some (acc !! p)) ->
  in_order (as_item <$> omap (out_entry acc) paths) = true ->
  exists acc2, merge_items o ∅ (as_item <$> omap (out_entry acc) paths) = Ok acc2 /\
    forall p, acc2 !! p = if decide (p ∈ paths) then reread acc p else None.
Proof.
  intros Hok Hpl. induction paths as [|q paths IH] using rev_ind; intros Hnd Hin Hord.
  { exists ∅. split; [done|]. intros p. by rewrite lookup_empty. }
  apply NoDup_app in Hnd as (Hnd & Hq & _).
  assert (q ∉ paths) as Hqn by (intros Hin'; by apply (Hq q Hin'), list_elem_of_singleton).
  destruct (Hin q) as [e He]; [set_solver|].
  destruct (Hok q e He) as (_ & h & Hh & _). destruct (Hpl q e He) as (Hwant & _ & Hpay).
  assert (out_entry acc q = Some (normalise q h, payload e)) as Hout.
  { unfold out_entry. rewrite He. simpl. unfold entry_node. by rewrite Hh. }
  destruct (out_item _ _ _ _ Hok Hout) as (_ & Hname & Hnode & _).
  rewrite omap_app, fmap_app in *. simpl in *. rewrite Hout in *. simpl in *.
  apply in_order_snoc in Hord as [Hord Hcov]. rewrite Hname in Hcov.
  destruct (IH Hnd) as (acc2 & Hrun & Hacc2); [set_solver|done|]. clear IH.
  rewrite merge_items_snoc, Hrun.
  set (it := as_item (normalise q h, payload e)) in *.
  destruct (merge_item_succeeds o acc2 it (payload e)) as [acc3 Hstep]; [done|].
  exists acc3. split; [done|].
  assert (acc3 = <[q := stored it (payload e)]> acc2) as ->.
  { unfold wanted in Hwant. destruct (is_marker q) eqn:Hm.
    - rewrite merge_item_marker, Hname in Hstep by (by rewrite Hname).
      apply andb_prop in Hwant as [Hd Hk]. apply negb_true_iff in Hd. rewrite Hd, Hk in Hstep.
      apply (inj Ok) in Hstep as <-. rewrite Hpay by done. f_equal.
      apply map_eq. intros k. unfold uncovered. rewrite (lookup_filter_key (covers q)).
      destruct (covers q k) eqn:Hc; [|done]. simpl. rewrite Hacc2.
      destruct (decide (k ∈ paths)) as [Hk'|]; [|done]. exfalso.
      destruct (Hin k) as [ek Hek]; [set_solver|]. destruct (Hok k ek Hek) as (_ & hk & Hhk & _).
      assert (out_entry acc k = Some (normalise k hk, payload ek)) as Houtk.
      { unfold out_entry. rewrite Hek. simpl. unfold entry_node. by rewrite Hhk. }
      destruct (out_item _ _ _ _ Hok Houtk) as (_ & Hnk & _).
      rewrite <-Hnk, (Hcov (as_item (normalise k hk, payload ek))) in Hc; [done|].
      apply list_elem_of_fmap. eexists. split; [done|]. apply list_elem_of_omap. by exists k.
    - apply merge_item_entry in Hstep; [|by rewrite Hname]. rewrite Hname in Hstep.
      apply negb_true_iff in Hwant. rewrite Hwant in Hstep. rewrite Hstep. f_equal. f_equal.
      by injection Hnode. }
  intros p. destruct (decide (p = q)) as [->|Hne].
  - rewrite lookup_insert_eq, decide_True by set_solver. unfold reread. rewrite Hout. simpl.
    unfold stored. by rewrite Hname.
  - rewrite lookup_insert_ne, Hacc2 by done. apply decide_ext. set_solver.
Qed.

(** ** Writing the same entries *)

Lemma emit_cons acc p paths w :
  emit acc (p :: paths) w =
  match out_entry acc p with
  | Some (h, d) =>
      match WriteHeader w h with
      | (Some e, w) => (Some (ErrWriteHeader p e), w)
      | (None, w) =>
          if (0 <? length d)%nat then
            match WriteData w d with
            | (Some e, w) => (Some (ErrWritePayload p e), w)
            | (None, w) => emit acc paths w
            end
          else emit acc paths w
      end
  | None => emit acc paths w
  end.
Proof. simpl. unfold out_entry, entry_node. by destruct (acc !! p) as [[[h|] d]|]. Qed.

Lemma emit_ext acc acc2 paths w :
  (forall p, p ∈ paths -> out_entry acc2 p = out_entry acc p) -> emit acc2 paths w = emit acc paths w.
Proof.
  revert w. induction paths as [|p paths IH]; intros w Hext; [done|].
  rewrite !emit_cons, Hext by set_solver.
  assert (forall w, emit acc2 paths w = emit acc paths w) as IH' by (intros; apply IH; set_solver).
  destruct (out_entry acc p) as [[h d]|]; [|done].
  destruct (WriteHeader w h) as [[e|] w1]; [done|].
  destruct (0 <? length d)%nat; [|done]. by destruct (WriteData w1 d) as [[e|] w2].
Qed.

(** What was written once is written again, when no operation fails. *)
Lemma emit_again acc paths w w' w2 :
  emit acc paths w = (None, w') -> missing w2 = missing w -> outcomes w2 = [] ->
  exists w2', emit acc paths w2 = (None, w2').
Proof.
  assert (forall u u', out_op u = (None, u') -> missing u' = missing u) as Hmiss.
  { intros u u'. unfold out_op. by destruct (outcomes u) as [|[e|] r]; intros [= <-]. }
  assert (forall u, outcomes u = [] -> out_op u = (None, u)) as Hgood.
  { intros u Hu. unfold out_op. by rewrite Hu. }
  revert w w2. induction paths as [|p paths IH]; intros w w2.
  - simpl. unfold CloseTar. intros Hc Hm Ho. rewrite Hm, (Hgood w2) by done.
    destruct (negb (missing w =? 0)); [done|]. by eexists.
  - rewrite !emit_cons. destruct (out_entry acc p) as [[h d]|]; [|by apply IH].
    unfold WriteHeader. intros Hc Hm Ho. rewrite Hm, (Hgood w2) by done.
    destruct (negb (missing w =? 0)); [done|].
    destruct (out_op w) as [[e|] w1] eqn:Hop; [done|]. clear Hop.
    destruct (0 <? length d)%nat; [|by eapply IH; [exact Hc|..]].
    unfold WriteData in *. cbn [missing set_field eta_Writer] in *.
    destruct (_ <? _); [done|]. rewrite Hgood by done.
    destruct (out_op _) as [[e|] w3] eqn:Hop; [done|]. apply Hmiss in Hop.
    eapply IH; [exact Hc|simpl in *; by rewrite Hop|done].
Qed.

Lemma sorted_paths_unique (l l' : list string) : l ≡ₚ l' -> sort_paths l = sort_paths l'.
Proof.
  intros Hp. apply (StronglySorted_unique String.le).
  - apply Sorted_StronglySorted; [apply _|apply Sorted_merge_sort, _].
  - apply Sorted_StronglySorted; [apply _|apply Sorted_merge_sort, _].
  - by rewrite !sort_paths_perm.
Qed.

Lemma acc_ok_layers o ls acc acc' :
  Forall (fun L => forallb (fun it => name_ok (item_name it)) (items L) = true) ls ->
  acc_ok acc -> merge_layers o acc ls = Ok acc' -> acc_ok acc'.
Proof.
  intros Hls. revert acc. induction Hls as [|L ls HL Hls IH]; intros acc Ha; simpl; [by intros [= <-]|].
  destruct (merge_items o acc (items L)) as [|acc1] eqn:Hi; [done|]. destruct (ending L); [done|].
  apply IH. clear -HL Ha Hi. revert acc Ha Hi HL.
  induction (items L) as [|it l IHl]; intros a Ha; simpl; [by intros [= <-]|].
  destruct (merge_item o a it) as [|a2] eqn:Hstep; [done|].
  intros Hi [Hit Hl]%andb_prop. eauto using acc_ok_step.
Qed.

(** The merged layer is a normal form: as long as none of its markers sorts after an entry it
    hides, merging it again, alone and with the same options, writes the same entries. *)
Theorem merge_again_changes_nothing o ls outs w :
  Forall (fun L => forallb (fun it => name_ok (item_name it)) (items L) = true) ls ->
  Merge ls o outs = (None, w) -> in_order (archive w) = true ->
  exists w', Merge [{| items := archive w; ending := None |}] o [] = (None, w') /\ written w' = written w.
Proof.
  intros Hnames HM Hord. pose proof HM as HM0. apply Merge_spec in HM0 as (acc & Hrun & Hw & _).
  assert (acc_plain o acc) as Hpl by (by apply (acc_plain_layers o ls ∅)).
  assert (acc_ok acc) as Hok by (by apply (acc_ok_layers o ls ∅)).
  unfold archive in *. rewrite Hw in Hord |- *.
  set (paths := sort_paths (fst <$> map_to_list acc)) in *.
  assert (forall k, k ∈ paths <-> is_Some (acc !! k)) as Hkeys by (intros; apply sort_paths_keys).
  destruct (reread_items o acc paths) as (acc2 & Hrun2 & Hacc2); [done..|apply sort_paths_nodup|by apply Hkeys|done|].
  assert (forall p, p ∈ paths -> out_entry acc2 p = out_entry acc p) as Hout.
  { intros p Hp. apply out_reread. by rewrite Hacc2, decide_True. }
  assert (forall p, p ∈ paths <-> is_Some (acc2 !! p)) as Hkeys2.
  { intros p. rewrite Hacc2. destruct (decide (p ∈ paths)) as [Hp|Hp].
    - apply Hkeys in Hp as Hp'. destruct Hp' as [e He]. destruct (Hok p e He) as (_ & h & Hh & _).
      unfold reread, out_entry. rewrite He. simpl. unfold entry_node. rewrite Hh. simpl. by split; [eexists|].
    - split; [done|]. by intros []. }
  assert (sort_paths (fst <$> map_to_list acc2) = paths) as Hpaths.
  { apply sorted_paths_unique. apply NoDup_Permutation; [apply NoDup_fst_map_to_list..|].
    intros p. rewrite <-(sort_paths_perm (fst <$> map_to_list acc2)), <-(sort_paths_perm (fst <$> map_to_list acc)).
    rewrite sort_paths_keys. fold paths. by rewrite Hkeys2. }
  unfold Merge in *. rewrite Hrun in HM. fold paths in HM. simpl. rewrite Hrun2, Hpaths.
  rewrite (emit_ext acc) by done.
  destruct (emit_again acc paths (NewWriter outs) w (NewWriter [])) as [w' Hw']; [done..|].
  exists w'. split; [done|]. apply emit_written in Hw' as [-> _]. done.
Qed.

(** * Concrete merges

    A chain of three layers over a small base image, on which the theorems above apply, and the
    chains on which their hypotheses fail: a file that replaces a directory, a file whose name
    sorts before its directory's opaque marker, hard links, a sparse file. *)

Definition ex_header (t : ascii) (n : string) (size : Z) : Header :=
  {| Typeflag := t; Name := n; Linkname := ""; Size := size; Mode := 420; Uid := 0; Gid := 0;
     Uname := "root"; Gname := "root"; ModTime := 7; AccessTime := 7; ChangeTime := 7;
     Devmajor := 0; Devminor := 0; PAXRecords := ∅; Format := 0 |}.
Definition ex_file (n content : string) : Item :=
  {| item_hdr := ex_header TypeReg n (blen content); item_data := Ok (bytes_of content) |}.
Definition ex_dir (n : string) : Item := {| item_hdr := ex_header TypeDir n 0; item_data := Ok [] |}.
Definition ex_layer (l : list Item) : Layer := {| items := l; ending := None |}.

Definition ex_base : fs :=
  layer_entries [ex_dir "etc/"; ex_file "etc/passwd" "p"; ex_dir "etc/conf/"; ex_file "etc/conf/a" "a";
                 ex_dir "usr"; ex_file "usr/sh" "s"].
Definition ex_opts : Options :=
  {| ScrubPrefixes := ["/var/cache/apt"; "/tmp/"];
     BasePaths := list_to_set ["/etc"; "/etc/passwd"; "/etc/conf"; "/etc/conf/a"; "/usr"; "/usr/sh"] |}.
Definition ex_layers : list Layer :=
  [ ex_layer [ex_file "./etc/.wh.passwd" ""; ex_file "./etc/hosts" "one"; ex_file "tmp/x" "x"];
    ex_layer [ex_file "etc/conf/.wh..wh..opq" ""; ex_file "etc/conf/b" "b"; ex_file "etc/passwd" "q"];
    ex_layer [ex_file ".wh.usr" ""; ex_dir "usr"; ex_file "etc/hosts" "two"; ex_file "tmp/.wh.x" ""] ].
Definition ex_out : Writer := snd (Merge ex_layers ex_opts []).

Lemma ex_merge : Merge ex_layers ex_opts [] = (None, ex_out).
Proof.
  unfold ex_out. destruct (Merge ex_layers ex_opts []) as [[e|] w] eqn:H; [|done].
  apply (f_equal (fun r => is_none (fst r))) in H. by vm_compute in H.
Qed.

Example ex_names :
  (fun hd => Name (fst hd)) <$> written ex_out =
  [".wh.usr"; "etc/.wh.passwd"; "etc/conf/.wh..wh..opq"; "etc/conf/b"; "etc/hosts"; "etc/passwd"; "usr"].
Proof. vm_compute. reflexivity. Qed.

(** The replaced password file survives its whiteout; the shell does not survive its directory's. *)
Lemma merge_does_what_the_layers_did_witness :
  apply_layer ex_base (archive ex_out) !! "etc/passwd" = apply_layers ex_base ex_layers !! "etc/passwd" /\
  is_none (apply_layer ex_base (archive ex_out) !! "etc/passwd") = false /\
  apply_layer ex_base (archive ex_out) !! "usr/sh" = apply_layers ex_base ex_layers !! "usr/sh" /\
  apply_layers ex_base ex_layers !! "usr/sh" = None /\ is_none (ex_base !! "usr/sh") = false.
Proof.
  assert (forall p, ordinary ex_opts p = true ->
    apply_layer ex_base (archive ex_out) !! p = apply_layers ex_base ex_layers !! p) as H.
  { intros p Hp.
    refine (merge_does_what_the_layers_did ex_opts ex_base ex_layers [] ex_out p _ _ _ ex_merge Hp);
      vm_compute; reflexivity. }
  split; [|split; [|split; [|split]]].
  - apply H. vm_compute. reflexivity.
  - vm_compute. reflexivity.
  - apply H. vm_compute. reflexivity.
  - vm_compute. reflexivity.
  - vm_compute. reflexivity.
Defined.

Lemma merged_layer_form_witness :
  closed ex_out = true /\ wanted ex_opts ".wh.usr" = true.
Proof.
  destruct (merged_layer_form ex_opts ex_layers [] ex_out ex_merge) as (Hc & _ & _ & Hw & _).
  split; [exact Hc|]. apply Hw. rewrite ex_names. left.
Defined.

Lemma merge_again_changes_nothing_witness :
  exists w, Merge [ex_layer (archive ex_out)] ex_opts [] = (None, w) /\ written w = written ex_out.
Proof.
  refine (merge_again_changes_nothing ex_opts ex_layers [] ex_out _ ex_merge _).
  - repeat constructor.
  - vm_compute. reflexivity.
Defined.

(** ** Where the hypotheses fail *)

(** A file that replaces a directory: the directory's old contents stay in the merged layer,
    below a path that is a file. *)
Definition ex_replacing : list Layer :=
  [ex_layer [ex_dir "opt"; ex_file "opt/tool" "t"]; ex_layer [ex_file "opt" "now a file"]].
Example replaced_directory_leaves_its_files :
  let w := snd (Merge ex_replacing {| ScrubPrefixes := []; BasePaths := ∅ |} []) in
  (fun hd => (Name (fst hd), is_dir (fst hd))) <$> written w = [("opt", false); ("opt/tool", false)] /\
  is_none (apply_layers ∅ ex_replacing !! "opt/tool") = true.
Proof. vm_compute. split; reflexivity. Qed.

(** A name that sorts before [.wh..wh..opq]: the merged layer has the file before the marker, the
    image specification keeps it, a second merge loses it. *)
Definition ex_early : list Layer := [ex_layer [ex_file "d/.wh..wh..opq" ""; ex_file "d/+x" "x"]].
Definition ex_early_opts : Options := {| ScrubPrefixes := []; BasePaths := {["/d/a"]} |}.
Definition ex_early_out : Writer := snd (Merge ex_early ex_early_opts []).
Example merging_twice_loses_a_file :
  (fun hd => Name (fst hd)) <$> written ex_early_out = ["d/+x"; "d/.wh..wh..opq"] /\
  is_none (apply_layer ∅ (archive ex_early_out) !! "d/+x") = false /\
  (fun hd => Name (fst hd)) <$> written (snd (Merge [ex_layer (archive ex_early_out)] ex_early_opts [])) =
    ["d/.wh..wh..opq"].
Proof. vm_compute. repeat split. Qed.

(** A hard link whose name sorts first is written before the file it links to, and a link whose
    target a later layer hides is written without it. *)
Definition ex_link (n target : string) : Item :=
  {| item_hdr := (ex_header TypeLink n 0) <| Linkname := target |>; item_data := Ok [] |}.
Example hard_links_are_torn :
  (fun hd => (Name (fst hd), Linkname (fst hd))) <$> written (snd (Merge
    [ex_layer [ex_file "z" "data"; ex_link "a" "z"]] {| ScrubPrefixes := []; BasePaths := ∅ |} [])) =
    [("a", "z"); ("z", "")] /\
  (fun hd => (Name (fst hd), Linkname (fst hd))) <$> written (snd (Merge
    [ex_layer [ex_file "a" "data"; ex_link "b" "a"]; ex_layer [ex_file ".wh.a" ""]]
    {| ScrubPrefixes := []; BasePaths := ∅ |} [])) = [("b", "a")].
Proof. vm_compute. split; reflexivity. Qed.

(** A type that carries data [Merge] does not read, a sparse file in the old GNU format: the
    writer misses its bytes when the next entry starts. *)
Example sparse_file_fails_the_merge :
  fst (Merge [ex_layer [{| item_hdr := ex_header "S" "a" 4; item_data := Ok (bytes_of "data") |}]]
         {| ScrubPrefixes := []; BasePaths := ∅ |} [])
  = Some (ErrClose missedWriting).
Proof. vm_compute. reflexivity. Qed.
